(* ===== verification/_CoqProject ===== *)
-Q . S2P
Prelude.v
Lzjb.v
Checksum.v
Sha256.v
OrdTree.v
Avl.v
SpaceMap.v
SpaceMapDisk.v
Bits.v
Metaslab.v
Txg.v
Blkptr.v
Mos.v
MetaslabTxg.v
MetaslabGroup.v
Gf256.v
Raidz.v
RaidzMap.v
RaidzIo.v
VdevDtl.v
Uconv.v
Namecheck.v
ZfsRlock.v
RlockThreads.v
ZioChecksum.v
MetaslabPool.v
ZioCompress.v
