(* ===== verification/Prelude.v ===== *)
(** * MacZFS: a verification library for the on-disk core of the file system

    MacZFS is the port of OpenSolaris ZFS to Mac OS X.  A write goes from the
    POSIX layer through the DMU into the I/O pipeline: the block is compressed
    (lzjb.c, gzip.c, zio_compress.c), given space (metaslab.c, space_map.c),
    checksummed into its block pointer (fletcher.c, sha256.c, zio_checksum.c) and
    handed to virtual devices, of which RAID-Z spreads it over several disks with
    parity (vdev_raidz.c).  A read goes back the same way and repairs what it can.
    Ordered sets are AVL trees (common/avl/avl.c), dirty objects wait on lists per
    transaction group (txg.c), reads and writes of a file exclude one another with
    range locks (zfs_rlock.c), and names are converted between Unicode encodings
    (common/unicode/uconv.c).  This library models these parts as executable
    definitions and proves them correct.  Paths below are under src/usr/src/;
    fs/zfs stands for uts/common/fs/zfs.

    ** How code is modelled

    A C function is a function to [outcome]: it returns a value, or stops with
    [Panic] (a failed VERIFY or ASSERT; debug kernels check both), [Fault] (an
    access outside an object, a dangling or null pointer) or [Fuel] (the bound on
    a loop of the model was too small).  State is passed explicitly.  An integer
    of w bits is a [Z] that is wrapped ([u8], [u16], [u32], [u64]) wherever the C
    arithmetic can wrap.  A buffer is a list whose reads and writes are checked;
    objects that are shared through pointers (range locks, list nodes) live in
    a store, by address.  A loop is a structural recursion where it has a counter
    and otherwise [iter] with a bound; that the bound suffices is part of each
    theorem, which says that the code returns and what it returns.  Code outside
    src/ or not modelled is a class of operations with laws (the DMU, zlib) or a
    parameter; each has an instance that the witnesses run.

    ** Files

    - Prelude: outcomes, machine integers, buffers, loops, bit fields, tactics.
    - Lzjb: [lzjb_compress] and [lzjb_decompress] of fs/zfs/lzjb.c.  The round
      trip, whatever the uninitialised hash table held; memory safety of the
      decompressor on any input.
    - Checksum: fs/zfs/fletcher.c on hosts of both byte orders.  Closed form of
      the sums, agreement of the native and byte-swapping variants, incremental
      use, detection of any change to one word.
    - Sha256: fs/zfs/sha256.c against FIPS 180-3.  The constants and initial values
      are the code's; the digest of the standard's example "abc" pins them.
    - OrdTree, Avl: an interface of ordered trees and its implementation by
      common/avl/avl.c with paths for parent pointers: balance, order, exact
      counts, search, both directions of walking, destruction, and the logarithmic
      cost of a search after any history.  An index given to [avl_insert] is taken to
      belong to the tree; the assertions of debug kernels that it does are not modelled.
    - SpaceMap: fs/zfs/space_map.c in memory, over any ordered tree: each
      operation is one on sets of offsets, on every branch.
    - SpaceMapDisk: the log format of space maps, loading, syncing, truncation,
      and allocation through a picker; [Dmu] is what it needs of the DMU.
    - Bits: alignment macros and the two copies of [highbit].
    - Metaslab: the first-fit picker of fs/zfs/metaslab.c.
    - Txg: the lists of dirty objects of fs/zfs/txg.c, with nodes and links in
      a store; each routine refines one on sequences.
    - Mos: what metaslabs need of the pool's object set ([Mos]: objects with a
      bonus buffer), over [Dmu], and an instance in memory.
    - MetaslabTxg: one metaslab of metaslab.c over transaction groups - weight,
      activation, allocation, freeing and claiming under its lock,
      [metaslab_sync] with appended and condensed logs, [metaslab_sync_done] - with
      the accounting and the dirty lists of vdev.c.  The life of an offset is an
      automaton, every operation a transition of it.
    - MetaslabGroup: the metaslabs of a top-level vdev: [metaslab_group_alloc], the
      loops of [vdev_sync] and [vdev_sync_done], and [vdev_metaslab_init].  Along
      any history the code refines a contract on the statuses of offsets; space
      on disk is not reused and freed space waits until its group is on disk;
      opening the pool finds what was allocated.
    - Gf256, Raidz, RaidzMap, RaidzIo: fs/zfs/vdev_raidz.c.  Arithmetic in
      GF(2^8), given as polynomials modulo x^8 + x^4 + x^3 + x^2 + 1, generation of
      parity, reconstruction of any one or two lost columns, the layout of a block
      on the disks, and the two halves of an I/O with its combinatorial
      reconstruction and its repairs.  The counters of corrected columns are left out.
    - VdevDtl: the dirty time logs of vdev.c over the tree of vdevs: how missed writes
      are entered, how interior logs are derived, how a leaf's log is written and read
      back.  A missed write is remembered, in memory and on disk, until a scrub is done.
    - Uconv: common/unicode/uconv.c, the six conversions between UTF-8, UTF-16
      and UTF-32 with every flag and error, and their round trips.
    - Namecheck: common/zfs/zfs_namecheck.c and [zpool_name_valid] of
      lib/libzfs/common/libzfs_pool.c; every check accepts exactly the names of its
      grammar.  The manual pages describe other grammars in a few cases, which a
      theorem lists.
    - ZfsRlock, RlockThreads: fs/zfs/zfs_rlock.c, first each stretch of code that
      runs under the lock, then histories of any number of threads: exclusion,
      no failed assertion or dangling pointer, no lost wakeup.
    - Blkptr: the bit fields of block pointers in fs/zfs/sys/spa.h.
    - ZioChecksum: fs/zfs/zio_checksum.c, the checksum stages of zio.c and fault
      injection (zio_inject.c): what one host writes, the other verifies, and
      the error a verification returns is exact.
    - MetaslabPool: the rest of metaslab.c, over all vdevs of a pool: the rings of
      metaslab classes, [metaslab_alloc], [metaslab_free] and [metaslab_claim].  A
      block gets all the addresses it asks for, disjoint and free before, or none
      and then those it was tried for are zeroed.
    - ZioCompress: fs/zfs/zio_compress.c, gzip.c, zmod/zmod.c and the compression
      stages of zio.c; composed with the checksums, a block that is written and
      read back is the same block.

    ** Bounds

    Sizes are bounded only where the code is: space map offsets fit 47 bits in
    units of the map, objects have less than 2^63 bytes, block sizes fit the
    fields of a block pointer, a RAID-Z group has at most 255 columns.  The fuel
    of a loop is written at its definition: the number of nodes, segments or
    elements left, or the length of a buffer, plus one.

    ** Interleaving

    A function that holds one lock from start to end is one step.  Range locks
    are split at every wait; an unlock or a reduction is one step, although its last
    broadcasts come after the mutex is dropped: a writer's lock has left the tree by
    then, and a thread that begins to wait for a reduced lock in between is at most
    woken once more.  The space map routines drop the lock around calls
    into the DMU, and so does [metaslab_sync]; the model runs them without
    interference there.  An operation on a vdev's metaslabs is one step; the
    histories of MetaslabGroup interleave such steps in any order, with any number
    of sync passes, in the three groups that are open at a time.  In VdevDtl the end of
    an I/O, a reassessment and a pass over the dirty vdevs are one step each.

    ** Not modelled

    The ARC, dbufs, dnodes, the DSL, ZAP and the intent log (caches and hash
    tables under kernel locks and threads); the pool and the vdevs other than
    RAID-Z, their dirty time logs apart (configuration in nvlists, labels, device
    I/O); the stages of the pipeline that allocate, gang and wait; the POSIX layer,
    commands, libraries and Mac OS X glue (system calls and output); zlib (third
    party); Unicode normalisation (generated tables); and the OpenSolaris kernel and
    RPC sources kept in the archive, which are not part of MacZFS.

    ** Plan

    Next: the mirror vdev, which reads by the dirty time logs, the allocation stages
    of the pipeline with gang blocks, uberblocks, and the reader-writer lock of the
    DSL. *)

From stdpp Require Import base list option numbers relations.
Local Open Scope Z_scope.

(** ** Outcomes of C code

    A C routine either returns, or stops the machine ([VERIFY], [panic]), or
    touches memory outside the object it was given, or (only in the model)
    runs out of the fuel its loop was started with. *)

Inductive stop :=
  | Panic      (** a failed [VERIFY] or [ASSERT], or [zfs_panic_recover] without recovery *)
  | Fault      (** a read or write outside the buffer *)
  | Fuel.      (** the loop bound of the model was too small *)

#[global] Instance stop_eq_dec : EqDecision stop.
Proof. solve_decision. Defined.

Inductive outcome (A : Type) :=
  | Ok (a : A)
  | Err (e : stop).
Arguments Ok {A} a.
Arguments Err {A} e.

#[global] Instance outcome_ret : MRet outcome := fun A a => Ok a.
#[global] Instance outcome_bind : MBind outcome := fun A B f m =>
  match m with Ok a => f a | Err e => Err e end.
#[global] Instance outcome_fmap : FMap outcome := fun A B f m =>
  match m with Ok a => Ok (f a) | Err e => Err e end.

(** [VERIFY(c)]: panic unless the condition holds. *)
Definition verify (c : bool) : outcome unit := if c then Ok tt else Err Panic.

(** Iterate the body of a [while] loop: [body] gives [inl] to go round again
    and [inr] to leave the loop. *)
Fixpoint iter {S R : Type} (fuel : nat) (body : S -> outcome (S + R)) (s : S)
    : outcome R :=
  match fuel with
  | O => Err Fuel
  | Datatypes.S fuel' =>
      match body s with
      | Err e => Err e
      | Ok (inr r) => Ok r
      | Ok (inl s') => iter fuel' body s'
      end
  end.

(** ** Machine integers: w-bit unsigned values as [Z] in [0, 2^w) *)

Definition wrap (w z : Z) : Z := z `mod` 2 ^ w.
Abbreviation u8 := (wrap 8).
Abbreviation u16 := (wrap 16).
Abbreviation u32 := (wrap 32).
Abbreviation u64 := (wrap 64).

Definition is_byte (b : Z) : Prop := 0 <= b < 256.
Definition is_u32 (b : Z) : Prop := 0 <= b < 2 ^ 32.
Definition is_u64 (b : Z) : Prop := 0 <= b < 2 ^ 64.

(** ** Buffers: a C array is a list, indexed from 0 *)

Definition rd (buf : list Z) (i : Z) : outcome Z :=
  if i <? 0 then Err Fault
  else match buf !! Z.to_nat i with Some v => Ok v | None => Err Fault end.

Definition wr (buf : list Z) (i v : Z) : outcome (list Z) :=
  if (0 <=? i) && (i <? Z.of_nat (length buf)) then Ok (<[Z.to_nat i := v]> buf)
  else Err Fault.

(** Length of a buffer as the C code counts it. *)
Abbreviation zlen l := (Z.of_nat (length l)).

(** ** Automation *)

Create HintDb zfs discriminated.
#[global] Hint Constants Opaque : zfs.

(** Turn boolean comparisons of the code into propositions. *)
Ltac b2p :=
  repeat match goal with
  | H : (_ && _)%bool = true |- _ => apply andb_true_iff in H; destruct H
  | H : (_ || _)%bool = false |- _ => apply orb_false_iff in H; destruct H
  | H : negb _ = true |- _ => apply negb_true_iff in H
  | H : negb _ = false |- _ => apply negb_false_iff in H
  | H : (_ <? _) = true |- _ => apply Z.ltb_lt in H
  | H : (_ <? _) = false |- _ => apply Z.ltb_ge in H
  | H : (_ <=? _) = true |- _ => apply Z.leb_le in H
  | H : (_ <=? _) = false |- _ => apply Z.leb_gt in H
  | H : (_ =? _) = true |- _ => apply Z.eqb_eq in H
  | H : (_ =? _) = false |- _ => apply Z.eqb_neq in H
  end.

(** Case analysis on the first test of the goal or of a hypothesis. *)
Ltac step_if :=
  match goal with
  | |- context [if ?b then _ else _] => let E := fresh "E" in destruct b eqn:E
  end.
Ltac step_if_in H :=
  match type of H with
  | context [if ?b then _ else _] => let E := fresh "E" in destruct b eqn:E
  end.

(** Run the outcome monad as far as the known equations go. *)
Ltac run := cbn [mbind outcome_bind mret outcome_ret fmap outcome_fmap] in *.

(** ** Lemmas on outcomes *)

Lemma verify_ok c x : verify c = Ok x -> c = true.
Proof. destruct c; done. Qed.

Lemma bind_ok {A B} (m : outcome A) (f : A -> outcome B) b :
  m ≫= f = Ok b -> exists a, m = Ok a /\ f a = Ok b.
Proof. destruct m; run; naive_solver. Qed.

(** Open every successful bind of hypothesis [H]. *)
Ltac inv_bind H :=
  repeat match type of H with
  | _ ≫= _ = Ok _ =>
      let a := fresh "r" in let H1 := fresh "B" in let H2 := fresh "B" in
      destruct (bind_ok _ _ _ H) as (a & H1 & H2); clear H;
      try (apply verify_ok in H1); rename H2 into H; cbn beta in H
  end.

Lemma iter_S {S R} fuel (body : S -> outcome (S + R)) s :
  iter (Datatypes.S fuel) body s =
    match body s with
    | Err e => Err e
    | Ok (inr r) => Ok r
    | Ok (inl s') => iter fuel body s'
    end.
Proof. done. Qed.

(** A loop whose state has an invariant and a measure that every round
    decreases returns within [measure + 1] rounds, with the postcondition of
    its last round. *)
Lemma iter_total {S R} (I : S -> Prop) (Q : R -> Prop) (m : S -> nat)
    (body : S -> outcome (S + R)) :
  (forall s, I s ->
     match body s with
     | Ok (inr r) => Q r
     | Ok (inl s') => I s' /\ (m s' < m s)%nat
     | Err _ => False
     end) ->
  forall fuel s, I s -> (m s < fuel)%nat -> exists r, iter fuel body s = Ok r /\ Q r.
Proof.
  intros Hb. induction fuel as [|fuel IH]; intros s Hs Hm; [lia|].
  rewrite iter_S. specialize (Hb s Hs).
  destruct (body s) as [[s'|r]|e]; [|eauto|done].
  destruct Hb as [Hs' Hlt]. apply IH; [done|lia].
Qed.

(** More fuel never changes the result of a loop that returned. *)
Lemma iter_fuel_mono {S R} (body : S -> outcome (S + R)) f1 f2 s r :
  iter f1 body s = Ok r -> (f1 <= f2)%nat -> iter f2 body s = Ok r.
Proof.
  revert f2 s. induction f1 as [|f1 IH]; intros f2 s H Hle; [done|].
  destruct f2 as [|f2]; [lia|]. rewrite iter_S in *.
  destruct (body s) as [[s'|r']|e]; [|done|done]. apply IH; [done|lia].
Qed.

(** An invariant of the rounds of a loop that returned. *)
Lemma iter_inv {S R} (I : S -> Prop) (Q : R -> Prop) (body : S -> outcome (S + R)) :
  (forall s s', I s -> body s = Ok (inl s') -> I s') ->
  (forall s r, I s -> body s = Ok (inr r) -> Q r) ->
  forall fuel s r, I s -> iter fuel body s = Ok r -> Q r.
Proof.
  intros Hl Hr. induction fuel as [|fuel IH]; intros s r Hs H; [done|].
  rewrite iter_S in H. destruct (body s) as [[s'|r']|e] eqn:E; [|injection H as <-; eauto|done].
  apply (IH s'); [by eapply Hl|done].
Qed.

(** If every round decreases a measure, fuel beyond the measure is enough. *)
Lemma iter_fuel_enough {S R} (I : S -> Prop) (m : S -> nat) (body : S -> outcome (S + R)) :
  (forall s s', I s -> body s = Ok (inl s') -> I s' /\ (m s' < m s)%nat) ->
  forall f f' s r, I s -> iter f body s = Ok r -> (m s < f')%nat -> iter f' body s = Ok r.
Proof.
  intros Hm. induction f as [|f IH]; intros f' s r Hs H Hlt; [done|].
  destruct f' as [|f']; [lia|]. rewrite iter_S in *.
  destruct (body s) as [[s'|r']|e] eqn:E; [|done|done].
  destruct (Hm _ _ Hs E). apply IH; [done|done|lia].
Qed.

(** [n] rounds that go on, followed by a round that leaves the loop. *)
Lemma nsteps_iter {S R} (body : S -> outcome (S + R)) n s s' r :
  nsteps (fun a b => body a = Ok (inl b)) n s s' -> body s' = Ok (inr r) ->
  forall f, (n < f)%nat -> iter f body s = Ok r.
Proof.
  induction 1 as [s|n s s1 s2 H1 _ IH]; intros Hr [|f] Hf; try lia; rewrite iter_S.
  - rewrite Hr. done.
  - rewrite H1. apply IH; [done|lia].
Qed.

(** ** Lemmas on machine integers *)

Lemma wrap_range w z : 0 <= w -> 0 <= wrap w z < 2 ^ w.
Proof. intros. apply Z.mod_pos_bound. lia. Qed.

Lemma wrap_small w z : 0 <= z < 2 ^ w -> wrap w z = z.
Proof. apply Z.mod_small. Qed.

Lemma wrap_add_l w a b : wrap w (wrap w a + b) = wrap w (a + b).
Proof. apply Zplus_mod_idemp_l. Qed.
Lemma wrap_add_r w a b : wrap w (a + wrap w b) = wrap w (a + b).
Proof. apply Zplus_mod_idemp_r. Qed.
Lemma wrap_wrap w a : wrap w (wrap w a) = wrap w a.
Proof. apply Zmod_mod. Qed.

(** ** Lemmas on buffers *)

Lemma rd_ok buf i v : rd buf i = Ok v <-> 0 <= i /\ buf !! Z.to_nat i = Some v.
Proof.
  unfold rd. step_if; b2p; [naive_solver lia|].
  destruct (buf !! Z.to_nat i); naive_solver lia.
Qed.

Lemma rd_in buf i : 0 <= i < zlen buf -> exists v, rd buf i = Ok v.
Proof.
  intros H. destruct (lookup_lt_is_Some_2 buf (Z.to_nat i)) as [v Hv]; [lia|].
  exists v. apply rd_ok. split; [lia|done].
Qed.

Lemma wr_in buf i v : 0 <= i < zlen buf -> wr buf i v = Ok (<[Z.to_nat i := v]> buf).
Proof. intros H. unfold wr. rewrite (proj2 (andb_true_iff _ _)); [done|lia]. Qed.

Lemma wr_ok buf i v buf' :
  wr buf i v = Ok buf' <-> 0 <= i < zlen buf /\ buf' = <[Z.to_nat i := v]> buf.
Proof. unfold wr. step_if; b2p; naive_solver lia. Qed.

Lemma rd_wr_eq buf i v buf' : wr buf i v = Ok buf' -> rd buf' i = Ok v.
Proof.
  intros [Hi ->]%wr_ok. apply rd_ok. split; [lia|].
  apply list_lookup_insert_eq. lia.
Qed.

Lemma rd_wr_ne buf i v buf' k : wr buf i v = Ok buf' -> k <> i -> rd buf' k = rd buf k.
Proof.
  intros [Hi ->]%wr_ok Hk. unfold rd. step_if; [done|]. b2p.
  rewrite list_lookup_insert_ne by lia. done.
Qed.

Lemma wr_len buf i v buf' : wr buf i v = Ok buf' -> length buf' = length buf.
Proof. intros [_ ->]%wr_ok. apply length_insert. Qed.

Lemma wr_ex buf i v : 0 <= i < zlen buf -> exists buf', wr buf i v = Ok buf'.
Proof. intros. eexists. by apply wr_in. Qed.

Lemma rd_range buf i v : rd buf i = Ok v -> 0 <= i < zlen buf.
Proof. intros [? Hl]%rd_ok. apply lookup_lt_Some in Hl. lia. Qed.

(** A property of all elements of a buffer. *)
Lemma rd_Forall (P : Z -> Prop) buf i v : Forall P buf -> rd buf i = Ok v -> P v.
Proof. intros HP [_ Hl]%rd_ok. by eapply Forall_lookup_1. Qed.

Lemma wr_Forall (P : Z -> Prop) buf i v buf' : Forall P buf -> P v -> wr buf i v = Ok buf' -> Forall P buf'.
Proof. intros HP Hv [_ ->]%wr_ok. by apply Forall_insert. Qed.

(** Two buffers agree below offset [n]. *)
Definition agree (n : Z) (l1 l2 : list Z) : Prop :=
  forall k, 0 <= k < n -> rd l1 k = rd l2 k.

Lemma agree_full l1 l2 : length l1 = length l2 -> agree (zlen l1) l1 l2 -> l1 = l2.
Proof.
  intros Hl Ha. apply list_eq_same_length with (length l1); [done|done|].
  intros i x y Hi Hx Hy. specialize (Ha (Z.of_nat i)).
  assert (rd l1 (Z.of_nat i) = Ok x) as H1 by (apply rd_ok; rewrite Nat2Z.id; split; [lia|done]).
  assert (rd l2 (Z.of_nat i) = Ok y) as H2 by (apply rd_ok; rewrite Nat2Z.id; split; [lia|done]).
  rewrite Ha, H2 in H1 by lia. congruence.
Qed.

Lemma agree_mono n m l1 l2 : agree n l1 l2 -> m <= n -> agree m l1 l2.
Proof. intros H ? k ?. apply H. lia. Qed.

Lemma agree_wr n l l' s v :
  agree n l s -> wr l n v = Ok l' -> rd s n = Ok v -> agree (n + 1) l' s.
Proof.
  intros Ha Hw Hs k Hk. destruct (decide (k = n)) as [->|Hne].
  - rewrite Hs. eapply rd_wr_eq; eauto.
  - erewrite rd_wr_ne by eauto. apply Ha. lia.
Qed.

Lemma rd_take buf n k : 0 <= k < n -> rd (take (Z.to_nat n) buf) k = rd buf k.
Proof.
  intros. unfold rd. step_if; [done|]. rewrite lookup_take_lt by lia. done.
Qed.

(** ** Bit fields *)

Lemma lor_shiftl_add a b n :
  0 <= n -> 0 <= b < 2 ^ n -> Z.lor (Z.shiftl a n) b = a * 2 ^ n + b.
Proof.
  intros Hn Hb. rewrite <- Z.shiftl_mul_pow2 by done.
  assert (Z.land (Z.shiftl a n) b = 0) as Hz.
  { apply Z.bits_inj'. intros i Hi. rewrite Z.land_spec, Z.bits_0.
    destruct (decide (i < n)).
    - rewrite Z.shiftl_spec_low by lia. done.
    - rewrite <- (Z.mod_small b (2 ^ n)) by lia.
      rewrite Z.mod_pow2_bits_high by lia. apply andb_false_r. }
  rewrite Z.add_nocarry_lxor by done. rewrite Z.lxor_lor by done. done.
Qed.

Lemma land_ones_mod a n : 0 <= n -> Z.land a (Z.shiftl 1 n - 1) = a `mod` 2 ^ n.
Proof.
  intros. rewrite Z.shiftl_1_l, <- Z.land_ones by done. f_equal.
  rewrite Z.ones_equiv. lia.
Qed.

(** A value below [2^w] has no bits from [w] up. *)
Lemma bits_above a w i : 0 <= a < 2 ^ w -> w <= i -> Z.testbit a i = false.
Proof.
  intros Ha Hi. destruct (decide (0 <= w)).
  - rewrite <- (Z.mod_small a (2 ^ w)) by lia. apply Z.mod_pow2_bits_high. lia.
  - rewrite Z.pow_neg_r in Ha by lia. lia.
Qed.

Lemma rd_nth buf i : 0 <= i < zlen buf -> rd buf i = Ok (nth (Z.to_nat i) buf 0).
Proof.
  intros Hi. apply rd_ok. split; [lia|].
  destruct (lookup_lt_is_Some_2 buf (Z.to_nat i)) as [v Hv]; [lia|].
  rewrite Hv. f_equal. symmetry. by apply nth_lookup_Some.
Qed.
