(* ===== verification/Lzjb.v ===== *)
(** * LZJB compression: fs/zfs/lzjb.c

    [compress] and [decompress] follow [lzjb_compress] and [lzjb_decompress]
    statement by statement.  The source and destination are separate buffers
    (lists of bytes); every read and write is bounds checked, so an access
    outside a buffer shows as [Err Fault].  Pointers into a buffer are indices.
    The hash table [lempel] is not initialised by the code and stores addresses
    truncated to 16 bits, so the compressor takes the initial table and the
    address of the source buffer as arguments: no theorem assumes anything
    about either beyond the table's size. *)

From stdpp Require Import base list option numbers relations.
From S2P Require Import Prelude.
Local Open Scope Z_scope.

Module Lzjb.

(** ** Definitions *)

Definition NBBY : Z := 8.
Definition MATCH_BITS : Z := 6.
Definition MATCH_MIN : Z := 3.
Definition MATCH_MAX : Z := Z.shiftl 1 MATCH_BITS + (MATCH_MIN - 1).
Definition OFFSET_MASK : Z := Z.shiftl 1 (16 - MATCH_BITS) - 1.
Definition LEMPEL_SIZE : Z := 256.

(** The locals of [lzjb_compress]: [src] and [dst] as offsets, [copymap] as the
    offset of the map byte of the current group (not yet set before the first
    round), and the destination buffer. *)
Record cstate := CState {
  c_src : Z;
  c_dst : Z;
  c_buf : list Z;
  c_copymap : Z;
  c_copymask : Z;
  c_lempel : list Z
}.

(** [for (mlen = MATCH_MIN; mlen < MATCH_MAX; mlen++)
       if (src[mlen] != cpy[mlen]) break;] *)
Definition match_len (s : list Z) (src cpy : Z) : outcome Z :=
  iter (Z.to_nat MATCH_MAX)
    (fun mlen =>
       if mlen <? MATCH_MAX then
         a ← rd s (src + mlen);
         b ← rd s (cpy + mlen);
         Ok (if a =? b then inl (mlen + 1) else inr mlen)
       else Ok (inr mlen))
    MATCH_MIN.

(** [for (src = s_start, dst = d_start; mlen; mlen--) *dst++ = *src++;] *)
Fixpoint copy_all (n : nat) (s : list Z) (buf : list Z) (i : Z) : outcome (list Z) :=
  match n with
  | O => Ok buf
  | S n' => b ← rd s i; buf' ← wr buf i b; copy_all n' s buf' (i + 1)
  end.

Section Compress.
Variable s_addr : Z.        (** the address [(uintptr_t)s_start] *)
Variable s : list Z.        (** the [s_len] bytes at [s_start] *)
Variable d_len : Z.

Definition s_len : Z := zlen s.

(** [&lempel[((src[0] + 13) ^ (src[1] - 13) ^ src[2]) & (LEMPEL_SIZE - 1)]] *)
Definition hash (b0 b1 b2 : Z) : Z :=
  Z.land (Z.lxor (Z.lxor (b0 + 13) (b1 - 13)) b2) (LEMPEL_SIZE - 1).

(** [*dst++ = *src++] *)
Definition literal (c : cstate) : outcome cstate :=
  b ← rd s (c_src c);
  buf ← wr (c_buf c) (c_dst c) b;
  Ok (CState (c_src c + 1) (c_dst c + 1) buf (c_copymap c) (c_copymask c) (c_lempel c)).

(** The part of the loop body after the copy-map test. *)
Definition emit (c : cstate) : outcome cstate :=
  if s_len - MATCH_MAX <? c_src c then literal c
  else
    b0 ← rd s (c_src c);
    b1 ← rd s (c_src c + 1);
    b2 ← rd s (c_src c + 2);
    let h := hash b0 b1 b2 in
    hp ← rd (c_lempel c) h;
    let offset := Z.land (s_addr + c_src c - hp) OFFSET_MASK in
    lempel' ← wr (c_lempel c) h (u16 (s_addr + c_src c));
    let c := CState (c_src c) (c_dst c) (c_buf c) (c_copymap c) (c_copymask c) lempel' in
    let cpy := c_src c - offset in
    if (0 <=? cpy) && negb (cpy =? c_src c) then
      p0 ← rd s cpy;
      p1 ← rd s (cpy + 1);
      p2 ← rd s (cpy + 2);
      if (b0 =? p0) && (b1 =? p1) && (b2 =? p2) then
        m ← rd (c_buf c) (c_copymap c);
        buf ← wr (c_buf c) (c_copymap c) (Z.lor m (c_copymask c));
        mlen ← match_len s (c_src c) cpy;
        buf ← wr buf (c_dst c)
                (u8 (Z.lor (Z.shiftl (mlen - MATCH_MIN) (NBBY - MATCH_BITS))
                           (Z.shiftr offset NBBY)));
        buf ← wr buf (c_dst c + 1) (u8 offset);
        Ok (CState (c_src c + mlen) (c_dst c + 2) buf (c_copymap c) (c_copymask c)
              (c_lempel c))
      else literal c
    else literal c.

(** One round of [while (src < (uchar_t * )s_start + s_len)].  [inr (n, buf)]
    is [return (n)] with the destination buffer as it then is. *)
Definition cbody (c : cstate) : outcome (cstate + Z * list Z) :=
  if c_src c <? s_len then
    let copymask := Z.shiftl (c_copymask c) 1 in
    if copymask =? Z.shiftl 1 NBBY then
      if d_len - 1 - 2 * NBBY <=? c_dst c then
        if negb (d_len =? s_len) then Ok (inr (s_len, c_buf c))
        else
          buf ← copy_all (length s) s (c_buf c) 0;
          Ok (inr (s_len, buf))
      else
        buf ← wr (c_buf c) (c_dst c) 0;
        c' ← emit (CState (c_src c) (c_dst c + 1) buf (c_dst c) 1 (c_lempel c));
        Ok (inl c')
    else
      c' ← emit (CState (c_src c) (c_dst c) (c_buf c) (c_copymap c) copymask (c_lempel c));
      Ok (inl c')
  else Ok (inr (c_dst c, c_buf c)).

(** [lzjb_compress]: the returned size and the final destination buffer. *)
Definition compress (lempel d : list Z) : outcome (Z * list Z) :=
  iter (S (length s)) cbody (CState 0 0 d 0 (Z.shiftl 1 (NBBY - 1)) lempel).
End Compress.

(** The locals of [lzjb_decompress]. *)
Record dstate := DState {
  d_src : Z;
  d_dst : Z;
  d_buf : list Z;
  d_copymap : Z;
  d_copymask : Z
}.

(** [while (--mlen >= 0 && dst < d_end) *dst++ = *cpy++;] *)
Fixpoint copy_match (mlen : nat) (d_len : Z) (buf : list Z) (dst cpy : Z)
    : outcome (list Z * Z) :=
  match mlen with
  | O => Ok (buf, dst)
  | S mlen' =>
      if dst <? d_len then
        b ← rd buf cpy;
        buf' ← wr buf dst b;
        copy_match mlen' d_len buf' (dst + 1) (cpy + 1)
      else Ok (buf, dst)
  end.

Section Decompress.
Variable s : list Z.        (** the compressed bytes *)
Variable d_len : Z.

(** The body of the loop after the copy-map byte is available. *)
Definition dexpand (d : dstate) : outcome (dstate + Z * list Z) :=
  if negb (Z.land (d_copymap d) (d_copymask d) =? 0) then
    b0 ← rd s (d_src d);
    b1 ← rd s (d_src d + 1);
    let mlen := Z.shiftr b0 (NBBY - MATCH_BITS) + MATCH_MIN in
    let offset := Z.land (Z.lor (Z.shiftl b0 NBBY) b1) OFFSET_MASK in
    let cpy := d_dst d - offset in
    if cpy <? 0 then Ok (inr (-1, d_buf d))
    else
      '(buf, dst) ← copy_match (Z.to_nat mlen) d_len (d_buf d) (d_dst d) cpy;
      Ok (inl (DState (d_src d + 2) dst buf (d_copymap d) (d_copymask d)))
  else
    b ← rd s (d_src d);
    buf ← wr (d_buf d) (d_dst d) b;
    Ok (inl (DState (d_src d + 1) (d_dst d + 1) buf (d_copymap d) (d_copymask d))).

Definition dbody (d : dstate) : outcome (dstate + Z * list Z) :=
  if d_dst d <? d_len then
    let copymask := Z.shiftl (d_copymask d) 1 in
    if copymask =? Z.shiftl 1 NBBY then
      m ← rd s (d_src d);
      dexpand (DState (d_src d + 1) (d_dst d) (d_buf d) m 1)
    else dexpand (DState (d_src d) (d_dst d) (d_buf d) (d_copymap d) copymask)
  else Ok (inr (0, d_buf d)).

(** [lzjb_decompress]: the returned code and the final destination buffer. *)
Definition decompress (d : list Z) : outcome (Z * list Z) :=
  iter (S (Z.to_nat d_len)) dbody (DState 0 0 d 0 (Z.shiftl 1 (NBBY - 1))).
End Decompress.

(** ** The match-length loop and the copy loops *)

Lemma MATCH_MAX_val : MATCH_MAX = 66. Proof. done. Qed.
Lemma OFFSET_MASK_mod z : Z.land z OFFSET_MASK = z `mod` 1024.
Proof. apply (land_ones_mod z 10). lia. Qed.

Lemma match_len_spec s src cpy :
  0 <= cpy -> 0 <= src -> cpy <= src -> src + MATCH_MAX <= zlen s ->
  (forall k, 0 <= k < MATCH_MIN -> rd s (src + k) = rd s (cpy + k)) ->
  exists mlen, match_len s src cpy = Ok mlen /\ MATCH_MIN <= mlen <= MATCH_MAX /\
    forall k, 0 <= k < mlen -> rd s (src + k) = rd s (cpy + k).
Proof.
  intros Hc Hs Hle Hlen H3. unfold match_len.
  apply (iter_total
    (fun m => MATCH_MIN <= m <= MATCH_MAX /\ forall k, 0 <= k < m -> rd s (src + k) = rd s (cpy + k))
    (fun m => MATCH_MIN <= m <= MATCH_MAX /\ forall k, 0 <= k < m -> rd s (src + k) = rd s (cpy + k))
    (fun m => Z.to_nat (MATCH_MAX - m))).
  - intros m [Hm Hk]. rewrite MATCH_MAX_val in *. unfold MATCH_MIN in *. step_if; b2p; [|split; [lia|done]].
    destruct (rd_in s (src + m)) as [a Ha]; [lia|].
    destruct (rd_in s (cpy + m)) as [b Hb]; [lia|].
    rewrite Ha, Hb. run. step_if; b2p; [|split; [lia|done]].
    split; [split|]; [lia| |lia].
    intros k ?. destruct (decide (k = m)) as [->|]; [congruence|]. apply Hk. lia.
  - split; [rewrite MATCH_MAX_val; unfold MATCH_MIN; lia|done].
  - rewrite MATCH_MAX_val. unfold MATCH_MIN. lia.
Qed.

Lemma copy_all_spec n s buf i :
  0 <= i -> i + Z.of_nat n <= zlen s -> length buf = length s -> agree i buf s ->
  exists buf', copy_all n s buf i = Ok buf' /\ length buf' = length s /\
    agree (i + Z.of_nat n) buf' s.
Proof.
  revert buf i. induction n as [|n IH]; intros buf i Hi Hn Hl Ha; cbn [copy_all].
  - exists buf. rewrite Z.add_0_r. done.
  - destruct (rd_in s i) as [b Hb]; [lia|]. rewrite Hb. run.
    destruct (wr_ex buf i b) as [buf' Hw]; [lia|]. rewrite Hw. run.
    destruct (IH buf' (i + 1)) as (buf2 & H1 & H2 & H3); try lia.
    + rewrite (wr_len _ _ _ _ Hw). done.
    + eapply agree_wr; eauto.
    + exists buf2. rewrite H1. split_and!; [done|done|].
      eapply agree_mono; [apply H3|lia].
Qed.

(** Copying a match byte by byte reproduces the source, even when the match
    overlaps the bytes being written. *)
Lemma copy_match_spec n s buf dst cpy :
  0 <= cpy < dst -> dst + Z.of_nat n <= zlen s -> length buf = length s ->
  agree dst buf s ->
  (forall k, 0 <= k < Z.of_nat n -> rd s (dst + k) = rd s (cpy + k)) ->
  exists buf', copy_match n (zlen s) buf dst cpy = Ok (buf', dst + Z.of_nat n) /\
    length buf' = length s /\ agree (dst + Z.of_nat n) buf' s.
Proof.
  revert buf dst cpy. induction n as [|n IH]; intros buf dst cpy Hc Hn Hl Ha Hk;
    cbn [copy_match].
  - exists buf. rewrite Z.add_0_r. done.
  - step_if; b2p; [|lia].
    destruct (rd_in s dst) as [b Hb]; [lia|].
    assert (rd buf cpy = Ok b) as Hr.
    { rewrite Ha by lia. specialize (Hk 0). rewrite !Z.add_0_r in Hk.
      rewrite <- Hk by lia. done. }
    rewrite Hr. run. destruct (wr_ex buf dst b) as [buf' Hw]; [lia|].
    rewrite Hw. run.
    destruct (IH buf' (dst + 1) (cpy + 1)) as (buf2 & H1 & H2 & H3); try lia.
    + rewrite (wr_len _ _ _ _ Hw). done.
    + eapply agree_wr; eauto.
    + intros k ?. rewrite <- !Z.add_assoc. apply Hk. lia.
    + exists buf2. rewrite H1. split_and!; [do 2 f_equal; lia|done|].
      eapply agree_mono; [apply H3|lia].
Qed.

(** The two bytes of a match token decode to the length and offset they encode. *)
Lemma token_roundtrip mlen offset :
  MATCH_MIN <= mlen <= MATCH_MAX -> 0 <= offset < 1024 ->
  let b0 := u8 (Z.lor (Z.shiftl (mlen - MATCH_MIN) (NBBY - MATCH_BITS))
                      (Z.shiftr offset NBBY)) in
  Z.shiftr b0 (NBBY - MATCH_BITS) + MATCH_MIN = mlen /\
  Z.land (Z.lor (Z.shiftl b0 NBBY) (u8 offset)) OFFSET_MASK = offset.
Proof.
  intros Hm Ho. rewrite MATCH_MAX_val in Hm. unfold NBBY, MATCH_BITS, MATCH_MIN in *.
  change (8 - 6) with 2. rewrite OFFSET_MASK_mod.
  rewrite (Z.shiftr_div_pow2 offset) by lia. change (2 ^ 8) with 256.
  assert (0 <= offset / 256 < 4) by (split; [apply Z.div_pos|apply Z.div_lt_upper_bound]; lia).
  rewrite lor_shiftl_add by lia. change (2 ^ 2) with 4.
  rewrite (wrap_small 8) by lia.
  unfold wrap. change (2 ^ 8) with 256.
  assert (0 <= offset `mod` 256 < 256) by (apply Z.mod_pos_bound; lia).
  rewrite lor_shiftl_add, Z.shiftr_div_pow2 by lia.
  change (2 ^ 8) with 256. change (2 ^ 2) with 4.
  split; Z.to_euclidean_division_equations; lia.
Qed.

(** ** The compressor drives the decompressor

    [cinv] is the compressor's loop invariant with [2^t] the copy mask;
    [compat F c] says that a finished output [F] extends what the compressor
    has written so far, up to the bits of the current map byte that are still
    to come; [dmatch F c d] that the decompressor, reading [F], stands where
    the compressor stands. *)

Section Simulation.
Variable s_addr : Z.
Variable s : list Z.
Variable d_len : Z.

(** The state handed to [emit] for item [t] of a group: bits [t] and up of
    the map byte are still clear. *)
Record einv (t : Z) (c : cstate) : Prop := {
  e_t : 0 <= t <= 7;
  e_mask : c_copymask c = 2 ^ t;
  e_src : 0 <= c_src c < zlen s;
  e_map : 0 <= c_copymap c < c_dst c;
  e_val : exists v, rd (c_buf c) (c_copymap c) = Ok v /\ 0 <= v < 2 ^ t;
  e_room : c_dst c <= d_len - 17 + 2 * t;
  e_buf : zlen (c_buf c) = d_len;
  e_lempel : zlen (c_lempel c) = LEMPEL_SIZE
}.

(** The state at the loop head after item [t] of a group. *)
Record ginv (t : Z) (c : cstate) : Prop := {
  g_t : 0 <= t <= 7;
  g_mask : c_copymask c = 2 ^ t;
  g_src : 0 <= c_src c <= zlen s;
  g_map : 0 <= c_copymap c < c_dst c;
  g_val : exists v, rd (c_buf c) (c_copymap c) = Ok v /\ 0 <= v < 2 ^ (t + 1);
  g_room : c_dst c <= d_len - 15 + 2 * t;
  g_buf : zlen (c_buf c) = d_len;
  g_lempel : zlen (c_lempel c) = LEMPEL_SIZE
}.

(** [F] agrees with the output so far below [dst], and with the map byte on
    its bits below [t]. *)
Record compat (F : list Z) (t : Z) (c : cstate) : Prop := {
  k_low : forall k, 0 <= k < c_dst c -> k <> c_copymap c -> rd F k = rd (c_buf c) k;
  k_map : exists v w, rd F (c_copymap c) = Ok w /\ rd (c_buf c) (c_copymap c) = Ok v /\
            forall b, 0 <= b < t -> Z.testbit w b = Z.testbit v b
}.

Record dmatch (F : list Z) (c : cstate) (d : dstate) : Prop := {
  m_src : d_src d = c_dst c;
  m_dst : d_dst d = c_src c;
  m_mask : d_copymask d = c_copymask c;
  m_map : rd F (c_copymap c) = Ok (d_copymap d);
  m_len : length (d_buf d) = length s;
  m_agree : agree (c_src c) (d_buf d) s
}.

(** What one [emit] achieves: it succeeds, keeps the invariant, advances,
    and any [F] extending its result makes the decompressor follow. *)
Definition emit_ok (t : Z) (c c' : cstate) : Prop :=
  ginv t c' /\ c_src c < c_src c' /\
  forall F, compat F (t + 1) c' ->
    compat F t c /\
    forall d, dmatch F c d ->
      exists d', dexpand F (zlen s) d = Ok (inl d') /\ dmatch F c' d'.

Lemma mask_bit w t : 0 <= t -> (Z.land w (2 ^ t) =? 0) = negb (Z.testbit w t).
Proof.
  intros Ht. rewrite <- Z.shiftl_1_l.
  destruct (Z.testbit w t) eqn:E; cbn; [apply Z.eqb_neq|apply Z.eqb_eq].
  - intros H0. apply (f_equal (fun z => Z.testbit z t)) in H0.
    rewrite Z.land_spec, E, Z.shiftl_spec, Z.sub_diag, Z.bits_0 in H0 by lia. done.
  - apply Z.bits_inj'. intros i Hi.
    rewrite Z.land_spec, Z.shiftl_spec, Z.bits_0 by lia.
    destruct (decide (i = t)) as [->|]; [rewrite E; done|].
    destruct (decide (i < t)).
    + rewrite (Z.testbit_neg_r 1) by lia. apply andb_false_r.
    + rewrite (Z.bits_above_log2 1) by (cbn; lia). apply andb_false_r.
Qed.

Lemma small_bit v t : 0 <= v < 2 ^ t -> 0 <= t -> Z.testbit v t = false.
Proof.
  intros Hv Ht. rewrite <- (Z.mod_small v (2 ^ t)) by lia.
  apply Z.mod_pow2_bits_high. lia.
Qed.

Lemma literal_spec t c :
  einv t c -> exists c', literal s c = Ok c' /\ emit_ok t c c'.
Proof.
  intros [Ht Hmask Hsrc Hmap (v & Hv & Hvr) Hroom Hbuf Hlem].
  unfold literal. destruct (rd_in s (c_src c)) as [b Hb]; [lia|]. rewrite Hb. run.
  destruct (wr_ex (c_buf c) (c_dst c) b) as [buf Hw]; [lia|]. rewrite Hw. run.
  eexists; split; [done|].
  assert (rd buf (c_copymap c) = Ok v) as Hv'
    by (rewrite <- Hv; eapply rd_wr_ne; [done|lia]).
  split; [|split; [cbn; lia|]].
  - split; cbn; try lia; try done.
    + exists v. split; [done|]. rewrite Z.pow_add_r by lia. lia.
    + rewrite (wr_len _ _ _ _ Hw). done.
  - intros F [Hlow (v' & w & HF & Hm & Hbits)]; cbn in *.
    assert (v' = v) as -> by congruence.
    split.
    + split.
      * intros k Hk Hne. rewrite Hlow by lia. eapply rd_wr_ne; [done|lia].
      * exists v, w. split_and!; [done|done|]. intros. apply Hbits. lia.
    + intros d [M1 M2 M3 M4 M5 M6]. unfold dexpand.
      rewrite M3, Hmask, mask_bit by lia.
      assert (d_copymap d = w) as -> by congruence.
      rewrite Hbits, (small_bit v t) by lia. cbn [negb].
      rewrite M1, Hlow, (rd_wr_eq _ _ _ _ Hw) by lia. run.
      destruct (wr_ex (d_buf d) (d_dst d) b) as [dbuf Hdw]; [rewrite M2, M5; lia|].
      rewrite Hdw. run. eexists; split; [done|].
      split; cbn; try lia; try done.
      * rewrite (wr_len _ _ _ _ Hdw). done.
      * rewrite M2 in Hdw. eapply agree_wr; eauto.
Qed.

(** The table write of [emit] does not touch what the invariants speak of. *)
Lemma emit_ok_lempel t c l c' :
  emit_ok t (CState (c_src c) (c_dst c) (c_buf c) (c_copymap c) (c_copymask c) l) c' ->
  emit_ok t c c'.
Proof.
  intros (Hg & Hlt & HF). split; [done|]. split; [done|].
  intros F Hk. destruct (HF F Hk) as [[K1 K2] Hd]. split; [by split|].
  intros d [M1 M2 M3 M4 M5 M6]. apply Hd. by split.
Qed.

(** The three writes of a match token. *)
Lemma match_spec t c cpy offset mlen :
  einv t c -> 0 <= offset < 1024 -> cpy = c_src c - offset -> 0 <= cpy < c_src c ->
  MATCH_MIN <= mlen <= MATCH_MAX -> c_src c + mlen <= zlen s ->
  (forall k, 0 <= k < mlen -> rd s (c_src c + k) = rd s (cpy + k)) ->
  exists m buf1 buf2 buf3,
    rd (c_buf c) (c_copymap c) = Ok m /\
    wr (c_buf c) (c_copymap c) (Z.lor m (c_copymask c)) = Ok buf1 /\
    wr buf1 (c_dst c)
      (u8 (Z.lor (Z.shiftl (mlen - MATCH_MIN) (NBBY - MATCH_BITS)) (Z.shiftr offset NBBY)))
      = Ok buf2 /\
    wr buf2 (c_dst c + 1) (u8 offset) = Ok buf3 /\
    emit_ok t c (CState (c_src c + mlen) (c_dst c + 2) buf3 (c_copymap c)
                   (c_copymask c) (c_lempel c)).
Proof.
  intros [Ht Hmask Hsrc Hmap (v & Hv & Hvr) Hroom Hbuf Hlem] Ho Hcpy Hc Hm Hml Heq.
  destruct (token_roundtrip mlen offset Hm Ho) as [Td1 Td2].
  set (b0 := u8 (Z.lor _ _)) in *. exists v.
  assert (3 <= mlen) as Hm3 by (unfold MATCH_MIN in Hm; lia).
  destruct (wr_ex (c_buf c) (c_copymap c) (Z.lor v (c_copymask c))) as [buf1 W1]; [lia|].
  pose proof (wr_len _ _ _ _ W1) as L1.
  destruct (wr_ex buf1 (c_dst c) b0) as [buf2 W2]; [lia|].
  pose proof (wr_len _ _ _ _ W2) as L2.
  destruct (wr_ex buf2 (c_dst c + 1) (u8 offset)) as [buf3 W3]; [lia|].
  pose proof (wr_len _ _ _ _ W3) as L3.
  exists buf1, buf2, buf3. split_and!; [done|done|done|done|].
  assert (Z.lor v (2 ^ t) = v + 2 ^ t) as Hor.
  { rewrite Z.lor_comm, <- (Z.mul_1_l (2 ^ t)), <- Z.shiftl_mul_pow2 by lia.
    rewrite lor_shiftl_add by lia. rewrite Z.shiftl_mul_pow2 by lia. lia. }
  rewrite Hmask, Hor in W1.
  assert (rd buf3 (c_copymap c) = Ok (v + 2 ^ t)) as Hv3.
  { rewrite (rd_wr_ne _ _ _ _ _ W3), (rd_wr_ne _ _ _ _ _ W2) by lia.
    apply (rd_wr_eq _ _ _ _ W1). }
  split; [|split; [cbn; lia|]].
  - split; cbn; try lia; try done.
    exists (v + 2 ^ t). split; [done|]. rewrite Z.pow_add_r by lia. lia.
  - intros F [Hlow (v' & w & HF & Hm' & Hbits)]; cbn in *.
    assert (v' = v + 2 ^ t) as -> by congruence.
    split.
    + split.
      * intros k Hk Hne. rewrite Hlow by lia.
        rewrite (rd_wr_ne _ _ _ _ _ W3), (rd_wr_ne _ _ _ _ _ W2),
          (rd_wr_ne _ _ _ _ _ W1) by lia. done.
      * exists v, w. split_and!; [done|done|]. intros b Hb.
        rewrite Hbits, <- Hor by lia.
        rewrite Z.lor_spec, Z.pow2_bits_false by lia. apply orb_false_r.
    + intros d [M1 M2 M3 M4 M5 M6]. unfold dexpand.
      rewrite M3, Hmask, mask_bit by lia.
      assert (d_copymap d = w) as -> by congruence.
      rewrite Hbits, <- Hor, Z.lor_spec, Z.pow2_bits_true, orb_true_r by lia. cbn [negb].
      rewrite M1, (Hlow (c_dst c)), (Hlow (c_dst c + 1)) by lia.
      rewrite (rd_wr_eq _ _ _ _ W3), (rd_wr_ne _ _ _ _ _ W3), (rd_wr_eq _ _ _ _ W2) by lia.
      run. rewrite Td1, Td2, M2, <- Hcpy. step_if; b2p; [lia|].
      destruct (copy_match_spec (Z.to_nat mlen) s (d_buf d) (c_src c) cpy)
        as (dbuf & C1 & C2 & C3); rewrite ?Z2Nat.id by lia; try lia; try done.
      rewrite C1. run. eexists; split; [done|].
      rewrite Z2Nat.id in C3 |- * by lia. split; cbn; try lia; try done.
Qed.

Lemma emit_spec t c :
  einv t c -> exists c', emit s_addr s c = Ok c' /\ emit_ok t c c'.
Proof.
  intros He. pose proof He as [Ht Hmask Hsrc Hmap (v & Hv & Hvr) Hroom Hbuf Hlem].
  unfold emit, s_len. step_if; b2p; [by apply literal_spec|].
  rewrite MATCH_MAX_val in *.
  destruct (rd_in s (c_src c)) as [b0 H0]; [lia|]. rewrite H0. run.
  destruct (rd_in s (c_src c + 1)) as [b1 H1]; [lia|]. rewrite H1. run.
  destruct (rd_in s (c_src c + 2)) as [b2 H2]; [lia|]. rewrite H2. run.
  set (h := hash b0 b1 b2).
  assert (0 <= h < LEMPEL_SIZE) as Hh.
  { unfold h, hash. change (LEMPEL_SIZE - 1) with (Z.shiftl 1 8 - 1).
    rewrite land_ones_mod by lia. by apply Z.mod_pos_bound. }
  destruct (rd_in (c_lempel c) h) as [hp Hp]; [lia|]. rewrite Hp. run.
  destruct (wr_ex (c_lempel c) h (u16 (s_addr + c_src c))) as [lem Hl]; [lia|].
  rewrite Hl. run. set (offset := Z.land _ OFFSET_MASK).
  assert (0 <= offset < 1024)
    by (unfold offset; rewrite OFFSET_MASK_mod; apply Z.mod_pos_bound; lia).
  set (c1 := CState _ _ _ _ _ _).
  assert (einv t c1) as He1.
  { split; cbn; try done; [by exists v|]. rewrite (wr_len _ _ _ _ Hl). done. }
  assert (exists c', literal s c1 = Ok c' /\ emit_ok t c c') as Hlit.
  { destruct (literal_spec t c1 He1) as (c' & E1 & E2). exists c'. split; [done|].
    by eapply emit_ok_lempel. }
  step_if; [|done]. b2p.
  change (c_src c1) with (c_src c) in *.
  destruct (rd_in s (c_src c - offset)) as [p0 P0]; [lia|].
  destruct (rd_in s (c_src c - offset + 1)) as [p1 P1]; [lia|].
  destruct (rd_in s (c_src c - offset + 2)) as [p2 P2]; [lia|].
  rewrite P0, P1, P2. run. step_if; [|done]. b2p. subst p0 p1 p2.
  destruct (match_len_spec s (c_src c) (c_src c - offset))
    as (mlen & M1 & M2 & M3); rewrite ?MATCH_MAX_val in *; try lia.
  { intros k Hk. unfold MATCH_MIN in Hk.
    assert (k = 0 \/ k = 1 \/ k = 2) as [->|[->| ->]] by lia; rewrite ?Z.add_0_r; congruence. }
  destruct (match_spec t c1 (c_src c - offset) offset mlen)
    as (m & buf1 & buf2 & buf3 & E1 & E2 & E3 & E4 & E5);
    rewrite ?MATCH_MAX_val; cbn [c1 c_src]; try done; try lia.
  cbn [c1 c_buf c_copymap c_copymask c_dst] in *.
  rewrite E1; run; rewrite E2; run; rewrite M1; run; rewrite E3; run; rewrite E4; run.
  eexists; split; [done|]. eapply emit_ok_lempel. exact E5.
Qed.

Variable d0 : list Z.       (** the decompressor's initial destination *)

Definition dinit : dstate := DState 0 0 d0 0 (Z.shiftl 1 (NBBY - 1)).
Definition dstep (F : list Z) (a b : dstate) : Prop :=
  dbody F (zlen s) a = Ok (inl b).

Definition start (c : cstate) : Prop :=
  c_src c = 0 /\ c_dst c = 0 /\ c_copymask c = 2 ^ 7 /\
  zlen (c_buf c) = d_len /\ zlen (c_lempel c) = LEMPEL_SIZE.

(** [F] leads the decompressor to where the compressor is, in at most as
    many rounds as bytes were consumed.  Before the first round there is no
    map byte yet. *)
Definition follows (F : list Z) (c : cstate) : Prop :=
  exists n d, nsteps (dstep F) n dinit d /\ Z.of_nat n <= c_src c /\
    (dmatch F c d \/ start c /\ d = dinit).

(** The loop invariant of [lzjb_compress]: [2^t] is the copy mask. *)
Definition loop_inv (t : Z) (c : cstate) : Prop :=
  (t = 7 /\ start c \/ ginv t c) /\
  forall F, (start c \/ compat F (t + 1) c) -> follows F c.

Hypothesis d0_len : length d0 = length s.

Lemma follows_step F t c c1 c' :
  emit_ok t c1 c' -> compat F (t + 1) c' -> c_src c1 = c_src c ->
  (forall d, dmatch F c d \/ start c /\ d = dinit -> exists d1,
     dbody F (zlen s) d = dexpand F (zlen s) d1 /\ dmatch F c1 d1) ->
  follows F c -> follows F c'.
Proof.
  intros (_ & Hlt & HF) Hk Hsrc Hbody (n & d & N1 & N2 & N3).
  destruct (Hbody d N3) as (d1 & E & Hd1).
  destruct (HF F Hk) as [_ Hgo]. destruct (Hgo d1 Hd1) as (d' & E1 & E2).
  exists (S n), d'. split_and!; [|lia|by left].
  eapply nsteps_r; [exact N1|]. unfold dstep. congruence.
Qed.

(** Items 1 to 7 of a group. *)
Lemma same_group t c :
  loop_inv t c -> t < 7 -> c_src c < zlen s ->
  exists c', emit s_addr s (CState (c_src c) (c_dst c) (c_buf c) (c_copymap c)
               (2 ^ (t + 1)) (c_lempel c)) = Ok c' /\
    loop_inv (t + 1) c' /\ c_src c < c_src c'.
Proof.
  intros [[[-> _]|Hg] HF] Ht Hlt; [lia|].
  pose proof Hg as [Gt Gmask Gsrc Gmap (v & Hv & Hvr) Groom Gbuf Glem].
  set (c1 := CState _ _ _ _ _ _).
  destruct (emit_spec (t + 1) c1) as (c' & E & Hok).
  { split; cbn; try lia; try done. by exists v. }
  exists c'. rewrite E. destruct Hok as (Hg' & Hlt' & HF').
  split_and!; [done| |done]. split; [by right|]. intros F HK.
  assert (compat F (t + 1 + 1) c') as Hk.
  { destruct HK as [(_ & S2 & _)|]; [|done]. destruct Hg'. lia. }
  eapply (follows_step F (t + 1) c c1); try done.
  - intros d [[M1 M2 M3 M4 M5 M6]|[Hs _]]; [|destruct Hs as (_ & S2 & _); lia].
    exists (DState (d_src d) (d_dst d) (d_buf d) (d_copymap d) (2 ^ (t + 1))).
    split; [|by split].
    unfold dbody. rewrite M2, M3, Gmask. step_if; b2p; [|lia].
    rewrite Z.shiftl_mul_pow2, <- Z.pow_add_r by lia.
    change (Z.shiftl 1 NBBY) with (2 ^ 8).
    destruct (Z.eqb_spec (2 ^ (t + 1)) (2 ^ 8)) as [Heq|]; [|done].
    apply Z.pow_inj_r in Heq; lia.
  - apply HF. right. destruct (HF' F Hk) as [[K1 K2] _]. by split.
Qed.

(** Item 0 of a group, after its map byte. *)
Lemma new_group c :
  loop_inv 7 c -> c_src c < zlen s -> c_dst c < d_len - 1 - 2 * NBBY ->
  exists buf c', wr (c_buf c) (c_dst c) 0 = Ok buf /\
    emit s_addr s (CState (c_src c) (c_dst c + 1) buf (c_dst c) 1 (c_lempel c)) = Ok c' /\
    loop_inv 0 c' /\ c_src c < c_src c'.
Proof.
  intros [Hst HF] Hlt Hroom. unfold NBBY in Hroom.
  assert (0 <= c_src c /\ 0 <= c_dst c /\ c_copymask c = 2 ^ 7 /\ zlen (c_buf c) = d_len /\
          zlen (c_lempel c) = LEMPEL_SIZE) as (P1 & P2 & P3 & P4 & P5).
  { destruct Hst as [[_ (?&?&?&?&?)]|[? ? ? ? ? ? ?]]; split_and!; try done; lia. }
  destruct (wr_ex (c_buf c) (c_dst c) 0) as [buf Hw]; [lia|]. exists buf.
  set (c1 := CState _ _ _ _ _ _).
  destruct (emit_spec 0 c1) as (c' & E & Hok).
  { split; cbn; try lia; try done.
    - exists 0. split; [by eapply rd_wr_eq|lia].
    - rewrite (wr_len _ _ _ _ Hw). done. }
  exists c'. rewrite E. destruct Hok as (Hg' & Hlt' & HF').
  split_and!; [done|done| |done]. split; [by right|]. intros F HK.
  assert (compat F (0 + 1) c') as Hk.
  { destruct HK as [(_ & S2 & _)|]; [|done]. destruct Hg'. lia. }
  destruct (HF' F Hk) as [[K1 (v & w & K2 & K3 & K4)] _]. cbn in *.
  eapply (follows_step F 0 c c1); try done.
  - intros d Hd.
    assert (d_src d = c_dst c /\ d_dst d = c_src c /\ d_copymask d = 2 ^ 7 /\
            length (d_buf d) = length s /\ agree (c_src c) (d_buf d) s)
      as (M1 & M2 & M3 & M4 & M5).
    { destruct Hd as [[M1 M2 M3 M4 M5 M6]|[(S1 & S2 & S3 & _) ->]].
      - rewrite <- P3. done.
      - cbn. rewrite S1, S2. split_and!; try done. intros k Hk'. lia. }
    exists (DState (d_src d + 1) (d_dst d) (d_buf d) w 1).
    split; [|split; cbn; try done; lia].
    unfold dbody. rewrite M1, M2, M3, K2. step_if; b2p; [done|lia].
  - apply HF. destruct Hst as [[_ Hs]|[? ? ? ? (v0 & Hv0 & ?) ? ?]]; [by left|right].
    assert (forall k, 0 <= k < c_dst c -> rd F k = rd (c_buf c) k) as HFk.
    { intros k Hk'. rewrite K1 by lia. eapply rd_wr_ne; [done|lia]. }
    split.
    + intros k Hk' _. by apply HFk.
    + exists v0, v0. split_and!; [rewrite HFk by lia; done|done|done].
Qed.

(** What [lzjb_compress] leaves behind when it returns [n]. *)
Definition compressed (r : Z * list Z) : Prop :=
  zlen (snd r) = d_len /\
  (fst r = zlen s /\ (d_len = zlen s -> snd r = s) \/
   0 <= fst r < d_len /\
   forall F, agree (fst r) F (snd r) -> decompress F (zlen s) d0 = Ok (0, s)).

Lemma finish t c :
  loop_inv t c -> c_src c = zlen s -> compressed (c_dst c, c_buf c).
Proof.
  intros [Hst HF] Hsrc. unfold compressed. cbn [fst snd].
  destruct Hst as [[-> (S1 & S2 & _ & S4 & _)]|Hg].
  - split; [done|]. left. rewrite S1 in Hsrc. split; [lia|]. intros ->.
    destruct (c_buf c), s; cbn in *; done.
  - pose proof Hg as [Gt Gmask Gsrc Gmap (v & Hv & Hvr) Groom Gbuf Glem].
    split; [done|]. right. split; [lia|]. intros F Hag.
    destruct (HF F) as (n & d & N1 & N2 & N3).
    { right. split.
      - intros. apply Hag. lia.
      - exists v, v. split_and!; [rewrite Hag by lia; done|done|done]. }
    destruct N3 as [[M1 M2 M3 M4 M5 M6]|[(_ & S2 & _) _]]; [|lia].
    unfold decompress. eapply nsteps_iter; [exact N1| |lia].
    unfold dbody. rewrite M2, Hsrc. step_if; b2p; [lia|].
    do 3 f_equal. apply agree_full; [done|]. rewrite M5, <- Hsrc. done.
Qed.
End Simulation.

(** One round of the compressor's loop keeps the invariant and consumes input. *)
Lemma cbody_spec s_addr s d_len d0 t c :
  length d0 = length s -> loop_inv s d_len d0 t c ->
  match cbody s_addr s d_len c with
  | Ok (inr r) => compressed s d_len d0 r
  | Ok (inl c') => (exists t', loop_inv s d_len d0 t' c') /\
                   (Z.to_nat (zlen s - c_src c') < Z.to_nat (zlen s - c_src c))%nat
  | Err _ => False
  end.
Proof.
  intros Hd Hinv. unfold cbody, s_len.
  assert (0 <= t <= 7 /\ c_copymask c = 2 ^ t /\ 0 <= c_src c <= zlen s /\
          zlen (c_buf c) = d_len) as (Ht & Hm & Hsrc & Hbuf).
  { destruct Hinv as [[[-> (S1&S2&S3&S4&S5)]|[]] _]; split_and!; try done; lia. }
  destruct (Z.ltb_spec (c_src c) (zlen s)); [|eapply finish; [done|done|lia]].
  rewrite Hm, Z.shiftl_mul_pow2, <- Z.pow_add_r by lia.
  change (Z.shiftl 1 NBBY) with (2 ^ 8).
  destruct (Z.eqb_spec (2 ^ (t + 1)) (2 ^ 8)) as [Heq|Hne].
  - apply Z.pow_inj_r in Heq; [|lia..]. assert (t = 7) as -> by lia.
    step_if; b2p.
    + step_if; b2p; [split; [done|]; left; split; [done|by intros]|].
      destruct (copy_all_spec (length s) s (c_buf c) 0) as (buf & C1 & C2 & C3); try lia.
      { intros k Hk. lia. }
      rewrite C1. run. split; [cbn; rewrite C2; lia|]. left. split; [done|]. intros _. cbn.
      apply agree_full; [done|]. rewrite C2. exact C3.
    + destruct (new_group s_addr s d_len d0 Hd c) as (buf & c' & W & E1 & Hi & Hlt); [done..|].
      rewrite W. run. rewrite E1. run. split; [by exists 0|lia].
  - assert (t < 7).
    { destruct (decide (t = 7)) as [->|]; [done|lia]. }
    destruct (same_group s_addr s d_len d0 Hd t c) as (c' & E1 & Hi & Hlt); [done..|].
    rewrite E1. run. split; [by exists (t + 1)|lia].
Qed.

(** [lzjb_compress] returns, and what it leaves behind is as described. *)
Lemma compress_total s_addr s d0 lempel d :
  zlen lempel = LEMPEL_SIZE -> length d0 = length s ->
  exists r, compress s_addr s (zlen d) lempel d = Ok r /\ compressed s (zlen d) d0 r.
Proof.
  intros Hl Hd. unfold compress.
  apply (iter_total (fun c => exists t, loop_inv s (zlen d) d0 t c) (compressed s (zlen d) d0)
              (fun c => Z.to_nat (zlen s - c_src c))).
  - intros c [t Hinv]. by eapply cbody_spec.
  - exists 7. split; [left; by split|]. intros F _. exists 0%nat, (dinit d0).
    split_and!; [constructor|done|]. right. by split.
  - cbn. lia.
Qed.

(** ** The compressed bytes are bytes *)

Definition bytes_st (s : list Z) (c : cstate) : Prop :=
  Forall is_byte (c_buf c) /\ exists t, 0 <= t <= 7 /\ c_copymask c = 2 ^ t.

Lemma literal_bytes s c c' :
  Forall is_byte s -> bytes_st s c -> literal s c = Ok c' -> bytes_st s c'.
Proof.
  intros Hs [Hb Hm] H. unfold literal in H. inv_bind H. injection H as <-. split; [|done].
  cbn [c_buf]. eapply wr_Forall; [exact Hb| |eassumption]. eapply rd_Forall; [exact Hs|eassumption].
Qed.

Lemma lor_byte a t : is_byte a -> 0 <= t <= 7 -> is_byte (Z.lor a (2 ^ t)).
Proof.
  unfold is_byte. intros Ha Ht. split; [apply Z.lor_nonneg; lia|].
  destruct (decide (Z.lor a (2 ^ t) = 0)) as [->|Hne]; [lia|].
  assert (0 < Z.lor a (2 ^ t)) by (assert (0 <= Z.lor a (2 ^ t)) by (apply Z.lor_nonneg; lia); lia).
  apply (Z.log2_lt_pow2 _ 8); [lia|]. rewrite Z.log2_lor, Z.log2_pow2 by lia.
  assert (Z.log2 a < 8); [|lia]. destruct (decide (a = 0)) as [->|]; [done|]. apply Z.log2_lt_pow2; lia.
Qed.

Lemma u8_byte z : is_byte (u8 z).
Proof. apply wrap_range. lia. Qed.

Lemma emit_bytes s_addr s c c' :
  Forall is_byte s -> bytes_st s c -> emit s_addr s c = Ok c' -> bytes_st s c'.
Proof.
  intros Hs Hc H. unfold emit in H. step_if_in H; [by eapply literal_bytes|].
  inv_bind H. cbn zeta in H. set (c1 := CState _ _ _ _ _ _) in H.
  assert (bytes_st s c1) as Hc1 by exact Hc. step_if_in H; [|by eapply literal_bytes].
  inv_bind H. step_if_in H; [|by eapply literal_bytes]. clear E E0 E1.
  destruct Hc as [Hb (t & Ht & Hm)].
  apply bind_ok in H as (m & Em & H). apply bind_ok in H as (b1 & E1 & H). apply bind_ok in H as (ml & _ & H).
  apply bind_ok in H as (b2 & E2 & H). apply bind_ok in H as (b3 & E3 & H). injection H as <-.
  split; [|by exists t]. cbn [c_buf c1 c_copymask] in *. rewrite Hm in E1.
  assert (is_byte m) by (eapply rd_Forall; [exact Hb|exact Em]).
  eapply wr_Forall; [eapply wr_Forall; [eapply wr_Forall| |]| |];
    [exact Hb| |exact E1| |exact E2| |exact E3]; [by apply lor_byte|apply u8_byte..].
Qed.

Lemma copy_all_bytes n s buf i buf' :
  Forall is_byte s -> Forall is_byte buf -> copy_all n s buf i = Ok buf' -> Forall is_byte buf'.
Proof.
  intros Hs. revert buf i. induction n as [|n IH]; intros buf i Hb H; [by injection H as <-|].
  cbn [copy_all] in H. apply bind_ok in H as (b & Eb & H). apply bind_ok in H as (buf1 & E1 & H).
  eapply IH; [|exact H]. eapply wr_Forall; [exact Hb| |exact E1]. eapply rd_Forall; [exact Hs|exact Eb].
Qed.

Lemma compress_bytes s_addr s d_len lempel d n out :
  Forall is_byte s -> Forall is_byte d -> compress s_addr s d_len lempel d = Ok (n, out) -> Forall is_byte out.
Proof.
  intros Hs Hd. unfold compress.
  apply (iter_inv (bytes_st s) (fun r => Forall is_byte (snd r))).
  - intros c c' [Hb (t & Ht & Hm)] H. unfold cbody in H. step_if_in H; [|done]. rewrite Hm, Z.shiftl_mul_pow2 in H by lia.
    step_if_in H.
    + step_if_in H; [step_if_in H; [done|]; by inv_bind H|].
      apply bind_ok in H as (buf & F2 & H). apply bind_ok in H as (c1 & F3 & H). injection H as <-.
      eapply emit_bytes; [done| |exact F3]. split; [eapply wr_Forall; [exact Hb| |exact F2]; done|]. exists 0. done.
    + apply bind_ok in H as (c1 & F3 & H). injection H as <-. eapply emit_bytes; [done| |exact F3].
      split; [done|]. rewrite <- Z.pow_add_r in E0 |- * by lia. cbn [c_copymask]. exists (t + 1). split; [|done].
      assert (t <> 7) by (intros ->; done). lia.
  - intros c [n' o] [Hb _] H. unfold cbody in H. step_if_in H; [|by injection H as <- <-]. step_if_in H; [step_if_in H; [step_if_in H|]|].
    + by injection H as <- <-.
    + apply bind_ok in H as (buf & F2 & H). injection H as <- <-. eapply copy_all_bytes; [exact Hs|exact Hb|exact F2].
    + by inv_bind H.
    + by inv_bind H.
  - split; [done|]. exists 7. done.
Qed.

(** ** Decompression of arbitrary bytes *)

(** A decompressor state on its way through any input whatsoever: [r] rounds
    have been made since the start. *)
Definition dsafe (s : list Z) (d_len : Z) (d : dstate) : Prop :=
  0 <= d_dst d <= d_len /\ 0 <= d_src d <= 3 * d_dst d /\ zlen (d_buf d) = d_len.

Lemma copy_match_safe n d_len buf dst cpy :
  zlen buf = d_len -> 0 <= cpy <= dst -> dst <= d_len ->
  exists buf', copy_match n d_len buf dst cpy = Ok (buf', Z.min d_len (dst + Z.of_nat n)) /\
    zlen buf' = d_len.
Proof.
  revert buf dst cpy. induction n as [|n IH]; intros buf dst cpy Hl Hc Hd; cbn [copy_match].
  - exists buf. split; [do 2 f_equal; lia|done].
  - step_if; b2p; [|exists buf; split; [do 2 f_equal; lia|done]].
    destruct (rd_in buf cpy) as [b Hb]; [lia|]. rewrite Hb. run.
    destruct (wr_ex buf dst b) as [buf' Hw]; [lia|]. rewrite Hw. run.
    destruct (IH buf' (dst + 1) (cpy + 1)) as (b2 & F2 & Hb2); try lia.
    { rewrite (wr_len _ _ _ _ Hw). done. }
    exists b2. rewrite F2. split; [do 2 f_equal; lia|done].
Qed.

Lemma dexpand_safe s d_len d :
  Forall is_byte s -> d_dst d < d_len -> zlen (d_buf d) = d_len -> 0 <= d_dst d ->
  0 <= d_src d <= 3 * d_dst d + 1 -> 3 * d_len <= zlen s ->
  match dexpand s d_len d with
  | Ok (inr r) => fst r = -1 /\ zlen (snd r) = d_len
  | Ok (inl d') => dsafe s d_len d' /\ d_dst d < d_dst d'
  | Err _ => False
  end.
Proof.
  intros Hs Hlt Hbuf Hd Hsrc Hlen. unfold dexpand.
  destruct (rd_in s (d_src d)) as [b0 H0]; [lia|].
  destruct (rd_in s (d_src d + 1)) as [b1 H1]; [lia|].
  assert (is_byte b0) as Hb0.
  { apply rd_ok in H0 as [_ H0]. by eapply (Forall_lookup_1 _ _ _ _ Hs). }
  step_if.
  - rewrite H0, H1. run. rewrite OFFSET_MASK_mod.
    set (offset := _ `mod` 1024).
    assert (0 <= offset < 1024) by (apply Z.mod_pos_bound; lia).
    step_if; b2p; [done|].
    assert (0 <= Z.shiftr b0 (NBBY - MATCH_BITS)) by (apply Z.shiftr_nonneg; red in Hb0; lia).
    set (mlen := _ + MATCH_MIN). assert (3 <= mlen) by (unfold mlen, MATCH_MIN; lia).
    destruct (copy_match_safe (Z.to_nat mlen) d_len (d_buf d) (d_dst d) (d_dst d - offset))
      as (buf & E1 & E2); try lia.
    rewrite E1. run. unfold dsafe. cbn. rewrite Z2Nat.id by lia. lia.
  - rewrite H0. run. destruct (wr_ex (d_buf d) (d_dst d) b0) as [buf Hw]; [lia|].
    rewrite Hw. run. unfold dsafe. cbn. rewrite (wr_len _ _ _ _ Hw). lia.
Qed.

(** ** Properties *)

(** C10: LZJB is lossless.  For every source, every address the source buffer
    may have, every content of the uninitialised hash table and every size of
    destination buffer, [lzjb_compress] returns without touching memory outside
    its buffers.  If it returns a size [n] other than the source length, [n] is
    below the size of the destination and [lzjb_decompress] of any bytes that
    begin with those [n] gives the source back, whatever its destination held
    and whatever follows the [n] bytes.  If it
    returns the source length with a destination of that length, the
    destination is a plain copy of the source. *)
Theorem lzjb_roundtrip (s_addr : Z) (s lempel d d0 : list Z) :
  zlen lempel = LEMPEL_SIZE -> length d0 = length s ->
  exists n out,
    compress s_addr s (zlen d) lempel d = Ok (n, out) /\
    length out = length d /\
    (n <> zlen s ->
       0 <= n < zlen d /\
       forall F, agree n F out -> decompress F (zlen s) d0 = Ok (0, s)) /\
    (n = zlen s -> length d = length s -> out = s).
Proof.
  intros Hl Hd.
  destruct (compress_total s_addr s d0 lempel d Hl Hd) as ([n out] & E & Hlen & Hc).
  exists n, out. cbn [fst snd] in *. split_and!; [done|lia| |].
  - intros Hn. destruct Hc as [[? _]|Hc]; [lia|done].
  - intros Hn Hds. destruct Hc as [[_ Hc]|Hc]; [apply Hc|]; lia.
Qed.

(** A repetitive source that compresses: the hypotheses of the round trip hold
    and the compressor takes the shorter encoding. *)
Lemma lzjb_roundtrip_witness :
  let s := replicate 100 7 in
  let d := replicate 100 0 in
  (exists n out,
    compress 4096 s (zlen d) (replicate 256 99) d = Ok (n, out) /\
    length out = length d /\
    (n <> zlen s ->
       0 <= n < zlen d /\
       forall F, agree n F out -> decompress F (zlen s) (replicate 100 1) = Ok (0, s)) /\
    (n = zlen s -> length d = length s -> out = s)) /\
  fst <$> compress 4096 s (zlen d) (replicate 256 99) d = Ok 41.
Proof.
  split; [|vm_compute; reflexivity].
  apply (lzjb_roundtrip 4096 (replicate 100 7) (replicate 256 99) (replicate 100 0)
           (replicate 100 1)); reflexivity.
Defined.

(** C11: [lzjb_decompress] is memory safe on its destination and terminates on
    any bytes whatsoever, corrupted ones included: given three source bytes per
    destination byte it returns 0 or -1, every write lands inside the
    destination, and the copy source never leaves it. *)
Theorem lzjb_decompress_safe (s d : list Z) :
  Forall is_byte s -> 3 * zlen d <= zlen s ->
  exists rc out, decompress s (zlen d) d = Ok (rc, out) /\
    (rc = 0 \/ rc = -1) /\ length out = length d.
Proof.
  intros Hs Hlen.
  destruct (iter_total (dsafe s (zlen d)) (fun r => (fst r = 0 \/ fst r = -1) /\ zlen (snd r) = zlen d)
    (fun x => Z.to_nat (zlen d - d_dst x)) (dbody s (zlen d)))
    with (S (Z.to_nat (zlen d))) (DState 0 0 d 0 (Z.shiftl 1 (NBBY - 1)))
    as ([rc out] & E & Hr & Ho).
  - intros x (H1 & H2 & H3). unfold dbody.
    destruct (Z.ltb_spec (d_dst x) (zlen d)) as [Hlt|]; [|split; [by left|done]].
    assert (forall y, d_dst y = d_dst x -> d_buf y = d_buf x -> 0 <= d_src y <= d_src x + 1 ->
      match dexpand s (zlen d) y with
      | Ok (inr r) => (fst r = 0 \/ fst r = -1) /\ zlen (snd r) = zlen d
      | Ok (inl d') => dsafe s (zlen d) d' /\
          (Z.to_nat (zlen d - d_dst d') < Z.to_nat (zlen d - d_dst x))%nat
      | Err _ => False
      end) as Hy.
    { intros y Y1 Y2 Y3. pose proof (dexpand_safe s (zlen d) y Hs) as Hsafe.
      rewrite Y1, Y2 in Hsafe. specialize (Hsafe Hlt H3).
      assert (0 <= d_dst x) as A1 by lia. assert (0 <= d_src y <= 3 * d_dst x + 1) as A2 by lia.
      specialize (Hsafe A1 A2 Hlen).
      destruct (dexpand s (zlen d) y) as [[d'|r]|]; [split; [|lia]| |]; naive_solver. }
    destruct (_ =? _); [|apply Hy; cbn; lia || done].
    destruct (rd_in s (d_src x)) as [m Hm]; [lia|]. rewrite Hm. run.
    apply Hy; cbn; lia || done.
  - unfold dsafe. cbn. lia.
  - cbn. lia.
  - exists rc, out. cbn in *. split_and!; [done|done|lia].
Qed.

(** Garbage input: a match token that points before the destination. *)
Lemma lzjb_decompress_safe_witness :
  (exists rc out, decompress [1; 255; 255; 0; 0; 0; 0; 0; 0] (zlen [5; 6; 7]) [5; 6; 7] = Ok (rc, out) /\
    (rc = 0 \/ rc = -1) /\ length out = length [5; 6; 7]) /\
  decompress [1; 255; 255; 0; 0; 0; 0; 0; 0] 3 [5; 6; 7] = Ok (-1, [5; 6; 7]).
Proof.
  split; [|vm_compute; reflexivity].
  apply (lzjb_decompress_safe [1; 255; 255; 0; 0; 0; 0; 0; 0] [5; 6; 7]).
  - repeat constructor; discriminate.
  - vm_compute. discriminate.
Defined.

End Lzjb.
