(* ===== verification/Checksum.v ===== *)
(** * Block checksums: fs/zfs/fletcher.c

    The four Fletcher checksums and the two incremental ones, over the bytes of
    a buffer.  A host reads a word from the bytes in its own byte order, so the
    definitions take the byte order of the host ([true] for big-endian);
    64-bit accumulators wrap at [2^64].  Reads are bounds checked. *)

From Stdlib Require Import List.
From stdpp Require Import base option numbers list.
From S2P Require Import Prelude.
Local Open Scope Z_scope.

(** ** Byte order: sys/byteorder.h *)

Definition BSWAP_8 (x : Z) : Z := Z.land x 255.
Definition BSWAP_16 (x : Z) : Z := Z.lor (Z.shiftl (BSWAP_8 x) 8) (BSWAP_8 (Z.shiftr x 8)).
Definition BSWAP_32 (x : Z) : Z := Z.lor (Z.shiftl (BSWAP_16 x) 16) (BSWAP_16 (Z.shiftr x 16)).
Definition BSWAP_64 (x : Z) : Z := Z.lor (Z.shiftl (BSWAP_32 x) 32) (BSWAP_32 (Z.shiftr x 32)).

(** The value of bytes read by a host: [be] is its byte order. *)
Fixpoint le_combine (l : list Z) : Z :=
  match l with [] => 0 | b :: l' => b + 256 * le_combine l' end.
Definition load (be : bool) (l : list Z) : Z := le_combine (if be then reverse l else l).

(** [ip[i]] with [ip] an array of [w]-byte words at the start of [buf]. *)
Definition word (be : bool) (w : nat) (buf : list Z) (i : nat) : Z :=
  load be (take w (drop (i * w) buf)).
Definition rd_word (be : bool) (w : nat) (buf : list Z) (i : nat) : outcome Z :=
  if decide (i * w + w <= length buf)%nat then Ok (word be w buf i) else Err Fault.

(** [zio_cksum_t] *)
Record zio_cksum := ZC { zc_word0 : Z; zc_word1 : Z; zc_word2 : Z; zc_word3 : Z }.

(** [ZIO_CHECKSUM_EQUAL] *)
Definition ZIO_CHECKSUM_EQUAL (z1 z2 : zio_cksum) : bool :=
  0 =? Z.lor (Z.lor (Z.lor (u64 (zc_word0 z1 - zc_word0 z2)) (u64 (zc_word1 z1 - zc_word1 z2)))
                    (u64 (zc_word2 z1 - zc_word2 z2))) (u64 (zc_word3 z1 - zc_word3 z2)).

(** ** Byte swapping reverses the bytes *)

Lemma BSWAP_8_mod x : BSWAP_8 x = x `mod` 256.
Proof. apply (land_ones_mod x 8). lia. Qed.

(** A swap of twice the width, from the swap of its halves. *)
Lemma bswap_double (sw : Z -> Z) (w x : Z) :
  0 < w -> (forall y, 0 <= sw y < 2 ^ w) ->
  Z.lor (Z.shiftl (sw x) w) (sw (Z.shiftr x w)) = sw x * 2 ^ w + sw (x / 2 ^ w) /\
  0 <= sw x * 2 ^ w + sw (x / 2 ^ w) < 2 ^ (w + w).
Proof.
  intros Hw Hr. rewrite Z.shiftr_div_pow2, lor_shiftl_add by (done || lia).
  split; [done|]. rewrite Z.pow_add_r by lia.
  specialize (Hr x) as H1. specialize (Hr (x / 2 ^ w)). nia.
Qed.

Lemma BSWAP_16_eq x :
  BSWAP_16 x = (x `mod` 256) * 256 + (x / 256) `mod` 256 /\ 0 <= BSWAP_16 x < 2 ^ 16.
Proof.
  unfold BSWAP_16. destruct (bswap_double BSWAP_8 8 x) as [-> H]; [lia| |].
  { intros y. rewrite BSWAP_8_mod. apply Z.mod_pos_bound. lia. }
  rewrite !BSWAP_8_mod in *. done.
Qed.

Lemma BSWAP_32_eq x :
  BSWAP_32 x = BSWAP_16 x * 65536 + BSWAP_16 (x / 65536) /\ 0 <= BSWAP_32 x < 2 ^ 32.
Proof.
  unfold BSWAP_32. destruct (bswap_double BSWAP_16 16 x) as [-> H]; [lia| |done].
  intros y. apply BSWAP_16_eq.
Qed.

Lemma BSWAP_64_eq x :
  BSWAP_64 x = BSWAP_32 x * 2 ^ 32 + BSWAP_32 (x / 2 ^ 32) /\ 0 <= BSWAP_64 x < 2 ^ 64.
Proof.
  unfold BSWAP_64. destruct (bswap_double BSWAP_32 32 x) as [-> H]; [lia| |done].
  intros y. apply BSWAP_32_eq.
Qed.

Lemma bswap16_bytes b0 b1 q :
  is_byte b0 -> is_byte b1 -> BSWAP_16 (b0 + 256 * (b1 + 256 * q)) = b1 + 256 * b0.
Proof.
  unfold is_byte. intros. rewrite (proj1 (BSWAP_16_eq _)).
  Z.to_euclidean_division_equations. lia.
Qed.

Lemma bswap32_bytes b0 b1 b2 b3 q :
  is_byte b0 -> is_byte b1 -> is_byte b2 -> is_byte b3 ->
  BSWAP_32 (b0 + 256 * (b1 + 256 * (b2 + 256 * (b3 + 256 * q))))
  = b3 + 256 * (b2 + 256 * (b1 + 256 * b0)).
Proof.
  intros. rewrite (proj1 (BSWAP_32_eq _)), bswap16_bytes by done.
  replace ((b0 + 256 * (b1 + 256 * (b2 + 256 * (b3 + 256 * q)))) / 65536)
    with (b2 + 256 * (b3 + 256 * q)).
  - rewrite bswap16_bytes by done. lia.
  - unfold is_byte in *. Z.to_euclidean_division_equations. lia.
Qed.

Lemma bswap64_bytes b0 b1 b2 b3 b4 b5 b6 b7 :
  Forall is_byte [b0; b1; b2; b3; b4; b5; b6; b7] ->
  BSWAP_64 (le_combine [b0; b1; b2; b3; b4; b5; b6; b7])
  = le_combine [b7; b6; b5; b4; b3; b2; b1; b0].
Proof.
  rewrite !Forall_cons_iff. intros (?&?&?&?&?&?&?&?&_).
  rewrite (proj1 (BSWAP_64_eq _)).
  replace (le_combine [b0; b1; b2; b3; b4; b5; b6; b7] / 2 ^ 32)
    with (le_combine [b4; b5; b6; b7]).
  - cbn [le_combine]. rewrite !bswap32_bytes by done. lia.
  - unfold is_byte in *. cbn [le_combine]. Z.to_euclidean_division_equations. lia.
Qed.

(** A swapped load is the load of a host of the other byte order. *)
Lemma bswap32_load be l :
  length l = 4%nat -> Forall is_byte l -> BSWAP_32 (load be l) = load (negb be) l.
Proof.
  intros Hl Hb. destruct l as [|b0 [|b1 [|b2 [|b3 [|]]]]]; try done.
  rewrite !Forall_cons_iff in Hb. destruct Hb as (?&?&?&?&_).
  destruct be; cbn; rewrite bswap32_bytes by done; lia.
Qed.

Lemma bswap64_load be l :
  length l = 8%nat -> Forall is_byte l -> BSWAP_64 (load be l) = load (negb be) l.
Proof.
  intros Hl Hb.
  destruct l as [|b0 [|b1 [|b2 [|b3 [|b4 [|b5 [|b6 [|b7 [|]]]]]]]]]; try done.
  destruct be.
  - apply bswap64_bytes. rewrite !Forall_cons_iff in *. naive_solver.
  - by apply bswap64_bytes.
Qed.

Lemma word_bytes w buf i :
  (i * w + w <= length buf)%nat -> Forall is_byte buf ->
  length (take w (drop (i * w) buf)) = w /\ Forall is_byte (take w (drop (i * w) buf)).
Proof.
  intros Hi Hb. split; [rewrite length_take, length_drop; lia|].
  by apply Forall_take, Forall_drop.
Qed.

Lemma load_range be l : Forall is_byte l -> 0 <= load be l < 256 ^ zlen l.
Proof.
  assert (forall l, Forall is_byte l -> 0 <= le_combine l < 256 ^ zlen l) as H.
  { clear. induction 1 as [|b l Hb _ IH]; [done|]. cbn [le_combine length].
    rewrite Nat2Z.inj_succ, Z.pow_succ_r by lia. unfold is_byte in Hb. nia. }
  intros Hb. unfold load. destruct be; [|by apply H].
  rewrite <- (length_reverse l). apply H. by apply Forall_reverse.
Qed.

Module Fletcher.

(** One round of the Fletcher-2 loop on the two words it reads. *)
Definition step2 (st : zio_cksum) (w0 w1 : Z) : zio_cksum :=
  let '(ZC a0 a1 b0 b1) := st in
  let a0 := u64 (a0 + w0) in
  let a1 := u64 (a1 + w1) in
  ZC a0 a1 (u64 (b0 + a0)) (u64 (b1 + a1)).

(** One round of the Fletcher-4 loop. *)
Definition step4 (st : zio_cksum) (w : Z) : zio_cksum :=
  let '(ZC a b c d) := st in
  let a := u64 (a + w) in
  let b := u64 (b + a) in
  let c := u64 (c + b) in
  ZC a b c (u64 (d + c)).

Section Host.
Variable be : bool.

(** [for (...; ip < ipend; ip += 2)] over 64-bit words, each passed through [f]. *)
Definition loop2 (f : Z -> Z) (buf : list Z) (size : nat) : outcome zio_cksum :=
  let ipend := (size / 8)%nat in
  iter (S ipend)
    (fun '(ip, st) =>
       if decide (ip < ipend)%nat then
         w0 ← rd_word be 8 buf ip;
         w1 ← rd_word be 8 buf (ip + 1);
         Ok (inl ((ip + 2)%nat, step2 st (f w0) (f w1)))
       else Ok (inr st))
    (0%nat, ZC 0 0 0 0).

(** [for (; ip < ipend; ip++)] over 32-bit words. *)
Definition loop4 (f : Z -> Z) (buf : list Z) (size : nat) (st : zio_cksum) : outcome zio_cksum :=
  let ipend := (size / 4)%nat in
  iter (S ipend)
    (fun '(ip, st) =>
       if decide (ip < ipend)%nat then
         w ← rd_word be 4 buf ip;
         Ok (inl ((ip + 1)%nat, step4 st (f w)))
       else Ok (inr st))
    (0%nat, st).

Definition fletcher_2_native := loop2 (fun w => w).
Definition fletcher_2_byteswap := loop2 BSWAP_64.
Definition fletcher_4_native buf size := loop4 (fun w => w) buf size (ZC 0 0 0 0).
Definition fletcher_4_byteswap buf size := loop4 BSWAP_32 buf size (ZC 0 0 0 0).
Definition fletcher_4_incremental_native := loop4 (fun w => w).
Definition fletcher_4_incremental_byteswap := loop4 BSWAP_32.
End Host.

(** ** The loops as folds over the words *)

Definition words (be : bool) (w : nat) (buf : list Z) : list Z :=
  map (word be w buf) (seq 0 (length buf / w)).

Definition fold2 (st : zio_cksum) (ps : list (Z * Z)) : zio_cksum :=
  fold_left (fun st p => step2 st (fst p) (snd p)) ps st.
Definition fold4 (st : zio_cksum) (ws : list Z) : zio_cksum := fold_left step4 ws st.

Lemma rd_word_ok be w buf i :
  (w <> 0)%nat -> (i < length buf / w)%nat -> rd_word be w buf i = Ok (word be w buf i).
Proof.
  intros Hw Hi. unfold rd_word. rewrite decide_True; [done|].
  assert (w * (length buf / w) <= length buf)%nat by (apply Nat.Div0.mul_div_le). nia.
Qed.

Lemma loop4_fold be f buf st :
  loop4 be f buf (length buf) st = Ok (fold4 st (f <$> words be 4 buf)).
Proof.
  unfold loop4, words. set (n := (length buf / 4)%nat).
  assert (forall fuel ip st, (ip <= n)%nat -> (n - ip < fuel)%nat ->
    iter fuel
      (fun '(ip, st) =>
         if decide (ip < n)%nat then
           w ← rd_word be 4 buf ip; Ok (inl ((ip + 1)%nat, step4 st (f w)))
         else Ok (inr st)) (ip, st)
    = Ok (fold4 st (f <$> map (word be 4 buf) (seq ip (n - ip))))) as H.
  { induction fuel as [|fuel IH]; intros ip st' Hip Hf; [lia|]. rewrite iter_S.
    case_decide.
    - rewrite rd_word_ok by (done || lia). run. rewrite IH by lia.
      replace (n - ip)%nat with (S (n - (ip + 1))) by lia.
      cbn. replace (S ip) with (ip + 1)%nat by lia. done.
    - replace (n - ip)%nat with 0%nat by lia. done. }
  rewrite H by lia. rewrite Nat.sub_0_r. done.
Qed.

Lemma loop2_fold be f buf :
  (length buf `mod` 16 = 0)%nat ->
  loop2 be f buf (length buf) =
  Ok (fold2 (ZC 0 0 0 0)
       (map (fun k => (f (word be 8 buf (2 * k)), f (word be 8 buf (2 * k + 1))))
            (seq 0 (length buf / 16)))).
Proof.
  intros Hm. unfold loop2. set (n := (length buf / 8)%nat). set (m := (length buf / 16)%nat).
  assert (n = 2 * m)%nat as Hnm.
  { unfold n, m. apply Nat.Div0.mod_divides in Hm as [q Hq]. rewrite Hq.
    replace (16 * q)%nat with ((2 * q) * 8)%nat by lia. rewrite Nat.div_mul by lia.
    replace (2 * q * 8)%nat with (q * 16)%nat by lia. rewrite Nat.div_mul by lia. done. }
  assert (forall fuel k st, (k <= m)%nat -> (m - k < fuel)%nat ->
    iter fuel
      (fun '(ip, st) =>
         if decide (ip < n)%nat then
           w0 ← rd_word be 8 buf ip; w1 ← rd_word be 8 buf (ip + 1);
           Ok (inl ((ip + 2)%nat, step2 st (f w0) (f w1)))
         else Ok (inr st)) ((2 * k)%nat, st)
    = Ok (fold2 st (map (fun k => (f (word be 8 buf (2 * k)), f (word be 8 buf (2 * k + 1))))
                        (seq k (m - k))))) as H.
  { induction fuel as [|fuel IH]; intros k st Hk Hf; [lia|]. rewrite iter_S.
    case_decide.
    - rewrite !rd_word_ok by (fold n; lia). run.
      replace (2 * k + 2)%nat with (2 * (k + 1))%nat by lia. rewrite IH by lia.
      replace (m - k)%nat with (S (m - (k + 1))) by lia.
      cbn [seq map]. replace (S k) with (k + 1)%nat by lia. done.
    - replace (m - k)%nat with 0%nat by lia. done. }
  rewrite (H _ 0%nat) by lia. rewrite Nat.sub_0_r. done.
Qed.

(** ** Closed form of Fletcher-4

    Weights of a word [k] places from the end of the buffer (the last word has
    [k = 1]): the accumulators hold sums weighted by the binomials
    [C(k,1)], [C(k+1,2)] and [C(k+2,3)]. *)

Definition w2 (k : Z) : Z := k * (k + 1) / 2.
Definition w3 (k : Z) : Z := k * (k + 1) * (k + 2) / 6.

Fixpoint weighted (wt : Z -> Z) (ws : list Z) : Z :=
  match ws with [] => 0 | w :: ws' => wt (zlen ws) * w + weighted wt ws' end.

Lemma w2_succ k : w2 (k + 1) = w2 k + (k + 1).
Proof.
  unfold w2. replace ((k + 1) * (k + 1 + 1)) with (k * (k + 1) + (k + 1) * 2) by lia.
  rewrite Z.div_add by lia. done.
Qed.

Lemma even_consec k : (k * (k + 1)) `mod` 2 = 0.
Proof.
  rewrite Zmult_mod, Zplus_mod. pose proof (Z.mod_pos_bound k 2).
  assert (k `mod` 2 = 0 \/ k `mod` 2 = 1) as [-> | ->] by lia; done.
Qed.

Lemma w3_succ k : w3 (k + 1) = w3 k + w2 (k + 1).
Proof.
  unfold w3, w2. pose proof (even_consec (k + 1)) as He. apply Z_div_exact_full_2 in He; [|lia].
  set (q := (k + 1) * (k + 1 + 1) / 2) in *.
  replace ((k + 1) * (k + 1 + 1) * (k + 1 + 2)) with (k * (k + 1) * (k + 2) + q * 6) by nia.
  rewrite Z.div_add by lia. done.
Qed.

Lemma fold4_closed ws a b c d :
  let n := zlen ws in
  fold4 (ZC (u64 a) (u64 b) (u64 c) (u64 d)) ws =
  ZC (u64 (a + weighted (fun _ => 1) ws))
     (u64 (b + n * a + weighted (fun k => k) ws))
     (u64 (c + n * b + w2 n * a + weighted w2 ws))
     (u64 (d + n * c + w2 n * b + w3 n * a + weighted w3 ws)).
Proof.
  revert a b c d. induction ws as [|w ws IH]; intros a b c d n.
  - unfold n. cbn [fold4 fold_left weighted length].
    change (w2 (Z.of_nat 0)) with 0. change (w3 (Z.of_nat 0)) with 0. f_equal; f_equal; lia.
  - cbn [fold4 fold_left step4]. unfold fold4 in IH.
    repeat first [rewrite wrap_add_l | rewrite wrap_add_r].
    rewrite IH. unfold n. cbn [weighted length].
    rewrite Nat2Z.inj_succ, <- Z.add_1_r, !w3_succ, !w2_succ. f_equal; f_equal; ring.
Qed.

Lemma weighted_app wt l1 l2 :
  weighted wt (l1 ++ l2) = weighted (fun k => wt (k + zlen l2)) l1 + weighted wt l2.
Proof.
  induction l1 as [|w l1 IH]; [done|]. rewrite <- app_comm_cons. cbn [weighted].
  rewrite IH. cbn [length]. rewrite length_app, <- Nat.add_succ_l, Nat2Z.inj_add. lia.
Qed.

Lemma fletcher_4_native_fold be buf :
  fletcher_4_native be buf (length buf) = Ok (fold4 (ZC 0 0 0 0) (words be 4 buf)).
Proof.
  unfold fletcher_4_native. rewrite loop4_fold. do 2 f_equal. apply list_fmap_id.
Qed.

Lemma map_word_ext be be' w (g : Z -> Z) buf ks :
  (forall k, In k ks -> g (word be w buf k) = word be' w buf k) ->
  g <$> map (word be w buf) ks = map (word be' w buf) ks.
Proof.
  intros H. induction ks as [|k ks IH]; [done|]. cbn. f_equal; [apply H; by left|].
  apply IH. intros. apply H. by right.
Qed.

Lemma words_swap32 be buf :
  Forall is_byte buf -> BSWAP_32 <$> words be 4 buf = words (negb be) 4 buf.
Proof.
  intros Hb. apply map_word_ext. intros k Hk%in_seq.
  assert (4 * (length buf / 4) <= length buf)%nat by apply Nat.Div0.mul_div_le.
  destruct (word_bytes 4 buf k) as [H1 H2]; [lia|done|]. by apply bswap32_load.
Qed.

Lemma words_app be w b1 b2 :
  (w <> 0)%nat -> (length b1 `mod` w = 0)%nat ->
  words be w (b1 ++ b2) = words be w b1 ++ words be w b2.
Proof.
  intros Hw Hm. apply Nat.Div0.mod_divides in Hm as [q Hq]. unfold words.
  rewrite length_app, Hq, (Nat.mul_comm w q), Nat.div_add_l, Nat.div_mul by done.
  rewrite seq_app, map_app. cbn [Nat.add]. f_equal.
  - apply map_ext_in. intros k Hk%in_seq. unfold word. f_equal.
    rewrite drop_app_le, take_app_le by (rewrite ?length_drop; nia). done.
  - assert (forall n a, map (word be w (b1 ++ b2)) (seq (q + a) n) = map (word be w b2) (seq a n))
      as Hs.
    { induction n as [|n IH]; intros a; [done|]. cbn [seq map]. f_equal.
      - unfold word. f_equal. replace ((q + a) * w)%nat with (length b1 + a * w)%nat by lia.
        rewrite drop_app_add. done.
      - rewrite <- Nat.add_succ_r. apply IH. }
    rewrite <- (Hs _ 0%nat), Nat.add_0_r. done.
Qed.

Lemma words_u32 be buf : Forall is_byte buf -> Forall is_u32 (words be 4 buf).
Proof.
  intros Hb. apply List.Forall_map, List.Forall_forall. intros k Hk%in_seq.
  assert (4 * (length buf / 4) <= length buf)%nat by apply Nat.Div0.mul_div_le.
  destruct (word_bytes 4 buf k) as [H1 H2]; [lia|done|].
  pose proof (load_range be _ H2) as Hr. rewrite H1 in Hr. exact Hr.
Qed.

(** The byte-swapping checksums are the native ones of the other byte order. *)
Lemma fletcher_2_swap be buf :
  Forall is_byte buf -> (length buf `mod` 16 = 0)%nat ->
  fletcher_2_byteswap be buf (length buf) = fletcher_2_native (negb be) buf (length buf).
Proof.
  intros Hb Hm. unfold fletcher_2_byteswap, fletcher_2_native. rewrite !loop2_fold by done. do 2 f_equal.
  apply map_ext_in. intros k Hk%in_seq.
  assert (16 * (length buf / 16) <= length buf)%nat by apply Nat.Div0.mul_div_le.
  f_equal; unfold word; apply bswap64_load; apply word_bytes; (lia || done).
Qed.

Lemma fletcher_4_swap be buf :
  Forall is_byte buf ->
  fletcher_4_byteswap be buf (length buf) = fletcher_4_native (negb be) buf (length buf).
Proof.
  intros Hb. unfold fletcher_4_byteswap. rewrite fletcher_4_native_fold, loop4_fold, words_swap32; done.
Qed.

(** A 64-bit difference that is not a multiple of [2^64] is noticed. *)
Lemma u64_neq a b d : u64 a - u64 b = d \/ a - b = d -> 0 < Z.abs d < 2 ^ 64 -> u64 a <> u64 b.
Proof.
  intros [Hd|Hd] Hr Heq; [lia|]. unfold wrap in Heq.
  assert ((a - b) `mod` 2 ^ 64 = 0) as H0 by (rewrite Zminus_mod, Heq, Z.sub_diag; done).
  rewrite Hd in H0. apply Z.mod_divide in H0 as [q Hq]; [|lia]. nia.
Qed.

Lemma u64_sub_0 a b : is_u64 a -> is_u64 b -> u64 (a - b) = 0 -> a = b.
Proof.
  unfold is_u64, wrap. intros Ha Hb H. apply Z.mod_divide in H as [q Hq]; [|lia]. nia.
Qed.

Lemma cksum_equal_eq a b c d a' b' c' d' :
  ZIO_CHECKSUM_EQUAL (ZC (u64 a) (u64 b) (u64 c) (u64 d)) (ZC (u64 a') (u64 b') (u64 c') (u64 d'))
  = true -> u64 a = u64 a' /\ u64 b = u64 b' /\ u64 c = u64 c' /\ u64 d = u64 d'.
Proof.
  unfold ZIO_CHECKSUM_EQUAL. cbn [zc_word0 zc_word1 zc_word2 zc_word3]. intros H%Z.eqb_eq. symmetry in H.
  rewrite !Z.lor_eq_0_iff in H. destruct H as [[[H1 H2] H3] H4].
  split_and!; (apply u64_sub_0; [apply wrap_range; lia..|done]).
Qed.

(** ** Properties *)

(** [fletcher_4_native] computes exactly the four binomially weighted sums
    of the 32-bit words of the buffer, modulo [2^64]; it never reads outside
    the buffer, whose trailing bytes beyond the last whole word are ignored. *)
Theorem fletcher_4_closed_form (be : bool) (buf : list Z) :
  let ws := words be 4 buf in
  fletcher_4_native be buf (length buf) =
  Ok (ZC (u64 (weighted (fun _ => 1) ws)) (u64 (weighted (fun k => k) ws))
         (u64 (weighted w2 ws)) (u64 (weighted w3 ws))).
Proof.
  intros ws. rewrite fletcher_4_native_fold. f_equal.
  pose proof (fold4_closed ws 0 0 0 0) as H. cbn zeta in H.
  rewrite !Z.mul_0_r, !Z.add_0_l in H. exact H.
Qed.

(** C12: on a buffer whose length is a multiple of the word group, the
    byte-swapping checksums of a host give what the native checksums of a host
    of the other byte order give on the same bytes: a pool written on either
    kind of machine verifies on the other. *)
Theorem fletcher_byteswap_native (be : bool) (buf : list Z) (z : zio_cksum) :
  Forall is_byte buf -> (length buf `mod` 16 = 0)%nat ->
  fletcher_2_byteswap be buf (length buf) = fletcher_2_native (negb be) buf (length buf) /\
  fletcher_4_byteswap be buf (length buf) = fletcher_4_native (negb be) buf (length buf) /\
  fletcher_4_incremental_byteswap be buf (length buf) z =
    fletcher_4_incremental_native (negb be) buf (length buf) z.
Proof.
  intros Hb Hm. split_and!; [by apply fletcher_2_swap|by apply fletcher_4_swap|].
  unfold fletcher_4_incremental_byteswap, fletcher_4_incremental_native.
  rewrite !loop4_fold, words_swap32, list_fmap_id; done.
Qed.

Lemma fletcher_byteswap_native_witness :
  let buf := [1;2;3;4;5;6;7;8;9;10;11;12;13;14;15;255] in
  fletcher_2_byteswap false buf 16 = fletcher_2_native true buf 16 /\
  fletcher_4_byteswap false buf 16 = fletcher_4_native true buf 16 /\
  fletcher_4_incremental_byteswap false buf 16 (ZC 1 2 3 4) =
    fletcher_4_incremental_native true buf 16 (ZC 1 2 3 4).
Proof.
  apply (fletcher_byteswap_native false [1;2;3;4;5;6;7;8;9;10;11;12;13;14;15;255] (ZC 1 2 3 4)).
  - repeat constructor; discriminate.
  - reflexivity.
Defined.

(** checksumming a stream piecewise with the incremental routines gives the
    checksum of the whole: continuing from the checksum of a first part (a
    whole number of words) over a second part equals one pass over both. *)
Theorem fletcher_4_incremental_app (be : bool) (b1 b2 : list Z) :
  (length b1 `mod` 4 = 0)%nat ->
  fletcher_4_native be b1 (length b1) ≫= fletcher_4_incremental_native be b2 (length b2)
  = fletcher_4_native be (b1 ++ b2) (length (b1 ++ b2)).
Proof.
  intros Hm. rewrite !fletcher_4_native_fold, words_app by done. run.
  unfold fletcher_4_incremental_native. rewrite loop4_fold, list_fmap_id.
  unfold fold4. rewrite fold_left_app. done.
Qed.

Lemma fletcher_4_incremental_app_witness :
  fletcher_4_native false [1;2;3;4] 4 ≫= fletcher_4_incremental_native false [5;6;7;8;9] 5
  = fletcher_4_native false [1;2;3;4;5;6;7;8;9] 9.
Proof. apply (fletcher_4_incremental_app false [1;2;3;4] [5;6;7;8;9]). reflexivity. Defined.

(** Fletcher-4 notices every change of a single 32-bit word and every
    exchange of two different words less than [2^32] places apart: the
    comparison [ZIO_CHECKSUM_EQUAL] of the two checksums is false. *)
Theorem fletcher_4_detects (be : bool) (buf1 buf2 l m r : list Z) (x y : Z) (z1 z2 : zio_cksum) :
  Forall is_byte buf1 -> x <> y -> is_u32 y -> zlen m < 2 ^ 32 - 1 ->
  (words be 4 buf1 = l ++ x :: r /\ words be 4 buf2 = l ++ y :: r \/
   words be 4 buf1 = l ++ x :: m ++ y :: r /\ words be 4 buf2 = l ++ y :: m ++ x :: r) ->
  fletcher_4_native be buf1 (length buf1) = Ok z1 ->
  fletcher_4_native be buf2 (length buf2) = Ok z2 ->
  ZIO_CHECKSUM_EQUAL z1 z2 = false.
Proof.
  intros Hb Hxy Hy Hm Hw H1 H2.
  assert (is_u32 x) as Hx.
  { pose proof (words_u32 be buf1 Hb) as Hu. rewrite List.Forall_forall in Hu. apply Hu.
    destruct Hw as [[-> _]|[-> _]]; apply in_app_iff; right; by left. }
  rewrite fletcher_4_native_fold in H1, H2. injection H1 as <-. injection H2 as <-.
  apply not_true_is_false. intros He.
  pose proof (fold4_closed (words be 4 buf1) 0 0 0 0) as C1.
  pose proof (fold4_closed (words be 4 buf2) 0 0 0 0) as C2. cbn zeta in C1, C2.
  change (ZC (u64 0) (u64 0) (u64 0) (u64 0)) with (ZC 0 0 0 0) in *.
  rewrite C1, C2 in He. apply cksum_equal_eq in He as (Ha & Hb2 & _ & _).
  unfold is_u32 in *.
  destruct Hw as [[E1 E2]|[E1 E2]]; rewrite E1, E2 in *.
  - revert Ha. apply u64_neq with (x - y); [|lia]. right.
    rewrite !weighted_app. cbn [weighted length]. lia.
  - revert Hb2. apply u64_neq with ((zlen m + 1) * (x - y)); [|nia]. right.
    rewrite !weighted_app. cbn [weighted length].
    rewrite !weighted_app. rewrite !length_app. cbn [weighted length].
    rewrite !length_app. cbn [length]. lia.
Qed.

(** Exchanging the two words of an eight-byte buffer. *)
Lemma fletcher_4_detects_witness :
  ZIO_CHECKSUM_EQUAL (ZC 12 17 22 27) (ZC 12 19 26 33) = false.
Proof.
  apply (fletcher_4_detects false [5;0;0;0;7;0;0;0] [7;0;0;0;5;0;0;0] [] [] [] 5 7);
    try reflexivity.
  - repeat constructor; discriminate.
  - discriminate.
  - split; [discriminate|reflexivity].
  - right. split; reflexivity.
Defined.

End Fletcher.
