(* ===== verification/Sha256.v ===== *)
(** * SHA-256: fs/zfs/sha256.c

    [SHA256Transform] and [zio_checksum_SHA256] with their loops, their 128-byte
    padding buffer and their 32-bit arithmetic; and, from FIPS 180-3, the padded
    message, the literal [Ch] and [Maj] and the hash as a fold over blocks, to
    which the code is proved equal. *)

From Stdlib Require Import List.
From stdpp Require Import base option numbers list.
From S2P Require Import Prelude Checksum.
Local Open Scope Z_scope.

Module Sha256.

(** ** The code *)

Definition Ch (x y z : Z) : Z := Z.lxor z (Z.land x (Z.lxor y z)).
Definition Maj (x y z : Z) : Z := Z.lxor (Z.land x y) (Z.land z (Z.lxor x y)).
Definition Rot32 (x s : Z) : Z := Z.lor (Z.shiftr x s) (u32 (Z.shiftl x (32 - s))).
Definition SIGMA0 (x : Z) : Z := Z.lxor (Z.lxor (Rot32 x 2) (Rot32 x 13)) (Rot32 x 22).
Definition SIGMA1 (x : Z) : Z := Z.lxor (Z.lxor (Rot32 x 6) (Rot32 x 11)) (Rot32 x 25).
Definition sigma0 (x : Z) : Z := Z.lxor (Z.lxor (Rot32 x 7) (Rot32 x 18)) (Z.shiftr x 3).
Definition sigma1 (x : Z) : Z := Z.lxor (Z.lxor (Rot32 x 17) (Rot32 x 19)) (Z.shiftr x 10).

Definition SHA256_K : list Z :=
  [0x428a2f98; 0x71374491; 0xb5c0fbcf; 0xe9b5dba5] ++
  [0x3956c25b; 0x59f111f1; 0x923f82a4; 0xab1c5ed5] ++
  [0xd807aa98; 0x12835b01; 0x243185be; 0x550c7dc3] ++
  [0x72be5d74; 0x80deb1fe; 0x9bdc06a7; 0xc19bf174] ++
  [0xe49b69c1; 0xefbe4786; 0x0fc19dc6; 0x240ca1cc] ++
  [0x2de92c6f; 0x4a7484aa; 0x5cb0a9dc; 0x76f988da] ++
  [0x983e5152; 0xa831c66d; 0xb00327c8; 0xbf597fc7] ++
  [0xc6e00bf3; 0xd5a79147; 0x06ca6351; 0x14292967] ++
  [0x27b70a85; 0x2e1b2138; 0x4d2c6dfc; 0x53380d13] ++
  [0x650a7354; 0x766a0abb; 0x81c2c92e; 0x92722c85] ++
  [0xa2bfe8a1; 0xa81a664b; 0xc24b8b70; 0xc76c51a3] ++
  [0xd192e819; 0xd6990624; 0xf40e3585; 0x106aa070] ++
  [0x19a4c116; 0x1e376c08; 0x2748774c; 0x34b0bcb5] ++
  [0x391c0cb3; 0x4ed8aa4a; 0x5b9cca4f; 0x682e6ff3] ++
  [0x748f82ee; 0x78a5636f; 0x84c87814; 0x8cc70208] ++
  [0x90befffa; 0xa4506ceb; 0xbef9a3f7; 0xc67178f2].

(** The eight working variables, and [H[0..7]]. *)
Record regs := Regs { ra : Z; rb : Z; rc : Z; rd' : Z; re : Z; rf : Z; rg : Z; rh : Z }.

(** [for (t = 0; t < 16; t++, cp += 4) W[t] = ...], [n] rounds from offset [cp]. *)
Fixpoint load_W (n : nat) (buf : list Z) (cp : Z) : outcome (list Z) :=
  match n with
  | O => Ok []
  | S n' =>
      c0 ← rd buf cp; c1 ← rd buf (cp + 1); c2 ← rd buf (cp + 2); c3 ← rd buf (cp + 3);
      let w := u32 (Z.lor (Z.lor (Z.lor (Z.shiftl c0 24) (Z.shiftl c1 16)) (Z.shiftl c2 8)) c3) in
      ws ← load_W n' buf (cp + 4);
      Ok (w :: ws)
  end.

(** [for (t = 16; t < 64; t++) W[t] = ...]: [n] rounds, [W] filled below [t]. *)
Fixpoint extend_W (n : nat) (t : Z) (W : list Z) : outcome (list Z) :=
  match n with
  | O => Ok W
  | S n' =>
      w2 ← rd W (t - 2); w7 ← rd W (t - 7); w15 ← rd W (t - 15); w16 ← rd W (t - 16);
      extend_W n' (t + 1) (W ++ [u32 (sigma1 w2 + w7 + sigma0 w15 + w16)])
  end.

(** The body of [for (t = 0; t < 64; t++)]. *)
Definition round (r : regs) (k w : Z) : regs :=
  let '(Regs a b c d e f g h) := r in
  let T1 := u32 (h + SIGMA1 e + Ch e f g + k + w) in
  let T2 := u32 (SIGMA0 a + Maj a b c) in
  Regs (u32 (T1 + T2)) a b c (u32 (d + T1)) e f g.

Fixpoint rounds (n : nat) (t : Z) (W : list Z) (r : regs) : outcome regs :=
  match n with
  | O => Ok r
  | S n' => k ← rd SHA256_K t; w ← rd W t; rounds n' (t + 1) W (round r k w)
  end.

(** [H[0] += a; ... H[7] += h;] *)
Definition add_regs (H r : regs) : regs :=
  Regs (u32 (ra H + ra r)) (u32 (rb H + rb r)) (u32 (rc H + rc r)) (u32 (rd' H + rd' r))
       (u32 (re H + re r)) (u32 (rf H + rf r)) (u32 (rg H + rg r)) (u32 (rh H + rh r)).

Definition SHA256Transform (H : regs) (buf : list Z) (cp : Z) : outcome regs :=
  W ← load_W 16 buf cp;
  W ← extend_W 48 16 W;
  r ← rounds 64 0 W H;
  Ok (add_regs H r).

(** [for (...; i < limit; i += 64) SHA256Transform(H, buf + i)] *)
Definition transform_loop (buf : list Z) (limit : Z) (i : Z) (H : regs) : outcome (Z * regs) :=
  iter (S (Z.to_nat limit))
    (fun '(i, H) =>
       if i <? limit then H' ← SHA256Transform H buf i; Ok (inl (i + 64, H'))
       else Ok (inr (i, H)))
    (i, H).

Definition H_init : regs :=
  Regs 0x6a09e667 0xbb67ae85 0x3c6ef372 0xa54ff53a 0x510e527f 0x9b05688c 0x1f83d9ab 0x5be0cd19.

(** [for (padsize = 0; i < size; i++) pad[padsize++] = buf[i];] *)
Definition pad_copy (buf : list Z) (size i : Z) (pad : list Z) : outcome (list Z * Z) :=
  iter (S (Z.to_nat size))
    (fun '(i, pad, padsize) =>
       if i <? size then
         b ← rd buf i; pad' ← wr pad padsize b; Ok (inl (i + 1, pad', padsize + 1))
       else Ok (inr (pad, padsize)))
    (i, pad, 0).

(** [for (pad[padsize++] = 0x80; (padsize & 63) != 56; padsize++) pad[padsize] = 0;] *)
Definition pad_zero (pad : list Z) (padsize : Z) : outcome (list Z * Z) :=
  pad ← wr pad padsize 0x80;
  iter 128
    (fun '(pad, padsize) =>
       if negb (Z.land padsize 63 =? 56) then
         pad' ← wr pad padsize 0; Ok (inl (pad', padsize + 1))
       else Ok (inr (pad, padsize)))
    (pad, padsize + 1).

(** [for (i = 56; i >= 0; i -= 8) pad[padsize++] = (size << 3) >> i;] *)
Definition pad_len (size : Z) (pad : list Z) (padsize : Z) : outcome (list Z * Z) :=
  iter 16
    (fun '(i, pad, padsize) =>
       if 0 <=? i then
         pad' ← wr pad padsize (u8 (Z.shiftr (u64 (Z.shiftl size 3)) i));
         Ok (inl (i - 8, pad', padsize + 1))
       else Ok (inr (pad, padsize)))
    (56, pad, padsize).

(** [zio_checksum_SHA256]; [pad0] is what the stack held in [pad]. *)
Definition zio_checksum_SHA256 (pad0 buf : list Z) (size : Z) : outcome zio_cksum :=
  '(i, H) ← transform_loop buf (Z.land size (u64 (Z.lnot 63))) 0 H_init;
  '(pad, padsize) ← pad_copy buf size i pad0;
  '(pad, padsize) ← pad_zero pad padsize;
  '(pad, padsize) ← pad_len size pad padsize;
  '(_, H) ← transform_loop pad padsize 0 H;
  Ok (ZC (Z.lor (Z.shiftl (ra H) 32) (rb H)) (Z.lor (Z.shiftl (rc H) 32) (rd' H))
         (Z.lor (Z.shiftl (re H) 32) (rf H)) (Z.lor (Z.shiftl (rg H) 32) (rh H))).

Example sha256_abc :
  zio_checksum_SHA256 (replicate 128 0xaa) [0x61; 0x62; 0x63] 3
  = Ok (ZC 0xba7816bf8f01cfea 0x414140de5dae2223 0xb00361a396177a9c 0xb410ff61f20015ad).
Proof. vm_compute. reflexivity. Qed.

(** ** FIPS 180-3 *)

Definition fips_Ch (x y z : Z) : Z := Z.lxor (Z.land x y) (Z.land (Z.ldiff (2 ^ 32 - 1) x) z).
Definition fips_Maj (x y z : Z) : Z :=
  Z.lxor (Z.lxor (Z.land x y) (Z.land x z)) (Z.land y z).
(** Rotation by arithmetic: the low [s] bits move to the top. *)
Definition ROTR (s x : Z) : Z := x / 2 ^ s + (x `mod` 2 ^ s) * 2 ^ (32 - s).

Definition fips_Sigma0 x := Z.lxor (Z.lxor (ROTR 2 x) (ROTR 13 x)) (ROTR 22 x).
Definition fips_Sigma1 x := Z.lxor (Z.lxor (ROTR 6 x) (ROTR 11 x)) (ROTR 25 x).
Definition fips_sigma0 x := Z.lxor (Z.lxor (ROTR 7 x) (ROTR 18 x)) (x / 2 ^ 3).
Definition fips_sigma1 x := Z.lxor (Z.lxor (ROTR 17 x) (ROTR 19 x)) (x / 2 ^ 10).

Definition be32 (b : list Z) (t : nat) : Z := word true 4 b t.

(** The message schedule: words 0 to 15 are the block, later ones by recurrence. *)
Fixpoint schedule (n : nat) (W : list Z) : list Z :=
  match n with
  | O => W
  | S n' =>
      let t := length W in
      let at' k := nth (t - k) W 0 in
      schedule n' (W ++ [u32 (fips_sigma1 (at' 2%nat) + at' 7%nat + fips_sigma0 (at' 15%nat) + at' 16%nat)])
  end.

Definition fips_round (r : regs) (kw : Z * Z) : regs :=
  let '(Regs a b c d e f g h) := r in
  let T1 := u32 (h + fips_Sigma1 e + fips_Ch e f g + fst kw + snd kw) in
  let T2 := u32 (fips_Sigma0 a + fips_Maj a b c) in
  Regs (u32 (T1 + T2)) a b c (u32 (d + T1)) e f g.

Definition fips_block (H : regs) (block : list Z) : regs :=
  let W := schedule 48 (map (be32 block) (seq 0 16)) in
  add_regs H (fold_left fips_round (combine SHA256_K W) H).

(** The 64-bit big-endian length, and the padded message. *)
Definition be64 (x : Z) : list Z :=
  map (fun i => (x / 2 ^ i) `mod` 256) [56; 48; 40; 32; 24; 16; 8; 0].
Definition fips_padding (len : Z) : list Z :=
  0x80 :: replicate (Z.to_nat ((55 - len) `mod` 64)) 0 ++ be64 (8 * len).
Definition fips_pad (msg : list Z) : list Z := msg ++ fips_padding (zlen msg).

Definition blocks (m : list Z) : list (list Z) :=
  map (fun k => take 64 (drop (k * 64) m)) (seq 0 (length m / 64)).

Definition fips_sha256 (msg : list Z) : regs := fold_left fips_block (blocks (fips_pad msg)) H_init.

(** ** The logical reductions and the rotation *)

Lemma Ch_fips x y z : is_u32 x -> is_u32 y -> is_u32 z -> Ch x y z = fips_Ch x y z.
Proof.
  unfold is_u32. intros Hx Hy Hz. apply Z.bits_inj'. intros i Hi. unfold Ch, fips_Ch.
  change (2 ^ 32 - 1) with (Z.ones 32).
  rewrite !Z.lxor_spec, !Z.land_spec, !Z.lxor_spec, Z.ldiff_spec.
  destruct (decide (i < 32)).
  - rewrite Z.ones_spec_low by lia. by destruct (Z.testbit x i), (Z.testbit y i), (Z.testbit z i).
  - rewrite (bits_above x 32 i), (bits_above y 32 i), (bits_above z 32 i) by lia.
    by destruct (Z.testbit (Z.ones 32) i).
Qed.

Lemma Maj_fips x y z : Maj x y z = fips_Maj x y z.
Proof.
  apply Z.bits_inj'. intros i Hi. unfold Maj, fips_Maj.
  rewrite !Z.lxor_spec, !Z.land_spec, !Z.lxor_spec.
  by destruct (Z.testbit x i), (Z.testbit y i), (Z.testbit z i).
Qed.

Lemma Rot32_fips x s : is_u32 x -> 0 < s < 32 -> Rot32 x s = ROTR s x.
Proof.
  unfold is_u32. intros Hx Hs. unfold Rot32, ROTR.
  rewrite Z.shiftl_mul_pow2, Z.shiftr_div_pow2 by lia. unfold wrap.
  assert (2 ^ 32 = 2 ^ s * 2 ^ (32 - s)) as E by (rewrite <- Z.pow_add_r by lia; f_equal; lia).
  rewrite E at 1. rewrite Z.mul_mod_distr_r by lia.
  rewrite Z.lor_comm, <- Z.shiftl_mul_pow2 by lia. rewrite lor_shiftl_add, Z.shiftl_mul_pow2;
    [lia|lia|lia|].
  split; [apply Z.div_pos; lia|]. apply Z.div_lt_upper_bound; lia.
Qed.

Lemma SIGMA0_fips x : is_u32 x -> SIGMA0 x = fips_Sigma0 x.
Proof. intros. unfold SIGMA0, fips_Sigma0. by rewrite !Rot32_fips by (done || lia). Qed.
Lemma SIGMA1_fips x : is_u32 x -> SIGMA1 x = fips_Sigma1 x.
Proof. intros. unfold SIGMA1, fips_Sigma1. by rewrite !Rot32_fips by (done || lia). Qed.
Lemma sigma0_fips x : is_u32 x -> sigma0 x = fips_sigma0 x.
Proof.
  intros. unfold sigma0, fips_sigma0. rewrite Z.shiftr_div_pow2 by lia.
  by rewrite !Rot32_fips by (done || lia).
Qed.
Lemma sigma1_fips x : is_u32 x -> sigma1 x = fips_sigma1 x.
Proof.
  intros. unfold sigma1, fips_sigma1. rewrite Z.shiftr_div_pow2 by lia.
  by rewrite !Rot32_fips by (done || lia).
Qed.

Lemma u32_range z : is_u32 (u32 z).
Proof. apply wrap_range. lia. Qed.
#[local] Hint Resolve u32_range : core.

(** ** One block *)

Lemma be_word_lor c0 c1 c2 c3 :
  is_byte c0 -> is_byte c1 -> is_byte c2 -> is_byte c3 ->
  u32 (Z.lor (Z.lor (Z.lor (Z.shiftl c0 24) (Z.shiftl c1 16)) (Z.shiftl c2 8)) c3)
  = load true [c0; c1; c2; c3].
Proof.
  unfold is_byte. intros.
  change 24 with (8 + (8 + 8)). change 16 with (8 + 8).
  rewrite <- !Z.shiftl_shiftl, <- !Z.shiftl_lor by lia.
  rewrite !lor_shiftl_add by lia. rewrite wrap_small by lia. cbn. lia.
Qed.

Lemma take4_drop (buf : list Z) k c0 c1 c2 c3 :
  buf !! k = Some c0 -> buf !! (k + 1)%nat = Some c1 -> buf !! (k + 2)%nat = Some c2 ->
  buf !! (k + 3)%nat = Some c3 -> take 4 (drop k buf) = [c0; c1; c2; c3].
Proof.
  intros H0 H1 H2 H3.
  rewrite Nat.add_1_r in H1. replace (k + 2)%nat with (S (S k)) in H2 by lia.
  replace (k + 3)%nat with (S (S (S k))) in H3 by lia.
  by rewrite (drop_S _ _ _ H0), (drop_S _ _ _ H1), (drop_S _ _ _ H2), (drop_S _ _ _ H3).
Qed.

Lemma load_W_fips n buf off a :
  Forall is_byte buf -> (off + (a + n) * 4 <= length buf)%nat ->
  load_W n buf (Z.of_nat (off + a * 4)) = Ok (map (be32 (drop off buf)) (seq a n)).
Proof.
  intros Hb. revert a. induction n as [|n IH]; intros a Hl; [done|]. cbn [load_W seq map].
  assert (forall j, (j < 4)%nat -> exists c, buf !! (off + a * 4 + j)%nat = Some c /\ is_byte c /\
    rd buf (Z.of_nat (off + a * 4) + Z.of_nat j) = Ok c) as Hc.
  { intros j Hj. destruct (lookup_lt_is_Some_2 buf (off + a * 4 + j)) as [c Hc]; [lia|].
    exists c. split_and!; [done|by eapply (Forall_lookup_1 _ _ _ _ Hb)|].
    apply rd_ok. split; [lia|]. rewrite <- Hc. f_equal. lia. }
  destruct (Hc 0%nat) as (c0 & L0 & B0 & R0); [lia|].
  destruct (Hc 1%nat) as (c1 & L1 & B1 & R1); [lia|].
  destruct (Hc 2%nat) as (c2 & L2 & B2 & R2); [lia|].
  destruct (Hc 3%nat) as (c3 & L3 & B3 & R3); [lia|].
  rewrite Nat.add_0_r in L0. rewrite Z.add_0_r in R0.
  change (Z.of_nat 1) with 1 in R1. change (Z.of_nat 2) with 2 in R2.
  change (Z.of_nat 3) with 3 in R3.
  rewrite R0; run; rewrite R1; run; rewrite R2; run; rewrite R3; run.
  replace (Z.of_nat (off + a * 4) + 4) with (Z.of_nat (off + S a * 4)) by lia.
  rewrite IH by lia. run. do 2 f_equal. rewrite be_word_lor by done.
  unfold be32, word. rewrite drop_drop. f_equal. symmetry. by apply take4_drop.
Qed.

Lemma extend_W_fips n W :
  Forall is_u32 W -> (16 <= length W)%nat ->
  extend_W n (zlen W) W = Ok (schedule n W) /\ Forall is_u32 (schedule n W) /\
  length (schedule n W) = (n + length W)%nat.
Proof.
  revert W. induction n as [|n IH]; intros W HW Hl; [done|]. cbn [extend_W schedule].
  assert (forall k, (0 < k <= 16)%nat -> rd W (zlen W - Z.of_nat k) = Ok (nth (length W - k) W 0) /\
    is_u32 (nth (length W - k) W 0)) as Hk.
  { intros k Hk. rewrite rd_nth by lia. split; [do 2 f_equal; lia|].
    apply List.Forall_nth; [done|lia]. }
  destruct (Hk 2%nat) as [R2 U2]; [lia|]. destruct (Hk 7%nat) as [R7 U7]; [lia|].
  destruct (Hk 15%nat) as [R15 U15]; [lia|]. destruct (Hk 16%nat) as [R16 U16]; [lia|].
  change (zlen W - 2) with (zlen W - Z.of_nat 2). change (zlen W - 7) with (zlen W - Z.of_nat 7).
  change (zlen W - 15) with (zlen W - Z.of_nat 15).
  change (zlen W - 16) with (zlen W - Z.of_nat 16).
  rewrite R2; run; rewrite R7; run; rewrite R15; run; rewrite R16; run.
  rewrite sigma1_fips, sigma0_fips by done.
  set (W' := W ++ _). assert (zlen W + 1 = zlen W') as -> by (unfold W'; rewrite length_app; cbn; lia).
  destruct (IH W') as (E & F & L).
  - unfold W'. apply Forall_app. split; [done|]. repeat constructor; apply u32_range.
  - unfold W'. rewrite length_app. lia.
  - rewrite E. split_and!; [done|done|]. rewrite L. unfold W'. rewrite length_app. cbn. lia.
Qed.

Definition regs_ok (r : regs) : Prop :=
  is_u32 (ra r) /\ is_u32 (rb r) /\ is_u32 (rc r) /\ is_u32 (rd' r) /\
  is_u32 (re r) /\ is_u32 (rf r) /\ is_u32 (rg r) /\ is_u32 (rh r).

Lemma round_fips r k w : regs_ok r -> round r k w = fips_round r (k, w) /\ regs_ok (round r k w).
Proof.
  destruct r. intros (?&?&?&?&?&?&?&?). cbn in *. split.
  - by rewrite SIGMA1_fips, SIGMA0_fips, Ch_fips, Maj_fips.
  - unfold regs_ok; cbn; split_and!; done || apply u32_range.
Qed.

Lemma rounds_fips n t W r :
  regs_ok r -> (Z.to_nat t + n = 64)%nat -> 0 <= t -> length W = 64%nat ->
  rounds n t W r = Ok (fold_left fips_round (combine (drop (Z.to_nat t) SHA256_K) (drop (Z.to_nat t) W)) r)
  /\ regs_ok (fold_left fips_round (combine (drop (Z.to_nat t) SHA256_K) (drop (Z.to_nat t) W)) r).
Proof.
  assert (length SHA256_K = 64%nat) as HK by reflexivity.
  revert t r. induction n as [|n IH]; intros t r Hr Ht Ht0 HW; cbn [rounds].
  - rewrite (drop_ge SHA256_K) by lia. done.
  - rewrite (rd_nth SHA256_K), (rd_nth W) by lia. run.
    set (k := nth _ SHA256_K 0). set (w := nth _ W 0).
    assert (SHA256_K !! Z.to_nat t = Some k) as Lk.
    { destruct (lookup_lt_is_Some_2 SHA256_K (Z.to_nat t)) as [v Hv]; [lia|].
      rewrite Hv. f_equal. symmetry. by apply nth_lookup_Some. }
    assert (W !! Z.to_nat t = Some w) as Lw.
    { destruct (lookup_lt_is_Some_2 W (Z.to_nat t)) as [v Hv]; [lia|].
      rewrite Hv. f_equal. symmetry. by apply nth_lookup_Some. }
    rewrite (drop_S _ _ _ Lk), (drop_S _ _ _ Lw). cbn [combine fold_left].
    destruct (round_fips r k w Hr) as [E Hr']. rewrite <- E.
    replace (S (Z.to_nat t)) with (Z.to_nat (t + 1)) by lia. apply IH; [done|lia..].
Qed.

Lemma transform_steps H buf cp W0 W1 r :
  load_W 16 buf cp = Ok W0 -> extend_W 48 16 W0 = Ok W1 -> rounds 64 0 W1 H = Ok r ->
  SHA256Transform H buf cp = Ok (add_regs H r).
Proof. intros E0 E1 E2. unfold SHA256Transform. rewrite E0. run. rewrite E1. run. rewrite E2. done. Qed.

Lemma add_regs_ok H r : regs_ok (add_regs H r).
Proof. unfold regs_ok; cbn; split_and!; apply u32_range. Qed.

Lemma block_words buf off :
  (off + 64 <= length buf)%nat -> Forall is_byte buf ->
  load_W 16 buf (Z.of_nat off) = Ok (map (be32 (take 64 (drop off buf))) (seq 0 16)) /\
  Forall is_u32 (map (be32 (take 64 (drop off buf))) (seq 0 16)).
Proof.
  intros Hl Hb. split.
  - pose proof (load_W_fips 16 buf off 0 Hb) as E. rewrite Nat.add_0_r in E. rewrite E by lia.
    f_equal. apply map_ext_in. intros k Hk%in_seq. unfold be32, word. f_equal.
    rewrite skipn_firstn_comm, take_take. f_equal. lia.
  - apply List.Forall_map, List.Forall_forall. intros k Hk%in_seq.
    destruct (word_bytes 4 (take 64 (drop off buf)) k) as [L1 L2].
    + rewrite length_take, length_drop. lia.
    + by apply Forall_take, Forall_drop.
    + pose proof (load_range true _ L2) as Hr. rewrite L1 in Hr. exact Hr.
Qed.

Lemma transform_words H buf cp W0 :
  regs_ok H -> load_W 16 buf cp = Ok W0 -> Forall is_u32 W0 -> length W0 = 16%nat ->
  SHA256Transform H buf cp
  = Ok (add_regs H (fold_left fips_round (combine SHA256_K (schedule 48 W0)) H)).
Proof.
  intros HH E0 HW HL. destruct (extend_W_fips 48 W0) as (E1 & E2 & E3); [done|lia|].
  rewrite HL in E1. generalize dependent (schedule 48 W0). intros W1 E1 E2 E3.
  destruct (rounds_fips 64 0 W1 H) as [E4 _]; [done|done|done|lia|].
  eapply transform_steps; [exact E0|exact E1|exact E4].
Qed.

Lemma transform_fips H buf off :
  regs_ok H -> Forall is_byte buf -> (off + 64 <= length buf)%nat ->
  SHA256Transform H buf (Z.of_nat off) = Ok (fips_block H (take 64 (drop off buf))) /\
  regs_ok (fips_block H (take 64 (drop off buf))).
Proof.
  intros HH Hb Hl. destruct (block_words buf off Hl Hb) as [E HW].
  split; [|apply add_regs_ok].
  rewrite (transform_words H buf _ _ HH E HW); [done|].
  by rewrite length_map, length_seq.
Qed.

(** ** The loop over blocks *)

Lemma transform_loop_fips buf k H :
  regs_ok H -> Forall is_byte buf -> (k * 64 <= length buf)%nat ->
  exists H', transform_loop buf (Z.of_nat (k * 64)) 0 H = Ok (Z.of_nat (k * 64), H') /\
    H' = fold_left fips_block (map (fun j => take 64 (drop (j * 64) buf)) (seq 0 k)) H /\ regs_ok H'.
Proof.
  intros HH Hb Hk. unfold transform_loop.
  set (F n := fold_left fips_block (map (fun j => take 64 (drop (j * 64) buf)) (seq 0 n)) H).
  destruct (iter_total
    (fun '(i, r) => exists n, i = Z.of_nat (n * 64) /\ (n <= k)%nat /\ r = F n /\ regs_ok r)
    (fun '(i, r) => i = Z.of_nat (k * 64) /\ r = F k /\ regs_ok r)
    (fun '(i, _) => Z.to_nat (Z.of_nat (k * 64) - i))
    (fun '(i, H) => if i <? Z.of_nat (k * 64)
       then H' ← SHA256Transform H buf i; Ok (inl (i + 64, H')) else Ok (inr (i, H))))
    with (S (Z.to_nat (Z.of_nat (k * 64)))) (0, H) as ([i r] & E & -> & Hr & Hok).
  - intros [i r] (n & -> & Hn & -> & Hok).
    destruct (Z.ltb_spec (Z.of_nat (n * 64)) (Z.of_nat (k * 64))).
    + destruct (transform_fips (F n) buf (n * 64) Hok Hb) as [E Hok']; [lia|].
      rewrite E. run. split; [|lia]. exists (S n). split_and!; [lia|lia| |done].
      unfold F. rewrite seq_S, map_app, fold_left_app. done.
    + assert (n = k) as -> by lia. done.
  - exists 0%nat. split_and!; [done|lia|done|done].
  - lia.
  - exists r. rewrite E. done.
Qed.

(** ** The padding buffer *)

(** The first bytes of the padding buffer are [l]. *)
Definition holds (pad l : list Z) : Prop :=
  length pad = 128%nat /\ take (length l) pad = l /\ Forall is_byte pad.

Lemma holds_push pad l v :
  holds pad l -> (length l < 128)%nat -> is_byte v ->
  exists pad', wr pad (zlen l) v = Ok pad' /\ holds pad' (l ++ [v]).
Proof.
  intros (Hp & Ht & Hb) Hl Hv. eexists. split; [apply wr_in; lia|].
  split; [by rewrite length_insert|]. split; [|by apply Forall_insert]. rewrite length_app, Nat2Z.id, Nat.add_1_r.
  rewrite (take_S_r _ _ v) by (apply list_lookup_insert_eq; lia).
  rewrite take_insert_ge by lia. by rewrite Ht.
Qed.

Lemma pad_copy_ok buf i pad :
  length pad = 128%nat -> Forall is_byte pad -> Forall is_byte buf -> 0 <= i <= zlen buf -> zlen buf - i < 64 ->
  exists pad', pad_copy buf (zlen buf) i pad = Ok (pad', zlen buf - i) /\
    holds pad' (drop (Z.to_nat i) buf).
Proof.
  intros Hp Hpb Hbb Hi Hlt. unfold pad_copy.
  destruct (iter_total
    (fun '(j, p, ps) => i <= j <= zlen buf /\ ps = j - i /\
       holds p (take (Z.to_nat (j - i)) (drop (Z.to_nat i) buf)))
    (fun '(p, ps) => ps = zlen buf - i /\ holds p (drop (Z.to_nat i) buf))
    (fun '(j, _, _) => Z.to_nat (zlen buf - j))
    (fun '(i, pad, padsize) =>
       if i <? zlen buf then
         b ← rd buf i; pad' ← wr pad padsize b; Ok (inl (i + 1, pad', padsize + 1))
       else Ok (inr (pad, padsize))))
    with (S (Z.to_nat (zlen buf))) (i, pad, 0) as ([p ps] & E & -> & H).
  - intros [[j p] ps] (Hj & -> & Hh). destruct (Z.ltb_spec j (zlen buf)).
    + destruct (rd_in buf j) as [b Hb]; [lia|]. rewrite Hb. run.
      assert (length (take (Z.to_nat (j - i)) (drop (Z.to_nat i) buf)) = Z.to_nat (j - i)) as HL
        by (rewrite length_take, length_drop; lia).
      destruct (holds_push _ _ b Hh) as (p' & W & Hh'); [lia| |].
      { apply rd_ok in Hb as [_ Hb]. by eapply (Forall_lookup_1 _ _ _ _ Hbb). }
      rewrite HL, Z2Nat.id in W by lia. rewrite W. run. split; [|lia].
      split_and!; [lia|lia|lia|].
      apply rd_ok in Hb as [_ Hb].
      replace (Z.to_nat (j + 1 - i)) with (S (Z.to_nat (j - i))) by lia.
      rewrite (take_S_r _ _ b); [done|]. rewrite lookup_drop. rewrite <- Hb. f_equal. lia.
    + assert (j = zlen buf) as -> by lia. split; [done|].
      rewrite take_ge in Hh by (rewrite length_drop; lia). done.
  - split_and!; [lia|lia|lia|]. split; [done|].
    replace (Z.to_nat (i - i)) with 0%nat by lia. done.
  - cbn. lia.
  - exists p. rewrite E. done.
Qed.

(** The number of zero bytes the loop writes, and where it stops. *)
Lemma pad_zero_ok pad l :
  holds pad l -> (length l < 64)%nat ->
  let body := l ++ 0x80 :: replicate (Z.to_nat ((55 - zlen l) `mod` 64)) 0 in
  exists pad', pad_zero pad (zlen l) = Ok (pad', zlen body) /\ holds pad' body /\
    (length body = 56 \/ length body = 120)%nat.
Proof.
  intros Hh Hl body. set (nz := (55 - zlen l) `mod` 64) in *.
  assert (nz = 55 - zlen l /\ zlen l <= 55 \/ nz = 119 - zlen l /\ 55 < zlen l) as Hnz.
  { unfold nz. Z.to_euclidean_division_equations. lia. }
  assert (length body = length l + 1 + Z.to_nat nz)%nat as HLb.
  { unfold body. rewrite length_app. cbn. rewrite length_replicate. lia. }
  unfold pad_zero. destruct (holds_push pad l 0x80 Hh) as (p1 & W1 & Hh1); [lia|done|].
  rewrite W1. run.
  destruct (iter_total
    (fun '(p, ps) => exists z, (z <= Z.to_nat nz)%nat /\ ps = zlen l + 1 + Z.of_nat z /\
       holds p (l ++ 0x80 :: replicate z 0))
    (fun '(p, ps) => ps = zlen body /\ holds p body)
    (fun '(_, ps) => Z.to_nat (127 - ps))
    (fun '(pad, padsize) =>
       if negb (Z.land padsize 63 =? 56) then
         pad' ← wr pad padsize 0; Ok (inl (pad', padsize + 1))
       else Ok (inr (pad, padsize))))
    with 128%nat (p1, zlen l + 1) as ([p ps] & E & -> & H).
  - intros [p ps] (z & Hz & -> & Hp).
    change 63 with (Z.shiftl 1 6 - 1). rewrite land_ones_mod by lia. change (2 ^ 6) with 64.
    destruct (Z.eqb_spec ((zlen l + 1 + Z.of_nat z) `mod` 64) 56) as [He|Hne]; cbn [negb].
    + assert (z = Z.to_nat nz) as -> by (Z.to_euclidean_division_equations; lia).
      split; [lia|done].
    + assert (z < Z.to_nat nz)%nat.
      { destruct (decide (z = Z.to_nat nz)) as [->|]; [|lia]. exfalso. apply Hne.
        destruct Hnz as [[-> ?]|[-> ?]].
        - replace (zlen l + 1 + Z.of_nat (Z.to_nat (55 - zlen l))) with 56 by lia. done.
        - replace (zlen l + 1 + Z.of_nat (Z.to_nat (119 - zlen l))) with 120 by lia. done. }
      assert (length (l ++ 0x80 :: replicate z 0) = (length l + 1 + z)%nat) as HL.
      { rewrite length_app. cbn. rewrite length_replicate. lia. }
      destruct (holds_push p _ 0 Hp) as (p' & W & Hp'); [lia|done|].
      rewrite HL in W. replace (Z.of_nat (length l + 1 + z)) with (zlen l + 1 + Z.of_nat z) in W by lia.
      rewrite W. run. split; [|lia]. exists (S z). split_and!; [lia|lia|].
      rewrite <- app_assoc in Hp'. cbn in Hp'.
      replace (replicate (S z) 0) with (replicate z 0 ++ [0]); [done|].
      symmetry. apply replicate_S_end.
  - exists 0%nat. split_and!; [lia|lia|done].
  - lia.
  - exists p. rewrite E. split_and!; [done|done|lia].
Qed.

Lemma pad_len_ok size pad l :
  holds pad l -> (length l <= 120)%nat -> 0 <= size < 2 ^ 61 ->
  exists pad', pad_len size pad (zlen l) = Ok (pad', zlen l + 8) /\
    holds pad' (l ++ be64 (8 * size)).
Proof.
  intros Hh Hl Hs. unfold pad_len.
  assert (u64 (Z.shiftl size 3) = 8 * size) as ->.
  { rewrite Z.shiftl_mul_pow2, wrap_small by lia. lia. }
  destruct (iter_total
    (fun '(i, p, ps) => exists k, (k <= 8)%nat /\ i = 56 - 8 * Z.of_nat k /\
       ps = zlen l + Z.of_nat k /\ holds p (l ++ take k (be64 (8 * size))))
    (fun '(p, ps) => ps = zlen l + 8 /\ holds p (l ++ be64 (8 * size)))
    (fun '(i, _, _) => Z.to_nat (i / 8 + 1))
    (fun '(i, pad, padsize) =>
       if 0 <=? i then
         pad' ← wr pad padsize (u8 (Z.shiftr (8 * size) i));
         Ok (inl (i - 8, pad', padsize + 1))
       else Ok (inr (pad, padsize))))
    with 16%nat (56, pad, zlen l) as ([p ps] & E & -> & H).
  - intros [[i p] ps] (k & Hk & -> & -> & Hp).
    destruct (Z.leb_spec 0 (56 - 8 * Z.of_nat k)).
    + assert (length (l ++ take k (be64 (8 * size))) = (length l + k)%nat) as HL.
      { rewrite length_app, length_take. cbn [be64 map length]. lia. }
      destruct (holds_push p _ (u8 (Z.shiftr (8 * size) (56 - 8 * Z.of_nat k))) Hp)
        as (p' & W & Hp'); [lia|by apply wrap_range|].
      rewrite HL, Nat2Z.inj_add in W. rewrite W. run.
      split; [|Z.to_euclidean_division_equations; lia].
      exists (S k). split_and!; [lia|lia|lia|].
      rewrite <- app_assoc in Hp'. rewrite (take_S_r _ _ (u8 (Z.shiftr (8 * size) (56 - 8 * Z.of_nat k))));
        [done|].
      rewrite Z.shiftr_div_pow2 by lia. unfold be64, wrap.
      do 8 (destruct k as [|k]; [reflexivity|]). lia.
    + assert (k = 8)%nat as -> by lia. split; [done|]. exact Hp.
  - exists 0%nat. split_and!; [lia|done|lia|]. cbn. by rewrite app_nil_r.
  - vm_compute. lia.
  - exists p. rewrite E. done.
Qed.

(** A block inside a known prefix. *)
Lemma block_prefix (l p : list Z) j :
  take (length p) l = p -> ((j + 1) * 64 <= length p)%nat ->
  take 64 (drop (j * 64) l) = take 64 (drop (j * 64) p).
Proof.
  intros Hp Hj. rewrite <- (take_drop (length p) l), Hp.
  rewrite drop_app_le by lia. rewrite take_app_le by (rewrite length_drop; lia). done.
Qed.

Lemma blocks_split msg tail n k :
  (n * 64 <= length msg)%nat -> length tail = (k * 64)%nat ->
  fips_pad msg = take (n * 64) msg ++ tail ->
  blocks (fips_pad msg) = map (fun j => take 64 (drop (j * 64) msg)) (seq 0 n) ++
                          map (fun j => take 64 (drop (j * 64) tail)) (seq 0 k).
Proof.
  intros Hn Hk E. unfold blocks. rewrite E.
  assert (length (take (n * 64) msg ++ tail) = ((n + k) * 64)%nat) as HL
    by (rewrite length_app, length_take; lia).
  rewrite HL, Nat.div_mul, seq_app, map_app by lia. f_equal.
  - apply map_ext_in. intros j Hj%in_seq. rewrite drop_app_le by (rewrite length_take; lia).
    rewrite take_app_le by (rewrite length_drop, length_take; lia).
    symmetry. apply (block_prefix msg (take (n * 64) msg)); rewrite length_take.
    + by rewrite Nat.min_l by lia.
    + lia.
  - assert (forall m a, map (fun j => take 64 (drop (j * 64) (take (n * 64) msg ++ tail))) (seq (n + a) m)
      = map (fun j => take 64 (drop (j * 64) tail)) (seq a m)) as Hs.
    { induction m as [|m IH]; intros a; [done|]. cbn [seq map]. f_equal.
      - f_equal. replace ((n + a) * 64)%nat with (length (take (n * 64) msg) + a * 64)%nat
          by (rewrite length_take; lia).
        apply drop_app_add.
      - rewrite <- Nat.add_succ_r. apply IH. }
    rewrite <- (Hs _ 0%nat), Nat.add_0_r. done.
Qed.

(** Rounding down to a whole number of blocks. *)
Lemma land_not63 size : 0 <= size < 2 ^ 61 -> Z.land size (u64 (Z.lnot 63)) = size / 64 * 64.
Proof.
  intros Hs. change (u64 (Z.lnot 63)) with (Z.shiftl (Z.ones 58) 6).
  apply Z.bits_inj'. intros i Hi. rewrite Z.land_spec, Z.shiftl_spec by lia.
  change 64 with (2 ^ 6). destruct (decide (i < 6)).
  - rewrite Z.mul_pow2_bits_low, (Z.testbit_neg_r (Z.ones 58)) by lia. apply andb_false_r.
  - rewrite Z.mul_pow2_bits, Z.div_pow2_bits by lia. replace (i - 6 + 6) with i by lia.
    destruct (decide (i < 64)).
    + rewrite Z.ones_spec_low by lia. apply andb_true_r.
    + rewrite (bits_above size 61 i) by lia. done.
Qed.

Definition pack (H : regs) : zio_cksum :=
  ZC (ra H * 2 ^ 32 + rb H) (rc H * 2 ^ 32 + rd' H) (re H * 2 ^ 32 + rf H) (rg H * 2 ^ 32 + rh H).

Lemma pack_lor H : regs_ok H ->
  ZC (Z.lor (Z.shiftl (ra H) 32) (rb H)) (Z.lor (Z.shiftl (rc H) 32) (rd' H))
     (Z.lor (Z.shiftl (re H) 32) (rf H)) (Z.lor (Z.shiftl (rg H) 32) (rh H)) = pack H.
Proof.
  unfold regs_ok, is_u32. intros (?&?&?&?&?&?&?&?). rewrite !lor_shiftl_add by lia. done.
Qed.

Lemma be64_bytes x : Forall is_byte (be64 x).
Proof.
  unfold be64. apply List.Forall_map, List.Forall_forall. intros. apply Z.mod_pos_bound. lia.
Qed.

Lemma H_init_ok : regs_ok H_init.
Proof. unfold regs_ok, is_u32. cbn [H_init ra rb rc rd' re rf rg rh]. lia. Qed.

(** The routine, start to end: the result does not depend on what [pad] held. *)
Lemma SHA256_total (pad0 buf : list Z) :
  length pad0 = 128%nat -> Forall is_byte pad0 -> Forall is_byte buf -> zlen buf < 2 ^ 31 ->
  zio_checksum_SHA256 pad0 buf (zlen buf) = Ok (pack (fips_sha256 buf)).
Proof.
  intros Hp0 Hpb Hb Hlen. unfold zio_checksum_SHA256. rewrite land_not63 by lia.
  set (n := Z.to_nat (zlen buf / 64)).
  assert (Z.of_nat n = zlen buf / 64) as En by (unfold n; rewrite Z2Nat.id; [done|apply Z.div_pos; lia]).
  replace (zlen buf / 64 * 64) with (Z.of_nat (n * 64)) by lia.
  assert (0 <= zlen buf - Z.of_nat (n * 64) < 64) as Hr by (Z.to_euclidean_division_equations; lia).
  destruct (transform_loop_fips buf n H_init H_init_ok Hb) as (H1 & E1 & HH1 & OK1); [lia|].
  rewrite E1. run.
  destruct (pad_copy_ok buf (Z.of_nat (n * 64)) pad0) as (p1 & E2 & Hp1); [done|done|done|lia|lia|].
  rewrite E2. run. rewrite Nat2Z.id in Hp1. set (rem := drop (n * 64) buf) in *.
  assert (zlen buf - Z.of_nat (n * 64) = zlen rem) as Erem by (unfold rem; rewrite length_drop; lia).
  rewrite Erem in *.
  destruct (pad_zero_ok p1 rem Hp1) as (p2 & E3 & Hp2 & HL2); [lia|]. rewrite E3. run.
  set (body := rem ++ _) in *.
  destruct (pad_len_ok (zlen buf) p2 body Hp2) as (p3 & E4 & Hp3); [lia|lia|]. rewrite E4. run.
  set (tail := body ++ be64 (8 * zlen buf)) in *.
  assert (length tail = (length body + 8)%nat) as HLt by (unfold tail; rewrite length_app; done).
  assert (exists k, length tail = (k * 64)%nat) as [k Hk].
  { destruct HL2 as [HL2|HL2]; [exists 1%nat|exists 2%nat]; lia. }
  assert (fips_pad buf = take (n * 64) buf ++ tail) as Epad.
  { unfold fips_pad, fips_padding, tail, body, rem.
    rewrite <- (take_drop (n * 64) buf) at 1. rewrite <- !app_assoc. cbn [app].
    do 6 f_equal. rewrite length_drop. Z.to_euclidean_division_equations. lia. }
  destruct Hp3 as (Lp3 & Tp3 & Bp3).
  destruct (transform_loop_fips p3 k H1 OK1 Bp3) as (H2 & E5 & HH2 & OK2); [lia|].
  replace (zlen body + 8) with (Z.of_nat (k * 64)) by lia. rewrite E5. run.
  rewrite pack_lor by done. do 2 f_equal.
  unfold fips_sha256. rewrite (blocks_split buf tail n k) by (done || lia).
  rewrite fold_left_app, <- HH1, HH2. f_equal. apply map_ext_in. intros j Hj%in_seq.
  apply block_prefix; [done|lia].
Qed.

(** ** Properties *)

(** C13: [zio_checksum_SHA256] computes SHA-256 as FIPS 180-3 defines it, for
    every buffer whose size fits the loop's [int] index and whatever the stack held in the padding
    buffer; it reads and writes only inside its buffers. *)
Theorem sha256_fips (pad0 buf : list Z) :
  length pad0 = 128%nat -> Forall is_byte pad0 -> Forall is_byte buf -> zlen buf < 2 ^ 31 ->
  zio_checksum_SHA256 pad0 buf (zlen buf) = Ok (pack (fips_sha256 buf)).
Proof. intros. by apply SHA256_total. Qed.

(** The one-block message of the standard's example. *)
Lemma sha256_fips_witness :
  zio_checksum_SHA256 (replicate 128 0) [0x61; 0x62; 0x63] 3 = Ok (pack (fips_sha256 [0x61; 0x62; 0x63])).
Proof.
  apply (sha256_fips (replicate 128 0) [0x61; 0x62; 0x63]).
  - reflexivity.
  - apply Forall_replicate. split; [discriminate|reflexivity].
  - repeat constructor; discriminate.
  - reflexivity.
Defined.

End Sha256.
