(* ===== verification/OrdTree.v ===== *)
(** * What a client may rely on in an ordered tree

    The interface between the AVL trees of common/avl and the components that
    keep their state in one (space maps, range locks).  A tree stands for the
    sequence of its elements; a search is given the comparison of the key
    against an element, which need only be monotone along that sequence, as the
    overlap comparison of space maps is; an index is a place between two
    elements. *)

From Stdlib Require Import List Permutation.
From stdpp Require Import base option numbers list.
From S2P Require Import Prelude.
Local Open Scope Z_scope.

(** The key is above the elements of [l1], equal to those of [m], below [l2]. *)
Definition cmp_split {A} (cmp : A -> comparison) (l1 m l2 : list A) : Prop :=
  Forall (fun x => cmp x = Gt) l1 /\ Forall (fun x => cmp x = Eq) m /\
  Forall (fun x => cmp x = Lt) l2.

Class OrdTree (A : Type) `{EqDecision A} := {
  ot : Type;
  ot_index : Type;

  ot_elems : ot -> list A;
  ot_ok : ot -> Prop;

  ot_empty : ot;
  ot_numnodes : ot -> Z;
  ot_find : (A -> comparison) -> ot -> A + ot_index;
  ot_nearest : ot -> ot_index -> bool -> option A;
  ot_insert : ot -> A -> ot_index -> outcome ot;
  ot_insert_here : ot -> A -> A -> bool -> outcome ot;
  ot_remove : ot -> A -> outcome ot;
  ot_update : ot -> A -> A -> ot;
  ot_first : ot -> option A;
  ot_walk : ot -> A -> bool -> option A;
  ot_drain : ot -> outcome (list A * ot);

  ot_empty_spec : ot_ok ot_empty /\ ot_elems ot_empty = [];
  ot_numnodes_spec t : ot_ok t -> ot_numnodes t = zlen (ot_elems t);

  (** A key between two neighbours: the search gives an index from which both
      are reached and at which an element can be inserted. *)
  ot_find_none t cmp l1 l2 :
    ot_ok t -> ot_elems t = l1 ++ l2 -> cmp_split cmp l1 [] l2 ->
    exists i, ot_find cmp t = inr i /\
      ot_nearest t i false = last l1 /\ ot_nearest t i true = head l2 /\
      forall x, exists t', ot_insert t x i = Ok t' /\ ot_ok t' /\ ot_elems t' = l1 ++ x :: l2;
  (** A key equal to some elements: the search gives one of them. *)
  ot_find_some t cmp l1 m l2 :
    ot_ok t -> ot_elems t = l1 ++ m ++ l2 -> cmp_split cmp l1 m l2 -> m <> [] ->
    exists x, ot_find cmp t = inl x /\ In x m;

  ot_insert_here_after t x y l1 l2 :
    ot_ok t -> ot_elems t = l1 ++ x :: l2 -> List.NoDup (l1 ++ x :: l2) ->
    exists t', ot_insert_here t y x true = Ok t' /\ ot_ok t' /\ ot_elems t' = l1 ++ x :: y :: l2;
  ot_remove_spec t x l1 l2 :
    ot_ok t -> ot_elems t = l1 ++ x :: l2 -> List.NoDup (l1 ++ x :: l2) ->
    exists t', ot_remove t x = Ok t' /\ ot_ok t' /\ ot_elems t' = l1 ++ l2;
  ot_update_spec t x y l1 l2 :
    ot_ok t -> ot_elems t = l1 ++ x :: l2 -> List.NoDup (l1 ++ x :: l2) ->
    ot_ok (ot_update t x y) /\ ot_elems (ot_update t x y) = l1 ++ y :: l2;

  ot_first_spec t : ot_first t = head (ot_elems t);
  ot_walk_spec t x l1 l2 :
    ot_elems t = l1 ++ x :: l2 -> List.NoDup (l1 ++ x :: l2) ->
    ot_walk t x false = last l1 /\ ot_walk t x true = head l2;
  ot_drain_spec t :
    ot_ok t -> exists l t', ot_drain t = Ok (l, t') /\ Permutation l (ot_elems t) /\
      ot_ok t' /\ ot_elems t' = []
}.

Arguments ot A {_ _}.
Arguments ot_index A {_ _}.
