(* ===== verification/Avl.v ===== *)
(** * AVL trees: common/avl/avl.c

    A node of the C tree holds two children, a parent pointer, its index in the
    parent and a balance.  Here a subtree is a value of [tree], and a position in
    the tree (an [avl_node_t *], or an [avl_index_t] naming an empty child slot)
    is the path of frames from there to the root: the head of the path is the
    parent ([AVL_XPARENT]) and its direction is the child index ([AVL_XCHILD]).
    The bottom-up loops of [avl_insert] and [avl_remove] consume that path frame
    by frame.  [avl_child[0]] is direction [false], [avl_child[1]] is [true].
    A client's node pointer is a value of type [A]: a tree never holds the same
    node twice, and [locate] finds the position of a node that is in the tree. *)

From Stdlib Require Import List Permutation Sorted.
From stdpp Require Import base option numbers list.
From S2P Require Import Prelude OrdTree.
Local Open Scope Z_scope.

Inductive tree (A : Type) :=
  | Null
  | Node (data : A) (balance : Z) (c0 c1 : tree A).
Arguments Null {A}.
Arguments Node {A} _ _ _ _.

(** A parent on the way to the root, seen from its child [f_dir]. *)
Record frame (A : Type) := Frame {
  f_data : A;
  f_balance : Z;
  f_dir : bool;
  f_sib : tree A       (** [avl_child[1 - f_dir]] *)
}.
Arguments Frame {A} _ _ _ _.
Arguments f_data {A} _.
Arguments f_balance {A} _.
Arguments f_dir {A} _.
Arguments f_sib {A} _.

(** [avl_tree_t], without the comparison function and the field offset. *)
Record avl_tree (A : Type) := AvlTree { avl_root : tree A; avl_numnodes : Z }.
Arguments AvlTree {A} _ _.
Arguments avl_root {A} _.
Arguments avl_numnodes {A} _.

Module Avl.
Section Avl.
Context {A : Type} `{EqDecision A}.
Implicit Types (t : tree A) (p : list (frame A)) (f : frame A) (T : avl_tree A).

(** ** Building and walking trees *)

(** The node whose child in direction [i] is [ci] and whose other child is [co]. *)
Definition mk (d : A) (b : Z) (i : bool) (ci co : tree A) : tree A :=
  if i then Node d b co ci else Node d b ci co.
Definition pick (i : bool) (c0 c1 : tree A) : tree A := if i then c1 else c0.

Definition avl_child2balance (i : bool) : Z := if i then 1 else -1.
Definition avl_balance2child (b : Z) : bool := 0 <? b.

Definition plug1 (f : frame A) (t : tree A) : tree A :=
  mk (f_data f) (f_balance f) (f_dir f) t (f_sib f).
Fixpoint plug (p : list (frame A)) (t : tree A) : tree A :=
  match p with [] => t | f :: p' => plug p' (plug1 f t) end.

Fixpoint elems (t : tree A) : list A :=
  match t with Null => [] | Node d _ c0 c1 => elems c0 ++ d :: elems c1 end.

(** The position of a node pointer: its path and the node there. *)
Fixpoint locate (x : A) (t : tree A) (p : list (frame A))
    : option (list (frame A) * (A * Z * tree A * tree A)) :=
  match t with
  | Null => None
  | Node d b c0 c1 =>
      if decide (d = x) then Some (p, (d, b, c0, c1))
      else match locate x c0 (Frame d b false c1 :: p) with
           | Some r => Some r
           | None => locate x c1 (Frame d b true c0 :: p)
           end
  end.

(** [for (...; node->avl_child[i] != NULL; node = node->avl_child[i]);]
    from the node [(d, b, c0, c1)]. *)
Fixpoint descend (i : bool) (t : tree A) (d : A) (b : Z) (co : tree A) (p : list (frame A))
    : list (frame A) * (A * Z * tree A) :=
  match t with
  | Null => (p, (d, b, co))
  | Node d' b' c0 c1 =>
      descend i (pick i c0 c1) d' b' (pick (negb i) c0 c1) (Frame d b i co :: p)
  end.

(** [for (;;) { was_child = ...; node = parent; ...; if (was_child == right) break; }] *)
Fixpoint walk_up (right : bool) (p : list (frame A)) : option A :=
  match p with
  | [] => None
  | f :: p' => if eqb (f_dir f) right then Some (f_data f) else walk_up right p'
  end.

(** [avl_walk] from the node [(c0, c1)] at path [p]; [left] is the direction. *)
Definition walk_from (p : list (frame A)) (c0 c1 : tree A) (left : bool) : option A :=
  match pick left c0 c1 with
  | Node d b d0 d1 =>
      let '(_, (x, _, _)) := descend (negb left) (pick (negb left) d0 d1) d b (pick left d0 d1) [] in
      Some x
  | Null => walk_up (negb left) p
  end.

Definition avl_walk (T : avl_tree A) (oldnode : A) (left : bool) : option A :=
  match locate oldnode (avl_root T) [] with
  | Some (p, (_, _, c0, c1)) => walk_from p c0 c1 left
  | None => None
  end.

(** [for (node = root; node != NULL; node = node->avl_child[i]) prev = node;] *)
Fixpoint extreme (i : bool) (t : tree A) (prev : option A) : option A :=
  match t with Null => prev | Node d _ c0 c1 => extreme i (pick i c0 c1) (Some d) end.
Definition avl_first (T : avl_tree A) : option A := extreme false (avl_root T) None.
Definition avl_last (T : avl_tree A) : option A := extreme true (avl_root T) None.

(** [avl_index_t]: the path of an empty slot. *)
Definition avl_nearest (T : avl_tree A) (wher : list (frame A)) (direction : bool) : option A :=
  match wher with
  | [] => None
  | f :: p =>
      if negb (eqb (f_dir f) direction) then Some (f_data f)
      else walk_from p (if f_dir f then f_sib f else Null) (if f_dir f then Null else f_sib f)
             direction
  end.

(** [avl_find]; [cmp x] is [tree->avl_compar(value, x)]: [Lt], [Eq], [Gt] for -1, 0, 1. *)
Fixpoint find_loop (cmp : A -> comparison) (t : tree A) (p : list (frame A))
    : A + list (frame A) :=
  match t with
  | Null => inr p
  | Node d b c0 c1 =>
      match cmp d with
      | Eq => inl d
      | Lt => find_loop cmp c0 (Frame d b false c1 :: p)
      | Gt => find_loop cmp c1 (Frame d b true c0 :: p)
      end
  end.
Definition avl_find (cmp : A -> comparison) (T : avl_tree A) : A + list (frame A) :=
  find_loop cmp (avl_root T) [].

(** ** Rotation *)

(** [avl_rotation] at the node [d] with children [c0], [c1] and new balance
    [balance] (-2 or 2): the new subtree, and whether it became shorter.
    Following a NULL child is a fault. *)
Definition avl_rotation (d : A) (balance : Z) (c0 c1 : tree A) : outcome (tree A * bool) :=
  let left := negb (balance <? 0) in
  let right := negb left in
  let left_heavy := Z.shiftr balance 1 in
  let right_heavy := - left_heavy in
  let nright := pick right c0 c1 in
  match pick left c0 c1 with
  | Null => Err Fault
  | Node cd child_bal d0 d1 =>
      let cleft := pick left d0 d1 in
      let cright := pick right d0 d1 in
      if negb (child_bal =? right_heavy) then
        let child_bal := child_bal + right_heavy in
        let node := mk d (- child_bal) left cright nright in
        let child := mk cd child_bal right node cleft in
        Ok (child, child_bal =? 0)
      else
        match cright with
        | Null => Err Fault
        | Node gd gbal e0 e1 =>
            let gleft := pick left e0 e1 in
            let gright := pick right e0 e1 in
            let node := mk d (if gbal =? left_heavy then right_heavy else 0) left gright nright in
            let child := mk cd (if gbal =? right_heavy then left_heavy else 0) right gleft cleft in
            Ok (mk gd 0 left child node, true)
        end
  end.

(** The rotation at the node of frame [f] whose child [f_dir f] is now [t]. *)
Definition rotate (f : frame A) (balance : Z) (t : tree A) : outcome (tree A * bool) :=
  match plug1 f t with
  | Node d _ c0 c1 => avl_rotation d balance c0 c1
  | Null => Err Fault
  end.

(** ** Insertion *)

(** The [for (;;)] loop of [avl_insert]: [t] is the subtree that grew. *)
Fixpoint insert_loop (p : list (frame A)) (t : tree A) : outcome (tree A) :=
  match p with
  | [] => Ok t
  | f :: p' =>
      let old_balance := f_balance f in
      let new_balance := old_balance + avl_child2balance (f_dir f) in
      if new_balance =? 0 then
        Ok (plug p' (plug1 (Frame (f_data f) 0 (f_dir f) (f_sib f)) t))
      else if negb (old_balance =? 0) then
        '(t', _) ← rotate f new_balance t;
        Ok (plug p' t')
      else insert_loop p' (plug1 (Frame (f_data f) new_balance (f_dir f) (f_sib f)) t)
  end.

Definition avl_insert (T : avl_tree A) (new_data : A) (wher : list (frame A))
    : outcome (avl_tree A) :=
  root ← insert_loop wher (Node new_data 0 Null Null);
  Ok (AvlTree root (avl_numnodes T + 1)).

(** [avl_insert_here]: next to the node [here]. *)
Definition avl_insert_here (T : avl_tree A) (new_data here : A) (direction : bool)
    : outcome (avl_tree A) :=
  match locate here (avl_root T) [] with
  | None => Err Fault
  | Some (p, (d, b, c0, c1)) =>
      match pick direction c0 c1 with
      | Null => avl_insert T new_data (Frame d b direction (pick (negb direction) c0 c1) :: p)
      | Node d' b' d0 d1 =>
          let child := negb direction in
          let '(q, (x, bx, co)) :=
            descend child (pick child d0 d1) d' b' (pick direction d0 d1)
              (Frame d b direction (pick (negb direction) c0 c1) :: p) in
          avl_insert T new_data (Frame x bx child co :: q)
      end
  end.

Definition avl_add (cmp : A -> A -> comparison) (T : avl_tree A) (new_node : A)
    : outcome (avl_tree A) :=
  match avl_find (cmp new_node) T with
  | inl _ => Err Panic
  | inr wher => avl_insert T new_node wher
  end.

(** ** Removal *)

(** The [do ... while (parent != NULL)] loop: [t] is the subtree that shrank. *)
Fixpoint remove_loop (p : list (frame A)) (t : tree A) : outcome (tree A) :=
  match p with
  | [] => Ok t
  | f :: p' =>
      let old_balance := f_balance f in
      let new_balance := old_balance - avl_child2balance (f_dir f) in
      if old_balance =? 0 then
        Ok (plug p' (plug1 (Frame (f_data f) new_balance (f_dir f) (f_sib f)) t))
      else if new_balance =? 0 then
        remove_loop p' (plug1 (Frame (f_data f) new_balance (f_dir f) (f_sib f)) t)
      else
        '(t', shorter) ← rotate f new_balance t;
        if negb shorter then Ok (plug p' t') else remove_loop p' t'
  end.

(** Unlink the node at path [p] that has at most one child. *)
Definition unlink (p : list (frame A)) (c0 c1 : tree A) : outcome (tree A) :=
  remove_loop p (match c0 with Null => c1 | Node _ _ _ _ => c0 end).

Definition avl_remove (T : avl_tree A) (data : A) : outcome (avl_tree A) :=
  match locate data (avl_root T) [] with
  | None => Err Fault
  | Some (p, (d, b, c0, c1)) =>
      root ←
        match c0, c1 with
        | Node _ _ _ _, Node _ _ _ _ =>
            let left := avl_balance2child b in
            let right := negb left in
            match pick left c0 c1 with
            | Null => Err Fault
            | Node d' b' d0 d1 =>
                (* node: down one left, then as far right as possible *)
                let '(q, (x, _, co)) :=
                  descend right (pick right d0 d1) d' b' (pick left d0 d1) [] in
                (* node takes the place of delete, and is unlinked below *)
                unlink (q ++ Frame x b left (pick right c0 c1) :: p)
                  (if left then Null else co) (if left then co else Null)
            end
        | _, _ => unlink p c0 c1
        end;
      Ok (AvlTree root (avl_numnodes T - 1))
  end.

Definition avl_create : avl_tree A := AvlTree Null 0.
Definition avl_destroy (T : avl_tree A) : outcome unit :=
  verify (avl_numnodes T =? 0) ≫= fun _ =>
  verify (match avl_root T with Null => true | _ => false end).

(** ** Destroying a tree in post order *)

(** The cookie of [avl_destroy_nodes]: NULL before the first call (the tree is
    intact), CHILDBIT when there is no parent to return to (with whether
    [avl_root] is still set), else the slot of the node returned last. *)
Inductive cookie :=
  | CStart (root : tree A)
  | CChildbit (root : bool)
  | CAt (p : list (frame A)).

Record destroying := Destroying { dn_numnodes : Z; dn_cookie : cookie }.

Definition is_null (t : tree A) : bool := match t with Null => true | _ => false end.

(** The label [done:]. *)
Definition destroy_done (num : Z) (p : list (frame A)) (d : A) : option A * destroying :=
  (Some d, Destroying num (match p with [] => CChildbit true | _ => CAt p end)).

(** The label [check_right_side:] at the node [(d, b, Null, c1)]. *)
Definition check_right_side (num : Z) (p : list (frame A)) (d : A) (b : Z) (c1 : tree A)
    : outcome (option A * destroying) :=
  match c1 with
  | Node d' _ e0 e1 =>
      _ ← verify (b =? 1);
      _ ← verify (is_null e0 && is_null e1);
      Ok (destroy_done num (Frame d b true Null :: p) d')
  | Null => _ ← verify (b <=? 0); Ok (destroy_done num p d)
  end.

Definition avl_destroy_nodes (s : destroying) : outcome (option A * destroying) :=
  match dn_cookie s with
  | CStart Null => Ok (None, Destroying (dn_numnodes s) (CChildbit false))
  | CStart (Node d b c0 c1) =>
      let '(p, (x, bx, cx)) := descend false c0 d b c1 [] in
      check_right_side (dn_numnodes s) p x bx cx
  | CChildbit root =>
      if root then
        _ ← verify (dn_numnodes s =? 1);
        Ok (None, Destroying 0 (CChildbit false))
      else Ok (None, s)
  | CAt [] => Err Fault
  | CAt (f :: p) =>
      _ ← verify (1 <? dn_numnodes s);
      let num := dn_numnodes s - 1 in
      if f_dir f || is_null (f_sib f) then Ok (destroy_done num p (f_data f))
      else
        match f_sib f with
        | Null => Err Fault
        | Node d b c0 c1 =>
            let '(q, (x, bx, cx)) :=
              descend false c0 d b c1 (Frame (f_data f) (f_balance f) true Null :: p) in
            check_right_side num q x bx cx
        end
  end.

(** [while ((node = avl_destroy_nodes(tree, &cookie)) != NULL) ...]: the nodes
    in the order they are returned, and the state the loop leaves. *)
Fixpoint destroy_all (fuel : nat) (s : destroying) : outcome (list A * destroying) :=
  match fuel with
  | O => Err Fuel
  | S fuel' =>
      r ← avl_destroy_nodes s;
      match r with
      | (None, s') => Ok ([], s')
      | (Some x, s') => '(l, s'') ← destroy_all fuel' s'; Ok (x :: l, s'')
      end
  end.

(** In-place change of a field of the node [x], through its pointer. *)
Fixpoint set_data (x y : A) (t : tree A) : tree A :=
  match t with
  | Null => Null
  | Node d b c0 c1 => Node (if decide (d = x) then y else d) b (set_data x y c0) (set_data x y c1)
  end.
Definition update (T : avl_tree A) (x y : A) : avl_tree A :=
  AvlTree (set_data x y (avl_root T)) (avl_numnodes T).

(** ** The balance invariant *)

Fixpoint height (t : tree A) : Z :=
  match t with Null => 0 | Node _ _ c0 c1 => 1 + Z.max (height c0) (height c1) end.

(** Every stored balance is the difference of the heights, and is -1, 0 or 1. *)
Fixpoint balanced (t : tree A) : Prop :=
  match t with
  | Null => True
  | Node _ b c0 c1 => b = height c1 - height c0 /\ -1 <= b <= 1 /\ balanced c0 /\ balanced c1
  end.

(** A path around a hole of height [h]. *)
Fixpoint bal_path (h : Z) (p : list (frame A)) : Prop :=
  match p with
  | [] => True
  | f :: p' =>
      balanced (f_sib f) /\ -1 <= f_balance f <= 1 /\
      f_balance f = (if f_dir f then h - height (f_sib f) else height (f_sib f) - h) /\
      bal_path (1 + Z.max h (height (f_sib f))) p'
  end.

(** The invariant of [avl_tree_t]. *)
Definition avl_ok (T : avl_tree A) : Prop :=
  balanced (avl_root T) /\ avl_numnodes T = zlen (elems (avl_root T)).

(** What is left and right of a hole. *)
Fixpoint before (p : list (frame A)) : list A :=
  match p with
  | [] => []
  | f :: p' => before p' ++ (if f_dir f then elems (f_sib f) ++ [f_data f] else [])
  end.
Fixpoint after (p : list (frame A)) : list A :=
  match p with
  | [] => []
  | f :: p' => (if f_dir f then [] else f_data f :: elems (f_sib f)) ++ after p'
  end.

Lemma elems_plug p t : elems (plug p t) = before p ++ elems t ++ after p.
Proof.
  revert t. induction p as [|f p IH]; intros t; cbn; [by rewrite app_nil_r|].
  rewrite IH. unfold plug1, mk. destruct (f_dir f); cbn;
    rewrite ?app_nil_r, <- ?app_assoc; done.
Qed.

Lemma height_nonneg t : 0 <= height t.
Proof. induction t; cbn; lia. Qed.

Lemma height_plug1 f t : height (plug1 f t) = 1 + Z.max (height t) (height (f_sib f)).
Proof. unfold plug1, mk. destruct (f_dir f); cbn; lia. Qed.

Lemma plug_app p q t : plug (p ++ q) t = plug q (plug p t).
Proof. revert t. induction p as [|f p IH]; intros t; cbn; auto. Qed.

Lemma before_app p q : before (p ++ q) = before q ++ before p.
Proof. induction p as [|f p IH]; cbn; [by rewrite app_nil_r|]. by rewrite IH, app_assoc. Qed.
Lemma after_app p q : after (p ++ q) = after p ++ after q.
Proof. induction p as [|f p IH]; cbn; [done|]. by rewrite IH, app_assoc. Qed.

Lemma balanced_plug p t : balanced (plug p t) <-> balanced t /\ bal_path (height t) p.
Proof.
  revert t. induction p as [|f p IH]; intros t; cbn; [tauto|].
  rewrite IH, height_plug1. unfold plug1, mk. destruct (f_dir f); cbn; intuition lia.
Qed.

Ltac list_assoc := try (repeat (rewrite <- app_assoc; cbn); done).
Ltac dirs := unfold rotate, plug1, mk, pick in *; cbn in *.

(** A rotation of a node one of whose subtrees is two levels taller: it
    succeeds, keeps the order, restores the balance, and reports whether the
    subtree became shorter, which it does unless the tall child was even. *)
Lemma rotate_spec f t :
  balanced t -> balanced (f_sib f) -> height t = height (f_sib f) + 2 ->
  exists t' shorter,
    rotate f (if f_dir f then 2 else -2) t = Ok (t', shorter) /\
    balanced t' /\ elems t' = elems (plug1 f t) /\
    height t' = height (f_sib f) + (if shorter : bool then 2 else 3) /\
    (shorter = false -> exists d c0 c1, t = Node d 0 c0 c1).
Proof.
  intros Ht Hs Hh. pose proof (height_nonneg (f_sib f)).
  destruct t as [|cd cb d0 d1]; [cbn in Hh; lia|].
  destruct Ht as (Hb & Hbr & B0 & B1). cbn in Hh.
  pose proof (height_nonneg d0). pose proof (height_nonneg d1).
  destruct f as [fd fb [] fs]; dirs; unfold avl_rotation; cbn -[Z.add Z.opp Z.eqb];
  change (Z.shiftr 2 1) with 1; change (Z.shiftr (-2) 1) with (-1);
  change (- (1)) with (-1); change (- -1) with 1;
  match goal with |- context [negb (?x =? ?y)] => destruct (Z.eqb_spec x y) end; cbn [negb].
  - destruct d0 as [|gd gb e0 e1]; [cbn in *; lia|]. cbn in *.
    destruct B0 as (Hg & Hgr & G0 & G1).
    do 2 eexists. split; [done|].
    destruct (Z.eqb_spec gb 1), (Z.eqb_spec gb (-1)); subst; cbn; split_and!; try done; try lia;
      list_assoc.
  - do 2 eexists. split; [done|]. cbn.
    destruct (Z.eqb_spec (cb + -1) 0); cbn; split_and!; try done; try lia;
      list_assoc.
    intros _. exists cd, d0, d1. f_equal. lia.
  - destruct d1 as [|gd gb e0 e1]; [cbn in *; lia|]. cbn in *.
    destruct B1 as (Hg & Hgr & G0 & G1).
    do 2 eexists. split; [done|].
    destruct (Z.eqb_spec gb 1), (Z.eqb_spec gb (-1)); subst; cbn; split_and!; try done; try lia;
      list_assoc.
  - do 2 eexists. split; [done|]. cbn.
    destruct (Z.eqb_spec (cb + 1) 0); cbn; split_and!; try done; try lia;
      list_assoc.
    intros _. exists cd, d0, d1. f_equal. lia.
Qed.

Lemma elems_plug1_bal d b b' i s t :
  elems (plug1 (Frame d b i s) t) = elems (plug1 (Frame d b' i s) t).
Proof. by destruct i. Qed.

Lemma elems_plug_eq p t t' : elems t = elems t' -> elems (plug p t) = elems (plug p t').
Proof. intros H. by rewrite !elems_plug, H. Qed.

(** The insertion loop restores the invariant around a subtree that grew by
    one level from height [h]. *)
Lemma insert_loop_spec p : forall t h,
  balanced t -> height t = h + 1 -> 0 <= h -> bal_path h p ->
  (forall d c0 c1, t = Node d 0 c0 c1 -> h = 0) ->
  exists r, insert_loop p t = Ok r /\ balanced r /\ elems r = elems (plug p t).
Proof.
  induction p as [|f p IH]; intros t h Ht Hh H0 Hp Hz; [by exists t|].
  destruct Hp as (Hs & Hbr & Hb & Hp). cbn [insert_loop plug].
  pose proof (height_nonneg (f_sib f)) as Hsn.
  destruct (Z.eqb_spec (f_balance f + avl_child2balance (f_dir f)) 0) as [Hn|Hn].
  { eexists. split; [done|]. split.
    - apply balanced_plug. split.
      + unfold plug1, mk, avl_child2balance in *. destruct (f_dir f); cbn; split_and!; (done || lia).
      + rewrite height_plug1. cbn. unfold avl_child2balance in *.
        destruct (f_dir f); (replace (Z.max (height t) _) with (Z.max h (height (f_sib f))) by lia); done.
    - apply elems_plug_eq. destruct f. apply elems_plug1_bal. }
  destruct (Z.eqb_spec (f_balance f) 0) as [Ho|Ho]; cbn [negb].
  - destruct (IH (plug1 (Frame (f_data f) (f_balance f + avl_child2balance (f_dir f)) (f_dir f) (f_sib f)) t)
      (1 + Z.max h (height (f_sib f)))) as (r & E & Hr & He).
    + unfold plug1, mk, avl_child2balance in *. destruct (f_dir f); cbn; split_and!; (done || lia).
    + rewrite height_plug1. cbn. destruct (f_dir f); lia.
    + lia.
    + done.
    + intros d c0 c1. unfold plug1, mk, avl_child2balance in *. destruct (f_dir f); cbn; intros [=]; lia.
    + exists r. rewrite E. split_and!; [done|done|]. rewrite He. apply elems_plug_eq.
      destruct f. apply elems_plug1_bal.
  - replace (f_balance f + avl_child2balance (f_dir f)) with (if f_dir f then 2 else -2)
      by (unfold avl_child2balance in *; destruct (f_dir f); lia).
    destruct (rotate_spec f t) as (t' & sh & E & Hbt & He & Hht & Hsh).
    { done. } { done. }
    { unfold avl_child2balance in *. destruct (f_dir f); lia. }
    rewrite E. run. eexists. split; [done|]. split.
    + apply balanced_plug. split; [done|]. rewrite Hht.
      destruct sh; [|destruct Hsh as (d & c0 & c1 & ->); [done|]; specialize (Hz _ _ _ eq_refl);
        unfold avl_child2balance in *; destruct (f_dir f); lia].
      replace (height (f_sib f) + 2) with (1 + Z.max h (height (f_sib f))); [done|].
      unfold avl_child2balance in *. destruct (f_dir f); lia.
    + apply elems_plug_eq. done.
Qed.

(** The removal loop restores the invariant around a subtree that shrank by
    one level to height [h - 1]. *)
Lemma remove_loop_spec p : forall t h,
  balanced t -> height t = h - 1 -> bal_path h p ->
  exists r, remove_loop p t = Ok r /\ balanced r /\ elems r = elems (plug p t).
Proof.
  induction p as [|f p IH]; intros t h Ht Hh Hp; [by exists t|].
  destruct Hp as (Hs & Hbr & Hb & Hp). cbn [remove_loop plug].
  pose proof (height_nonneg (f_sib f)) as Hsn. pose proof (height_nonneg t) as Htn.
  destruct (Z.eqb_spec (f_balance f) 0) as [Ho|Ho].
  { eexists. split; [done|]. split.
    - apply balanced_plug. split.
      + unfold plug1, mk, avl_child2balance in *. destruct (f_dir f); cbn; split_and!; (done || lia).
      + rewrite height_plug1. cbn.
        replace (Z.max (height t) _) with (Z.max h (height (f_sib f)))
          by (destruct (f_dir f); lia). done.
    - apply elems_plug_eq. destruct f. apply elems_plug1_bal. }
  destruct (Z.eqb_spec (f_balance f - avl_child2balance (f_dir f)) 0) as [Hn|Hn].
  - destruct (IH (plug1 (Frame (f_data f) (f_balance f - avl_child2balance (f_dir f)) (f_dir f) (f_sib f)) t)
      (1 + Z.max h (height (f_sib f)))) as (r & E & Hr & He).
    + unfold plug1, mk, avl_child2balance in *. destruct (f_dir f); cbn; split_and!; (done || lia).
    + rewrite height_plug1. cbn. unfold avl_child2balance in *. destruct (f_dir f); lia.
    + done.
    + exists r. rewrite E. split_and!; [done|done|]. rewrite He. apply elems_plug_eq.
      destruct f. apply elems_plug1_bal.
  - (* the sibling is two levels taller: look at the node from its side *)
    set (f' := Frame (f_data f) (f_balance f) (negb (f_dir f)) t).
    assert (plug1 f' (f_sib f) = plug1 f t) as Em
      by (unfold f', plug1, mk; cbn; destruct (f_dir f); done).
    assert (rotate f (f_balance f - avl_child2balance (f_dir f)) t =
            rotate f' (if f_dir f' then 2 else -2) (f_sib f)) as ->.
    { unfold rotate. rewrite Em. cbn [f' f_dir].
      replace (f_balance f - avl_child2balance (f_dir f)) with (if negb (f_dir f) then 2 else -2);
        [done|]. unfold avl_child2balance in *. destruct (f_dir f); cbn; lia. }
    destruct (rotate_spec f' (f_sib f)) as (t' & sh & E & Hbt & He & Hht & Hsh).
    { done. } { done. }
    { cbn. unfold avl_child2balance in *. destruct (f_dir f); lia. }
    rewrite E. run. cbn in Hht. rewrite Em in He.
    assert (height (f_sib f) = height t + 2) as Hst
      by (unfold avl_child2balance in *; destruct (f_dir f); lia).
    destruct sh; cbn [negb].
    + destruct (IH t' (1 + Z.max h (height (f_sib f)))) as (r & E' & Hr & He'); [done|lia|done|].
      exists r. rewrite E'. split_and!; [done|done|]. rewrite He'. by apply elems_plug_eq.
    + eexists. split; [done|]. split; [|by apply elems_plug_eq].
      apply balanced_plug. split; [done|]. rewrite Hht.
      replace (height t + 3) with (1 + Z.max h (height (f_sib f))) by lia. done.
Qed.

(** ** Positions *)

Lemma locate_plug x t : forall p q d b c0 c1,
  locate x t p = Some (q, (d, b, c0, c1)) ->
  d = x /\ plug p t = plug q (Node d b c0 c1).
Proof.
  induction t as [|d b c0 IH0 c1 IH1]; intros p q d' b' c0' c1' H; [done|]. cbn in H.
  case_decide; [by simplify_eq|].
  destruct (locate x c0 _) as [[q' n']|] eqn:E; simplify_eq.
  - by apply IH0 in E.
  - by apply IH1 in H.
Qed.

Lemma locate_elem x t : forall p, In x (elems t) -> is_Some (locate x t p).
Proof.
  induction t as [|d b c0 IH0 c1 IH1]; intros p H; [done|]. cbn in *.
  case_decide; [done|]. apply in_app_iff in H as [H|[H|H]].
  - by destruct (IH0 (Frame d b false c1 :: p) H) as [? ->].
  - congruence.
  - destruct (locate x c0 _); [done|]. by apply IH1.
Qed.

(** The position of an element splits the sequence of elements around it. *)
Lemma locate_split T x :
  In x (elems (avl_root T)) ->
  exists p b c0 c1, locate x (avl_root T) [] = Some (p, (x, b, c0, c1)) /\
    avl_root T = plug p (Node x b c0 c1) /\
    elems (avl_root T) = (before p ++ elems c0) ++ x :: (elems c1 ++ after p).
Proof.
  intros H. destruct (locate_elem x (avl_root T) [] H) as [[p [[[d b] c0] c1]] E].
  destruct (locate_plug _ _ _ _ _ _ _ _ E) as [-> Hp]. cbn in Hp.
  exists p, b, c0, c1. split_and!; [done|done|].
  rewrite Hp, elems_plug. cbn. by rewrite <- !app_assoc.
Qed.

Lemma NoDup_split_unique (x : A) l1 l2 m1 m2 :
  List.NoDup (l1 ++ x :: l2) -> l1 ++ x :: l2 = m1 ++ x :: m2 -> l1 = m1 /\ l2 = m2.
Proof.
  revert m1. induction l1 as [|y l1 IH]; intros m1 Hn Heq; destruct m1 as [|z m1];
    cbn in *; simplify_eq; try done.
  - inversion Hn as [|? ? Hni _]. destruct Hni. apply in_app_iff. right. by left.
  - inversion Hn as [|? ? Hni _]. destruct Hni. apply in_app_iff. right. by left.
  - inversion Hn. destruct (IH m1); naive_solver.
Qed.

(** Going down as far as possible in direction [i]. *)
Lemma descend_spec i t : forall d b co p q x bx cx,
  descend i t d b co p = (q, (x, bx, cx)) ->
  plug p (mk d b i t co) = plug q (mk x bx i Null cx) /\
  exists r, q = r ++ p /\ Forall (fun f => f_dir f = i) r.
Proof.
  induction t as [|d' b' c0 IH0 c1 IH1]; intros d b co p q x bx cx H; cbn in H.
  - simplify_eq. split; [done|]. by exists [].
  - destruct i; cbn in H; [apply IH1 in H|apply IH0 in H];
      destruct H as (Hp & r & -> & Hr); cbn in Hp; (split; [exact Hp|]);
      eexists (r ++ [_]); rewrite <- app_assoc; (split; [done|]);
      apply Forall_app; (split; [done|]); by repeat constructor.
Qed.

(** Along a path of right (left) children nothing is to the right (left). *)
Lemma after_right r : Forall (fun f => f_dir f = true) r -> after r = [].
Proof. induction 1 as [|f r Hf _ IH]; [done|]. cbn. by rewrite Hf, IH. Qed.
Lemma before_left r : Forall (fun f => f_dir f = false) r -> before r = [].
Proof. induction 1 as [|f r Hf _ IH]; [done|]. cbn. by rewrite Hf, IH. Qed.

(** The neighbour of a node among its descendants in direction [i]: the first
    element of the right child, the last of the left child. *)
Lemma descend_neighbour i d b d0 d1 p q x bx cx :
  descend (negb i) (pick (negb i) d0 d1) d b (pick i d0 d1) p = (q, (x, bx, cx)) ->
  plug p (Node d b d0 d1) = plug q (mk x bx (negb i) Null cx) /\
  (exists r, q = r ++ p /\ (if i then before r else after r) = [] /\
    elems (Node d b d0 d1) = if i then x :: elems cx ++ after r else before r ++ elems cx ++ [x]).
Proof.
  intros H. apply descend_spec in H as (Hp & r & -> & Hr).
  assert (mk d b (negb i) (pick (negb i) d0 d1) (pick i d0 d1) = Node d b d0 d1) as E
    by (destruct i; done).
  rewrite E in Hp. split; [done|]. exists r. split; [done|].
  split; [destruct i; [by apply before_left|by apply after_right]|].
  rewrite plug_app in Hp. apply (f_equal elems) in Hp. rewrite !(elems_plug p) in Hp.
  apply app_inv_head, app_inv_tail in Hp. rewrite Hp, elems_plug.
  destruct i; cbn [negb] in *; [rewrite before_left by done|rewrite after_right by done];
    cbn; rewrite ?app_nil_r; done.
Qed.

(** ** The operations, as operations on the sequence of elements *)

Lemma insert_spec T x p :
  avl_ok T -> avl_root T = plug p Null ->
  exists T', avl_insert T x p = Ok T' /\ avl_ok T' /\
    elems (avl_root T') = before p ++ x :: after p.
Proof.
  intros [Hb Hn] Hr. rewrite Hr in Hb. apply balanced_plug in Hb as [_ Hp].
  destruct (insert_loop_spec p (Node x 0 Null Null) 0) as (r & E & Hbr & He).
  { cbn. split_and!; done || lia. } { done. } { done. } { done. } { done. }
  unfold avl_insert. rewrite E. run. eexists. split; [done|]. rewrite elems_plug in He. cbn in He.
  split; [split; [done|]|done]. cbn. rewrite He, Hn, Hr, elems_plug. cbn.
  rewrite !length_app. cbn. lia.
Qed.

Lemma split_left (d : A) e0 e1 l r :
  e0 ++ d :: e1 = l ++ r -> ~ In d l -> exists k, e0 = l ++ k /\ r = k ++ d :: e1.
Proof.
  intros He Hn. destruct (app_eq_app _ _ _ _ He) as [k [[E1 E2]|[E1 E2]]]; [by exists k|].
  destruct k as [|y k]; cbn in E2; simplify_eq.
  - exists []. by rewrite !app_nil_r in *.
  - destruct Hn. apply in_app_iff. right. by left.
Qed.

Lemma split_right (d : A) e0 e1 l r :
  e0 ++ d :: e1 = l ++ r -> ~ In d r -> exists k, e1 = k ++ r /\ l = e0 ++ d :: k.
Proof.
  intros He Hn. destruct (app_eq_app _ _ _ _ He) as [k [[E1 E2]|[E1 E2]]].
  - destruct Hn. rewrite E2. apply in_app_iff. right. by left.
  - destruct k as [|y k]; cbn in E2; simplify_eq; [|by exists k].
    destruct Hn. by left.
Qed.

Lemma cmp_not_in (cmp : A -> comparison) c d l :
  Forall (fun x => cmp x = c) l -> cmp d <> c -> ~ In d l.
Proof. rewrite List.Forall_forall. intros H Hd Hin. apply Hd, H, Hin. Qed.

Lemma find_loop_none cmp t : forall p l1 l2,
  elems t = l1 ++ l2 -> cmp_split cmp l1 [] l2 ->
  exists q, find_loop cmp t p = inr q /\ plug q Null = plug p t /\
    before q = before p ++ l1 /\ after q = l2 ++ after p.
Proof.
  induction t as [|d b c0 IH0 c1 IH1]; intros p l1 l2 He (H1 & _ & H2); cbn in *.
  - symmetry in He. apply app_eq_nil in He as [-> ->]. exists p. by rewrite app_nil_r.
  - destruct (cmp d) eqn:E.
    + exfalso. assert (In d (l1 ++ l2)) as Hd by (rewrite <- He; apply in_app_iff; right; by left).
      apply in_app_iff in Hd as [Hd|Hd].
      * revert Hd. apply (cmp_not_in cmp Gt); [done|congruence].
      * revert Hd. apply (cmp_not_in cmp Lt); [done|congruence].
    + destruct (split_left d (elems c0) (elems c1) l1 l2) as (k & E1 & ->); [done| |].
      { apply (cmp_not_in cmp Gt); [done|congruence]. }
      destruct (IH0 (Frame d b false c1 :: p) l1 k) as (q & -> & Hp & Hq & Ha); [done| |].
      { split_and!; [done|done|]. by apply List.Forall_app in H2 as [? _]. }
      exists q. split_and!; [done|done| |].
      * rewrite Hq. cbn. by rewrite app_nil_r.
      * rewrite Ha. cbn. by rewrite <- app_assoc.
    + destruct (split_right d (elems c0) (elems c1) l1 l2) as (k & E1 & ->); [done| |].
      { apply (cmp_not_in cmp Lt); [done|congruence]. }
      destruct (IH1 (Frame d b true c0 :: p) k l2) as (q & -> & Hp & Hq & Ha); [done| |].
      { split_and!; [|done|done]. apply List.Forall_app in H1 as [_ H1]. by inversion H1. }
      exists q. split_and!; [done|done| |].
      * rewrite Hq. cbn. by rewrite <- !app_assoc.
      * rewrite Ha. done.
Qed.

Lemma find_loop_inl cmp t : forall p x,
  find_loop cmp t p = inl x -> In x (elems t) /\ cmp x = Eq.
Proof.
  induction t as [|d b c0 IH0 c1 IH1]; intros p x H; cbn in *; [done|].
  destruct (cmp d) eqn:E.
  - simplify_eq. split; [|done]. apply in_app_iff. right. by left.
  - apply IH0 in H as [? ?]. split; [|done]. apply in_app_iff. by left.
  - apply IH1 in H as [? ?]. split; [|done]. apply in_app_iff. right. by right.
Qed.

(** A search that misses has compared unequal against both neighbours of the
    slot it stops at: if some element compares equal the search finds one. *)
Lemma find_loop_some cmp t : forall p l1 m l2,
  elems t = l1 ++ m ++ l2 -> cmp_split cmp l1 m l2 -> m <> [] ->
  exists x, find_loop cmp t p = inl x /\ In x m.
Proof.
  assert (forall x l1 m l2, cmp_split cmp l1 m l2 -> In x (l1 ++ m ++ l2) -> cmp x = Eq -> In x m) as Hin.
  { intros x l1 m l2 (H1 & _ & H2) Hx Hc. rewrite !in_app_iff in Hx.
    rewrite List.Forall_forall in H1, H2. destruct Hx as [Hx|[Hx|Hx]]; [|done|].
    - rewrite (H1 _ Hx) in Hc. done.
    - rewrite (H2 _ Hx) in Hc. done. }
  induction t as [|d b c0 IH0 c1 IH1]; intros p l1 m l2 He Hs Hm.
  - destruct l1, m; done.
  - pose proof Hs as (H1 & H2 & H3). cbn in *. destruct (cmp d) eqn:E.
    + exists d. split; [done|]. apply (Hin d l1 m l2); [done| |done].
      rewrite <- He. apply in_app_iff. right. by left.
    + rewrite app_assoc in He.
      destruct (split_left d (elems c0) (elems c1) (l1 ++ m) l2) as (k & E1 & ->); [done| |].
      { rewrite in_app_iff. intros [Hd|Hd]; revert Hd;
          [apply (cmp_not_in cmp Gt)|apply (cmp_not_in cmp Eq)]; done || congruence. }
      apply (IH0 _ l1 m k); [by rewrite E1, app_assoc| |done].
      split_and!; [done|done|]. by apply List.Forall_app in H3 as [? _].
    + destruct (split_right d (elems c0) (elems c1) l1 (m ++ l2)) as (k & E1 & ->); [done| |].
      { rewrite in_app_iff. intros [Hd|Hd]; revert Hd;
          [apply (cmp_not_in cmp Eq)|apply (cmp_not_in cmp Lt)]; done || congruence. }
      apply (IH1 _ k m l2); [done| |done].
      split_and!; [|done|done]. apply List.Forall_app in H1 as [_ H1]. by inversion H1.
Qed.

(** The first and last element of a sequence. *)
Lemma walk_up_before p : walk_up true p = last (before p).
Proof.
  induction p as [|f p IH]; cbn; [done|]. destruct (f_dir f); cbn.
  - by rewrite app_assoc, last_snoc.
  - by rewrite app_nil_r.
Qed.
Lemma walk_up_after p : walk_up false p = head (after p).
Proof. induction p as [|f p IH]; cbn; [done|]. by destruct (f_dir f). Qed.

Lemma nearest_before T q : avl_nearest T q false = last (before q).
Proof.
  destruct q as [|f q]; [done|]. cbn. destruct (f_dir f); cbn.
  - by rewrite app_assoc, last_snoc.
  - rewrite app_nil_r. apply walk_up_before.
Qed.
Lemma nearest_after T q : avl_nearest T q true = head (after q).
Proof. destruct q as [|f q]; [done|]. cbn. destruct (f_dir f); cbn; [apply walk_up_after|done]. Qed.

Lemma extreme_first t o : extreme false t o = match head (elems t) with Some x => Some x | None => o end.
Proof.
  revert o. induction t as [|d b c0 IH0 c1 IH1]; intros o; [done|]. cbn. rewrite IH0.
  by destruct (elems c0).
Qed.
Lemma extreme_last t o : extreme true t o = match last (elems t) with Some x => Some x | None => o end.
Proof.
  revert o. induction t as [|d b c0 IH0 c1 IH1]; intros o; [done|]. cbn. rewrite IH1.
  rewrite last_app, last_cons. by destruct (last (elems c1)).
Qed.

(** Walking from a node gives its neighbour in the sequence. *)
Lemma walk_from_spec p c0 c1 i :
  walk_from p c0 c1 i = if i then head (elems c1 ++ after p) else last (before p ++ elems c0).
Proof.
  unfold walk_from. destruct i; cbn.
  - destruct c1 as [|d b d0 d1]; [apply walk_up_after|].
    destruct (descend _ _ _ _ _ _) as [q [[x bx] cx]] eqn:E.
    apply (descend_neighbour true) in E as (_ & r & _ & _ & ->). done.
  - destruct c0 as [|d b d0 d1]; [rewrite app_nil_r; apply walk_up_before|].
    destruct (descend _ _ _ _ _ _) as [q [[x bx] cx]] eqn:E.
    apply (descend_neighbour false) in E as (_ & r & _ & _ & ->).
    by rewrite !app_assoc, last_snoc.
Qed.

Lemma walk_spec T x l1 l2 :
  elems (avl_root T) = l1 ++ x :: l2 -> List.NoDup (l1 ++ x :: l2) ->
  avl_walk T x false = last l1 /\ avl_walk T x true = head l2.
Proof.
  intros He Hn. destruct (locate_split T x) as (p & b & c0 & c1 & E & _ & Hs).
  { rewrite He. apply in_app_iff. right. by left. }
  rewrite He in Hs. destruct (NoDup_split_unique _ _ _ _ _ Hn Hs) as [-> ->].
  unfold avl_walk. rewrite E, !walk_from_spec. done.
Qed.

Lemma insert_here_spec T x y l1 l2 i :
  avl_ok T -> elems (avl_root T) = l1 ++ x :: l2 -> List.NoDup (l1 ++ x :: l2) ->
  exists T', avl_insert_here T y x i = Ok T' /\ avl_ok T' /\
    elems (avl_root T') = if i then l1 ++ x :: y :: l2 else l1 ++ y :: x :: l2.
Proof.
  intros Hok He Hn. destruct (locate_split T x) as (p & b & c0 & c1 & E & Hr & Hs).
  { rewrite He. apply in_app_iff. right. by left. }
  rewrite He in Hs. destruct (NoDup_split_unique _ _ _ _ _ Hn Hs) as [-> ->].
  assert (exists q, avl_insert_here T y x i = avl_insert T y q /\ avl_root T = plug q Null /\
    (before q, after q) = if i then ((before p ++ elems c0) ++ [x], elems c1 ++ after p)
                          else (before p ++ elems c0, x :: elems c1 ++ after p)) as (q & Eq & Hq & Hba).
  { unfold avl_insert_here. rewrite E. destruct (pick i c0 c1) as [|d b' d0 d1] eqn:Ep.
    - eexists. split; [done|]. destruct i; cbn in *; subst; (split; [done|]); cbn;
        rewrite ?app_nil_r, <- ?app_assoc; done.
    - destruct (descend _ _ _ _ _ _) as [q [[z bz] cz]] eqn:D.
      apply (descend_neighbour i) in D as (Hp & r & -> & Hb & Hel).
      eexists. split; [done|].
      destruct i; cbn [pick negb] in *; subst; (split; [rewrite Hr; exact Hp|]);
        rewrite Hel; cbn; rewrite before_app, after_app, Hb; cbn;
        rewrite ?app_nil_r; f_equal; list_assoc. }
  rewrite Eq. destruct (insert_spec T y q Hok Hq) as (T' & -> & Hok' & He').
  exists T'. split_and!; [done|done|]. rewrite He'.
  destruct i; injection Hba as -> ->; list_assoc.
Qed.

(** Removing the node at path [p] that has at most one child. *)
Lemma unlink_spec p x b c0 c1 :
  balanced (plug p (Node x b c0 c1)) -> c0 = Null \/ c1 = Null ->
  exists r, unlink p c0 c1 = Ok r /\ balanced r /\
    elems r = before p ++ (elems c0 ++ elems c1) ++ after p.
Proof.
  intros Hb Hc. apply balanced_plug in Hb as ((Hx & Hr & B0 & B1) & Hp). unfold unlink.
  set (t := match c0 with Null => c1 | _ => c0 end).
  pose proof (height_nonneg c0). pose proof (height_nonneg c1).
  destruct (remove_loop_spec p t (height (Node x b c0 c1))) as (r & E & Hbr & He).
  - unfold t. by destruct c0.
  - unfold t. destruct Hc as [-> | ->]; [cbn; cbn in *; lia|]. destruct c0; cbn in *; lia.
  - done.
  - exists r. split_and!; [done|done|]. rewrite He, elems_plug. do 2 f_equal.
    unfold t. destruct Hc as [-> | ->]; [done|]. destruct c0; [done|]. by rewrite app_nil_r.
Qed.

(** The data of a node does not matter for the balance. *)
Lemma bal_path_data q x y b i s p h :
  bal_path h (q ++ Frame x b i s :: p) -> bal_path h (q ++ Frame y b i s :: p).
Proof.
  revert h. induction q as [|f q IH]; intros h H; cbn in *; [done|]. naive_solver.
Qed.

(** [avl_remove] takes exactly the given node out of the sequence. *)
Lemma remove_spec T x l1 l2 :
  avl_ok T -> elems (avl_root T) = l1 ++ x :: l2 -> List.NoDup (l1 ++ x :: l2) ->
  exists T', avl_remove T x = Ok T' /\ avl_ok T' /\ elems (avl_root T') = l1 ++ l2.
Proof.
  intros [Hbal Hnum] He Hn. destruct (locate_split T x) as (p & b & c0 & c1 & E & Hr & Hs).
  { rewrite He. apply in_app_iff. right. by left. }
  rewrite He in Hs. destruct (NoDup_split_unique _ _ _ _ _ Hn Hs) as [El1 El2].
  rewrite Hr in Hbal. unfold avl_remove. rewrite E.
  match goal with |- context [?m ≫= _ = _] => assert (exists r, m = Ok r /\ balanced r /\
    elems r = l1 ++ l2) as (r & -> & Hbr & Her) end.
  2: { run. eexists. split; [done|]. split; [split; [done|]|done]. cbn.
       rewrite Hnum, Her, He, !length_app. cbn. lia. }
  assert (c0 = Null \/ c1 = Null -> exists r, unlink p c0 c1 = Ok r /\ balanced r /\
    elems r = l1 ++ l2) as Hone.
  { intros Hc. destruct (unlink_spec p x b c0 c1 Hbal Hc) as (r & Eu & Hb & Hel).
    exists r. split_and!; [done|done|]. rewrite Hel, El1, El2. by rewrite <- !app_assoc. }
  destruct c0 as [|e0 f0 g0 h0] eqn:E0; [by apply Hone; left|].
  destruct c1 as [|e1 f1 g1 h1] eqn:E1; [by apply Hone; right|].
  rewrite <- E0, <- E1 in *. clear Hone.
  set (left := avl_balance2child b).
  assert (exists d' b' d0 d1, pick left c0 c1 = Node d' b' d0 d1) as (d' & b' & d0 & d1 & Ep)
    by (subst; destruct left; cbn; eauto).
  rewrite Ep. destruct (descend _ _ _ _ _ _) as [q [[z bz] cz]] eqn:D.
  apply (descend_neighbour left) in D as (Hp & r & -> & Hb0 & Hel).
  rewrite app_nil_r in *. cbn [plug] in Hp.
  assert (balanced (plug (r ++ Frame z b left (pick (negb left) c0 c1) :: p)
            (mk z bz (negb left) Null cz))) as Hbal'.
  { assert (plug p (Node x b c0 c1) = plug (r ++ Frame x b left (pick (negb left) c0 c1) :: p)
              (mk z bz (negb left) Null cz)) as Epl.
    { rewrite plug_app. cbn [plug]. rewrite <- Hp, <- Ep. unfold plug1, mk, pick.
      destruct left; done. }
    rewrite Epl in Hbal. apply balanced_plug in Hbal as [Hm Hpath].
    apply balanced_plug. split; [done|]. by eapply bal_path_data. }
  destruct (unlink_spec (r ++ Frame z b left (pick (negb left) c0 c1) :: p) z bz
    (if left then Null else cz) (if left then cz else Null)) as (r' & Eu & Hbu & Heu).
  { destruct left; exact Hbal'. }
  { destruct left; auto. }
  exists r'. split_and!; [done|done|]. rewrite Heu, before_app, after_app, El1, El2.
  destruct left; cbn [pick negb f_dir f_data f_sib before after] in *;
    rewrite <- Ep in Hel; rewrite Hel; rewrite ?Hb0; cbn; rewrite ?app_nil_r; list_assoc.
Qed.

(** ** Post-order destruction *)

Fixpoint postorder (t : tree A) : list A :=
  match t with Null => [] | Node d _ c0 c1 => postorder c0 ++ postorder c1 ++ [d] end.

(** What is still to come when the child of the first frame is done. *)
Fixpoint rest (p : list (frame A)) : list A :=
  match p with
  | [] => []
  | f :: p' => (if f_dir f then [] else postorder (f_sib f)) ++ f_data f :: rest p'
  end.

(** Right subtrees still to visit are balanced; left ones are already gone. *)
Definition half_done (p : list (frame A)) : Prop :=
  Forall (fun f => if f_dir f then f_sib f = Null else balanced (f_sib f)) p.

Lemma rest_app p q : rest (p ++ q) = rest p ++ rest q.
Proof. induction p as [|f p IH]; cbn; [done|]. rewrite IH, <- app_assoc. done. Qed.

Definition remaining (s : destroying) : list A :=
  match dn_cookie s with
  | CStart t => postorder t
  | CChildbit _ => []
  | CAt p => rest p
  end.

Definition destroy_inv (s : destroying) : Prop :=
  match dn_cookie s with
  | CStart t => balanced t /\ dn_numnodes s = zlen (postorder t)
  | CChildbit r => dn_numnodes s = if r then 1 else 0
  | CAt p => p <> [] /\ half_done p /\ dn_numnodes s = zlen (rest p) + 1
  end.

Lemma destroy_done_spec num p d :
  half_done p -> num = zlen (rest p) + 1 ->
  exists s', destroy_done num p d = (Some d, s') /\ destroy_inv s' /\ remaining s' = rest p.
Proof.
  intros Hp Hn. unfold destroy_done. destruct p as [|f p]; eexists; (split; [done|]); done.
Qed.

(** Descending to the leftmost node of a balanced subtree. *)
Lemma leftmost_spec num d b c0 c1 p q x bx cx :
  balanced (Node d b c0 c1) -> half_done p -> num = zlen (postorder (Node d b c0 c1)) + zlen (rest p) ->
  descend false c0 d b c1 p = (q, (x, bx, cx)) ->
  exists y s', check_right_side num q x bx cx = Ok (Some y, s') /\ destroy_inv s' /\
    y :: remaining s' = postorder (Node d b c0 c1) ++ rest p.
Proof.
  intros Hb Hp Hn D. apply descend_spec in D as (Hpl & r & -> & Hr).
  assert (forall r t, Forall (fun f => f_dir f = false) r -> balanced (plug r t) ->
    half_done r /\ balanced t /\ postorder (plug r t) = postorder t ++ rest r) as Hleft.
  { clear. intros r. induction r as [|f r IH]; intros t Hr Hb; cbn in *.
    - split_and!; [constructor|done|by rewrite app_nil_r].
    - inversion_clear Hr as [|? ? Hf Hr']. destruct (IH _ Hr' Hb) as (H1 & H2 & H3).
      unfold plug1, mk in *. rewrite Hf in *. destruct H2 as (_ & _ & H4 & H5).
      split_and!; [constructor; [by rewrite Hf|done]|done|].
      rewrite H3. cbn. by rewrite <- !app_assoc. }
  rewrite plug_app in Hpl.
  assert (plug r (mk x bx false Null cx) = Node d b c0 c1) as E.
  { clear -Hpl. revert Hpl. cbn [mk]. generalize (Node d b c0 c1). generalize (plug r (Node x bx Null cx)).
    induction p as [|f p IH]; intros t1 t2 H; [done|]. cbn in H. apply IH in H.
    unfold plug1, mk in H. destruct (f_dir f); congruence. }
  rewrite <- E in *. destruct (Hleft r _ Hr Hb) as (H1 & (Hbx & Hbr & _ & Hcx) & H3).
  pose proof (height_nonneg cx). cbn [mk] in *.
  assert (half_done (r ++ p)) as Hrp by (by apply Forall_app).
  assert (length (rest (r ++ p)) = (length (rest r) + length (rest p))%nat) as HL
    by (rewrite rest_app, length_app; lia).
  unfold check_right_side. destruct cx as [|d' b' e0 e1]; cbn [height] in *.
  - cbn in H3. destruct (destroy_done_spec num (r ++ p) x Hrp) as (s' & Ed & Hi & Hrem).
    { rewrite Hn, H3, HL. cbn [length app]. lia. }
    unfold verify. destruct (Z.leb_spec bx 0); [|lia]. run. rewrite Ed.
    exists x, s'. split_and!; [done|done|]. rewrite Hrem, H3, rest_app. done.
  - destruct Hcx as (Hb' & _ & _ & _). pose proof (height_nonneg e0). pose proof (height_nonneg e1).
    assert (e0 = Null /\ e1 = Null) as [-> ->].
    { assert (forall t, height t = 0 -> t = Null) as Hz.
      { intros [|]; [done|]. cbn. pose proof (height_nonneg c2). lia. }
      split; apply Hz; lia. }
    unfold verify. destruct (Z.eqb_spec bx 1); [|cbn in *; lia]. run. cbn in H3.
    destruct (destroy_done_spec num (Frame x bx true Null :: r ++ p) d') as (s' & Ed & Hi & Hrem).
    { by constructor. }
    { rewrite Hn, H3. cbn [rest f_dir f_data app length]. rewrite HL. lia. }
    cbn. rewrite Ed. exists d', s'. split_and!; [done|done|].
    rewrite Hrem, H3. cbn. by rewrite rest_app.
Qed.

Lemma destroy_step s :
  destroy_inv s ->
  exists o s', avl_destroy_nodes s = Ok (o, s') /\ destroy_inv s' /\
    match o with
    | Some x => remaining s = x :: remaining s'
    | None => remaining s = [] /\ dn_numnodes s' = 0 /\ dn_cookie s' = CChildbit false
    end.
Proof.
  destruct s as [num [t|r|p]]; unfold destroy_inv, remaining;
    cbn [dn_numnodes dn_cookie avl_destroy_nodes].
  - intros [Hb Hn]. destruct t as [|d b c0 c1].
    + exists None, (Destroying num (CChildbit false)). cbn in *. done.
    + destruct (descend _ _ _ _ _ _) as [q [[x bx] cx]] eqn:D.
      destruct (leftmost_spec num d b c0 c1 [] q x bx cx) as (y & s' & E & Hi & Hr);
        [done|constructor|cbn in *; lia|done|].
      exists (Some y), s'. rewrite app_nil_r in Hr. split_and!; [done|done|]. by rewrite <- Hr.
  - intros ->. destruct r; cbn; eexists _, _; (split; [done|]); done.
  - intros (Hp & Hh & Hn). destruct p as [|f p]; [done|]. inversion_clear Hh as [|? ? Hf Hh'].
    unfold verify.
    destruct (Z.ltb_spec 1 num) as [_|Hle].
    2: { exfalso. cbn in Hn. rewrite length_app in Hn. cbn in Hn. lia. }
    run. destruct (f_dir f || is_null (f_sib f)) eqn:Ec.
    + assert (rest (f :: p) = f_data f :: rest p) as Er.
      { cbn. destruct (f_dir f); [done|]. cbn in Ec. by destruct (f_sib f). }
      rewrite Er in Hn. cbn in Hn.
      destruct (destroy_done_spec (num - 1) p (f_data f) Hh') as (s' & Ed & Hi & Hr); [lia|].
      rewrite Ed. exists (Some (f_data f)), s'. split_and!; [done|done|].
      unfold remaining in Hr. by rewrite Er, Hr.
    + apply orb_false_iff in Ec as [Ed En]. cbn [rest] in *. rewrite Ed in *.
      destruct (f_sib f) as [|d b c0 c1] eqn:Es; [done|].
      destruct (descend _ _ _ _ _ _) as [q [[x bx] cx]] eqn:D.
      destruct (leftmost_spec (num - 1) d b c0 c1 (Frame (f_data f) (f_balance f) true Null :: p) q x bx cx)
        as (y & s' & E & Hi & Hr); [done|by constructor| |done|].
      { cbn [rest f_dir f_data app length]. rewrite length_app in Hn. cbn [length] in Hn. lia. }
      exists (Some y), s'. split_and!; [done|done|]. unfold remaining in Hr. by rewrite Hr.
Qed.

Lemma destroy_all_spec : forall fuel s, destroy_inv s -> (length (remaining s) < fuel)%nat ->
  destroy_all fuel s = Ok (remaining s, Destroying 0 (CChildbit false)).
Proof.
  induction fuel as [|fuel IH]; intros s Hi Hf; [lia|]. cbn [destroy_all].
  destruct (destroy_step s Hi) as (o & s' & E & Hi' & Ho). rewrite E. run.
  destruct o as [x|].
  - rewrite Ho in *. cbn in Hf. rewrite IH by (done || lia). done.
  - destruct Ho as (-> & Hn & Hc). destruct s'; cbn in *; subst. done.
Qed.

Lemma postorder_perm t : Permutation (postorder t) (elems t).
Proof.
  induction t as [|d b c0 IH0 c1 IH1]; cbn; [done|].
  rewrite IH0, IH1. apply Permutation_app_head. rewrite Permutation_app_comm. done.
Qed.

(** ** In-place updates *)

Lemma set_data_spec x y t :
  elems (set_data x y t) = map (fun d => if decide (d = x) then y else d) (elems t) /\
  height (set_data x y t) = height t /\ (balanced (set_data x y t) <-> balanced t).
Proof.
  induction t as [|d b c0 (E0 & H0 & B0) c1 (E1 & H1 & B1)]; cbn; [done|].
  rewrite map_app, E0, E1, H0, H1, B0, B1. done.
Qed.

Lemma update_spec T x y l1 l2 :
  avl_ok T -> elems (avl_root T) = l1 ++ x :: l2 -> List.NoDup (l1 ++ x :: l2) ->
  avl_ok (update T x y) /\ elems (avl_root (update T x y)) = l1 ++ y :: l2.
Proof.
  intros [Hb Hn] He Hd. destruct (set_data_spec x y (avl_root T)) as (E1 & _ & E3).
  assert (elems (avl_root (update T x y)) = l1 ++ y :: l2) as Hel.
  { cbn. rewrite E1, He, map_app. cbn. rewrite decide_True by done.
    apply NoDup_remove in Hd as [_ Hd]. rewrite in_app_iff in Hd.
    f_equal; [|f_equal]; (rewrite <- (map_id l1) at 2 || rewrite <- (map_id l2) at 2);
      apply map_ext_in; intros z Hz; case_decide; subst; tauto. }
  split; [|done]. split; [cbn; by apply E3|]. rewrite Hel. cbn. rewrite Hn, He, !length_app. done.
Qed.

(** ** Height *)

Lemma height_bound t :
  balanced t -> 2 ^ height t <= (zlen (elems t) + 1) * (zlen (elems t) + 1).
Proof.
  assert (forall h t, (Z.to_nat (height t) <= h)%nat -> balanced t ->
    2 ^ height t <= (zlen (elems t) + 1) * (zlen (elems t) + 1)) as H.
  { clear. induction h as [|h IH]; intros [|d b c0 c1] Hh Hb; try done.
    - cbn in Hh. pose proof (height_nonneg c0). lia.
    - cbn [height elems] in *. destruct Hb as (-> & Hr & B0 & B1).
      pose proof (height_nonneg c0). pose proof (height_nonneg c1).
      assert (2 ^ height c0 <= (zlen (elems c0) + 1) * (zlen (elems c0) + 1)) by (apply IH; [lia|done]).
      assert (2 ^ height c1 <= (zlen (elems c1) + 1) * (zlen (elems c1) + 1)) by (apply IH; [lia|done]).
      rewrite length_app. cbn [length].
      assert (forall a c n m, 0 <= n -> 0 <= m -> 2 ^ a <= (n + 1) * (n + 1) -> 2 ^ c <= (m + 1) * (m + 1) ->
        0 <= a -> a <= c <= a + 1 -> 2 ^ (1 + c) <= (n + m + 2) * (n + m + 2)) as Hk.
      { clear. intros a c n m Hn Hm Ha Hc Ha0 Hac.
        assert (2 ^ (1 + c) = 2 * 2 ^ c) as -> by (rewrite Z.pow_add_r; lia).
        assert (2 ^ c <= 2 * 2 ^ a) as Hca.
        { replace (2 * 2 ^ a) with (2 ^ (1 + a)) by (rewrite Z.pow_add_r; lia).
          apply Z.pow_le_mono_r; lia. }
        nia. }
      destruct (decide (height c0 <= height c1)).
      + rewrite Z.max_r by lia. specialize (Hk (height c0) (height c1) (zlen (elems c0)) (zlen (elems c1))). lia.
      + rewrite Z.max_l by lia. specialize (Hk (height c1) (height c0) (zlen (elems c1)) (zlen (elems c0))). lia. }
  intros Hb. by apply (H (Z.to_nat (height t))).
Qed.

(** The whole [avl_destroy_nodes] loop of a client. *)
Definition avl_drain (T : avl_tree A) : outcome (list A * avl_tree A) :=
  '(l, s) ← destroy_all (S (Z.to_nat (avl_numnodes T)))
              (Destroying (avl_numnodes T) (CStart (avl_root T)));
  Ok (l, AvlTree Null (dn_numnodes s)).

Lemma drain_post T :
  avl_ok T -> avl_drain T = Ok (postorder (avl_root T), AvlTree Null 0).
Proof.
  intros [Hb Hn]. unfold avl_drain.
  assert (length (postorder (avl_root T)) = length (elems (avl_root T))) as HL
    by apply Permutation_length, postorder_perm.
  rewrite destroy_all_spec.
  - done.
  - unfold destroy_inv. cbn [dn_cookie dn_numnodes]. split; [done|]. rewrite HL. done.
  - unfold remaining. cbn [dn_cookie]. rewrite HL, Hn. lia.
Qed.

(** AVL trees are ordered trees. *)
#[export, program] Instance avl_OrdTree : OrdTree A := {|
  ot := avl_tree A;
  ot_index := list (frame A);
  ot_elems T := elems (avl_root T);
  ot_ok := avl_ok;
  ot_empty := avl_create;
  ot_numnodes := avl_numnodes;
  ot_find := avl_find;
  ot_nearest := avl_nearest;
  ot_insert := avl_insert;
  ot_insert_here := avl_insert_here;
  ot_remove := avl_remove;
  ot_update := update;
  ot_first := avl_first;
  ot_walk := avl_walk;
  ot_drain := avl_drain
|}.
Next Obligation. split; [|done]. split; done. Qed.
Next Obligation. intros T [_ H]. done. Qed.
Next Obligation.
  intros T cmp l1 l2 Hok He Hs.
  destruct (find_loop_none cmp (avl_root T) [] l1 l2 He Hs) as (q & Hf & Hp & Hb & Ha).
  cbn in Hp, Hb. rewrite app_nil_r in Ha. exists q. split_and!; [done| | |].
  - by rewrite nearest_before, Hb.
  - by rewrite nearest_after, Ha.
  - intros x. destruct (insert_spec T x q Hok) as (T' & E & Hok' & He'); [done|].
    exists T'. by rewrite <- Hb, <- Ha.
Qed.
Next Obligation.
  intros T cmp l1 m l2 _ He Hs Hm. by apply (find_loop_some cmp (avl_root T) [] l1 m l2).
Qed.
Next Obligation.
  intros T x y l1 l2 Hok He Hn. by apply (insert_here_spec T x y l1 l2 true).
Qed.
Next Obligation. intros T x l1 l2. apply remove_spec. Qed.
Next Obligation. intros T x y l1 l2. apply update_spec. Qed.
Next Obligation.
  intros T. unfold avl_first. rewrite extreme_first. by destruct (head _).
Qed.
Next Obligation. intros T x l1 l2. apply walk_spec. Qed.
Next Obligation.
  intros T Hok. rewrite (drain_post T Hok). eexists _, _. split; [done|].
  split; [apply postorder_perm|]. split; [|done]. split; done.
Qed.

(** ** Search trees *)

Section Ordered.
Variable cmp : A -> A -> comparison.
Hypothesis cmp_opp : forall x y, cmp y x = CompOpp (cmp x y).
Hypothesis cmp_trans : forall x y z, cmp x y = Lt -> cmp y z = Lt -> cmp x z = Lt.

Definition before_cmp (x y : A) : Prop := cmp x y = Lt.

(** The invariant a client keeps: balanced, counted, and in order. *)
Definition search_tree (T : avl_tree A) : Prop :=
  avl_ok T /\ StronglySorted before_cmp (elems (avl_root T)).

Lemma cmp_refl_not_lt x : cmp x x <> Lt.
Proof. intros H. pose proof (cmp_opp x x) as E. rewrite H in E. done. Qed.

Lemma sorted_NoDup l : StronglySorted before_cmp l -> List.NoDup l.
Proof.
  induction 1 as [|x l _ IH Hx]; constructor; [|done].
  intros Hin. rewrite List.Forall_forall in Hx. by apply (cmp_refl_not_lt x), Hx.
Qed.

Lemma sorted_split x l :
  StronglySorted before_cmp l -> (forall y, In y l -> cmp x y <> Eq) ->
  exists l1 l2, l = l1 ++ l2 /\ cmp_split (cmp x) l1 [] l2.
Proof.
  induction 1 as [|y l Hs IH Hy]; intros Hne.
  - exists [], []. done.
  - destruct IH as (l1 & l2 & -> & H1 & _ & H2); [intros z Hz; apply Hne; by right|].
    destruct (cmp x y) eqn:E.
    + destruct (Hne y); [by left|done].
    + exists [], (y :: l1 ++ l2). split; [done|]. split_and!; [done|done|].
      constructor; [done|]. rewrite List.Forall_forall in *. intros z Hz.
      apply (cmp_trans x y z E), Hy, Hz.
    + exists (y :: l1), l2. split; [done|]. split_and!; [by constructor|done|done].
Qed.

Lemma sorted_insert x l1 l2 :
  StronglySorted before_cmp (l1 ++ l2) -> cmp_split (cmp x) l1 [] l2 ->
  StronglySorted before_cmp (l1 ++ x :: l2).
Proof.
  intros Hs (H1 & _ & H2). induction l1 as [|y l1 IH]; cbn in *.
  - by constructor.
  - inversion_clear Hs as [|? ? Hs' Hy]. inversion_clear H1 as [|? ? Hxy H1'].
    constructor; [by apply IH|]. rewrite List.Forall_app in *. destruct Hy as [Hy1 Hy2].
    split; [done|]. constructor; [|done]. unfold before_cmp. rewrite cmp_opp, Hxy. done.
Qed.

Lemma sorted_around x l1 l2 :
  StronglySorted before_cmp (l1 ++ x :: l2) ->
  Forall (fun y => before_cmp y x) l1 /\ Forall (before_cmp x) l2.
Proof.
  induction l1 as [|y l1 IH]; cbn; intros Hs; inversion_clear Hs as [|? ? Hs' Hy]; [done|].
  destruct (IH Hs') as [H1 H2]. split; [|done]. constructor; [|done].
  rewrite List.Forall_app, List.Forall_cons_iff in Hy. tauto.
Qed.

Lemma sorted_remove x l1 l2 :
  StronglySorted before_cmp (l1 ++ x :: l2) -> StronglySorted before_cmp (l1 ++ l2).
Proof.
  induction l1 as [|y l1 IH]; cbn; intros Hs; inversion_clear Hs as [|? ? Hs' Hy]; [done|].
  constructor; [by apply IH|]. rewrite List.Forall_app, List.Forall_cons_iff in *. tauto.
Qed.
End Ordered.
End Avl.

(** ** Properties *)

Section Properties.
Context {A : Type} `{EqDecision A} (cmp : A -> A -> comparison).

(** Where [avl_add] puts a node, and what [avl_remove] leaves. *)
Lemma add_between (T : avl_tree A) (x : A) :
  (forall y z, cmp z y = CompOpp (cmp y z)) ->
  (forall y z w, cmp y z = Lt -> cmp z w = Lt -> cmp y w = Lt) ->
  search_tree cmp T -> (forall y, In y (elems (avl_root T)) -> cmp x y <> Eq) ->
  exists T' l1 l2, avl_add cmp T x = Ok T' /\ search_tree cmp T' /\
    elems (avl_root T) = l1 ++ l2 /\ elems (avl_root T') = l1 ++ x :: l2.
Proof.
  intros Hopp Htr [Hok Hs] Hne.
  destruct (sorted_split cmp Htr x _ Hs Hne) as (l1 & l2 & He & Hsp).
  destruct (@ot_find_none A _ avl_OrdTree T (cmp x) l1 l2 Hok He Hsp) as (q & Hf & _ & _ & Hi).
  destruct (Hi x) as (T' & E & Hok' & He'). cbn in *. exists T', l1, l2.
  unfold avl_add. rewrite Hf, E. split_and!; [done| |done|done].
  split; [done|]. rewrite He'. rewrite He in Hs. by apply sorted_insert.
Qed.

Lemma remove_between (T : avl_tree A) (x : A) :
  (forall y z, cmp z y = CompOpp (cmp y z)) ->
  search_tree cmp T -> In x (elems (avl_root T)) ->
  exists T' l1 l2, avl_remove T x = Ok T' /\ search_tree cmp T' /\
    elems (avl_root T) = l1 ++ x :: l2 /\ elems (avl_root T') = l1 ++ l2 /\ ~ In x (l1 ++ l2).
Proof.
  intros Hopp [Hok Hs] Hin. apply in_split in Hin as (l1 & l2 & He).
  assert (List.NoDup (l1 ++ x :: l2)) as Hnd by (rewrite <- He; by apply (sorted_NoDup cmp Hopp)).
  destruct (remove_spec T x l1 l2 Hok He Hnd) as (T' & E & Hok' & He').
  exists T', l1, l2. split_and!; [done| |done|done|by apply NoDup_remove_2].
  split; [done|]. rewrite He'. rewrite He in Hs. by apply sorted_remove in Hs.
Qed.

(** C14: [avl_add] of a node that compares unequal to every node of a search
    tree succeeds and gives a search tree (balanced within one level at every
    node, stored balances exact, [avl_numnodes] exact, in order) that holds
    exactly the old nodes and the new one. *)
Theorem avl_add_search_tree (T : avl_tree A) (x : A) :
  (forall y z, cmp z y = CompOpp (cmp y z)) ->
  (forall y z w, cmp y z = Lt -> cmp z w = Lt -> cmp y w = Lt) ->
  search_tree cmp T -> (forall y, In y (elems (avl_root T)) -> cmp x y <> Eq) ->
  exists T', avl_add cmp T x = Ok T' /\ search_tree cmp T' /\
    Permutation (elems (avl_root T')) (x :: elems (avl_root T)).
Proof.
  intros Hopp Htr Hs Hne. destruct (add_between T x Hopp Htr Hs Hne) as (T' & l1 & l2 & E & Hs' & He & He').
  exists T'. split_and!; [done|done|]. rewrite He', He. symmetry. apply Permutation_middle.
Qed.

(** C15: [avl_remove] of a node of a search tree succeeds and gives a search
    tree that holds exactly the other nodes. *)
Theorem avl_remove_search_tree (T : avl_tree A) (x : A) :
  (forall y z, cmp z y = CompOpp (cmp y z)) ->
  search_tree cmp T -> In x (elems (avl_root T)) ->
  exists T', avl_remove T x = Ok T' /\ search_tree cmp T' /\
    Permutation (elems (avl_root T)) (x :: elems (avl_root T')).
Proof.
  intros Hopp Hs Hin. destruct (remove_between T x Hopp Hs Hin) as (T' & l1 & l2 & E & Hs' & He & He' & _).
  exists T'. split_and!; [done|done|]. rewrite He, He'. symmetry. apply Permutation_middle.
Qed.

(** [avl_find] decides membership: with a comparison that is a total
    preorder, searching a search tree for a value returns a node that compares
    equal exactly when there is one, and else an insertion point whose two
    neighbours, as [avl_nearest] gives them, are the largest node below the
    value and the smallest above it. *)
Theorem avl_find_correct (T : avl_tree A) (x : A) :
  (forall y z, cmp z y = CompOpp (cmp y z)) ->
  (forall y z w, cmp y z = Lt -> cmp z w = Lt -> cmp y w = Lt) ->
  (forall y z w, cmp y z = Eq -> cmp y w = cmp z w) ->
  search_tree cmp T ->
  match avl_find (cmp x) T with
  | inl y => In y (elems (avl_root T)) /\ cmp x y = Eq
  | inr w =>
      (forall y, In y (elems (avl_root T)) -> cmp x y <> Eq) /\
      exists l1 l2, elems (avl_root T) = l1 ++ l2 /\ cmp_split (cmp x) l1 [] l2 /\
        avl_nearest T w false = last l1 /\ avl_nearest T w true = head l2
  end.
Proof.
  intros Hopp Htr Heq [Hok Hs]. destruct (avl_find (cmp x) T) as [y|w] eqn:E.
  { by apply find_loop_inl in E. }
  assert (forall y, In y (elems (avl_root T)) -> cmp x y <> Eq) as Hne.
  { intros y Hy Hxy. apply in_split in Hy as (l1 & l2 & He). rewrite He in Hs.
    apply (sorted_around cmp) in Hs as [S1 S2].
    destruct (find_loop_some (cmp x) (avl_root T) [] l1 [y] l2) as (z & Hz & _); [done| |done|].
    - unfold cmp_split. rewrite !List.Forall_forall in *. split_and!.
      + intros z Hz. rewrite (Heq _ _ _ Hxy), Hopp, (S1 z Hz). done.
      + intros z [<-|[]]. done.
      + intros z Hz. rewrite (Heq _ _ _ Hxy). by apply S2.
    - unfold avl_find in E. congruence. }
  split; [done|]. destruct (sorted_split cmp Htr x _ Hs Hne) as (l1 & l2 & He & Hsp).
  destruct (@ot_find_none A _ avl_OrdTree T (cmp x) l1 l2 Hok He Hsp) as (q & Hf & Hb & Ha & _).
  exists l1, l2. cbn in *. split_and!; [done|done|congruence..].
Qed.

(** The loop [for (x = avl_first(t); x; x = AVL_NEXT(t, x))]. *)
Fixpoint walk_all (fuel : nat) (T : avl_tree A) (o : option A) : list A :=
  match fuel, o with
  | S fuel', Some x => x :: walk_all fuel' T (avl_walk T x true)
  | _, _ => []
  end.

(** Walking a tree from [avl_first] with [AVL_NEXT] visits every node
    exactly once, in order, and then ends. *)
Theorem avl_walk_enumerates (T : avl_tree A) (fuel : nat) :
  List.NoDup (elems (avl_root T)) -> (length (elems (avl_root T)) <= fuel)%nat ->
  walk_all fuel T (avl_first T) = elems (avl_root T) /\
  (forall x, last (elems (avl_root T)) = Some x -> avl_walk T x true = None).
Proof.
  intros Hn Hf. split.
  - assert (forall l2 l1 fuel, elems (avl_root T) = l1 ++ l2 -> (length l2 <= fuel)%nat ->
      walk_all fuel T (head l2) = l2) as H.
    { induction l2 as [|x l2 IH]; intros l1 fu He Hl; [by destruct fu|].
      destruct fu as [|fu]; [cbn in Hl; lia|]. cbn. f_equal.
      rewrite He in Hn. destruct (walk_spec T x l1 l2 He Hn) as [_ ->].
      apply (IH (l1 ++ [x])); [by rewrite <- app_assoc|cbn in Hl; lia]. }
    unfold avl_first. rewrite extreme_first.
    replace (match head (elems (avl_root T)) with Some x => Some x | None => None end)
      with (head (elems (avl_root T))) by (by destruct (head _)).
    by apply (H _ []).
  - intros x Hl. apply last_Some in Hl as [l1 He]. rewrite He in Hn.
    apply (walk_spec T x l1 [] He Hn).
Qed.

(** C16: the [avl_destroy_nodes] loop returns every node of a tree exactly
    once, children before parents, stays inside the tree, never trips its
    assertions, and leaves the tree empty with no nodes counted. *)
Theorem avl_destroy_nodes_postorder (T : avl_tree A) :
  avl_ok T ->
  destroy_all (S (Z.to_nat (avl_numnodes T))) (Destroying (avl_numnodes T) (CStart (avl_root T)))
  = Ok (postorder (avl_root T), Destroying 0 (CChildbit false)) /\
  Permutation (postorder (avl_root T)) (elems (avl_root T)).
Proof.
  intros Hok. split; [|apply postorder_perm]. pose proof (drain_post T Hok) as E.
  unfold avl_drain in E. destruct Hok as [Hb Hn]. rewrite destroy_all_spec.
  - done.
  - split; [done|]. cbn. rewrite Hn. f_equal. symmetry. apply Permutation_length, postorder_perm.
  - unfold remaining. cbn. rewrite (Permutation_length (postorder_perm (avl_root T))), Hn. lia.
Qed.

(** *** Histories of a tree *)

Inductive avl_op := OpAdd (x : A) | OpRemove (x : A).

Definition avl_run_op (T : avl_tree A) (o : avl_op) : outcome (avl_tree A) :=
  match o with OpAdd x => avl_add cmp T x | OpRemove x => avl_remove T x end.
Fixpoint avl_run (ops : list avl_op) (T : avl_tree A) : outcome (avl_tree A) :=
  match ops with [] => Ok T | o :: ops' => T' ← avl_run_op T o; avl_run ops' T' end.

(** The nodes after an operation, and what its caller has to see to. *)
Definition op_after (S : A -> Prop) (o : avl_op) : A -> Prop :=
  match o with OpAdd x => fun y => y = x \/ S y | OpRemove x => fun y => y <> x /\ S y end.
Definition proper_op (S : A -> Prop) (o : avl_op) : Prop :=
  match o with OpAdd x => forall y, S y -> cmp x y <> Eq | OpRemove x => S x end.
Fixpoint proper_ops (S : A -> Prop) (ops : list avl_op) : Prop :=
  match ops with [] => True | o :: ops' => proper_op S o /\ proper_ops (op_after S o) ops' end.

Definition tree_holds (T : avl_tree A) (S : A -> Prop) : Prop := forall y, In y (elems (avl_root T)) <-> S y.

Lemma avl_op_ok (T : avl_tree A) (S : A -> Prop) (o : avl_op) :
  (forall y z, cmp z y = CompOpp (cmp y z)) -> (forall y z w, cmp y z = Lt -> cmp z w = Lt -> cmp y w = Lt) ->
  search_tree cmp T -> tree_holds T S -> proper_op S o ->
  exists T', avl_run_op T o = Ok T' /\ search_tree cmp T' /\ tree_holds T' (op_after S o).
Proof.
  intros Hopp Htr Hs HS Ho. unfold tree_holds in *. destruct o as [x|x]; cbn in *.
  - destruct (add_between T x Hopp Htr Hs) as (T' & l1 & l2 & E & Hs' & He & He'); [intros y Hy; by apply Ho, HS|].
    exists T'. split_and!; [done|done|]. intros y. rewrite <- HS, He, He', !in_app_iff. cbn. intuition congruence.
  - destruct (remove_between T x Hopp Hs) as (T' & l1 & l2 & E & Hs' & He & He' & Hx); [by apply HS|].
    exists T'. split_and!; [done|done|]. intros y. rewrite <- HS, He, He'. rewrite !in_app_iff in *. cbn.
    destruct (decide (y = x)) as [->|]; intuition congruence.
Qed.

Lemma avl_ops_ok ops :
  (forall y z, cmp z y = CompOpp (cmp y z)) -> (forall y z w, cmp y z = Lt -> cmp z w = Lt -> cmp y w = Lt) ->
  forall T S, search_tree cmp T -> tree_holds T S -> proper_ops S ops ->
  exists T', avl_run ops T = Ok T' /\ search_tree cmp T' /\ tree_holds T' (foldl op_after S ops).
Proof.
  intros Hopp Htr. induction ops as [|o ops IH]; intros T S Hs HS Hp; cbn in *; [by exists T|].
  destruct Hp as [Ho Hp]. destruct (avl_op_ok T S o Hopp Htr Hs HS Ho) as (T1 & -> & Hs1 & HS1). run. by apply (IH T1 (op_after S o)).
Qed.

(** The nodes a search looks at lie on one path from the root. *)
Lemma find_loop_looks (g : A -> comparison) (t : tree A) :
  exists vs, zlen vs <= height t /\ forall p g', (forall y, In y vs -> g' y = g y) -> find_loop g' t p = find_loop g t p.
Proof.
  induction t as [|d b c0 IH0 c1 IH1]; [by exists []|]. destruct IH0 as (v0 & L0 & H0), IH1 as (v1 & L1 & H1).
  exists (d :: match g d with Lt => v0 | Eq => [] | Gt => v1 end). pose proof (height_nonneg c0). pose proof (height_nonneg c1). split.
  - cbn [length height]. rewrite Nat2Z.inj_succ. destruct (g d); cbn; lia.
  - intros p g' Hg. cbn [find_loop]. rewrite (Hg d) by by left. destruct (g d); [done|apply H0|apply H1]; intros y Hy; apply Hg; by right.
Qed.

Lemma find_loop_path (g : A -> comparison) (t : tree A) : forall p w, find_loop g t p = inr w -> zlen w <= zlen p + height t.
Proof.
  induction t as [|d b c0 IH0 c1 IH1]; intros p w; cbn [find_loop height].
  - intros [= <-]. lia.
  - destruct (g d); [done| |]; [intros H%IH0|intros H%IH1]; cbn [length] in H; lia.
Qed.

(** C17: whatever sequence of [avl_add] and [avl_remove] a new tree has gone through,
    as long as nodes are added that compare unequal to those of the tree and nodes of
    the tree are removed, every call succeeds and the tree holds exactly the nodes
    added and not removed since; and it is logarithmic in their number [n]: for any
    search, [avl_find] answers from at most [2 log2 (n + 1)] of the nodes - the answer
    is the same for every comparison that agrees on those - and an insertion point
    it gives, which the loop of [avl_insert] follows back up, is no longer than that. *)
Theorem avl_histories_logarithmic (ops : list avl_op) :
  (forall y z, cmp z y = CompOpp (cmp y z)) ->
  (forall y z w, cmp y z = Lt -> cmp z w = Lt -> cmp y w = Lt) ->
  proper_ops (fun _ => False) ops ->
  exists T, avl_run ops avl_create = Ok T /\ search_tree cmp T /\
    (forall y, In y (elems (avl_root T)) <-> foldl op_after (fun _ => False) ops y) /\
    let bound (k : Z) := 2 ^ k <= (avl_numnodes T + 1) * (avl_numnodes T + 1) in
    bound (height (avl_root T)) /\
    forall g : A -> comparison,
      (exists vs, bound (zlen vs) /\ forall g', (forall y, In y vs -> g' y = g y) -> avl_find g' T = avl_find g T) /\
      (forall w, avl_find g T = inr w -> bound (zlen w)).
Proof.
  intros Hopp Htr Hp. destruct (avl_ops_ok ops Hopp Htr avl_create (fun _ => False)) as (T & E & Hs & HS).
  { repeat split. constructor. }
  { done. }
  { done. }
  exists T. split; [exact E|]. split; [exact Hs|]. split; [exact HS|]. destruct Hs as [[Hb ->] _].
  pose proof (height_bound (avl_root T) Hb) as HB.
  assert (forall k, k <= height (avl_root T) -> 2 ^ k <= (zlen (elems (avl_root T)) + 1) * (zlen (elems (avl_root T)) + 1)) as Hk.
  { intros k Hk. etransitivity; [|exact HB]. apply Z.pow_le_mono_r; lia. }
  split; [exact HB|]. intros g. split.
  - destruct (find_loop_looks g (avl_root T)) as (vs & L & H). exists vs. split; [by apply Hk|]. intros g'. apply H.
  - intros w Hw%find_loop_path. apply Hk. cbn in Hw. lia.
Qed.

End Properties.

(** ** Witnesses: integers as nodes *)

Definition zinsert (l : list Z) : outcome (avl_tree Z) :=
  foldl (fun m x => T ← m; avl_add Z.compare T x) (Ok avl_create) l.

Definition t7 : avl_tree Z := match zinsert [4; 2; 6; 1; 3; 5; 7] with Ok T => T | Err _ => avl_create end.

Lemma t7_ok : search_tree Z.compare t7.
Proof. split; [split; [cbn; split_and!; done || lia|done]|]. repeat constructor. Qed.

Lemma Zcompare_opp (y z : Z) : Z.compare z y = CompOpp (Z.compare y z).
Proof. apply Z.compare_antisym. Qed.
Lemma Zcompare_trans (y z w : Z) : Z.compare y z = Lt -> Z.compare z w = Lt -> Z.compare y w = Lt.
Proof. rewrite !Z.compare_lt_iff. lia. Qed.

Lemma avl_add_search_tree_witness :
  exists T', avl_add Z.compare t7 10 = Ok T' /\ search_tree Z.compare T' /\
    Permutation (elems (avl_root T')) (10 :: elems (avl_root t7)).
Proof.
  apply (avl_add_search_tree Z.compare t7 10 Zcompare_opp Zcompare_trans t7_ok).
  intros y H. vm_compute in H. intros E%Z.compare_eq. subst y. intuition discriminate.
Defined.

Lemma avl_remove_search_tree_witness :
  exists T', avl_remove t7 4 = Ok T' /\ search_tree Z.compare T' /\
    Permutation (elems (avl_root t7)) (4 :: elems (avl_root T')).
Proof.
  apply (avl_remove_search_tree Z.compare t7 4 Zcompare_opp t7_ok). vm_compute. tauto.
Defined.

Lemma avl_find_correct_witness :
  match avl_find (Z.compare 3) t7 with
  | inl y => In y (elems (avl_root t7)) /\ Z.compare 3 y = Eq
  | inr w =>
      (forall y, In y (elems (avl_root t7)) -> Z.compare 3 y <> Eq) /\
      exists l1 l2, elems (avl_root t7) = l1 ++ l2 /\ cmp_split (Z.compare 3) l1 [] l2 /\
        avl_nearest t7 w false = last l1 /\ avl_nearest t7 w true = head l2
  end.
Proof.
  apply (avl_find_correct Z.compare t7 3 Zcompare_opp Zcompare_trans); [|apply t7_ok].
  intros y z w H%Z.compare_eq. by subst.
Defined.

Lemma avl_walk_enumerates_witness :
  walk_all 7 t7 (avl_first t7) = elems (avl_root t7) /\
  (forall x, last (elems (avl_root t7)) = Some x -> avl_walk t7 x true = None).
Proof.
  apply (avl_walk_enumerates t7 7).
  - apply (sorted_NoDup Z.compare Zcompare_opp), t7_ok.
  - vm_compute. lia.
Defined.

Lemma avl_destroy_nodes_postorder_witness :
  destroy_all 8 (Destroying 7 (CStart (avl_root t7)))
  = Ok ([1; 3; 2; 5; 7; 6; 4], Destroying 0 (CChildbit false)) /\
  Permutation [1; 3; 2; 5; 7; 6; 4] (elems (avl_root t7)).
Proof. apply (avl_destroy_nodes_postorder t7). apply t7_ok. Defined.

Lemma avl_histories_logarithmic_witness :
  exists T, avl_run Z.compare [OpAdd 4; OpAdd 2; OpAdd 6; OpRemove 4; OpAdd 1; OpAdd 3; OpRemove 6; OpAdd 4] avl_create = Ok T /\
    (forall y, In y (elems (avl_root T)) <-> In y [1; 2; 3; 4]) /\
    forall g, exists vs, 2 ^ zlen vs <= (avl_numnodes T + 1) * (avl_numnodes T + 1) /\
      forall g', (forall y, In y vs -> g' y = g y) -> avl_find g' T = avl_find g T.
Proof.
  destruct (avl_histories_logarithmic Z.compare
    [OpAdd 4; OpAdd 2; OpAdd 6; OpRemove 4; OpAdd 1; OpAdd 3; OpRemove 6; OpAdd 4] Zcompare_opp Zcompare_trans) as (T & E & _ & HS & _ & H).
  - cbn -[Z.compare]. split_and!; try done; try lia; intros y Hy E%Z.compare_eq; subst y; lia.
  - exists T. split; [exact E|]. split; [|intros g; apply H]. intros y. rewrite HS. cbn. lia.
Defined.

End Avl.
