(* ===== verification/SpaceMap.v ===== *)
(** * Space maps: fs/zfs/space_map.c

    A space map is a set of offsets kept as an ordered tree of maximal segments.
    The tree is any implementation of [OrdTree]; the operations below use it the
    way the code calls avl.c.  Offsets and sizes are [uint64_t] and wrap where
    the code's additions do; a failed [VERIFY] is [Err Panic]. *)

From Stdlib Require Import List Permutation Sorted.
From stdpp Require Import base option numbers list.
From S2P Require Import Prelude OrdTree Avl.
Local Open Scope Z_scope.

(** ** sys/sysmacros.h and the bit fields of sys/spa.h *)

Definition P2PHASE (x align : Z) : Z := Z.land x (align - 1).
Definition BF64_DECODE (x low len : Z) : Z := P2PHASE (Z.shiftr x low) (Z.shiftl 1 len).
Definition BF64_ENCODE (x low len : Z) : Z := Z.shiftl (P2PHASE x (Z.shiftl 1 len)) low.

(** ** Segments *)

Record space_seg := Seg { ss_start : Z; ss_end : Z }.

#[global] Instance space_seg_eq_dec : EqDecision space_seg.
Proof. solve_decision. Defined.

Module SpaceMap.

Definition space_map_seg_compare (s1 s2 : space_seg) : comparison :=
  if ss_start s1 <? ss_start s2 then
    if ss_start s2 <? ss_end s1 then Eq else Lt
  else if ss_start s2 <? ss_start s1 then
    if ss_start s1 <? ss_end s2 then Eq else Gt
  else Eq.

(** ** On-disk entries: sys/space_map.h *)

Definition SM_RUN_DECODE (x : Z) : Z := BF64_DECODE x 0 15 + 1.
Definition SM_RUN_ENCODE (x : Z) : Z := BF64_ENCODE (x - 1) 0 15.
Definition SM_TYPE_DECODE (x : Z) : Z := BF64_DECODE x 15 1.
Definition SM_TYPE_ENCODE (x : Z) : Z := BF64_ENCODE x 15 1.
Definition SM_OFFSET_DECODE (x : Z) : Z := BF64_DECODE x 16 47.
Definition SM_OFFSET_ENCODE (x : Z) : Z := BF64_ENCODE x 16 47.
Definition SM_DEBUG_DECODE (x : Z) : Z := BF64_DECODE x 63 1.
Definition SM_DEBUG_ENCODE (x : Z) : Z := BF64_ENCODE x 63 1.
Definition SM_DEBUG_ACTION_ENCODE (x : Z) : Z := BF64_ENCODE x 60 3.
Definition SM_DEBUG_SYNCPASS_ENCODE (x : Z) : Z := BF64_ENCODE x 50 10.
Definition SM_DEBUG_TXG_ENCODE (x : Z) : Z := BF64_ENCODE x 0 50.
Definition SM_RUN_MAX : Z := SM_RUN_DECODE (2 ^ 64 - 1).
Definition SM_ALLOC : Z := 0.
Definition SM_FREE : Z := 1.
Definition SPACE_MAP_BLOCKSHIFT : Z := 12.

(** ** Sequences of segments *)

Definition gap (s t : space_seg) : Prop := ss_end s < ss_start t.

(** Segments are in order, none empty, and no two touch. *)
Definition segs_wf (l : list space_seg) : Prop :=
  StronglySorted gap l /\ Forall (fun s => ss_start s < ss_end s) l.

Fixpoint total (l : list space_seg) : Z :=
  match l with [] => 0 | s :: l' => (ss_end s - ss_start s) + total l' end.

(** The set of offsets a sequence stands for. *)
Definition member (l : list space_seg) (x : Z) : Prop :=
  exists s, In s l /\ ss_start s <= x < ss_end s.

Lemma SS_app {A} (R : A -> A -> Prop) l1 l2 :
  StronglySorted R (l1 ++ l2) <->
  StronglySorted R l1 /\ StronglySorted R l2 /\ (forall x y, In x l1 -> In y l2 -> R x y).
Proof.
  induction l1 as [|a l1 IH]; cbn.
  - split; [|tauto]. intros H. split_and!; [constructor|done|by intros].
  - split.
    + intros H. inversion_clear H as [|? ? Hs Ha]. apply IH in Hs as (H1 & H2 & H3).
      apply List.Forall_app in Ha as [Ha1 Ha2]. split_and!; [by constructor|done|].
      intros x y [<-|Hx] Hy; [|by apply H3]. rewrite List.Forall_forall in Ha2. auto.
    + intros (H1 & H2 & H3). inversion_clear H1 as [|? ? Hs Ha]. constructor.
      * apply IH. split_and!; [done|done|]. auto.
      * apply List.Forall_app. split; [done|]. apply List.Forall_forall. auto.
Qed.

Lemma wf_app l1 l2 :
  segs_wf (l1 ++ l2) <-> segs_wf l1 /\ segs_wf l2 /\ (forall x y, In x l1 -> In y l2 -> gap x y).
Proof. unfold segs_wf. rewrite SS_app, List.Forall_app. tauto. Qed.

Lemma wf_cons s l :
  segs_wf (s :: l) <-> ss_start s < ss_end s /\ segs_wf l /\ (forall y, In y l -> gap s y).
Proof.
  change (s :: l) with ([s] ++ l). rewrite wf_app. unfold segs_wf. split.
  - intros ((_ & H1) & H2 & H3). inversion H1. split_and!; [done|by destruct H2..|].
    intros. apply H3; [by left|done].
  - intros (H1 & H2 & H3). split_and!; try apply H2.
    + repeat constructor.
    + by repeat constructor.
    + intros x y [<-|[]]. apply H3.
Qed.

Lemma total_app l1 l2 : total (l1 ++ l2) = total l1 + total l2.
Proof. induction l1; cbn; lia. Qed.

Lemma member_app l1 l2 x : member (l1 ++ l2) x <-> member l1 x \/ member l2 x.
Proof. unfold member. setoid_rewrite in_app_iff. naive_solver. Qed.
Lemma member_cons s l x : member (s :: l) x <-> ss_start s <= x < ss_end s \/ member l x.
Proof. unfold member. cbn. naive_solver. Qed.
Lemma member_nil x : ~ member [] x.
Proof. intros (s & [] & _). Qed.

Lemma wf_NoDup l : segs_wf l -> List.NoDup l.
Proof.
  induction l as [|s l IH]; intros H; constructor; apply wf_cons in H as (H1 & H2 & H3).
  - intros Hin. specialize (H3 s Hin). red in H3. lia.
  - by apply IH.
Qed.

(** Disjoint segments within an interval are no longer than it. *)
Lemma total_bound l lo hi :
  segs_wf l -> lo <= hi -> Forall (fun s => lo <= ss_start s /\ ss_end s <= hi) l -> 0 <= total l <= hi - lo.
Proof.
  revert lo. induction l as [|s l IH]; intros lo Hwf Hlo Hb; cbn; [lia|].
  apply wf_cons in Hwf as (H1 & H2 & H3). inversion_clear Hb as [|? ? Hs Hl].
  enough (0 <= total l <= hi - ss_end s) by lia. apply IH; [done|lia|].
  rewrite List.Forall_forall in *. intros t Ht. specialize (Hl t Ht). specialize (H3 t Ht). red in H3. lia.
Qed.

(** The segments left of, overlapping with and right of an interval. *)
Lemma partition l lo hi :
  segs_wf l -> lo < hi ->
  exists l1 m l2, l = l1 ++ m ++ l2 /\
    Forall (fun s => ss_end s <= lo) l1 /\
    Forall (fun s => ss_start s < hi /\ lo < ss_end s) m /\
    Forall (fun s => hi <= ss_start s) l2.
Proof.
  intros Hwf Hlt. induction l as [|s l IH].
  - exists [], [], []. done.
  - apply wf_cons in Hwf as (H1 & H2 & H3). destruct (IH H2) as (l1 & m & l2 & -> & P1 & P2 & P3).
    assert (forall t, In t (l1 ++ m ++ l2) -> ss_end s < ss_start t) as Hg by exact H3.
    destruct (decide (ss_end s <= lo)).
    { exists (s :: l1), m, l2. split_and!; [done|by constructor|done|done]. }
    destruct l1 as [|t l1].
    2: { exfalso. inversion_clear P1. specialize (Hg t (or_introl eq_refl)).
         assert (ss_start t < ss_end t) by (apply wf_cons in H2; tauto). lia. }
    destruct (decide (ss_start s < hi)).
    { exists [], (s :: m), l2. split_and!; [done|done|by constructor; [lia|]|done]. }
    destruct m as [|t m].
    2: { exfalso. inversion_clear P2. specialize (Hg t (or_introl eq_refl)). lia. }
    exists [], [], (s :: l2). split_and!; [done|done|done|constructor; [lia|done]].
Qed.

(** The comparison of a probe with the segments is monotone along the sequence. *)
Lemma probe_split l1 m l2 lo hi :
  segs_wf (l1 ++ m ++ l2) -> lo <= hi ->
  Forall (fun s => ss_end s <= lo) l1 ->
  Forall (fun s => ss_start s < Z.max hi (lo + 1) /\ lo < ss_end s) m ->
  Forall (fun s => Z.max hi (lo + 1) <= ss_start s) l2 ->
  cmp_split (space_map_seg_compare (Seg lo hi)) l1 m l2.
Proof.
  intros Hwf Hlt P1 P2 P3. assert (forall s, In s (l1 ++ m ++ l2) -> ss_start s < ss_end s) as Hne.
  { apply List.Forall_forall. apply Hwf. }
  unfold cmp_split, space_map_seg_compare. rewrite !List.Forall_forall in *. cbn [ss_start ss_end].
  split_and!; intros s Hs; (assert (ss_start s < ss_end s) by (apply Hne; rewrite !in_app_iff; tauto)).
  - specialize (P1 s Hs). repeat (step_if; b2p; try lia); done.
  - specialize (P2 s Hs). repeat (step_if; b2p; try lia); done.
  - specialize (P3 s Hs). repeat (step_if; b2p; try lia); done.
Qed.

(** Putting a new segment between two parts. *)
Lemma wf_mid k1 k2 lo hi :
  segs_wf k1 -> segs_wf k2 -> lo < hi ->
  Forall (fun s => ss_end s < lo) k1 -> Forall (fun s => hi < ss_start s) k2 ->
  segs_wf (k1 ++ Seg lo hi :: k2).
Proof.
  intros H1 H2 Hlt P1 P2. rewrite List.Forall_forall in *. apply wf_app. split_and!; [done| |].
  - apply wf_cons. split_and!; [done|done|]. intros y Hy. apply (P2 y Hy).
  - intros x y Hx [<-|Hy]; [apply (P1 x Hx)|].
    specialize (P1 x Hx). specialize (P2 y Hy). red. cbn in *. lia.
Qed.

(** Neighbours that do not touch keep everything on their side at a distance. *)
Lemma strict_before l p :
  segs_wf l -> Forall (fun s => ss_end s <= p) l ->
  (forall b, last l = Some b -> ss_end b <> p) -> Forall (fun s => ss_end s < p) l.
Proof.
  intros Hwf HF Hl. destruct l as [|b l _] using rev_ind; [done|].
  specialize (Hl b). rewrite last_snoc in Hl. specialize (Hl eq_refl).
  apply List.Forall_app in HF as [H1 H2]. inversion_clear H2.
  apply wf_app in Hwf as (_ & Hb & Hg). apply wf_cons in Hb as [Hb _].
  apply List.Forall_app. split; [|constructor; [lia|done]].
  apply List.Forall_forall. intros x Hx. specialize (Hg x b Hx (or_introl eq_refl)). red in Hg. lia.
Qed.

Lemma strict_after l p :
  segs_wf l -> Forall (fun s => p <= ss_start s) l ->
  (forall a, head l = Some a -> ss_start a <> p) -> Forall (fun s => p < ss_start s) l.
Proof.
  intros Hwf HF Hl. destruct l as [|a l]; [done|]. specialize (Hl a eq_refl).
  inversion_clear HF. apply wf_cons in Hwf as (Ha & _ & Hg).
  constructor; [lia|]. apply List.Forall_forall. intros x Hx. specialize (Hg x Hx). red in Hg. lia.
Qed.

Section SpaceMap.
Context {OT : OrdTree space_seg}.

(** [space_map_t].  The lock and the condition variable are not part of the
    state: every operation below runs with [sm_lock] held.  [sm_ops] is the
    address of an operations vector. *)
Record space_map := SpaceMap {
  sm_root : ot space_seg;
  sm_space : Z;
  sm_start : Z;
  sm_size : Z;
  sm_shift : Z;
  sm_loaded : bool;
  sm_loading : bool;
  sm_ops : option Z;
  sm_ppd : option (list Z)
}.

Definition set_root (sm : space_map) (t : ot space_seg) (space : Z) : space_map :=
  SpaceMap t space (sm_start sm) (sm_size sm) (sm_shift sm) (sm_loaded sm) (sm_loading sm)
    (sm_ops sm) (sm_ppd sm).

(** [zfs_recover]: whether [zfs_panic_recover] only warns. *)
Variable zfs_recover : bool.
Definition zfs_panic_recover {R} (k : outcome R) : outcome R :=
  if zfs_recover then k else Err Panic.

Definition space_map_create (start size shift : Z) : space_map :=
  SpaceMap ot_empty 0 start size shift false false None None.

Definition space_map_destroy (sm : space_map) : outcome unit :=
  _ ← verify (negb (sm_loaded sm) && negb (sm_loading sm));
  _ ← verify (sm_space sm =? 0);
  verify (ot_numnodes (sm_root sm) =? 0).

Definition space_map_add (sm : space_map) (start size : Z) : outcome space_map :=
  let en := u64 (start + size) in
  _ ← verify (negb (size =? 0));
  _ ← verify (sm_start sm <=? start);
  _ ← verify (en <=? u64 (sm_start sm + sm_size sm));
  _ ← verify (u64 (sm_space sm + size) <=? sm_size sm);
  _ ← verify (P2PHASE start (Z.shiftl 1 (sm_shift sm)) =? 0);
  _ ← verify (P2PHASE size (Z.shiftl 1 (sm_shift sm)) =? 0);
  match ot_find (space_map_seg_compare (Seg start en)) (sm_root sm) with
  | inl ss =>
      if (ss_start ss <=? start) && (en <=? ss_end ss) then zfs_panic_recover (Ok sm)
      else Err Panic
  | inr wher =>
      let ss_before := ot_nearest (sm_root sm) wher false in
      let ss_after := ot_nearest (sm_root sm) wher true in
      let merge_before := match ss_before with Some b => ss_end b =? start | None => false end in
      let merge_after := match ss_after with Some a => ss_start a =? en | None => false end in
      t ← match ss_before, ss_after, merge_before, merge_after with
          | Some b, Some a, true, true =>
              t ← ot_remove (sm_root sm) b;
              Ok (ot_update t a (Seg (ss_start b) (ss_end a)))
          | Some b, _, true, _ => Ok (ot_update (sm_root sm) b (Seg (ss_start b) en))
          | _, Some a, _, true => Ok (ot_update (sm_root sm) a (Seg start (ss_end a)))
          | _, _, _, _ => ot_insert (sm_root sm) (Seg start en) wher
          end;
      Ok (set_root sm t (u64 (sm_space sm + size)))
  end.

Definition space_map_remove (sm : space_map) (start size : Z) : outcome space_map :=
  let en := u64 (start + size) in
  _ ← verify (negb (size =? 0));
  _ ← verify (P2PHASE start (Z.shiftl 1 (sm_shift sm)) =? 0);
  _ ← verify (P2PHASE size (Z.shiftl 1 (sm_shift sm)) =? 0);
  match ot_find (space_map_seg_compare (Seg start en)) (sm_root sm) with
  | inr _ => zfs_panic_recover (Ok sm)
  | inl ss =>
      _ ← verify (ss_start ss <=? start);
      _ ← verify (en <=? ss_end ss);
      _ ← verify (u64 (sm_space sm - size) <=? sm_size sm);
      let left_over := negb (ss_start ss =? start) in
      let right_over := negb (ss_end ss =? en) in
      t ← (if left_over && right_over then
             let newseg := Seg en (ss_end ss) in
             let ss' := Seg (ss_start ss) start in
             ot_insert_here (ot_update (sm_root sm) ss ss') newseg ss' true
           else if left_over then Ok (ot_update (sm_root sm) ss (Seg (ss_start ss) start))
           else if right_over then Ok (ot_update (sm_root sm) ss (Seg en (ss_end ss)))
           else ot_remove (sm_root sm) ss);
      Ok (set_root sm t (u64 (sm_space sm - size)))
  end.

Definition space_map_contains (sm : space_map) (start size : Z) : outcome bool :=
  let en := u64 (start + size) in
  _ ← verify (negb (size =? 0));
  _ ← verify (P2PHASE start (Z.shiftl 1 (sm_shift sm)) =? 0);
  _ ← verify (P2PHASE size (Z.shiftl 1 (sm_shift sm)) =? 0);
  Ok match ot_find (space_map_seg_compare (Seg start en)) (sm_root sm) with
     | inl ss => (ss_start ss <=? start) && (en <=? ss_end ss)
     | inr _ => false
     end.

(** [func(mdest, ss->ss_start, ss->ss_end - ss->ss_start)] for every segment
    of a list, in its order. *)
Fixpoint for_segs {S} (func : S -> Z -> Z -> outcome S) (l : list space_seg) (mdest : S)
    : outcome S :=
  match l with
  | [] => Ok mdest
  | ss :: l' =>
      mdest' ← func mdest (ss_start ss) (u64 (ss_end ss - ss_start ss));
      for_segs func l' mdest'
  end.

Definition space_map_vacate {S} (sm : space_map) (func : S -> Z -> Z -> outcome S) (mdest : S)
    : outcome (space_map * S) :=
  '(l, t) ← ot_drain (sm_root sm);
  mdest' ← for_segs func l mdest;
  Ok (set_root sm t 0, mdest').

(** [for (ss = avl_first(t); ss; ss = AVL_NEXT(t, ss)) func(...)] *)
Fixpoint walk_loop {S} (fuel : nat) (t : ot space_seg) (func : S -> Z -> Z -> outcome S)
    (o : option space_seg) (mdest : S) : outcome S :=
  match o with
  | None => Ok mdest
  | Some ss =>
      match fuel with
      | O => Err Fuel
      | Datatypes.S fuel' =>
          mdest' ← func mdest (ss_start ss) (u64 (ss_end ss - ss_start ss));
          walk_loop fuel' t func (ot_walk t ss true) mdest'
      end
  end.

Definition space_map_walk {S} (sm : space_map) (func : S -> Z -> Z -> outcome S) (mdest : S)
    : outcome S :=
  walk_loop (Z.to_nat (ot_numnodes (sm_root sm))) (sm_root sm) func (ot_first (sm_root sm)) mdest.

(** The [for (;;)] loop of [space_map_excise]; every round removes part of a
    segment, so one round more than there are segments is enough. *)
Definition space_map_excise (sm : space_map) (start size : Z) : outcome space_map :=
  let en := u64 (start + size) in
  iter (S (S (Z.to_nat (ot_numnodes (sm_root sm)))))
    (fun sm =>
       let ss :=
         match ot_find (space_map_seg_compare (Seg start start)) (sm_root sm) with
         | inl ss => Some ss
         | inr wher => ot_nearest (sm_root sm) wher true
         end in
       match ss with
       | None => Ok (inr sm)
       | Some ss =>
           if en <=? ss_start ss then Ok (inr sm)
           else
             let rm_start := Z.max (ss_start ss) start in
             let rm_end := Z.min (ss_end ss) en in
             sm' ← space_map_remove sm rm_start (u64 (rm_end - rm_start));
             Ok (inl sm')
       end) sm.

Definition space_map_union (smd sms : space_map) : outcome space_map :=
  space_map_walk sms
    (fun smd start size =>
       smd ← space_map_excise smd start size;
       space_map_add smd start size) smd.

(** ** The set a map stands for, and the invariant *)

Definition segs (sm : space_map) : list space_seg := ot_elems (sm_root sm).

Definition aligned (sm : space_map) (x : Z) : Prop := x `mod` 2 ^ sm_shift sm = 0.

Record sm_ok (sm : space_map) : Prop := {
  ok_tree : ot_ok (sm_root sm);
  ok_wf : segs_wf (segs sm);
  ok_bounds : Forall (fun s => sm_start sm <= ss_start s /\ ss_end s <= sm_start sm + sm_size sm) (segs sm);
  ok_align : Forall (fun s => aligned sm (ss_start s) /\ aligned sm (ss_end s)) (segs sm);
  ok_space : sm_space sm = total (segs sm);
  ok_range : 0 <= sm_start sm /\ 0 <= sm_size sm /\ sm_start sm + sm_size sm < 2 ^ 64;
  ok_shift : 0 <= sm_shift sm < 64
}.

(** ** Adding *)

Lemma P2PHASE_mod x k : 0 <= k -> P2PHASE x (Z.shiftl 1 k) = x `mod` 2 ^ k.
Proof. apply land_ones_mod. Qed.

(** A map with the same fields as [sm] but other segments. *)
Lemma sm_ok_set sm t :
  sm_ok sm -> ot_ok t -> segs_wf (ot_elems t) ->
  Forall (fun s => sm_start sm <= ss_start s /\ ss_end s <= sm_start sm + sm_size sm) (ot_elems t) ->
  Forall (fun s => aligned sm (ss_start s) /\ aligned sm (ss_end s)) (ot_elems t) ->
  sm_ok (set_root sm t (total (ot_elems t))).
Proof. intros [] Ht Hwf Hb Ha. by split. Qed.

Lemma total_fits sm l :
  sm_ok sm -> segs_wf l ->
  Forall (fun s => sm_start sm <= ss_start s /\ ss_end s <= sm_start sm + sm_size sm) l ->
  u64 (total l) = total l /\ 0 <= total l <= sm_size sm.
Proof.
  intros [? ? ? ? ? Hr ?] Hwf Hb.
  pose proof (total_bound l _ _ Hwf (ltac:(lia) : sm_start sm <= sm_start sm + sm_size sm) Hb).
  split; [apply wrap_small; lia|lia].
Qed.

(** What the four cases of [space_map_add] have in common: the segments
    [k1] and [k2] that stay, and the one [lo, hi) that is new or grown. *)
Definition added (l : list space_seg) (start en : Z) (l' : list space_seg) : Prop :=
  exists k1 lo hi k2, l' = k1 ++ Seg lo hi :: k2 /\
    segs_wf k1 /\ segs_wf k2 /\ lo < hi /\
    Forall (fun s => ss_end s < lo) k1 /\ Forall (fun s => hi < ss_start s) k2 /\
    total l' = total l + (en - start) /\
    (forall x, member l' x <-> member l x \/ start <= x < en) /\
    (forall P : Z -> Prop, Forall (fun s => P (ss_start s) /\ P (ss_end s)) l -> P start -> P en ->
       Forall (fun s => P (ss_start s) /\ P (ss_end s)) l').

Ltac mem := intros x; rewrite ?member_app, ?member_cons, ?member_app, ?member_cons; cbn;
            pose proof (member_nil x); intuition lia.
Ltac fall := let P := fresh "P" in intros P; rewrite ?List.Forall_app, ?List.Forall_cons_iff; cbn;
             tauto.

(** The segments between [k1] and [k2], at most one on either side of the
    added range and touching it, become one. *)
Lemma added_intro k1 mb ma k2 lo hi start en :
  segs_wf (k1 ++ mb ++ ma ++ k2) -> lo <= start < en -> en <= hi ->
  Forall (fun s => ss_end s < lo) k1 -> Forall (fun s => hi < ss_start s) k2 ->
  (mb = [] /\ lo = start) \/ mb = [Seg lo start] ->
  (ma = [] /\ hi = en) \/ ma = [Seg en hi] ->
  added (k1 ++ mb ++ ma ++ k2) start en (k1 ++ Seg lo hi :: k2).
Proof.
  intros Hwf Hlo Hhi P1 P2 Hb Ha. exists k1, lo, hi, k2.
  apply wf_app in Hwf as (W1 & (W2 & (W3 & W4 & W5)%wf_app & W6)%wf_app & W7).
  split_and!; [done|done|done|lia|done|done|..].
  - rewrite !total_app. cbn. destruct Hb as [[-> ->]| ->], Ha as [[-> ->]| ->]; cbn; lia.
  - destruct Hb as [[-> ->]| ->], Ha as [[-> ->]| ->]; cbn [app]; mem.
  - destruct Hb as [[-> ->]| ->], Ha as [[-> ->]| ->]; cbn [app]; fall.
Qed.

(** The last segment below [p] touches it, or all of them keep away from it. *)
Definition touches (o : option space_seg) (f : space_seg -> Z) (p : Z) : bool :=
  match o with Some b => f b =? p | None => false end.

Lemma before_cases l p :
  segs_wf l -> Forall (fun s => ss_end s <= p) l ->
  (touches (last l) ss_end p = false /\ Forall (fun s => ss_end s < p) l) \/
  (exists k lo, l = k ++ [Seg lo p] /\ touches (last l) ss_end p = true /\ lo < p /\
     Forall (fun s => ss_end s < lo) k).
Proof.
  intros Hwf HF. destruct (touches (last l) ss_end p) eqn:E; [right|left].
  - destruct l as [|[lo q] k _] using rev_ind; [done|]. rewrite last_snoc in E. cbn in E. b2p. subst q.
    apply wf_app in Hwf as (_ & [Hb _]%wf_cons & Hg). exists k, lo. split_and!; [done|done|done|].
    apply List.Forall_forall. intros x Hx. apply (Hg x (Seg lo p) Hx (or_introl eq_refl)).
  - split; [done|]. apply strict_before; [done|done|]. intros b Hb. rewrite Hb in E. cbn in E. by b2p.
Qed.

Lemma after_cases l p :
  segs_wf l -> Forall (fun s => p <= ss_start s) l ->
  (touches (head l) ss_start p = false /\ Forall (fun s => p < ss_start s) l) \/
  (exists k hi, l = Seg p hi :: k /\ touches (head l) ss_start p = true /\ p < hi /\
     Forall (fun s => hi < ss_start s) k).
Proof.
  intros Hwf HF. destruct (touches (head l) ss_start p) eqn:E; [right|left].
  - destruct l as [|[q hi] k]; [done|]. cbn in E. b2p. subst q.
    apply wf_cons in Hwf as (Hb & _ & Hg). exists k, hi. split_and!; [done|done|done|].
    apply List.Forall_forall. intros x Hx. apply (Hg x Hx).
  - split; [done|]. apply strict_after; [done|done|]. intros b Hb. rewrite Hb in E. cbn in E. by b2p.
Qed.

(** The tree work of [space_map_add] between the neighbours [l1] and [l2]. *)
Definition add_tree (sm : space_map) (start en : Z) (wher : ot_index space_seg) : outcome (ot space_seg) :=
  let ss_before := ot_nearest (sm_root sm) wher false in
  let ss_after := ot_nearest (sm_root sm) wher true in
  let merge_before := match ss_before with Some b => ss_end b =? start | None => false end in
  let merge_after := match ss_after with Some a => ss_start a =? en | None => false end in
  match ss_before, ss_after, merge_before, merge_after with
  | Some b, Some a, true, true =>
      t ← ot_remove (sm_root sm) b;
      Ok (ot_update t a (Seg (ss_start b) (ss_end a)))
  | Some b, _, true, _ => Ok (ot_update (sm_root sm) b (Seg (ss_start b) en))
  | _, Some a, _, true => Ok (ot_update (sm_root sm) a (Seg start (ss_end a)))
  | _, _, _, _ => ot_insert (sm_root sm) (Seg start en) wher
  end.

Lemma add_tree_spec sm start en wher l1 l2 :
  ot_ok (sm_root sm) -> segs sm = l1 ++ l2 -> segs_wf (l1 ++ l2) -> start < en ->
  Forall (fun s => ss_end s <= start) l1 -> Forall (fun s => en <= ss_start s) l2 ->
  ot_nearest (sm_root sm) wher false = last l1 -> ot_nearest (sm_root sm) wher true = head l2 ->
  (forall x, exists t', ot_insert (sm_root sm) x wher = Ok t' /\ ot_ok t' /\
     ot_elems t' = l1 ++ x :: l2) ->
  exists t, add_tree sm start en wher = Ok t /\ ot_ok t /\ added (l1 ++ l2) start en (ot_elems t).
Proof.
  intros Hok Hs Hwf Hlt P1 P2 N1 N2 Hins. unfold add_tree. rewrite N1, N2. clear N1 N2.
  fold (touches (last l1) ss_end start). fold (touches (head l2) ss_start en).
  pose proof (wf_NoDup _ Hwf) as Hnd. unfold segs in Hs. rewrite <- Hs in Hnd.
  pose proof Hwf as (W1 & W2 & W12)%wf_app.
  destruct (before_cases l1 start W1 P1) as [[-> Q1]|(k1 & lo & -> & -> & Hlo & Q1)];
    destruct (after_cases l2 en W2 P2) as [[-> Q2]|(k2 & hi & -> & -> & Hhi & Q2)];
    rewrite ?last_snoc; cbn [head ss_start ss_end].
  - destruct (Hins (Seg start en)) as (t & E & Ht & He). exists t.
    split_and!; [by destruct (last l1), (head l2)|done|]. rewrite He.
    apply (added_intro l1 [] [] l2); auto; lia.
  - rewrite Hs in Hnd. destruct (ot_update_spec _ _ (Seg start hi) _ _ Hok Hs Hnd) as [Ht He].
    eexists. split_and!; [by destruct (last l1)|done|]. rewrite He.
    apply (added_intro l1 [] [_] k2); auto; lia.
  - rewrite <- app_assoc in Hs. rewrite Hs in Hnd.
    destruct (ot_update_spec _ _ (Seg lo en) _ _ Hok Hs Hnd) as [Ht He].
    eexists. split_and!; [by destruct (head l2)|done|]. rewrite He, <- app_assoc.
    apply (added_intro k1 [_] [] l2); auto; [|lia..]. by rewrite <- app_assoc in Hwf.
  - rewrite <- app_assoc in Hs. rewrite Hs in Hnd.
    destruct (ot_remove_spec _ _ _ _ Hok Hs Hnd) as (t & -> & Ht & He). run.
    assert (List.NoDup (k1 ++ Seg en hi :: k2)) as Hnd' by (by apply NoDup_remove_1 in Hnd).
    destruct (ot_update_spec _ _ (Seg lo hi) _ _ Ht He Hnd') as [Ht' He'].
    eexists. split_and!; [done|done|]. rewrite He', <- app_assoc.
    apply (added_intro k1 [_] [_] k2); auto; [|lia..]. by rewrite <- app_assoc in Hwf.
Qed.

(** [sm'] is a map of the same region as [sm]. *)
Definition same_region (sm sm' : space_map) : Prop :=
  sm_start sm' = sm_start sm /\ sm_size sm' = sm_size sm /\ sm_shift sm' = sm_shift sm /\
  sm_loaded sm' = sm_loaded sm /\ sm_loading sm' = sm_loading sm /\ sm_ops sm' = sm_ops sm /\
  sm_ppd sm' = sm_ppd sm.

Lemma same_region_set sm t sp : same_region sm (set_root sm t sp).
Proof. done. Qed.
Lemma same_region_refl sm : same_region sm sm.
Proof. done. Qed.
Lemma same_region_trans a b c : same_region a b -> same_region b c -> same_region a c.
Proof. unfold same_region. intuition congruence. Qed.

(** The range [start, start + size) is one the map may hold. *)
Definition range_ok (sm : space_map) (start size : Z) : Prop :=
  0 < size /\ sm_start sm <= start /\ start + size <= sm_start sm + sm_size sm /\
  aligned sm start /\ aligned sm size.

Lemma aligned_add sm a b : aligned sm a -> aligned sm b -> aligned sm (a + b).
Proof. unfold aligned. intros Ha Hb. by rewrite Zplus_mod, Ha, Hb. Qed.

Lemma range_ok_region sm sm' start size :
  same_region sm sm' -> range_ok sm start size -> range_ok sm' start size.
Proof. unfold same_region, range_ok, aligned. intros (-> & -> & -> & _). done. Qed.

(** The guards every operation starts with hold of such a range. *)
Lemma range_guards sm start size :
  sm_ok sm -> range_ok sm start size ->
  u64 (start + size) = start + size /\ negb (size =? 0) = true /\
  (P2PHASE start (Z.shiftl 1 (sm_shift sm)) =? 0) = true /\
  (P2PHASE size (Z.shiftl 1 (sm_shift sm)) =? 0) = true /\
  u64 (sm_start sm + sm_size sm) = sm_start sm + sm_size sm.
Proof.
  intros [] (R1 & R2 & R3 & R4 & R5). unfold aligned in *.
  rewrite !P2PHASE_mod by lia. rewrite R4, R5. split_and!; [apply wrap_small; lia|lia|done|done|apply wrap_small; lia].
Qed.

Lemma bounds_pair sm l :
  Forall (fun s => sm_start sm <= ss_start s /\ ss_end s <= sm_start sm + sm_size sm) l -> segs_wf l ->
  Forall (fun s => sm_start sm <= ss_start s <= sm_start sm + sm_size sm /\
                   sm_start sm <= ss_end s <= sm_start sm + sm_size sm) l.
Proof.
  intros H [_ Hne]. rewrite List.Forall_forall in *. intros s Hs.
  specialize (H s Hs). specialize (Hne s Hs). cbn in *. lia.
Qed.

(** The search for a range that meets no segment. *)
Lemma find_free sm start en :
  sm_ok sm -> start < en -> (forall x, start <= x < en -> ~ member (segs sm) x) ->
  exists l1 l2 wher, segs sm = l1 ++ l2 /\
    ot_find (space_map_seg_compare (Seg start en)) (sm_root sm) = inr wher /\
    Forall (fun s => ss_end s <= start) l1 /\ Forall (fun s => en <= ss_start s) l2 /\
    ot_nearest (sm_root sm) wher false = last l1 /\ ot_nearest (sm_root sm) wher true = head l2 /\
    (forall x, exists t', ot_insert (sm_root sm) x wher = Ok t' /\ ot_ok t' /\
       ot_elems t' = l1 ++ x :: l2).
Proof.
  intros Hok Hlt Hfree. destruct (partition (segs sm) start en (ok_wf _ Hok) Hlt) as (l1 & m & l2 & E & P1 & P2 & P3).
  pose proof (ok_wf _ Hok) as Hwf. rewrite E in Hwf.
  destruct m as [|s m].
  - destruct (ot_find_none (sm_root sm) (space_map_seg_compare (Seg start en)) l1 l2 (ok_tree _ Hok) E)
      as (i & F & N1 & N2 & Hins); [|by exists l1, l2, i].
    apply probe_split; [done|lia|done|done|]. by rewrite Z.max_l by lia.
  - exfalso. inversion_clear P2 as [|? ? Hs _]. apply (Hfree (Z.max start (ss_start s))); [lia|].
    exists s. rewrite E, !in_app_iff. apply wf_app in Hwf as (_ & (Hs' & _)%wf_cons & _).
    split; [right; left; by left|lia].
Qed.

(** Adding a free range succeeds, keeps the invariant, and is set union. *)
Lemma add_free sm start size :
  sm_ok sm -> range_ok sm start size ->
  (forall x, start <= x < start + size -> ~ member (segs sm) x) ->
  exists sm', space_map_add sm start size = Ok sm' /\ sm_ok sm' /\ same_region sm sm' /\
    sm_space sm' = sm_space sm + size /\
    (forall x, member (segs sm') x <-> member (segs sm) x \/ start <= x < start + size).
Proof.
  intros Hok Hr Hfree. destruct (range_guards _ _ _ Hok Hr) as (Ee & G1 & G2 & G3 & G4).
  pose proof Hr as (R1 & R2 & R3 & R4 & R5).
  destruct (find_free sm start (start + size) Hok ltac:(lia) Hfree)
    as (l1 & l2 & wher & E & F & P1 & P2 & N1 & N2 & Hins).
  pose proof (ok_wf _ Hok) as Hwf. rewrite E in Hwf.
  destruct (add_tree_spec sm start (start + size) wher l1 l2 (ok_tree _ Hok) E Hwf ltac:(lia) P1 P2 N1 N2 Hins)
    as (t & Et & Ht & (k1 & lo & hi & k2 & El & W1 & W2 & Hlt & Q1 & Q2 & Htot & Hmem & Hall)).
  rewrite <- E in Htot, Hmem, Hall.
  assert (segs_wf (ot_elems t)) as Hwf' by (rewrite El; by apply wf_mid).
  pose proof (Hall (fun z => sm_start sm <= z <= sm_start sm + sm_size sm)
    (bounds_pair _ _ (ok_bounds _ Hok) (ok_wf _ Hok)) ltac:(cbn; lia) ltac:(cbn; lia)) as Hb.
  assert (Forall (fun s => sm_start sm <= ss_start s /\ ss_end s <= sm_start sm + sm_size sm) (ot_elems t)) as Hb'.
  { rewrite List.Forall_forall in *. intros s Hs. specialize (Hb s Hs). cbn in Hb. lia. }
  pose proof (Hall _ (ok_align _ Hok) R4 (aligned_add _ _ _ R4 R5)) as Ha.
  destruct (total_fits sm _ Hok Hwf' Hb') as [Eu Hle].
  assert (sm_space sm + size = total (ot_elems t)) as Esp by (rewrite (ok_space _ Hok), Htot; lia).
  exists (set_root sm t (total (ot_elems t))).
  split_and!; [|by apply sm_ok_set|done|cbn; lia|done].
  unfold space_map_add. cbn zeta. rewrite Ee, G1, G2, G3, G4, Esp, Eu.
  rewrite !(proj2 (Z.leb_le _ _)) by lia. cbn [verify]. run. rewrite F.
  change (add_tree sm start (start + size) wher ≫= (fun t0 => Ok (set_root sm t0 (total (ot_elems t)))) = Ok (set_root sm t (total (ot_elems t)))).
  by rewrite Et.
Qed.

(** ** Finding, removing *)

Lemma find_inl sm start en ss :
  sm_ok sm -> start < en ->
  ot_find (space_map_seg_compare (Seg start en)) (sm_root sm) = inl ss ->
  In ss (segs sm) /\ ss_start ss < en /\ start < ss_end ss.
Proof.
  intros Hok Hlt F. destruct (partition (segs sm) start en (ok_wf _ Hok) Hlt) as (l1 & m & l2 & E & P1 & P2 & P3).
  pose proof (ok_wf _ Hok) as Hwf. rewrite E in Hwf.
  assert (cmp_split (space_map_seg_compare (Seg start en)) l1 m l2) as Hsp.
  { apply probe_split; [done|lia|done|..]; by rewrite Z.max_l by lia. }
  destruct (decide (m = [])) as [->|Hm].
  - destruct (ot_find_none (sm_root sm) _ l1 l2 (ok_tree _ Hok) E Hsp) as (i & F' & _). congruence.
  - destruct (ot_find_some (sm_root sm) _ l1 m l2 (ok_tree _ Hok) E Hsp Hm) as (x & F' & Hx).
    assert (ss = x) as -> by congruence. rewrite E, !in_app_iff.
    rewrite List.Forall_forall in P2. specialize (P2 x Hx). tauto.
Qed.

(** A range all of whose offsets are in the set lies within one segment. *)
Lemma covering l lo hi :
  segs_wf l -> lo < hi -> (forall x, lo <= x < hi -> member l x) ->
  exists l1 s l2, l = l1 ++ s :: l2 /\ ss_start s <= lo /\ hi <= ss_end s.
Proof.
  intros Hwf Hlt Hm. destruct (Hm lo) as (s & Hs & Hr); [lia|].
  apply in_split in Hs as (l1 & l2 & ->). exists l1, s, l2. split_and!; [done|lia|].
  destruct (decide (hi <= ss_end s)); [done|exfalso].
  destruct (Hm (ss_end s)) as (t & Ht & Hrt); [lia|].
  apply wf_app in Hwf as (_ & (Hs & _ & Hg2)%wf_cons & Hg1).
  apply in_app_iff in Ht as [Ht|[->|Ht]]; [specialize (Hg1 t s Ht (or_introl eq_refl))|lia|specialize (Hg2 t Ht)];
    unfold gap in *; lia.
Qed.

Lemma find_covered sm start en :
  sm_ok sm -> start < en -> (forall x, start <= x < en -> member (segs sm) x) ->
  exists l1 s l2, segs sm = l1 ++ s :: l2 /\ ss_start s <= start /\ en <= ss_end s /\
    ot_find (space_map_seg_compare (Seg start en)) (sm_root sm) = inl s.
Proof.
  intros Hok Hlt Hm. pose proof (ok_wf _ Hok) as Hwf.
  destruct (covering _ _ _ Hwf Hlt Hm) as (l1 & s & l2 & E & H1 & H2).
  exists l1, s, l2. split_and!; [done|done|done|]. rewrite E in Hwf.
  destruct (ot_find_some (sm_root sm) (space_map_seg_compare (Seg start en)) l1 [s] l2 (ok_tree _ Hok) E)
    as (x & F & [->|[]]); [|done|done].
  pose proof Hwf as (_ & (_ & _ & Hg2)%wf_cons & Hg1)%wf_app.
  apply probe_split; [done|lia|..]; rewrite ?Z.max_l by lia; try (apply List.Forall_forall; intros y Hy).
  - specialize (Hg1 y s Hy (or_introl eq_refl)). red in Hg1. lia.
  - destruct Hy as [->|[]]. lia.
  - specialize (Hg2 y Hy). red in Hg2. lia.
Qed.

(** What is left of a segment when [start, en) is cut out of it. *)
Definition rest (s : space_seg) (start en : Z) : list space_seg :=
  (if negb (ss_start s =? start) then [Seg (ss_start s) start] else []) ++
  (if negb (ss_end s =? en) then [Seg en (ss_end s)] else []).

Definition remove_tree (sm : space_map) (ss : space_seg) (start en : Z) : outcome (ot space_seg) :=
  let left_over := negb (ss_start ss =? start) in
  let right_over := negb (ss_end ss =? en) in
  if left_over && right_over then
    let newseg := Seg en (ss_end ss) in
    let ss' := Seg (ss_start ss) start in
    ot_insert_here (ot_update (sm_root sm) ss ss') newseg ss' true
  else if left_over then Ok (ot_update (sm_root sm) ss (Seg (ss_start ss) start))
  else if right_over then Ok (ot_update (sm_root sm) ss (Seg en (ss_end ss)))
  else ot_remove (sm_root sm) ss.

Lemma wf_rest l1 s l2 start en :
  segs_wf (l1 ++ s :: l2) -> ss_start s <= start < en -> en <= ss_end s ->
  segs_wf (l1 ++ rest s start en ++ l2).
Proof.
  intros Hwf H1 H2. pose proof Hwf as (W1 & (W2 & W3 & Hg2)%wf_cons & Hg1)%wf_app.
  assert (forall x, In x l1 -> ss_end x < ss_start s) as G1 by (intros x Hx; apply (Hg1 x s Hx); by left).
  assert (forall x, In x l2 -> ss_end s < ss_start x) as G2 by (intros x Hx; apply (Hg2 x Hx)).
  assert (segs_wf (rest s start en) /\
          forall x, In x (rest s start en) -> ss_start s <= ss_start x /\ ss_end x <= ss_end s) as [Wr Hr].
  { unfold rest. destruct (Z.eqb_spec (ss_start s) start), (Z.eqb_spec (ss_end s) en); cbn [negb app].
    all: rewrite ?wf_cons; unfold gap; cbn; split.
    all: try (split_and!; try lia; try (intros ? [<-|[]]; cbn; lia); try done; repeat constructor).
    all: intros x Hx; repeat destruct Hx as [<-|Hx]; cbn; try lia; done. }
  apply wf_app. split_and!; [done| |].
  - apply wf_app. split_and!; [done|done|]. intros x y Hx Hy. specialize (Hr x Hx). specialize (G2 y Hy). red. lia.
  - intros x y Hx [Hy|Hy]%in_app_iff.
    + specialize (Hr y Hy). specialize (G1 x Hx). red. lia.
    + specialize (G1 x Hx). specialize (G2 y Hy). red. lia.
Qed.

Lemma remove_tree_spec sm s start en l1 l2 :
  ot_ok (sm_root sm) -> segs sm = l1 ++ s :: l2 -> segs_wf (l1 ++ s :: l2) ->
  ss_start s <= start < en -> en <= ss_end s ->
  exists t, remove_tree sm s start en = Ok t /\ ot_ok t /\ ot_elems t = l1 ++ rest s start en ++ l2.
Proof.
  intros Hok Hs Hwf H1 H2. pose proof (wf_NoDup _ Hwf) as Hnd. unfold segs in Hs.
  unfold remove_tree, rest. pose proof (wf_rest _ _ _ start en Hwf H1 H2) as Hr. unfold rest in Hr.
  destruct (Z.eqb_spec (ss_start s) start), (Z.eqb_spec (ss_end s) en); cbn [negb andb app] in *.
  - apply (ot_remove_spec _ _ _ _ Hok Hs Hnd).
  - destruct (ot_update_spec _ _ (Seg en (ss_end s)) _ _ Hok Hs Hnd). eauto.
  - destruct (ot_update_spec _ _ (Seg (ss_start s) start) _ _ Hok Hs Hnd). eauto.
  - destruct (ot_update_spec _ _ (Seg (ss_start s) start) _ _ Hok Hs Hnd) as [Ht He].
    apply ot_insert_here_after; [done|done|]. apply wf_NoDup in Hr.
    change (l1 ++ Seg (ss_start s) start :: Seg en (ss_end s) :: l2)
      with (l1 ++ [Seg (ss_start s) start] ++ Seg en (ss_end s) :: l2) in Hr.
    rewrite app_assoc in Hr. apply NoDup_remove_1 in Hr. by rewrite <- app_assoc in Hr.
Qed.

Lemma rest_spec s start en :
  ss_start s <= start < en -> en <= ss_end s ->
  total (rest s start en) = (ss_end s - ss_start s) - (en - start) /\
  (forall x, member (rest s start en) x <-> ss_start s <= x < ss_end s /\ ~ start <= x < en) /\
  (forall P : Z -> Prop, P (ss_start s) -> P (ss_end s) -> P start -> P en ->
     Forall (fun s => P (ss_start s) /\ P (ss_end s)) (rest s start en)).
Proof.
  intros H1 H2. unfold rest.
  destruct (Z.eqb_spec (ss_start s) start), (Z.eqb_spec (ss_end s) en); cbn [negb app total ss_start ss_end].
  all: split_and!; [lia| |by repeat constructor].
  all: intros x; rewrite ?member_cons; cbn; pose proof (member_nil x); intuition lia.
Qed.

(** Removing a range of the set succeeds, keeps the invariant, and is set
    difference; exactly one segment changes. *)
Lemma remove_covered sm start size :
  sm_ok sm -> range_ok sm start size ->
  (forall x, start <= x < start + size -> member (segs sm) x) ->
  exists sm', space_map_remove sm start size = Ok sm' /\ sm_ok sm' /\ same_region sm sm' /\
    sm_space sm' = sm_space sm - size /\
    (forall x, member (segs sm') x <-> member (segs sm) x /\ ~ start <= x < start + size) /\
    exists l1 s l2, segs sm = l1 ++ s :: l2 /\ ss_start s <= start /\ start + size <= ss_end s /\
      segs sm' = l1 ++ rest s start (start + size) ++ l2.
Proof.
  intros Hok Hr Hcov. destruct (range_guards _ _ _ Hok Hr) as (Ee & G1 & G2 & G3 & _).
  pose proof Hr as (R1 & R2 & R3 & R4 & R5).
  destruct (find_covered sm start (start + size) Hok ltac:(lia) Hcov) as (l1 & s & l2 & E & H1 & H2 & F).
  pose proof (ok_wf _ Hok) as Hwf. rewrite E in Hwf.
  destruct (remove_tree_spec sm s start (start + size) l1 l2 (ok_tree _ Hok) E Hwf ltac:(lia) H2)
    as (t & Et & Ht & El).
  pose proof (wf_rest _ _ _ start (start + size) Hwf ltac:(lia) H2) as Hwf'.
  destruct (rest_spec s start (start + size) ltac:(lia) H2) as (Htot & Hmem & Hall).
  pose proof (ok_bounds _ Hok) as Hb. pose proof (ok_align _ Hok) as Ha. rewrite E in Hb, Ha.
  rewrite List.Forall_app, List.Forall_cons_iff in Hb, Ha.
  destruct Hb as (B1 & B2 & B3), Ha as (A1 & A2 & A3).
  assert (Forall (fun s => sm_start sm <= ss_start s /\ ss_end s <= sm_start sm + sm_size sm) (ot_elems t)) as Hb'.
  { rewrite El, !List.Forall_app. split_and!; [done| |done].
    eapply List.Forall_impl; [|apply (Hall (fun z => sm_start sm <= z <= sm_start sm + sm_size sm)); lia].
    cbn. intros a Ha. lia. }
  assert (total (ot_elems t) = sm_space sm - size) as Esp.
  { rewrite (ok_space _ Hok), E, El, !total_app, Htot. cbn. lia. }
  assert (segs_wf (ot_elems t)) as Hwt by (by rewrite El).
  destruct (total_fits sm _ Hok Hwt Hb') as [Eu Hle].
  exists (set_root sm t (total (ot_elems t))). split_and!; [|apply sm_ok_set; auto|done|done| |].
  - unfold space_map_remove. cbn zeta. rewrite Ee, G1, G2, G3. cbn [verify]. run. rewrite F.
    rewrite <- Esp, Eu, !(proj2 (Z.leb_le _ _)) by lia. cbn [verify]. run.
    change (remove_tree sm s start (start + size) ≫= (fun t0 => Ok (set_root sm t0 (total (ot_elems t)))) =
            Ok (set_root sm t (total (ot_elems t)))). by rewrite Et.
  - rewrite El, !List.Forall_app. split_and!; [done| |done].
    apply Hall; try tauto. by apply aligned_add.
  - intros x. unfold segs at 1. cbn [sm_root set_root]. rewrite El, E, !member_app, member_cons, Hmem.
    apply wf_app in Hwf as (_ & (_ & _ & Hg2)%wf_cons & Hg1).
    assert (member l1 x -> ~ start <= x < start + size).
    { intros (y & Hy & Hx) Hc. specialize (Hg1 y s Hy (or_introl eq_refl)). red in Hg1. lia. }
    assert (member l2 x -> ~ start <= x < start + size).
    { intros (y & Hy & Hx) Hc. specialize (Hg2 y Hy). red in Hg2. lia. }
    tauto.
  - by exists l1, s, l2.
Qed.

(** ** Sequences in the invariant are canonical *)

Lemma member_head s l x : segs_wf (s :: l) -> member (s :: l) x -> ss_start s <= x.
Proof.
  intros (H1 & H2 & H3)%wf_cons [Hx|(t & Ht & Hx)]%member_cons; [lia|].
  specialize (H3 t Ht). red in H3. lia.
Qed.

Lemma head_end_le s l s' l' :
  segs_wf (s :: l) -> segs_wf (s' :: l') -> ss_start s = ss_start s' ->
  (forall x, member (s :: l) x -> member (s' :: l') x) -> ss_end s <= ss_end s'.
Proof.
  intros W W' Es Hm. destruct (decide (ss_end s <= ss_end s')); [done|exfalso].
  apply wf_cons in W as (H1 & _ & _). apply wf_cons in W' as (H1' & H2' & H3').
  specialize (Hm (ss_end s')). rewrite !member_cons in Hm.
  destruct Hm as [?|(t & Ht & Hx)]; [left; lia|lia|]. specialize (H3' t Ht). red in H3'. lia.
Qed.

Lemma canonical l l' :
  segs_wf l -> segs_wf l' -> (forall x, member l x <-> member l' x) -> l = l'.
Proof.
  revert l'. induction l as [|s l IH]; intros [|s' l'] W W' Hm; [done|..].
  1,2: exfalso.
  - apply wf_cons in W' as (H1 & _). apply (member_nil (ss_start s')). apply Hm. rewrite member_cons. lia.
  - apply wf_cons in W as (H1 & _). apply (member_nil (ss_start s)). apply Hm. rewrite member_cons. lia.
  - pose proof W as (H1 & H2 & H3)%wf_cons. pose proof W' as (H1' & H2' & H3')%wf_cons.
    assert (ss_start s = ss_start s') as Es.
    { apply Z.le_antisymm.
      - apply (member_head s l); [done|]. apply Hm, member_cons. lia.
      - apply (member_head s' l'); [done|]. apply Hm, member_cons. lia. }
    assert (ss_end s = ss_end s') as Ee.
    { apply Z.le_antisymm; eapply head_end_le; eauto; intros x; apply Hm. }
    destruct s as [a b], s' as [a' b']. cbn in Es, Ee. subst. f_equal. apply IH; [done|done|].
    intros x. specialize (Hm x). rewrite !member_cons in Hm.
    split; intros (t & Ht & Hx).
    + specialize (H3 t Ht). red in H3. cbn in *.
      destruct (proj1 Hm) as [?|?]; [right; by exists t|lia|done].
    + specialize (H3' t Ht). red in H3'. cbn in *.
      destruct (proj2 Hm) as [?|?]; [right; by exists t|lia|done].
Qed.

(** ** Excising *)

Lemma unique_cover l s s' x :
  segs_wf l -> In s l -> In s' l -> ss_start s <= x < ss_end s -> ss_start s' <= x < ss_end s' -> s = s'.
Proof.
  intros Hwf Hs Hs' H1 H2. apply in_split in Hs as (l1 & l2 & ->).
  apply wf_app in Hwf as (_ & (_ & _ & Hg2)%wf_cons & Hg1).
  apply in_app_iff in Hs' as [Hs'|[->|Hs']]; [specialize (Hg1 s' s Hs' (or_introl eq_refl))|done|specialize (Hg2 s' Hs')];
    unfold gap in *; lia.
Qed.

(** The search [space_map_excise] does: the first segment that ends beyond [start]. *)
Definition excise_find (sm : space_map) (start : Z) : option space_seg :=
  match ot_find (space_map_seg_compare (Seg start start)) (sm_root sm) with
  | inl ss => Some ss
  | inr wher => ot_nearest (sm_root sm) wher true
  end.

Lemma excise_find_spec sm start :
  sm_ok sm -> exists l1 l2, segs sm = l1 ++ l2 /\ Forall (fun s => ss_end s <= start) l1 /\
    Forall (fun s => start < ss_end s) l2 /\ excise_find sm start = head l2.
Proof.
  intros Hok. pose proof (ok_wf _ Hok) as Hwf.
  destruct (partition (segs sm) start (start + 1) Hwf ltac:(lia)) as (l1 & m & l2 & E & P1 & P2 & P3).
  rewrite E in Hwf. assert (Forall (fun s => start < ss_end s) l2) as P3'.
  { rewrite List.Forall_forall in *. intros s Hs. specialize (P3 s Hs).
    assert (ss_start s < ss_end s); [|lia]. destruct Hwf as [_ Hne]. rewrite List.Forall_forall in Hne.
    apply Hne. rewrite !in_app_iff. tauto. }
  assert (cmp_split (space_map_seg_compare (Seg start start)) l1 m l2) as Hsp.
  { apply probe_split; [done|lia|done|..]; by rewrite Z.max_r by lia. }
  exists l1, (m ++ l2). unfold excise_find. split_and!; [done|done| |].
  - apply List.Forall_app. split; [|done]. eapply List.Forall_impl; [|exact P2]. cbn. lia.
  - destruct m as [|s m].
    + destruct (ot_find_none (sm_root sm) _ l1 l2 (ok_tree _ Hok) E Hsp) as (i & -> & _ & N & _). done.
    + destruct (ot_find_some (sm_root sm) _ l1 (s :: m) l2 (ok_tree _ Hok) E Hsp ltac:(done)) as (x & -> & Hx).
      cbn. f_equal. rewrite List.Forall_forall in P2.
      pose proof (P2 x Hx). pose proof (P2 s (or_introl eq_refl)).
      apply (unique_cover _ x s start Hwf); [..|lia|lia]; rewrite !in_app_iff; [tauto|cbn; tauto].
Qed.

Definition overlaps (start en : Z) (s : space_seg) : bool := (start <? ss_end s) && (ss_start s <? en).

Lemma filter_none {A} (f : A -> bool) l : (forall x, In x l -> f x = false) -> List.filter f l = [].
Proof. intros H. induction l as [|a l IH]; [done|]. cbn. rewrite H by (by left). apply IH. intros. apply H. by right. Qed.

Lemma rest_overlaps s start en :
  ss_start s < en -> start < ss_end s ->
  List.filter (overlaps start en) (rest s (Z.max (ss_start s) start) (Z.min (ss_end s) en)) = [].
Proof.
  intros H1 H2. apply filter_none. intros x. unfold rest, overlaps.
  destruct (Z.eqb_spec (ss_start s) (Z.max (ss_start s) start)), (Z.eqb_spec (ss_end s) (Z.min (ss_end s) en));
    cbn [negb app]; intros Hx; repeat destruct Hx as [<-|Hx]; try done;
    cbn [ss_start ss_end]; apply andb_false_iff; lia.
Qed.

Lemma aligned_sub sm a b : aligned sm a -> aligned sm b -> aligned sm (a - b).
Proof. unfold aligned. intros Ha Hb. by rewrite Zminus_mod, Ha, Hb. Qed.

(** Cutting the part of a segment that lies in [start, en). *)
Lemma excise_step sm start en s :
  sm_ok sm -> In s (segs sm) -> start < en -> aligned sm start -> aligned sm en ->
  ss_start s < en -> start < ss_end s ->
  exists sm', space_map_remove sm (Z.max (ss_start s) start)
                (u64 (Z.min (ss_end s) en - Z.max (ss_start s) start)) = Ok sm' /\
    sm_ok sm' /\ same_region sm sm' /\
    (forall x, member (segs sm') x <-> member (segs sm) x /\ ~ Z.max (ss_start s) start <= x < Z.min (ss_end s) en) /\
    (length (List.filter (overlaps start en) (segs sm')) < length (List.filter (overlaps start en) (segs sm)))%nat.
Proof.
  intros Hok Hin Hlt As Ae H1 H2. pose proof (ok_wf _ Hok) as Hwf.
  pose proof (ok_bounds _ Hok) as Hb. pose proof (ok_align _ Hok) as Ha. pose proof Hwf as [_ Hne].
  rewrite List.Forall_forall in Hb, Ha, Hne. specialize (Hb s Hin). specialize (Ha s Hin). specialize (Hne s Hin).
  cbn in Hne. pose proof (ok_range _ Hok) as Hrg.
  set (a := Z.max (ss_start s) start) in *. set (b := Z.min (ss_end s) en) in *.
  assert (aligned sm a /\ aligned sm b) as [Aa Ab].
  { subst a b. destruct (Z.max_spec (ss_start s) start) as [[_ ->]|[_ ->]],
      (Z.min_spec (ss_end s) en) as [[_ ->]|[_ ->]]; tauto. }
  assert (u64 (b - a) = b - a) as -> by (apply wrap_small; lia).
  destruct (remove_covered sm a (b - a) Hok) as (sm' & E & Hok' & Hreg & _ & Hm & l1 & s' & l2 & El & C1 & C2 & El').
  { split_and!; [lia|lia|lia|done|by apply aligned_sub]. }
  { intros x Hx. exists s. split; [done|lia]. }
  replace (a + (b - a)) with b in * by lia.
  assert (s' = s) as ->.
  { apply (unique_cover _ _ _ a Hwf); [rewrite El, in_app_iff; right; by left|done|lia|lia]. }
  exists sm'. split_and!; [done|done|done|done|]. rewrite El, El'.
  rewrite !List.filter_app, !length_app. subst a b. rewrite rest_overlaps by done. cbn [List.filter].
  assert (overlaps start en s = true) as -> by (unfold overlaps; lia). cbn. lia.
Qed.

(** Excising a range is set difference, whether or not the range is in the set. *)
Lemma excise_spec sm start size :
  sm_ok sm -> range_ok sm start size ->
  exists sm', space_map_excise sm start size = Ok sm' /\ sm_ok sm' /\ same_region sm sm' /\
    (forall x, member (segs sm') x <-> member (segs sm) x /\ ~ start <= x < start + size).
Proof.
  intros Hok Hr. destruct (range_guards _ _ _ Hok Hr) as (Ee & _).
  pose proof Hr as (R1 & R2 & R3 & R4 & R5). pose proof (aligned_add _ _ _ R4 R5) as Ae.
  unfold space_map_excise. rewrite Ee. set (en := start + size) in *.
  eapply (iter_total
    (fun sm' => sm_ok sm' /\ same_region sm sm' /\
       (forall x, ~ start <= x < en -> member (segs sm') x <-> member (segs sm) x) /\
       (forall x, member (segs sm') x -> member (segs sm) x))
    _ (fun sm' => length (List.filter (overlaps start en) (segs sm')))).
  2: { split_and!; by try apply same_region_refl. }
  2: { rewrite ot_numnodes_spec, Nat2Z.id by apply Hok. unfold segs.
       pose proof (List.filter_length_le (overlaps start en) (ot_elems (sm_root sm))). lia. }
  intros smi (Hoki & Hreg & Hout & Hsub). fold (excise_find smi start).
  destruct (excise_find_spec smi start Hoki) as (l1 & l2 & El & P1 & P2 & ->).
  assert (forall x, (forall s, In s l2 -> en <= ss_start s) -> member (segs smi) x -> ~ start <= x < en) as Hdone.
  { intros x Hge (s & Hs & Hx) Hc. rewrite El in Hs. rewrite List.Forall_forall in *.
    apply in_app_iff in Hs as [Hs|Hs]; [specialize (P1 s Hs); cbn in P1; lia|specialize (Hge s Hs); lia]. }
  assert ((forall s, In s l2 -> en <= ss_start s) ->
    sm_ok smi /\ same_region sm smi /\
    (forall x, member (segs smi) x <-> member (segs sm) x /\ ~ start <= x < en)) as Hfin.
  { intros Hge. split_and!; [done|done|]. intros x. specialize (Hdone x Hge).
    specialize (Hout x). specialize (Hsub x). tauto. }
  destruct l2 as [|s l2]; cbn [head]; [by apply Hfin; intros|].
  pose proof (ok_wf _ Hoki) as Hwf. rewrite El in Hwf. apply wf_app in Hwf as (_ & (_ & _ & Hg)%wf_cons & _).
  destruct (Z.leb_spec en (ss_start s)).
  { apply Hfin. intros t [<-|Ht]; [done|]. specialize (Hg t Ht). red in Hg.
    pose proof (ok_wf _ Hoki) as [_ Hne]. rewrite El, List.Forall_app, List.Forall_cons_iff in Hne. lia. }
  inversion_clear P2 as [|? ? Hs _]. destruct Hreg as (X1 & X2 & X3 & X4) eqn:EX.
  assert (forall z, aligned sm z -> aligned smi z) as Hal by (unfold aligned; by rewrite X3).
  destruct (excise_step smi start en s Hoki) as (sm' & -> & Hok' & Hreg' & Hm & Hlt); auto; [|lia|].
  { rewrite El, in_app_iff. right. by left. }
  run. split; [|done]. split_and!; [done|by eapply same_region_trans|..]; intros x; rewrite Hm.
  - intros Hx. rewrite Hout by done. intuition lia.
  - intros [? ?]. by apply Hsub.
Qed.

(** ** Walking, vacating, uniting *)

(** The cursor loop visits every segment once, in order. *)
Lemma walk_loop_for {S} (func : S -> Z -> Z -> outcome S) t l1 l2 fuel d :
  ot_elems t = l1 ++ l2 -> List.NoDup (l1 ++ l2) -> (length l2 <= fuel)%nat ->
  walk_loop fuel t func (head l2) d = for_segs func l2 d.
Proof.
  revert l1 fuel d. induction l2 as [|s l2 IH]; intros l1 fuel d E Hnd Hf; [by destruct fuel|].
  destruct fuel as [|fuel]; cbn in Hf; [lia|]. cbn [head walk_loop for_segs].
  destruct (func d (ss_start s) (u64 (ss_end s - ss_start s))) as [d'|e]; run; [|done].
  destruct (ot_walk_spec t s l1 l2 E Hnd) as [_ ->].
  apply (IH (l1 ++ [s])); [by rewrite <- app_assoc|by rewrite <- app_assoc|lia].
Qed.

Lemma walk_for_segs {S} sm (func : S -> Z -> Z -> outcome S) d :
  sm_ok sm -> space_map_walk sm func d = for_segs func (segs sm) d.
Proof.
  intros Hok. unfold space_map_walk. rewrite ot_first_spec, ot_numnodes_spec, Nat2Z.id by apply Hok.
  apply (walk_loop_for func (sm_root sm) []); [done|apply wf_NoDup, (ok_wf _ Hok)|done].
Qed.

(** A fold of successful steps with an invariant. *)
Lemma for_segs_total {S} (I : list space_seg -> S -> Prop) (func : S -> Z -> Z -> outcome S) l d :
  I [] d ->
  (forall done s d, (exists todo, l = done ++ s :: todo) -> I done d ->
     exists d', func d (ss_start s) (u64 (ss_end s - ss_start s)) = Ok d' /\ I (done ++ [s]) d') ->
  exists d', for_segs func l d = Ok d' /\ I l d'.
Proof.
  intros HI Hstep.
  enough (forall todo dn d, l = dn ++ todo -> I dn d -> exists d', for_segs func todo d = Ok d' /\ I l d') as H
    by (by apply (H l [] d)).
  induction todo as [|s todo IH]; intros dn e El He; cbn.
  - rewrite app_nil_r in El. subst. eauto.
  - destruct (Hstep dn s e) as (e' & -> & He'); [eauto|done|]. run.
    apply (IH (dn ++ [s])); [by rewrite <- app_assoc|done].
Qed.

Lemma ok_seg sm s :
  sm_ok sm -> In s (segs sm) ->
  range_ok sm (ss_start s) (ss_end s - ss_start s) /\ u64 (ss_end s - ss_start s) = ss_end s - ss_start s.
Proof.
  intros Hok Hs. destruct Hok as [_ [_ Hne] Hb Ha _ Hr _].
  rewrite List.Forall_forall in *. specialize (Hne s Hs). specialize (Hb s Hs). specialize (Ha s Hs).
  cbn in *. split; [|apply wrap_small; lia].
  split_and!; [lia|lia|lia|tauto|]. apply aligned_sub; tauto.
Qed.

(** [b]'s region and unit are [a]'s. *)
Definition compatible (a b : space_map) : Prop :=
  sm_start a = sm_start b /\ sm_size a = sm_size b /\ sm_shift a = sm_shift b.

Lemma compatible_range a b start size : compatible a b -> range_ok a start size -> range_ok b start size.
Proof. unfold compatible, range_ok, aligned. intros (-> & -> & ->). done. Qed.

Lemma compatible_region a b b' : compatible a b -> same_region b b' -> compatible a b'.
Proof. unfold compatible, same_region. intuition congruence. Qed.

(** Adding the segments of a list, in any order that keeps them disjoint. *)
Lemma add_all sms smd l :
  sm_ok sms -> sm_ok smd -> compatible sms smd -> Permutation l (segs sms) ->
  (forall x, member (segs sms) x -> ~ member (segs smd) x) ->
  exists smd', for_segs space_map_add l smd = Ok smd' /\ sm_ok smd' /\ same_region smd smd' /\
    sm_space smd' = sm_space smd + sm_space sms /\
    (forall x, member (segs smd') x <-> member (segs smd) x \/ member (segs sms) x).
Proof.
  intros Hs Hd Hc Hp Hdis.
  assert (forall x, member l x <-> member (segs sms) x) as Hml.
  { intros x. unfold member. setoid_rewrite (Permutation_in' (eq_refl) Hp). done. }
  assert (total l = total (segs sms)) as Htot.
  { clear -Hp. induction Hp; cbn; lia. }
  rewrite (ok_space _ Hs), <- Htot.
  destruct (for_segs_total
    (fun dn d => sm_ok d /\ same_region smd d /\ sm_space d = sm_space smd + total dn /\
       forall x, member (segs d) x <-> member (segs smd) x \/ member dn x) space_map_add l smd)
    as (smd' & E & I1 & I2 & I3 & I4).
  - split_and!; [done|done|cbn; lia|]. intros x. pose proof (member_nil x). tauto.
  - intros dn s d (todo & El) (I1 & I2 & I3 & I4).
    assert (In s (segs sms)) as Hin by (apply (Permutation_in' (eq_refl s) Hp); rewrite El, in_app_iff; right; by left).
    destruct (ok_seg sms s Hs Hin) as [Hr ->].
    pose proof (range_ok_region _ _ _ _ I2 (compatible_range _ _ _ _ Hc Hr)) as Hr'.
    destruct (add_free d _ _ I1 Hr') as (d' & E & J1 & J2 & J3 & J4).
    + intros x Hx. rewrite I4. intros [Hm|(t & Ht & Hxt)].
      * apply (Hdis x); [|done]. exists s. split; [done|lia].
      * assert (In t (segs sms)) as Hint by (apply (Permutation_in' (eq_refl t) Hp); rewrite El, in_app_iff; by left).
        assert (t = s) as -> by (apply (unique_cover _ _ _ x (ok_wf _ Hs)); [done|done|done|lia]).
        pose proof (wf_NoDup _ (ok_wf _ Hs)) as Hnd.
        apply (Permutation_NoDup (Permutation_sym Hp)) in Hnd. rewrite El in Hnd.
        apply NoDup_remove_2 in Hnd. apply Hnd. rewrite in_app_iff. by left.
    + exists d'. split_and!; [done|done|by eapply same_region_trans| |].
      * rewrite J3, I3, total_app. cbn. lia.
      * intros x. rewrite J4, I4, member_app, member_cons. pose proof (member_nil x).
        replace (ss_start s + (ss_end s - ss_start s)) with (ss_end s) by lia. tauto.
  - exists smd'. split_and!; [done|done|done|done|]. intros x. by rewrite I4, Hml.
Qed.

Lemma union_spec smd sms :
  sm_ok sms -> sm_ok smd -> compatible sms smd ->
  exists smd', space_map_union smd sms = Ok smd' /\ sm_ok smd' /\ same_region smd smd' /\
    (forall x, member (segs smd') x <-> member (segs smd) x \/ member (segs sms) x).
Proof.
  intros Hs Hd Hc. unfold space_map_union. rewrite walk_for_segs by done.
  destruct (for_segs_total
    (fun dn d => sm_ok d /\ same_region smd d /\
       forall x, member (segs d) x <-> member (segs smd) x \/ member dn x)
    (fun smd start size => smd ← space_map_excise smd start size; space_map_add smd start size) (segs sms) smd)
    as (smd' & E & I1 & I2 & I3); [..|by exists smd'].
  - split_and!; [done|done|]. intros x. pose proof (member_nil x). tauto.
  - intros dn s d (todo & El) (I1 & I2 & I3).
    destruct (ok_seg sms s Hs) as [Hr ->]; [rewrite El, in_app_iff; right; by left|].
    pose proof (range_ok_region _ _ _ _ I2 (compatible_range _ _ _ _ Hc Hr)) as Hr'.
    destruct (excise_spec d _ _ I1 Hr') as (d1 & E1 & J1 & J2 & J3).
    destruct (add_free d1 _ _ J1 (range_ok_region _ _ _ _ J2 Hr')) as (d2 & E2 & K1 & K2 & K3 & K4).
    { intros x Hx. rewrite J3. tauto. }
    exists d2. rewrite E1. run. split_and!; [done|done|eauto using same_region_trans|].
    intros x. rewrite K4, J3, I3, member_app, member_cons. pose proof (member_nil x).
    replace (ss_start s + (ss_end s - ss_start s)) with (ss_end s) by lia.
    destruct (decide (ss_start s <= x < ss_end s)); tauto.
Qed.

(** ** Ranges that are neither free nor held *)

Definition is_free (sm : space_map) (start size : Z) : Prop :=
  forall x, start <= x < start + size -> ~ member (segs sm) x.
Definition is_held (sm : space_map) (start size : Z) : Prop :=
  forall x, start <= x < start + size -> member (segs sm) x.

Lemma held_of_seg sm s start size :
  In s (segs sm) -> ss_start s <= start -> start + size <= ss_end s -> is_held sm start size.
Proof. intros Hs H1 H2 x Hx. exists s. split; [done|lia]. Qed.

Lemma find_inr sm start en wher :
  sm_ok sm -> start < en ->
  ot_find (space_map_seg_compare (Seg start en)) (sm_root sm) = inr wher ->
  forall x, start <= x < en -> ~ member (segs sm) x.
Proof.
  intros Hok Hlt F x Hx (s & Hs & Hxs).
  destruct (partition (segs sm) start en (ok_wf _ Hok) Hlt) as (l1 & m & l2 & E & P1 & P2 & P3).
  pose proof (ok_wf _ Hok) as Hwf. rewrite E in Hwf.
  assert (cmp_split (space_map_seg_compare (Seg start en)) l1 m l2) as Hsp.
  { apply probe_split; [done|lia|done|..]; by rewrite Z.max_l by lia. }
  destruct (decide (m = [])) as [->|Hm].
  - rewrite E in Hs. rewrite List.Forall_forall in *.
    apply in_app_iff in Hs as [Hs|Hs]; [specialize (P1 s Hs)|specialize (P3 s Hs)]; cbn in *; lia.
  - destruct (ot_find_some (sm_root sm) _ l1 m l2 (ok_tree _ Hok) E Hsp Hm) as (y & F' & _). congruence.
Qed.

Lemma add_not_free sm start size :
  sm_ok sm -> range_ok sm start size -> ~ is_free sm start size ->
  space_map_add sm start size = Err Panic \/
  (zfs_recover = true /\ is_held sm start size /\ space_map_add sm start size = Ok sm).
Proof.
  intros Hok Hr Hnf. destruct (range_guards _ _ _ Hok Hr) as (Ee & G1 & G2 & G3 & G4).
  pose proof Hr as (R1 & R2 & R3 & R4 & R5).
  unfold space_map_add. cbn zeta. rewrite Ee, G1, G2, G3, G4. rewrite (proj2 (Z.leb_le (sm_start sm) start)), (proj2 (Z.leb_le (start + size) (sm_start sm + sm_size sm))) by lia.
  destruct (Z.leb_spec (u64 (sm_space sm + size)) (sm_size sm)); cbn [verify]; run; [|by left].
  destruct (ot_find _ (sm_root sm)) as [ss|wher] eqn:F.
  - destruct (Z.leb_spec (ss_start ss) start); cbn [andb]; [|by left].
    destruct (Z.leb_spec (start + size) (ss_end ss)); [|by left].
    unfold zfs_panic_recover. destruct zfs_recover; [right|by left].
    destruct (find_inl sm start (start + size) ss Hok ltac:(lia) F) as (Hin & _). split_and!; [done|by eapply held_of_seg|done].
  - exfalso. apply Hnf. intros x. apply (find_inr sm start (start + size) wher Hok ltac:(lia) F).
Qed.

Lemma remove_not_held sm start size :
  sm_ok sm -> range_ok sm start size -> ~ is_held sm start size ->
  space_map_remove sm start size = Err Panic \/
  (zfs_recover = true /\ is_free sm start size /\ space_map_remove sm start size = Ok sm).
Proof.
  intros Hok Hr Hnh. destruct (range_guards _ _ _ Hok Hr) as (Ee & G1 & G2 & G3 & _).
  pose proof Hr as (R1 & R2 & R3 & R4 & R5).
  unfold space_map_remove. cbn zeta. rewrite Ee, G1, G2, G3. cbn [verify]. run.
  destruct (ot_find _ (sm_root sm)) as [ss|wher] eqn:F.
  - destruct (Z.leb_spec (ss_start ss) start); cbn [verify]; run; [|by left].
    destruct (Z.leb_spec (start + size) (ss_end ss)); cbn [verify]; run; [|by left].
    exfalso. destruct (find_inl sm start (start + size) ss Hok ltac:(lia) F) as (Hin & _). apply Hnh. by eapply held_of_seg.
  - unfold zfs_panic_recover. destruct zfs_recover; [right|by left].
    split_and!; [done| |done]. intros x. apply (find_inr sm start (start + size) wher Hok ltac:(lia) F).
Qed.

Lemma contains_spec sm start size :
  sm_ok sm -> range_ok sm start size ->
  exists b, space_map_contains sm start size = Ok b /\ (b = true <-> is_held sm start size).
Proof.
  intros Hok Hr. destruct (range_guards _ _ _ Hok Hr) as (Ee & G1 & G2 & G3 & _).
  pose proof Hr as (R1 & R2 & R3 & R4 & R5).
  unfold space_map_contains. cbn zeta. rewrite Ee, G1, G2, G3. cbn [verify]. run.
  eexists. split; [done|]. split.
  - destruct (ot_find _ (sm_root sm)) as [ss|wher] eqn:F; [|done]. intros H. b2p.
    destruct (find_inl sm start (start + size) ss Hok ltac:(lia) F) as (Hin & _). by eapply held_of_seg.
  - intros Hh. destruct (find_covered sm start (start + size) Hok ltac:(lia) Hh) as (l1 & s & l2 & E & H1 & H2 & ->). lia.
Qed.

(** ** Properties *)

(** C18: on every range the map may hold, [space_map_add] is set union when no
    offset of the range is in the map: it returns, keeps the invariant (ordered,
    disjoint, maximal, aligned segments within the region, [sm_space] their
    total), adds exactly the range and accounts for it.  Otherwise nothing is
    added: the code panics, or, when recovery is on and the whole range is
    there already, leaves the map as it was. *)
Theorem space_map_add_correct (sm : space_map) (start size : Z) :
  sm_ok sm -> range_ok sm start size ->
  (is_free sm start size ->
   exists sm', space_map_add sm start size = Ok sm' /\ sm_ok sm' /\ same_region sm sm' /\
     sm_space sm' = sm_space sm + size /\
     (forall x, member (segs sm') x <-> member (segs sm) x \/ start <= x < start + size)) /\
  (~ is_free sm start size ->
   space_map_add sm start size = Err Panic \/
   (zfs_recover = true /\ is_held sm start size /\ space_map_add sm start size = Ok sm)).
Proof. intros Hok Hr. split; [by apply add_free|by apply add_not_free]. Qed.

(** C19: [space_map_remove] is set difference when the whole range is in the
    map, with the same guarantees; otherwise the code panics, or, when recovery
    is on and no offset of the range is in the map, leaves it as it was. *)
Theorem space_map_remove_correct (sm : space_map) (start size : Z) :
  sm_ok sm -> range_ok sm start size ->
  (is_held sm start size ->
   exists sm', space_map_remove sm start size = Ok sm' /\ sm_ok sm' /\ same_region sm sm' /\
     sm_space sm' = sm_space sm - size /\
     (forall x, member (segs sm') x <-> member (segs sm) x /\ ~ start <= x < start + size)) /\
  (~ is_held sm start size ->
   space_map_remove sm start size = Err Panic \/
   (zfs_recover = true /\ is_free sm start size /\ space_map_remove sm start size = Ok sm)).
Proof.
  intros Hok Hr. split; [|by apply remove_not_held]. intros Hh.
  destruct (remove_covered sm start size Hok Hr Hh) as (sm' & H1 & H2 & H3 & H4 & H5 & _). eauto 6.
Qed.

(** the segments of a map are determined by the set of offsets it holds,
    so allocating a range and freeing it again gives back the same segments and
    the same [sm_space]. *)
Theorem space_map_remove_add_roundtrip (sm : space_map) (start size : Z) :
  sm_ok sm -> range_ok sm start size -> is_held sm start size ->
  exists sm1 sm2, space_map_remove sm start size = Ok sm1 /\ space_map_add sm1 start size = Ok sm2 /\
    segs sm2 = segs sm /\ sm_space sm2 = sm_space sm.
Proof.
  intros Hok Hr Hh. destruct (remove_covered sm start size Hok Hr Hh) as (sm1 & E1 & K1 & R1 & S1 & M1 & _).
  destruct (add_free sm1 start size K1 (range_ok_region _ _ _ _ R1 Hr)) as (sm2 & E2 & K2 & R2 & S2 & M2).
  { intros x Hx. rewrite M1. tauto. }
  exists sm1, sm2. split_and!; [done|done| |lia].
  apply canonical; [apply K2|apply Hok|]. intros x. rewrite M2, M1.
  specialize (Hh x). destruct (decide (start <= x < start + size)); tauto.
Qed.

(** [space_map_excise] removes whatever part of a range is in the map, and
    [space_map_union] gives the union of two maps of the same region, overlapping
    or not; both loops return. *)
Theorem space_map_excise_union_correct (smd sms : space_map) (start size : Z) :
  sm_ok smd -> sm_ok sms -> compatible sms smd -> range_ok smd start size ->
  (exists sm', space_map_excise smd start size = Ok sm' /\ sm_ok sm' /\ same_region smd sm' /\
     (forall x, member (segs sm') x <-> member (segs smd) x /\ ~ start <= x < start + size)) /\
  (exists sm', space_map_union smd sms = Ok sm' /\ sm_ok sm' /\ same_region smd sm' /\
     (forall x, member (segs sm') x <-> member (segs smd) x \/ member (segs sms) x)).
Proof. intros Hd Hs Hc Hr. split; [by apply excise_spec|by apply union_spec]. Qed.

(** [space_map_vacate] into [space_map_add] moves a map into a disjoint one
    of the same region, in whatever order the tree is torn down: the source is
    left empty, the destination holds both sets, and no space is lost. *)
Theorem space_map_vacate_moves (sms smd : space_map) :
  sm_ok sms -> sm_ok smd -> compatible sms smd ->
  (forall x, member (segs sms) x -> ~ member (segs smd) x) ->
  exists sms' smd', space_map_vacate sms space_map_add smd = Ok (sms', smd') /\
    sm_ok sms' /\ segs sms' = [] /\ sm_space sms' = 0 /\
    sm_ok smd' /\ same_region smd smd' /\ sm_space smd' = sm_space smd + sm_space sms /\
    (forall x, member (segs smd') x <-> member (segs smd) x \/ member (segs sms) x).
Proof.
  intros Hs Hd Hc Hdis. unfold space_map_vacate.
  destruct (ot_drain_spec (sm_root sms) (ok_tree _ Hs)) as (l & t & -> & Hp & Ht & Et). run.
  destruct (add_all sms smd l Hs Hd Hc Hp Hdis) as (smd' & -> & J1 & J2 & J3 & J4). run.
  exists (set_root sms t 0), smd'. split_and!; [done| |done|done|done|done|done|done].
  pose proof (sm_ok_set sms t Hs Ht) as H. rewrite Et in H. apply H; [|constructor..].
  by repeat constructor.
Qed.

Lemma create_ok start size shift :
  0 <= start -> 0 <= size -> start + size < 2 ^ 64 -> 0 <= shift < 64 ->
  sm_ok (space_map_create start size shift).
Proof.
  intros. destruct ot_empty_spec as [Ht Et]. split; unfold segs; cbn [sm_root space_map_create sm_space]; rewrite ?Et;
    [done|by split; constructor|constructor|constructor|done|cbn; lia|done].
Qed.
End SpaceMap.

(** ** Concrete maps, kept in AVL trees *)

Import Avl.

Definition ok_or {A} (d : A) (o : outcome A) : A := match o with Ok a => a | Err _ => d end.

Definition ex_empty : space_map := space_map_create 0 65536 9.
(** The first two kilobytes, then four more from 8192. *)
Definition ex_two : space_map :=
  ok_or ex_empty (space_map_add false (ok_or ex_empty (space_map_add false ex_empty 0 2048)) 8192 4096).
Definition ex_other : space_map := ok_or ex_empty (space_map_add false ex_empty 2048 1024).

(** Add a free range of a concrete map, or fail to. *)
Lemma add_ok sm start size :
  sm_ok sm -> range_ok sm start size -> is_free sm start size ->
  sm_ok (ok_or ex_empty (space_map_add false sm start size)).
Proof. intros H1 H2 H3. destruct (add_free false sm start size H1 H2 H3) as (sm' & -> & H & _). done. Qed.

Ltac segs_of sm :=
  let l := eval vm_compute in (segs sm) in replace (segs sm) with l by (vm_compute; reflexivity).
Ltac by_segs sm :=
  let x := fresh "x" in let Hx := fresh "Hx" in intros x Hx; segs_of sm; rewrite ?member_cons; cbn [ss_start ss_end];
  pose proof (member_nil x); lia || tauto || intuition lia.
Ltac range := split_and!; vm_compute; try reflexivity; intros ?; discriminate.

Lemma ex_empty_ok : sm_ok ex_empty.
Proof. apply create_ok; lia. Qed.
Lemma ex_two_ok : sm_ok ex_two.
Proof.
  apply add_ok; [apply add_ok; [apply ex_empty_ok|range|by_segs ex_empty]|range|].
  by_segs (ok_or ex_empty (space_map_add false ex_empty 0 2048)).
Qed.
Lemma ex_other_ok : sm_ok ex_other.
Proof. apply add_ok; [apply ex_empty_ok|range|by_segs ex_empty]. Qed.

Lemma space_map_add_correct_witness :
  exists sm', space_map_add false ex_two 2048 512 = Ok sm' /\ sm_ok sm'.
Proof.
  destruct (space_map_add_correct false ex_two 2048 512) as [H _]; [apply ex_two_ok|range|].
  destruct H as (sm' & E & K & _); [by_segs ex_two|]. exists sm'. split; [exact E|exact K].
Defined.

Lemma space_map_remove_correct_witness :
  exists sm', space_map_remove false ex_two 512 512 = Ok sm' /\ sm_ok sm'.
Proof.
  destruct (space_map_remove_correct false ex_two 512 512) as [H _]; [apply ex_two_ok|range|].
  destruct H as (sm' & E & K & _); [by_segs ex_two|]. exists sm'. split; [exact E|exact K].
Defined.

Lemma space_map_remove_add_roundtrip_witness :
  exists sm1 sm2, space_map_remove false ex_two 8192 512 = Ok sm1 /\ space_map_add false sm1 8192 512 = Ok sm2 /\
    segs sm2 = segs ex_two.
Proof.
  destruct (space_map_remove_add_roundtrip false ex_two 8192 512) as (sm1 & sm2 & E1 & E2 & E3 & _);
    [apply ex_two_ok|range|by_segs ex_two|]. exists sm1, sm2. split_and!; [exact E1|exact E2|exact E3].
Defined.

Lemma space_map_excise_union_correct_witness :
  exists sm', space_map_union false ex_two ex_other = Ok sm' /\ sm_ok sm'.
Proof.
  destruct (space_map_excise_union_correct false ex_two ex_other 1024 8192) as [_ (sm' & E & K & _)];
    [apply ex_two_ok|apply ex_other_ok|split_and!; reflexivity|range|]. exists sm'. split; [exact E|exact K].
Defined.

Lemma space_map_vacate_moves_witness :
  exists sms' smd', space_map_vacate ex_other (space_map_add false) ex_two = Ok (sms', smd') /\ sm_space smd' = 7168.
Proof.
  destruct (space_map_vacate_moves false ex_other ex_two) as (sms' & smd' & E & _ & _ & _ & _ & _ & Es & _);
    [apply ex_other_ok|apply ex_two_ok|split_and!; reflexivity| |].
  - intros x. segs_of ex_other. segs_of ex_two. rewrite !member_cons. cbn [ss_start ss_end].
    pose proof (member_nil x). intuition lia.
  - exists sms', smd'. split; [exact E|]. rewrite Es. vm_compute. reflexivity.
Defined.
End SpaceMap.
