(* ===== verification/SpaceMapDisk.v ===== *)
(** * Space maps on disk and the block pickers: the rest of fs/zfs/space_map.c

    [space_map_load], [space_map_unload], [space_map_sync], [space_map_truncate]
    and the operations that go through the picker's vector ([space_map_alloc],
    [space_map_claim], [space_map_free]).  An object of the DMU is what
    [dmu_read], [dmu_write] and [dmu_free_range] let a client see of it; the class
    [Dmu] says so, and [ram_dmu] is an object set kept in memory.  The log of a
    space map object refines a set of allocated offsets: [replays]. *)

From Stdlib Require Import List Permutation Sorted.
From stdpp Require Import base option numbers list gmap.
From S2P Require Import Prelude OrdTree Avl SpaceMap.
Import SpaceMap.
Local Open Scope Z_scope.

(** ** What the DMU promises to space maps

    An object is a sequence of 64-bit words.  Offsets and sizes are in bytes. *)

Class Dmu := {
  objset : Type;
  dmu_words : objset -> Z -> list Z;
  dmu_read : objset -> Z -> Z -> Z -> option (list Z);
  dmu_write : objset -> Z -> Z -> Z -> list Z -> objset;
  dmu_free_range : objset -> Z -> Z -> Z -> option objset;

  dmu_read_spec os obj i n :
    (i + n <= length (dmu_words os obj))%nat ->
    dmu_read os obj (8 * Z.of_nat i) (8 * Z.of_nat n) = Some (take n (drop i (dmu_words os obj)));
  dmu_write_spec os obj i ws buf :
    (i <= length (dmu_words os obj))%nat -> (length ws <= length buf)%nat -> take (length ws) buf = ws ->
    dmu_words (dmu_write os obj (8 * Z.of_nat i) (8 * zlen ws) buf) obj =
      take i (dmu_words os obj) ++ ws ++ drop (i + length ws) (dmu_words os obj);
  dmu_write_other os obj obj' off size buf :
    obj' <> obj -> dmu_words (dmu_write os obj off size buf) obj' = dmu_words os obj';
  dmu_free_range_spec os obj :
    exists os', dmu_free_range os obj 0 (2 ^ 64 - 1) = Some os' /\ dmu_words os' obj = [] /\
      forall obj', obj' <> obj -> dmu_words os' obj' = dmu_words os obj'
}.

(** Object sets in memory satisfy it. *)
Module RamDmu.
Definition get (os : gmap Z (list Z)) (obj : Z) : list Z := default [] (os !! obj).
Definition write (os : gmap Z (list Z)) (obj off size : Z) (buf : list Z) : gmap Z (list Z) :=
  let ws := get os obj in
  let i := Z.to_nat (off / 8) in let n := Z.to_nat (size / 8) in
  <[obj := take i ws ++ take n buf ++ drop (i + n) ws]> os.

#[export] Instance ram_dmu : Dmu.
Proof.
  refine {|
    objset := gmap Z (list Z);
    dmu_words := get;
    dmu_read os obj off size :=
      Some (take (Z.to_nat (size / 8)) (drop (Z.to_nat (off / 8)) (get os obj)));
    dmu_write := write;
    dmu_free_range os obj off size := Some (delete obj os)
  |}.
  - intros os obj i n _. rewrite !(Z.mul_comm 8), !Z.div_mul, !Nat2Z.id by lia. done.
  - intros os obj i ws buf Hi Hl Ht. unfold write. cbn zeta.
    rewrite !(Z.mul_comm 8), !Z.div_mul, !Nat2Z.id, Ht by lia. unfold get at 1. by rewrite lookup_insert_eq.
  - intros. unfold write, get at 1. by rewrite lookup_insert_ne.
  - intros os obj. eexists. split_and!; [done| |]; unfold get; [by rewrite lookup_delete_eq|].
    intros. by rewrite lookup_delete_ne.
Defined.
End RamDmu.

Module SpaceMapDisk.

(** [space_map_obj_t] *)
Record space_map_obj := Smo { smo_object : Z; smo_objsize : Z; smo_alloc : Z }.

(** ** Entries *)

(** An entry for a run of units, and the entry every sync starts with. *)
Definition entry (start maptype run : Z) : Z :=
  Z.lor (Z.lor (SM_OFFSET_ENCODE start) (SM_TYPE_ENCODE maptype)) (SM_RUN_ENCODE run).
Definition debug_entry (maptype syncpass txg : Z) : Z :=
  Z.lor (Z.lor (Z.lor (SM_DEBUG_ENCODE 1) (SM_DEBUG_ACTION_ENCODE maptype))
           (SM_DEBUG_SYNCPASS_ENCODE syncpass)) (SM_DEBUG_TXG_ENCODE txg).


Lemma BF64_DECODE_mod x low len : 0 <= low -> 0 <= len -> BF64_DECODE x low len = (x / 2 ^ low) `mod` 2 ^ len.
Proof. intros. unfold BF64_DECODE. rewrite P2PHASE_mod by done. by rewrite Z.shiftr_div_pow2. Qed.

Lemma BF64_ENCODE_shift x low len : 0 <= len -> 0 <= x < 2 ^ len -> BF64_ENCODE x low len = Z.shiftl x low.
Proof. intros ? Hx. unfold BF64_ENCODE. rewrite P2PHASE_mod by done. by rewrite Z.mod_small. Qed.

Lemma entry_value start maptype run :
  0 <= start < 2 ^ 47 -> 0 <= maptype < 2 -> 1 <= run <= SM_RUN_MAX ->
  entry start maptype run = start * 2 ^ 16 + maptype * 2 ^ 15 + (run - 1).
Proof.
  intros Hs Ht Hr. change SM_RUN_MAX with 32768 in Hr. unfold entry, SM_OFFSET_ENCODE, SM_TYPE_ENCODE, SM_RUN_ENCODE.
  rewrite !BF64_ENCODE_shift by (cbn; lia). rewrite Z.shiftl_0_r.
  replace (Z.shiftl start 16) with (Z.shiftl (Z.shiftl start 1) 15) by (rewrite Z.shiftl_shiftl by lia; done).
  rewrite <- Z.shiftl_lor. rewrite (lor_shiftl_add start maptype 1) by (cbn; lia).
  rewrite lor_shiftl_add by (cbn; lia). cbn. lia.
Qed.

Lemma entry_decode start maptype run :
  0 <= start < 2 ^ 47 -> 0 <= maptype < 2 -> 1 <= run <= SM_RUN_MAX ->
  let e := entry start maptype run in
  is_u64 e /\ SM_DEBUG_DECODE e = 0 /\ SM_TYPE_DECODE e = maptype /\
  SM_OFFSET_DECODE e = start /\ SM_RUN_DECODE e = run.
Proof.
  intros Hs Ht Hr e. subst e. rewrite entry_value by done. change SM_RUN_MAX with 32768 in Hr.
  unfold SM_DEBUG_DECODE, SM_TYPE_DECODE, SM_OFFSET_DECODE, SM_RUN_DECODE, is_u64.
  rewrite !BF64_DECODE_mod by lia.
  change (2 ^ 16) with 65536. change (2 ^ 15) with 32768. change (2 ^ 63) with 9223372036854775808.
  change (2 ^ 47) with 140737488355328 in *. change (2 ^ 64) with 18446744073709551616. change (2 ^ 1) with 2. change (2 ^ 0) with 1.
  split_and!; try lia; Z.to_euclidean_division_equations; lia.
Qed.

Lemma debug_entry_decode maptype syncpass txg :
  SM_DEBUG_DECODE (debug_entry maptype syncpass txg) = 1.
Proof.
  unfold SM_DEBUG_DECODE. rewrite BF64_DECODE_mod by lia. rewrite <- Z.shiftr_div_pow2 by lia.
  change (2 ^ 1) with 2. rewrite <- Z.bit0_mod, Z.shiftr_spec by lia. unfold debug_entry.
  rewrite !Z.lor_spec. change (Z.testbit (SM_DEBUG_ENCODE 1) (0 + 63)) with true. done.
Qed.

Section Disk.
Context {OT : OrdTree space_seg} {DM : Dmu}.
Variable zfs_recover : bool.

(** [struct space_map_ops]: the picker's operations on a map, which may change
    its private data. *)
Record space_map_ops := Ops {
  smop_load : space_map -> outcome space_map;
  smop_unload : space_map -> outcome space_map;
  smop_alloc : space_map -> Z -> outcome (space_map * Z);
  smop_claim : space_map -> Z -> Z -> outcome space_map;
  smop_free : space_map -> Z -> Z -> outcome space_map
}.

(** The operations vectors in memory, by address. *)
Definition ops_table : Type := Z -> option space_map_ops.

(** [sm->sm_ops], followed. *)
Definition deref_ops (ops_at : ops_table) (sm : space_map) : outcome space_map_ops :=
  match sm_ops sm with
  | None => Err Fault
  | Some p => match ops_at p with Some o => Ok o | None => Err Fault end
  end.

Definition set_state (sm : space_map) (loaded loading : bool) (ops : option Z) : space_map :=
  SpaceMap (sm_root sm) (sm_space sm) (sm_start sm) (sm_size sm) (sm_shift sm) loaded loading ops (sm_ppd sm).

(** [cv_wait] gives up the lock; [wakeups] are the states in which it is taken
    again.  A waiter that is never woken again does not return. *)
Fixpoint space_map_load_wait (wakeups : list space_map) (sm : space_map) : outcome space_map :=
  if sm_loading sm then
    match wakeups with
    | [] => Err Fuel
    | sm' :: wakeups' => space_map_load_wait wakeups' sm'
    end
  else Ok sm.

(** One entry of the log. *)
Definition load_entry (maptype mapstart : Z) (sm : space_map) (e : Z) : outcome space_map :=
  if negb (SM_DEBUG_DECODE e =? 0) then Ok sm
  else
    let start := u64 (u64 (Z.shiftl (SM_OFFSET_DECODE e) (sm_shift sm)) + mapstart) in
    let size := u64 (Z.shiftl (SM_RUN_DECODE e) (sm_shift sm)) in
    if SM_TYPE_DECODE e =? maptype then space_map_add zfs_recover sm start size
    else space_map_remove zfs_recover sm start size.

Fixpoint load_entries (maptype mapstart : Z) (entries : list Z) (sm : space_map) : outcome space_map :=
  match entries with
  | [] => Ok sm
  | e :: entries' => sm ← load_entry maptype mapstart sm e; load_entries maptype mapstart entries' sm
  end.

(** The loop over the object, a buffer at a time. *)
Definition load_loop (fuel : nat) (maptype mapstart : Z) (smo : space_map_obj) (os : objset)
    (sm : space_map) : outcome space_map :=
  let en := smo_objsize smo in
  let bufsize := Z.shiftl 1 SPACE_MAP_BLOCKSHIFT in
  iter fuel
    (fun '(offset, sm) =>
       if offset <? en then
         let size := Z.min (en - offset) bufsize in
         _ ← verify (P2PHASE size 8 =? 0);
         _ ← verify (negb (size =? 0));
         match dmu_read os (smo_object smo) offset size with
         | None => Err Panic
         | Some entry_map =>
             sm ← load_entries maptype mapstart (take (Z.to_nat (size / 8)) entry_map) sm;
             Ok (inl (u64 (offset + bufsize), sm))
         end
       else Ok (inr sm)) (0, sm).

Definition space_map_load (ops_at : ops_table) (wakeups : list space_map) (sm : space_map) (ops : option Z) (maptype : Z)
    (smo : space_map_obj) (os : objset) : outcome space_map :=
  let mapstart := sm_start sm in
  sm ← space_map_load_wait wakeups sm;
  if sm_loaded sm then Ok sm
  else
    let sm := set_state sm (sm_loaded sm) true (sm_ops sm) in
    let en := smo_objsize smo in
    _ ← verify (match sm_ops sm with None => true | Some _ => false end);
    _ ← verify (sm_space sm =? 0);
    '(sm, space) ← (if maptype =? SM_FREE then
                      sm ← space_map_add zfs_recover sm (sm_start sm) (sm_size sm);
                      Ok (sm, u64 (sm_size sm - smo_alloc smo))
                    else Ok (sm, smo_alloc smo));
    sm ← load_loop (S (S (Z.to_nat (en / Z.shiftl 1 SPACE_MAP_BLOCKSHIFT)))) maptype mapstart smo os sm;
    _ ← verify (sm_space sm =? space);
    let sm := set_state sm true false ops in
    match ops with
    | None => Ok sm
    | Some _ => o ← deref_ops ops_at sm; smop_load o sm
    end.

Definition space_map_unload (ops_at : ops_table) (sm : space_map) : outcome space_map :=
  sm ← match sm_loaded sm, sm_ops sm with
       | true, Some _ => o ← deref_ops ops_at sm; smop_unload o sm
       | _, _ => Ok sm
       end;
  let sm := set_state sm false (sm_loading sm) None in
  '(sm, _) ← space_map_vacate sm (fun _ _ _ => Ok tt) tt;
  Ok sm.

Definition space_map_alloc (ops_at : ops_table) (sm : space_map) (size : Z) : outcome (space_map * Z) :=
  o ← deref_ops ops_at sm;
  '(sm, start) ← smop_alloc o sm size;
  if negb (start =? 2 ^ 64 - 1) then
    sm ← space_map_remove zfs_recover sm start size;
    Ok (sm, start)
  else Ok (sm, start).

Definition space_map_claim (ops_at : ops_table) (sm : space_map) (start size : Z) : outcome space_map :=
  o ← deref_ops ops_at sm;
  sm ← smop_claim o sm start size;
  space_map_remove zfs_recover sm start size.

Definition space_map_free (ops_at : ops_table) (sm : space_map) (start size : Z) : outcome space_map :=
  sm ← space_map_add zfs_recover sm start size;
  o ← deref_ops ops_at sm;
  smop_free o sm start size.

(** The output side of [space_map_sync]: the object, its size so far, the
    buffer and the index of the next entry in it. *)
Record sync_state := SyncState { st_os : objset; st_objsize : Z; st_buf : list Z; st_entry : Z }.

(** [if (entry == entry_map_end) { dmu_write(...); ... } *entry++ = e;] *)
Definition put_entry (obj bufsize : Z) (st : sync_state) (e : Z) : outcome sync_state :=
  let st :=
    if st_entry st =? bufsize / 8 then
      SyncState (dmu_write (st_os st) obj (st_objsize st) bufsize (st_buf st))
        (u64 (st_objsize st + bufsize)) (st_buf st) 0
    else st in
  buf ← wr (st_buf st) (st_entry st) e;
  Ok (SyncState (st_os st) (st_objsize st) buf (st_entry st + 1)).

(** [while (size) { ... }]: the runs of one segment, in units. *)
Definition put_runs (obj bufsize maptype start size : Z) (st : sync_state) : outcome sync_state :=
  iter (S (Z.to_nat (size / SM_RUN_MAX + 1)))
    (fun '(start, size, st) =>
       if size =? 0 then Ok (inr st)
       else
         let run_len := Z.min size SM_RUN_MAX in
         st ← put_entry obj bufsize st (entry start maptype run_len);
         Ok (inl (u64 (start + run_len), size - run_len, st))) (start, size, st).

(** The loop over the segments, in the order [avl_destroy_nodes] gives them. *)
Fixpoint put_segs (obj bufsize maptype : Z) (sm : space_map) (l : list space_seg) (space : Z)
    (st : sync_state) : outcome (Z * sync_state) :=
  match l with
  | [] => Ok (space, st)
  | ss :: l' =>
      let size := u64 (ss_end ss - ss_start ss) in
      let start := Z.shiftr (u64 (ss_start ss - sm_start sm)) (sm_shift sm) in
      st ← put_runs obj bufsize maptype start (Z.shiftr size (sm_shift sm)) st;
      put_segs obj bufsize maptype sm l' (u64 (space - size)) st
  end.

(** [syncpass] and [txg] are [spa_sync_pass(spa)] and [dmu_tx_get_txg(tx)]. *)
Definition space_map_sync (sm : space_map) (maptype : Z) (smo : space_map_obj) (os : objset)
    (syncpass txg : Z) : outcome (space_map * space_map_obj * objset) :=
  if sm_space sm =? 0 then Ok (sm, smo, os)
  else
    let alloc := if maptype =? SM_ALLOC then u64 (smo_alloc smo + sm_space sm)
                 else u64 (smo_alloc smo - sm_space sm) in
    let bufsize := Z.min (u64 ((8 + ot_numnodes (sm_root sm)) * 8)) (Z.shiftl 1 SPACE_MAP_BLOCKSHIFT) in
    buf ← wr (replicate (Z.to_nat (bufsize / 8)) 0) 0 (debug_entry maptype syncpass txg);
    '(l, t) ← ot_drain (sm_root sm);
    '(space, st) ← put_segs (smo_object smo) bufsize maptype sm l (sm_space sm)
                     (SyncState os (smo_objsize smo) buf 1);
    let st :=
      if negb (st_entry st =? 0) then
        let size := st_entry st * 8 in
        SyncState (dmu_write (st_os st) (smo_object smo) (st_objsize st) size (st_buf st))
          (u64 (st_objsize st + size)) (st_buf st) (st_entry st)
      else st in
    _ ← verify (space =? 0);
    Ok (set_root sm t space, Smo (smo_object smo) (st_objsize st) alloc, st_os st).

Definition space_map_truncate (smo : space_map_obj) (os : objset) : outcome (space_map_obj * objset) :=
  match dmu_free_range os (smo_object smo) 0 (2 ^ 64 - 1) with
  | None => Err Panic
  | Some os' => Ok (Smo (smo_object smo) 0 0, os')
  end.

(** ** The output stream

    [ws] has been put since the object had [n0] words: a part of it is in the
    object and the rest in the buffer. *)
Definition stream (os0 : objset) (obj : Z) (n0 N : nat) (st : sync_state) (ws : list Z) : Prop :=
  exists fl pend, ws = fl ++ pend /\ st_objsize st = 8 * Z.of_nat (n0 + length fl) /\
    take (n0 + length fl) (dmu_words (st_os st) obj) = take n0 (dmu_words os0 obj) ++ fl /\
    (n0 + length fl <= length (dmu_words (st_os st) obj))%nat /\
    st_entry st = zlen pend /\ take (length pend) (st_buf st) = pend /\
    length (st_buf st) = N /\ (length pend <= N)%nat /\
    (forall obj', obj' <> obj -> dmu_words (st_os st) obj' = dmu_words os0 obj').

Lemma take_app_drop {A} (i : nat) (l ws : list A) :
  (i <= length l)%nat -> take (i + length ws) (take i l ++ ws ++ drop (i + length ws) l) = take i l ++ ws.
Proof.
  intros Hi. rewrite app_assoc. apply take_app_length'. rewrite length_app, length_take. lia.
Qed.

(** Writing out the first [length pend] words of the buffer. *)
Lemma stream_flush os0 obj n0 os objsize buf fl pend :
  objsize = 8 * Z.of_nat (n0 + length fl) ->
  take (n0 + length fl) (dmu_words os obj) = take n0 (dmu_words os0 obj) ++ fl ->
  (n0 + length fl <= length (dmu_words os obj))%nat -> take (length pend) buf = pend ->
  (length pend <= length buf)%nat ->
  let os' := dmu_write os obj objsize (8 * zlen pend) buf in
  take (n0 + length (fl ++ pend)) (dmu_words os' obj) = take n0 (dmu_words os0 obj) ++ fl ++ pend /\
  (n0 + length (fl ++ pend) <= length (dmu_words os' obj))%nat.
Proof.
  intros -> Ht Hl Hp Hb os'. subst os'. rewrite dmu_write_spec by done.
  rewrite length_app, Nat.add_assoc, take_app_drop, Ht, app_assoc by done. split; [done|].
  rewrite !length_app, length_drop. apply (f_equal length) in Ht. rewrite length_app, length_take in Ht. lia.
Qed.

Lemma put_entry_spec os0 obj n0 N st ws e :
  stream os0 obj n0 N st ws -> (0 < N)%nat -> 8 * Z.of_nat (n0 + length ws) < 2 ^ 64 ->
  exists st', put_entry obj (8 * Z.of_nat N) st e = Ok st' /\ stream os0 obj n0 N st' (ws ++ [e]).
Proof.
  intros (fl & pend & -> & E1 & E2 & E3 & E4 & E5 & E6 & E7 & E8) HN Hsz.
  unfold put_entry. rewrite (Z.mul_comm 8 (Z.of_nat N)), Z.div_mul, (Z.mul_comm (Z.of_nat N)) by lia.
  destruct (Z.eqb_spec (st_entry st) (Z.of_nat N)) as [E|E]; cbn [st_os st_objsize st_buf st_entry].
  - assert (length pend = N) as Elen by lia.
    destruct (stream_flush os0 obj n0 (st_os st) (st_objsize st) (st_buf st) fl pend) as [F1 F2]; try done; [lia|].
    rewrite Elen in F1, F2. rewrite wr_in by lia. eexists. split; [done|].
    exists (fl ++ pend), [e]. cbn [st_os st_objsize st_buf st_entry length].
    rewrite length_app in Hsz. rewrite E1 in *. rewrite wrap_small by lia. split_and!; [done| |done|done|done| | |lia|].
    + rewrite length_app. lia.
    + change (Z.to_nat 0) with O. destruct (st_buf st); cbn in *; [lia|done].
    + by rewrite length_insert.
    + intros. rewrite dmu_write_other by done. by apply E8.
  - rewrite wr_in by lia. eexists. split; [done|]. exists fl, (pend ++ [e]).
    cbn [st_os st_objsize st_buf st_entry]. rewrite E4, Nat2Z.id.
    split_and!; [by rewrite app_assoc|done|done|done|rewrite length_app; cbn; lia| |by rewrite length_insert| |done].
    + rewrite length_app. cbn [length]. rewrite Nat.add_1_r. erewrite take_S_r.
      * rewrite take_insert_ge, E5 by lia. done.
      * apply list_lookup_insert_eq. lia.
    + rewrite length_app. cbn. lia.
Qed.

(** The entries of one segment of [size] units from unit [start]. *)
Inductive runs (maptype : Z) : Z -> Z -> list Z -> Prop :=
  | runs_nil start : runs maptype start 0 []
  | runs_cons start size run es :
      1 <= run <= SM_RUN_MAX -> run <= size -> 0 <= start -> start + size <= 2 ^ 47 ->
      runs maptype (start + run) (size - run) es ->
      runs maptype start size (entry start maptype run :: es).

Lemma runs_len maptype start size es : runs maptype start size es -> 0 <= size -> zlen es <= size.
Proof. induction 1; cbn; lia. Qed.

Lemma put_runs_spec os0 obj n0 N maptype start size st ws :
  stream os0 obj n0 N st ws -> (0 < N)%nat -> 0 <= start -> 0 <= size -> start + size <= 2 ^ 47 ->
  8 * (Z.of_nat (n0 + length ws) + size) < 2 ^ 64 ->
  exists st' es, put_runs obj (8 * Z.of_nat N) maptype start size st = Ok st' /\
    runs maptype start size es /\ stream os0 obj n0 N st' (ws ++ es).
Proof.
  intros Hst HN Hs Hz Hb Hsz. unfold put_runs. change SM_RUN_MAX with 32768 in *.
  assert (size <= 32768 * Z.of_nat (Z.to_nat (size / 32768 + 1))) as Hf by (Z.to_euclidean_division_equations; lia).
  revert Hf. generalize (Z.to_nat (size / 32768 + 1)) as f. intros f. revert start size st ws Hst Hs Hz Hb Hsz.
  induction f as [|f IH]; intros start size st ws Hst Hs Hz Hb Hsz Hf; rewrite iter_S.
  - rewrite (proj2 (Z.eqb_eq size 0)) by lia. exists st, []. rewrite app_nil_r.
    replace size with 0 by lia. split_and!; [done|constructor|done].
  - destruct (Z.eqb_spec size 0) as [->|Hne].
    { exists st, []. rewrite app_nil_r. split_and!; [done|constructor|done]. }
    destruct (put_entry_spec os0 obj n0 N st ws (entry start maptype (Z.min size 32768))) as (st1 & E & Hst1); [done|done|lia|].
    cbn zeta. rewrite E. run. rewrite wrap_small by lia.
    destruct (IH (start + Z.min size 32768) (size - Z.min size 32768) st1 (ws ++ [entry start maptype (Z.min size 32768)]))
      as (st2 & es & E2 & Hr & Hst2); [done|lia|lia|lia|rewrite length_app; cbn; lia|lia|].
    exists st2, (entry start maptype (Z.min size 32768) :: es). rewrite <- app_assoc in Hst2.
    split_and!; [done| |done]. constructor; [change SM_RUN_MAX with 32768; lia|lia|lia|lia|done].
Qed.

(** ** The log and the set it stands for *)

Definition e_start (sm : space_map) (e : Z) : Z := Z.shiftl (SM_OFFSET_DECODE e) (sm_shift sm) + sm_start sm.
Definition e_size (sm : space_map) (e : Z) : Z := Z.shiftl (SM_RUN_DECODE e) (sm_shift sm).
Definition in_entry (sm : space_map) (e x : Z) : Prop := e_start sm e <= x < e_start sm e + e_size sm e.

(** The words [ws] of an object say that the offsets of [A], [n] in number, are
    allocated in the region of [sm]: every entry allocates free space or frees
    allocated space. *)
Inductive replays (sm : space_map) : list Z -> (Z -> Prop) -> Z -> Prop :=
  | rp_nil A : (forall x, ~ A x) -> replays sm [] A 0
  | rp_debug ws A n e : replays sm ws A n -> SM_DEBUG_DECODE e <> 0 -> replays sm (ws ++ [e]) A n
  | rp_alloc ws A n e A' :
      replays sm ws A n -> SM_DEBUG_DECODE e = 0 -> SM_TYPE_DECODE e = SM_ALLOC ->
      range_ok sm (e_start sm e) (e_size sm e) -> (forall x, in_entry sm e x -> ~ A x) ->
      (forall x, A' x <-> A x \/ in_entry sm e x) ->
      replays sm (ws ++ [e]) A' (n + e_size sm e)
  | rp_free ws A n e A' :
      replays sm ws A n -> SM_DEBUG_DECODE e = 0 -> SM_TYPE_DECODE e = SM_FREE ->
      range_ok sm (e_start sm e) (e_size sm e) -> (forall x, in_entry sm e x -> A x) ->
      (forall x, A' x <-> A x /\ ~ in_entry sm e x) ->
      replays sm (ws ++ [e]) A' (n - e_size sm e).

Lemma replays_ext sm ws A A' n : replays sm ws A n -> (forall x, A x <-> A' x) -> replays sm ws A' n.
Proof.
  intros H. revert A'. induction H as [A HA|ws A n e H IH Hd|ws A n e A1 H IH Hd Ht Hr Hf Hc|ws A n e A1 H IH Hd Ht Hr Hf Hc];
    intros A' E.
  - constructor. intros x. rewrite <- E. apply HA.
  - constructor; [by apply IH|done].
  - apply (rp_alloc sm ws A n e A'); auto. intros x. by rewrite <- E.
  - apply (rp_free sm ws A n e A'); auto. intros x. by rewrite <- E.
Qed.

(** The region and the unit are all that counts. *)
Lemma replays_region sm sm' ws A n : compatible sm sm' -> replays sm ws A n -> replays sm' ws A n.
Proof.
  intros Hc. pose proof Hc as (C1 & C2 & C3). assert (e_start sm = e_start sm') as E1 by (unfold e_start; by rewrite C1, C3).
  assert (e_size sm = e_size sm') as E2 by (unfold e_size; by rewrite C3).
  assert (in_entry sm = in_entry sm') as E3 by (unfold in_entry; by rewrite E1, E2).
  induction 1 as [A HA|ws A n e H IH Hd|ws A n e A1 H IH Hd Ht Hr Hf Hx|ws A n e A1 H IH Hd Ht Hr Hf Hx].
  - by apply rp_nil.
  - by apply rp_debug.
  - pose proof (rp_alloc sm' ws A n e A1) as P. rewrite <- E1, <- E2, <- E3 in P. apply P; auto.
    by eapply compatible_range.
  - pose proof (rp_free sm' ws A n e A1) as P. rewrite <- E1, <- E2, <- E3 in P. apply P; auto.
    by eapply compatible_range.
Qed.

Lemma load_entries_app maptype mapstart l1 l2 sm :
  load_entries maptype mapstart (l1 ++ l2) sm =
    (sm ← load_entries maptype mapstart l1 sm; load_entries maptype mapstart l2 sm).
Proof.
  revert sm. induction l1 as [|e l1 IH]; intros sm; cbn; [done|].
  destruct (load_entry maptype mapstart sm e); run; [apply IH|done].
Qed.

(** What the map being loaded holds when [A] is allocated. *)
Definition shows (maptype : Z) (A : Z -> Prop) (n : Z) (sm : space_map) : Prop :=
  if maptype =? SM_FREE then
    sm_space sm = sm_size sm - n /\
    forall x, member (segs sm) x <-> sm_start sm <= x < sm_start sm + sm_size sm /\ ~ A x
  else sm_space sm = n /\ forall x, member (segs sm) x <-> A x.

Lemma load_entry_spec maptype sm e :
  sm_ok sm -> SM_DEBUG_DECODE e = 0 -> range_ok sm (e_start sm e) (e_size sm e) ->
  load_entry maptype (sm_start sm) sm e =
    if SM_TYPE_DECODE e =? maptype then space_map_add zfs_recover sm (e_start sm e) (e_size sm e)
    else space_map_remove zfs_recover sm (e_start sm e) (e_size sm e).
Proof.
  intros Hok Hd (R1 & R2 & R3 & _). unfold load_entry. rewrite Hd. cbn [negb Z.eqb].
  pose proof (ok_range _ Hok). unfold e_start, e_size in *.
  assert (0 <= Z.shiftl (SM_OFFSET_DECODE e) (sm_shift sm)).
  { apply Z.shiftl_nonneg. unfold SM_OFFSET_DECODE. rewrite BF64_DECODE_mod by lia. by apply Z.mod_pos_bound. }
  rewrite wrap_add_l. rewrite !wrap_small by lia. done.
Qed.

Lemma load_replay maptype sm ws A n :
  (maptype = SM_FREE \/ maptype = SM_ALLOC) -> sm_ok sm ->
  replays sm ws A n -> shows maptype (fun _ => False) 0 sm ->
  exists sm', load_entries maptype (sm_start sm) ws sm = Ok sm' /\ sm_ok sm' /\ same_region sm sm' /\
    shows maptype A n sm'.
Proof.
  intros Hmt Hok H Hsh. induction H as [A HA|ws A n e H IH Hd|ws A n e A1 H IH Hd Ht Hr Hf Hc|ws A n e A1 H IH Hd Ht Hr Hf Hc].
  { exists sm. split_and!; [done|done|done|]. unfold shows in *. step_if; (split; [apply Hsh|]);
    intros x; rewrite (proj2 Hsh x); specialize (HA x); tauto. }
  all: destruct IH as (sm1 & E1 & K1 & R1 & S1); pose proof R1 as (Q1 & Q2 & Q3 & _).
  all: rewrite load_entries_app, E1; run; cbn [load_entries].
  { exists sm1. unfold load_entry. rewrite (proj2 (Z.eqb_neq _ _)) by done. by cbn. }
  all: assert (e_start sm1 e = e_start sm e) as F1 by (unfold e_start; by rewrite Q1, Q3).
  all: assert (e_size sm1 e = e_size sm e) as F2 by (unfold e_size; by rewrite Q3).
  all: pose proof (range_ok_region _ _ _ _ R1 Hr) as Hr1.
  all: rewrite <- Q1, load_entry_spec by (rewrite ?F1, ?F2; done); rewrite F1, F2, Ht.
  all: unfold shows in S1 |- *; unfold in_entry in Hf, Hc; pose proof Hr as (Z1 & Z2 & Z3 & _).
  all: destruct Hmt as [-> | ->]; cbn [Z.eqb SM_FREE SM_ALLOC Pos.eqb] in *; destruct S1 as [S1 S2].
  1, 4: destruct (remove_covered zfs_recover sm1 _ _ K1 Hr1) as (sm2 & E2 & K2 & R2 & T2 & M2 & _);
    [intros x Hx; apply S2; specialize (Hf x Hx); split_and?; try lia; done|].
  3, 4: destruct (add_free zfs_recover sm1 _ _ K1 Hr1) as (sm2 & E2 & K2 & R2 & T2 & M2);
    [intros x Hx; rewrite S2; specialize (Hf x Hx); tauto|].
  all: rewrite E2; run; exists sm2; pose proof R2 as (Y1 & Y2 & _);
    split_and!; [done|done|by eapply same_region_trans|rewrite ?T2, ?S1, ?Y2; lia|].
  all: intros x; rewrite M2, S2, Hc, ?Y1, ?Y2, ?Q1, ?Q2; try tauto.
  specialize (Hf x). destruct (decide (e_start sm e <= x < e_start sm e + e_size sm e)); [|tauto]. intuition lia.
Qed.

(** Reading the object a buffer at a time replays all of it. *)
Lemma chunk_split (n k : nat) (ws : list Z) :
  (512 * k < n)%nat -> (n <= length ws)%nat ->
  drop (512 * k) (take n ws) =
    take (Nat.min (n - 512 * k) 512) (drop (512 * k) ws) ++ drop (512 * S k) (take n ws).
Proof.
  intros Hk Hn. rewrite <- (take_drop (Nat.min (n - 512 * k) 512) (drop (512 * k) (take n ws))) at 1.
  rewrite drop_drop. f_equal.
  - rewrite skipn_firstn_comm, take_take. f_equal. lia.
  - destruct (Nat.le_gt_cases (n - 512 * k) 512).
    + rewrite !drop_ge by (rewrite length_take; lia). done.
    + f_equal. lia.
Qed.

Lemma load_loop_spec maptype mapstart smo os sm sm' (n : nat) :
  smo_objsize smo = 8 * Z.of_nat n -> (n <= length (dmu_words os (smo_object smo)))%nat -> 8 * Z.of_nat n < 2 ^ 63 ->
  load_entries maptype mapstart (take n (dmu_words os (smo_object smo))) sm = Ok sm' ->
  load_loop (S (S (Z.to_nat (smo_objsize smo / Z.shiftl 1 SPACE_MAP_BLOCKSHIFT)))) maptype mapstart smo os sm = Ok sm'.
Proof.
  intros Hsz Hn Hlt Hl. unfold load_loop. cbn zeta. rewrite Hsz. change (Z.shiftl 1 SPACE_MAP_BLOCKSHIFT) with 4096.
  set (ws := dmu_words os (smo_object smo)) in *.
  enough (forall f k sm, (n + 512 <= 512 * (k + f))%nat -> (512 * k < n + 512)%nat ->
    load_entries maptype mapstart (drop (512 * k) (take n ws)) sm = Ok sm' ->
    iter f (fun '(offset, sm) =>
       if offset <? 8 * Z.of_nat n then
         let size := Z.min (8 * Z.of_nat n - offset) 4096 in
         _ ← verify (P2PHASE size 8 =? 0);
         _ ← verify (negb (size =? 0));
         match dmu_read os (smo_object smo) offset size with
         | None => Err Panic
         | Some entry_map =>
             sm ← load_entries maptype mapstart (take (Z.to_nat (size / 8)) entry_map) sm;
             Ok (inl (u64 (offset + 4096), sm))
         end
       else Ok (inr sm)) (8 * Z.of_nat (512 * k), sm) = Ok sm') as H.
  { apply (H _ 0%nat); [|lia|done]. pose proof (Z.mul_succ_div_gt (8 * Z.of_nat n) 4096 ltac:(lia)).
    pose proof (Z.div_pos (8 * Z.of_nat n) 4096 ltac:(lia) ltac:(lia)). lia. }
  clear sm Hl. induction f as [|f IH]; intros k sm Hf Hk Hl; [lia|]. rewrite iter_S.
  destruct (Z.ltb_spec (8 * Z.of_nat (512 * k)) (8 * Z.of_nat n)) as [Hc|Hc].
  - set (m := Nat.min (n - 512 * k) 512).
    replace (Z.min (8 * Z.of_nat n - 8 * Z.of_nat (512 * k)) 4096) with (8 * Z.of_nat m) by lia.
    cbn zeta. change (P2PHASE (8 * Z.of_nat m) 8) with (P2PHASE (8 * Z.of_nat m) (Z.shiftl 1 3)).
    rewrite P2PHASE_mod, (Z.mul_comm 8 (Z.of_nat m)), Z.mod_mul by done.
    rewrite (proj2 (Z.eqb_neq (Z.of_nat m * 8) 0)) by lia. cbn [Z.eqb negb verify]. run.
    rewrite Z.div_mul, Nat2Z.id, (Z.mul_comm (Z.of_nat m)) by lia.
    rewrite dmu_read_spec by (fold ws; lia). fold ws. rewrite take_take, Nat.min_id.
    rewrite (chunk_split n k ws), load_entries_app in Hl by lia. fold m in Hl.
    destruct (load_entries maptype mapstart (take m (drop (512 * k) ws)) sm) as [sm1|e]; run; [|done].
    rewrite wrap_small by lia. replace (8 * Z.of_nat (512 * k) + 4096) with (8 * Z.of_nat (512 * S k)) by lia.
    apply IH; [lia|lia|done].
  - rewrite drop_ge in Hl by (rewrite length_take; lia). cbn in Hl. congruence.
Qed.

(** ** Syncing *)

(** What syncing a range of the given type does to the allocated set, and when
    the log may say so. *)
Definition after (maptype : Z) (A R : Z -> Prop) (x : Z) : Prop :=
  if maptype =? SM_ALLOC then A x \/ R x else A x /\ ~ R x.
Definition after_n (maptype n len : Z) : Z := if maptype =? SM_ALLOC then n + len else n - len.
Definition allowed (maptype : Z) (A R : Z -> Prop) : Prop :=
  forall x, R x -> if maptype =? SM_ALLOC then ~ A x else A x.

Lemma replays_snoc sm maptype ws A n e A' :
  maptype = SM_ALLOC \/ maptype = SM_FREE -> replays sm ws A n ->
  SM_DEBUG_DECODE e = 0 -> SM_TYPE_DECODE e = maptype ->
  range_ok sm (e_start sm e) (e_size sm e) -> allowed maptype A (in_entry sm e) ->
  (forall x, A' x <-> after maptype A (in_entry sm e) x) ->
  replays sm (ws ++ [e]) A' (after_n maptype n (e_size sm e)).
Proof. intros [-> | ->] H Hd Ht Hr Ha Hx; [eapply rp_alloc|eapply rp_free]; eauto. Qed.

Lemma runs_replay sm maptype u len es ws A n :
  maptype = SM_ALLOC \/ maptype = SM_FREE -> runs maptype u len es -> sm_ok sm -> aligned sm (sm_start sm) ->
  0 <= u -> 0 <= len -> sm_start sm + (u + len) * 2 ^ sm_shift sm <= sm_start sm + sm_size sm ->
  replays sm ws A n ->
  let lo := sm_start sm + u * 2 ^ sm_shift sm in
  let R := fun x => lo <= x < lo + len * 2 ^ sm_shift sm in
  allowed maptype A R ->
  replays sm (ws ++ es) (after maptype A R) (after_n maptype n (len * 2 ^ sm_shift sm)).
Proof.
  intros Hmt Hr Hok Hal. revert ws A n.
  pose proof (ok_shift _ Hok) as Hsh. pose proof (Z.pow_pos_nonneg 2 (sm_shift sm) ltac:(lia) ltac:(lia)) as Hp.
  induction Hr as [u|u len run es H1 H2 H3 H4 Hr IH]; intros ws A n Hu Hlen Hb H lo R Hall.
  - rewrite app_nil_r. replace (after_n maptype n (0 * 2 ^ sm_shift sm)) with n by (unfold after_n; destruct (maptype =? SM_ALLOC); lia).
    apply (replays_ext _ _ _ _ _ H). intros x.
    assert (~ R x) by (unfold R; lia). unfold after. step_if; tauto.
  - assert (0 <= maptype < 2) as Hm by (destruct Hmt as [-> | ->]; unfold SM_ALLOC, SM_FREE; lia).
    destruct (entry_decode u maptype run ltac:(lia) Hm H1) as (_ & D1 & D2 & D3 & D4).
    set (e := entry u maptype run) in *.
    assert (e_start sm e = lo) as Es by (unfold e_start, lo; rewrite D3, Z.shiftl_mul_pow2 by lia; lia).
    assert (e_size sm e = run * 2 ^ sm_shift sm) as Ez by (unfold e_size; rewrite D4, Z.shiftl_mul_pow2 by lia; lia).
    assert (range_ok sm (e_start sm e) (e_size sm e)) as Hrg.
    { rewrite Es, Ez. unfold lo. split_and!; [nia|nia|nia| |].
      - apply aligned_add; [done|]. apply Z.mod_mul. lia.
      - apply Z.mod_mul. lia. }
    assert (forall x, in_entry sm e x <-> lo <= x < lo + run * 2 ^ sm_shift sm) as Hin
      by (intros x; unfold in_entry; by rewrite Es, Ez).
    replace (ws ++ e :: es) with ((ws ++ [e]) ++ es) by (by rewrite <- app_assoc).
    assert (allowed maptype A (in_entry sm e)) as Hall1.
    { intros x Hx. apply Hall. unfold R. apply Hin in Hx. nia. }
    pose proof (replays_snoc sm maptype ws A n e _ Hmt H D1 D2 Hrg Hall1 (fun x => iff_refl _)) as Hs.
    specialize (IH _ _ _ ltac:(lia) ltac:(lia) ltac:(nia) Hs).
    assert (forall x, sm_start sm + (u + run) * 2 ^ sm_shift sm <= x <
              sm_start sm + (u + run) * 2 ^ sm_shift sm + (len - run) * 2 ^ sm_shift sm -> R x /\ ~ in_entry sm e x) as Hdisj.
    { intros x Hx. rewrite Hin. unfold R, lo. nia. }
    assert (forall x, R x -> in_entry sm e x \/ sm_start sm + (u + run) * 2 ^ sm_shift sm <= x <
              sm_start sm + (u + run) * 2 ^ sm_shift sm + (len - run) * 2 ^ sm_shift sm) as Hsplit.
    { intros x Hx. rewrite Hin. unfold R, lo in *. nia. }
    assert (forall x, in_entry sm e x -> R x) as Hsub.
    { intros x Hx. apply Hin in Hx. unfold R. nia. }
    assert (after_n maptype (after_n maptype n (e_size sm e)) ((len - run) * 2 ^ sm_shift sm) =
            after_n maptype n (len * 2 ^ sm_shift sm)) as En by (rewrite Ez; unfold after_n; step_if; nia).
    rewrite En in IH. eapply replays_ext; [apply IH|].
    + intros x Hx. apply Hdisj in Hx as [Hx Hx']. specialize (Hall x Hx). unfold after. step_if; tauto.
    + intros x. unfold after. specialize (Hdisj x). specialize (Hsplit x). specialize (Hsub x). step_if; tauto.
Qed.

(** A segment in units of the map. *)
Lemma seg_units sm s :
  sm_ok sm -> aligned sm (sm_start sm) -> In s (segs sm) -> ss_end s <= sm_start sm + 2 ^ 47 * 2 ^ sm_shift sm ->
  let u := Z.shiftr (u64 (ss_start s - sm_start sm)) (sm_shift sm) in
  let len := Z.shiftr (u64 (ss_end s - ss_start s)) (sm_shift sm) in
  0 <= u /\ 0 <= len /\ u + len <= 2 ^ 47 /\ sm_start sm + u * 2 ^ sm_shift sm = ss_start s /\
  len * 2 ^ sm_shift sm = ss_end s - ss_start s /\ (u + len) * 2 ^ sm_shift sm <= sm_size sm /\
  u64 (ss_end s - ss_start s) = ss_end s - ss_start s /\ len <= ss_end s - ss_start s.
Proof.
  intros Hok Hal Hin Hsz u len. destruct (ok_seg sm s Hok Hin) as [(R1 & R2 & R3 & R4 & R5) Eu].
  pose proof (ok_range _ Hok) as Hrg. pose proof (ok_shift _ Hok) as Hsh.
  pose proof (Z.pow_pos_nonneg 2 (sm_shift sm) ltac:(lia) ltac:(lia)) as Hp.
  assert (u * 2 ^ sm_shift sm = ss_start s - sm_start sm) as E1.
  { unfold u. rewrite wrap_small, Z.shiftr_div_pow2 by lia. pose proof (aligned_sub _ _ _ R4 Hal) as Ha. unfold aligned in Ha.
    rewrite Z.mul_comm. symmetry. apply Z.div_exact; [lia|done]. }
  assert (len * 2 ^ sm_shift sm = ss_end s - ss_start s) as E2.
  { unfold len. rewrite Eu, Z.shiftr_div_pow2 by lia. rewrite Z.mul_comm. symmetry. apply Z.div_exact; [lia|done]. }
  clearbody u len. split_and!; try nia; try done.
Qed.

Lemma total_mid l1 s l2 sm :
  sm_ok sm -> Permutation (l1 ++ s :: l2) (segs sm) ->
  0 <= total l1 /\ 0 < ss_end s - ss_start s /\ 0 <= total l2 /\ total l1 + (ss_end s - ss_start s) + total l2 = sm_space sm /\
  sm_space sm <= sm_size sm.
Proof.
  intros Hok Hp. assert (forall l, (forall t, In t l -> In t (segs sm)) -> 0 <= total l) as Hpos.
  { pose proof (ok_wf _ Hok) as [_ Hne]. rewrite List.Forall_forall in Hne.
    intros l Hl. induction l as [|t l IH]; cbn; [lia|].
    pose proof (Hne t (Hl t (or_introl eq_refl))). cbn in *. specialize (IH (fun z Hz => Hl z (or_intror Hz))). lia. }
  assert (forall t, In t (l1 ++ s :: l2) -> In t (segs sm)) as Hi by (intros t; by apply (Permutation_in _ Hp)).
  assert (total (l1 ++ s :: l2) = sm_space sm) as Ht.
  { rewrite (ok_space _ Hok). clear -Hp. induction Hp; cbn; lia. }
  rewrite total_app in Ht. cbn in Ht. pose proof (ok_wf _ Hok) as [_ Hne]. rewrite List.Forall_forall in Hne.
  specialize (Hne s (Hi s ltac:(rewrite in_app_iff; right; by left))). cbn in Hne.
  destruct (total_fits sm _ Hok (ok_wf _ Hok) (ok_bounds _ Hok)) as [_ Hle]. rewrite <- (ok_space _ Hok) in Hle.
  split_and!; try lia; apply Hpos; intros t Ht'; apply Hi; rewrite in_app_iff; cbn; tauto.
Qed.

Lemma member_perm l l' x : Permutation l l' -> member l x <-> member l' x.
Proof. intros Hp. unfold member. setoid_rewrite (Permutation_in' eq_refl Hp). done. Qed.

Lemma put_segs_spec sm maptype os0 obj n0 N A n dn todo st ws :
  sm_ok sm -> aligned sm (sm_start sm) -> Forall (fun s => ss_end s <= sm_start sm + 2 ^ 47 * 2 ^ sm_shift sm) (segs sm) ->
  maptype = SM_ALLOC \/ maptype = SM_FREE -> (0 < N)%nat ->
  Permutation (dn ++ todo) (segs sm) -> allowed maptype A (member (segs sm)) ->
  8 * (Z.of_nat n0 + 1 + sm_space sm) < 2 ^ 63 -> zlen ws <= 1 + total dn ->
  stream os0 obj n0 N st ws ->
  replays sm (take n0 (dmu_words os0 obj) ++ ws) (after maptype A (member dn)) (after_n maptype n (total dn)) ->
  exists st' ws', put_segs obj (8 * Z.of_nat N) maptype sm todo (sm_space sm - total dn) st = Ok (0, st') /\
    zlen ws' <= 1 + sm_space sm /\ stream os0 obj n0 N st' ws' /\
    replays sm (take n0 (dmu_words os0 obj) ++ ws') (after maptype A (member (segs sm))) (after_n maptype n (sm_space sm)).
Proof.
  intros Hok Hal Hsz Hmt HN. revert dn st ws. induction todo as [|s todo IH]; intros dn st ws Hp Hall Hb Hlen Hst Hr.
  - rewrite app_nil_r in Hp. assert (total dn = sm_space sm) as Et.
    { rewrite (ok_space _ Hok). clear -Hp. induction Hp; cbn; lia. }
    cbn. rewrite Et in *. rewrite Z.sub_diag. exists st, ws. split_and!; [done|done|done|].
    eapply replays_ext; [done|]. intros x. pose proof (member_perm _ _ x Hp).
    unfold after. destruct (maptype =? SM_ALLOC); tauto.
  - assert (In s (segs sm)) as Hin by (apply (Permutation_in _ Hp); rewrite in_app_iff; right; by left).
    destruct (total_mid dn s todo sm Hok Hp) as (T1 & T2 & T3 & T4 & T5).
    destruct (seg_units sm s Hok Hal Hin (proj1 (List.Forall_forall _ _) Hsz s Hin)) as (U1 & U2 & U3 & U4 & U5 & U6 & U7 & U8). cbn [put_segs].
    set (u := Z.shiftr (u64 (ss_start s - sm_start sm)) (sm_shift sm)) in *.
    set (len := Z.shiftr (u64 (ss_end s - ss_start s)) (sm_shift sm)) in *.
    destruct (put_runs_spec os0 obj n0 N maptype u len st ws Hst HN U1 U2 U3) as (st1 & es & E & Hruns & Hst1).
    { change (2 ^ 63) with 9223372036854775808 in Hb. change (2 ^ 64) with 18446744073709551616. lia. }
    rewrite E. run. rewrite U7. pose proof (ok_range _ Hok) as Hrg.
    rewrite wrap_small by lia. replace (sm_space sm - total dn - (ss_end s - ss_start s)) with (sm_space sm - total (dn ++ [s]))
      by (rewrite total_app; cbn; lia).
    assert (forall x, ss_start s <= x < ss_end s -> member (segs sm) x /\ ~ member dn x) as Hnew.
    { intros x Hx. split; [by exists s|]. intros (t & Ht & Hxt).
      assert (In t (segs sm)) as Hint by (apply (Permutation_in _ Hp); rewrite in_app_iff; by left).
      assert (t = s) as -> by (by apply (unique_cover _ _ _ x (ok_wf _ Hok))).
      pose proof (Permutation_NoDup (Permutation_sym Hp) (wf_NoDup _ (ok_wf _ Hok))) as Hnd.
      apply NoDup_remove_2 in Hnd. apply Hnd. rewrite in_app_iff. by left. }
    pose proof (runs_replay sm maptype u len es _ _ _ Hmt Hruns Hok Hal U1 U2 ltac:(lia) Hr) as Hr1. cbn zeta in Hr1.
    rewrite U4, U5 in Hr1. apply (IH (dn ++ [s]) st1 (ws ++ es)); auto.
    + by rewrite <- app_assoc.
    + rewrite total_app, length_app. pose proof (runs_len _ _ _ _ Hruns U2). cbn. lia.
    + replace (after_n maptype n (total (dn ++ [s]))) with (after_n maptype (after_n maptype n (total dn)) (ss_end s - ss_start s))
        by (rewrite total_app; cbn; unfold after_n; destruct (maptype =? SM_ALLOC); lia).
      rewrite app_assoc. eapply replays_ext; [apply Hr1|].
      * intros x Hx. destruct (Hnew x) as [H1 H2]; [lia|]. specialize (Hall x H1).
        unfold after. destruct (maptype =? SM_ALLOC); tauto.
      * intros x. unfold after. pose proof (member_nil x). pose proof (member_app dn [s] x) as M.
        rewrite member_cons in M. replace (ss_start s + (ss_end s - ss_start s)) with (ss_end s) by lia.
        destruct (maptype =? SM_ALLOC); tauto.
Qed.

(** ** The refinement: an object is a set of allocated offsets *)

(** The object of [smo] says that [A] is allocated in the region of [sm]. *)
Definition log_of (os : objset) (smo : space_map_obj) (sm : space_map) (A : Z -> Prop) : Prop :=
  exists n : nat, smo_objsize smo = 8 * Z.of_nat n /\ (n <= length (dmu_words os (smo_object smo)))%nat /\
    replays sm (take n (dmu_words os (smo_object smo))) A (smo_alloc smo).

Lemma replays_region_log sm sm' os smo A : compatible sm sm' -> log_of os smo sm A -> log_of os smo sm' A.
Proof. intros Hc (n & L1 & L2 & L3). exists n. split_and!; [done|done|by eapply replays_region]. Qed.

(** A map whose segments entries can address. *)
Definition region_ok (sm : space_map) : Prop :=
  sm_ok sm /\ aligned sm (sm_start sm) /\ Forall (fun s => ss_end s <= sm_start sm + 2 ^ 47 * 2 ^ sm_shift sm) (segs sm).

Lemma space_le sm : sm_ok sm -> 0 <= sm_space sm <= sm_size sm.
Proof. intros Hok. rewrite (ok_space _ Hok). apply (total_fits sm _ Hok (ok_wf _ Hok) (ok_bounds _ Hok)). Qed.

Lemma small_region sm : sm_ok sm -> aligned sm (sm_start sm) -> sm_size sm <= 2 ^ 47 * 2 ^ sm_shift sm -> region_ok sm.
Proof. intros Hok Ha Hz. split_and!; [done|done|]. eapply List.Forall_impl; [|apply (ok_bounds _ Hok)]. cbn. intros s. lia. Qed.

Lemma empty_ok sm t : sm_ok sm -> ot_ok t -> ot_elems t = [] -> sm_ok (set_root sm t 0).
Proof.
  intros Hok Ht Et. pose proof (sm_ok_set sm t Hok Ht) as H. rewrite Et in H.
  apply H; [by repeat constructor|constructor..].
Qed.

Lemma replays_bounds sm ws A n : sm_ok sm -> replays sm ws A n -> 0 <= n <= sm_size sm.
Proof.
  intros Hok Hr. destruct ot_empty_spec as [Ht Et].
  pose proof (empty_ok sm ot_empty Hok Ht Et) as Hok0.
  destruct (load_replay SM_ALLOC (set_root sm ot_empty 0) ws A n) as (sm' & _ & K & (R1 & R2 & _) & S1 & _).
  - by right.
  - done.
  - by apply (replays_region sm).
  - split; [done|]. intros x. unfold segs. cbn [sm_root set_root]. rewrite Et. split; [apply member_nil|done].
  - cbn in R2. rewrite <- S1, <- R2. rewrite (ok_space _ K).
    apply (total_fits sm' _ K (ok_wf _ K) (ok_bounds _ K)).
Qed.

Lemma space_zero sm : sm_ok sm -> sm_space sm = 0 -> segs sm = [].
Proof.
  intros Hok E. rewrite (ok_space _ Hok) in E. pose proof (ok_wf _ Hok) as Hwf. destruct (segs sm) as [|s l]; [done|].
  apply wf_cons in Hwf as (H1 & H2 & H3). cbn in E.
  assert (0 <= total l); [|lia]. destruct H2 as [_ H2]. clear -H2. induction H2; cbn; lia.
Qed.

(** The words of the log are still there in [os']. *)
Definition extends (os os' : objset) (smo : space_map_obj) : Prop :=
  forall n : nat, 8 * Z.of_nat n <= smo_objsize smo -> (n <= length (dmu_words os (smo_object smo)))%nat ->
    (n <= length (dmu_words os' (smo_object smo)))%nat /\
    take n (dmu_words os' (smo_object smo)) = take n (dmu_words os (smo_object smo)).

Lemma sync_spec sm maptype smo os syncpass txg A :
  region_ok sm -> maptype = SM_ALLOC \/ maptype = SM_FREE ->
  log_of os smo sm A -> allowed maptype A (member (segs sm)) ->
  smo_objsize smo + 8 * (1 + sm_space sm) < 2 ^ 63 ->
  exists sm' smo' os', space_map_sync sm maptype smo os syncpass txg = Ok (sm', smo', os') /\
    sm_ok sm' /\ segs sm' = [] /\ same_region sm sm' /\ smo_object smo' = smo_object smo /\
    log_of os' smo' sm (after maptype A (member (segs sm))) /\
    (forall obj, obj <> smo_object smo -> dmu_words os' obj = dmu_words os obj) /\
    extends os os' smo /\ smo_objsize smo <= smo_objsize smo' <= smo_objsize smo + 8 * (1 + sm_space sm).
Proof.
  intros (Hok & Hal & Hsz) Hmt (n0 & L1 & L2 & L3) Hall Hb. unfold space_map_sync.
  destruct (Z.eqb_spec (sm_space sm) 0) as [E0|E0].
  { pose proof (space_zero _ Hok E0) as Es. exists sm, smo, os. split_and!; try done; [|pose proof (ok_range _ Hok); lia]. exists n0. split_and!; [done|done|].
    eapply replays_ext; [done|]. intros x. pose proof (member_nil x). unfold after. rewrite Es. step_if; tauto. }
  cbn zeta. rewrite ot_numnodes_spec by apply Hok. fold (segs sm). set (k := length (segs sm)).
  set (N := Nat.min (8 + k) 512). pose proof (ok_range _ Hok) as Hrg.
  assert (Z.min (u64 ((8 + Z.of_nat k) * 8)) (Z.shiftl 1 SPACE_MAP_BLOCKSHIFT) = 8 * Z.of_nat N) as Ebs.
  { change (Z.shiftl 1 SPACE_MAP_BLOCKSHIFT) with 4096.
    assert (Z.of_nat k <= sm_space sm).
    { subst k. rewrite (ok_space _ Hok). destruct (ok_wf _ Hok) as [_ Hne]. clear -Hne. induction Hne; cbn; lia. }
    rewrite wrap_small by lia. lia. }
  rewrite Ebs. rewrite (Z.mul_comm 8), Z.div_mul, Nat2Z.id, (Z.mul_comm (Z.of_nat N)) by lia.
  set (d := debug_entry maptype syncpass txg). rewrite wr_in by (rewrite length_replicate; lia). run.
  destruct (ot_drain_spec (sm_root sm) (ok_tree _ Hok)) as (l & t & -> & Hp & Ht & Et). run.
  set (st0 := SyncState os (smo_objsize smo) _ 1).
  assert (stream os (smo_object smo) n0 N st0 [d]) as Hst0.
  { exists [], [d]. rewrite app_nil_r. cbn [length st_objsize st_os st_entry st_buf st0]. rewrite Nat.add_0_r.
    split_and!; [done|done|done|done|done| |by rewrite length_insert, length_replicate|lia|done].
    assert (0 < N)%nat as HN by lia. clearbody N. by destruct N; [lia|]. }
  destruct (put_segs_spec sm maptype os (smo_object smo) n0 N A (smo_alloc smo) [] l st0 [d]) as (st & ws & E & Hlen & Hst & Hr);
    [done|done|done|done|lia|done|done|lia|cbn; lia|done| |].
  { replace (after_n maptype (smo_alloc smo) (total [])) with (smo_alloc smo)
      by (unfold after_n; destruct (maptype =? SM_ALLOC); cbn; lia).
    apply (replays_ext _ _ A); [|intros x; pose proof (member_nil x); unfold after; step_if; tauto].
    constructor; [done|]. unfold d. rewrite debug_entry_decode. done. }
  change (total []) with 0 in E. rewrite Z.sub_0_r in E. rewrite E. run. cbn [Z.eqb verify]. run.
  pose proof (replays_bounds _ _ _ _ Hok Hr) as Hn.
  assert ((if maptype =? SM_ALLOC then u64 (smo_alloc smo + sm_space sm) else u64 (smo_alloc smo - sm_space sm)) =
          after_n maptype (smo_alloc smo) (sm_space sm)) as ->.
  { unfold after_n in *. destruct (maptype =? SM_ALLOC); apply wrap_small; lia. }
  destruct Hst as (fl & pend & -> & E1 & E2 & E3 & E4 & E5 & E6 & E7 & E8).
  rewrite length_app in Hlen. pose proof (total_fits sm _ Hok (ok_wf _ Hok) (ok_bounds _ Hok)) as [_ Hts].
  rewrite <- (ok_space _ Hok) in Hts.
  eexists _, _, _. split; [done|]. split_and!; [by apply empty_ok|done|done|done|..].
  - exists (n0 + length (fl ++ pend))%nat. cbn [smo_objsize smo_object smo_alloc].
    destruct (Z.eqb_spec (st_entry st) 0) as [Ez|Ez]; cbn [negb st_os st_objsize].
    + assert (pend = []) as -> by (destruct pend; [done|cbn in E4; lia]).
      rewrite app_nil_r in *. by rewrite E2.
    + rewrite E4, (Z.mul_comm _ 8). destruct (stream_flush os (smo_object smo) n0 (st_os st) (st_objsize st) (st_buf st) fl pend)
        as [F1 F2]; try done; [lia|].
      rewrite F1. split_and!; [|done|done]. rewrite E1, wrap_small, length_app by lia. lia.
  - intros obj Hobj. destruct (Z.eqb_spec (st_entry st) 0); cbn [negb st_os]; [by apply E8|].
    rewrite dmu_write_other by done. by apply E8.
  - intros m Hm Hm'. assert (m <= n0)%nat as Hmn by lia.
    assert (forall (l : list Z) k r, take k l = take n0 (dmu_words os (smo_object smo)) ++ r -> (n0 <= k)%nat ->
      (k <= length l)%nat -> (m <= length l)%nat /\ take m l = take m (dmu_words os (smo_object smo))) as Hpre.
    { intros l0 j r Hj Hk Hl. split; [lia|]. transitivity (take m (take j l0)); [by rewrite take_take, Nat.min_l by lia|].
      rewrite Hj, take_app_le by (rewrite length_take; lia). by rewrite take_take, Nat.min_l by lia. }
    destruct (Z.eqb_spec (st_entry st) 0); cbn [negb st_os]; [by apply (Hpre _ (n0 + length fl)%nat fl); [done|lia|]|].
    rewrite E4, (Z.mul_comm _ 8). destruct (stream_flush os (smo_object smo) n0 (st_os st) (st_objsize st) (st_buf st) fl pend)
      as [F1 F2]; try done; [lia|]. by apply (Hpre _ _ _ F1); [lia|].
  - cbn [smo_objsize]. destruct (Z.eqb_spec (st_entry st) 0); cbn [negb st_objsize]; rewrite ?wrap_small by lia; lia.
  - cbn [smo_objsize]. destruct (Z.eqb_spec (st_entry st) 0); cbn [negb st_objsize]; rewrite ?wrap_small by lia; lia.
Qed.

(** Syncing touches the object set only by writing to the object. *)
Section SyncFrame.
Variables (obj : Z) (P : objset -> Prop).
Hypothesis P_write : forall os off size buf, P os -> P (dmu_write os obj off size buf).

Lemma put_entry_frame bufsize st e st' : put_entry obj bufsize st e = Ok st' -> P (st_os st) -> P (st_os st').
Proof. unfold put_entry. intros H HP. inv_bind H. injection H as <-. cbn [st_os]. step_if; cbn; auto. Qed.

Lemma put_runs_frame bufsize maptype start size st st' :
  put_runs obj bufsize maptype start size st = Ok st' -> P (st_os st) -> P (st_os st').
Proof.
  unfold put_runs. intros H HP. revert H.
  apply (iter_inv (fun '(_, _, st) => P (st_os st)) (fun st => P (st_os st))); [| |done].
  - intros [[start' size'] st1] [[start2 size2] st2] HP1 Hr. step_if_in Hr; [done|]. inv_bind Hr.
    injection Hr as <- <- <-. by eapply put_entry_frame.
  - intros [[start' size'] st1] r HP1 Hr. step_if_in Hr; [by injection Hr as <-|]. by inv_bind Hr.
Qed.

Lemma put_segs_frame bufsize maptype sm l space st space' st' :
  put_segs obj bufsize maptype sm l space st = Ok (space', st') -> P (st_os st) -> P (st_os st').
Proof.
  revert space st. induction l as [|ss l IH]; intros space st H HP; cbn in H; [by injection H as <- <-|].
  inv_bind H. eapply IH; [done|]. by eapply put_runs_frame.
Qed.

Lemma sync_frame sm maptype smo os syncpass txg sm' smo' os' :
  smo_object smo = obj -> space_map_sync sm maptype smo os syncpass txg = Ok (sm', smo', os') -> P os -> P os'.
Proof.
  intros Eo H HP. unfold space_map_sync in H. step_if_in H; [by injection H as <- <- <-|].
  inv_bind H. destruct r0 as [l t]. inv_bind H. destruct r0 as [space st]. inv_bind H. injection H as _ _ <-.
  rewrite Eo in *. assert (P (st_os st)) by (by eapply put_segs_frame). step_if; cbn [st_os]; auto.
Qed.
End SyncFrame.

Lemma sm_ok_state sm loaded loading ops : sm_ok sm -> sm_ok (set_state sm loaded loading ops).
Proof. by intros []. Qed.

(** A map that has not been loaded and holds nothing, of a region that can be. *)
Definition fresh (sm : space_map) : Prop :=
  region_ok sm /\ segs sm = [] /\ sm_loaded sm = false /\ sm_loading sm = false /\ sm_ops sm = None /\
  0 < sm_size sm /\ aligned sm (sm_size sm).

(** A map loaded for [SM_FREE] starts out with the whole region. *)
Lemma load_start sm maptype alloc :
  sm_ok sm -> segs sm = [] -> 0 < sm_size sm -> aligned sm (sm_start sm) -> aligned sm (sm_size sm) ->
  maptype = SM_ALLOC \/ maptype = SM_FREE -> 0 <= alloc <= sm_size sm ->
  exists sm1, (if maptype =? SM_FREE then
                 sm ← space_map_add zfs_recover sm (sm_start sm) (sm_size sm); Ok (sm, u64 (sm_size sm - alloc))
               else Ok (sm, alloc)) =
      Ok (sm1, if maptype =? SM_FREE then sm_size sm - alloc else alloc) /\
    sm_ok sm1 /\ same_region sm sm1 /\ shows maptype (fun _ => False) 0 sm1.
Proof.
  intros Hok Hseg F4 Hal F5 Hmt Ha. destruct Hmt as [-> | ->]; cbn [Z.eqb SM_FREE SM_ALLOC Pos.eqb].
  - exists sm. split_and!; [done|done|done|]. split; [by rewrite (ok_space _ Hok), Hseg|]. intros x. rewrite Hseg.
    split; [apply member_nil|done].
  - destruct (add_free zfs_recover sm (sm_start sm) (sm_size sm) Hok) as (sm1 & E & K & R & T & M).
    + split_and!; [done|lia|lia|done|done].
    + intros x _. rewrite Hseg. apply member_nil.
    + rewrite E. run. pose proof R as (R2 & R3 & _). exists sm1. pose proof (ok_range _ Hok).
      rewrite R3, wrap_small by lia. split_and!; [done|done|done|].
      rewrite (ok_space _ Hok), Hseg in T. cbn in T. split; [lia|]. intros x. rewrite M, R2, R3, Hseg.
      pose proof (member_nil x). tauto.
Qed.

Lemma load_spec ops_at sm ops maptype smo os A :
  fresh sm -> maptype = SM_ALLOC \/ maptype = SM_FREE -> log_of os smo sm A -> smo_objsize smo < 2 ^ 63 ->
  exists sm', sm_ok sm' /\ shows maptype A (smo_alloc smo) sm' /\ compatible sm sm' /\
    sm_loaded sm' = true /\ sm_loading sm' = false /\ sm_ops sm' = ops /\ sm_ppd sm' = sm_ppd sm /\
    space_map_load ops_at [] sm ops maptype smo os =
      match ops with None => Ok sm' | Some _ => o ← deref_ops ops_at sm'; smop_load o sm' end.
Proof.
  intros ((Hok & Hal & Hsz) & Hseg & F1 & F2 & F3 & F4 & F5) Hmt (n & L1 & L2 & L3) Hb.
  assert (sm_space sm = 0) as Esp by (by rewrite (ok_space _ Hok), Hseg).
  set (sm0 := set_state sm false true None).
  assert (sm_ok sm0) as Hok0 by (by apply sm_ok_state).
  destruct (load_start sm0 maptype (smo_alloc smo) Hok0 Hseg F4 Hal F5 Hmt (replays_bounds _ _ _ _ Hok L3))
    as (sm1 & E1 & K1 & R1 & S1).
  pose proof R1 as (Q1 & Q2 & Q3 & Q4 & Q5 & Q6 & Q7). cbn in Q1, Q2, Q3, Q4, Q5, Q6, Q7.
  destruct (load_replay maptype sm1 (take n (dmu_words os (smo_object smo))) A (smo_alloc smo)) as (sm2 & E2 & K2 & R2 & S2);
    [tauto|done| |done|].
  { apply (replays_region sm); [|done]. by split_and!. }
  rewrite Q1 in E2. pose proof (load_loop_spec maptype (sm_start sm) smo os sm1 sm2 n L1 L2 ltac:(lia) E2) as E3.
  pose proof R2 as (P1 & P2 & P3 & P4 & P5 & P6 & P7).
  exists (set_state sm2 true false ops). split_and!; [by apply sm_ok_state|done|split_and!; cbn; congruence|done|done|done|cbn; congruence|].
  unfold space_map_load. cbn [space_map_load_wait]. rewrite F2. run. rewrite F1, F3. fold sm0.
  change (sm_ops sm0) with (@None Z). change (sm_space sm0) with (sm_space sm). rewrite Esp. cbn [Z.eqb verify]. run.
  rewrite E1. run. rewrite E3. run.
  replace (sm_space sm2) with (if maptype =? SM_FREE then sm_size sm0 - smo_alloc smo else smo_alloc smo).
  2: { unfold shows in S2. destruct (maptype =? SM_FREE); destruct S2 as [-> _]; [|done]. by rewrite P2, Q2. }
  rewrite Z.eqb_refl. cbn [verify]. run. done.
Qed.

(** ** Block pickers *)

(** [sm'] is [sm] with other picker-private data. *)
Definition set_ppd (sm : space_map) (ppd : option (list Z)) : space_map :=
  SpaceMap (sm_root sm) (sm_space sm) (sm_start sm) (sm_size sm) (sm_shift sm) (sm_loaded sm) (sm_loading sm)
    (sm_ops sm) ppd.

Lemma sm_ok_ppd sm ppd : sm_ok sm -> sm_ok (set_ppd sm ppd).
Proof. by intros []. Qed.

(** Where a block of [size] may go: in free space, at a multiple of the largest
    power of two that divides [size]. *)
Definition fits (sm : space_map) (start size : Z) : Prop :=
  is_held sm start size /\ start `mod` Z.land size (- size) = 0.

Definition sm_end (sm : space_map) : Z := sm_start sm + sm_size sm.

(** What a picker promises to [space_map_alloc] and the others: it changes only
    its private data, picks free space, and gives up only when nothing fits. *)
Class Picker (o : space_map_ops) (pk_inv : Z -> option (list Z) -> Prop) := {
  pk_load sm : sm_ok sm -> sm_ppd sm = None ->
    exists ppd, smop_load o sm = Ok (set_ppd sm ppd) /\ pk_inv (sm_end sm) ppd;
  pk_unload sm : pk_inv (sm_end sm) (sm_ppd sm) -> smop_unload o sm = Ok (set_ppd sm None);
  pk_alloc sm size :
    sm_ok sm -> pk_inv (sm_end sm) (sm_ppd sm) -> 0 < size -> sm_end sm + 2 * size < 2 ^ 64 ->
    exists ppd start, smop_alloc o sm size = Ok (set_ppd sm ppd, start) /\ pk_inv (sm_end sm) ppd /\
      ((start = 2 ^ 64 - 1 /\ forall a, ~ fits sm a size) \/ fits sm start size);
  pk_claim sm start size : pk_inv (sm_end sm) (sm_ppd sm) ->
    exists ppd, smop_claim o sm start size = Ok (set_ppd sm ppd) /\ pk_inv (sm_end sm) ppd;
  pk_free sm start size : pk_inv (sm_end sm) (sm_ppd sm) ->
    exists ppd, smop_free o sm start size = Ok (set_ppd sm ppd) /\ pk_inv (sm_end sm) ppd
}.

(** The natural alignment of a multiple of the unit is a multiple of the unit. *)
Lemma land_opp_divide size k : 0 < size -> 0 <= k -> size `mod` 2 ^ k = 0 -> (2 ^ k | Z.land size (- size)).
Proof.
  intros Hs Hk Hm. apply Z.mod_divide; [lia|]. rewrite <- Z.land_ones by done. apply Z.bits_inj'. intros i Hi.
  rewrite !Z.land_spec, Z.bits_0. rewrite <- Z.land_ones in Hm by done.
  assert (Z.testbit (Z.land size (Z.ones k)) i = false) as H by (by rewrite Hm, Z.bits_0).
  rewrite Z.land_spec in H. destruct (Z.testbit size i); [|done]. cbn in *. rewrite H. apply andb_false_r.
Qed.

Lemma fits_range sm start size :
  sm_ok sm -> 0 < size -> aligned sm size -> fits sm start size -> range_ok sm start size.
Proof.
  intros Hok Hs Ha [Hh Hm]. pose proof (ok_shift _ Hok) as Hsh.
  destruct (covering _ start (start + size) (ok_wf _ Hok) ltac:(lia) Hh) as (l1 & s & l2 & El & H1 & H2).
  pose proof (ok_bounds _ Hok) as Hb. rewrite El, List.Forall_app, List.Forall_cons_iff in Hb.
  split_and!; [done|lia|lia| |done]. unfold aligned.
  destruct (land_opp_divide size (sm_shift sm) Hs ltac:(lia) Ha) as [q Hq].
  destruct (Z.eq_dec (Z.land size (- size)) 0) as [E|E].
  - rewrite E in Hm. rewrite Zmod_0_r in Hm. by rewrite Hm, Z.mod_0_l by lia.
  - apply Z.mod_divide in Hm as [r Hr]; [|done]. rewrite Hr, Hq, Z.mul_assoc. apply Z.mod_mul. lia.
Qed.

(** Allocating through a picker that keeps its promises. *)
Lemma alloc_spec (o : space_map_ops) (pk_inv : Z -> option (list Z) -> Prop) (PK : Picker o pk_inv)
    (ops_at : ops_table) (sm : space_map) (size p : Z) :
  sm_ok sm -> pk_inv (sm_end sm) (sm_ppd sm) -> sm_ops sm = Some p -> ops_at p = Some o ->
  0 < size -> aligned sm size -> sm_end sm + 2 * size < 2 ^ 64 ->
  exists sm' start, space_map_alloc ops_at sm size = Ok (sm', start) /\ sm_ok sm' /\ pk_inv (sm_end sm') (sm_ppd sm') /\
    same_region (set_ppd sm (sm_ppd sm')) sm' /\
    ((start = 2 ^ 64 - 1 /\ segs sm' = segs sm /\ (forall a, ~ fits sm a size)) \/
     (fits sm start size /\ range_ok sm start size /\ sm_space sm' = sm_space sm - size /\
      forall x, member (segs sm') x <-> member (segs sm) x /\ ~ start <= x < start + size)).
Proof.
  intros Hok Hi Ho Hp Hs Ha Hb. unfold space_map_alloc, deref_ops. rewrite Ho, Hp. run.
  destruct (pk_alloc sm size Hok Hi Hs Hb) as (ppd & start & -> & Hi' & Hres). run.
  destruct Hres as [[-> Hno]|Hf].
  - exists (set_ppd sm ppd), (2 ^ 64 - 1). rewrite Z.eqb_refl. cbn [negb].
    split_and!; [done|by apply sm_ok_ppd|done|done|by left].
  - pose proof (fits_range sm start size Hok Hs Ha Hf) as Hr. pose proof (ok_range _ Hok) as Hrg.
    pose proof Hr as (R1 & R2 & R3 & _). rewrite (proj2 (Z.eqb_neq start (2 ^ 64 - 1))) by lia. cbn [negb].
    destruct (remove_covered zfs_recover (set_ppd sm ppd) start size) as (sm' & -> & K & R & T & M & _);
      [by apply sm_ok_ppd|done|apply Hf|]. run. exists sm', start. pose proof R as (E1 & E2 & _ & _ & _ & _ & Ep).
    cbn in E1, E2, Ep. split_and!; [done|done|unfold sm_end; by rewrite E1, E2, Ep|by rewrite Ep|]. right. by split_and!.
Qed.

(** ** Properties *)

(** C20: [space_map_sync] refines set union and set difference on disk.  When the
    object's log says that [A] is allocated and the map holds space that may be
    allocated ([SM_ALLOC]: none of it in [A]) or freed ([SM_FREE]: all of it in
    [A]), syncing returns, empties the map, and leaves a log that says that [A]
    and the map's space are allocated, or [A] without it; [smo_alloc] is its size
    and no other object is touched.  Segments of any length are split into runs
    and the buffer is written out as often as it fills up. *)
Theorem space_map_sync_refines (sm : space_map) (maptype : Z) (smo : space_map_obj) (os : objset)
    (syncpass txg : Z) (A : Z -> Prop) :
  region_ok sm -> maptype = SM_ALLOC \/ maptype = SM_FREE ->
  log_of os smo sm A -> allowed maptype A (member (segs sm)) ->
  smo_objsize smo + 8 * (1 + sm_space sm) < 2 ^ 63 ->
  exists sm' smo' os', space_map_sync sm maptype smo os syncpass txg = Ok (sm', smo', os') /\
    sm_ok sm' /\ segs sm' = [] /\ same_region sm sm' /\ smo_object smo' = smo_object smo /\
    log_of os' smo' sm (after maptype A (member (segs sm))) /\
    (forall obj, obj <> smo_object smo -> dmu_words os' obj = dmu_words os obj).
Proof.
  intros Hr Hm Hl Ha Hb. destruct (sync_spec sm maptype smo os syncpass txg A Hr Hm Hl Ha Hb) as (sm' & smo' & os' & E & H1 & H2 & H3 & H4 & H5 & H6 & _).
  exists sm', smo', os'. by split_and!.
Qed.

(** C21: [space_map_load] of an object whose log says that [A] is allocated
    returns, whatever the size of the object: loading for [SM_ALLOC] gives a map
    of exactly [A], loading for [SM_FREE] a map of exactly the rest of the region,
    and every [VERIFY] on the way holds.  The map comes out loaded, with the
    picker's vector installed and its load hook run. *)
Theorem space_map_load_refines (ops_at : ops_table) (sm : space_map) (ops : option Z) (maptype : Z) (smo : space_map_obj) (os : objset)
    (A : Z -> Prop) :
  fresh sm -> maptype = SM_ALLOC \/ maptype = SM_FREE -> log_of os smo sm A -> smo_objsize smo < 2 ^ 63 ->
  exists sm', sm_ok sm' /\ shows maptype A (smo_alloc smo) sm' /\ compatible sm sm' /\
    sm_loaded sm' = true /\ sm_loading sm' = false /\ sm_ops sm' = ops /\ sm_ppd sm' = sm_ppd sm /\
    space_map_load ops_at [] sm ops maptype smo os =
      match ops with None => Ok sm' | Some _ => o ← deref_ops ops_at sm'; smop_load o sm' end.
Proof. apply load_spec. Qed.

(** With any picker that keeps its promises, [space_map_alloc] returns; it
    either reports failure, and then no naturally aligned range of that size is
    free and the map is as it was, or it returns a free, aligned range within the
    region and the map holds exactly the rest. *)
Theorem space_map_alloc_correct (o : space_map_ops) (pk_inv : Z -> option (list Z) -> Prop) (PK : Picker o pk_inv)
    (ops_at : ops_table) (sm : space_map) (size p : Z) :
  sm_ok sm -> pk_inv (sm_end sm) (sm_ppd sm) -> sm_ops sm = Some p -> ops_at p = Some o ->
  0 < size -> aligned sm size -> sm_end sm + 2 * size < 2 ^ 64 ->
  exists sm' start, space_map_alloc ops_at sm size = Ok (sm', start) /\ sm_ok sm' /\ pk_inv (sm_end sm') (sm_ppd sm') /\
    ((start = 2 ^ 64 - 1 /\ segs sm' = segs sm /\ (forall a, ~ fits sm a size)) \/
     (fits sm start size /\ range_ok sm start size /\ sm_space sm' = sm_space sm - size /\
      forall x, member (segs sm') x <-> member (segs sm) x /\ ~ start <= x < start + size)).
Proof.
  intros Hok Hi Ho Hp Hs Ha Hb.
  destruct (alloc_spec o pk_inv PK ops_at sm size p Hok Hi Ho Hp Hs Ha Hb) as (sm' & start & E & H1 & H2 & _ & H3).
  exists sm', start. by split_and!.
Qed.
End Disk.

(** an entry of a space map object gives back the offset, the type and the
    run it was made from, for every offset of 47 bits, either type and every run
    from 1 to [SM_RUN_MAX]; it is a 64-bit word and not a debug entry, while the
    entry that starts every sync is one, whatever the pass and the transaction
    group. *)
Theorem space_map_entry_roundtrip (start maptype run syncpass txg : Z) :
  0 <= start < 2 ^ 47 -> maptype = SM_ALLOC \/ maptype = SM_FREE -> 1 <= run <= SM_RUN_MAX ->
  let e := entry start maptype run in
  0 <= e < 2 ^ 64 /\ SM_DEBUG_DECODE e = 0 /\ SM_TYPE_DECODE e = maptype /\ SM_OFFSET_DECODE e = start /\
  SM_RUN_DECODE e = run /\ SM_DEBUG_DECODE (debug_entry maptype syncpass txg) = 1.
Proof.
  intros Hs Hm Hr e. assert (0 <= maptype < 2) as Hm' by (destruct Hm as [-> | ->]; unfold SM_ALLOC, SM_FREE; lia).
  destruct (entry_decode start maptype run Hs Hm' Hr) as (H1 & H2 & H3 & H4 & H5).
  split_and!; [apply H1|apply H1|done|done|done|done|apply debug_entry_decode].
Qed.

(** ** Concrete objects *)

#[local] Existing Instance Avl.avl_OrdTree.
#[local] Existing Instance RamDmu.ram_dmu.

Lemma space_map_entry_roundtrip_witness :
  SM_OFFSET_DECODE (entry 5 SM_FREE 32768) = 5.
Proof.
  destruct (space_map_entry_roundtrip 5 SM_FREE 32768 1 7) as (_ & _ & _ & H & _);
    [lia|right; reflexivity|vm_compute; split; discriminate|exact H].
Defined.

Definition ex_smo : space_map_obj := Smo 1 0 0.
Definition ex_os : objset := (empty : gmap Z (list Z)).

Lemma ex_log : log_of ex_os ex_smo ex_two (fun _ => False).
Proof. exists 0%nat. split_and!; [done|cbn; lia|]. constructor. tauto. Qed.
Lemma ex_region : region_ok ex_two.
Proof. apply small_region; [apply ex_two_ok|done|vm_compute; discriminate]. Qed.

Lemma space_map_sync_refines_witness :
  exists sm' smo' os', space_map_sync ex_two SM_ALLOC ex_smo ex_os 1 7 = Ok (sm', smo', os') /\ segs sm' = [] /\
    log_of os' smo' ex_two (after SM_ALLOC (fun _ => False) (member (segs ex_two))).
Proof.
  destruct (space_map_sync_refines false ex_two SM_ALLOC ex_smo ex_os 1 7 (fun _ => False))
    as (sm' & smo' & os' & E & _ & Es & _ & _ & Hl & _);
    [apply ex_region|left; reflexivity|apply ex_log|intros x Hx []|vm_compute; reflexivity|].
  exists sm', smo', os'. split_and!; [exact E|exact Es|exact Hl].
Defined.

(** What [ex_two] syncs to, read back for its free space. *)
Lemma space_map_load_refines_witness :
  exists sm1 smo1 os1 sm', space_map_sync ex_two SM_ALLOC ex_smo ex_os 1 7 = Ok (sm1, smo1, os1) /\
    space_map_load false (fun _ => None) [] ex_empty None SM_FREE smo1 os1 = Ok sm' /\
    sm_space sm' = 65536 - 6144 /\ ~ member (segs sm') 100 /\ member (segs sm') 2048.
Proof.
  destruct (sync_spec false ex_two SM_ALLOC ex_smo ex_os 1 7 (fun _ => False))
    as (sm1 & smo1 & os1 & E & _ & _ & _ & _ & Hl & _);
    [apply ex_region|left; reflexivity|apply ex_log|intros x Hx []|vm_compute; reflexivity|].
  exists sm1, smo1, os1.
  assert (smo_objsize smo1 < 2 ^ 63 /\ smo_alloc smo1 = 6144) as [Hb Ha].
  { assert (match space_map_sync ex_two SM_ALLOC ex_smo ex_os 1 7 with
            | Ok (_, smo, _) => (smo_objsize smo <? 2 ^ 63) && (smo_alloc smo =? 6144) | Err _ => false end = true) as H
      by (vm_compute; reflexivity).
    rewrite E in H. b2p. done. }
  destruct (space_map_load_refines false (fun _ => None) ex_empty None SM_FREE smo1 os1
              (after SM_ALLOC (fun _ => False) (member (segs ex_two)))) as (sm' & _ & [S1 S2] & (C1 & C2 & _) & _ & _ & _ & _ & El);
    [|right; reflexivity| |exact Hb|].
  - split_and!; try reflexivity. apply small_region; [apply ex_empty_ok|reflexivity|vm_compute; discriminate].
  - apply (replays_region_log ex_two); [split_and!; reflexivity|exact Hl].
  - exists sm'. split_and!; [exact E|exact El| | |].
    + rewrite S1, Ha, <- C2. reflexivity.
    + rewrite S2. unfold after. cbn [Z.eqb SM_ALLOC]. intros [_ H]. apply H. right. exists (Seg 0 2048).
      segs_of ex_two. split; [left; reflexivity|cbn; lia].
    + rewrite S2, <- C1, <- C2. unfold after. cbn [Z.eqb SM_ALLOC]. split; [cbn; lia|]. intros [[]|H]. revert H.
      segs_of ex_two. rewrite !member_cons. cbn [ss_start ss_end]. pose proof (member_nil 2048). lia || intuition lia.
Defined.
End SpaceMapDisk.
