(* ===== verification/Bits.v ===== *)
(** * Powers of two: sys/sysmacros.h and highbit

    The alignment macros of sys/sysmacros.h on [uint64_t], and the two copies of
    [highbit]: maczfs/kernel/zfs_context.c, which has the test of the upper half
    of the word compiled out, and lib/libzpool/common/kernel.c, which has it. *)

From stdpp Require Import base option numbers list.
From S2P Require Import Prelude.
Local Open Scope Z_scope.

(** [(-(-(x) & -(align)))] on [uint64_t] *)
Definition P2ROUNDUP (x align : Z) : Z := u64 (- Z.land (u64 (- x)) (u64 (- align))).
Definition P2ALIGN (x align : Z) : Z := Z.land x (u64 (- align)).

(** One test of [highbit]: [if (i & mask) { h += n; i >>= n; }] *)
Definition hb_step (mask n : Z) (s : Z * Z) : Z * Z :=
  let '(h, i) := s in
  if negb (Z.land i mask =? 0) then (h + n, Z.shiftr i n) else (h, i).

(** maczfs/kernel/zfs_context.c *)
Definition highbit (i : Z) : Z :=
  if i =? 0 then 0
  else
    let s := hb_step 0xffff0000 16 (1, i) in
    let s := hb_step 0xff00 8 s in
    let s := hb_step 0xf0 4 s in
    let s := hb_step 0xc 2 s in
    let '(h, i) := s in
    if negb (Z.land i 0x2 =? 0) then h + 1 else h.

(** lib/libzpool/common/kernel.c, _LP64 *)
Definition highbit_lp64 (i : Z) : Z :=
  if i =? 0 then 0
  else
    let s := hb_step 0xffffffff00000000 32 (1, i) in
    let s := hb_step 0xffff0000 16 s in
    let s := hb_step 0xff00 8 s in
    let s := hb_step 0xf0 4 s in
    let s := hb_step 0xc 2 s in
    let '(h, i) := s in
    if negb (Z.land i 0x2 =? 0) then h + 1 else h.

(** ** Lemmas *)

Lemma land_mask_high i n : 0 <= n -> 0 <= i < 2 ^ (2 * n) ->
  Z.land i (Z.shiftl (Z.ones n) n) = Z.shiftl (Z.shiftr i n) n.
Proof.
  intros Hn Hi. apply Z.bits_inj'. intros k Hk. rewrite Z.land_spec.
  destruct (decide (k < n)).
  - rewrite !Z.shiftl_spec_low by lia. apply andb_false_r.
  - rewrite !Z.shiftl_spec, Z.shiftr_spec by lia. replace (k - n + n) with k by lia.
    destruct (decide (k < 2 * n)).
    + rewrite Z.ones_spec_low by lia. apply andb_true_r.
    + by rewrite (bits_above i (2 * n)) by lia.
Qed.

(** A step narrows the argument to half its width and keeps [h + log2 i]. *)
Lemma hb_step_spec mask n h i :
  mask = Z.shiftl (Z.ones n) n -> 0 < n -> 0 < i < 2 ^ (2 * n) ->
  exists h' i', hb_step mask n (h, i) = (h', i') /\ 0 < i' < 2 ^ n /\ h' + Z.log2 i' = h + Z.log2 i.
Proof.
  intros -> Hn Hi. unfold hb_step. rewrite land_mask_high by lia.
  assert (2 ^ (2 * n) = 2 ^ n * 2 ^ n) as E by (rewrite <- Z.pow_add_r by lia; f_equal; lia).
  pose proof (Z.pow_pos_nonneg 2 n ltac:(lia) ltac:(lia)).
  assert (0 <= i / 2 ^ n < 2 ^ n) as Hd.
  { split; [apply Z.div_pos; lia|]. apply Z.div_lt_upper_bound; lia. }
  destruct (Z.eqb_spec (Z.shiftl (Z.shiftr i n) n) 0) as [Ez|Ez]; cbn [negb].
  - exists h, i. split_and!; [done|lia| |done].
    rewrite Z.shiftl_mul_pow2, Z.shiftr_div_pow2 in Ez by lia.
    assert (i / 2 ^ n = 0) as Eq by nia. apply Z.div_small_iff in Eq; lia.
  - exists (h + n), (Z.shiftr i n). split_and!; [done| |rewrite Z.shiftr_div_pow2; lia|].
    + rewrite Z.shiftr_div_pow2 by lia. destruct (decide (i / 2 ^ n = 0)); [|lia].
      rewrite Z.shiftr_div_pow2, e in Ez by lia. rewrite Z.shiftl_0_l in Ez. lia.
    + rewrite Z.log2_shiftr by lia. rewrite Z.max_r; [lia|].
      enough (n <= Z.log2 i) by lia. apply Z.log2_le_pow2; [lia|].
      rewrite Z.shiftl_mul_pow2, Z.shiftr_div_pow2 in Ez by lia.
      destruct (decide (i < 2 ^ n)); [|lia]. rewrite Z.div_small in Ez by lia. lia.
Qed.

Lemma hb_last h i : 0 < i < 2 ^ 2 -> (if negb (Z.land i 0x2 =? 0) then h + 1 else h) = h + Z.log2 i.
Proof.
  intros Hi. change (2 ^ 2) with 4 in Hi. assert (i = 1 \/ i = 2 \/ i = 3) as [-> |[-> | ->]] by lia.
  - change (h = h + 0). lia.
  - change (h + 1 = h + 1). lia.
  - change (h + 1 = h + 1). lia.
Qed.

Lemma highbit_low i : 0 < i < 2 ^ 32 -> highbit i = Z.log2 i + 1.
Proof.
  intros Hi. unfold highbit. rewrite (proj2 (Z.eqb_neq i 0)) by lia.
  destruct (hb_step_spec 0xffff0000 16 1 i) as (h1 & i1 & -> & B1 & L1); [done|lia|done|].
  destruct (hb_step_spec 0xff00 8 h1 i1) as (h2 & i2 & -> & B2 & L2); [done|lia|done|].
  destruct (hb_step_spec 0xf0 4 h2 i2) as (h3 & i3 & -> & B3 & L3); [done|lia|done|].
  destruct (hb_step_spec 0xc 2 h3 i3) as (h4 & i4 & -> & B4 & L4); [done|lia|done|].
  rewrite hb_last by done. lia.
Qed.

Lemma highbit_lp64_spec i : 0 < i < 2 ^ 64 -> highbit_lp64 i = Z.log2 i + 1.
Proof.
  intros Hi. unfold highbit_lp64. rewrite (proj2 (Z.eqb_neq i 0)) by lia.
  destruct (hb_step_spec 0xffffffff00000000 32 1 i) as (h0 & i0 & -> & B0 & L0); [done|lia|done|].
  destruct (hb_step_spec 0xffff0000 16 h0 i0) as (h1 & i1 & -> & B1 & L1); [done|lia|done|].
  destruct (hb_step_spec 0xff00 8 h1 i1) as (h2 & i2 & -> & B2 & L2); [done|lia|done|].
  destruct (hb_step_spec 0xf0 4 h2 i2) as (h3 & i3 & -> & B3 & L3); [done|lia|done|].
  destruct (hb_step_spec 0xc 2 h3 i3) as (h4 & i4 & -> & B4 & L4); [done|lia|done|].
  rewrite hb_last by done. lia.
Qed.

(** Whatever the argument, at least 1 and at most 32. *)
Lemma highbit_range i : i <> 0 -> 1 <= highbit i <= 32.
Proof.
  intros Hi. unfold highbit, hb_step. rewrite (proj2 (Z.eqb_neq i 0)) by done.
  repeat (match goal with |- context [if negb (?a =? 0) then _ else _] => destruct (a =? 0) end; cbn [negb]); lia.
Qed.

(** The largest power of two that divides a number. *)
Lemma land_opp_double m : Z.land (2 * m) (- (2 * m)) = 2 * Z.land m (- m).
Proof.
  replace (- (2 * m)) with (2 * (- m)) by lia. rewrite <- !(Z.mul_comm _ 2).
  change 2 with (2 ^ 1). rewrite <- !Z.shiftl_mul_pow2 by lia. by rewrite <- Z.shiftl_land.
Qed.

Lemma land_opp_odd m : Z.land (2 * m + 1) (- (2 * m + 1)) = 1.
Proof.
  replace (- (2 * m + 1)) with (2 * Z.lnot m + 1) by (unfold Z.lnot; lia).
  apply Z.bits_inj'. intros k Hk. rewrite Z.land_spec. destruct (decide (k = 0)) as [->|Hne].
  - by rewrite !Z.testbit_odd_0.
  - replace k with (Z.succ (k - 1)) by lia. rewrite !Z.testbit_odd_succ by lia. rewrite Z.lnot_spec by lia.
    rewrite andb_negb_r. symmetry. apply (bits_above 1 1); [done|lia].
Qed.

Lemma land_opp_pow2 n : 0 < n -> exists k, 0 <= k /\ Z.land n (- n) = 2 ^ k /\ (2 ^ k | n).
Proof.
  destruct n as [|p|p]; [lia| |lia]. intros _. induction p as [p IH|p IH|].
  - exists 0. split_and!; [lia| |apply Z.divide_1_l].
    change (Z.pos p~1) with (2 * Z.pos p + 1). apply land_opp_odd.
  - destruct IH as (k & Hk & E & [q Hq]). exists (k + 1). rewrite Z.pow_add_r by lia. split_and!; [lia| |].
    + change (Z.pos p~0) with (2 * Z.pos p). rewrite land_opp_double, E. lia.
    + exists q. change (Z.pos p~0) with (2 * Z.pos p). rewrite Hq at 1. lia.
  - exists 0. split_and!; [lia|done|apply Z.divide_1_l].
Qed.

Lemma land_u64_opp x n : 0 <= x < 2 ^ 64 -> Z.land x (u64 (- n)) = Z.land x (- n).
Proof.
  intros Hx. apply Z.bits_inj'. intros k Hk. rewrite !Z.land_spec. destruct (decide (k < 64)).
  - unfold wrap. rewrite Z.mod_pow2_bits_low by lia. done.
  - by rewrite (bits_above x 64 k) by lia.
Qed.

(** Clearing the low bits. *)
Lemma land_opp_pow2_align x k : 0 <= k -> Z.land x (- 2 ^ k) = x - x `mod` 2 ^ k.
Proof.
  intros Hk. replace (- 2 ^ k) with (Z.lnot (Z.ones k)) by (unfold Z.lnot; rewrite Z.ones_equiv; lia).
  rewrite <- Z.ldiff_land, Z.ldiff_ones_r by done. rewrite Z.shiftl_mul_pow2, Z.shiftr_div_pow2 by done.
  pose proof (Z.div_mod x (2 ^ k)). lia.
Qed.

(** [P2ROUNDUP] gives the least multiple of the alignment from [x] on. *)
Lemma P2ROUNDUP_spec x k :
  0 <= k -> 0 < x -> x + 2 ^ k < 2 ^ 64 ->
  x <= P2ROUNDUP x (2 ^ k) < x + 2 ^ k /\ P2ROUNDUP x (2 ^ k) `mod` 2 ^ k = 0.
Proof.
  intros Hk Hx Hb. unfold P2ROUNDUP. pose proof (Z.pow_pos_nonneg 2 k ltac:(lia) Hk).
  assert (u64 (- x) = 2 ^ 64 - x) as E1.
  { unfold wrap. rewrite <- (Z.mod_add (- x) 1) by lia. rewrite Z.mod_small; lia. }
  rewrite land_u64_opp by (rewrite E1; lia). rewrite E1, land_opp_pow2_align by done.
  assert (k < 64) as Hk64 by (apply (Z.pow_lt_mono_r_iff 2); lia).
  assert ((2 ^ 64) `mod` 2 ^ k = 0) as E2.
  { replace (2 ^ 64) with (2 ^ (64 - k) * 2 ^ k) by (rewrite <- Z.pow_add_r by lia; f_equal; lia). apply Z.mod_mul. lia. }
  set (m := (2 ^ 64 - x) `mod` 2 ^ k). pose proof (Z.mod_pos_bound (2 ^ 64 - x) (2 ^ k) ltac:(lia)) as Hm. fold m in Hm.
  assert (u64 (- (2 ^ 64 - x - m)) = x + m) as ->.
  { unfold wrap. replace (- (2 ^ 64 - x - m)) with (x + m + (-1) * 2 ^ 64) by lia. rewrite Z.mod_add by lia. apply Z.mod_small. lia. }
  split; [lia|]. unfold m. rewrite Zplus_mod_idemp_r. replace (x + (2 ^ 64 - x)) with (2 ^ 64) by lia. done.
Qed.

Lemma P2ROUNDUP_0 k : 0 <= k -> P2ROUNDUP 0 (2 ^ k) = 0.
Proof. intros. unfold P2ROUNDUP. by rewrite Z.land_0_l. Qed.

Lemma P2ROUNDUP_ge x k :
  0 <= k -> 0 <= x -> x + 2 ^ k < 2 ^ 64 ->
  x <= P2ROUNDUP x (2 ^ k) < x + 2 ^ k /\ P2ROUNDUP x (2 ^ k) `mod` 2 ^ k = 0.
Proof.
  intros Hk Hx Hb. destruct (decide (x = 0)) as [->|]; [|apply P2ROUNDUP_spec; lia].
  rewrite P2ROUNDUP_0 by done. pose proof (Z.pow_pos_nonneg 2 k ltac:(lia) Hk). rewrite Z.mod_0_l by lia. lia.
Qed.
