(* ===== verification/Metaslab.v ===== *)
(** * The first-fit block allocator of fs/zfs/metaslab.c

    The allocator as a picker for space maps: it keeps the promises of
    SpaceMapDisk.Picker, finding space whenever some is free. *)

From Stdlib Require Import List Permutation Sorted.
From stdpp Require Import base option numbers list.
From S2P Require Import Prelude Bits OrdTree Avl SpaceMap SpaceMapDisk.
Import SpaceMap SpaceMapDisk.
Local Open Scope Z_scope.

Module Metaslab.

Section FirstFit.
Context {OT : OrdTree space_seg}.

(** ** The first-fit block allocator *)

Definition metaslab_ff_load (sm : space_map) : outcome space_map :=
  _ ← verify (match sm_ppd sm with None => true | Some _ => false end);
  Ok (set_ppd sm (Some (replicate 64 0))).

Definition metaslab_ff_unload (sm : space_map) : outcome space_map :=
  Ok (set_ppd sm None).

(** [while (ss != NULL) { ... ss = AVL_NEXT(t, ss); }] *)
Fixpoint ff_scan (fuel : nat) (t : ot space_seg) (ss : option space_seg) (align size : Z)
    : outcome (option Z) :=
  match ss with
  | None => Ok None
  | Some s =>
      match fuel with
      | O => Err Fuel
      | S fuel' =>
          let offset := P2ROUNDUP (ss_start s) align in
          if u64 (offset + size) <=? ss_end s then Ok (Some offset)
          else ff_scan fuel' t (ot_walk t s true) align size
      end
  end.

(** The function calls itself once, with the cursor at 0: two rounds. *)
Fixpoint ff_alloc (rounds : nat) (sm : space_map) (size : Z) : outcome (space_map * Z) :=
  match rounds with
  | O => Err Fuel
  | S rounds' =>
      let t := sm_root sm in
      let align := Z.land size (u64 (- size)) in
      match sm_ppd sm with
      | None => Err Fault
      | Some ppd =>
          let k := highbit align - 1 in
          cursor ← rd ppd k;
          let ss :=
            match ot_find (space_map_seg_compare (Seg cursor (u64 (cursor + size)))) t with
            | inl ss => Some ss
            | inr wher => ot_nearest t wher true
            end in
          r ← ff_scan (Z.to_nat (ot_numnodes t)) t ss align size;
          match r with
          | Some offset =>
              ppd ← wr ppd k (u64 (offset + size));
              Ok (set_ppd sm (Some ppd), offset)
          | None =>
              if cursor =? 0 then Ok (sm, 2 ^ 64 - 1)
              else
                ppd ← wr ppd k 0;
                ff_alloc rounds' (set_ppd sm (Some ppd)) size
          end
      end
  end.

Definition metaslab_ff_alloc (sm : space_map) (size : Z) : outcome (space_map * Z) := ff_alloc 2 sm size.
Definition metaslab_ff_claim (sm : space_map) (start size : Z) : outcome space_map := Ok sm.
Definition metaslab_ff_free (sm : space_map) (start size : Z) : outcome space_map := Ok sm.

Definition metaslab_ff_ops : space_map_ops :=
  Ops metaslab_ff_load metaslab_ff_unload metaslab_ff_alloc metaslab_ff_claim metaslab_ff_free.

(** ** The allocator as a picker *)

(** 64 cursors within the region. *)
Definition ff_inv (en : Z) (ppd : option (list Z)) : Prop :=
  exists l, ppd = Some l /\ length l = 64%nat /\ Forall (fun c => 0 <= c <= en) l.

Definition fit_in (align size : Z) (s : space_seg) : bool := P2ROUNDUP (ss_start s) align + size <=? ss_end s.

(** The scan finds the first segment from [l2] on with room. *)
Lemma ff_scan_spec t align size l1 l2 fuel :
  ot_elems t = l1 ++ l2 -> List.NoDup (l1 ++ l2) -> (length l2 <= fuel)%nat ->
  (forall s, In s l2 -> u64 (P2ROUNDUP (ss_start s) align + size) = P2ROUNDUP (ss_start s) align + size) ->
  (exists s, In s l2 /\ fit_in align size s = true /\
     ff_scan fuel t (head l2) align size = Ok (Some (P2ROUNDUP (ss_start s) align))) \/
  ((forall s, In s l2 -> fit_in align size s = false) /\ ff_scan fuel t (head l2) align size = Ok None).
Proof.
  revert l1 fuel. induction l2 as [|s l2 IH]; intros l1 fuel E Hnd Hf Hw.
  { right. split; [by intros|]. by destruct fuel. }
  destruct fuel as [|fuel]; cbn in Hf; [lia|]. cbn [head ff_scan]. cbn zeta. rewrite Hw by (by left).
  fold (fit_in align size s). destruct (fit_in align size s) eqn:Ef.
  { left. exists s. split_and!; [by left|done|done]. }
  destruct (ot_walk_spec t s l1 l2 E Hnd) as [_ ->].
  destruct (IH (l1 ++ [s]) fuel) as [(s' & H1 & H2 & H3)|[H1 H2]].
  - by rewrite <- app_assoc.
  - by rewrite <- app_assoc.
  - lia.
  - intros. apply Hw. by right.
  - left. exists s'. split_and!; [by right|done|done].
  - right. split; [|done]. intros s' [<-|Hs']; [done|by apply H1].
Qed.

(** Where the scan starts: every segment left of it ends at or before the cursor,
    or lies strictly within the range searched for. *)
Lemma ff_start sm cursor size :
  sm_ok sm -> 0 < size -> 0 <= cursor -> cursor + size < 2 ^ 64 ->
  exists l1 l2, segs sm = l1 ++ l2 /\
    match ot_find (space_map_seg_compare (Seg cursor (u64 (cursor + size)))) (sm_root sm) with
    | inl ss => Some ss
    | inr wher => ot_nearest (sm_root sm) wher true
    end = head l2 /\
    (forall s, In s l1 -> ss_end s <= cursor \/ ss_end s < cursor + size).
Proof.
  intros Hok Hs Hc Hb. rewrite wrap_small by lia. pose proof (ok_wf _ Hok) as Hwf.
  destruct (partition (segs sm) cursor (cursor + size) Hwf ltac:(lia)) as (l1 & m & l2 & E & P1 & P2 & P3).
  rewrite E in Hwf.
  assert (cmp_split (space_map_seg_compare (Seg cursor (cursor + size))) l1 m l2) as Hsp.
  { apply probe_split; [done|lia|done|..]; by rewrite Z.max_l by lia. }
  destruct (decide (m = [])) as [->|Hm].
  - destruct (ot_find_none (sm_root sm) _ l1 l2 (ok_tree _ Hok) E Hsp) as (i & -> & _ & N & _).
    exists l1, l2. split_and!; [done|done|]. intros s Hs'. rewrite List.Forall_forall in P1. left. by apply P1.
  - destruct (ot_find_some (sm_root sm) _ l1 m l2 (ok_tree _ Hok) E Hsp Hm) as (x & -> & Hx).
    apply in_split in Hx as (ma & mb & ->). exists (l1 ++ ma), (x :: mb ++ l2).
    split_and!; [rewrite E, <- !app_assoc; done|done|].
    intros s [Hs'|Hs']%in_app_iff; [left; rewrite List.Forall_forall in P1; by apply P1|right].
    rewrite List.Forall_app, List.Forall_cons_iff in P2. destruct P2 as (_ & Px & _).
    apply wf_app in Hwf as (_ & Hwf & _). rewrite <- app_assoc in Hwf. apply wf_app in Hwf as (_ & _ & Hg).
    specialize (Hg s x Hs' (or_introl eq_refl)). red in Hg. lia.
Qed.

Definition ff_align (size : Z) : Z := Z.land size (u64 (- size)).

Lemma ff_align_pow2 size :
  0 < size < 2 ^ 64 -> exists k, 0 <= k /\ ff_align size = 2 ^ k /\ Z.land size (- size) = 2 ^ k /\ 2 ^ k <= size.
Proof.
  intros Hs. destruct (land_opp_pow2 size ltac:(lia)) as (k & Hk & E & Hd). exists k.
  unfold ff_align. rewrite land_u64_opp by lia. split_and!; [done|done|done|]. by apply Z.divide_pos_le; [lia|].
Qed.

Lemma seg_bounds sm s : sm_ok sm -> In s (segs sm) -> 0 <= sm_start sm <= ss_start s /\ ss_start s < ss_end s <= sm_end sm.
Proof.
  intros Hok Hin. pose proof (ok_bounds _ Hok) as Hb. pose proof (ok_wf _ Hok) as [_ Hne]. pose proof (ok_range _ Hok).
  rewrite List.Forall_forall in Hb, Hne. specialize (Hb s Hin). specialize (Hne s Hin). cbn in *. unfold sm_end. lia.
Qed.

(** A segment with room has a fitting range, and a fitting range lies in one. *)
Lemma fit_in_fits sm s size :
  sm_ok sm -> 0 < size -> sm_end sm + 2 * size < 2 ^ 64 -> In s (segs sm) -> fit_in (ff_align size) size s = true ->
  fits sm (P2ROUNDUP (ss_start s) (ff_align size)) size /\
  0 <= P2ROUNDUP (ss_start s) (ff_align size) + size <= sm_end sm.
Proof.
  intros Hok Hs Hb Hin Hf. pose proof (seg_bounds sm s Hok Hin).
  destruct (ff_align_pow2 size ltac:(lia)) as (k & Hk & E & E' & Hle). rewrite E in *.
  destruct (P2ROUNDUP_ge (ss_start s) k Hk ltac:(lia) ltac:(lia)) as [Hr Hm]. unfold fit_in in Hf. b2p.
  split; [|lia]. split; [|by rewrite E']. apply (held_of_seg sm s); [done|lia|lia].
Qed.

Lemma fits_fit_in sm a size :
  sm_ok sm -> 0 < size -> sm_end sm + 2 * size < 2 ^ 64 -> fits sm a size ->
  exists s, In s (segs sm) /\ ss_start s <= a /\ a + size <= ss_end s /\ fit_in (ff_align size) size s = true.
Proof.
  intros Hok Hs Hb [Hh Hm].
  destruct (covering _ a (a + size) (ok_wf _ Hok) ltac:(lia) Hh) as (l1 & s & l2 & El & H1 & H2).
  assert (In s (segs sm)) as Hin by (rewrite El, in_app_iff; right; by left).
  exists s. split_and!; [done|done|done|]. pose proof (seg_bounds sm s Hok Hin).
  destruct (ff_align_pow2 size ltac:(lia)) as (k & Hk & E & E' & Hle). rewrite E' in Hm. rewrite E.
  destruct (P2ROUNDUP_ge (ss_start s) k Hk ltac:(lia) ltac:(lia)) as [Hr Hm'].
  pose proof (Z.pow_pos_nonneg 2 k ltac:(lia) Hk).
  unfold fit_in. apply Z.leb_le. enough (P2ROUNDUP (ss_start s) (2 ^ k) <= a) by lia.
  apply Z.mod_divide in Hm as [q Hq]; [|lia]. apply Z.mod_divide in Hm' as [q' Hq']; [|lia].
  destruct (decide (q' <= q)); [nia|]. assert (q + 1 <= q') by lia. nia.
Qed.

(** One round: a fitting range, or none from the cursor on, and none at all when
    the cursor is 0. *)
Definition ff_round (sm : space_map) (cursor size : Z) : outcome (option Z) :=
  ff_scan (Z.to_nat (ot_numnodes (sm_root sm))) (sm_root sm)
    match ot_find (space_map_seg_compare (Seg cursor (u64 (cursor + size)))) (sm_root sm) with
    | inl ss => Some ss
    | inr wher => ot_nearest (sm_root sm) wher true
    end (ff_align size) size.

Lemma ff_round_spec sm cursor size :
  sm_ok sm -> 0 < size -> sm_end sm + 2 * size < 2 ^ 64 -> 0 <= cursor <= sm_end sm ->
  (exists offset, ff_round sm cursor size = Ok (Some offset) /\ fits sm offset size /\ 0 <= offset + size <= sm_end sm) \/
  (ff_round sm cursor size = Ok None /\ (cursor = 0 -> forall a, ~ fits sm a size)).
Proof.
  intros Hok Hs Hb Hc. unfold ff_round.
  destruct (ff_start sm cursor size Hok Hs ltac:(lia) ltac:(lia)) as (l1 & l2 & E & -> & Hl1).
  assert (forall s, In s (segs sm) -> u64 (P2ROUNDUP (ss_start s) (ff_align size) + size) = P2ROUNDUP (ss_start s) (ff_align size) + size) as Hw.
  { intros s Hin. pose proof (seg_bounds sm s Hok Hin). destruct (ff_align_pow2 size ltac:(lia)) as (k & Hk & -> & _ & Hle).
    destruct (P2ROUNDUP_ge (ss_start s) k Hk ltac:(lia) ltac:(lia)) as [Hr _]. apply wrap_small. lia. }
  assert (forall s, In s l2 -> In s (segs sm)) as Hin2 by (intros; rewrite E, in_app_iff; by right).
  destruct (ff_scan_spec (sm_root sm) (ff_align size) size l1 l2 (Z.to_nat (ot_numnodes (sm_root sm))) E)
    as [(s & Hs2 & Hf & R)|[Hno R]].
  - rewrite <- E. apply wf_NoDup, (ok_wf _ Hok).
  - rewrite ot_numnodes_spec, Nat2Z.id by apply Hok. fold (segs sm). rewrite E, length_app. lia.
  - intros. by apply Hw, Hin2.
  - left. eexists. split; [exact R|]. apply fit_in_fits; auto.
  - right. split; [done|]. intros -> a Hfit.
    destruct (fits_fit_in sm a size Hok Hs Hb Hfit) as (s & Hin & H1 & H2 & Hf).
    pose proof (seg_bounds sm s Hok Hin). rewrite E in Hin. apply in_app_iff in Hin as [Hin|Hin].
    + specialize (Hl1 s Hin). lia.
    + rewrite (Hno s Hin) in Hf. done.
Qed.

Lemma ff_inv_rd en ppd size :
  ff_inv en (Some ppd) -> 0 < size < 2 ^ 64 ->
  exists c, rd ppd (highbit (ff_align size) - 1) = Ok c /\ 0 <= c <= en /\
    forall v, 0 <= v <= en -> exists ppd', wr ppd (highbit (ff_align size) - 1) v = Ok ppd' /\ ff_inv en (Some ppd') /\
      rd ppd' (highbit (ff_align size) - 1) = Ok v.
Proof.
  intros (l & E & Hl & HF) Hs. injection E as <-.
  destruct (ff_align_pow2 size Hs) as (k & Hk & Ea & _ & _).
  assert (1 <= highbit (ff_align size) <= 32) as Hh.
  { apply highbit_range. rewrite Ea. pose proof (Z.pow_pos_nonneg 2 k ltac:(lia) Hk). lia. }
  set (i := highbit (ff_align size) - 1) in *. destruct (rd_in ppd i ltac:(lia)) as [c Hc].
  exists c. split_and!; [done| | |].
  1,2: apply rd_ok in Hc as [_ Hc]; apply (Forall_lookup_1 _ _ _ _ HF) in Hc; cbn in Hc; lia.
  intros v Hv. destruct (wr_ex ppd i v ltac:(lia)) as [ppd' Hw]. exists ppd'. split_and!; [done| |by eapply rd_wr_eq].
  exists ppd'. split_and!; [done|by rewrite (wr_len _ _ _ _ Hw)|]. apply wr_ok in Hw as [_ ->]. by apply Forall_insert.
Qed.

Lemma ff_alloc_spec sm size :
  sm_ok sm -> ff_inv (sm_end sm) (sm_ppd sm) -> 0 < size -> sm_end sm + 2 * size < 2 ^ 64 ->
  exists ppd start, metaslab_ff_alloc sm size = Ok (set_ppd sm ppd, start) /\ ff_inv (sm_end sm) ppd /\
    ((start = 2 ^ 64 - 1 /\ forall a, ~ fits sm a size) \/ fits sm start size).
Proof.
  intros Hok Hi Hs Hb. pose proof (ok_range _ Hok) as Hrg.
  assert (size < 2 ^ 64 /\ 0 <= sm_end sm) as [Hs64 He] by (unfold sm_end in *; lia).
  destruct (sm_ppd sm) as [ppd|] eqn:Ep; [|destruct Hi as (l & ? & _); done].
  destruct (ff_inv_rd _ _ _ Hi (conj Hs Hs64)) as (c & Hc & Hcb & Hwr).
  unfold metaslab_ff_alloc. cbn [ff_alloc]. rewrite Ep. cbn zeta. fold (ff_align size). rewrite Hc. run. fold (ff_round sm c size).
  destruct (ff_round_spec sm c size Hok Hs Hb Hcb) as [(off & -> & Hf & Ho)|[-> Hno]]; run.
  { destruct (Hwr (off + size) Ho) as (ppd' & W & Hi' & _). rewrite wrap_small by lia. rewrite W. run.
    exists (Some ppd'), off. split_and!; [done|done|by right]. }
  destruct (Z.eqb_spec c 0) as [->|Hne].
  { exists (Some ppd), (2 ^ 64 - 1). split_and!; [by destruct sm; cbn in *; subst|done|left; auto]. }
  destruct (Hwr 0 ltac:(lia)) as (ppd' & -> & Hi' & Hc'). run. cbn [sm_ppd set_ppd sm_root]. rewrite Hc'. run.
  fold (ff_round sm 0 size).
  destruct (ff_inv_rd _ _ _ Hi' (conj Hs Hs64)) as (c' & Hc'' & _ & Hwr'). assert (c' = 0) as -> by congruence.
  destruct (ff_round_spec sm 0 size Hok Hs Hb ltac:(lia)) as [(off & -> & Hf & Ho)|[-> Hno']]; run.
  - destruct (Hwr' (off + size) Ho) as (ppd2 & W & Hi2 & _). rewrite wrap_small by lia. rewrite W. run.
    exists (Some ppd2), off. split_and!; [done|done|by right].
  - exists (Some ppd'), (2 ^ 64 - 1). split_and!; [done|done|left; auto].
Qed.

(** The first-fit allocator keeps the promises of a picker. *)
#[export] Instance ff_picker : Picker metaslab_ff_ops ff_inv.
Proof.
  split.
  - intros sm Hok Hp. exists (Some (replicate 64 0)). split; [cbn [smop_load metaslab_ff_ops]; unfold metaslab_ff_load; by rewrite Hp|].
    exists (replicate 64 0). split_and!; [done|done|]. apply Forall_replicate. pose proof (ok_range _ Hok). unfold sm_end. lia.
  - done.
  - intros sm size. apply ff_alloc_spec.
  - intros sm start size Hi. exists (sm_ppd sm). split; [by destruct sm|done].
  - intros sm start size Hi. exists (sm_ppd sm). split; [by destruct sm|done].
Qed.

(** ** Properties *)

(** C22: the first-fit allocator returns for every size, by the second scan at the
    latest.  A range it returns is free, of the asked size and naturally aligned;
    it reports failure only when no naturally aligned range of that size is free
    anywhere in the map, although the tree search may start behind short segments;
    and it changes nothing but its cursors. *)
Theorem metaslab_ff_alloc_complete (sm : space_map) (size : Z) :
  sm_ok sm -> ff_inv (sm_end sm) (sm_ppd sm) -> 0 < size -> sm_end sm + 2 * size < 2 ^ 64 ->
  exists ppd start, metaslab_ff_alloc sm size = Ok (set_ppd sm ppd, start) /\ ff_inv (sm_end sm) ppd /\
    ((start = 2 ^ 64 - 1 /\ forall a, ~ fits sm a size) \/ fits sm start size).
Proof. apply ff_alloc_spec. Qed.
End FirstFit.

(** ** A concrete map with a picker *)

#[local] Existing Instance Avl.avl_OrdTree.

Definition ex_ff : space_map := set_ppd (set_state ex_two true false (Some 1)) (Some (replicate 64 0)).
Definition ex_ops : ops_table := fun p => if p =? 1 then Some metaslab_ff_ops else None.

Lemma ex_ff_ok : sm_ok ex_ff /\ ff_inv (sm_end ex_ff) (sm_ppd ex_ff).
Proof.
  split; [apply sm_ok_ppd, sm_ok_state, ex_two_ok|]. exists (replicate 64 0).
  split_and!; [done|done|]. apply Forall_replicate. done.
Qed.

Lemma metaslab_ff_alloc_complete_witness :
  exists ppd start, metaslab_ff_alloc ex_ff 4096 = Ok (set_ppd ex_ff ppd, start) /\ start = 8192.
Proof.
  destruct (metaslab_ff_alloc_complete ex_ff 4096) as (ppd & start & E & _);
    [apply ex_ff_ok|apply ex_ff_ok|reflexivity|reflexivity|]. exists ppd, start. split; [exact E|].
  assert (match metaslab_ff_alloc ex_ff 4096 with Ok (_, a) => a | Err _ => 0 end = 8192) as H by (vm_compute; reflexivity).
  rewrite E in H. exact H.
Defined.

Lemma space_map_alloc_correct_witness :
  exists sm' start, space_map_alloc false ex_ops ex_ff 512 = Ok (sm', start) /\ sm_ok sm'.
Proof.
  destruct (space_map_alloc_correct false metaslab_ff_ops ff_inv ff_picker ex_ops ex_ff 512 1) as (sm' & start & E & K & _);
    [apply ex_ff_ok|apply ex_ff_ok|reflexivity|reflexivity|reflexivity|reflexivity|reflexivity|].
  exists sm', start. split; [exact E|exact K].
Defined.
End Metaslab.
