(* ===== verification/Txg.v ===== *)
(** * Per-transaction-group lists: the end of fs/zfs/txg.c, and sys/txg.h

    An object that can be dirty in several transaction groups at a time has a
    [txg_node_t] in it: a link and a flag for each of the [TXG_SIZE] groups that
    can be in flight.  A [txg_list_t] has a head for each.  The nodes live in a
    store, by address; [rep] says which sequences of objects the links spell out,
    and every routine of the code refines one on sequences. *)

From Stdlib Require Import List.
From stdpp Require Import base option numbers list gmap.
From S2P Require Import Prelude.
Local Open Scope Z_scope.

Module Txg.

Definition TXG_CONCURRENT_STATES : Z := 3.
Definition TXG_SIZE : Z := 4.
Definition TXG_MASK : Z := TXG_SIZE - 1.
Definition TXG_INITIAL : Z := TXG_SIZE.
Definition TXG_CLEAN (txg : Z) : Z := u64 (txg - 1).

(** [txg & TXG_MASK], as the index of an array. *)
Definition slot (txg : Z) : nat := Z.to_nat (Z.land txg TXG_MASK).

Record txg_node := TxgNode { tn_next : list (option Z); tn_member : list Z }.
Record txg_list := TxgList { tl_offset : Z; tl_head : list (option Z) }.

(** The nodes in memory. *)
Abbreviation store := (gmap Z txg_node).

(** Reading and writing an element of an array of [TXG_SIZE]. *)
Definition get {A} (l : list A) (t : nat) : outcome A :=
  match l !! t with Some v => Ok v | None => Err Fault end.
Definition put {A} (l : list A) (t : nat) (v : A) : outcome (list A) :=
  match l !! t with Some _ => Ok (<[t := v]> l) | None => Err Fault end.
Definition deref (st : store) (tn : Z) : outcome txg_node :=
  match st !! tn with Some n => Ok n | None => Err Fault end.

Definition txg_list_create (offset : Z) : txg_list :=
  TxgList offset (replicate (Z.to_nat TXG_SIZE) None).

Definition txg_list_empty (tl : txg_list) (txg : Z) : outcome bool :=
  h ← get (tl_head tl) (slot txg);
  Ok (match h with None => true | Some _ => false end).

(** [for (t = 0; t < TXG_SIZE; t++) ASSERT(txg_list_empty(tl, t));] *)
Fixpoint all_empty (n : nat) (t : Z) (tl : txg_list) : outcome unit :=
  match n with
  | O => Ok tt
  | S n' => e ← txg_list_empty tl t; _ ← verify e; all_empty n' (t + 1) tl
  end.
Definition txg_list_destroy (tl : txg_list) : outcome unit := all_empty (Z.to_nat TXG_SIZE) 0 tl.

Definition txg_list_add (tl : txg_list) (st : store) (p txg : Z) : outcome (txg_list * store * Z) :=
  let t := slot txg in
  let tn := p + tl_offset tl in
  n ← deref st tn;
  already_on_list ← get (tn_member n) t;
  if already_on_list =? 0 then
    member ← put (tn_member n) t 1;
    h ← get (tl_head tl) t;
    next ← put (tn_next n) t h;
    head ← put (tl_head tl) t (Some tn);
    Ok (TxgList (tl_offset tl) head, <[tn := TxgNode next member]> st, already_on_list)
  else Ok (tl, st, already_on_list).

Definition txg_list_remove (tl : txg_list) (st : store) (txg : Z) : outcome (txg_list * store * option Z) :=
  let t := slot txg in
  h ← get (tl_head tl) t;
  match h with
  | None => Ok (tl, st, None)
  | Some tn =>
      n ← deref st tn;
      nx ← get (tn_next n) t;
      head ← put (tl_head tl) t nx;
      next ← put (tn_next n) t None;
      member ← put (tn_member n) t 0;
      Ok (TxgList (tl_offset tl) head, <[tn := TxgNode next member]> st, Some (tn - tl_offset tl))
  end.

(** The cursor [tp] of [txg_list_remove_this] is the address of the head
    ([None]) or of the link in a node. *)
Definition load_link (tl : txg_list) (st : store) (t : nat) (tp : option Z) : outcome (option Z) :=
  match tp with
  | None => get (tl_head tl) t
  | Some a => n ← deref st a; get (tn_next n) t
  end.
Definition store_link (tl : txg_list) (st : store) (t : nat) (tp : option Z) (v : option Z)
    : outcome (txg_list * store) :=
  match tp with
  | None => head ← put (tl_head tl) t v; Ok (TxgList (tl_offset tl) head, st)
  | Some a => n ← deref st a; next ← put (tn_next n) t v; Ok (tl, <[a := TxgNode next (tn_member n)]> st)
  end.

(** [for (tp = &tl->tl_head[t]; (tn = *tp) != NULL; tp = &tn->tn_next[t])]: one round. *)
Definition remove_this_round (tl : txg_list) (st : store) (p : Z) (t : nat) (tp : option Z)
    : outcome (option Z + txg_list * store * option Z) :=
  l ← load_link tl st t tp;
  match l with
  | None => Ok (inr (tl, st, None))
  | Some tn =>
      if tn - tl_offset tl =? p then
        n ← deref st tn;
        nx ← get (tn_next n) t;
        '(tl, st) ← store_link tl st t tp nx;
        n ← deref st tn;
        next ← put (tn_next n) t None;
        member ← put (tn_member n) t 0;
        Ok (inr (tl, <[tn := TxgNode next member]> st, Some p))
      else Ok (inl (Some tn))
  end.

(** The loop visits a node at most once: one round more than there are nodes. *)
Definition txg_list_remove_this (tl : txg_list) (st : store) (p txg : Z) : outcome (txg_list * store * option Z) :=
  iter (S (size st)) (remove_this_round tl st p (slot txg)) None.

Definition txg_list_member (tl : txg_list) (st : store) (p txg : Z) : outcome Z :=
  n ← deref st (p + tl_offset tl); get (tn_member n) (slot txg).

Definition txg_list_head (tl : txg_list) (txg : Z) : outcome (option Z) :=
  h ← get (tl_head tl) (slot txg);
  Ok (match h with None => None | Some tn => Some (tn - tl_offset tl) end).

Definition txg_list_next (tl : txg_list) (st : store) (p txg : Z) : outcome (option Z) :=
  n ← deref st (p + tl_offset tl);
  nx ← get (tn_next n) (slot txg);
  Ok (match nx with None => None | Some tn => Some (tn - tl_offset tl) end).

(** ** The sequences a list stands for *)

(** From link [h] of group [t], the objects of [l] in order; [off] is [tl_offset]. *)
Inductive chain (off : Z) (st : store) (t : nat) : option Z -> list Z -> Prop :=
  | chain_nil : chain off st t None []
  | chain_cons p n nx l :
      st !! (p + off) = Some n -> tn_next n !! t = Some nx -> chain off st t nx l ->
      chain off st t (Some (p + off)) (p :: l).

Definition flag (b : bool) : Z := if b then 1 else 0.

Record rep (tl : txg_list) (st : store) (L : nat -> list Z) : Prop := {
  rep_node a n : st !! a = Some n -> length (tn_next n) = 4%nat /\ length (tn_member n) = 4%nat;
  rep_chain t : (t < 4)%nat -> exists h, tl_head tl !! t = Some h /\ chain (tl_offset tl) st t h (L t);
  rep_nodup t : (t < 4)%nat -> NoDup (L t);
  rep_member t p n : (t < 4)%nat -> st !! (p + tl_offset tl) = Some n ->
    tn_member n !! t = Some (flag (bool_decide (p ∈ L t)))
}.

Definition upd (L : nat -> list Z) (t : nat) (l : list Z) : nat -> list Z :=
  fun u => if decide (u = t) then l else L u.

Lemma upd_eq L t l : upd L t l t = l.
Proof. unfold upd. by rewrite decide_True. Qed.
Lemma upd_ne L t l u : u <> t -> upd L t l u = L u.
Proof. intros. unfold upd. by rewrite decide_False. Qed.

Lemma slot_lt txg : (slot txg < 4)%nat.
Proof.
  unfold slot, TXG_MASK, TXG_SIZE. change (4 - 1) with (Z.ones 2). rewrite Z.land_ones by lia.
  pose proof (Z.mod_pos_bound txg (2 ^ 2)). lia.
Qed.

Lemma slot_mod txg : slot txg = Z.to_nat (txg `mod` 4).
Proof. unfold slot, TXG_MASK, TXG_SIZE. change (4 - 1) with (Z.ones 2). by rewrite Z.land_ones by lia. Qed.

(** A chain depends only on the links of its own group in its own nodes. *)
Lemma chain_frame off st st' t h l :
  chain off st t h l ->
  (forall p n, p ∈ l -> st !! (p + off) = Some n ->
     exists n', st' !! (p + off) = Some n' /\ tn_next n' !! t = tn_next n !! t) ->
  chain off st' t h l.
Proof.
  induction 1 as [|p n nx l Hp Hn _ IH]; intros Hf; [constructor|].
  destruct (Hf p n) as (n' & Hp' & Hn'); [set_solver|done|].
  econstructor; [done|by rewrite Hn'|]. apply IH. intros q m Hq. apply Hf. set_solver.
Qed.

Lemma chain_inj off st t h l l' : chain off st t h l -> chain off st t h l' -> l = l'.
Proof.
  intros H. revert l'. induction H as [|p n nx l Hp Hn _ IH]; intros l' H'; inversion H' as [|p' n' nx' l1 Hp' Hn' H1 Ep]; subst; [done|].
  assert (p' = p) as -> by lia. simplify_eq. f_equal. by apply IH.
Qed.

Lemma chain_node off st t h l p : chain off st t h l -> p ∈ l -> exists n, st !! (p + off) = Some n.
Proof. induction 1; [set_solver|]. intros [->|?]%elem_of_cons; eauto. Qed.

(** Any change to the links and flags of one group. *)
Lemma rep_group tl st L t head st' l' :
  rep tl st L ->
  (forall u, u <> t -> head !! u = tl_head tl !! u) ->
  (forall a n, st !! a = Some n -> exists n', st' !! a = Some n' /\ length (tn_next n') = 4%nat /\ length (tn_member n') = 4%nat /\
     (forall u, u <> t -> tn_next n' !! u = tn_next n !! u /\ tn_member n' !! u = tn_member n !! u) /\
     tn_member n' !! t = Some (flag (bool_decide (a - tl_offset tl ∈ l')))) ->
  dom st' = dom st -> NoDup l' ->
  (exists h, head !! t = Some h /\ chain (tl_offset tl) st' t h l') ->
  rep (TxgList (tl_offset tl) head) st' (upd L t l').
Proof.
  intros [R1 R2 R3 R4] Hh Hn Hd Hnd Hc.
  assert (forall a n', st' !! a = Some n' -> exists n, st !! a = Some n) as Hback.
  { intros a n' Ha. apply elem_of_dom_2 in Ha. rewrite Hd in Ha. by apply elem_of_dom in Ha. }
  split; cbn [tl_offset tl_head].
  - intros a n' Ha. destruct (Hback _ _ Ha) as [n E]. destruct (Hn _ _ E) as (m & Em & ? & ? & _). by simplify_eq.
  - intros u Hu. destruct (decide (u = t)) as [->|Hne]; [by rewrite upd_eq|]. rewrite upd_ne, Hh by done.
    destruct (R2 u Hu) as (h & E & C). exists h. split; [done|]. apply (chain_frame _ st); [done|].
    intros q m _ Hm. destruct (Hn _ _ Hm) as (n' & E' & _ & _ & Hu' & _). exists n'. split; [done|]. by apply Hu'.
  - intros u Hu. destruct (decide (u = t)) as [->|Hne]; [by rewrite upd_eq|]. rewrite upd_ne by done. by apply R3.
  - intros u q n' Hu Ha. destruct (Hback _ _ Ha) as [n E]. destruct (Hn _ _ E) as (m & Em & _ & _ & Hu' & Ht'). simplify_eq.
    destruct (decide (u = t)) as [->|Hne].
    + by rewrite upd_eq, Ht', Z.add_simpl_r.
    + rewrite upd_ne by done. rewrite (proj2 (Hu' u Hne)). by apply R4.
Qed.

(** Rewriting the node of [p]: the groups other than [t] are as before. *)
Lemma rep_set tl st L t p n next member head l' :
  rep tl st L -> (t < 4)%nat -> st !! (p + tl_offset tl) = Some n ->
  next = tn_next n \/ (exists v, next = <[t := v]> (tn_next n)) ->
  member = <[t := flag (bool_decide (p ∈ l'))]> (tn_member n) ->
  (forall u, u <> t -> head !! u = tl_head tl !! u) ->
  (forall q, q <> p -> q ∈ l' <-> q ∈ L t) -> NoDup l' ->
  let st' := <[p + tl_offset tl := TxgNode next member]> st in
  (exists h, head !! t = Some h /\ chain (tl_offset tl) st' t h l') ->
  rep (TxgList (tl_offset tl) head) st' (upd L t l').
Proof.
  intros R Ht Hn Hnext -> Hh Hq Hnd st' Hc. destruct (rep_node _ _ _ R _ _ Hn) as [N1 N2].
  apply (rep_group tl st); [done|done| |unfold st'; rewrite dom_insert_L; apply elem_of_dom_2 in Hn; set_solver|done|done].
  intros a m Ha. unfold st'. destruct (decide (a = p + tl_offset tl)) as [->|Hne].
  - simplify_eq. rewrite lookup_insert_eq. eexists. split; [done|]. cbn. rewrite length_insert, Z.add_simpl_r.
    split_and!; [destruct Hnext as [-> | [v ->]]; by rewrite ?length_insert|done| |rewrite list_lookup_insert_eq by lia; done].
    intros u Hu. rewrite list_lookup_insert_ne by done. split; [|done].
    destruct Hnext as [-> | [v ->]]; [done|]. by rewrite list_lookup_insert_ne.
  - rewrite lookup_insert_ne by done. destruct (rep_node _ _ _ R _ _ Ha). exists m. split_and!; [done|done|done|done|].
    rewrite (rep_member _ _ _ R t (a - tl_offset tl) m Ht) by (by rewrite Z.sub_add).
    f_equal. f_equal. apply bool_decide_ext. symmetry. apply Hq. lia.
Qed.

Lemma get_at {A} (l : list A) t v : l !! t = Some v -> get l t = Ok v /\ forall w, put l t w = Ok (<[t := w]> l).
Proof. intros E. unfold get, put. by rewrite E. Qed.

Lemma rep_get tl st L t p n :
  rep tl st L -> (t < 4)%nat -> st !! (p + tl_offset tl) = Some n ->
  get (tn_member n) t = Ok (flag (bool_decide (p ∈ L t))) /\
  (forall v, put (tn_member n) t v = Ok (<[t := v]> (tn_member n))) /\
  (exists nx, tn_next n !! t = Some nx) /\ (forall v, put (tn_next n) t v = Ok (<[t := v]> (tn_next n))).
Proof.
  intros R Ht Hn. destruct (rep_node _ _ _ R _ _ Hn) as [N1 N2]. pose proof (rep_member _ _ _ R t p n Ht Hn) as Hm.
  destruct (get_at _ _ _ Hm) as [-> ?]. destruct (lookup_lt_is_Some_2 (tn_next n) t) as [nx Hx]; [lia|].
  destruct (get_at _ _ _ Hx). eauto.
Qed.

Lemma list_add_spec tl st L p txg :
  rep tl st L -> is_Some (st !! (p + tl_offset tl)) ->
  exists tl' st', txg_list_add tl st p txg = Ok (tl', st', flag (bool_decide (p ∈ L (slot txg)))) /\
    rep tl' st' (upd L (slot txg) (if bool_decide (p ∈ L (slot txg)) then L (slot txg) else p :: L (slot txg))) /\
    tl_offset tl' = tl_offset tl /\ dom st' = dom st.
Proof.
  intros R [n Hn]. pose proof (slot_lt txg) as Ht. set (t := slot txg) in *. unfold txg_list_add. fold t. unfold deref. rewrite Hn. run.
  destruct (rep_get _ _ _ t p n R Ht Hn) as (-> & Pm & _ & Pn). run.
  case_bool_decide as Hin; cbn [flag Z.eqb].
  - exists tl, st. split_and!; [done| |done|done]. destruct R as [R1 R2 R3 R4].
    assert (forall u, upd L t (L t) u = L u) as Eu by (intros u; unfold upd; by case_decide; subst).
    split; [done|..]; intros u; rewrite Eu; auto.
  - rewrite Pm. run. destruct (rep_chain _ _ _ R t Ht) as (h & Hh & Hc). destruct (get_at _ _ _ Hh) as [-> Ph]. run.
    rewrite Pn. run. rewrite Ph. run. eexists _, _. split; [done|]. split; [|split; [done|]].
    + eapply (rep_set tl st L t p n); [done|done|done|by right; eexists| | | | |].
      * by rewrite bool_decide_true by set_solver.
      * intros u Hu. by rewrite list_lookup_insert_ne.
      * set_solver.
      * constructor; [done|]. by apply (rep_nodup _ _ _ R).
      * eexists. split; [apply list_lookup_insert_eq; by eapply lookup_lt_Some|].
        destruct (rep_node _ _ _ R _ _ Hn) as [N1 _].
        eapply chain_cons; [by rewrite lookup_insert_eq|cbn; apply list_lookup_insert_eq; lia|].
        apply (chain_frame _ st); [done|]. intros q m Hq Hm. rewrite lookup_insert_ne; [eauto|].
        intros Eq. assert (q = p) as -> by lia. done.
    + rewrite dom_insert_L. apply elem_of_dom_2 in Hn. set_solver.
Qed.

Lemma list_remove_spec tl st L txg :
  rep tl st L ->
  exists tl' st', txg_list_remove tl st txg = Ok (tl', st', head (L (slot txg))) /\
    rep tl' st' (upd L (slot txg) (tail (L (slot txg)))) /\ tl_offset tl' = tl_offset tl /\ dom st' = dom st.
Proof.
  intros R. pose proof (slot_lt txg) as Ht. set (t := slot txg) in *. unfold txg_list_remove. fold t.
  destruct (rep_chain _ _ _ R t Ht) as (h & Hh & Hc). destruct (get_at _ _ _ Hh) as [-> Ph]. run.
  pose proof (rep_nodup _ _ _ R t Ht) as Hnd. remember (L t) as l0 eqn:El.
  destruct Hc as [|p n nx l Hp Hn Hc]; cbn [head tail].
  - exists tl, st. split_and!; [done| |done|done]. destruct R as [R1 R2 R3 R4].
    assert (forall u, upd L t [] u = L u) as Eu by (intros u; unfold upd; by case_decide; subst).
    split; [done|..]; intros u; rewrite Eu; auto.
  - unfold deref. rewrite Hp. run. destruct (get_at _ _ _ Hn) as [-> Pn]. run. rewrite Ph. run. rewrite Pn. run.
    destruct (rep_get _ _ _ t p n R Ht Hp) as (_ & Pm & _). rewrite Pm. run.
    apply NoDup_cons in Hnd as [Hnin Hnd]. eexists _, _. split; [by rewrite Z.add_simpl_r|]. split; [|split; [done|]].
    + eapply (rep_set tl st L t p n); [done|done|done|by right; eexists| | | |done|].
      * by rewrite bool_decide_false by done.
      * intros u Hu. by rewrite list_lookup_insert_ne.
      * intros q Hq. rewrite <- El. set_solver.
      * eexists. split; [apply list_lookup_insert_eq; by eapply lookup_lt_Some|].
        apply (chain_frame _ st); [done|]. intros q m Hq Hm. rewrite lookup_insert_ne; [eauto|].
        intros Eq. assert (q = p) as -> by lia. done.
    + rewrite dom_insert_L. apply elem_of_dom_2 in Hp. set_solver.
Qed.

(** ** Removing from the middle *)

(** The links up to [p], redirected past it. *)
Lemma chain_unlink off st t h pre q p n nx rest :
  chain off st t h (pre ++ q :: p :: rest) -> NoDup (pre ++ q :: p :: rest) ->
  st !! (p + off) = Some n -> tn_next n !! t = Some nx ->
  exists m, st !! (q + off) = Some m /\ is_Some (tn_next m !! t) /\
    forall member, chain off (<[q + off := TxgNode (<[t := nx]> (tn_next m)) member]> st) t h (pre ++ q :: rest).
Proof.
  revert h. induction pre as [|x pre IH]; intros h Hc Hnd Hp Hx.
  - inversion Hc as [|? m ? ? Hm Hn Hc1]; subst. inversion Hc1 as [|? n' ? ? Hn1 Hn2 Hc2]; subst. simplify_eq.
    exists m. split_and!; [done|by eexists|]. intros member. cbn in Hnd |- *. apply NoDup_cons in Hnd as [Hq _].
    eapply chain_cons; [apply lookup_insert_eq|cbn; apply list_lookup_insert_eq; by eapply lookup_lt_Some|].
    apply (chain_frame _ st); [done|]. intros y k Hy Hk. rewrite lookup_insert_ne; [eauto|].
    intros Eq. assert (y = q) as -> by lia. set_solver.
  - cbn in Hc, Hnd |- *. inversion Hc as [|? m ? ? Hm Hn Hc1]; subst. apply NoDup_cons in Hnd as [Hx' Hnd].
    destruct (IH nx0 Hc1 Hnd Hp Hx) as (k & Hk & Hk' & Hall). exists k. split_and!; [done|done|]. intros member.
    eapply chain_cons; [|done|apply Hall]. rewrite lookup_insert_ne; [done|].
    intros Eq. assert (q = x) as -> by lia. set_solver.
Qed.

Lemma chain_suffix off st t h pre q suf :
  chain off st t h (pre ++ q :: suf) ->
  exists n nx, st !! (q + off) = Some n /\ tn_next n !! t = Some nx /\ chain off st t nx suf.
Proof.
  revert h. induction pre as [|x pre IH]; intros h Hc; inversion Hc; subst; eauto.
Qed.

Lemma rep_size tl st L t : rep tl st L -> (t < 4)%nat -> (length (L t) <= size st)%nat.
Proof.
  intros R Ht. destruct (rep_chain _ _ _ R t Ht) as (h & _ & Hc). pose proof (rep_nodup _ _ _ R t Ht) as Hnd.
  rewrite <- size_dom. rewrite <- (length_map (fun p => p + tl_offset tl)).
  rewrite <- (size_list_to_set (C := gset Z)).
  - apply subseteq_size. intros a. rewrite elem_of_list_to_set, list_elem_of_fmap. intros (p & -> & Hp).
    destruct (chain_node _ _ _ _ _ _ Hc Hp). by eapply elem_of_dom_2.
  - apply NoDup_fmap_2; [intros ???; lia|done].
Qed.

(** What taking [p] out from between [pre] and [rest] leaves. *)
Lemma unlinked_rep tl st L t pre p rest :
  rep tl st L -> (t < 4)%nat -> L t = pre ++ p :: rest ->
  exists n nx, st !! (p + tl_offset tl) = Some n /\ tn_next n !! t = Some nx /\
  exists tl1 st1, store_link tl st t (match last pre with None => None | Some q => Some (q + tl_offset tl) end) nx = Ok (tl1, st1) /\
    st1 !! (p + tl_offset tl) = Some n /\ tl_offset tl1 = tl_offset tl /\
    rep tl1 (<[p + tl_offset tl := TxgNode (<[t := None]> (tn_next n)) (<[t := 0]> (tn_member n))]> st1) (upd L t (pre ++ rest)).
Proof.
  intros R Ht El. destruct (rep_chain _ _ _ R t Ht) as (h & Hh & Hc). pose proof (rep_nodup _ _ _ R t Ht) as Hnd.
  rewrite El in Hc, Hnd. destruct (chain_suffix _ _ _ _ _ _ _ Hc) as (n & nx & Hn & Hnx & Hc').
  exists n, nx. split; [done|]. split; [done|].
  assert (p ∉ pre ++ rest /\ NoDup (pre ++ rest)) as [Hp Hnd'].
  { rewrite <- Permutation_middle in Hnd. by apply NoDup_cons in Hnd. }
  destruct (rep_node _ _ _ R _ _ Hn) as [N1 N2].
  destruct pre as [|q pre _] using rev_ind.
  - cbn [last store_link]. destruct (get_at _ _ _ Hh) as [_ ->]. run. eexists _, _. split; [done|]. split_and!; [done|done|].
    cbn [app] in *. eapply (rep_set tl st L t p n); [done|done|done|by right; eexists| | | |done|].
    + by rewrite bool_decide_false.
    + intros u Hu. by rewrite list_lookup_insert_ne.
    + intros x Hx. rewrite El. set_solver.
    + exists nx. split; [apply list_lookup_insert_eq; by eapply lookup_lt_Some|].
      apply (chain_frame _ st); [done|]. intros y k Hy Hk. rewrite lookup_insert_ne; [eauto|].
      intros Eq. assert (y = p) as -> by lia. done.
  - rewrite last_snoc. cbn [store_link]. rewrite <- !app_assoc in *. cbn [app] in *.
    destruct (chain_unlink _ _ _ _ _ _ _ _ _ _ Hc Hnd Hn Hnx) as (m & Hm & [mx Hmx] & Hall).
    unfold deref. rewrite Hm. run. destruct (get_at _ _ _ Hmx) as [_ ->]. run.
    assert (q <> p) as Hqp by set_solver. destruct (rep_node _ _ _ R _ _ Hm) as [M1 M2].
    eexists _, _. split; [done|]. split_and!; [by rewrite lookup_insert_ne by lia|done|].
    replace tl with (TxgList (tl_offset tl) (tl_head tl)) at 1 by (by destruct tl).
    apply (rep_group tl st); [done|done| |by rewrite !dom_insert_lookup_L by (rewrite ?lookup_insert_ne by lia; by eexists)|done|].
    + intros a k Hk. destruct (rep_node _ _ _ R _ _ Hk) as [K1 K2].
      pose proof (rep_member _ _ _ R t (a - tl_offset tl) k Ht ltac:(by rewrite Z.sub_add)) as Hmem.
      rewrite El in Hmem. destruct (decide (a = p + tl_offset tl)) as [->|Hap].
      * simplify_eq. rewrite lookup_insert_eq. eexists. split; [done|]. cbn. rewrite !length_insert, Z.add_simpl_r.
        split_and!; [done|done|intros u Hu; by rewrite !list_lookup_insert_ne|].
        rewrite list_lookup_insert_eq by lia. by rewrite bool_decide_false.
      * rewrite lookup_insert_ne by done. assert (bool_decide (a - tl_offset tl ∈ pre ++ q :: p :: rest) =
          bool_decide (a - tl_offset tl ∈ pre ++ q :: rest)) as Eb.
        { apply bool_decide_ext. assert (a - tl_offset tl <> p) by lia. set_solver. }
        rewrite Eb in Hmem. destruct (decide (a = q + tl_offset tl)) as [->|Haq].
        -- simplify_eq. rewrite lookup_insert_eq. eexists. split; [done|]. cbn. rewrite length_insert.
           split_and!; [done|done|intros u Hu; by rewrite !list_lookup_insert_ne|done].
        -- rewrite lookup_insert_ne by done. exists k. by split_and!.
    + exists h. split; [done|]. eapply chain_frame; [apply Hall|]. intros y k Hy Hk. rewrite (lookup_insert_ne _ (p + _)); [eauto|].
      intros Eq. assert (y = p) as -> by lia. done.
Qed.

Definition without (p : Z) (l : list Z) : list Z := filter (fun q => q <> p) l.

Lemma without_mid p pre rest : p ∉ pre -> p ∉ rest -> without p (pre ++ p :: rest) = pre ++ rest.
Proof.
  intros H1 H2. assert (forall l, p ∉ l -> without p l = l) as H.
  { intros l Hl. unfold without. induction l as [|x l IH]; [done|].
    rewrite filter_cons_True, IH by set_solver. done. }
  unfold without in *. rewrite filter_app, filter_cons_False by (by intros []). by rewrite !H.
Qed.

Lemma rep_same tl st L t l : rep tl st L -> l = L t -> rep tl st (upd L t l).
Proof.
  intros [R1 R2 R3 R4] ->. assert (forall u, upd L t (L t) u = L u) as Eu by (intros u; unfold upd; by case_decide; subst).
  split; [done|..]; intros u; rewrite Eu; auto.
Qed.

(** The link after [pre], and what it leads to. *)
Definition cursor (off : Z) (pre : list Z) : option Z :=
  match last pre with None => None | Some q => Some (q + off) end.

Lemma load_link_spec tl st L t pre suf :
  rep tl st L -> (t < 4)%nat -> L t = pre ++ suf ->
  exists l, load_link tl st t (cursor (tl_offset tl) pre) = Ok l /\ chain (tl_offset tl) st t l suf.
Proof.
  intros R Ht El. destruct (rep_chain _ _ _ R t Ht) as (h & Hh & Hc). rewrite El in Hc. unfold cursor.
  destruct pre as [|q pre _] using rev_ind; [cbn|rewrite last_snoc; cbn].
  - destruct (get_at _ _ _ Hh) as [-> _]. eauto.
  - rewrite <- app_assoc in Hc. destruct (chain_suffix _ _ _ _ _ _ _ Hc) as (n & nx & Hn & Hnx & Hc').
    unfold deref. rewrite Hn. run. destruct (get_at _ _ _ Hnx) as [-> _]. eauto.
Qed.

Lemma remove_this_spec tl st L p txg :
  rep tl st L ->
  exists tl' st', txg_list_remove_this tl st p txg = Ok (tl', st', if bool_decide (p ∈ L (slot txg)) then Some p else None) /\
    rep tl' st' (upd L (slot txg) (without p (L (slot txg)))) /\ tl_offset tl' = tl_offset tl.
Proof.
  intros R. pose proof (slot_lt txg) as Ht. unfold txg_list_remove_this. set (t := slot txg) in *.
  pose proof (rep_size _ _ _ t R Ht) as Hsz. pose proof (rep_nodup _ _ _ R t Ht) as Hnd.
  enough (forall suf pre f, L t = pre ++ suf -> p ∉ pre -> (length suf < f)%nat ->
    exists tl' st', iter f (remove_this_round tl st p t) (cursor (tl_offset tl) pre) = Ok (tl', st', if bool_decide (p ∈ L t) then Some p else None) /\
    rep tl' st' (upd L t (without p (L t))) /\ tl_offset tl' = tl_offset tl) as H.
  { apply (H (L t) []); [done|set_solver|lia]. }
  induction suf as [|x suf IH]; intros pre f El Hp Hf; (destruct f as [|f]; [cbn in Hf; lia|]); rewrite iter_S; unfold remove_this_round at 1.
  all: destruct (load_link_spec _ _ _ t pre _ R Ht El) as (l & -> & Hc); inversion Hc as [|? n nx ? Hn Hnx Hc']; subst; run.
  - rewrite app_nil_r in El. exists tl, st. rewrite El, bool_decide_false by done. split_and!; [done| |done].
    apply rep_same; [done|]. rewrite El. symmetry. pose proof (without_mid p pre [] Hp ltac:(set_solver)) as E.
    unfold without in *. rewrite filter_app, app_nil_r in E. cbn in E. rewrite decide_False in E by (by intros []). by rewrite app_nil_r in E.
  - rewrite Z.add_simpl_r. destruct (Z.eqb_spec x p) as [->|Hne].
    + assert (deref st (p + tl_offset tl) = Ok n) as -> by (unfold deref; by rewrite Hn). run. destruct (get_at _ _ _ Hnx) as [-> _]. run.
      destruct (unlinked_rep tl st L t pre p suf R Ht El) as (n' & nx' & Hn' & Hnx' & tl1 & st1 & E & Hn1 & Eo & R1).
      simplify_eq. fold (cursor (tl_offset tl) pre) in E. rewrite E. run. unfold deref. rewrite Hn1. run.
      destruct (rep_get _ _ _ t p n R Ht Hn) as (_ & -> & _ & ->). run. rewrite El in Hnd.
      rewrite bool_decide_true by (rewrite El; set_solver). eexists _, _. split; [done|]. split; [|done]. rewrite El, without_mid; [done|done|].
      rewrite <- Permutation_middle in Hnd. apply NoDup_cons in Hnd. set_solver.
    + replace (Some (x + tl_offset tl)) with (cursor (tl_offset tl) (pre ++ [x])) by (unfold cursor; by rewrite last_snoc).
      apply IH; [by rewrite <- app_assoc|set_solver|cbn in Hf; lia].
Qed.

(** ** The routines and what they do to a sequence *)

Inductive list_op :=
  | LEmpty | LAdd (p : Z) | LRemove | LRemoveThis (p : Z) | LMember (p : Z) | LHead | LNext (p : Z).
Inductive list_result := RInt (z : Z) | RPtr (o : option Z).

Definition exec (tl : txg_list) (st : store) (txg : Z) (op : list_op) : outcome (txg_list * store * list_result) :=
  match op with
  | LEmpty => b ← txg_list_empty tl txg; Ok (tl, st, RInt (flag b))
  | LAdd p => '(tl, st, z) ← txg_list_add tl st p txg; Ok (tl, st, RInt z)
  | LRemove => '(tl, st, o) ← txg_list_remove tl st txg; Ok (tl, st, RPtr o)
  | LRemoveThis p => '(tl, st, o) ← txg_list_remove_this tl st p txg; Ok (tl, st, RPtr o)
  | LMember p => z ← txg_list_member tl st p txg; Ok (tl, st, RInt z)
  | LHead => o ← txg_list_head tl txg; Ok (tl, st, RPtr o)
  | LNext p => o ← txg_list_next tl st p txg; Ok (tl, st, RPtr o)
  end.

(** The element after [p]. *)
Fixpoint succ_of (p : Z) (l : list Z) : option Z :=
  match l with [] => None | q :: l' => if q =? p then head l' else succ_of p l' end.

Definition spec (l : list Z) (op : list_op) : list Z * list_result :=
  match op with
  | LEmpty => (l, RInt (flag (bool_decide (l = []))))
  | LAdd p => (if bool_decide (p ∈ l) then l else p :: l, RInt (flag (bool_decide (p ∈ l))))
  | LRemove => (tail l, RPtr (head l))
  | LRemoveThis p => (without p l, RPtr (if bool_decide (p ∈ l) then Some p else None))
  | LMember p => (l, RInt (flag (bool_decide (p ∈ l))))
  | LHead => (l, RPtr (head l))
  | LNext p => (l, RPtr (succ_of p l))
  end.

(** The object handed in has a node; a walk is at an element of the list. *)
Definition op_ok (tl : txg_list) (st : store) (l : list Z) (op : list_op) : Prop :=
  match op with
  | LAdd p | LMember p => is_Some (st !! (p + tl_offset tl))
  | LNext p => p ∈ l
  | _ => True
  end.

(** The head of a chain and its links, as objects. *)
Definition to_obj (off : Z) (h : option Z) : option Z := match h with None => None | Some tn => Some (tn - off) end.

Lemma chain_head off st t h l : chain off st t h l -> to_obj off h = head l.
Proof. destruct 1; cbn; [done|]. by rewrite Z.add_simpl_r. Qed.

Lemma chain_next off st t h l p :
  chain off st t h l -> p ∈ l ->
  exists n nx, st !! (p + off) = Some n /\ tn_next n !! t = Some nx /\ to_obj off nx = succ_of p l.
Proof.
  induction 1 as [|q n nx l Hq Hn Hc IH]; [set_solver|]. intros Hp. cbn [succ_of].
  destruct (Z.eqb_spec q p) as [->|Hne]; [exists n, nx; split_and!; [done|done|by eapply chain_head]|].
  apply IH. set_solver.
Qed.

Lemma exec_spec tl st L txg op :
  rep tl st L -> op_ok tl st (L (slot txg)) op ->
  exists tl' st', exec tl st txg op = Ok (tl', st', snd (spec (L (slot txg)) op)) /\
    rep tl' st' (upd L (slot txg) (fst (spec (L (slot txg)) op))) /\ tl_offset tl' = tl_offset tl.
Proof.
  intros R Hop. pose proof (slot_lt txg) as Ht. destruct (rep_chain _ _ _ R _ Ht) as (h & Hh & Hc).
  destruct (get_at _ _ _ Hh) as [Eh _]. destruct op as [|p| |p|p| |p]; cbn [exec spec fst snd op_ok] in *.
  - unfold txg_list_empty. rewrite Eh. run. exists tl, st. split_and!; [|by apply rep_same|done].
    f_equal. f_equal. f_equal. f_equal. by destruct Hc.
  - destruct (list_add_spec tl st L p txg R Hop) as (tl' & st' & -> & R' & Eo & _). run. eauto.
  - destruct (list_remove_spec tl st L txg R) as (tl' & st' & -> & R' & Eo & _). run. eauto.
  - destruct (remove_this_spec tl st L p txg R) as (tl' & st' & -> & R' & Eo). run. eauto.
  - destruct Hop as [n Hn]. unfold txg_list_member, deref. rewrite Hn. run.
    destruct (rep_get _ _ _ _ p n R Ht Hn) as (-> & _). run. exists tl, st. split_and!; [done|by apply rep_same|done].
  - unfold txg_list_head. rewrite Eh. run. exists tl, st. fold (to_obj (tl_offset tl) h). rewrite (chain_head _ _ _ _ _ Hc).
    split_and!; [done|by apply rep_same|done].
  - destruct (chain_next _ _ _ _ _ p Hc Hop) as (n & nx & Hn & Hnx & E). unfold txg_list_next, deref. rewrite Hn. run.
    destruct (get_at _ _ _ Hnx) as [-> _]. run. exists tl, st. fold (to_obj (tl_offset tl) nx). rewrite E.
    split_and!; [done|by apply rep_same|done].
Qed.

(** A new list over nodes that are on none of its lists. *)
Lemma rep_create offset st :
  (forall a n, st !! a = Some n -> length (tn_next n) = 4%nat /\ tn_member n = replicate 4 0) ->
  rep (txg_list_create offset) st (fun _ => []).
Proof.
  intros Hn. split.
  - intros a n Ha. destruct (Hn a n Ha) as [E1 E2]. by rewrite E2.
  - intros t Ht. exists None. split; [|constructor]. by apply lookup_replicate_2.
  - intros. constructor.
  - intros t p n Ht Ha. destruct (Hn _ n Ha) as [_ ->]. rewrite bool_decide_false by set_solver. by apply lookup_replicate_2.
Qed.

(** ** Properties *)

(** C39: the per-transaction-group lists keep, for every group in flight, the
    sequence of distinct objects added and not yet removed, newest first.  Each of
    the routines of txg.c - the test for emptiness, adding, taking the head,
    taking a given object out of the middle, the membership flag, the head and the
    next element - follows no pointer outside the nodes, ends, answers what the
    sequence of that group says, updates that sequence as its contract says
    (adding an object that is there changes nothing) and leaves the lists of all
    other groups in flight alone. *)
Theorem txg_list_refines (tl : txg_list) (st : store) (L : nat -> list Z) (txg : Z) (op : list_op) :
  rep tl st L -> op_ok tl st (L (slot txg)) op ->
  exists tl' st' L', exec tl st txg op = Ok (tl', st', snd (spec (L (slot txg)) op)) /\ rep tl' st' L' /\
    L' (slot txg) = fst (spec (L (slot txg)) op) /\
    (forall u, (txg - u) `mod` TXG_SIZE <> 0 -> L' (slot u) = L (slot u)).
Proof.
  intros R Hop. destruct (exec_spec tl st L txg op R Hop) as (tl' & st' & E & R' & _).
  eexists tl', st', _. split_and!; [done|done|by rewrite upd_eq|]. intros u Hu. apply upd_ne. rewrite !slot_mod.
  unfold TXG_SIZE in Hu. intros Eq. apply Hu. rewrite Zminus_mod.
  pose proof (Z.mod_pos_bound u 4). pose proof (Z.mod_pos_bound txg 4).
  replace (txg `mod` 4) with (u `mod` 4) by lia. by rewrite Z.sub_diag.
Qed.

(** Three objects with nodes at offset 8, two of them dirty in group 6. *)
Definition ex_store : store :=
  list_to_map (map (fun a => (a, TxgNode (replicate 4 None) (replicate 4 0))) [108; 208; 308]).
Definition ex_lists : nat -> list Z := upd (upd (fun _ => []) (slot 6) [100]) (slot 6) [200; 100].

Lemma ex_rep : exists tl st, rep tl st ex_lists /\ tl_offset tl = 8 /\ op_ok tl st (ex_lists (slot 6)) (LRemoveThis 100).
Proof.
  assert (rep (txg_list_create 8) ex_store (fun _ => [])) as R0.
  { apply rep_create. intros a n Ha. apply elem_of_list_to_map_2 in Ha. set_solver. }
  destruct (list_add_spec _ _ _ 100 6 R0) as (tl1 & st1 & _ & R1 & O1 & D1); [by eexists|].
  rewrite bool_decide_false in R1 by set_solver.
  destruct (list_add_spec _ _ _ 200 6 R1) as (tl2 & st2 & _ & R2 & O2 & D2).
  { apply elem_of_dom. rewrite O1, D1. set_solver. }
  rewrite upd_eq, bool_decide_false in R2 by set_solver.
  exists tl2, st2. split_and!; [exact R2|by rewrite O2, O1|done].
Qed.

Lemma txg_list_refines_witness :
  exists tl st tl' st', exec tl st 6 (LRemoveThis 100) = Ok (tl', st', RPtr (Some 100)).
Proof.
  destruct ex_rep as (tl & st & R & O & P). exists tl, st.
  destruct (txg_list_refines tl st ex_lists 6 (LRemoveThis 100) R P) as (tl' & st' & L' & E & _).
  exists tl', st'. exact E.
Defined.
End Txg.
