(* ===== verification/Blkptr.v ===== *)
(** * Block pointers: fs/zfs/sys/spa.h

    The 128-byte block pointer and the bit fields packed into its words: the
    data virtual addresses (device, offset, allocated size, gang bit) and the
    property word (sizes, compression, checksum, type, level, byte order).
    A setter of the source updates one field with an exclusive or of the
    difference; the lemmas show that it stores the value in its own bits and
    leaves every other bit of the word alone. *)

From Stdlib Require Import List.
From stdpp Require Import base option numbers list.
From S2P Require Import Prelude Checksum SpaceMap Bits.
Local Open Scope Z_scope.

(** ** Bit fields of 64-bit words *)

Definition BF64_GET (x low len : Z) : Z := BF64_DECODE x low len.
Definition BF64_SET (x low len val : Z) : Z :=
  Z.lxor x (BF64_ENCODE (Z.lxor (Z.shiftr x low) val) low len).
Definition BF64_GET_SB (x low len shift bias : Z) : Z :=
  u64 (Z.shiftl (BF64_GET x low len + bias) shift).
Definition BF64_SET_SB (x low len shift bias val : Z) : Z :=
  BF64_SET x low len (u64 (Z.shiftr val shift - bias)).

Definition SPA_MINBLOCKSHIFT : Z := 9.
Definition SPA_MAXBLOCKSHIFT : Z := 17.
Definition SPA_MINBLOCKSIZE : Z := Z.shiftl 1 SPA_MINBLOCKSHIFT.
Definition SPA_MAXBLOCKSIZE : Z := Z.shiftl 1 SPA_MAXBLOCKSHIFT.
Definition SPA_DVAS_PER_BP : nat := 3.

Module Blkptr.

(** ** [dva_t] *)

Record dva := Dva { dva_word0 : Z; dva_word1 : Z }.

Definition DVA_GET_ASIZE (d : dva) : Z := BF64_GET_SB (dva_word0 d) 0 24 SPA_MINBLOCKSHIFT 0.
Definition DVA_SET_ASIZE (d : dva) (x : Z) : dva :=
  Dva (BF64_SET_SB (dva_word0 d) 0 24 SPA_MINBLOCKSHIFT 0 x) (dva_word1 d).
Definition DVA_GET_VDEV (d : dva) : Z := BF64_GET (dva_word0 d) 32 32.
Definition DVA_SET_VDEV (d : dva) (x : Z) : dva := Dva (BF64_SET (dva_word0 d) 32 32 x) (dva_word1 d).
Definition DVA_GET_OFFSET (d : dva) : Z := BF64_GET_SB (dva_word1 d) 0 63 SPA_MINBLOCKSHIFT 0.
Definition DVA_SET_OFFSET (d : dva) (x : Z) : dva :=
  Dva (dva_word0 d) (BF64_SET_SB (dva_word1 d) 0 63 SPA_MINBLOCKSHIFT 0 x).
Definition DVA_GET_GANG (d : dva) : Z := BF64_GET (dva_word1 d) 63 1.
Definition DVA_SET_GANG (d : dva) (x : Z) : dva := Dva (dva_word0 d) (BF64_SET (dva_word1 d) 63 1 x).
Definition DVA_IS_VALID (d : dva) : bool := negb (DVA_GET_ASIZE d =? 0).

(** ** [blkptr_t] *)

Record blkptr := Bp {
  blk_dva : list dva;        (** [dva_t blk_dva[3]] *)
  blk_prop : Z;
  blk_pad : list Z;          (** [uint64_t blk_pad[3]] *)
  blk_birth : Z;
  blk_fill : Z;
  blk_cksum : zio_cksum
}.

Definition dva_at (bp : blkptr) (d : nat) : dva := nth d (blk_dva bp) (Dva 0 0).
Definition set_prop (bp : blkptr) (p : Z) : blkptr :=
  Bp (blk_dva bp) p (blk_pad bp) (blk_birth bp) (blk_fill bp) (blk_cksum bp).
Definition set_cksum (bp : blkptr) (zc : zio_cksum) : blkptr :=
  Bp (blk_dva bp) (blk_prop bp) (blk_pad bp) (blk_birth bp) (blk_fill bp) zc.
Definition set_dva (bp : blkptr) (d : nat) (v : dva) : blkptr :=
  Bp (<[d := v]> (blk_dva bp)) (blk_prop bp) (blk_pad bp) (blk_birth bp) (blk_fill bp) (blk_cksum bp).
Definition set_birth (bp : blkptr) (txg : Z) : blkptr :=
  Bp (blk_dva bp) (blk_prop bp) (blk_pad bp) txg (blk_fill bp) (blk_cksum bp).

Definition BP_IDENTITY (bp : blkptr) : dva := dva_at bp 0.
Definition BP_IS_GANG (bp : blkptr) : bool := negb (DVA_GET_GANG (BP_IDENTITY bp) =? 0).
Definition BP_IS_HOLE (bp : blkptr) : bool := blk_birth bp =? 0.

Definition BP_GET_LSIZE (bp : blkptr) : Z :=
  if BP_IS_HOLE bp then 0 else BF64_GET_SB (blk_prop bp) 0 16 SPA_MINBLOCKSHIFT 1.
Definition BP_SET_LSIZE (bp : blkptr) (x : Z) : blkptr :=
  set_prop bp (BF64_SET_SB (blk_prop bp) 0 16 SPA_MINBLOCKSHIFT 1 x).
Definition BP_GET_PSIZE (bp : blkptr) : Z := BF64_GET_SB (blk_prop bp) 16 16 SPA_MINBLOCKSHIFT 1.
Definition BP_SET_PSIZE (bp : blkptr) (x : Z) : blkptr :=
  set_prop bp (BF64_SET_SB (blk_prop bp) 16 16 SPA_MINBLOCKSHIFT 1 x).
Definition BP_GET_COMPRESS (bp : blkptr) : Z := BF64_GET (blk_prop bp) 32 8.
Definition BP_SET_COMPRESS (bp : blkptr) (x : Z) : blkptr := set_prop bp (BF64_SET (blk_prop bp) 32 8 x).
Definition BP_GET_CHECKSUM (bp : blkptr) : Z := BF64_GET (blk_prop bp) 40 8.
Definition BP_SET_CHECKSUM (bp : blkptr) (x : Z) : blkptr := set_prop bp (BF64_SET (blk_prop bp) 40 8 x).
Definition BP_GET_TYPE (bp : blkptr) : Z := BF64_GET (blk_prop bp) 48 8.
Definition BP_GET_BYTEORDER (bp : blkptr) : Z := u64 (0 - BF64_GET (blk_prop bp) 63 1).
Definition BP_SET_BYTEORDER (bp : blkptr) (x : Z) : blkptr := set_prop bp (BF64_SET (blk_prop bp) 63 1 x).

Definition BP_GET_ASIZE (bp : blkptr) : Z :=
  u64 (u64 (DVA_GET_ASIZE (dva_at bp 0) + DVA_GET_ASIZE (dva_at bp 1)) + DVA_GET_ASIZE (dva_at bp 2)).
Definition BP_GET_NDVAS (bp : blkptr) : nat :=
  Nat.b2n (DVA_IS_VALID (dva_at bp 0)) + Nat.b2n (DVA_IS_VALID (dva_at bp 1)) +
  Nat.b2n (DVA_IS_VALID (dva_at bp 2)).

Definition BP_ZERO : blkptr :=
  Bp (replicate SPA_DVAS_PER_BP (Dva 0 0)) 0 [0; 0; 0] 0 0 (ZC 0 0 0 0).

(** Byte order of the host: [be] for a big-endian one. *)
Definition ZFS_HOST_BYTEORDER (be : bool) : Z := if be then 0 else u64 (-1).
Definition BP_SHOULD_BYTESWAP (be : bool) (bp : blkptr) : bool :=
  negb (BP_GET_BYTEORDER bp =? ZFS_HOST_BYTEORDER be).

(** ** Reading and writing fields *)

Lemma BF64_GET_bits x low len i :
  0 <= low -> 0 <= len -> 0 <= i ->
  Z.testbit (BF64_GET x low len) i = (i <? len) && Z.testbit x (i + low).
Proof.
  intros. unfold BF64_GET, BF64_DECODE. rewrite SpaceMap.P2PHASE_mod by done.
  destruct (Z.ltb_spec i len); cbn [andb].
  - rewrite Z.mod_pow2_bits_low, Z.shiftr_spec by lia. done.
  - rewrite Z.mod_pow2_bits_high by lia. done.
Qed.

Lemma BF64_SET_bits x low len v i :
  0 <= low -> 0 <= len -> 0 <= i ->
  Z.testbit (BF64_SET x low len v) i =
    if (low <=? i) && (i <? low + len) then Z.testbit v (i - low) else Z.testbit x i.
Proof.
  intros. unfold BF64_SET, BF64_ENCODE. rewrite SpaceMap.P2PHASE_mod by done.
  rewrite Z.lxor_spec, Z.shiftl_spec by done.
  destruct (Z.leb_spec low i); cbn [andb].
  - destruct (Z.ltb_spec i (low + len)).
    + rewrite Z.mod_pow2_bits_low, Z.lxor_spec, Z.shiftr_spec by lia.
      replace (i - low + low) with i by lia. destruct (Z.testbit x i), (Z.testbit v (i - low)); done.
    + rewrite Z.mod_pow2_bits_high by lia. apply xorb_false_r.
  - rewrite (Z.testbit_neg_r _ (i - low)) by lia. apply xorb_false_r.
Qed.

(** A field holds what was stored in it, cut to its width. *)
Lemma BF64_get_set x low len v :
  0 <= low -> 0 <= len -> BF64_GET (BF64_SET x low len v) low len = v `mod` 2 ^ len.
Proof.
  intros. apply Z.bits_inj'. intros i Hi. rewrite BF64_GET_bits, BF64_SET_bits by lia.
  destruct (Z.ltb_spec i len); cbn [andb].
  - rewrite (proj2 (andb_true_iff _ _)) by (split; [apply Z.leb_le|apply Z.ltb_lt]; lia).
    rewrite Z.mod_pow2_bits_low by lia. f_equal. lia.
  - rewrite Z.mod_pow2_bits_high by lia. done.
Qed.

(** Storing in a field does not touch a disjoint one. *)
Lemma BF64_get_set_other x low len v low' len' :
  0 <= low -> 0 <= len -> 0 <= low' -> 0 <= len' -> low + len <= low' \/ low' + len' <= low ->
  BF64_GET (BF64_SET x low len v) low' len' = BF64_GET x low' len'.
Proof.
  intros. apply Z.bits_inj'. intros i Hi. rewrite !BF64_GET_bits, BF64_SET_bits by lia.
  destruct (Z.ltb_spec i len'); cbn [andb]; [|done].
  destruct (Z.leb_spec low (i + low')); cbn [andb]; [|done].
  destruct (Z.ltb_spec (i + low') (low + len)); [lia|done].
Qed.

(** Scaled fields: a multiple of the unit in the range of the field survives. *)
Lemma BF64_get_set_sb x low len shift bias v :
  0 <= low -> 0 <= len -> 0 <= shift -> len + shift < 64 -> 0 <= bias <= 1 ->
  v `mod` 2 ^ shift = 0 -> bias * 2 ^ shift <= v < (2 ^ len + bias) * 2 ^ shift ->
  BF64_GET_SB (BF64_SET_SB x low len shift bias v) low len shift bias = v.
Proof.
  intros Hlow Hlen Hsh Hw Hb Hm Hv. unfold BF64_GET_SB, BF64_SET_SB. rewrite BF64_get_set by done.
  rewrite Z.shiftr_div_pow2 by done.
  assert (v = v / 2 ^ shift * 2 ^ shift) as Hq by (pose proof (Z.div_mod v (2 ^ shift)); lia).
  set (q := v / 2 ^ shift) in *.
  assert (0 < 2 ^ shift) by lia. assert (bias <= q < 2 ^ len + bias) by nia.
  assert (2 ^ len < 2 ^ 64) by (apply Z.pow_lt_mono_r; lia).
  rewrite (wrap_small 64 (q - bias)) by lia. rewrite Z.mod_small by lia.
  rewrite Z.shiftl_mul_pow2 by done. replace (q - bias + bias) with q by lia. rewrite <- Hq.
  apply wrap_small. assert (2 ^ (len + shift + 1) <= 2 ^ 64) as Hp1 by (apply Z.pow_le_mono_r; lia).
  rewrite !Z.pow_add_r in Hp1 by lia. assert (1 <= 2 ^ len) by lia. nia.
Qed.

(** ** Well-formed pointers *)

Definition bp_ok (bp : blkptr) : Prop := length (blk_dva bp) = SPA_DVAS_PER_BP.

(** A size the pointer can describe. *)
Definition size_ok (x : Z) : Prop := x `mod` 2 ^ 9 = 0 /\ 2 ^ 9 <= x <= SPA_MAXBLOCKSIZE.

(** Getters after setters. *)
Lemma get_lsize_set bp x : BP_IS_HOLE bp = false -> size_ok x -> BP_GET_LSIZE (BP_SET_LSIZE bp x) = x.
Proof.
  intros Hh [Hm Hx]. unfold BP_GET_LSIZE, BP_SET_LSIZE, BP_IS_HOLE in *. cbn [set_prop blk_birth blk_prop].
  rewrite Hh. change SPA_MAXBLOCKSIZE with 131072 in Hx. change SPA_MINBLOCKSHIFT with 9.
  apply BF64_get_set_sb; (lia || done).
Qed.

Lemma get_psize_set bp x : size_ok x -> BP_GET_PSIZE (BP_SET_PSIZE bp x) = x.
Proof.
  intros [Hm Hx]. unfold BP_GET_PSIZE, BP_SET_PSIZE. cbn [set_prop blk_prop].
  change SPA_MAXBLOCKSIZE with 131072 in Hx. change SPA_MINBLOCKSHIFT with 9.
  apply BF64_get_set_sb; (lia || done).
Qed.

Lemma get_compress_set bp x : 0 <= x < 256 -> BP_GET_COMPRESS (BP_SET_COMPRESS bp x) = x.
Proof.
  intros. unfold BP_GET_COMPRESS, BP_SET_COMPRESS. cbn [set_prop blk_prop].
  rewrite BF64_get_set by lia. apply Z.mod_small. lia.
Qed.

Lemma get_checksum_set bp x : 0 <= x < 256 -> BP_GET_CHECKSUM (BP_SET_CHECKSUM bp x) = x.
Proof.
  intros. unfold BP_GET_CHECKSUM, BP_SET_CHECKSUM. cbn [set_prop blk_prop].
  rewrite BF64_get_set by lia. apply Z.mod_small. lia.
Qed.

(** The reader swaps exactly when its byte order is not the writer's. *)
Lemma should_byteswap_set be be' bp :
  BP_SHOULD_BYTESWAP be' (BP_SET_BYTEORDER bp (ZFS_HOST_BYTEORDER be)) = xorb be be'.
Proof.
  unfold BP_SHOULD_BYTESWAP, BP_GET_BYTEORDER, BP_SET_BYTEORDER. cbn [set_prop blk_prop].
  rewrite BF64_get_set by lia. destruct be, be'; vm_compute; done.
Qed.

(** A setter leaves the other fields of the property word alone. *)
Ltac other_field :=
  intros; unfold BP_GET_LSIZE, BP_SET_LSIZE, BP_GET_PSIZE, BP_SET_PSIZE, BP_GET_COMPRESS, BP_SET_COMPRESS,
    BP_GET_CHECKSUM, BP_SET_CHECKSUM, BP_GET_BYTEORDER, BP_SET_BYTEORDER, BP_IS_HOLE,
    BF64_GET_SB, BF64_SET_SB; cbn [set_prop set_cksum blk_prop blk_birth];
  rewrite ?BF64_get_set_other by lia; done.

Lemma get_psize_other bp x :
  BP_GET_PSIZE (BP_SET_LSIZE bp x) = BP_GET_PSIZE bp /\ BP_GET_PSIZE (BP_SET_COMPRESS bp x) = BP_GET_PSIZE bp /\
  BP_GET_PSIZE (BP_SET_CHECKSUM bp x) = BP_GET_PSIZE bp /\ BP_GET_PSIZE (BP_SET_BYTEORDER bp x) = BP_GET_PSIZE bp.
Proof. split_and!; other_field. Qed.

Lemma get_lsize_other bp x :
  BP_GET_LSIZE (BP_SET_PSIZE bp x) = BP_GET_LSIZE bp /\ BP_GET_LSIZE (BP_SET_COMPRESS bp x) = BP_GET_LSIZE bp /\
  BP_GET_LSIZE (BP_SET_CHECKSUM bp x) = BP_GET_LSIZE bp /\ BP_GET_LSIZE (BP_SET_BYTEORDER bp x) = BP_GET_LSIZE bp.
Proof. split_and!; other_field. Qed.

Lemma get_compress_other bp x :
  BP_GET_COMPRESS (BP_SET_LSIZE bp x) = BP_GET_COMPRESS bp /\ BP_GET_COMPRESS (BP_SET_PSIZE bp x) = BP_GET_COMPRESS bp /\
  BP_GET_COMPRESS (BP_SET_CHECKSUM bp x) = BP_GET_COMPRESS bp /\ BP_GET_COMPRESS (BP_SET_BYTEORDER bp x) = BP_GET_COMPRESS bp.
Proof. split_and!; other_field. Qed.

Lemma get_checksum_other bp x :
  BP_GET_CHECKSUM (BP_SET_LSIZE bp x) = BP_GET_CHECKSUM bp /\ BP_GET_CHECKSUM (BP_SET_PSIZE bp x) = BP_GET_CHECKSUM bp /\
  BP_GET_CHECKSUM (BP_SET_COMPRESS bp x) = BP_GET_CHECKSUM bp /\ BP_GET_CHECKSUM (BP_SET_BYTEORDER bp x) = BP_GET_CHECKSUM bp.
Proof. split_and!; other_field. Qed.

(** Addresses. *)
Lemma get_asize_set d x : x `mod` 2 ^ 9 = 0 -> 0 <= x < 2 ^ 33 -> DVA_GET_ASIZE (DVA_SET_ASIZE d x) = x.
Proof.
  intros. unfold DVA_GET_ASIZE, DVA_SET_ASIZE. cbn [dva_word0]. change SPA_MINBLOCKSHIFT with 9.
  apply BF64_get_set_sb; (lia || done).
Qed.

(** The offset field is 63 bits wide in units of 512 bytes: every aligned
    64-bit offset fits. *)
Lemma get_offset_set d x : x `mod` 2 ^ 9 = 0 -> 0 <= x < 2 ^ 64 -> DVA_GET_OFFSET (DVA_SET_OFFSET d x) = x.
Proof.
  intros Hm Hx. unfold DVA_GET_OFFSET, DVA_SET_OFFSET, BF64_GET_SB, BF64_SET_SB. cbn [dva_word1].
  rewrite BF64_get_set by lia. change SPA_MINBLOCKSHIFT with 9. rewrite Z.shiftr_div_pow2, Z.shiftl_mul_pow2 by lia.
  rewrite Z.sub_0_r, Z.add_0_r. rewrite (wrap_small 64 (x / 2 ^ 9)) by (Z.to_euclidean_division_equations; lia).
  rewrite Z.mod_small by (Z.to_euclidean_division_equations; lia).
  rewrite wrap_small; Z.to_euclidean_division_equations; lia.
Qed.

Lemma get_vdev_set d x : 0 <= x < 2 ^ 32 -> DVA_GET_VDEV (DVA_SET_VDEV d x) = x.
Proof.
  intros. unfold DVA_GET_VDEV, DVA_SET_VDEV. cbn [dva_word0]. rewrite BF64_get_set by lia.
  apply Z.mod_small. lia.
Qed.

Lemma get_gang_set d (b : bool) : DVA_GET_GANG (DVA_SET_GANG d (Z.b2z b)) = Z.b2z b.
Proof. unfold DVA_GET_GANG, DVA_SET_GANG. cbn [dva_word1]. rewrite BF64_get_set by lia. by destruct b. Qed.

Ltac other_dva :=
  intros; unfold DVA_GET_ASIZE, DVA_SET_ASIZE, DVA_GET_VDEV, DVA_SET_VDEV, DVA_GET_OFFSET, DVA_SET_OFFSET,
    DVA_GET_GANG, DVA_SET_GANG, BF64_GET_SB, BF64_SET_SB; cbn [dva_word0 dva_word1];
  rewrite ?BF64_get_set_other by lia; done.

Lemma get_dva_other d x :
  DVA_GET_ASIZE (DVA_SET_VDEV d x) = DVA_GET_ASIZE d /\ DVA_GET_ASIZE (DVA_SET_OFFSET d x) = DVA_GET_ASIZE d /\
  DVA_GET_ASIZE (DVA_SET_GANG d x) = DVA_GET_ASIZE d /\
  DVA_GET_VDEV (DVA_SET_ASIZE d x) = DVA_GET_VDEV d /\ DVA_GET_VDEV (DVA_SET_OFFSET d x) = DVA_GET_VDEV d /\
  DVA_GET_VDEV (DVA_SET_GANG d x) = DVA_GET_VDEV d /\
  DVA_GET_OFFSET (DVA_SET_ASIZE d x) = DVA_GET_OFFSET d /\ DVA_GET_OFFSET (DVA_SET_VDEV d x) = DVA_GET_OFFSET d /\
  DVA_GET_OFFSET (DVA_SET_GANG d x) = DVA_GET_OFFSET d /\
  DVA_GET_GANG (DVA_SET_ASIZE d x) = DVA_GET_GANG d /\ DVA_GET_GANG (DVA_SET_VDEV d x) = DVA_GET_GANG d /\
  DVA_GET_GANG (DVA_SET_OFFSET d x) = DVA_GET_GANG d.
Proof. split_and!; other_dva. Qed.

End Blkptr.
