(* ===== verification/Mos.v ===== *)
(** * Objects with bonus buffers: what metaslabs use of the DMU

    [Mos] extends the interface of SpaceMapDisk.v with what metaslab.c and vdev.c
    ask of the pool's meta object set; an object set kept in memory satisfies it. *)

From Stdlib Require Import List.
From stdpp Require Import base option numbers list gmap.
From S2P Require Import Prelude SpaceMapDisk.
Local Open Scope Z_scope.

(** ** What the DMU promises to metaslabs

    Objects with a bonus buffer (as 64-bit words) besides their data; an array
    object can be written beyond its end. *)
Class Mos := {
  mos_dmu :: Dmu;
  dmu_exists : objset -> Z -> Prop;
  dmu_object_alloc : objset -> Z -> Z * objset;
  dmu_bonus : objset -> Z -> option (list Z);
  dmu_bonus_write : objset -> Z -> list Z -> objset;

  dmu_object_alloc_spec os bonuslen obj os' :
    dmu_object_alloc os bonuslen = (obj, os') ->
    0 < obj /\ ~ dmu_exists os obj /\ dmu_exists os' obj /\ dmu_words os' obj = [] /\
    dmu_bonus os' obj = Some (replicate (Z.to_nat (bonuslen / 8)) 0) /\
    (forall k, 0 <= k -> dmu_read os' obj (8 * k) 8 = Some [0]) /\
    forall o, o <> obj -> (dmu_exists os' o <-> dmu_exists os o) /\ dmu_words os' o = dmu_words os o /\
      dmu_bonus os' o = dmu_bonus os o /\ forall off n, dmu_read os' o off n = dmu_read os o off n;
  dmu_write_exists os obj off size buf o :
    (dmu_exists (dmu_write os obj off size buf) o <-> dmu_exists os o) /\
    dmu_bonus (dmu_write os obj off size buf) o = dmu_bonus os o;
  dmu_free_exists os obj off size os' o :
    dmu_free_range os obj off size = Some os' ->
    (dmu_exists os' o <-> dmu_exists os o) /\ dmu_bonus os' o = dmu_bonus os o;
  dmu_bonus_write_spec os obj ws old :
    dmu_bonus os obj = Some old -> (length ws <= length old)%nat ->
    dmu_bonus (dmu_bonus_write os obj ws) obj = Some (ws ++ drop (length ws) old);
  dmu_bonus_write_frame os obj ws o :
    (dmu_exists (dmu_bonus_write os obj ws) o <-> dmu_exists os o) /\
    dmu_words (dmu_bonus_write os obj ws) o = dmu_words os o /\
    (o <> obj -> dmu_bonus (dmu_bonus_write os obj ws) o = dmu_bonus os o) /\
    forall off n, dmu_read (dmu_bonus_write os obj ws) o off n = dmu_read os o off n;
  dmu_array_write os obj i v k :
    0 <= i -> 0 <= k ->
    dmu_read (dmu_write os obj (8 * i) 8 [v]) obj (8 * k) 8 =
      if i =? k then Some [v] else dmu_read os obj (8 * k) 8;
  dmu_read_frame os obj off size buf o off' n :
    o <> obj -> dmu_read (dmu_write os obj off size buf) o off' n = dmu_read os o off' n;
  dmu_free_read_frame os obj off size os' o off' n :
    dmu_free_range os obj off size = Some os' -> o <> obj -> dmu_read os' o off' n = dmu_read os o off' n
}.

(** Object sets in memory satisfy it: words and bonus buffers by object number,
    and what is not written reads as zeroes. *)
Module RamMos.
Record objs := Objs { o_words : gmap Z (list Z); o_bonus : gmap Z (list Z) }.

Definition words (os : objs) (obj : Z) : list Z := default [] (o_words os !! obj).
Definition read (os : objs) (obj off size : Z) : option (list Z) :=
  let n := Z.to_nat (size / 8) in
  Some (take n (drop (Z.to_nat (off / 8)) (words os obj) ++ replicate n 0)).
Definition write (os : objs) (obj off size : Z) (buf : list Z) : objs :=
  let ws := words os obj in
  let i := Z.to_nat (off / 8) in let n := Z.to_nat (size / 8) in
  Objs (<[obj := take i (ws ++ replicate i 0) ++ take n buf ++ drop (i + n) ws]> (o_words os)) (o_bonus os).
Definition alloc (os : objs) (bonuslen : Z) : Z * objs :=
  let obj := 1 + set_fold Z.max 0 (dom (o_bonus os)) in
  (obj, Objs (delete obj (o_words os)) (<[obj := replicate (Z.to_nat (bonuslen / 8)) 0]> (o_bonus os))).
Definition bonus_write (os : objs) (obj : Z) (ws : list Z) : objs :=
  Objs (o_words os) (alter (fun old => ws ++ drop (length ws) old) obj (o_bonus os)).

#[export] Instance ram_dmu : Dmu.
Proof.
  refine {|
    objset := objs;
    dmu_words := words;
    dmu_read := read;
    dmu_write := write;
    dmu_free_range os obj off size := Some (Objs (delete obj (o_words os)) (o_bonus os))
  |}.
  - intros os obj i n Hi. unfold read. rewrite !(Z.mul_comm 8), !Z.div_mul, !Nat2Z.id by lia.
    rewrite take_app_le by (rewrite length_drop; lia). done.
  - intros os obj i ws buf Hi Hl Ht. unfold write. cbn zeta. rewrite !(Z.mul_comm 8), !Z.div_mul, !Nat2Z.id, Ht by lia.
    unfold words at 1. cbn [o_words]. rewrite lookup_insert_eq. cbn. by rewrite take_app_le by lia.
  - intros. unfold write, words at 1. cbn [o_words]. by rewrite lookup_insert_ne.
  - intros os obj. eexists. split_and!; [done| |]; unfold words; cbn [o_words]; [by rewrite lookup_delete_eq|].
    intros. by rewrite lookup_delete_ne.
Defined.

Lemma fold_max_le (X : gset Z) x : x ∈ X -> x <= set_fold Z.max 0 X.
Proof.
  revert x. apply (set_fold_ind_L (fun r X => forall x, x ∈ X -> x <= r)); [set_solver|].
  intros y Y r _ IH x Hx. apply elem_of_union in Hx as [->%elem_of_singleton|Hx]; [lia|]. specialize (IH x Hx). lia.
Qed.
Lemma fold_max_nonneg (X : gset Z) : 0 <= set_fold Z.max 0 X.
Proof. apply (set_fold_ind_L (fun r _ => 0 <= r)); [lia|]. intros. lia. Qed.

Lemma take_one k (l : list Z) : take 1 (drop k l ++ [0]) = [default 0 (l !! k)].
Proof. revert l. induction k as [|k IH]; intros [|x l]; try done. apply IH. Qed.

#[export] Instance ram_mos : Mos.
Proof.
  refine {|
    mos_dmu := ram_dmu;
    dmu_exists os obj := obj ∈ dom (o_bonus os);
    dmu_object_alloc := alloc;
    dmu_bonus os obj := o_bonus os !! obj;
    dmu_bonus_write := bonus_write
  |}; cbn.
  - intros os bonuslen obj os' E. unfold alloc in E. cbn zeta in E. injection E as Eo <-. cbn [o_bonus].
    pose proof (fold_max_nonneg (dom (o_bonus os))). rewrite Eo. split_and!; [lia| | | | | |].
    + intros Hin. apply fold_max_le in Hin. lia.
    + set_solver.
    + unfold words. cbn. by rewrite lookup_delete_eq.
    + by rewrite lookup_insert_eq.
    + intros k Hk. unfold read, words. cbn [o_words]. rewrite lookup_delete_eq. cbn [default]. by rewrite drop_nil.
    + intros o Ho. unfold read, words. cbn [o_words]. rewrite lookup_insert_ne, lookup_delete_ne by done. split_and!; try done. set_solver.
  - done.
  - intros os obj off size os' o E. by injection E as <-.
  - intros os obj ws old E Hl. unfold bonus_write. cbn [o_bonus]. by rewrite lookup_alter_eq, E.
  - intros os obj ws o. unfold bonus_write. cbn [o_bonus]. split_and!; try done.
    + by rewrite dom_alter_L.
    + intros Ho. by rewrite lookup_alter_ne.
  - intros os obj i v k Hi Hk. unfold read. change (8 / 8) with 1. rewrite (Z.mul_comm 8 k), Z.div_mul by lia.
    change (replicate (Z.to_nat 1) 0) with [0]. change (Z.to_nat 1) with 1%nat. rewrite !take_one. unfold write.
    rewrite (Z.mul_comm 8 i), Z.div_mul by lia. cbn zeta. unfold words at 1. cbn [o_words]. rewrite lookup_insert_eq. cbn [default id].
    change (take (Z.to_nat (8 / 8)) [v]) with [v]. change (Z.to_nat (8 / 8)) with 1%nat.
    set (ws := words os obj). set (l := take (Z.to_nat i) (ws ++ replicate (Z.to_nat i) 0)).
    assert (length l = Z.to_nat i) as El by (unfold l; rewrite length_take, length_app, length_replicate; lia).
    destruct (Z.eqb_spec i k) as [->|Hne].
    + rewrite lookup_app_r by lia. by rewrite El, Nat.sub_diag.
    + destruct (Z.lt_ge_cases k i) as [Hlt|Hge].
      * rewrite lookup_app_l by lia. unfold l. rewrite lookup_take_lt by lia. destruct (decide (Z.to_nat k < length ws)%nat) as [Hd|Hd].
        -- by rewrite lookup_app_l.
        -- rewrite lookup_app_r, lookup_replicate_2 by lia. by rewrite lookup_ge_None_2 by lia.
      * rewrite lookup_app_r, El by lia. destruct (Z.to_nat k - Z.to_nat i)%nat as [|j] eqn:Ej; [lia|]. change (([v] ++ drop (Z.to_nat i + 1) ws) !! S j) with (drop (Z.to_nat i + 1) ws !! j). rewrite lookup_drop.
        repeat f_equal. lia.
  - intros os obj off size buf o off' n Ho. unfold read, write, words at 1. cbn [o_words]. by rewrite lookup_insert_ne.
  - intros os obj off size os' o off' n E Ho. injection E as <-. unfold read, words. cbn [o_words]. by rewrite lookup_delete_ne.
Defined.
End RamMos.
