(* ===== verification/MetaslabTxg.v ===== *)
(** * Metaslabs over transaction groups: fs/zfs/metaslab.c and its part of vdev.c

    A metaslab is a region of a top-level vdev.  In memory it has a map of what is
    free, and for each transaction group in flight a map of what was allocated and
    one of what was freed in it; on disk it has the log of a space map object.
    This file models one metaslab: its weight, activation and passivation, the
    part of an allocation, a free and a claim that runs under its lock,
    [metaslab_sync], which writes a group's changes to the log, appending or
    condensing, and [metaslab_sync_done], which makes freed space usable.

    The life of an offset is an automaton ([status]) and [minv] says which offsets
    the maps and the log hold in terms of it; every operation refines a
    transition of the automaton. *)

From Stdlib Require Import List Permutation Sorted.
From stdpp Require Import base option numbers list gmap.
From S2P Require Import Prelude Bits OrdTree Avl SpaceMap SpaceMapDisk Mos Metaslab Blkptr Txg.
Import SpaceMap SpaceMapDisk Metaslab Blkptr Txg.
Local Open Scope Z_scope.

(** A node of the tree of a metaslab group: the fields the comparison reads. *)
Record mnode := MNode { mn_weight : Z; mn_start : Z }.
#[global] Instance mnode_eq_dec : EqDecision mnode.
Proof. solve_decision. Defined.

Module MetaslabTxg.

Definition metaslab_compare (m1 m2 : mnode) : comparison :=
  if mn_weight m1 <? mn_weight m2 then Gt
  else if mn_weight m2 <? mn_weight m1 then Lt
  else if mn_start m1 <? mn_start m2 then Lt
  else if mn_start m2 <? mn_start m1 then Gt
  else Eq.

Definition METASLAB_WEIGHT_PRIMARY : Z := Z.shiftl 1 63.
Definition METASLAB_WEIGHT_SECONDARY : Z := Z.shiftl 1 62.
Definition METASLAB_ACTIVE_MASK : Z := Z.lor METASLAB_WEIGHT_PRIMARY METASLAB_WEIGHT_SECONDARY.
Definition METASLAB_SMO_BONUS_MULTIPLIER : Z := 2.

Section Ops.
Context {OT : OrdTree space_seg} {OM : OrdTree mnode} {DM : Mos}.
Variable zfs_recover : bool.

(** [struct metaslab], without its lock.  [ms_addr] is its address, which the
    lists of dirty metaslabs hold. *)
Record metaslab := Metaslab {
  ms_addr : Z;
  ms_smo : space_map_obj;
  ms_smo_syncing : space_map_obj;
  ms_allocmap : list space_map;
  ms_freemap : list space_map;
  ms_map : space_map;
  ms_weight : Z
}.

Definition set_weight (m : metaslab) (w : Z) : metaslab :=
  Metaslab (ms_addr m) (ms_smo m) (ms_smo_syncing m) (ms_allocmap m) (ms_freemap m) (ms_map m) w.
Definition set_map (m : metaslab) (sm : space_map) : metaslab :=
  Metaslab (ms_addr m) (ms_smo m) (ms_smo_syncing m) (ms_allocmap m) (ms_freemap m) sm (ms_weight m).
Definition set_allocmap (m : metaslab) (l : list space_map) : metaslab :=
  Metaslab (ms_addr m) (ms_smo m) (ms_smo_syncing m) l (ms_freemap m) (ms_map m) (ms_weight m).
Definition set_freemap (m : metaslab) (l : list space_map) : metaslab :=
  Metaslab (ms_addr m) (ms_smo m) (ms_smo_syncing m) (ms_allocmap m) l (ms_map m) (ms_weight m).
Definition set_smo_syncing (m : metaslab) (smo : space_map_obj) : metaslab :=
  Metaslab (ms_addr m) (ms_smo m) smo (ms_allocmap m) (ms_freemap m) (ms_map m) (ms_weight m).
Definition set_smo (m : metaslab) (smo : space_map_obj) : metaslab :=
  Metaslab (ms_addr m) smo (ms_smo_syncing m) (ms_allocmap m) (ms_freemap m) (ms_map m) (ms_weight m).

(** The space fields of [vdev_stat_t]. *)
Record vdev_stat := VdevStat { vs_space : Z; vs_alloc : Z; vs_dspace : Z }.

(** What metaslabs use of their top-level vdev, its group, and of the pool's list
    of dirty vdevs.  [vd_stat] is the vdev's and [rvd_stat] the root vdev's;
    [mg_normal] is whether the group is of the pool's normal class, [vdev_dirty_node]
    whether the vdev is on the pool's list of changed configurations. *)
Record vdev := Vdev {
  vdev_addr : Z;
  vdev_id : Z;
  vdev_ashift : Z;
  vdev_asize : Z;
  vdev_ms_shift : Z;
  vdev_ms_count : Z;
  vdev_ms_array : Z;
  vdev_deflate_ratio : Z;
  vd_stat : vdev_stat;
  rvd_stat : vdev_stat;
  mg_normal : bool;
  mg_metaslab_tree : ot mnode;
  vdev_ms_list : txg_list;
  ms_txg_nodes : store;
  spa_vdev_txg_list : txg_list;
  vdev_txg_nodes : store;
  vdev_dirty_node : bool
}.

Definition set_tree (vd : vdev) (t : ot mnode) : vdev :=
  Vdev (vdev_addr vd) (vdev_id vd) (vdev_ashift vd) (vdev_asize vd) (vdev_ms_shift vd) (vdev_ms_count vd)
    (vdev_ms_array vd) (vdev_deflate_ratio vd) (vd_stat vd) (rvd_stat vd) (mg_normal vd) t
    (vdev_ms_list vd) (ms_txg_nodes vd) (spa_vdev_txg_list vd) (vdev_txg_nodes vd) (vdev_dirty_node vd).
Definition set_stats (vd : vdev) (s r : vdev_stat) : vdev :=
  Vdev (vdev_addr vd) (vdev_id vd) (vdev_ashift vd) (vdev_asize vd) (vdev_ms_shift vd) (vdev_ms_count vd)
    (vdev_ms_array vd) (vdev_deflate_ratio vd) s r (mg_normal vd) (mg_metaslab_tree vd)
    (vdev_ms_list vd) (ms_txg_nodes vd) (spa_vdev_txg_list vd) (vdev_txg_nodes vd) (vdev_dirty_node vd).
Definition set_lists (vd : vdev) (ml : txg_list) (ms : store) (vl : txg_list) (vs : store) : vdev :=
  Vdev (vdev_addr vd) (vdev_id vd) (vdev_ashift vd) (vdev_asize vd) (vdev_ms_shift vd) (vdev_ms_count vd)
    (vdev_ms_array vd) (vdev_deflate_ratio vd) (vd_stat vd) (rvd_stat vd) (mg_normal vd) (mg_metaslab_tree vd)
    ml ms vl vs (vdev_dirty_node vd).

(** ** Groups *)

Definition node_of (m : metaslab) : mnode := MNode (ms_weight m) (sm_start (ms_map m)).

(** [avl_add(&mg->mg_metaslab_tree, msp)] *)
Definition tree_add (t : ot mnode) (n : mnode) : outcome (ot mnode) :=
  match ot_find (metaslab_compare n) t with
  | inl _ => Err Panic
  | inr wher => ot_insert t n wher
  end.

Definition metaslab_group_add (vd : vdev) (m : metaslab) : outcome (vdev * metaslab) :=
  let m := set_weight m 0 in
  t ← tree_add (mg_metaslab_tree vd) (node_of m);
  Ok (set_tree vd t, m).

Definition metaslab_group_remove (vd : vdev) (m : metaslab) : outcome vdev :=
  t ← ot_remove (mg_metaslab_tree vd) (node_of m);
  Ok (set_tree vd t).

Definition metaslab_group_sort (vd : vdev) (m : metaslab) (weight : Z) : outcome (vdev * metaslab) :=
  _ ← verify ((SPA_MINBLOCKSIZE - 1 <=? weight) || (weight =? 0));
  t ← ot_remove (mg_metaslab_tree vd) (node_of m);
  let m := set_weight m weight in
  t ← tree_add t (node_of m);
  Ok (set_tree vd t, m).

(** ** Accounting and dirty lists *)

Definition stat_add (s : vdev_stat) (space_delta alloc_delta dspace_delta : Z) : vdev_stat :=
  VdevStat (u64 (vs_space s + space_delta)) (u64 (vs_alloc s + alloc_delta)) (u64 (vs_dspace s + dspace_delta)).

(** The deltas are signed 64-bit numbers. *)
Definition vdev_space_update (vd : vdev) (space_delta alloc_delta : Z) : outcome vdev :=
  _ ← verify (negb (vdev_ms_count vd =? 0));
  _ ← verify (Z.land space_delta (SPA_MINBLOCKSIZE - 1) =? 0);
  let dspace_delta := u64 (Z.shiftr space_delta SPA_MINBLOCKSHIFT * vdev_deflate_ratio vd) in
  let s := stat_add (vd_stat vd) space_delta alloc_delta dspace_delta in
  if mg_normal vd then Ok (set_stats vd s (stat_add (rvd_stat vd) space_delta alloc_delta dspace_delta))
  else Ok (set_stats vd s (rvd_stat vd)).

Definition VDD_METASLAB : Z := 1.

(** [vdev_dirty] with [VDD_METASLAB] and a metaslab, or with no flag. *)
Definition vdev_dirty (vd : vdev) (flags : Z) (arg : option Z) (txg : Z) : outcome vdev :=
  _ ← verify (Z.land flags (flags - 1) =? 0);
  '(ml, ms) ← (if Z.land flags VDD_METASLAB =? 0 then Ok (vdev_ms_list vd, ms_txg_nodes vd)
               else match arg with
                    | None => Err Fault
                    | Some p => '(ml, ms, _) ← txg_list_add (vdev_ms_list vd) (ms_txg_nodes vd) p txg; Ok (ml, ms)
                    end);
  '(vl, vs, _) ← txg_list_add (spa_vdev_txg_list vd) (vdev_txg_nodes vd) (vdev_addr vd) txg;
  Ok (set_lists vd ml ms vl vs).

(** ** Weights *)

Definition metaslab_weight (vd : vdev) (m : metaslab) : outcome Z :=
  let sm := ms_map m in
  let smo := ms_smo m in
  let space := u64 (sm_size sm - smo_alloc smo) in
  _ ← verify (negb (vdev_ms_count vd =? 0));
  let weight := u64 (2 * space - u64 (Z.shiftr (sm_start sm) (vdev_ms_shift vd) * space) / vdev_ms_count vd) in
  _ ← verify ((space <=? weight) && (weight <=? u64 (2 * space)));
  let weight := if smo_object smo =? 0 then weight else u64 (weight * METASLAB_SMO_BONUS_MULTIPLIER) in
  _ ← verify ((space <=? weight) && (weight <=? u64 (2 * METASLAB_SMO_BONUS_MULTIPLIER * space)));
  Ok (Z.lor weight (Z.land (ms_weight m) METASLAB_ACTIVE_MASK)).

(** The address of [metaslab_ff_ops] and the vectors in memory. *)
Definition ff_addr : Z := 1.
Definition ms_ops : ops_table := fun p => if p =? ff_addr then Some metaslab_ff_ops else None.

(** [space_map_load] returns 0 or panics, so the error return is never taken. *)
Definition metaslab_activate (vd : vdev) (os : objset) (m : metaslab) (activation_weight : Z)
    : outcome (vdev * metaslab) :=
  '(vd, m) ← (if Z.land (ms_weight m) METASLAB_ACTIVE_MASK =? 0 then
                sm ← space_map_load zfs_recover ms_ops [] (ms_map m) (Some ff_addr) SM_FREE (ms_smo m) os;
                let m := set_map m sm in
                metaslab_group_sort vd m (Z.lor (ms_weight m) activation_weight)
              else Ok (vd, m));
  _ ← verify (sm_loaded (ms_map m));
  _ ← verify (negb (Z.land (ms_weight m) METASLAB_ACTIVE_MASK =? 0));
  Ok (vd, m).

Definition metaslab_passivate (vd : vdev) (m : metaslab) (size : Z) : outcome (vdev * metaslab) :=
  _ ← verify ((SPA_MINBLOCKSIZE <=? size) || (sm_space (ms_map m) =? 0));
  '(vd, m) ← metaslab_group_sort vd m (Z.min (ms_weight m) size);
  _ ← verify (Z.land (ms_weight m) METASLAB_ACTIVE_MASK =? 0);
  Ok (vd, m).

(** ** Writing a transaction group to disk *)

(** A space map object's header, as it lies in the bonus buffer. *)
Definition smo_words (smo : space_map_obj) : list Z := [smo_object smo; smo_objsize smo; smo_alloc smo].

(** [space_map_vacate(sm, NULL, NULL)] *)
Definition vacate_null (sm : space_map) : outcome space_map :=
  '(sm, _) ← space_map_vacate sm (fun _ _ _ => Ok tt) tt; Ok sm.

(** [for (t = 1; t < TXG_CONCURRENT_STATES; t++)
      space_map_walk(&msp->ms_allocmap[(txg + t) & TXG_MASK], space_map_remove, allocmap);] *)
Fixpoint remove_future (n : nat) (t : Z) (maps : list space_map) (txg : Z) (allocmap : space_map)
    : outcome space_map :=
  match n with
  | O => Ok allocmap
  | S n' =>
      f ← get maps (slot (u64 (txg + t)));
      allocmap ← space_map_walk f (space_map_remove zfs_recover) allocmap;
      remove_future n' (t + 1) maps txg allocmap
  end.

(** The object for the log, made when there is none yet; 24 is the size of its header. *)
Definition sync_object (vd : vdev) (os : objset) (m : metaslab) : outcome (space_map_obj * objset) :=
  let smo := ms_smo_syncing m in
  if smo_object smo =? 0 then
    _ ← verify (smo_objsize smo =? 0);
    _ ← verify (smo_alloc smo =? 0);
    let '(object, os) := dmu_object_alloc os 24 in
    _ ← verify (negb (object =? 0));
    let os := dmu_write os (vdev_ms_array vd) (8 * Z.shiftr (sm_start (ms_map m)) (vdev_ms_shift vd)) 8 [object] in
    Ok (Smo object (smo_objsize smo) (smo_alloc smo), os)
  else Ok (smo, os).

(** The condensed log: what is allocated, from first principles. *)
Definition sync_condense (m : metaslab) (freed_map allocmap freemap : space_map) (smo : space_map_obj)
    (os : objset) (txg : Z) : outcome (space_map * space_map * space_map_obj * objset) :=
  allocmap ← vacate_null allocmap;
  freemap ← vacate_null freemap;
  allocmap ← space_map_add zfs_recover allocmap (sm_start allocmap) (sm_size allocmap);
  allocmap ← space_map_walk (ms_map m) (space_map_remove zfs_recover) allocmap;
  allocmap ← space_map_walk freed_map (space_map_remove zfs_recover) allocmap;
  allocmap ← remove_future (Z.to_nat (TXG_CONCURRENT_STATES - 1)) 1 (ms_allocmap m) txg allocmap;
  '(smo, os) ← space_map_truncate smo os;
  Ok (allocmap, freemap, smo, os).

(** [syncpass] is [spa_sync_pass(spa)]. *)
Definition metaslab_sync (vd : vdev) (os : objset) (m : metaslab) (txg syncpass : Z) : outcome (objset * metaslab) :=
  allocmap ← get (ms_allocmap m) (slot txg);
  freemap ← get (ms_freemap m) (slot txg);
  freed_map ← get (ms_freemap m) (slot (TXG_CLEAN txg));
  let sm := ms_map m in
  '(smo, os) ← sync_object vd os m;
  freed_map ← space_map_walk freemap (space_map_add zfs_recover) freed_map;
  '(allocmap, freemap, smo, os) ←
    (if sm_loaded sm && (syncpass =? 1) && (u64 (2 * 8 * ot_numnodes (sm_root sm)) <=? smo_objsize smo) then
       sync_condense m freed_map allocmap freemap smo os txg
     else Ok (allocmap, freemap, smo, os));
  '(allocmap, smo, os) ← space_map_sync allocmap SM_ALLOC smo os syncpass txg;
  '(freemap, smo, os) ← space_map_sync freemap SM_FREE smo os syncpass txg;
  match dmu_bonus os (smo_object smo) with
  | None => Err Panic
  | Some db_data =>
      _ ← verify (24 <=? 8 * zlen db_data);
      let os := dmu_bonus_write os (smo_object smo) (smo_words smo) in
      am ← put (ms_allocmap m) (slot txg) allocmap;
      fm ← put (ms_freemap m) (slot txg) freemap;
      fm ← put fm (slot (TXG_CLEAN txg)) freed_map;
      Ok (os, set_smo_syncing (set_freemap (set_allocmap m am) fm) smo)
  end.

(** [for (t = 1; t < TXG_CONCURRENT_STATES; t++)
      if (msp->ms_allocmap[(txg + t) & TXG_MASK].sm_space) evictable = 0;] *)
Fixpoint evictable (n : nat) (t : Z) (maps : list space_map) (txg : Z) (ev : bool) : outcome bool :=
  match n with
  | O => Ok ev
  | S n' =>
      a ← get maps (slot (u64 (txg + t)));
      evictable n' (t + 1) maps txg (ev && (sm_space a =? 0))
  end.

(** The end of [metaslab_sync_done]: an inactive map without allocations to come is
    evicted, and the metaslab gets its new weight. *)
Definition evict_and_sort (vd : vdev) (m : metaslab) (txg : Z) : outcome (vdev * metaslab) :=
  let sm := ms_map m in
  sm ← (if sm_loaded sm && (Z.land (ms_weight m) METASLAB_ACTIVE_MASK =? 0) then
          ev ← evictable (Z.to_nat (TXG_CONCURRENT_STATES - 1)) 1 (ms_allocmap m) txg true;
          if (ev : bool) then space_map_unload ms_ops sm else Ok sm
        else Ok sm);
  let m := set_map m sm in
  w ← metaslab_weight vd m;
  metaslab_group_sort vd m w.

Definition metaslab_sync_done (vd : vdev) (m : metaslab) (txg : Z) : outcome (vdev * metaslab) :=
  let sm := ms_map m in
  freed_map ← get (ms_freemap m) (slot (TXG_CLEAN txg));
  '(vd, m) ←
    (if sm_size freed_map =? 0 then
       let maps := replicate (Z.to_nat TXG_SIZE) (space_map_create (sm_start sm) (sm_size sm) (sm_shift sm)) in
       vd ← vdev_space_update vd (sm_size sm) 0;
       Ok (vd, set_freemap (set_allocmap m maps) maps)
     else Ok (vd, m));
  vd ← vdev_space_update vd 0 (smo_alloc (ms_smo_syncing m) - smo_alloc (ms_smo m));
  a ← get (ms_allocmap m) (slot txg);
  _ ← verify (sm_space a =? 0);
  f ← get (ms_freemap m) (slot txg);
  _ ← verify (sm_space f =? 0);
  sm ← space_map_load_wait [] sm;
  freed_map ← get (ms_freemap m) (slot (TXG_CLEAN txg));
  '(freed_map, sm) ←
    (if sm_loaded sm then space_map_vacate freed_map (space_map_free zfs_recover ms_ops) sm
     else freed_map ← vacate_null freed_map; Ok (freed_map, sm));
  fm ← put (ms_freemap m) (slot (TXG_CLEAN txg)) freed_map;
  evict_and_sort vd (set_map (set_smo (set_freemap m fm) (ms_smo_syncing m)) sm) txg.

(** ** Making and unmaking a metaslab *)

(** [kmem_zalloc] gives a metaslab whose maps are all zeroes. *)
Definition zero_map : space_map := space_map_create 0 0 0.

Definition zero_node : txg_node :=
  TxgNode (replicate (Z.to_nat TXG_SIZE) None) (replicate (Z.to_nat TXG_SIZE) 0).
Definition set_nodes (vd : vdev) (nodes : store) : vdev :=
  set_lists vd (vdev_ms_list vd) nodes (spa_vdev_txg_list vd) (vdev_txg_nodes vd).
Definition add_node (vd : vdev) (addr : Z) : vdev :=
  set_nodes vd (<[addr + tl_offset (vdev_ms_list vd) := zero_node]> (ms_txg_nodes vd)).

(** [last_synced] is [spa_last_synced_txg(vd->vdev_spa)]; [addr] the address
    [kmem_zalloc] returned, the node of the metaslab is at its offset from it. *)
Definition metaslab_init (vd : vdev) (smo : space_map_obj) (start size txg addr last_synced : Z)
    : outcome (vdev * metaslab) :=
  let zeroes := replicate (Z.to_nat TXG_SIZE) zero_map in
  let m := Metaslab addr (Smo 0 0 0) smo zeroes zeroes (space_map_create start size (vdev_ashift vd)) 0 in
  '(vd, m) ← metaslab_group_add (add_node vd addr) m;
  '(vd, m) ← (if txg <=? TXG_INITIAL then metaslab_sync_done vd m 0 else Ok (vd, m));
  if negb (txg =? 0) then
    _ ← verify (TXG_CLEAN txg =? last_synced);
    vd ← vdev_dirty vd 0 None txg;
    vd ← vdev_dirty vd VDD_METASLAB (Some (ms_addr m)) (TXG_CLEAN txg);
    Ok (vd, m)
  else Ok (vd, m).

Fixpoint destroy_all (maps : list space_map) : outcome unit :=
  match maps with
  | [] => Ok tt
  | sm :: maps' => _ ← space_map_destroy sm; destroy_all maps'
  end.

(** The map arrays are destroyed together, one group at a time, in the code; none
    of these calls changes anything. *)
Definition metaslab_fini (vd : vdev) (m : metaslab) : outcome vdev :=
  vd ← vdev_space_update vd (- sm_size (ms_map m)) (- smo_alloc (ms_smo m));
  vd ← metaslab_group_remove vd m;
  sm ← space_map_unload ms_ops (ms_map m);
  _ ← space_map_destroy sm;
  _ ← destroy_all (ms_allocmap m);
  _ ← destroy_all (ms_freemap m);
  Ok (set_nodes vd (delete (ms_addr m + tl_offset (vdev_ms_list vd)) (ms_txg_nodes vd))).

(** ** Under the lock of a metaslab: the end of an allocation, a free, a claim *)

(** The lines of [metaslab_group_alloc] and [metaslab_claim_dva] that enter a
    range into the group's allocation map. *)
Definition alloc_note (vd : vdev) (m : metaslab) (offset size txg : Z) : outcome (vdev * metaslab) :=
  a ← get (ms_allocmap m) (slot txg);
  vd ← (if sm_space a =? 0 then vdev_dirty vd VDD_METASLAB (Some (ms_addr m)) txg else Ok vd);
  a ← space_map_add zfs_recover a offset size;
  am ← put (ms_allocmap m) (slot txg) a;
  Ok (vd, set_allocmap m am).

(** [for (i = 0; i < TXG_CONCURRENT_STATES; i++)
      if (space_map_contains(&msp->ms_allocmap[(txg - i) & TXG_MASK], offset, size)) ...] *)
Fixpoint in_allocmaps (n : nat) (i : Z) (maps : list space_map) (txg offset size : Z) : outcome bool :=
  match n with
  | O => Ok false
  | S n' =>
      a ← get maps (slot (u64 (txg - i)));
      b ← space_map_contains a offset size;
      if (b : bool) then Ok true else in_allocmaps n' (i + 1) maps txg offset size
  end.

(** [metaslab_free_dva] between [mutex_enter] and [mutex_exit]. *)
Definition free_locked (vd : vdev) (m : metaslab) (offset size txg : Z) (now : bool) : outcome (vdev * metaslab) :=
  if now then
    a ← get (ms_allocmap m) (slot txg);
    a ← space_map_remove zfs_recover a offset size;
    am ← put (ms_allocmap m) (slot txg) a;
    sm ← space_map_free zfs_recover ms_ops (ms_map m) offset size;
    Ok (vd, set_map (set_allocmap m am) sm)
  else
    f ← get (ms_freemap m) (slot txg);
    vd ← (if sm_space f =? 0 then vdev_dirty vd VDD_METASLAB (Some (ms_addr m)) txg else Ok vd);
    f ← space_map_add zfs_recover f offset size;
    fm ← put (ms_freemap m) (slot txg) f;
    let m := set_freemap m fm in
    if sm_loaded (ms_map m) then
      c ← space_map_contains (ms_map m) offset size;
      allocd ← (if negb c then Ok true
                else in_allocmaps (Z.to_nat TXG_CONCURRENT_STATES) 0 (ms_allocmap m) txg offset size);
      if negb allocd then zfs_panic_recover zfs_recover (Ok (vd, m)) else Ok (vd, m)
    else Ok (vd, m).

(** [metaslab_claim_dva] between [mutex_enter] and [mutex_exit]. *)
Definition claim_locked (vd : vdev) (os : objset) (m : metaslab) (offset size txg : Z) : outcome (vdev * metaslab) :=
  '(vd, m) ← metaslab_activate vd os m METASLAB_WEIGHT_SECONDARY;
  a ← get (ms_allocmap m) (slot txg);
  vd ← (if sm_space a =? 0 then vdev_dirty vd VDD_METASLAB (Some (ms_addr m)) txg else Ok vd);
  sm ← space_map_claim zfs_recover ms_ops (ms_map m) offset size;
  a ← space_map_add zfs_recover a offset size;
  am ← put (ms_allocmap m) (slot txg) a;
  Ok (vd, set_allocmap (set_map m sm) am).

(** One round of [metaslab_group_alloc] on the metaslab it chose. *)
Inductive attempt := Again | Found (offset : Z).
Definition alloc_locked (vd : vdev) (os : objset) (m : metaslab) (size txg activation_weight : Z)
    : outcome (vdev * metaslab * attempt) :=
  if ms_weight m <? size then Ok (vd, m, Again)
  else if negb (Z.land (ms_weight m) METASLAB_WEIGHT_SECONDARY =? 0) && (activation_weight =? METASLAB_WEIGHT_PRIMARY) then
    '(vd, m) ← metaslab_passivate vd m (Z.land (ms_weight m) (Z.lnot METASLAB_ACTIVE_MASK));
    Ok (vd, m, Again)
  else
    '(vd, m) ← metaslab_activate vd os m activation_weight;
    '(sm, offset) ← space_map_alloc zfs_recover ms_ops (ms_map m) size;
    let m := set_map m sm in
    if negb (offset =? 2 ^ 64 - 1) then
      '(vd, m) ← alloc_note vd m offset size txg;
      Ok (vd, m, Found offset)
    else
      '(vd, m) ← metaslab_passivate vd m (u64 (size - 1));
      Ok (vd, m, Again).

(** ** The life of an offset

    Free; allocated in a group that has not been synced; allocated on disk; freed
    in the group being synced, and not to be used before it is on disk.  An
    allocated offset may have been freed in a group that has not been synced. *)
Inductive status :=
  | Free
  | Born (t : Z) (freed : option Z)
  | Live (freed : option Z)
  | Dying.

Definition born_in (s : status) (t : Z) : Prop := match s with Born u _ => u = t | _ => False end.
Definition freed_in (s : status) (t : Z) : Prop :=
  match s with Born _ (Some u) | Live (Some u) => u = t | _ => False end.
Definition on_disk (s : status) : Prop := match s with Live _ => True | _ => False end.

(** Groups [T], [T + 1] and [T + 2] are in flight; an offset is freed after it was
    allocated. *)
Definition status_ok (T : Z) (s : status) : Prop :=
  match s with
  | Born t f => T <= t <= T + 2 /\ match f with Some u => t <= u <= T + 2 | None => True end
  | Live (Some u) => T <= u <= T + 2
  | _ => True
  end.

(** ** The invariant *)

Definition in_region (m : metaslab) (x : Z) : Prop := sm_start (ms_map m) <= x < sm_end (ms_map m).

(** Its entry in the array of space map objects. *)
Definition ms_index (vd : vdev) (m : metaslab) : Z := Z.shiftr (sm_start (ms_map m)) (vdev_ms_shift vd).

(** A metaslab's place in its vdev. *)
Record geom (vd : vdev) (sm : space_map) : Prop := {
  g_place : exists i, 0 <= i < vdev_ms_count vd /\ sm_start sm = i * 2 ^ vdev_ms_shift vd;
  g_size : sm_size sm = 2 ^ vdev_ms_shift vd;
  g_shift : 9 <= sm_shift sm <= vdev_ms_shift vd;
  g_units : vdev_ms_shift vd <= 47 + sm_shift sm;
  g_vdev : vdev_ms_count vd * 2 ^ vdev_ms_shift vd <= 2 ^ 59
}.

(** The map holds exactly the offsets of [P]. *)
Definition holds (sm : space_map) (P : Z -> Prop) : Prop := forall x, member (segs sm) x <-> P x.

Definition active (w : Z) : Prop := 2 ^ 62 <= w.
Definition low (w : Z) : Z := w `mod` 2 ^ 62.

(** An active metaslab is loaded, and is worth at least a block or full. *)
Definition weight_ok (m : metaslab) (s : Z -> status) : Prop :=
  0 <= ms_weight m < 2 ^ 64 /\ (low (ms_weight m) = 0 \/ SPA_MINBLOCKSIZE - 1 <= low (ms_weight m)) /\
  (active (ms_weight m) -> sm_loaded (ms_map m) = true /\
     (SPA_MINBLOCKSIZE <= low (ms_weight m) \/
      forall x, (in_region m x -> s x <> Free) /\ forall t f, s x <> Born t f)).

Record minv (T : Z) (vd : vdev) (os : objset) (m : metaslab) (s : Z -> status) : Prop := {
  i_geom : geom vd (ms_map m);
  i_ok : sm_ok (ms_map m);
  i_loading : sm_loading (ms_map m) = false;
  i_len : length (ms_allocmap m) = 4%nat /\ length (ms_freemap m) = 4%nat;
  i_maps : Forall (fun a => sm_ok a /\ compatible (ms_map m) a) (ms_allocmap m ++ ms_freemap m);
  i_alloc t a : T - 1 <= t <= T + 2 -> ms_allocmap m !! slot t = Some a ->
    holds a (fun x => T <= t /\ born_in (s x) t);
  i_free t a : T - 1 <= t <= T + 2 -> ms_freemap m !! slot t = Some a ->
    holds a (fun x => if T <=? t then freed_in (s x) t else s x = Dying);
  i_out x : ~ in_region m x -> s x = Free;
  i_status x : status_ok T (s x);
  i_loaded : sm_loaded (ms_map m) = true ->
    holds (ms_map m) (fun x => in_region m x /\ s x = Free) /\
    sm_ops (ms_map m) = Some ff_addr /\ ff_inv (sm_end (ms_map m)) (sm_ppd (ms_map m));
  i_unloaded : sm_loaded (ms_map m) = false ->
    segs (ms_map m) = [] /\ sm_ops (ms_map m) = None /\ sm_ppd (ms_map m) = None /\
    (forall x t f, s x <> Born t f) /\
    log_of os (ms_smo m) (ms_map m) (fun x => on_disk (s x) \/ s x = Dying) /\
    smo_objsize (ms_smo m) <= smo_objsize (ms_smo_syncing m);
  i_log : log_of os (ms_smo_syncing m) (ms_map m) (fun x => on_disk (s x));
  i_sizes : smo_objsize (ms_smo m) < 2 ^ 63 /\ smo_objsize (ms_smo_syncing m) < 2 ^ 63;
  i_object : smo_object (ms_smo_syncing m) = 0 -> smo_objsize (ms_smo_syncing m) = 0 /\ smo_alloc (ms_smo_syncing m) = 0;
  i_exists : smo_object (ms_smo_syncing m) <> 0 ->
    dmu_exists os (smo_object (ms_smo_syncing m)) /\ smo_object (ms_smo_syncing m) <> vdev_ms_array vd /\
    exists b, dmu_bonus os (smo_object (ms_smo_syncing m)) = Some (smo_words (ms_smo_syncing m) ++ b);
  i_array : vdev_ms_array vd <> 0 ->
    dmu_read os (vdev_ms_array vd) (8 * ms_index vd m) 8 = Some [smo_object (ms_smo_syncing m)];
  i_synced : smo_objsize (ms_smo m) = 0 \/
    (smo_object (ms_smo m) = smo_object (ms_smo_syncing m) /\ smo_object (ms_smo_syncing m) <> 0);
  i_weight : weight_ok m s
}.

(** The vdev and its group: the tree holds the nodes of its metaslabs in order,
    and the lists say which metaslabs, and whether the vdev, are dirty. *)
Record vinv (vd : vdev) (ns : list mnode) (L V : nat -> list Z) : Prop := {
  v_tree : ot_ok (mg_metaslab_tree vd);
  v_sorted : StronglySorted (Avl.Avl.before_cmp metaslab_compare) (ot_elems (mg_metaslab_tree vd));
  v_nodes : Permutation (ot_elems (mg_metaslab_tree vd)) ns;
  v_starts : List.NoDup (map mn_start ns);
  v_list : rep (vdev_ms_list vd) (ms_txg_nodes vd) L;
  v_vlist : rep (spa_vdev_txg_list vd) (vdev_txg_nodes vd) V;
  v_node : is_Some (vdev_txg_nodes vd !! (vdev_addr vd + tl_offset (spa_vdev_txg_list vd)))
}.

Definition has_node (vd : vdev) (m : metaslab) : Prop :=
  is_Some (ms_txg_nodes vd !! (ms_addr m + tl_offset (vdev_ms_list vd))).

(** [vd'] is [vd] with other counters, tree and lists. *)
Record vd_ext (vd vd' : vdev) : Prop := {
  e_addr : vdev_addr vd' = vdev_addr vd;
  e_id : vdev_id vd' = vdev_id vd;
  e_ashift : vdev_ashift vd' = vdev_ashift vd;
  e_asize : vdev_asize vd' = vdev_asize vd;
  e_ms_shift : vdev_ms_shift vd' = vdev_ms_shift vd;
  e_ms_count : vdev_ms_count vd' = vdev_ms_count vd;
  e_ms_array : vdev_ms_array vd' = vdev_ms_array vd;
  e_offset : tl_offset (vdev_ms_list vd') = tl_offset (vdev_ms_list vd);
  e_dom : dom (ms_txg_nodes vd) ⊆ dom (ms_txg_nodes vd');
  e_voffset : tl_offset (spa_vdev_txg_list vd') = tl_offset (spa_vdev_txg_list vd);
  e_vdom : dom (vdev_txg_nodes vd) ⊆ dom (vdev_txg_nodes vd')
}.

(** The counters of the vdev and of the root vdev. *)
Definition stats (vd : vdev) : vdev_stat * vdev_stat := (vd_stat vd, rvd_stat vd).
Lemma stats_own vd vd' : stats vd' = stats vd -> vd_stat vd' = vd_stat vd.
Proof. by intros [= ? ?]. Qed.

Lemma vd_ext_refl vd : vd_ext vd vd.
Proof. by split. Qed.
Lemma vd_ext_trans a b c : vd_ext a b -> vd_ext b c -> vd_ext a c.
Proof. intros [] []. split; try congruence; set_solver. Qed.
Lemma vd_ext_node vd vd' m : vd_ext vd vd' -> has_node vd m -> has_node vd' m.
Proof. intros E H. unfold has_node in *. rewrite (e_offset _ _ E). by apply elem_of_dom, (e_dom _ _ E), elem_of_dom. Qed.
Lemma geom_ext vd vd' sm : vd_ext vd vd' -> geom vd sm -> geom vd' sm.
Proof. intros E []. destruct E. split; rewrite ?e_ms_shift0, ?e_ms_count0; done. Qed.
Lemma minv_ext T vd vd' os m s : vd_ext vd vd' -> minv T vd os m s -> minv T vd' os m s.
Proof.
  intros E []. split; try done; [by eapply geom_ext|..]; unfold ms_index in *; by rewrite ?(e_ms_array _ _ E), ?(e_ms_shift _ _ E).
Qed.

(** ** Weights as numbers *)

Lemma mask_bits w : 0 <= w < 2 ^ 64 -> Z.land w METASLAB_ACTIVE_MASK = w / 2 ^ 62 * 2 ^ 62.
Proof.
  intros Hw. change METASLAB_ACTIVE_MASK with (Z.shiftl (Z.ones 2) 62).
  rewrite <- Z.shiftr_div_pow2, <- Z.shiftl_mul_pow2 by lia. apply Z.bits_inj'. intros i Hi.
  rewrite Z.land_spec, !Z.shiftl_spec by lia. destruct (Z.lt_ge_cases i 62) as [H|H].
  - rewrite !(Z.testbit_neg_r _ (i - 62)) by lia. apply andb_false_r.
  - rewrite Z.shiftr_spec, Z.sub_add by lia. destruct (Z.lt_ge_cases i 64) as [H'|H'].
    + rewrite Z.ones_spec_low by lia. apply andb_true_r.
    + rewrite Z.ones_spec_high by lia. rewrite andb_false_r. symmetry. destruct (Z.eq_dec w 0) as [->|]; [apply Z.bits_0|].
      apply Z.bits_above_log2; [lia|]. apply Z.log2_lt_pow2; [lia|]. apply (Z.lt_le_trans _ (2 ^ 64)); [lia|]. apply Z.pow_le_mono_r; lia.
Qed.

Lemma mask_zero w : 0 <= w < 2 ^ 64 -> (Z.land w METASLAB_ACTIVE_MASK =? 0) = (w <? 2 ^ 62).
Proof. intros Hw. rewrite mask_bits by done. apply eq_true_iff_eq. rewrite Z.eqb_eq, Z.ltb_lt. Z.to_euclidean_division_equations; lia. Qed.

Lemma mask_low w : 0 <= w < 2 ^ 64 -> Z.land w (Z.lnot METASLAB_ACTIVE_MASK) = low w.
Proof.
  intros Hw. unfold low. rewrite <- Z.ldiff_land. pose proof (Z.sub_nocarry_ldiff w (Z.land w METASLAB_ACTIVE_MASK)) as H.
  rewrite mask_bits in H by done. rewrite Z.mod_eq by lia.
  assert (Z.ldiff w METASLAB_ACTIVE_MASK = Z.ldiff w (Z.land w METASLAB_ACTIVE_MASK)) as ->.
  { apply Z.bits_inj'. intros i Hi. rewrite !Z.ldiff_spec, Z.land_spec. by destruct (Z.testbit w i), (Z.testbit METASLAB_ACTIVE_MASK i). }
  rewrite mask_bits by done. rewrite (Z.mul_comm (2 ^ 62)). rewrite <- H; [done|].
  apply Z.bits_inj'. intros i Hi. rewrite Z.ldiff_spec, Z.bits_0, <- mask_bits, Z.land_spec by done. by destruct (Z.testbit w i); rewrite ?andb_false_r.
Qed.

Lemma mask_set w a : 0 <= w < 2 ^ 62 -> a = METASLAB_WEIGHT_PRIMARY \/ a = METASLAB_WEIGHT_SECONDARY -> Z.lor w a = w + a.
Proof.
  intros Hw [-> | ->]; unfold METASLAB_WEIGHT_PRIMARY, METASLAB_WEIGHT_SECONDARY;
    rewrite Z.lor_comm, lor_shiftl_add, ?Z.shiftl_mul_pow2 by lia; lia.
Qed.

Lemma low_small w : 0 <= w < 2 ^ 62 -> low w = w.
Proof. apply Z.mod_small. Qed.
Lemma low_add w a : 0 <= w < 2 ^ 62 -> a = METASLAB_WEIGHT_PRIMARY \/ a = METASLAB_WEIGHT_SECONDARY -> low (w + a) = w.
Proof.
  intros Hw Ha. unfold low. assert (a = 2 * 2 ^ 62 \/ a = 1 * 2 ^ 62) as [-> | ->] by (destruct Ha as [-> | ->]; [left|right]; done);
    rewrite Z.mod_add by lia; by apply Z.mod_small.
Qed.

(** ** The tree of a group *)

Lemma metaslab_compare_opp a b : metaslab_compare b a = CompOpp (metaslab_compare a b).
Proof. unfold metaslab_compare. repeat case Z.ltb_spec; intros; done || lia. Qed.

Lemma metaslab_compare_trans a b c :
  metaslab_compare a b = Lt -> metaslab_compare b c = Lt -> metaslab_compare a c = Lt.
Proof. unfold metaslab_compare. repeat case Z.ltb_spec; intros; done || lia. Qed.

Lemma metaslab_compare_eq a b : metaslab_compare a b = Eq -> a = b.
Proof.
  unfold metaslab_compare. destruct a, b; cbn. repeat case Z.ltb_spec; intros; try done. f_equal; lia.
Qed.

(** An ordered tree of the nodes [ns]. *)
Definition tree_of (t : ot mnode) (ns : list mnode) : Prop :=
  ot_ok t /\ StronglySorted (Avl.Avl.before_cmp metaslab_compare) (ot_elems t) /\ Permutation (ot_elems t) ns.

Lemma tree_add_spec t n ns :
  tree_of t ns -> ~ In n ns -> exists t', tree_add t n = Ok t' /\ tree_of t' (n :: ns).
Proof.
  intros (Ht & Hs & Hp) Hn.
  destruct (Avl.Avl.sorted_split metaslab_compare metaslab_compare_trans n _ Hs) as (l1 & l2 & E & Hc).
  { intros y Hy Heq. apply metaslab_compare_eq in Heq as ->. apply Hn. by eapply Permutation_in. }
  destruct (ot_find_none t _ l1 l2 Ht E Hc) as (i & F & _ & _ & Hi). destruct (Hi n) as (t' & E' & Ht' & El).
  exists t'. unfold tree_add, tree_of. rewrite F. split_and!; [done|done| |].
  - rewrite El. rewrite E in Hs. by apply (Avl.Avl.sorted_insert metaslab_compare metaslab_compare_opp).
  - rewrite El, <- Permutation_middle, <- E. by constructor.
Qed.

Lemma tree_remove_spec t n ns :
  tree_of t (n :: ns) -> exists t', ot_remove t n = Ok t' /\ tree_of t' ns.
Proof.
  intros (Ht & Hs & Hp). assert (In n (ot_elems t)) as (l1 & l2 & E)%in_split
    by (eapply Permutation_in; [symmetry; exact Hp|left; reflexivity]).
  pose proof (Avl.Avl.sorted_NoDup metaslab_compare metaslab_compare_opp _ Hs) as Hnd. rewrite E in Hs, Hp, Hnd.
  destruct (ot_remove_spec t n l1 l2 Ht E Hnd) as (t' & E' & Ht' & El). exists t'. unfold tree_of. rewrite El. split_and!; [done|done| |].
  - by eapply Avl.Avl.sorted_remove.
  - rewrite <- Permutation_middle in Hp. by eapply Permutation_cons_inv.
Qed.

Lemma vinv_tree vd ns L V : vinv vd ns L V -> tree_of (mg_metaslab_tree vd) ns.
Proof. by intros []. Qed.

Lemma vinv_set_tree vd ns ns' t L V :
  vinv vd ns L V -> tree_of t ns' -> List.NoDup (map mn_start ns') -> vinv (set_tree vd t) ns' L V.
Proof. intros [] (? & ? & ?) ?. by split. Qed.

Lemma start_fresh (n : mnode) ns : ~ In (mn_start n) (map mn_start ns) -> ~ In n ns.
Proof. intros H Hn. apply H. by apply in_map. Qed.

Lemma group_sort_spec vd m w ns L V :
  vinv vd (node_of m :: ns) L V -> SPA_MINBLOCKSIZE - 1 <= w \/ w = 0 ->
  exists t, metaslab_group_sort vd m w = Ok (set_tree vd t, set_weight m w) /\
    vinv (set_tree vd t) (node_of (set_weight m w) :: ns) L V.
Proof.
  intros Hv Hw. unfold metaslab_group_sort. rewrite (proj2 (orb_true_iff _ _)) by lia. cbn [verify]. run.
  pose proof (v_starts _ _ _ _ Hv) as Hnd. inversion_clear Hnd as [|? ? Hn Hnd'].
  destruct (tree_remove_spec _ _ _ (vinv_tree _ _ _ _ Hv)) as (t & -> & Ht). run.
  destruct (tree_add_spec t (node_of (set_weight m w)) ns Ht) as (t' & E & Ht'); [by apply start_fresh|].
  rewrite E. run. exists t'. split; [done|]. eapply vinv_set_tree; [done|done|]. by constructor.
Qed.

(** ** Dirty lists and counters *)

(** [p] is on the list of group [t]. *)
Definition listed (L : nat -> list Z) (t : Z) (p : Z) : Prop := p ∈ L (slot t).

Definition push (L : nat -> list Z) (t : Z) (p : Z) : nat -> list Z :=
  upd L (slot t) (if bool_decide (p ∈ L (slot t)) then L (slot t) else p :: L (slot t)).

Lemma push_listed L t p u q : listed (push L t p) u q <-> listed L u q \/ (slot u = slot t /\ q = p).
Proof.
  unfold listed, push, upd. case_decide as E; [|naive_solver]. rewrite E. case_bool_decide; set_solver.
Qed.

Lemma vdev_dirty_spec vd m txg ns L V :
  vinv vd ns L V -> has_node vd m ->
  exists vd', vdev_dirty vd VDD_METASLAB (Some (ms_addr m)) txg = Ok vd' /\ vd_ext vd vd' /\
    vinv vd' ns (push L txg (ms_addr m)) (push V txg (vdev_addr vd)) /\
    stats vd' = stats vd.
Proof.
  intros [] Hn. unfold vdev_dirty. change (Z.land VDD_METASLAB (VDD_METASLAB - 1) =? 0) with true.
  change (Z.land VDD_METASLAB VDD_METASLAB =? 0) with false. cbn [verify]. run.
  destruct (list_add_spec _ _ L (ms_addr m) txg v_list0 Hn) as (ml & ms & -> & R1 & O1 & D1). run.
  destruct (list_add_spec _ _ V (vdev_addr vd) txg v_vlist0 v_node0) as (vl & vs & -> & R2 & O2 & D2). run.
  eexists. split; [done|]. split_and!; [split; cbn; try done; [by rewrite D1|by rewrite D2]|split; try done|unfold stats; done].
  cbn. apply elem_of_dom. rewrite O2, D2. by apply elem_of_dom.
Qed.

Lemma vdev_dirty_none_spec vd txg ns L V :
  vinv vd ns L V ->
  exists vd', vdev_dirty vd 0 None txg = Ok vd' /\ vd_ext vd vd' /\ vinv vd' ns L (push V txg (vdev_addr vd)) /\
    stats vd' = stats vd.
Proof.
  intros []. unfold vdev_dirty. change (Z.land 0 (0 - 1) =? 0) with true. change (Z.land 0 VDD_METASLAB =? 0) with true.
  cbn [verify]. run. destruct (list_add_spec _ _ V (vdev_addr vd) txg v_vlist0 v_node0) as (vl & vs & -> & R2 & O2 & D2). run.
  eexists. split; [done|]. split_and!; [split; cbn; try done; by rewrite D2|split; try done|unfold stats; done].
  cbn. apply elem_of_dom. rewrite O2, D2. by apply elem_of_dom.
Qed.

Lemma space_update_spec vd ds da ns L V :
  vinv vd ns L V -> vdev_ms_count vd <> 0 -> ds `mod` 2 ^ 9 = 0 ->
  exists vd', vdev_space_update vd ds da = Ok vd' /\ vd_ext vd vd' /\ vinv vd' ns L V /\
    vs_alloc (vd_stat vd') = u64 (vs_alloc (vd_stat vd) + da) /\ vs_space (vd_stat vd') = u64 (vs_space (vd_stat vd) + ds).
Proof.
  intros Hv Hc Hd. unfold vdev_space_update. rewrite (proj2 (Z.eqb_neq _ _) Hc).
  assert (Z.land ds (SPA_MINBLOCKSIZE - 1) = 0) as ->.
  { change (SPA_MINBLOCKSIZE - 1) with (Z.ones 9). by rewrite Z.land_ones by lia. }
  cbn [Z.eqb negb verify]. run. destruct Hv. destruct (mg_normal vd); (eexists; split; [done|]; split_and!; [by split|by split|done|done]).
Qed.

Lemma slot_u64 t : slot (u64 t) = slot t.
Proof. rewrite !slot_mod. f_equal. unfold wrap. change (2 ^ 64) with (4 * 2 ^ 62). rewrite Z.rem_mul_r by lia. rewrite Z.mul_comm, Z.mod_add by lia. apply Z.mod_mod. lia. Qed.

Lemma slot_eq t u : slot t = slot u <-> (t - u) `mod` 4 = 0.
Proof. rewrite !slot_mod. pose proof (Z.mod_pos_bound t 4). pose proof (Z.mod_pos_bound u 4). split; intros; Z.to_euclidean_division_equations; lia. Qed.

(** ** Activation and passivation *)

Lemma geom_region vd sm : geom vd sm -> sm_ok sm -> region_ok sm.
Proof.
  intros [(i & Hi & Es) Hz Hs Hu _] Hok. apply small_region; [done| |].
  - unfold aligned. rewrite Es. replace (vdev_ms_shift vd) with ((vdev_ms_shift vd - sm_shift sm) + sm_shift sm) by lia.
    rewrite Z.pow_add_r, Z.mul_assoc by lia. apply Z.mod_mul. lia.
  - rewrite Hz, <- Z.pow_add_r by lia. apply Z.pow_le_mono_r; lia.
Qed.

Lemma geom_aligned vd sm : geom vd sm -> aligned sm (sm_size sm).
Proof.
  intros [_ Hz Hs _ _]. unfold aligned. rewrite Hz.
  replace (vdev_ms_shift vd) with ((vdev_ms_shift vd - sm_shift sm) + sm_shift sm) by lia.
  rewrite Z.pow_add_r by lia. apply Z.mod_mul. lia.
Qed.

(** A multiple of the unit of the map is a multiple of a sector. *)
Lemma aligned_sector vd sm x : geom vd sm -> aligned sm x -> x `mod` 2 ^ 9 = 0.
Proof.
  intros [_ _ Hs _ _] Ha. unfold aligned in Ha. apply Z.mod_divide in Ha as [q ->]; [|lia].
  replace (sm_shift sm) with ((sm_shift sm - 9) + 9) by lia. rewrite Z.pow_add_r, Z.mul_assoc by lia. apply Z.mod_mul. lia.
Qed.

Lemma geom_bounds vd sm : geom vd sm -> 0 < sm_size sm /\ 0 <= sm_start sm /\ sm_end sm <= 2 ^ 59 /\ 0 < vdev_ms_count vd.
Proof.
  intros [(i & Hi & Es) Hz Hs _ Hv]. unfold sm_end. rewrite Es, Hz.
  pose proof (Z.pow_pos_nonneg 2 (vdev_ms_shift vd) ltac:(lia) ltac:(lia)). nia.
Qed.

Lemma compatible_sym a b : compatible a b -> compatible b a.
Proof. unfold compatible. intuition congruence. Qed.
Lemma compatible_trans a b c : compatible a b -> compatible b c -> compatible a c.
Proof. unfold compatible. intuition congruence. Qed.
Lemma compatible_end a b : compatible a b -> sm_start b = sm_start a /\ sm_end b = sm_end a.
Proof. unfold compatible, sm_end. intuition congruence. Qed.

Lemma geom_compatible vd a b : compatible a b -> geom vd a -> geom vd b.
Proof. intros (E1 & E2 & E3) []. split; rewrite <- ?E1, <- ?E2, <- ?E3; done. Qed.

(** [m'] differs from [m] at most in its free map and its weight. *)
Definition same_but_map (m m' : metaslab) : Prop :=
  ms_addr m' = ms_addr m /\ ms_smo m' = ms_smo m /\ ms_smo_syncing m' = ms_smo_syncing m /\
  ms_allocmap m' = ms_allocmap m /\ ms_freemap m' = ms_freemap m /\ compatible (ms_map m) (ms_map m').

Lemma same_but_map_refl m : same_but_map m m.
Proof. by split_and!. Qed.
Lemma same_but_map_trans a b c : same_but_map a b -> same_but_map b c -> same_but_map a c.
Proof.
  intros (? & ? & ? & ? & ? & ?) (? & ? & ? & ? & ? & ?). split_and!; try congruence. by eapply compatible_trans.
Qed.
Lemma same_in_region m m' x : same_but_map m m' -> in_region m' x <-> in_region m x.
Proof. intros (_ & _ & _ & _ & _ & [E1 E2]%compatible_end). unfold in_region. by rewrite E1, E2. Qed.

Lemma ms_index_eq vd vd' m m' : vd_ext vd vd' -> compatible (ms_map m) (ms_map m') -> ms_index vd' m' = ms_index vd m.
Proof. intros E (C & _). unfold ms_index. by rewrite (e_ms_shift _ _ E), C. Qed.

(** Replacing the free map of a metaslab by one loaded with the right space. *)
Lemma minv_loaded T vd os m m' s :
  minv T vd os m s -> same_but_map m m' -> sm_ok (ms_map m') -> sm_loading (ms_map m') = false ->
  sm_loaded (ms_map m') = true -> holds (ms_map m') (fun x => in_region m x /\ s x = Free) ->
  sm_ops (ms_map m') = Some ff_addr -> ff_inv (sm_end (ms_map m')) (sm_ppd (ms_map m')) -> weight_ok m' s ->
  minv T vd os m' s.
Proof.
  intros [] Hs Hok Hlg Hld Hh Ho Hp Hw. pose proof Hs as (_ & E1 & E2 & E3 & E4 & Hc).
  split; rewrite ?E1, ?E2, ?E3, ?E4; try done.
  - by eapply geom_compatible.
  - eapply List.Forall_impl; [|exact i_maps0]. intros a [Ha Ha']. split; [done|]. eapply compatible_trans; [|done]. by apply compatible_sym.
  - intros x. rewrite (same_in_region m m') by done. apply i_out0.
  - intros _. split_and!; [|done|done]. intros x. rewrite (Hh x), (same_in_region m m') by done. done.
  - by rewrite Hld.
  - by eapply replays_region_log.
  - by rewrite (ms_index_eq vd vd m m' (vd_ext_refl _) Hc).
Qed.

(** The same with only another weight. *)
Lemma minv_weight T vd os m w s : minv T vd os m s -> weight_ok (set_weight m w) s -> minv T vd os (set_weight m w) s.
Proof. intros [] Hw. by split. Qed.

Lemma load_map T vd os m s :
  minv T vd os m s -> sm_loaded (ms_map m) = false ->
  exists sm, space_map_load zfs_recover ms_ops [] (ms_map m) (Some ff_addr) SM_FREE (ms_smo m) os = Ok sm /\
    sm_ok sm /\ compatible (ms_map m) sm /\ sm_loading sm = false /\ sm_loaded sm = true /\
    holds sm (fun x => in_region m x /\ s x = Free) /\ sm_ops sm = Some ff_addr /\ ff_inv (sm_end sm) (sm_ppd sm).
Proof.
  intros I Hl. destruct (i_unloaded _ _ _ _ _ I Hl) as (Hseg & Ho & Hp & Hb & Hlog & _). pose proof (i_geom _ _ _ _ _ I) as Hg.
  pose proof (geom_bounds _ _ Hg) as (Hz & _). pose proof (geom_aligned _ _ Hg) as Hal.
  assert (fresh (ms_map m)) as Hf.
  { split_and!; try done; [eapply geom_region; [done|apply I]|by apply (i_loading _ _ _ _ _ I)]. }
  destruct (load_spec zfs_recover ms_ops (ms_map m) (Some ff_addr) SM_FREE (ms_smo m) os _ Hf ltac:(by right) Hlog (proj1 (i_sizes _ _ _ _ _ I)))
    as (sm' & Hok & Hsh & Hc & E1 & E2 & E3 & E4 & ->).
  assert (deref_ops ms_ops sm' = Ok metaslab_ff_ops) as -> by (unfold deref_ops; by rewrite E3). run.
  cbn [smop_load metaslab_ff_ops]. unfold metaslab_ff_load. rewrite E4, Hp. cbn [verify]. run.
  destruct (pk_load (Picker := ff_picker) sm' Hok) as (ppd & E & Hff); [congruence|].
  cbn [smop_load metaslab_ff_ops] in E. unfold metaslab_ff_load in E. rewrite E4, Hp in E. cbn [verify] in E. run. injection E as <-.
  eexists. split; [done|]. split_and!; [by apply sm_ok_ppd|done|done|done| |done|done].
  destruct Hsh as [_ Hm]. intros x. change (segs (set_ppd sm' _)) with (segs sm'). rewrite Hm.
  destruct (compatible_end _ _ Hc) as [F1 F2]. unfold in_region. rewrite <- F1, <- F2. fold (sm_end sm').
  specialize (Hb x). destruct (s x); cbn; naive_solver.
Qed.

Definition is_active_bit (a : Z) : Prop := a = METASLAB_WEIGHT_PRIMARY \/ a = METASLAB_WEIGHT_SECONDARY.

Lemma active_bit_range a : is_active_bit a -> 2 ^ 62 <= a <= 2 ^ 63.
Proof. intros [-> | ->]; cbv; split; discriminate. Qed.

(** Activating: the map is loaded and nothing else changes. *)
Lemma activate_spec T vd os m s a ns L V :
  minv T vd os m s -> vinv vd (node_of m :: ns) L V -> is_active_bit a -> SPA_MINBLOCKSIZE <= ms_weight m ->
  exists vd' m', metaslab_activate vd os m a = Ok (vd', m') /\ minv T vd' os m' s /\ vinv vd' (node_of m' :: ns) L V /\
    vd_ext vd vd' /\ stats vd' = stats vd /\ same_but_map m m' /\
    ms_weight m' = (if ms_weight m <? 2 ^ 62 then ms_weight m + a else ms_weight m) /\ sm_loaded (ms_map m') = true.
Proof.
  intros I Hv Ha Hm. destruct (i_weight _ _ _ _ _ I) as (W1 & W2 & W3). unfold metaslab_activate. rewrite mask_zero by done.
  pose proof (active_bit_range _ Ha) as Har. change SPA_MINBLOCKSIZE with 512 in *.
  destruct (Z.ltb_spec (ms_weight m) (2 ^ 62)) as [Hlt|Hge].
  - assert (exists sm, space_map_load zfs_recover ms_ops [] (ms_map m) (Some ff_addr) SM_FREE (ms_smo m) os = Ok sm /\
      sm_ok sm /\ compatible (ms_map m) sm /\ sm_loading sm = false /\ sm_loaded sm = true /\
      holds sm (fun x => in_region m x /\ s x = Free) /\ sm_ops sm = Some ff_addr /\ ff_inv (sm_end sm) (sm_ppd sm))
      as (sm & E & K1 & K2 & K3 & K4 & K5 & K6 & K7).
    { destruct (sm_loaded (ms_map m)) eqn:El; [|by eapply load_map]. exists (ms_map m).
      destruct (i_loaded _ _ _ _ _ I El) as (H1 & H2 & H3). unfold space_map_load. cbn [space_map_load_wait].
      rewrite (i_loading _ _ _ _ _ I). run. rewrite El. split_and!; try done; apply I. }
    rewrite E. run. set (m1 := set_map m sm).
    change (ms_weight m1) with (ms_weight m). rewrite mask_set by (done || lia).
    assert (vinv vd (node_of m1 :: ns) L V) as Hv1.
    { replace (node_of m1) with (node_of m); [done|]. unfold node_of. cbn. f_equal. apply K2. }
    destruct (group_sort_spec vd m1 (ms_weight m + a) ns L V Hv1 ltac:(change SPA_MINBLOCKSIZE with 512; lia)) as (t & -> & Hv2). run.
    change (sm_loaded (ms_map (set_weight m1 (ms_weight m + a)))) with (sm_loaded sm). rewrite K4. cbn [verify]. run.
    cbn [ms_weight set_weight]. rewrite mask_zero by lia. rewrite (proj2 (Z.ltb_ge _ _)) by lia. cbn [negb verify]. run.
    eexists _, _. split; [done|]. split_and!; [|done|by split|done|done|done|done].
    apply (minv_ext T vd); [by split|]. eapply (minv_loaded T vd os m); [done|done|done|done|done|done|done|done|].
    split_and!; cbn [ms_weight set_weight]; [lia|lia| |].
    + rewrite low_add by (done || lia). rewrite low_small in W2 by lia. done.
    + intros _. split; [done|]. left. rewrite low_add by (done || lia). done.
  - run. destruct (W3 Hge) as [Hl _]. rewrite Hl. cbn [verify]. run. rewrite mask_zero by done.
    rewrite (proj2 (Z.ltb_ge _ _)) by lia. cbn [negb verify]. run. exists vd, m. by split_and!.
Qed.

(** Passivating with a weight below the active bits. *)
Lemma passivate_spec T vd os m s size ns L V :
  minv T vd os m s -> vinv vd (node_of m :: ns) L V -> 0 <= size < 2 ^ 62 ->
  SPA_MINBLOCKSIZE <= size \/ sm_space (ms_map m) = 0 -> size = 0 \/ SPA_MINBLOCKSIZE - 1 <= size -> size <= ms_weight m ->
  exists vd', metaslab_passivate vd m size = Ok (vd', set_weight m size) /\ minv T vd' os (set_weight m size) s /\
    vinv vd' (node_of (set_weight m size) :: ns) L V /\ vd_ext vd vd' /\ stats vd' = stats vd.
Proof.
  intros I Hv Hs Hsp Hz Hle. unfold metaslab_passivate.
  rewrite (proj2 (orb_true_iff _ _)) by (destruct Hsp; [left|right]; lia). cbn [verify]. run.
  rewrite Z.min_r by done. destruct (group_sort_spec vd m size ns L V Hv ltac:(lia)) as (t & -> & Hv'). run.
  cbn [ms_weight set_weight]. rewrite mask_zero by lia. rewrite (proj2 (Z.ltb_lt _ _)) by lia. cbn [verify]. run.
  eexists. split; [done|]. split_and!; [|done|by split|done].
  apply (minv_ext T vd); [by split|]. apply minv_weight; [done|]. split_and!; cbn [ms_weight set_weight]; [lia|lia|rewrite low_small by lia; lia|].
  intros Ha. unfold active in Ha. lia.
Qed.

(** ** One range changes its status *)

Definition in_range (off size x : Z) : Prop := off <= x < off + size.
Definition upd_range (s : Z -> status) (off size : Z) (f : status -> status) (x : Z) : status :=
  if decide (off <= x < off + size) then f (s x) else s x.

Lemma upd_in s off size f x : in_range off size x -> upd_range s off size f x = f (s x).
Proof. intros. unfold upd_range. by rewrite decide_True. Qed.
Lemma upd_out s off size f x : ~ in_range off size x -> upd_range s off size f x = s x.
Proof. intros. unfold upd_range. by rewrite decide_False. Qed.
Lemma in_range_dec off size x : in_range off size x \/ ~ in_range off size x.
Proof. unfold in_range. lia. Qed.

(** The four groups whose maps are in use. *)
Definition window (T t : Z) : Prop := T - 1 <= t <= T + 2.

Lemma window_slot T t u : window T t -> window T u -> slot t = slot u -> t = u.
Proof. unfold window. rewrite slot_eq. intros. Z.to_euclidean_division_equations; lia. Qed.

Lemma holds_ext sm (P Q : Z -> Prop) : holds sm P -> (forall x, P x <-> Q x) -> holds sm Q.
Proof. intros H E x. by rewrite (H x). Qed.

(** A map of the array is replaced; the predicates of the others are as before. *)
Lemma window_put T t0 a0 (maps : list space_map) (P P' : Z -> Z -> Prop) :
  (forall t a, window T t -> maps !! slot t = Some a -> holds a (P t)) ->
  window T t0 -> length maps = 4%nat -> holds a0 (P' t0) ->
  (forall t x, window T t -> t <> t0 -> P t x <-> P' t x) ->
  forall t a, window T t -> <[slot t0 := a0]> maps !! slot t = Some a -> holds a (P' t).
Proof.
  intros H Ht0 Hlen H0 HP t a Ht Ha. destruct (decide (t = t0)) as [->|Hne].
  - rewrite list_lookup_insert_eq in Ha by (rewrite Hlen; apply slot_lt). by injection Ha as <-.
  - rewrite list_lookup_insert_ne in Ha by (intros E; apply Hne; by eapply window_slot). eapply holds_ext; [by apply H|].
    intros x. by apply HP.
Qed.

Lemma window_get {A} (maps : list A) t : length maps = 4%nat -> exists a, maps !! slot t = Some a.
Proof. intros E. apply lookup_lt_is_Some_2. rewrite E. apply slot_lt. Qed.

Lemma space_nonzero sm : sm_ok sm -> sm_space sm <> 0 -> exists x, member (segs sm) x.
Proof.
  intros Hok Hne. destruct (segs sm) as [|a l] eqn:E.
  - destruct Hne. by rewrite (ok_space _ Hok), E.
  - pose proof (ok_wf _ Hok) as Hwf. rewrite E in Hwf. apply wf_cons in Hwf as (H1 & _). exists (ss_start a). exists a. split; [by left|lia].
Qed.

Lemma space_empty sm : sm_ok sm -> (forall x, ~ member (segs sm) x) -> sm_space sm = 0 /\ segs sm = [].
Proof.
  intros Hok Hn. destruct (decide (sm_space sm = 0)) as [E|E]; [split; [done|by apply space_zero]|].
  destruct (space_nonzero sm Hok E) as [x Hx]. by destruct (Hn x).
Qed.

(** Whatever changed in a group has its metaslab, and the vdev, on the list of
    that group; and on the list of the group before while space waits to be freed. *)
Definition dirty_ok (T : Z) (vd : vdev) (L V : nat -> list Z) (m : metaslab) (s : Z -> status) : Prop :=
  (forall x t, born_in (s x) t \/ freed_in (s x) t -> listed L t (ms_addr m) /\ listed V t (vdev_addr vd)) /\
  (forall x, s x = Dying -> listed L (T - 1) (ms_addr m)).

(** The lists after an object was entered for group [t]. *)
Definition entered (L L' : nat -> list Z) (t p : Z) : Prop :=
  forall u q, listed L' u q <-> listed L u q \/ (slot u = slot t /\ q = p).

Lemma entered_mono L L' t p u q : entered L L' t p -> listed L u q -> listed L' u q.
Proof. intros E H. apply E. by left. Qed.
Lemma entered_self L L' t p : entered L L' t p -> listed L' t p.
Proof. intros E. apply E. by right. Qed.

(** Entering the metaslab on the list unless the map shows it is there. *)
Lemma note_dirty T vd L V m s t ns a (P : Z -> Prop) :
  vinv vd ns L V -> has_node vd m -> dirty_ok T vd L V m s -> sm_ok a -> holds a P ->
  (forall x, P x -> born_in (s x) t \/ freed_in (s x) t) ->
  exists vd' L' V', (if sm_space a =? 0 then vdev_dirty vd VDD_METASLAB (Some (ms_addr m)) t else Ok vd) = Ok vd' /\
    vd_ext vd vd' /\ vinv vd' ns L' V' /\ stats vd' = stats vd /\ entered L L' t (ms_addr m) /\ entered V V' t (vdev_addr vd).
Proof.
  intros Hv Hn [Hd _] Hok Hh HP. destruct (Z.eqb_spec (sm_space a) 0) as [E|E].
  - destruct (vdev_dirty_spec vd m t ns L V Hv Hn) as (vd' & -> & He & Hv' & Hs). exists vd', (push L t (ms_addr m)), (push V t (vdev_addr vd)).
    split_and!; try done; intros u q; apply push_listed.
  - exists vd, L, V. destruct (space_nonzero a Hok E) as [x Hx]. apply Hh, HP, Hd in Hx as [Hx1 Hx2].
    split_and!; try done; intros u q; (split; [by left|]); intros [?|[Eu ->]]; try done; unfold listed in *; by rewrite Eu.
Qed.

(** Lists that only got entries for [p], in group [t]. *)
Definition grows (t : Z) (L L' : nat -> list Z) (p : Z) : Prop :=
  (forall u q, listed L u q -> listed L' u q) /\ forall u q, listed L' u q -> listed L u q \/ (q = p /\ slot u = slot t).

Lemma entered_grows L L' t p : entered L L' t p -> grows t L L' p.
Proof. intros E. split; intros u q H; [by apply E; left|apply E in H; tauto]. Qed.
Lemma grows_refl t L p : grows t L L p.
Proof. split; tauto. Qed.
Lemma grows_trans t A B C p : grows t A B p -> grows t B C p -> grows t A C p.
Proof. intros [G1 G2] [G3 G4]. split; [auto|]. intros u q H. apply G4 in H as [H|H]; auto. Qed.

(** What every operation under the lock of a metaslab keeps: the invariants, with
    the offsets' statuses now [s'], and what it leaves alone. *)
Record step_ok (T t : Z) (os : objset) (ns : list mnode) (vd : vdev) (L V : nat -> list Z) (m : metaslab)
    (vd' : vdev) (L' V' : nat -> list Z) (m' : metaslab) (s' : Z -> status) : Prop := {
  so_minv : minv T vd' os m' s';
  so_vinv : vinv vd' (node_of m' :: ns) L' V';
  so_dirty : dirty_ok T vd' L' V' m' s';
  so_ext : vd_ext vd vd';
  so_stat : stats vd' = stats vd;
  so_addr : ms_addr m' = ms_addr m;
  so_smo : ms_smo m' = ms_smo m /\ ms_smo_syncing m' = ms_smo_syncing m;
  so_start : compatible (ms_map m) (ms_map m');
  so_list : grows t L L' (ms_addr m);
  so_vlist : grows t V V' (vdev_addr vd)
}.

Lemma minv_allocmap T vd os m s t a : minv T vd os m s -> window T t -> ms_allocmap m !! slot t = Some a ->
  sm_ok a /\ compatible (ms_map m) a /\ holds a (fun x => T <= t /\ born_in (s x) t).
Proof.
  intros I Ht Ha. pose proof (i_maps _ _ _ _ _ I) as Hm. rewrite List.Forall_app in Hm. destruct Hm as [Hm _].
  eapply Forall_lookup_1 in Hm as [? ?]; [|done]. split_and!; [done|done|]. by eapply i_alloc.
Qed.
Lemma minv_freemap T vd os m s t a : minv T vd os m s -> window T t -> ms_freemap m !! slot t = Some a ->
  sm_ok a /\ compatible (ms_map m) a /\ holds a (fun x => if T <=? t then freed_in (s x) t else s x = Dying).
Proof.
  intros I Ht Ha. pose proof (i_maps _ _ _ _ _ I) as Hm. rewrite List.Forall_app in Hm. destruct Hm as [_ Hm].
  eapply Forall_lookup_1 in Hm as [? ?]; [|done]. split_and!; [done|done|]. by eapply i_free.
Qed.

Lemma range_region vd m off size x : geom vd (ms_map m) -> range_ok (ms_map m) off size -> in_range off size x -> in_region m x.
Proof. intros _ (R1 & R2 & R3 & _) Hx. unfold in_region, in_range, sm_end in *. lia. Qed.

Lemma log_ext os smo sm sm' A A' :
  compatible sm sm' -> log_of os smo sm A -> (forall x, A x <-> A' x) -> log_of os smo sm' A'.
Proof.
  intros Hc (n & L1 & L2 & L3) HA. exists n. split_and!; [done|done|]. eapply replays_ext; [|exact HA]. by eapply replays_region.
Qed.

(** A loaded map from which a range of free space was taken, and the range entered
    as allocated in group [t]. *)
Lemma take_spec T vd os m s sm off size t ns L V :
  minv T vd os m s -> vinv vd (node_of m :: ns) L V -> has_node vd m -> dirty_ok T vd L V m s -> T <= t <= T + 2 ->
  sm_loaded (ms_map m) = true -> range_ok (ms_map m) off size -> (forall x, in_range off size x -> s x = Free) ->
  sm_ok sm -> same_region (set_ppd (ms_map m) (sm_ppd sm)) sm -> ff_inv (sm_end sm) (sm_ppd sm) ->
  holds sm (fun x => member (segs (ms_map m)) x /\ ~ in_range off size x) ->
  exists vd' m' L' V', alloc_note vd (set_map m sm) off size t = Ok (vd', m') /\
    step_ok T t os ns vd L V m vd' L' V' m' (upd_range s off size (fun _ => Born t None)) /\ ms_weight m' = ms_weight m.
Proof.
  intros I Hv Hn Hd Ht Hl Hr Hf Hok (E1 & E2 & E3 & E4 & E5 & E6 & _) Hff Hh. cbn in E1, E2, E3, E4, E5, E6.
  destruct (i_loaded _ _ _ _ _ I Hl) as (Hm & Ho & _). pose proof (i_geom _ _ _ _ _ I) as Hg.
  assert (window T t) as Hw by (unfold window; lia).
  destruct (window_get (ms_allocmap m) t (proj1 (i_len _ _ _ _ _ I))) as [a Ha].
  destruct (minv_allocmap _ _ _ _ _ _ _ I Hw Ha) as (Ka & Ca & Pa). unfold alloc_note. cbn [ms_allocmap ms_addr set_map].
  destruct (get_at _ _ _ Ha) as [-> Hput]. run.
  destruct (note_dirty T vd L V m s t _ a _ Hv Hn Hd Ka Pa) as (vd' & L' & V' & -> & He & Hv' & Hs & EL & EV); [tauto|]. run.
  assert (forall x, in_range off size x -> ~ born_in (s x) t) as Hnb by (intros x Hx; rewrite Hf by done; by intros []).
  destruct (add_free zfs_recover a off size Ka (compatible_range _ _ _ _ Ca Hr)) as (a' & -> & Ka' & Ra & Ta & Ma).
  { intros x Hx. rewrite (Pa x). intros [_ Hx']. by apply (Hnb x Hx). }
  run. rewrite Hput. run. eexists vd', _, L', V'. split; [done|]. split; [|done].
  assert (compatible (ms_map m) sm) as Hc by (split_and!; congruence).
  set (s' := upd_range s off size (fun _ => Born t None)).
  assert (forall x, (in_range off size x /\ s' x = Born t None /\ s x = Free) \/ (~ in_range off size x /\ s' x = s x)) as Hs'.
  { intros x. destruct (in_range_dec off size x) as [Hx|Hx]; [left|right]; split; try done; unfold s'; [rewrite upd_in by done; auto|by apply upd_out]. }
  clearbody s'. split; try done.
  2: { replace (node_of _) with (node_of m); [done|]. unfold node_of. cbn. by rewrite E1. }
  2: { destruct Hd as [D1 D2]. rewrite <- (e_addr _ _ He) in EV. split.
       - intros x u Hx. destruct (Hs' x) as [(_ & -> & _)|(_ & ->)] in Hx.
         + assert (u = t) as -> by (cbn in Hx; naive_solver). split; by eapply entered_self.
         + destruct (D1 x u Hx). rewrite (e_addr _ _ He). split; by eapply entered_mono.
       - intros x Hx. destruct (Hs' x) as [(_ & E & _)|(_ & E)]; [congruence|]. eapply entered_mono; [done|]. eapply D2. by rewrite <- E. }
  2, 3: by eapply entered_grows.
  destruct I. split; cbn [ms_map ms_allocmap ms_freemap ms_smo ms_smo_syncing set_map set_allocmap]; try done.
  - eapply geom_compatible; [done|]. by eapply geom_ext.
  - congruence.
  - by rewrite length_insert.
  - rewrite List.Forall_app in i_maps0 |- *. destruct i_maps0 as [M1 M2].
    split; [apply Forall_insert; [|split; [done|]]|]; try (eapply List.Forall_impl; [|done]; intros b [? ?]; split; [done|]);
      (apply (compatible_trans _ (ms_map m)); [by apply compatible_sym|]); [done|exact (compatible_region _ _ _ Ca Ra)|done].
  - eapply (window_put T t a' (ms_allocmap m) _ (fun u x => T <= u /\ born_in (s' x) u)); [exact i_alloc0|done|by apply i_len0| |].
    + intros x. rewrite Ma, (Pa x). unfold in_range in Hs'. destruct (Hs' x) as [(Hx & -> & ->)|(Hx & ->)]; cbn; naive_solver lia.
    + intros u x Hu Hut. destruct (Hs' x) as [(Hx & -> & ->)|(Hx & ->)]; cbn; naive_solver.
  - intros u b Hu Hb. eapply holds_ext; [by eapply i_free0|]. intros x. step_if; destruct (Hs' x) as [(Hx & -> & ->)|(Hx & ->)]; cbn; naive_solver.
  - intros x Hx. destruct (Hs' x) as [(Hx' & _)|(_ & ->)]; [|apply i_out0].
    + destruct Hx. unfold in_region. cbn. rewrite E1. unfold sm_end. rewrite E1, E2. eapply range_region; done.
    + intros Hx'. apply Hx. unfold in_region in *. cbn. unfold sm_end. by rewrite E1, E2.
  - intros x. destruct (Hs' x) as [(_ & -> & _)|(_ & ->)]; [|done]. cbn. lia.
  - intros _. split_and!; [|congruence|done]. intros x. rewrite (Hh x), (Hm x). unfold in_region. cbn. unfold sm_end. rewrite E1, E2.
    destruct (Hs' x) as [(Hx & -> & ->)|(Hx & ->)]; naive_solver.
  - congruence.
  - eapply log_ext; [done|exact i_log0|]. intros x. destruct (Hs' x) as [(_ & -> & ->)|(_ & ->)]; done.
  - by rewrite (e_ms_array _ _ He).
  - rewrite (e_ms_array _ _ He). by erewrite (ms_index_eq vd vd' m); [|done|].
  - destruct i_weight0 as (W1 & W2 & W3). split_and!; [apply W1|apply W1|done|]. cbn. intros Hact. split; [congruence|].
    left. destruct (W3 Hact) as [_ [?|Hx]]; [done|]. destruct Hr as (R1 & R2 & R3 & _). destruct (Hx off) as [Hx1 _].
    destruct Hx1; [unfold in_region, sm_end; lia|]. apply Hf. unfold in_range. lia.
Qed.

(** ** Allocating *)

(** If not even the smallest block fits, nothing is free. *)
Lemma no_block_free vd sm size :
  sm_ok sm -> geom vd sm -> 0 < size <= SPA_MINBLOCKSIZE -> aligned sm size -> (forall a, ~ fits sm a size) -> sm_space sm = 0.
Proof.
  intros Hok Hg Hs Ha Hno. change SPA_MINBLOCKSIZE with 512 in Hs.
  destruct (decide (sm_space sm = 0)) as [|Hne]; [done|exfalso].
  assert (size = 512) as ->. { pose proof (aligned_sector _ _ _ Hg Ha). Z.to_euclidean_division_equations; lia. }
  destruct (segs sm) as [|a l] eqn:E; [destruct Hne; by rewrite (ok_space _ Hok), E|].
  assert (In a (segs sm)) as Hin by (rewrite E; by left).
  destruct (ok_seg sm a Hok Hin) as [(R1 & R2 & R3 & R4 & R5) _].
  pose proof (aligned_sector _ _ _ Hg R4) as A1. pose proof (aligned_sector _ _ _ Hg R5) as A2.
  apply (Hno (ss_start a)). split.
  - eapply held_of_seg; [done|lia|]. Z.to_euclidean_division_equations; lia.
  - by change (Z.land 512 (- 512)) with 512.
Qed.

(** How often an allocation of [size] may still come back to a metaslab. *)
Definition rank (size w : Z) : nat :=
  if w <? size then 0%nat else if Z.land w METASLAB_WEIGHT_SECONDARY =? 0 then 1%nat else 2%nat.

Lemma low_secondary w : Z.land (low w) METASLAB_WEIGHT_SECONDARY = 0.
Proof.
  unfold low, METASLAB_WEIGHT_SECONDARY. apply Z.bits_inj'. intros i Hi. rewrite Z.land_spec, Z.bits_0, Z.shiftl_spec by done.
  destruct (decide (i = 62)) as [->|Hne]; [by rewrite Z.mod_pow2_bits_high by lia|].
  assert (Z.testbit 1 (i - 62) = false) as ->; [|by rewrite andb_false_r].
  destruct (Z.lt_ge_cases i 62); [apply Z.testbit_neg_r; lia|]. change 1 with (2 ^ 0). apply Z.pow2_bits_false. lia.
Qed.

Lemma low_rank size w : (rank size (low w) <= 1)%nat.
Proof. unfold rank. rewrite low_secondary. destruct (low w <? size); cbn; lia. Qed.

Lemma secondary_active w : 0 <= w < 2 ^ 64 -> Z.land w METASLAB_WEIGHT_SECONDARY <> 0 -> active w.
Proof.
  intros Hw Hne. unfold active. destruct (Z.lt_ge_cases w (2 ^ 62)) as [H|H]; [|done]. destruct Hne.
  rewrite <- (low_small w) by lia. apply low_secondary.
Qed.

(** A map that lost nothing but the picker's cursors. *)
Lemma step_same T t os ns vd L V m vd' m' s :
  minv T vd' os m' s -> vinv vd' (node_of m' :: ns) L V -> vd_ext vd vd' -> stats vd' = stats vd -> same_but_map m m' ->
  dirty_ok T vd L V m s -> step_ok T t os ns vd L V m vd' L V m' s.
Proof.
  intros I Hv He Hs (E1 & E2 & E3 & E4 & E5 & Hc) [D1 D2]. split; try done; try apply grows_refl.
  split; rewrite E1, ?(e_addr _ _ He); done.
Qed.

Lemma step_trans T t os ns vd L V m vd1 L1 V1 m1 s1 vd2 L2 V2 m2 s2 :
  step_ok T t os ns vd L V m vd1 L1 V1 m1 s1 -> step_ok T t os ns vd1 L1 V1 m1 vd2 L2 V2 m2 s2 ->
  step_ok T t os ns vd L V m vd2 L2 V2 m2 s2.
Proof.
  intros A B. destruct A, B. split; try done; try congruence.
  - by eapply vd_ext_trans.
  - destruct so_smo0, so_smo1. split; congruence.
  - by eapply compatible_trans.
  - rewrite so_addr0 in *. by eapply grows_trans.
  - rewrite (e_addr _ _ so_ext0) in *. by eapply grows_trans.
Qed.

Lemma step_node T t os ns vd L V m vd' L' V' m' s' : step_ok T t os ns vd L V m vd' L' V' m' s' -> has_node vd m -> has_node vd' m'.
Proof. intros [] H. apply (vd_ext_node vd vd') in H; [|done]. unfold has_node in *. by rewrite so_addr0. Qed.

(** What an attempt to allocate did. *)
Definition attempt_ok (T : Z) (os : objset) (ns : list mnode) (vd : vdev) (L V : nat -> list Z) (m : metaslab)
    (s : Z -> status) (size t : Z) (vd' : vdev) (L' V' : nat -> list Z) (m' : metaslab) (r : attempt) : Prop :=
  match r with
  | Again => step_ok T t os ns vd L V m vd' L' V' m' s /\ (rank size (ms_weight m') < rank size (ms_weight m))%nat
  | Found off =>
      range_ok (ms_map m) off size /\ (forall x, in_range off size x -> s x = Free) /\
      step_ok T t os ns vd L V m vd' L' V' m' (upd_range s off size (fun _ => Born t None))
  end.

Lemma alloc_locked_spec T vd os m s size t a ns L V :
  minv T vd os m s -> vinv vd (node_of m :: ns) L V -> has_node vd m -> dirty_ok T vd L V m s -> T <= t <= T + 2 ->
  is_active_bit a -> SPA_MINBLOCKSIZE <= size < 2 ^ 61 -> aligned (ms_map m) size -> size <= ms_weight m ->
  exists vd' m' L' V' r, alloc_locked vd os m size t a = Ok (vd', m', r) /\
    attempt_ok T os ns vd L V m s size t vd' L' V' m' r.
Proof.
  intros I Hv Hn Hd Ht Ha Hs Hal Hw. unfold alloc_locked. rewrite (proj2 (Z.ltb_ge _ _)) by done.
  destruct (i_weight _ _ _ _ _ I) as (W1 & W2 & W3). change SPA_MINBLOCKSIZE with 512 in *.
  destruct (negb (Z.land (ms_weight m) METASLAB_WEIGHT_SECONDARY =? 0) && (a =? METASLAB_WEIGHT_PRIMARY)) eqn:Es.
  - apply andb_true_iff in Es as [Es _]. apply negb_true_iff, Z.eqb_neq in Es. rewrite mask_low by done.
    pose proof (secondary_active _ W1 Es) as Hact. destruct (W3 Hact) as [Hl Hlow]. destruct (i_loaded _ _ _ _ _ I Hl) as (Hh & _).
    assert (0 <= low (ms_weight m) < 2 ^ 62) as Hlr by (apply Z.mod_pos_bound; lia).
    destruct (passivate_spec T vd os m s (low (ms_weight m)) ns L V I Hv Hlr) as (vd' & -> & I' & Hv' & He & Hst).
    + destruct Hlow as [?|Hno]; [by left|right]. apply space_empty; [apply I|]. intros x Hx. apply Hh in Hx as [Hx1 Hx2].
      by destruct (Hno x) as [Hno' _]; apply (Hno' Hx1).
    + done.
    + unfold low. apply Z.mod_le; lia.
    + run. eexists _, _, L, V, Again. split; [done|]. split.
      * by eapply step_same.
      * cbn [ms_weight set_weight]. pose proof (low_rank size (ms_weight m)). unfold rank at 2.
        rewrite (proj2 (Z.ltb_ge _ _)), (proj2 (Z.eqb_neq _ _)) by done. lia.
  - clear Es. destruct (activate_spec T vd os m s a ns L V I Hv Ha ltac:(change SPA_MINBLOCKSIZE with 512; lia))
      as (vd1 & m1 & -> & I1 & Hv1 & He1 & Hst1 & Hsm & Hw1 & Hl1). run.
    destruct (i_loaded _ _ _ _ _ I1 Hl1) as (Hh & Ho & Hff). pose proof Hsm as (Ea & _ & _ & _ & _ & Hc).
    pose proof (geom_bounds _ _ (i_geom _ _ _ _ _ I1)) as (_ & _ & Hend & _).
    assert (aligned (ms_map m1) size) as Hal1 by (unfold aligned; destruct Hc as (_ & _ & <-); done).
    destruct (alloc_spec zfs_recover metaslab_ff_ops ff_inv ff_picker ms_ops (ms_map m1) size ff_addr) as (sm & off & -> & K1 & K2 & K3 & Hres);
      [apply I1|done|done|done|lia|done|lia|]. run.
    pose proof (step_same T t os ns vd L V m vd1 m1 s I1 Hv1 He1 Hst1 Hsm Hd) as S1.
    assert (minv T vd1 os m1 s) as I1' by done.
    destruct Hres as [(-> & Eseg & Hno)|(Hfit & Hr & _ & Hm)].
    + rewrite Z.eqb_refl. cbn [negb]. pose proof K3 as (E1 & E2 & E3 & E4 & E5 & E6 & _). cbn in E1, E2, E3, E4, E5, E6.
      set (m2 := set_map m1 sm). assert (same_but_map m1 m2) as Hsm2 by (split_and!; try done; split_and!; cbn; congruence).
      assert (minv T vd1 os m2 s) as I2.
      { eapply (minv_loaded T vd1 os m1); try done; cbn; try congruence.
        - rewrite E5. apply I1.
        - intros x. rewrite Eseg. apply Hh.
        - destruct (i_weight _ _ _ _ _ I1) as (X1 & X2 & X3). split; [done|]. split; [done|]. cbn. intros Hx. destruct (X3 Hx) as [X4 X5].
          split; [congruence|]. destruct X5 as [?|X5]; [by left|right]. intros x. rewrite (same_in_region m1 m2) by done. apply X5. }
      assert (vinv vd1 (node_of m2 :: ns) L V) as Hv2.
      { replace (node_of m2) with (node_of m1); [done|]. unfold node_of. cbn. by rewrite E1. }
      assert (ms_weight m2 = ms_weight m1) as Ew by done. pose proof (active_bit_range _ Ha) as Har.
      rewrite wrap_small by lia.
      destruct (passivate_spec T vd1 os m2 s (size - 1) ns L V I2 Hv2) as (vd3 & -> & I3 & Hv3 & He3 & Hst3); [lia| | | |].
      * destruct (decide (size = 512)) as [->|]; [right|left; change SPA_MINBLOCKSIZE with 512; lia]. cbn.
        rewrite (ok_space _ K1), Eseg, <- (ok_space _ (i_ok _ _ _ _ _ I1)).
        apply (no_block_free vd1 _ 512); [apply I1|apply I1|change SPA_MINBLOCKSIZE with 512; lia|done|done].
      * right. change SPA_MINBLOCKSIZE with 512. lia.
      * rewrite Ew, Hw1. step_if; lia.
      * run. eexists _, _, L, V, Again. split; [done|]. split.
        -- eapply step_trans; [exact S1|]. eapply step_same; [exact I3|exact Hv3|exact He3|exact Hst3|exact Hsm2|exact (so_dirty _ _ _ _ _ _ _ _ _ _ _ _ _ S1)].
        -- cbn [ms_weight set_weight]. unfold rank. rewrite (proj2 (Z.ltb_lt (size - 1) size)) by lia.
           rewrite (proj2 (Z.ltb_ge (ms_weight m) size)) by done. step_if; lia.
    + pose proof (ok_range _ (i_ok _ _ _ _ _ I1)) as Hrg. pose proof Hr as (R1 & R2 & R3 & _).
      rewrite (proj2 (Z.eqb_neq off (2 ^ 64 - 1))) by lia. cbn [negb].
      destruct (take_spec T vd1 os m1 s sm off size t ns L V I1 Hv1) as (vd2 & m2 & L2 & V2 & -> & S2 & Hw2); try done.
      * by eapply step_node.
      * apply (so_dirty _ _ _ _ _ _ _ _ _ _ _ _ _ S1).
      * intros x Hx. destruct Hfit as [Hheld _]. apply (Hheld x), Hh in Hx. tauto.
      * run. eexists vd2, m2, L2, V2, (Found off). split; [done|]. split_and!; [|..].
        -- eapply compatible_range; [|exact Hr]. by apply compatible_sym.
        -- intros x Hx. destruct Hfit as [Hheld _]. apply (Hheld x), Hh in Hx. tauto.
        -- by eapply step_trans.
Qed.

(** ** Claiming *)

Lemma ff_deref sm : sm_ops sm = Some ff_addr -> deref_ops ms_ops sm = Ok metaslab_ff_ops.
Proof. intros E. unfold deref_ops. by rewrite E. Qed.

Lemma claim_note vd m off size t sm :
  space_map_claim zfs_recover ms_ops (ms_map m) off size = Ok sm ->
  (a ← get (ms_allocmap m) (slot t);
   vd ← (if sm_space a =? 0 then vdev_dirty vd VDD_METASLAB (Some (ms_addr m)) t else Ok vd);
   sm ← space_map_claim zfs_recover ms_ops (ms_map m) off size;
   a ← space_map_add zfs_recover a off size;
   am ← put (ms_allocmap m) (slot t) a;
   Ok (vd, set_allocmap (set_map m sm) am)) = alloc_note vd (set_map m sm) off size t.
Proof.
  intros E. unfold alloc_note. cbn [ms_allocmap set_map ms_addr]. destruct (get (ms_allocmap m) (slot t)) as [a|e]; run; [|done].
  destruct (if sm_space a =? 0 then _ else _); run; [|done]. rewrite E. run. done.
Qed.

Lemma claim_locked_spec T vd os m s off size t ns L V :
  minv T vd os m s -> vinv vd (node_of m :: ns) L V -> has_node vd m -> dirty_ok T vd L V m s -> T <= t <= T + 2 ->
  SPA_MINBLOCKSIZE <= ms_weight m -> range_ok (ms_map m) off size -> (forall x, in_range off size x -> s x = Free) ->
  exists vd' m' L' V', claim_locked vd os m off size t = Ok (vd', m') /\
    step_ok T t os ns vd L V m vd' L' V' m' (upd_range s off size (fun _ => Born t None)).
Proof.
  intros I Hv Hn Hd Ht Hw Hr Hf. unfold claim_locked.
  destruct (activate_spec T vd os m s METASLAB_WEIGHT_SECONDARY ns L V I Hv ltac:(by right) Hw)
    as (vd1 & m1 & -> & I1 & Hv1 & He1 & Hst1 & Hsm & _ & Hl1). run.
  destruct (i_loaded _ _ _ _ _ I1 Hl1) as (Hh & Ho & Hff). pose proof Hsm as (Ea & _ & _ & _ & _ & Hc).
  pose proof (step_same T t os ns vd L V m vd1 m1 s I1 Hv1 He1 Hst1 Hsm Hd) as S1.
  pose proof (compatible_range _ _ _ _ Hc Hr) as Hr1.
  destruct (remove_covered zfs_recover (ms_map m1) off size (i_ok _ _ _ _ _ I1) Hr1) as (sm & E & K & R & _ & Hm & _).
  { intros x Hx. apply Hh. split; [|by apply Hf]. by eapply range_region; [apply (i_geom _ _ _ _ _ I1)|done|]. }
  assert (space_map_claim zfs_recover ms_ops (ms_map m1) off size = Ok sm) as Ec.
  { unfold space_map_claim. rewrite ff_deref by done. run. cbn [smop_claim metaslab_ff_ops]. unfold metaslab_ff_claim. run. done. }
  rewrite (claim_note _ _ _ _ _ sm Ec). pose proof R as (E1 & E2 & E3 & E4 & E5 & E6 & E7).
  destruct (take_spec T vd1 os m1 s sm off size t ns L V I1 Hv1) as (vd2 & m2 & L2 & V2 & -> & S2 & _); try done.
  - by eapply step_node.
  - apply (so_dirty _ _ _ _ _ _ _ _ _ _ _ _ _ S1).
  - unfold sm_end. rewrite E1, E2, E7. done.
  - exists vd2, m2, L2, V2. split; [done|]. by eapply step_trans.
Qed.

(** ** Freeing *)

(** The invariant after some of the maps changed. *)
Lemma minv_rebuild T vd vd' os m m' s s' :
  minv T vd os m s -> vd_ext vd vd' -> compatible (ms_map m) (ms_map m') -> sm_ok (ms_map m') ->
  sm_loading (ms_map m') = false -> sm_loaded (ms_map m') = sm_loaded (ms_map m) ->
  ms_smo m' = ms_smo m -> ms_smo_syncing m' = ms_smo_syncing m ->
  length (ms_allocmap m') = 4%nat /\ length (ms_freemap m') = 4%nat ->
  Forall (fun a => sm_ok a /\ compatible (ms_map m) a) (ms_allocmap m' ++ ms_freemap m') ->
  (forall t a, window T t -> ms_allocmap m' !! slot t = Some a -> holds a (fun x => T <= t /\ born_in (s' x) t)) ->
  (forall t a, window T t -> ms_freemap m' !! slot t = Some a ->
     holds a (fun x => if T <=? t then freed_in (s' x) t else s' x = Dying)) ->
  (forall x, (s' x = Free -> s x = Free \/ exists t, s x = Born t None) /\ (s x = Free -> s' x = Free) /\ (on_disk (s' x) <-> on_disk (s x)) /\
     (s' x = Dying <-> s x = Dying) /\ status_ok T (s' x)) ->
  (forall x, ~ in_region m x -> s' x = Free) ->
  (sm_loaded (ms_map m) = true ->
     holds (ms_map m') (fun x => in_region m x /\ s' x = Free) /\
     sm_ops (ms_map m') = Some ff_addr /\ ff_inv (sm_end (ms_map m')) (sm_ppd (ms_map m'))) ->
  (sm_loaded (ms_map m) = false -> ms_map m' = ms_map m /\ forall x t f, s' x <> Born t f) ->
  weight_ok m' s' ->
  minv T vd' os m' s'.
Proof.
  intros [] He Hc Hok Hlg Hld Es Ess Hlen Hmaps Ha Hf Hst Hout Hl Hu Hw. destruct (compatible_end _ _ Hc) as [C1 C2].
  assert (forall x, in_region m' x <-> in_region m x) as Hreg by (intros x; unfold in_region; by rewrite C1, C2).
  split; rewrite ?Es, ?Ess; try done.
  - eapply geom_compatible; [done|]. by eapply geom_ext.
  - eapply List.Forall_impl; [|exact Hmaps]. intros a [? ?]. split; [done|]. eapply compatible_trans; [|done]. by apply compatible_sym.
  - intros x. rewrite Hreg. apply Hout.
  - intros x. apply Hst.
  - intros Hl'. rewrite Hld in Hl'. destruct (Hl Hl') as (H1 & H2 & H3). split_and!; [|done|done]. intros x. rewrite Hreg. apply H1.
  - intros Hl'. rewrite Hld in Hl'. destruct (Hu Hl') as [-> Hb]. destruct (i_unloaded0 Hl') as (U1 & U2 & U3 & _ & U5 & U6).
    split_and!; try done. eapply (log_ext _ _ (ms_map m)); [by split_and!|exact U5|]. intros x. destruct (Hst x) as (_ & _ & -> & -> & _). done.
  - eapply log_ext; [exact Hc|exact i_log0|]. intros x. destruct (Hst x) as (_ & _ & -> & _). done.
  - by rewrite (e_ms_array _ _ He).
  - rewrite (e_ms_array _ _ He). by rewrite (ms_index_eq vd vd' m _ He Hc).
Qed.

(** [B_TRUE]: a range allocated in group [t] and not used is free again at once. *)
Lemma free_now_spec T vd os m s off size t ns L V :
  minv T vd os m s -> vinv vd (node_of m :: ns) L V -> dirty_ok T vd L V m s -> T <= t <= T + 2 ->
  range_ok (ms_map m) off size -> (forall x, in_range off size x -> s x = Born t None) ->
  exists m', free_locked vd m off size t true = Ok (vd, m') /\
    step_ok T t os ns vd L V m vd L V m' (upd_range s off size (fun _ => Free)) /\ ms_weight m' = ms_weight m.
Proof.
  intros I Hv Hd Ht Hr Hb. unfold free_locked. assert (window T t) as Hw by (unfold window; lia).
  pose proof Hr as (R1 & R2 & R3 & _). pose proof (i_geom _ _ _ _ _ I) as Hg.
  destruct (window_get (ms_allocmap m) t (proj1 (i_len _ _ _ _ _ I))) as [a Ha].
  destruct (minv_allocmap _ _ _ _ _ _ _ I Hw Ha) as (Ka & Ca & Pa). destruct (get_at _ _ _ Ha) as [-> Hput]. run.
  destruct (remove_covered zfs_recover a off size Ka (compatible_range _ _ _ _ Ca Hr)) as (a' & -> & Ka' & Ra & _ & Ma & _).
  { intros x Hx. apply Pa. rewrite Hb by done. cbn. lia. }
  run. rewrite Hput. run.
  destruct (sm_loaded (ms_map m)) eqn:Hl.
  2: { destruct (i_unloaded _ _ _ _ _ I Hl) as (_ & _ & _ & Hnb & _). exfalso. apply (Hnb off t None), Hb. unfold in_range. lia. }
  destruct (i_loaded _ _ _ _ _ I Hl) as (Hm & Ho & Hff). unfold space_map_free.
  destruct (add_free zfs_recover (ms_map m) off size (i_ok _ _ _ _ _ I) Hr) as (sm & -> & K & R & _ & M).
  { intros x Hx. rewrite (Hm x). intros [_ Hx']. rewrite Hb in Hx' by done. done. }
  run. pose proof R as (E1 & E2 & E3 & E4 & E5 & E6 & E7). rewrite ff_deref by congruence. run.
  cbn [smop_free metaslab_ff_ops]. unfold metaslab_ff_free. run. eexists. split; [done|]. split; [|done].
  assert (compatible (ms_map m) sm) as Hc by (split_and!; congruence).
  set (s' := upd_range s off size (fun _ => Free)).
  assert (forall x, (in_range off size x /\ s' x = Free /\ s x = Born t None) \/ (~ in_range off size x /\ s' x = s x)) as Hs'.
  { intros x. destruct (in_range_dec off size x) as [Hx|Hx]; [left|right]; split; try done; unfold s'; [rewrite upd_in by done; auto|by apply upd_out]. }
  clearbody s'. split; try done; try apply grows_refl; try apply vd_ext_refl.
  2: { replace (node_of _) with (node_of m); [done|]. unfold node_of. cbn. by rewrite E1. }
  2: { destruct Hd as [D1 D2]. split; intros x; destruct (Hs' x) as [(_ & -> & _)|(_ & ->)]; cbn; try done; [naive_solver|apply D1|apply D2]. }
  apply (minv_rebuild T vd vd os m _ s); cbn [ms_map ms_allocmap ms_freemap ms_smo ms_smo_syncing set_map set_allocmap]; try done.
  - rewrite E5. apply I.
  - rewrite length_insert. apply I.
  - pose proof (i_maps _ _ _ _ _ I) as Hmaps. rewrite List.Forall_app in Hmaps |- *. destruct Hmaps as [M1 M2].
    split; [|done]. apply Forall_insert; [done|]. split; [done|exact (compatible_region _ _ _ Ca Ra)].
  - eapply (window_put T t a' (ms_allocmap m) _ (fun u x => T <= u /\ born_in (s' x) u)); [exact (i_alloc _ _ _ _ _ I)|done|by apply I| |].
    + intros x. rewrite Ma, (Pa x). fold (in_range off size x). destruct (Hs' x) as [(Hx & -> & ->)|(Hx & ->)]; cbn; naive_solver.
    + intros u x Hu Hut. destruct (Hs' x) as [(Hx & -> & ->)|(Hx & ->)]; cbn; naive_solver.
  - intros u b Hu Hb'. eapply holds_ext; [by eapply (i_free _ _ _ _ _ I)|]. intros x. step_if; destruct (Hs' x) as [(Hx & -> & ->)|(Hx & ->)]; cbn; naive_solver.
  - intros x. pose proof (i_status _ _ _ _ _ I x). destruct (Hs' x) as [(Hx & -> & ->)|(Hx & ->)]; cbn; split_and!; naive_solver.
  - intros x Hx. pose proof (i_out _ _ _ _ _ I x Hx). destruct (Hs' x) as [(_ & -> & _)|(_ & ->)]; done.
  - intros _. split_and!; [|congruence|unfold sm_end; by rewrite E1, E2, E7]. intros x. rewrite M, (Hm x). fold (in_range off size x).
    destruct (Hs' x) as [(Hx & -> & ->)|(Hx & ->)]; [|naive_solver]. split; [|naive_solver]. intros _. split; [|done].
    by eapply range_region.
  - congruence.
  - destruct (i_weight _ _ _ _ _ I) as (W1 & W2 & W3). split; [done|]. split; [done|]. cbn. intros Hact. split; [congruence|].
    left. destruct (W3 Hact) as [_ [?|Hx]]; [done|]. destruct (Hx off) as [_ Hx1]. destruct (Hx1 t None). apply Hb. unfold in_range. lia.
Qed.

(** What may be freed in group [t], and what that makes of it. *)
Definition freeable (t : Z) (s : status) : Prop :=
  match s with Born u None => u <= t | Live None => True | _ => False end.
Definition mark_freed (t : Z) (s : status) : status :=
  match s with Born u _ => Born u (Some t) | Live _ => Live (Some t) | s => s end.

(** What marking does, as [minv] sees it. *)
Lemma mark_freed_cases T t s : freeable t s -> T <= t <= T + 2 -> status_ok T s ->
  let s' := mark_freed t s in
  s' <> Free /\ s <> Free /\ s' <> Dying /\ s <> Dying /\ (on_disk s' <-> on_disk s) /\ (forall u, born_in s' u <-> born_in s u) /\
  (forall u, freed_in s' u <-> u = t) /\ (forall u, ~ freed_in s u) /\ status_ok T s' /\
  ((forall u f, s <> Born u f) -> forall u f, s' <> Born u f).
Proof. intros Hf Ht Hs. destruct s as [|u [f|]|[f|]|]; cbn in *; try done; split_and!; try done; try lia; naive_solver lia. Qed.

(** [B_FALSE]: allocated space is entered as freed in group [t]; it stays
    allocated until that group is on disk. *)
Lemma free_locked_spec T vd os m s off size t ns L V :
  minv T vd os m s -> vinv vd (node_of m :: ns) L V -> has_node vd m -> dirty_ok T vd L V m s -> T <= t <= T + 2 ->
  range_ok (ms_map m) off size -> (forall x, in_range off size x -> freeable t (s x)) ->
  exists vd' m' L' V', free_locked vd m off size t false = Ok (vd', m') /\
    step_ok T t os ns vd L V m vd' L' V' m' (upd_range s off size (mark_freed t)) /\ ms_weight m' = ms_weight m.
Proof.
  intros I Hv Hn Hd Ht Hr Hfr. unfold free_locked. assert (window T t) as Hw by (unfold window; lia).
  pose proof Hr as (R1 & R2 & R3 & _). pose proof (i_geom _ _ _ _ _ I) as Hg.
  set (s' := upd_range s off size (mark_freed t)).
  assert (forall x, in_range off size x /\ s' x = mark_freed t (s x) \/ ~ in_range off size x /\ s' x = s x) as Hs'.
  { intros x. destruct (in_range_dec off size x) as [Hx|Hx]; [left|right]; split; try done; unfold s'; [by rewrite upd_in|by apply upd_out]. }
  assert (forall x, in_range off size x -> let s' := mark_freed t (s x) in
    s' <> Free /\ s x <> Free /\ s' <> Dying /\ s x <> Dying /\ (on_disk s' <-> on_disk (s x)) /\ (forall u, born_in s' u <-> born_in (s x) u) /\
    (forall u, freed_in s' u <-> u = t) /\ (forall u, ~ freed_in (s x) u) /\ status_ok T s' /\
    ((forall u f, s x <> Born u f) -> forall u f, s' <> Born u f)) as Hmark.
  { intros x Hx. apply mark_freed_cases; [by apply Hfr|done|apply I]. }
  clearbody s'. destruct (window_get (ms_freemap m) t (proj2 (i_len _ _ _ _ _ I))) as [f Hf].
  destruct (minv_freemap _ _ _ _ _ _ _ I Hw Hf) as (Kf & Cf & Pf). rewrite (proj2 (Z.leb_le T t)) in Pf by lia.
  destruct (get_at _ _ _ Hf) as [-> Hput]. run.
  destruct (note_dirty T vd L V m s t _ f _ Hv Hn Hd Kf Pf) as (vd' & L' & V' & -> & He & Hv' & Hst & EL & EV); [tauto|]. run.
  destruct (add_free zfs_recover f off size Kf (compatible_range _ _ _ _ Cf Hr)) as (f' & -> & Kf' & Rf & _ & Mf).
  { intros x Hx. rewrite (Pf x). by apply (Hmark x Hx). }
  run. rewrite Hput. run. set (m' := set_freemap m _).
  assert (step_ok T t os ns vd L V m vd' L' V' m' s' /\ ms_weight m' = ms_weight m) as HS.
  2: { change (sm_loaded (ms_map m')) with (sm_loaded (ms_map m)). destruct (sm_loaded (ms_map m)) eqn:Hl; [|by exists vd', m', L', V'].
       destruct (i_loaded _ _ _ _ _ I Hl) as (Hh & _). change (ms_map m') with (ms_map m).
       destruct (contains_spec (ms_map m) off size (i_ok _ _ _ _ _ I) Hr) as (c & -> & Hc). run.
       assert (c = false) as ->.
       { apply not_true_iff_false. rewrite Hc. intros Hheld. assert (in_range off size off) as Ho by (unfold in_range; lia).
         pose proof (proj1 (Hh off) (Hheld off Ho)) as [_ ?]. by destruct (Hmark off Ho) as (_ & ? & _). }
       cbn [negb]. run. by exists vd', m', L', V'. }
  split; [|done]. split; try done.
  2: { destruct Hd as [D1 D2]. rewrite <- (e_addr _ _ He) in EV. split.
       - intros x u Hx. destruct (Hs' x) as [(Hx' & E)|(_ & E)]; rewrite E in Hx.
         + destruct (Hmark x Hx') as (_ & _ & _ & _ & _ & Hb & Hu & _). rewrite Hb, Hu in Hx. destruct Hx as [Hx|<-].
           * destruct (D1 x u) as [? ?]; [by left|]. rewrite (e_addr _ _ He). split; by eapply entered_mono.
           * split; by eapply entered_self.
         + destruct (D1 x u Hx). rewrite (e_addr _ _ He). split; by eapply entered_mono.
       - intros x Hx. destruct (Hs' x) as [(Hx' & E)|(_ & E)]; rewrite E in Hx; [by destruct (Hmark x Hx') as (_ & _ & ? & _)|].
         eapply entered_mono; [done|]. by eapply D2. }
  2, 3: by eapply entered_grows.
  apply (minv_rebuild T vd vd' os m _ s); cbn [ms_map ms_allocmap ms_freemap ms_smo ms_smo_syncing set_freemap m']; try done.
  - apply I.
  - apply I.
  - rewrite length_insert. apply I.
  - pose proof (i_maps _ _ _ _ _ I) as Hmaps. rewrite List.Forall_app in Hmaps |- *. destruct Hmaps as [M1 M2].
    split; [done|]. apply Forall_insert; [done|]. split; [done|exact (compatible_region _ _ _ Cf Rf)].
  - intros u b Hu Hb. eapply holds_ext; [by eapply (i_alloc _ _ _ _ _ I)|]. intros x. cbn.
    destruct (Hs' x) as [(Hx & ->)|(_ & ->)]; [|done]. destruct (Hmark x Hx) as (_ & _ & _ & _ & _ & -> & _). done.
  - eapply (window_put T t f' (ms_freemap m) _ (fun u x => if T <=? u then freed_in (s' x) u else s' x = Dying)); [exact (i_free _ _ _ _ _ I)|done|by apply I| |].
    + intros x. rewrite Mf, (Pf x), (proj2 (Z.leb_le T t)) by lia. fold (in_range off size x).
      destruct (Hs' x) as [(Hx & ->)|(Hx & ->)]; [|tauto]. destruct (Hmark x Hx) as (_ & _ & _ & _ & _ & _ & -> & _). tauto.
    + intros u x Hu Hut. destruct (Hs' x) as [(Hx & ->)|(Hx & ->)]; [|done]. destruct (Hmark x Hx) as (_ & _ & ? & ? & _ & _ & Hfi & Hnf & _).
      destruct (T <=? u); [|tauto]. rewrite Hfi. specialize (Hnf u). tauto.
  - intros x. pose proof (i_status _ _ _ _ _ I x). destruct (Hs' x) as [(Hx & ->)|(Hx & ->)]; [|split_and!; tauto].
    destruct (Hmark x Hx) as (? & ? & ? & ? & ? & _ & _ & _ & ? & _). split_and!; tauto.
  - intros x Hx. pose proof (i_out _ _ _ _ _ I x Hx). destruct (Hs' x) as [(Hx' & _)|(_ & ->)]; [|done].
    by destruct (Hmark x Hx') as (_ & ? & _).
  - intros Hl. destruct (i_loaded _ _ _ _ _ I Hl) as (Hh & ? & ?). split_and!; [|done|done]. eapply holds_ext; [exact Hh|]. intros x. cbn.
    destruct (Hs' x) as [(Hx & ->)|(_ & ->)]; [|done]. destruct (Hmark x Hx) as (? & ? & _). tauto.
  - intros Hl. split; [done|]. intros x. destruct (i_unloaded _ _ _ _ _ I Hl) as (_ & _ & _ & Hnb & _).
    destruct (Hs' x) as [(Hx & ->)|(_ & ->)]; [|apply Hnb]. destruct (Hmark x Hx) as (_ & _ & _ & _ & _ & _ & _ & _ & _ & Hb). apply Hb, Hnb.
  - destruct (i_weight _ _ _ _ _ I) as (W1 & W2 & W3). split; [done|]. split; [done|]. intros Hact. destruct (W3 Hact) as [Hl [?|Hx]]; (split; [done|]); [by left|right].
    intros x. destruct (Hx x) as [X1 X2]. destruct (Hs' x) as [(Hx' & ->)|(_ & ->)]; [|done].
    destruct (Hmark x Hx') as (? & _ & _ & _ & _ & _ & _ & _ & _ & Hb). split; [done|by apply Hb].
Qed.

(** ** Syncing a group *)

Lemma vacate_null_spec sm :
  sm_ok sm -> exists sm', vacate_null sm = Ok sm' /\ sm_ok sm' /\ segs sm' = [] /\ same_region sm sm'.
Proof.
  intros Hok. unfold vacate_null, space_map_vacate. destruct (ot_drain_spec (sm_root sm) (ok_tree _ Hok)) as (l & t & -> & _ & Ht & Et). run.
  assert (for_segs (fun _ _ _ => Ok tt) l tt = Ok tt) as -> by (clear; induction l; done). run.
  eexists. split; [done|]. split_and!; [by apply empty_ok|done|done].
Qed.

(** Removing the segments of one map from another that holds them. *)
Lemma remove_all sms smd :
  sm_ok sms -> sm_ok smd -> compatible sms smd -> (forall x, member (segs sms) x -> member (segs smd) x) ->
  exists smd', space_map_walk sms (space_map_remove zfs_recover) smd = Ok smd' /\ sm_ok smd' /\ same_region smd smd' /\
    (forall x, member (segs smd') x <-> member (segs smd) x /\ ~ member (segs sms) x).
Proof.
  intros Hs Hd Hc Hsub. rewrite walk_for_segs by done.
  destruct (for_segs_total
    (fun dn d => sm_ok d /\ same_region smd d /\ forall x, member (segs d) x <-> member (segs smd) x /\ ~ member dn x)
    (space_map_remove zfs_recover) (segs sms) smd) as (smd' & E & I1 & I2 & I3); [..|by exists smd'].
  - split_and!; [done|done|]. intros x. pose proof (member_nil x). tauto.
  - intros dn a d (todo & El) (I1 & I2 & I3).
    assert (In a (segs sms)) as Hin by (rewrite El, in_app_iff; right; by left).
    destruct (ok_seg sms a Hs Hin) as [Hr ->].
    pose proof (range_ok_region _ _ _ _ I2 (compatible_range _ _ _ _ Hc Hr)) as Hr'.
    destruct (remove_covered zfs_recover d _ _ I1 Hr') as (d' & E & J1 & J2 & _ & J4 & _).
    + intros x Hx. apply I3. assert (member (segs sms) x) as Hm by (exists a; split; [done|lia]). split; [by apply Hsub|].
      intros (b & Hb & Hxb). assert (In b (segs sms)) as Hinb by (rewrite El, in_app_iff; by left).
      assert (b = a) as -> by (apply (unique_cover _ _ _ x (ok_wf _ Hs)); [done|done|done|lia]).
      pose proof (wf_NoDup _ (ok_wf _ Hs)) as Hnd. rewrite El in Hnd. apply NoDup_remove_2 in Hnd. apply Hnd. rewrite in_app_iff. by left.
    + exists d'. split_and!; [done|done|by eapply same_region_trans|].
      intros x. rewrite J4, I3, member_app, member_cons. pose proof (member_nil x).
      replace (ss_start a + (ss_end a - ss_start a)) with (ss_end a) by lia. tauto.
Qed.

(** Adding them to a map that holds none of them. *)
Lemma add_walk sms smd :
  sm_ok sms -> sm_ok smd -> compatible sms smd -> (forall x, member (segs sms) x -> ~ member (segs smd) x) ->
  exists smd', space_map_walk sms (space_map_add zfs_recover) smd = Ok smd' /\ sm_ok smd' /\ same_region smd smd' /\
    (forall x, member (segs smd') x <-> member (segs smd) x \/ member (segs sms) x).
Proof.
  intros Hs Hd Hc Hdis. rewrite walk_for_segs by done.
  destruct (add_all zfs_recover sms smd (segs sms) Hs Hd Hc) as (smd' & E & H1 & H2 & _ & H4); [done|done|]. by exists smd'.
Qed.

Lemma log_empty os smo sm A : smo_objsize smo = 0 -> log_of os smo sm A -> forall os' smo', smo_objsize smo' = 0 ->
  smo_alloc smo' = smo_alloc smo -> log_of os' smo' sm A.
Proof.
  intros E (n & L1 & L2 & L3) os' smo' E1 E2. assert (n = 0)%nat as -> by lia. exists 0%nat. cbn in *. rewrite E2. split_and!; [lia|lia|done].
Qed.

Lemma log_extends os os' smo smo' sm A :
  extends os os' smo' -> smo_object smo = smo_object smo' -> smo_objsize smo <= smo_objsize smo' -> log_of os smo sm A -> log_of os' smo sm A.
Proof.
  intros He Eo Hle (n & L1 & L2 & L3). rewrite Eo in *. destruct (He n) as [H1 H2]; [lia|done|]. exists n. rewrite Eo, H2. by split_and!.
Qed.

(** Objects other than [obj] are as they were. *)
Definition others (os os' : objset) (obj arr : Z) : Prop :=
  (forall o, dmu_exists os o -> dmu_exists os' o) /\
  forall o, o <> obj -> o <> arr -> dmu_exists os o ->
    dmu_words os' o = dmu_words os o /\ dmu_bonus os' o = dmu_bonus os o.

Lemma others_trans a b c obj arr : others a b obj arr -> others b c obj arr -> others a c obj arr.
Proof.
  intros [A1 A2] [B1 B2]. split; [auto|]. intros o H1 H2 H3. destruct (A2 o H1 H2 H3) as [<- <-]. auto.
Qed.

(** The array of objects, which only ever changes in the entry of this metaslab. *)
Definition array_set (os os' : objset) (vd : vdev) (m : metaslab) (obj : Z) : Prop :=
  forall k, 0 <= k -> dmu_read os' (vdev_ms_array vd) (8 * k) 8 =
    if k =? ms_index vd m then Some [obj] else dmu_read os (vdev_ms_array vd) (8 * k) 8.

Lemma sync_object_spec T vd os m s :
  minv T vd os m s -> vdev_ms_array vd <> 0 -> dmu_exists os (vdev_ms_array vd) ->
  exists obj os', sync_object vd os m = Ok (Smo obj (smo_objsize (ms_smo_syncing m)) (smo_alloc (ms_smo_syncing m)), os') /\
    obj <> 0 /\ (smo_object (ms_smo_syncing m) <> 0 -> obj = smo_object (ms_smo_syncing m) /\ os' = os) /\
    (smo_object (ms_smo_syncing m) = 0 -> ~ dmu_exists os obj) /\
    dmu_exists os' obj /\ obj <> vdev_ms_array vd /\ (exists b, dmu_bonus os' obj = Some b /\ (3 <= length b)%nat) /\
    log_of os' (Smo obj (smo_objsize (ms_smo_syncing m)) (smo_alloc (ms_smo_syncing m))) (ms_map m) (fun x => on_disk (s x)) /\
    others os os' obj (vdev_ms_array vd) /\ array_set os os' vd m obj.
Proof.
  intros I Ha He. unfold sync_object.
  assert (0 <= ms_index vd m) as Hidx by (apply Z.shiftr_nonneg; apply (geom_bounds _ _ (i_geom _ _ _ _ _ I))).
  destruct (Z.eqb_spec (smo_object (ms_smo_syncing m)) 0) as [E|E].
  - destruct (i_object _ _ _ _ _ I E) as [Ez Eal]. rewrite Ez, Eal. cbn [Z.eqb verify]. run.
    destruct (dmu_object_alloc os 24) as [obj os1] eqn:Eo.
    destruct (dmu_object_alloc_spec os 24 obj os1 Eo) as (O1 & O2 & O3 & O4 & O5 & O6 & O7).
    rewrite (proj2 (Z.eqb_neq obj 0)) by lia. cbn [negb verify]. run. fold (ms_index vd m).
    assert (obj <> vdev_ms_array vd) as Hne by (intros ->; done).
    eexists obj, _. split; [done|]. split_and!; [lia|done|done| |done| | | |].
    + by apply dmu_write_exists.
    + exists (replicate (Z.to_nat (24 / 8)) 0). split; [|done]. by rewrite (proj2 (dmu_write_exists _ _ _ _ _ _)).
    + eapply log_empty; [exact Ez|exact (i_log _ _ _ _ _ I)|done|by rewrite Eal].
    + split.
      * intros o Ho. apply dmu_write_exists. destruct (decide (o = obj)) as [->|Hoo]; [done|]. by apply (O7 o Hoo).
      * intros o H1 H2 H3. rewrite dmu_write_other by done. rewrite (proj2 (dmu_write_exists _ _ _ _ _ _)).
        destruct (O7 o H1) as (_ & -> & -> & _). done.
    + intros k Hk. rewrite dmu_array_write by done. rewrite (Z.eqb_sym k). step_if; [done|].
      destruct (O7 (vdev_ms_array vd) ltac:(done)) as (_ & _ & _ & ->). done.
  - destruct (i_exists _ _ _ _ _ I E) as (X1 & X2 & b & X3). exists (smo_object (ms_smo_syncing m)), os.
    split; [by destruct (ms_smo_syncing m)|]. split_and!; try done.
    + exists (smo_words (ms_smo_syncing m) ++ b). split; [done|]. rewrite length_app. cbn. lia.
    + replace (Smo _ _ _) with (ms_smo_syncing m) by (by destruct (ms_smo_syncing m)). apply I.
    + intros k Hk. destruct (Z.eqb_spec k (ms_index vd m)) as [->|]; [|done]. by apply (i_array _ _ _ _ _ I).
Qed.

(** What syncing group [T] does to an offset. *)
Definition sync_status (T : Z) (s : status) : status :=
  match s with
  | Born t None => if t =? T then Live None else s
  | Born t (Some u) => if t =? T then if u =? T then Dying else Live (Some u) else s
  | Live (Some u) => if u =? T then Dying else s
  | _ => s
  end.

Lemma sync_status_spec T s :
  status_ok T s ->
  (on_disk (sync_status T s) <-> (on_disk s \/ born_in s T) /\ ~ freed_in s T) /\
  (sync_status T s = Dying <-> s = Dying \/ freed_in s T) /\ (sync_status T s = Free <-> s = Free) /\
  (forall u, born_in (sync_status T s) u <-> born_in s u /\ u <> T) /\
  (forall u, freed_in (sync_status T s) u <-> freed_in s u /\ u <> T) /\
  (freed_in s T -> on_disk s \/ born_in s T) /\ status_ok T (sync_status T s) /\
  ((forall u f, s <> Born u f) -> forall u f, sync_status T s <> Born u f).
Proof.
  intros Hs. destruct s as [|t [u|]|[u|]|]; cbn in *; repeat (case Z.eqb_spec; intros); subst; cbn in *; split_and!; try done; try lia; naive_solver lia.
Qed.

(** Where an offset of the region is, for a condensed log. *)
Lemma condensed_iff T s :
  status_ok T s ->
  on_disk (sync_status T s) <->
    s <> Free /\ ~ (s = Dying \/ freed_in s T) /\ ~ born_in s (T + 1) /\ ~ born_in s (T + 2).
Proof.
  intros Hs. destruct s as [|t [u|]|[u|]|]; cbn in *; repeat (case Z.eqb_spec; intros); subst; cbn in *; naive_solver lia.
Qed.

Lemma condense_spec T vd os0 os m s freed am fm smo :
  minv T vd os0 m s -> sm_loaded (ms_map m) = true ->
  sm_ok freed -> compatible (ms_map m) freed -> holds freed (fun x => s x = Dying \/ freed_in (s x) T) ->
  sm_ok am -> compatible (ms_map m) am -> sm_ok fm -> smo_object smo <> vdev_ms_array vd ->
  exists am' fm' os', sync_condense m freed am fm smo os T = Ok (am', fm', Smo (smo_object smo) 0 0, os') /\
    sm_ok am' /\ same_region am am' /\ holds am' (fun x => on_disk (sync_status T (s x))) /\
    sm_ok fm' /\ same_region fm fm' /\ segs fm' = [] /\
    log_of os' (Smo (smo_object smo) 0 0) (ms_map m) (fun _ => False) /\ others os os' (smo_object smo) (vdev_ms_array vd) /\
    dmu_bonus os' (smo_object smo) = dmu_bonus os (smo_object smo) /\
    (forall off n, dmu_read os' (vdev_ms_array vd) off n = dmu_read os (vdev_ms_array vd) off n).
Proof.
  intros I Hl Kf Cf Pf Ka Ca Km Hne. unfold sync_condense. destruct (i_loaded _ _ _ _ _ I Hl) as (Hh & _).
  destruct (vacate_null_spec am Ka) as (a0 & -> & K0 & S0 & R0). run.
  destruct (vacate_null_spec fm Km) as (f0 & -> & KF & SF & RF). run.
  pose proof (compatible_region _ _ _ Ca R0) as C0. pose proof (i_geom _ _ _ _ _ I) as Hg.
  pose proof (geom_compatible _ _ _ C0 Hg) as Hg0. pose proof (geom_bounds _ _ Hg0) as (Hz & _).
  destruct (geom_region _ _ Hg0 K0) as (_ & Al & _).
  destruct (add_free zfs_recover a0 (sm_start a0) (sm_size a0) K0) as (a1 & -> & K1 & R1 & _ & M1).
  { split_and!; [done|lia|lia|done|by eapply geom_aligned]. }
  { intros x _. rewrite S0. apply member_nil. }
  run. pose proof (compatible_region _ _ _ C0 R1) as C1. destruct (compatible_end _ _ C0) as [E1 E2].
  assert (forall x, member (segs a1) x <-> in_region m x) as M1'.
  { intros x. rewrite M1, S0. unfold in_region. rewrite <- E1, <- E2. unfold sm_end. pose proof (member_nil x). tauto. }
  clear M1. destruct (remove_all (ms_map m) a1 (i_ok _ _ _ _ _ I) K1 C1) as (a2 & -> & K2 & R2 & M2).
  { intros x Hx. apply M1'. by apply Hh in Hx as [? _]. }
  run. pose proof (compatible_region _ _ _ C1 R2) as C2.
  assert (forall x, s x <> Free -> in_region m x) as Hin.
  { intros x Hx. destruct (decide (sm_start (ms_map m) <= x < sm_end (ms_map m))) as [|Hn]; [done|]. by rewrite (i_out _ _ _ _ _ I) in Hx. }
  assert (forall x, member (segs a2) x <-> s x <> Free) as M2'.
  { intros x. rewrite M2, M1', (Hh x). specialize (Hin x). destruct (s x); naive_solver. }
  clear M2. destruct (remove_all freed a2 Kf K2 (compatible_trans _ _ _ (compatible_sym _ _ Cf) C2)) as (a3 & -> & K3 & R3 & M3).
  { intros x Hx. apply M2'. apply Pf in Hx as [->|Hx]; [done|]. destruct (s x) as [|? []|[]|]; done. }
  run. pose proof (compatible_region _ _ _ C2 R3) as C3. cbn [remove_future TXG_CONCURRENT_STATES Z.to_nat Z.sub Z.add Z.opp Pos.to_nat].
  change (Z.to_nat (TXG_CONCURRENT_STATES - 1)) with 2%nat. cbn [remove_future]. rewrite !slot_u64. change (1 + 1) with 2.
  assert (forall k, 1 <= k <= 2 -> window T (T + k)) as Hw by (unfold window; lia).
  destruct (window_get (ms_allocmap m) (T + 1) (proj1 (i_len _ _ _ _ _ I))) as [b1 B1].
  destruct (minv_allocmap _ _ _ _ _ _ _ I (Hw 1 ltac:(lia)) B1) as (KB1 & CB1 & PB1). destruct (get_at _ _ _ B1) as [-> _]. run.
  assert (forall x, born_in (s x) (T + 1) \/ born_in (s x) (T + 2) -> ~ freed_in (s x) T) as Hnf.
  { intros x Hx. pose proof (i_status _ _ _ _ _ I x) as Hst. destruct (s x) as [|? []|[]|]; cbn in *; lia. }
  destruct (remove_all b1 a3 KB1 K3 (compatible_trans _ _ _ (compatible_sym _ _ CB1) C3)) as (a4 & -> & K4 & R4 & M4).
  { intros x [_ Hx]%PB1. apply M3. rewrite M2', (Pf x). specialize (Hnf x (or_introl Hx)). destruct (s x); naive_solver. }
  run. pose proof (compatible_region _ _ _ C3 R4) as C4.
  destruct (window_get (ms_allocmap m) (T + 2) (proj1 (i_len _ _ _ _ _ I))) as [b2 B2].
  destruct (minv_allocmap _ _ _ _ _ _ _ I (Hw 2 ltac:(lia)) B2) as (KB2 & CB2 & PB2). destruct (get_at _ _ _ B2) as [-> _]. run.
  destruct (remove_all b2 a4 KB2 K4 (compatible_trans _ _ _ (compatible_sym _ _ CB2) C4)) as (a5 & -> & K5 & R5 & M5).
  { intros x [_ Hx]%PB2. apply M4. rewrite M3, M2', (Pf x), (PB1 x). specialize (Hnf x (or_intror Hx)). destruct (s x); cbn in *; naive_solver lia. }
  run. unfold space_map_truncate. destruct (dmu_free_range_spec os (smo_object smo)) as (os' & Ef & F1 & F2). rewrite Ef. run.
  eexists a5, f0, os'. split; [done|]. split_and!; try done.
  - eauto 10 using same_region_trans.
  - intros x. rewrite M5, M4, M3, M2', (Pf x), (PB1 x), (PB2 x), condensed_iff by apply I. pose proof (Hw 1). pose proof (Hw 2).
    assert (T <= T + 1 /\ T <= T + 2) by lia. tauto.
  - exists 0%nat. cbn. split_and!; [lia|lia|]. apply rp_nil. by intros ? [].
  - split; [intros o Ho; by apply (dmu_free_exists _ _ _ _ _ o Ef)|]. intros o H1 H2 H3. split; [by apply F2|by apply (dmu_free_exists _ _ _ _ _ o Ef)].
  - by apply (dmu_free_exists _ _ _ _ _ _ Ef).
  - intros. by apply (dmu_free_read_frame _ _ _ _ _ _ _ _ Ef).
Qed.

(** The two calls that write the log. *)
Lemma two_syncs vd m am fm smo os txg pass (A P Q : Z -> Prop) :
  geom vd (ms_map m) -> sm_ok am -> compatible (ms_map m) am -> sm_ok fm -> compatible (ms_map m) fm ->
  log_of os smo (ms_map m) A -> holds am P -> holds fm Q -> (forall x, P x -> ~ A x) -> (forall x, Q x -> A x \/ P x) ->
  smo_objsize smo + 16 * (1 + sm_size (ms_map m)) < 2 ^ 63 -> smo_object smo <> vdev_ms_array vd ->
  exists am' smo1 os1 fm' smo' os', space_map_sync am SM_ALLOC smo os pass txg = Ok (am', smo1, os1) /\
    space_map_sync fm SM_FREE smo1 os1 pass txg = Ok (fm', smo', os') /\
    sm_ok am' /\ segs am' = [] /\ same_region am am' /\ sm_ok fm' /\ segs fm' = [] /\ same_region fm fm' /\
    smo_object smo' = smo_object smo /\ smo_objsize smo <= smo_objsize smo' < 2 ^ 63 /\
    log_of os' smo' (ms_map m) (fun x => (A x \/ P x) /\ ~ Q x) /\ extends os os' smo /\
    others os os' (smo_object smo) (vdev_ms_array vd) /\ dmu_bonus os' (smo_object smo) = dmu_bonus os (smo_object smo) /\
    (forall off n, dmu_read os' (vdev_ms_array vd) off n = dmu_read os (vdev_ms_array vd) off n).
Proof.
  intros Hg Ka Ca Kf Cf Hlog Pa Pf Hd Hsub Hroom Hne. pose proof (geom_bounds _ _ Hg) as (Hz & _).
  pose proof (proj1 (proj2 Ca)) as Ea. pose proof (proj1 (proj2 Cf)) as Ef. pose proof (space_le am Ka). pose proof (space_le fm Kf).
  destruct (sync_spec zfs_recover am SM_ALLOC smo os pass txg A) as (am' & smo1 & os1 & E1 & A1 & A2 & A3 & A4 & A5 & A6 & A7 & A8).
  { eapply geom_region; [by eapply geom_compatible|done]. }
  { by left. }
  { by eapply replays_region_log. }
  { intros x Hx. cbn. by apply Hd, Pa. }
  { lia. }
  assert (log_of os1 smo1 (ms_map m) (fun x => A x \/ P x)) as Hlog1.
  { eapply (log_ext _ _ am); [by apply compatible_sym|exact A5|]. intros x. unfold after. cbn. by rewrite (Pa x). }
  destruct (sync_spec zfs_recover fm SM_FREE smo1 os1 pass txg (fun x => A x \/ P x)) as (fm' & smo' & os' & E2 & B1 & B2 & B3 & B4 & B5 & B6 & B7 & B8).
  { eapply geom_region; [by eapply geom_compatible|done]. }
  { by right. }
  { by eapply replays_region_log. }
  { intros x Hx. cbn. by apply Hsub, Pf. }
  { lia. }
  exists am', smo1, os1, fm', smo', os'.
  assert (forall R : objset -> Prop, (forall os off size buf, R os -> R (dmu_write os (smo_object smo) off size buf)) -> R os -> R os') as Hframe.
  { intros R HR HRo. eapply (sync_frame (smo_object smo) R HR); [|exact E2|]; [done|]. by eapply (sync_frame (smo_object smo) R HR); [|exact E1|]. }
  split_and!; try done; try lia; try congruence.
  - eapply (log_ext _ _ fm); [by apply compatible_sym|exact B5|]. intros x. unfold after. cbn. by rewrite (Pf x).
  - intros n Hn Hn'. destruct (A7 n Hn Hn') as [L1 L2]. rewrite <- A4 in L1. destruct (B7 n ltac:(lia) L1) as [L3 L4].
    rewrite A4 in L3, L4. split; [done|congruence].
  - split.
    + intros o Ho. apply (Hframe (fun os => dmu_exists os o)); [|done]. intros. by apply dmu_write_exists.
    + intros o H1 H2 H3. split; [rewrite B6, A6 by congruence; done|].
      apply (Hframe (fun os2 => dmu_bonus os2 o = dmu_bonus os o)); [|done]. intros. by rewrite (proj2 (dmu_write_exists _ _ _ _ _ _)).
  - apply (Hframe (fun os2 => dmu_bonus os2 (smo_object smo) = dmu_bonus os (smo_object smo))); [|done].
    intros. by rewrite (proj2 (dmu_write_exists _ _ _ _ _ _)).
  - intros off n. apply (Hframe (fun os2 => dmu_read os2 (vdev_ms_array vd) off n = dmu_read os (vdev_ms_array vd) off n)); [|done].
    intros. by rewrite dmu_read_frame.
Qed.

(** What a sync of group [T] writes, appended or condensed: an object set whose
    log says that exactly what is allocated after it is, and maps without the
    group's changes. *)
Lemma sync_log T vd os m s pass :
  minv T vd os m s -> vdev_ms_array vd <> 0 -> dmu_exists os (vdev_ms_array vd) ->
  smo_objsize (ms_smo_syncing m) + 16 * (1 + sm_size (ms_map m)) < 2 ^ 63 ->
  exists os' am fm freed smo,
    metaslab_sync vd os m T pass =
      Ok (os', set_smo_syncing (set_freemap (set_allocmap m (<[slot T := am]> (ms_allocmap m)))
                 (<[slot (T - 1) := freed]> (<[slot T := fm]> (ms_freemap m)))) smo) /\
    sm_ok am /\ compatible (ms_map m) am /\ segs am = [] /\ sm_ok fm /\ compatible (ms_map m) fm /\ segs fm = [] /\
    sm_ok freed /\ compatible (ms_map m) freed /\ holds freed (fun x => s x = Dying \/ freed_in (s x) T) /\
    smo_object smo <> 0 /\ smo_object smo <> vdev_ms_array vd /\ dmu_exists os' (smo_object smo) /\
    (smo_object (ms_smo_syncing m) <> 0 -> smo_object smo = smo_object (ms_smo_syncing m)) /\
    (smo_object (ms_smo_syncing m) = 0 -> ~ dmu_exists os (smo_object smo)) /\
    smo_objsize smo < 2 ^ 63 /\ (exists b, dmu_bonus os' (smo_object smo) = Some (smo_words smo ++ b)) /\
    log_of os' smo (ms_map m) (fun x => on_disk (sync_status T (s x))) /\
    (sm_loaded (ms_map m) = false -> log_of os' (ms_smo m) (ms_map m) (fun x => on_disk (s x) \/ s x = Dying) /\
       smo_objsize (ms_smo m) <= smo_objsize smo) /\
    others os os' (smo_object smo) (vdev_ms_array vd) /\ array_set os os' vd m (smo_object smo).
Proof.
  intros I Hma Hme Hroom. unfold metaslab_sync. pose proof (i_len _ _ _ _ _ I) as [Hl1 Hl2].
  assert (window T T /\ window T (T - 1)) as [HwT HwC] by (unfold window; lia).
  destruct (window_get (ms_allocmap m) T Hl1) as [am0 Ham]. destruct (window_get (ms_freemap m) T Hl2) as [fm0 Hfm].
  destruct (window_get (ms_freemap m) (T - 1) Hl2) as [fr0 Hfr].
  destruct (minv_allocmap _ _ _ _ _ _ _ I HwT Ham) as (Ka & Ca & Pa).
  destruct (minv_freemap _ _ _ _ _ _ _ I HwT Hfm) as (Kf & Cf & Pf). rewrite Z.leb_refl in Pf.
  destruct (minv_freemap _ _ _ _ _ _ _ I HwC Hfr) as (Kr & Cr & Pr). rewrite (proj2 (Z.leb_gt T (T - 1))) in Pr by lia.
  unfold TXG_CLEAN. rewrite !slot_u64. destruct (get_at _ _ _ Ham) as [-> Pam]. run. destruct (get_at _ _ _ Hfm) as [-> Pfm]. run.
  destruct (get_at _ _ _ Hfr) as [-> _]. run.
  destruct (sync_object_spec T vd os m s I Hma Hme) as (obj & os1 & -> & O1 & O2 & O3 & O4 & O5 & (b & O6 & O6') & O7 & O8 & O9). run.
  set (smo0 := Smo obj _ _) in *.
  destruct (add_walk fm0 fr0 Kf Kr (compatible_trans _ _ _ (compatible_sym _ _ Cf) Cr)) as (fr & -> & Kr' & Rr & Mr).
  { intros x Hx Hx'. apply Pf in Hx. apply Pr in Hx'. rewrite Hx' in Hx. done. }
  run. pose proof (compatible_region _ _ _ Cr Rr) as Cr'.
  assert (holds fr (fun x => s x = Dying \/ freed_in (s x) T)) as Pr' by (intros x; by rewrite Mr, (Pr x), (Pf x)).
  (* the maps that are written, appended or condensed *)
  assert (exists am1 fm1 smo1 os2 (A P Q : Z -> Prop),
    (if sm_loaded (ms_map m) && (pass =? 1) && (u64 (2 * 8 * ot_numnodes (sm_root (ms_map m))) <=? smo_objsize smo0)
     then sync_condense m fr am0 fm0 smo0 os1 T else Ok (am0, fm0, smo0, os1)) = Ok (am1, fm1, smo1, os2) /\
    sm_ok am1 /\ compatible (ms_map m) am1 /\ holds am1 P /\ sm_ok fm1 /\ compatible (ms_map m) fm1 /\ holds fm1 Q /\
    smo_object smo1 = obj /\ smo_objsize smo1 <= smo_objsize smo0 /\ log_of os2 smo1 (ms_map m) A /\
    (forall x, P x -> ~ A x) /\ (forall x, Q x -> A x \/ P x) /\ (forall x, (A x \/ P x) /\ ~ Q x <-> on_disk (sync_status T (s x))) /\
    (sm_loaded (ms_map m) = false -> os2 = os1 /\ smo1 = smo0) /\
    others os1 os2 obj (vdev_ms_array vd) /\ dmu_bonus os2 obj = dmu_bonus os1 obj /\
    (forall off n, dmu_read os2 (vdev_ms_array vd) off n = dmu_read os1 (vdev_ms_array vd) off n))
    as (am1 & fm1 & smo1 & os2 & A & P & Q & -> & KA & CA & PA & KF & CF & PF & Es & Ez & Hlog & Hd & Hsub & Hfin & Hun & Hoth & Hbon & Hrd).
  { assert ((forall x, T <= T /\ born_in (s x) T -> ~ on_disk (s x)) /\
      (forall x, freed_in (s x) T -> on_disk (s x) \/ T <= T /\ born_in (s x) T) /\
      (forall x, (on_disk (s x) \/ T <= T /\ born_in (s x) T) /\ ~ freed_in (s x) T <-> on_disk (sync_status T (s x)))) as Happ.
    { split_and!; intros x.
      - intros [_ Hx]. destruct (s x); cbn in *; tauto.
      - intros Hx. destruct (sync_status_spec T (s x)) as (_ & _ & _ & _ & _ & H & _); [apply I|]. specialize (H Hx). naive_solver lia.
      - destruct (sync_status_spec T (s x)) as (-> & _); [apply I|]. naive_solver lia. }
    destruct (sm_loaded (ms_map m)) eqn:Hl.
    2: { cbn [andb]. exists am0, fm0, smo0, os1, (fun x => on_disk (s x)), (fun x => T <= T /\ born_in (s x) T), (fun x => freed_in (s x) T).
         split_and!; try done; try lia; apply Happ. }
    cbn [andb]. step_if.
    - destruct (condense_spec T vd os os1 m s fr am0 fm0 smo0) as (am1 & fm1 & os2 & E' & X1 & X2 & X3 & X4 & X5 & X6 & X7 & X8 & X9 & X10); try done.
      exists am1, fm1, (Smo obj 0 0), os2, (fun _ => False), (fun x => on_disk (sync_status T (s x))), (fun _ => False).
      split_and!; try done; try tauto.
      + exact (compatible_region _ _ _ Ca X2).
      + exact (compatible_region _ _ _ Cf X5).
      + intros x. rewrite X6. split; [apply member_nil|done].
      + destruct O7 as (n & -> & _). cbn. lia.
    - exists am0, fm0, smo0, os1, (fun x => on_disk (s x)), (fun x => T <= T /\ born_in (s x) T), (fun x => freed_in (s x) T).
      split_and!; try done; try lia; try (apply Happ). }
  run. destruct (two_syncs vd m am1 fm1 smo1 os2 T pass A P Q (i_geom _ _ _ _ _ I) KA CA KF CF Hlog PA PF Hd Hsub)
    as (am & smo2 & os3 & fm & smo & os4 & -> & E2 & Y1 & Y2 & Y3 & Y4 & Y5 & Y6 & Y7 & Y8 & Y9 & Y10 & Y11 & Y12 & Y13); [cbn in Ez; lia|congruence|].
  run. rewrite E2. run. rewrite Es in *. rewrite Y7, Y12, Hbon, O6. rewrite (proj2 (Z.leb_le 24 (8 * zlen b))) by lia. cbn [verify]. run.
  rewrite Pam. run. rewrite Pfm. run. assert (slot (T - 1) <> slot T) as Hsl by (intros Esl; apply (window_slot T) in Esl; [lia|done|done]).
  unfold put at 1. rewrite list_lookup_insert_ne, Hfr by done. run.
  pose proof (dmu_bonus_write_frame os4 obj (smo_words smo)) as Hbw.
  assert (dmu_exists os4 obj) as Hex by (apply Y11, Hoth; done).
  eexists _, am, fm, fr, smo. split; [done|]. split_and!; try done; try congruence.
  - exact (compatible_region _ _ _ CA Y3).
  - exact (compatible_region _ _ _ CF Y6).
  - rewrite Y7. by apply Hbw.
  - intros E. rewrite Y7. by apply O2.
  - intros E. rewrite Y7. by apply O3.
  - lia.
  - rewrite Y7. eexists. apply dmu_bonus_write_spec; [by rewrite Y12, Hbon|done].
  - destruct Y9 as (n & N1 & N2 & N3). rewrite Y7 in *. exists n. rewrite Y7. destruct (Hbw obj) as (_ & -> & _). split_and!; [done|done|].
    by eapply replays_ext.
  - intros Hl. destruct (Hun Hl) as [-> ->]. destruct (i_unloaded _ _ _ _ _ I Hl) as (_ & _ & _ & _ & U & Hle).
    cbn [smo_objsize smo0] in Y8. split; [|lia].
    assert (log_of os4 (ms_smo m) (ms_map m) (fun x => on_disk (s x) \/ s x = Dying)) as U4.
    { destruct (decide (smo_objsize (ms_smo m) = 0)) as [E0|E0]; [by eapply log_empty|].
      destruct (i_synced _ _ _ _ _ I) as [|[E1 Eo]]; [done|].
      destruct (O2 Eo) as [E3 ->]. eapply log_extends; [exact Y10|congruence|done|done]. }
    destruct U4 as (n & N1 & N2 & N3). exists n. destruct (Hbw (smo_object (ms_smo m))) as (_ & -> & _). by split_and!.
  - rewrite Y7. eapply others_trans; [exact O8|]. eapply others_trans; [exact Hoth|]. eapply others_trans; [exact Y11|].
    split; [intros o Ho; by apply Hbw|]. intros o H1 H2 H3. destruct (Hbw o) as (_ & B1 & B2 & _). split; [done|by apply B2].
  - rewrite Y7. intros k Hk. destruct (Hbw (vdev_ms_array vd)) as (_ & _ & _ & ->). rewrite Y13, Hrd. by apply O9.
Qed.

(** Syncing refines the transition of every offset. *)
Lemma metaslab_sync_spec T vd os m s pass :
  minv T vd os m s -> vdev_ms_array vd <> 0 -> dmu_exists os (vdev_ms_array vd) ->
  smo_objsize (ms_smo_syncing m) + 16 * (1 + sm_size (ms_map m)) < 2 ^ 63 ->
  exists os' m', metaslab_sync vd os m T pass = Ok (os', m') /\ minv T vd os' m' (fun x => sync_status T (s x)) /\
    ms_addr m' = ms_addr m /\ ms_smo m' = ms_smo m /\ ms_map m' = ms_map m /\ ms_weight m' = ms_weight m /\
    (smo_object (ms_smo_syncing m) <> 0 -> smo_object (ms_smo_syncing m') = smo_object (ms_smo_syncing m)) /\
    (smo_object (ms_smo_syncing m) = 0 -> ~ dmu_exists os (smo_object (ms_smo_syncing m'))) /\
    others os os' (smo_object (ms_smo_syncing m')) (vdev_ms_array vd) /\ array_set os os' vd m (smo_object (ms_smo_syncing m')).
Proof.
  intros I Hma Hme Hroom.
  destruct (sync_log T vd os m s pass I Hma Hme Hroom) as (os' & am & fm & fr & smo & -> & A1 & A2 & A3 & F1 & F2 & F3 & R1 & R2 & R3 &
    S1 & S2 & S3 & S4 & S5 & S6 & S7 & S8 & S9 & S10 & S11).
  eexists os', _. split; [done|]. split_and!; try done. pose proof (i_len _ _ _ _ _ I) as [Hl1 Hl2].
  assert (forall x, status_ok T (s x)) as Hst by apply I.
  assert (window T T /\ window T (T - 1)) as [HwT HwC] by (unfold window; lia).
  split; cbn [ms_map ms_allocmap ms_freemap ms_smo ms_smo_syncing set_freemap set_allocmap set_smo_syncing]; try apply I; try done.
  - by rewrite !length_insert.
  - pose proof (i_maps _ _ _ _ _ I) as Hm. rewrite List.Forall_app in Hm |- *. destruct Hm as [M1 M2].
    split; [|apply Forall_insert]; try apply Forall_insert; done.
  - eapply (window_put T T am (ms_allocmap m) _ (fun u x => T <= u /\ born_in (sync_status T (s x)) u)); [exact (i_alloc _ _ _ _ _ I)|done|done| |].
    + intros x. rewrite A3. destruct (sync_status_spec T (s x) (Hst x)) as (_ & _ & _ & -> & _). split; [intros Hx; by apply member_nil in Hx|tauto].
    + intros u x Hu Hut. destruct (sync_status_spec T (s x) (Hst x)) as (_ & _ & _ & -> & _). tauto.
  - eapply (window_put T (T - 1) fr _ (fun u x => if u =? T then False else if T <=? u then freed_in (s x) u else s x = Dying)
      (fun u x => if T <=? u then freed_in (sync_status T (s x)) u else sync_status T (s x) = Dying)); [|done|by rewrite length_insert| |].
    + eapply (window_put T T fm (ms_freemap m) _ (fun u x => if u =? T then False else if T <=? u then freed_in (s x) u else s x = Dying));
        [exact (i_free _ _ _ _ _ I)|done|done| |].
      * intros x. rewrite F3, Z.eqb_refl. split; [apply member_nil|done].
      * intros u x Hu Hut. by rewrite (proj2 (Z.eqb_neq u T)).
    + rewrite (proj2 (Z.leb_gt T (T - 1))) by lia. intros x. rewrite (R3 x). destruct (sync_status_spec T (s x) (Hst x)) as (_ & -> & _). done.
    + intros u x Hu Hut. unfold window in Hu. rewrite (proj2 (Z.leb_le T u)) by lia.
      destruct (sync_status_spec T (s x) (Hst x)) as (_ & _ & _ & _ & -> & _). destruct (Z.eqb_spec u T); tauto.
  - intros x Hx. apply (proj1 (proj2 (proj2 (sync_status_spec T (s x) (Hst x))))). by apply (i_out _ _ _ _ _ I).
  - intros x. apply (sync_status_spec T (s x) (Hst x)).
  - intros Hl. destruct (i_loaded _ _ _ _ _ I Hl) as (Hh & ? & ?). split_and!; [|done|done]. eapply holds_ext; [exact Hh|]. intros x. cbn.
    destruct (sync_status_spec T (s x) (Hst x)) as (_ & _ & -> & _). done.
  - intros Hl. destruct (i_unloaded _ _ _ _ _ I Hl) as (U1 & U2 & U3 & U4 & _). destruct (S9 Hl) as [L1 L2]. split_and!; try done.
    + intros x. apply (sync_status_spec T (s x) (Hst x)), U4.
    + eapply (log_ext _ _ (ms_map m)); [by split_and!|exact L1|]. intros x. cbn beta. pose proof (U4 x) as Hx. pose proof (Hst x) as Hy.
      destruct (s x) as [|t f|[u|]|]; [cbn; tauto|by destruct (Hx t f)| |cbn; tauto|cbn; tauto]. cbn. case Z.eqb_spec; cbn; intros; [|tauto]. split; [by right|by left].
  - split; [apply I|done].
  - intros _. match goal with |- context [ms_index vd ?m'] => change (ms_index vd m') with (ms_index vd m) end.
    rewrite (S11 (ms_index vd m)); [by rewrite Z.eqb_refl|]. apply Z.shiftr_nonneg, (geom_bounds _ _ (i_geom _ _ _ _ _ I)).
  - destruct (i_synced _ _ _ _ _ I) as [?|[E1 E2]]; [by left|right]. by rewrite (S4 E2).
  - destruct (i_weight _ _ _ _ _ I) as (W1 & W2 & W3). split; [done|]. split; [done|]. intros Hact. destruct (W3 Hact) as [Hl [?|Hx]]; (split; [done|]); [by left|right].
    intros x. destruct (Hx x) as [X1 X2]. split.
    + intros Hr. rewrite (proj1 (proj2 (proj2 (sync_status_spec T (s x) (Hst x))))). by apply X1.
    + by apply (sync_status_spec T (s x) (Hst x)).
Qed.

(** ** When a group is on disk *)

(** The free space a log leaves, and that less than a block of it is none. *)
Lemma disk_space vd os smo sm A :
  geom vd sm -> sm_ok sm -> log_of os smo sm A ->
  0 <= smo_alloc smo <= sm_size sm /\
  (sm_size sm - smo_alloc smo < SPA_MINBLOCKSIZE -> sm_size sm - smo_alloc smo = 0 /\ forall x, sm_start sm <= x < sm_end sm -> ~ ~ A x).
Proof.
  intros Hg Hok (n & _ & _ & Hr). split; [by eapply replays_bounds|]. intros Hlt. change SPA_MINBLOCKSIZE with 512 in Hlt.
  destruct (ot_empty_spec (A := space_seg)) as [Ht Et]. pose proof (empty_ok sm ot_empty Hok Ht Et) as Hok0.
  destruct (geom_bounds _ _ Hg) as (Hz & _). destruct (geom_region _ _ Hg Hok) as (_ & Al & _).
  destruct (load_start zfs_recover (set_root sm ot_empty 0) SM_FREE 0 Hok0 Et Hz Al (geom_aligned vd sm Hg) ltac:(by right) ltac:(cbn; lia))
    as (sm1 & _ & K1 & R1 & S1).
  pose proof R1 as (Q1 & Q2 & Q3 & _). cbn in Q1, Q2, Q3.
  destruct (load_replay zfs_recover SM_FREE sm1 (take n (dmu_words os (smo_object smo))) A (smo_alloc smo)) as (sm2 & _ & K2 & R2 & S2).
  { by left. }
  { done. }
  { apply (replays_region sm); [|done]. split_and!; congruence. }
  { done. }
  destruct S2 as [Sp Hm]. destruct R2 as (P1 & P2 & P3 & _).
  assert (geom vd sm2) as Hg2 by (eapply geom_compatible; [|exact Hg]; split_and!; congruence).
  assert (sm_space sm2 = 0) as E0.
  { destruct (segs sm2) as [|a l] eqn:E; [by rewrite (ok_space _ K2), E|].
    assert (In a (segs sm2)) as Hin by (rewrite E; by left). destruct (ok_seg sm2 a K2 Hin) as [(B1 & _ & _ & _ & B5) _].
    pose proof (aligned_sector _ _ _ Hg2 B5) as A2. rewrite (ok_space _ K2), E in Sp. cbn [total] in Sp.
    pose proof (ok_wf _ K2) as Hwf. rewrite E in Hwf. apply wf_cons in Hwf as (_ & [_ Hne] & _).
    assert (0 <= total l) by (clear -Hne; induction Hne; cbn; lia). exfalso. Z.to_euclidean_division_equations; lia. }
  split; [congruence|]. intros x Hx HA. pose proof (space_zero _ K2 E0) as Es. specialize (Hm x). rewrite Es in Hm.
  destruct (proj2 Hm) as (? & [] & _). split; [|done]. unfold sm_end in Hx. rewrite P1, P2, Q1, Q2. lia.
Qed.

Lemma weight_spec vd m :
  geom vd (ms_map m) -> 0 <= smo_alloc (ms_smo m) <= sm_size (ms_map m) -> 0 <= ms_weight m < 2 ^ 64 ->
  let space := sm_size (ms_map m) - smo_alloc (ms_smo m) in
  exists w, metaslab_weight vd m = Ok w /\ space <= low w <= 4 * space /\ 0 <= w < 2 ^ 64 /\ (active w <-> active (ms_weight m)).
Proof.
  intros Hg Ha Hw space. pose proof (geom_bounds _ _ Hg) as (Hz & Hs & Hend & Hc). destruct Hg as [(i & Hi & Es) Hsz Hsh _ Hv].
  unfold metaslab_weight. fold space. pose proof (Z.pow_pos_nonneg 2 (vdev_ms_shift vd) ltac:(lia) ltac:(lia)) as Hp.
  assert (0 <= space <= 2 ^ 59) as Hsp by (unfold sm_end in *; lia). rewrite (wrap_small 64 space) by lia.
  rewrite (proj2 (Z.eqb_neq (vdev_ms_count vd) 0)) by lia. cbn [negb verify]. run.
  assert (Z.shiftr (sm_start (ms_map m)) (vdev_ms_shift vd) = i) as -> by (rewrite Z.shiftr_div_pow2, Es, Z.div_mul by lia; done).
  assert (0 <= i * space < 2 ^ 59) as His.
  { assert (space <= 2 ^ vdev_ms_shift vd) as Hsp' by lia. clear -Hi Hv Hp Hsp Hsp'. nia. }
  rewrite (wrap_small 64 (i * space)) by lia.
  assert (0 <= i * space / vdev_ms_count vd <= space) as Hd.
  { split; [apply Z.div_pos; lia|]. apply Z.div_le_upper_bound; [lia|]. nia. }
  set (q := i * space / vdev_ms_count vd) in *. clearbody q. rewrite (wrap_small 64 (2 * space - q)) by lia.
  rewrite (wrap_small 64 (2 * space)) by lia.
  rewrite (proj2 (andb_true_iff (space <=? 2 * space - q) (2 * space - q <=? 2 * space))) by lia. cbn [verify]. run.
  set (w2 := if smo_object (ms_smo m) =? 0 then 2 * space - q else _).
  assert (space <= w2 <= 4 * space) as Hw2.
  { unfold w2, METASLAB_SMO_BONUS_MULTIPLIER. step_if; [lia|]. rewrite wrap_small by lia. lia. }
  unfold METASLAB_SMO_BONUS_MULTIPLIER. rewrite (wrap_small 64 (2 * 2 * space)) by lia.
  rewrite (proj2 (andb_true_iff (space <=? w2) (w2 <=? 2 * 2 * space))) by lia. cbn [verify]. run. clearbody w2. rewrite mask_bits by done.
  rewrite <- (Z.shiftl_mul_pow2 _ 62), Z.lor_comm, lor_shiftl_add by lia. eexists. split; [done|]. unfold low, active.
  rewrite (Z.add_comm _ w2), Z.mod_add, Z.mod_small by lia. split_and!; Z.to_euclidean_division_equations; lia.
Qed.

Lemma evictable_spec T vd os m s :
  minv T vd os m s ->
  exists ev, evictable (Z.to_nat (TXG_CONCURRENT_STATES - 1)) 1 (ms_allocmap m) (T - 1) true = Ok ev /\
    (ev = true -> forall x t f, s x = Born t f -> T + 1 < t).
Proof.
  intros I. change (Z.to_nat (TXG_CONCURRENT_STATES - 1)) with 2%nat. cbn [evictable]. rewrite !slot_u64.
  replace (T - 1 + 1) with T by lia. replace (T - 1 + (1 + 1)) with (T + 1) by lia.
  assert (window T T /\ window T (T + 1)) as [W0 W1] by (unfold window; lia). pose proof (i_len _ _ _ _ _ I) as [Hl _].
  destruct (window_get (ms_allocmap m) T Hl) as [a Ha]. destruct (window_get (ms_allocmap m) (T + 1) Hl) as [b Hb].
  destruct (minv_allocmap _ _ _ _ _ _ _ I W0 Ha) as (Ka & _ & Pa). destruct (minv_allocmap _ _ _ _ _ _ _ I W1 Hb) as (Kb & _ & Pb).
  destruct (get_at _ _ _ Ha) as [-> _]. run. destruct (get_at _ _ _ Hb) as [-> _]. run. eexists. split; [done|].
  cbn [andb]. intros [E1 E2]%andb_true_iff x t f Hx. apply Z.eqb_eq in E1, E2.
  pose proof (space_zero _ Ka E1) as Sa. pose proof (space_zero _ Kb E2) as Sb.
  pose proof (i_status _ _ _ _ _ I x) as Hst. specialize (Pa x). specialize (Pb x). rewrite Sa in Pa. rewrite Sb in Pb. rewrite Hx in *. cbn in *.
  pose proof (member_nil x). assert (t <> T) by (intros ->; apply H, Pa; lia). assert (t <> T + 1) by (intros ->; apply H, Pb; lia). lia.
Qed.

Lemma unload_spec sm :
  sm_ok sm -> sm_loaded sm = true -> sm_loading sm = false -> sm_ops sm = Some ff_addr -> ff_inv (sm_end sm) (sm_ppd sm) ->
  exists sm', space_map_unload ms_ops sm = Ok sm' /\ sm_ok sm' /\ compatible sm sm' /\ segs sm' = [] /\ sm_loaded sm' = false /\
    sm_loading sm' = false /\ sm_ops sm' = None /\ sm_ppd sm' = None.
Proof.
  intros Hok Hl Hlg Ho Hff. unfold space_map_unload. rewrite Hl, Ho. rewrite ff_deref by done. run.
  cbn [smop_unload metaslab_ff_ops]. unfold metaslab_ff_unload. run.
  set (sm1 := set_state _ _ _ _). assert (sm_ok sm1) as K1 by (apply sm_ok_state, sm_ok_ppd, Hok).
  destruct (vacate_null_spec sm1 K1) as (sm2 & E & K2 & S2 & R2). unfold vacate_null in E. rewrite E.
  destruct R2 as (E1 & E2 & E3 & E4 & E5 & E6 & E7). cbn in *. exists sm2. split_and!; try done; congruence.
Qed.

(** The maps say what they should but for the weight, which is computed here. *)
Lemma evict_and_sort_spec T vd os m s ns L V :
  minv T vd os (set_weight m 0) s -> 0 <= ms_weight m < 2 ^ 64 -> (active (ms_weight m) -> sm_loaded (ms_map m) = true) ->
  ms_smo m = ms_smo_syncing m -> (forall x, s x <> Dying) -> (forall x t f, s x = Born t f -> t <= T + 1) ->
  vinv vd (node_of m :: ns) L V ->
  exists vd' m', evict_and_sort vd m (T - 1) = Ok (vd', m') /\ minv T vd' os m' s /\ vinv vd' (node_of m' :: ns) L V /\
    vd_ext vd vd' /\ vd_stat vd' = vd_stat vd /\ ms_addr m' = ms_addr m /\ ms_smo m' = ms_smo m /\ ms_smo_syncing m' = ms_smo_syncing m /\
    compatible (ms_map m) (ms_map m').
Proof.
  intros I Hw Hal Esmo Hnd Hb Hv. unfold evict_and_sort. rewrite mask_zero by done.
  assert (exists sm, (if sm_loaded (ms_map m) && (ms_weight m <? 2 ^ 62)
      then ev ← evictable (Z.to_nat (TXG_CONCURRENT_STATES - 1)) 1 (ms_allocmap m) (T - 1) true;
           if (ev : bool) then space_map_unload ms_ops (ms_map m) else Ok (ms_map m)
      else Ok (ms_map m)) = Ok sm /\ compatible (ms_map m) sm /\ minv T vd os (set_weight (set_map m sm) 0) s /\
      (active (ms_weight m) -> sm_loaded sm = true)) as (sm & -> & Hc & I1 & Hal1).
  { destruct (sm_loaded (ms_map m)) eqn:Hl; cbn [andb].
    2: { exists (ms_map m). split_and!; [done|by split_and!|exact I|]. rewrite Hl. exact Hal. }
    destruct (Z.ltb_spec (ms_weight m) (2 ^ 62)) as [Hlt|Hge].
    2: { exists (ms_map m). split_and!; [done|by split_and!|exact I|by rewrite Hl]. }
    destruct (evictable_spec T vd os _ s I) as (ev & E & Hev). cbn [ms_allocmap set_weight] in E. rewrite E. run. destruct ev.
    2: { exists (ms_map m). split_and!; [done|by split_and!|exact I|by rewrite Hl]. }
    destruct (i_loaded _ _ _ _ _ I Hl) as (Hh & Ho & Hff).
    destruct (unload_spec (ms_map m) (i_ok _ _ _ _ _ I) Hl (i_loading _ _ _ _ _ I) Ho Hff) as (sm & -> & U1 & U2 & U3 & U4 & U5 & U6 & U7).
    exists sm. split_and!; try done; [|intros Ha; unfold active in Ha; lia].
    assert (forall x t f, s x <> Born t f) as Hnb by (intros x t f Hx; specialize (Hev eq_refl x t f Hx); specialize (Hb x t f Hx); lia).
    destruct (compatible_end _ _ U2) as [C1 C2]. destruct I. cbn in *.
    split; cbn [ms_map ms_allocmap ms_freemap ms_smo ms_smo_syncing set_weight set_map]; try done.
    - by eapply geom_compatible.
    - eapply List.Forall_impl; [|exact i_maps0]. intros a [? ?]. split; [done|]. apply (compatible_trans _ (ms_map m)); [by apply compatible_sym|done].
    - intros x Hx. apply i_out0. intros Hx'. apply Hx. unfold in_region in *. cbn in *. by rewrite C1, C2.
    - by rewrite U4.
    - intros _. rewrite Esmo. split_and!; try done. eapply (log_ext _ _ (ms_map m)); [done|exact i_log0|]. intros x. specialize (Hnd x). cbn. tauto.
    - by eapply replays_region_log.
    - intros Ha. erewrite (ms_index_eq vd vd (set_weight m 0)); [by apply i_array0|apply vd_ext_refl|done].
    - split; [done|]. split; [by left|]. intros Ha. unfold active in Ha. cbn in Ha. lia. }
  run. cbn zeta. set (m1 := set_map m sm) in *.
  destruct (disk_space vd os (ms_smo_syncing m1) sm _ (i_geom _ _ _ _ _ I1) (i_ok _ _ _ _ _ I1) (i_log _ _ _ _ _ I1)) as [Hal2 Hfull].
  assert (ms_smo m1 = ms_smo_syncing m1) as Esmo1 by done.
  destruct (weight_spec vd m1) as (w & -> & Hlw & Hw' & Hact); [apply (i_geom _ _ _ _ _ I1)|rewrite Esmo1; exact Hal2|done|]. run.
  assert (vinv vd (node_of m1 :: ns) L V) as Hv1.
  { replace (node_of m1) with (node_of m); [done|]. unfold node_of. cbn. f_equal. apply Hc. }
  change (ms_map m1) with sm in *. rewrite Esmo1 in Hlw. set (space := sm_size sm - smo_alloc (ms_smo_syncing m1)) in *.
  assert (low w = 0 \/ SPA_MINBLOCKSIZE <= low w) as Hcase.
  { change SPA_MINBLOCKSIZE with 512 in *. destruct (Z.lt_ge_cases space 512) as [Hlt|]; [left|right; lia]. destruct (Hfull Hlt). lia. }
  destruct (group_sort_spec vd m1 w ns L V Hv1) as (t & -> & Hv2).
  { change SPA_MINBLOCKSIZE with 512 in *. unfold low in Hcase. pose proof (Z.mod_eq w (2 ^ 62)). pose proof (Z.mod_le w (2 ^ 62)).
    destruct Hcase as [Hl0|Hl0]; [|left; lia]. destruct (decide (w = 0)); [by right|left].
    Z.to_euclidean_division_equations; lia. }
  eexists _, _. split; [done|]. split_and!; try done.
  apply (minv_ext T vd); [by split|]. apply (minv_weight T vd os (set_weight m1 0) w s I1).
  split; [done|]. change SPA_MINBLOCKSIZE with 512 in *. split; [cbn; lia|]. cbn. intros Ha. apply Hact in Ha. split; [by apply Hal1|].
  destruct Hcase as [Hl0|]; [right|by left]. assert (space < 512) as Hlt by lia. destruct (Hfull Hlt) as [_ Hall]. intros x.
  destruct (decide (sm_start sm <= x < sm_end sm)) as [Hx|Hx].
  - specialize (Hall x Hx). destruct (s x); cbn in Hall; tauto || (split; [done|intros; done]).
  - split; [done|]. intros t' f. rewrite (i_out _ _ _ _ _ I1 x Hx). done.
Qed.

(** Freeing into a map is adding, the first-fit allocator keeps no record of it. *)
Lemma add_keeps_ops sm start size sm' : space_map_add zfs_recover sm start size = Ok sm' -> sm_ops sm' = sm_ops sm.
Proof.
  unfold space_map_add. intros H. inv_bind H. destruct (ot_find _ _) as [ss|wher].
  - step_if_in H; [|done]. unfold zfs_panic_recover in H. destruct zfs_recover; [by injection H as <-|done].
  - inv_bind H. by injection H as <-.
Qed.

Lemma for_segs_free l d d' :
  sm_ops d = Some ff_addr -> for_segs (space_map_add zfs_recover) l d = Ok d' ->
  for_segs (space_map_free zfs_recover ms_ops) l d = Ok d'.
Proof.
  revert d. induction l as [|a l IH]; intros d Ho H; [done|]. cbn [for_segs] in *. inv_bind H.
  pose proof (add_keeps_ops _ _ _ _ B) as Ek.
  assert (space_map_free zfs_recover ms_ops d (ss_start a) (u64 (ss_end a - ss_start a)) = Ok r) as ->.
  { unfold space_map_free. rewrite B. run. rewrite ff_deref by congruence. done. }
  run. apply IH; [congruence|done].
Qed.

Definition done_status (s : status) : status := match s with Dying => Free | s => s end.

(** Freed space enters the free map. *)
Lemma vacate_freed T vd os m s freed :
  minv T vd os m s -> sm_ok freed -> compatible (ms_map m) freed -> holds freed (fun x => s x = Dying) ->
  exists freed' sm, (if sm_loaded (ms_map m) then space_map_vacate freed (space_map_free zfs_recover ms_ops) (ms_map m)
       else freed ← vacate_null freed; Ok (freed, ms_map m)) = Ok (freed', sm) /\
    sm_ok freed' /\ compatible (ms_map m) freed' /\ segs freed' = [] /\ sm_ok sm /\ same_region (ms_map m) sm /\
    (sm_loaded (ms_map m) = true -> holds sm (fun x => in_region m x /\ done_status (s x) = Free)) /\
    (sm_loaded (ms_map m) = false -> sm = ms_map m).
Proof.
  intros I Kf Cf Pf. destruct (sm_loaded (ms_map m)) eqn:Hl.
  - destruct (i_loaded _ _ _ _ _ I Hl) as (Hh & Ho & _). unfold space_map_vacate.
    destruct (ot_drain_spec (sm_root freed) (ok_tree _ Kf)) as (l & t & -> & Hp & Ht & Et). run.
    destruct (add_all zfs_recover freed (ms_map m) l Kf (i_ok _ _ _ _ _ I) (compatible_sym _ _ Cf) Hp) as (sm & E & K & R & _ & M).
    { intros x Hx. rewrite (Hh x). apply Pf in Hx. rewrite Hx. naive_solver. }
    rewrite (for_segs_free _ _ sm Ho E). run. eexists _, sm. split; [done|]. split_and!; try done; [by apply empty_ok|].
    intros _ x. rewrite M, (Hh x), (Pf x). assert (s x = Dying -> in_region m x) as Hr.
    { intros Hx. destruct (decide (sm_start (ms_map m) <= x < sm_end (ms_map m))) as [|Hn]; [done|]. by rewrite (i_out _ _ _ _ _ I x Hn) in Hx. }
    destruct (s x); cbn; naive_solver.
  - destruct (vacate_null_spec freed Kf) as (f' & -> & K & S & R). run. exists f', (ms_map m). split_and!; try done; [|apply I].
    exact (compatible_region _ _ _ Cf R).
Qed.

(** The array after one group has gone and a new one come: the slot of the group
    before [T] is that of [T + 3]. *)
Lemma slot_next T : slot (T + 3) = slot (T - 1).
Proof. apply slot_eq. replace (T + 3 - (T - 1)) with (1 * 4) by lia. by rewrite Z.mod_mul. Qed.

Lemma window_shift T a0 (maps : list space_map) (P P' : Z -> Z -> Prop) :
  (forall t a, window T t -> maps !! slot t = Some a -> holds a (P t)) -> length maps = 4%nat ->
  holds a0 (P' (T + 3)) -> (forall t x, T <= t <= T + 2 -> P t x <-> P' t x) ->
  forall t a, window (T + 1) t -> <[slot (T - 1) := a0]> maps !! slot t = Some a -> holds a (P' t).
Proof.
  intros H Hlen H0 HP t a Ht Ha. unfold window in Ht. destruct (decide (t = T + 3)) as [->|Hne].
  - rewrite slot_next, list_lookup_insert_eq in Ha by (rewrite Hlen; apply slot_lt). by injection Ha as <-.
  - assert (window T t /\ window T (T - 1)) as [? ?] by (unfold window; lia).
    rewrite list_lookup_insert_ne in Ha by (intros Es; apply (window_slot T) in Es; [lia|done|done]).
    eapply holds_ext; [by apply (H t)|]. intros x. apply HP. lia.
Qed.

Lemma metaslab_sync_done_spec T vd os m s ns L V :
  minv T vd os m s -> vinv vd (node_of m :: ns) L V -> (forall x, ~ born_in (s x) T /\ ~ freed_in (s x) T) ->
  exists vd' m', metaslab_sync_done vd m T = Ok (vd', m') /\ minv (T + 1) vd' os m' (fun x => done_status (s x)) /\
    vinv vd' (node_of m' :: ns) L V /\ vd_ext vd vd' /\
    vs_alloc (vd_stat vd') = u64 (vs_alloc (vd_stat vd) + (smo_alloc (ms_smo_syncing m) - smo_alloc (ms_smo m))) /\
    ms_addr m' = ms_addr m /\ ms_smo m' = ms_smo_syncing m /\ ms_smo_syncing m' = ms_smo_syncing m /\ compatible (ms_map m) (ms_map m').
Proof.
  intros I Hv Hclean. unfold metaslab_sync_done, TXG_CLEAN. rewrite !slot_u64. pose proof (i_len _ _ _ _ _ I) as [Hl1 Hl2].
  assert (window T T /\ window T (T - 1)) as [HwT HwC] by (unfold window; lia). pose proof (geom_bounds _ _ (i_geom _ _ _ _ _ I)) as (Hz & _ & _ & Hc).
  destruct (window_get (ms_allocmap m) T Hl1) as [a Ha]. destruct (window_get (ms_freemap m) T Hl2) as [f Hf].
  destruct (window_get (ms_freemap m) (T - 1) Hl2) as [fr Hfr].
  destruct (minv_allocmap _ _ _ _ _ _ _ I HwT Ha) as (Ka & Ca & Pa).
  destruct (minv_freemap _ _ _ _ _ _ _ I HwT Hf) as (Kf & Cf & Pf). rewrite Z.leb_refl in Pf.
  destruct (minv_freemap _ _ _ _ _ _ _ I HwC Hfr) as (Kr & Cr & Pr). rewrite (proj2 (Z.leb_gt T (T - 1))) in Pr by lia.
  destruct (get_at _ _ _ Hfr) as [Gfr Pfr]. rewrite Gfr. run. rewrite <- (proj1 (proj2 Cr)). rewrite (proj2 (Z.eqb_neq _ 0)) by lia. run.
  destruct (space_update_spec vd 0 (smo_alloc (ms_smo_syncing m) - smo_alloc (ms_smo m)) _ L V Hv ltac:(lia) eq_refl) as (vd1 & -> & He1 & Hv1 & Hst & _). run.
  destruct (get_at _ _ _ Ha) as [-> _]. run. destruct (space_empty a Ka) as [-> Sa].
  { intros x Hx. apply Pa in Hx as [_ Hx]. exact (proj1 (Hclean x) Hx). }
  cbn [Z.eqb verify]. run. destruct (get_at _ _ _ Hf) as [-> _]. run. destruct (space_empty f Kf) as [-> Sf].
  { intros x Hx. apply Pf in Hx. exact (proj2 (Hclean x) Hx). }
  cbn [Z.eqb verify space_map_load_wait]. run. rewrite (i_loading _ _ _ _ _ I). run. rewrite Gfr. run.
  destruct (vacate_freed T vd os m s fr I Kr Cr Pr) as (fr' & sm & -> & F1 & F2 & F3 & F4 & F5 & F6 & F7). run. rewrite Pfr. run.
  set (m1 := set_map _ sm). pose proof F5 as (R1 & R2 & R3 & R4 & R5 & R6 & R7).
  assert (compatible (ms_map m) sm) as Csm by (split_and!; congruence).
  destruct (i_weight _ _ _ _ _ I) as (W1 & W2 & W3). assert (forall x, status_ok T (s x)) as Hst' by apply I.
  assert (minv (T + 1) vd1 os (set_weight m1 0) (fun x => done_status (s x))) as I1.
  { apply (minv_ext (T + 1) vd); [done|].
    split; cbn [ms_map ms_allocmap ms_freemap ms_smo ms_smo_syncing set_weight set_map set_smo set_freemap m1]; try done; try apply I.
    - eapply geom_compatible; [done|apply I].
    - rewrite R5. apply I.
    - by rewrite length_insert.
    - pose proof (i_maps _ _ _ _ _ I) as Hm. rewrite List.Forall_app in Hm |- *. destruct Hm as [M1 M2].
      assert (forall a, sm_ok a /\ compatible (ms_map m) a -> sm_ok a /\ compatible sm a) as Himp.
      { intros b [? ?]. split; [done|]. apply (compatible_trans _ (ms_map m)); [by apply compatible_sym|done]. }
      split; [exact (List.Forall_impl _ Himp M1)|]. apply Forall_insert; [exact (List.Forall_impl _ Himp M2)|by apply Himp].
    - intros t b Ht Hb. destruct (decide (t = T + 3)) as [->|Hne].
      + rewrite slot_next in Hb. eapply holds_ext; [by eapply (i_alloc _ _ _ _ _ I)|]. intros x. cbn beta. specialize (Hst' x).
        destruct (s x) as [|? []|[]|]; cbn in *; lia.
      + assert (window T t) as Hwt by (unfold window; lia). eapply holds_ext; [by eapply (i_alloc _ _ _ _ _ I)|]. intros x. cbn beta. specialize (Hclean x).
        destruct (s x) as [|? ?|?|]; cbn in *; lia.
    - eapply (window_shift T fr' (ms_freemap m) _ (fun t x => if T + 1 <=? t then freed_in (done_status (s x)) t else done_status (s x) = Dying));
        [exact (i_free _ _ _ _ _ I)|done|..].
      + intros x. rewrite F3. specialize (Hst' x). split; [intros Hx; by apply member_nil in Hx|].
        rewrite (proj2 (Z.leb_le _ _)) by lia. destruct (s x) as [|? []|[]|]; cbn in *; lia.
      + intros t x Ht. cbn beta. specialize (Hclean x). rewrite (proj2 (Z.leb_le T t)) by lia.
        destruct (Z.leb_spec (T + 1) t); [by destruct (s x)|]. assert (t = T) as -> by lia.
        destruct (s x) as [|? []|[]|]; cbn in *; naive_solver.
    - intros x Hx. rewrite (i_out _ _ _ _ _ I); [done|]. intros Hx'. apply Hx. unfold in_region in *. cbn. unfold sm_end. by rewrite R1, R2.
    - intros x. specialize (Hst' x). specialize (Hclean x). destruct (s x) as [|? []|[]|]; cbn in *; try done; lia.
    - intros Hl. rewrite R4 in Hl. destruct (i_loaded _ _ _ _ _ I Hl) as (_ & Ho & Hff). split_and!; [|congruence|unfold sm_end; by rewrite R1, R2, R7].
      intros x. rewrite (F6 Hl x). unfold in_region. cbn. unfold sm_end. by rewrite R1, R2.
    - intros Hl. rewrite R4 in Hl. rewrite (F7 Hl). destruct (i_unloaded _ _ _ _ _ I Hl) as (U1 & U2 & U3 & U4 & _).
      split_and!; try done.
      + intros x t g. specialize (U4 x t g). destruct (s x); cbn; congruence.
      + eapply (log_ext _ _ (ms_map m)); [by split_and!|apply I|]. intros x. cbn. destruct (s x); cbn; naive_solver.
    - eapply (log_ext _ _ (ms_map m)); [done|apply I|]. intros x. cbn. destruct (s x); cbn; naive_solver.
    - split; apply (i_sizes _ _ _ _ _ I).
    - intros Hma. erewrite (ms_index_eq vd vd m); [by apply (i_array _ _ _ _ _ I)|apply vd_ext_refl|done].
    - destruct (decide (smo_object (ms_smo_syncing m) = 0)) as [E|E]; [left; by apply (i_object _ _ _ _ _ I)|by right].
    - split; [done|]. split; [by left|]. intros Hx. unfold active in Hx. cbn in Hx. lia. }
  destruct (evict_and_sort_spec (T + 1) vd1 os m1 (fun x => done_status (s x)) ns L V I1) as (vd2 & m2 & E & H1 & H2 & H3 & H4 & H5 & H6 & H7 & H8).
  - done.
  - intros Hx. cbn. rewrite R4. by apply W3.
  - done.
  - intros x. destruct (s x); done.
  - intros x t g Hx. specialize (Hst' x). destruct (s x); cbn in *; simplify_eq. lia.
  - replace (node_of m1) with (node_of m); [done|]. unfold node_of. cbn. by rewrite R1.
  - replace (T + 1 - 1) with T in E by lia. rewrite E. exists vd2, m2. split_and!; try done.
    + by eapply vd_ext_trans.
    + congruence.
    + by eapply compatible_trans.
Qed.

(** ** New metaslabs *)

(** With nothing in flight the groups' numbers do not matter. *)
Lemma minv_quiet T T' vd os m s :
  minv T vd os m s -> (forall x, s x = Free \/ s x = Live None) -> minv T' vd os m s.
Proof.
  intros I Hq. assert (forall t, exists u, window T u /\ slot u = slot t) as Hcov.
  { intros t. exists (T - 1 + (t - (T - 1)) `mod` 4). unfold window. pose proof (Z.mod_pos_bound (t - (T - 1)) 4). split; [lia|].
    apply slot_eq. Z.to_euclidean_division_equations; lia. }
  assert (forall x u, ~ born_in (s x) u /\ ~ freed_in (s x) u /\ s x <> Dying) as Hn.
  { intros x u. destruct (Hq x) as [-> | ->]; cbn; naive_solver. }
  destruct I. split; try done.
  - intros t a Ht Ha. destruct (Hcov t) as (u & Hu & E). rewrite <- E in Ha. intros x. rewrite (i_alloc0 u a Hu Ha x).
    pose proof (Hn x u). pose proof (Hn x t). tauto.
  - intros t a Ht Ha. destruct (Hcov t) as (u & Hu & E). rewrite <- E in Ha. intros x. rewrite (i_free0 u a Hu Ha x).
    pose proof (Hn x u). pose proof (Hn x t). destruct (T <=? u), (T' <=? t); tauto.
  - intros x. destruct (Hq x) as [-> | ->]; done.
Qed.

(** What the log of a new or reopened metaslab must say. *)
Record openable (vd : vdev) (os : objset) (smo : space_map_obj) (sm : space_map) (s : Z -> status) : Prop := {
  op_geom : geom vd sm;
  op_log : log_of os smo sm (fun x => on_disk (s x));
  op_quiet x : s x = Free \/ s x = Live None;
  op_out x : ~ sm_start sm <= x < sm_end sm -> s x = Free;
  op_size : smo_objsize smo < 2 ^ 63;
  op_none : smo_object smo = 0 -> smo_objsize smo = 0 /\ smo_alloc smo = 0;
  op_exists : smo_object smo <> 0 -> dmu_exists os (smo_object smo) /\ smo_object smo <> vdev_ms_array vd /\
    exists b, dmu_bonus os (smo_object smo) = Some (smo_words smo ++ b);
  op_array : vdev_ms_array vd <> 0 ->
    dmu_read os (vdev_ms_array vd) (8 * Z.shiftr (sm_start sm) (vdev_ms_shift vd)) 8 = Some [smo_object smo]
}.

Lemma geom_create_ok vd start size shift : geom vd (space_map_create start size shift) -> sm_ok (space_map_create start size shift).
Proof.
  intros Hg. pose proof (geom_bounds _ _ Hg) as (Hz & Hst & Hend & Hc). destruct Hg as [_ Esz Hsh _ Hv]. unfold sm_end in *. cbn in *.
  apply create_ok; [lia|lia|lia|]. assert (vdev_ms_shift vd <= 59); [|lia]. apply (Z.pow_le_mono_r_iff 2); nia.
Qed.

Lemma zeroes_get {A} (x : A) i : (i < 4)%nat -> get (replicate (Z.to_nat TXG_SIZE) x) i = Ok x /\
  forall v, put (replicate (Z.to_nat TXG_SIZE) x) i v = Ok (<[i := v]> (replicate (Z.to_nat TXG_SIZE) x)).
Proof. intros Hi. apply get_at. by apply lookup_replicate_2. Qed.

(** The first [metaslab_sync_done] of a metaslab makes its maps. *)
Lemma sync_done_new T vd os smo addr start size shift s ns L V txg :
  let sm := space_map_create start size shift in
  let zeroes := replicate (Z.to_nat TXG_SIZE) zero_map in
  let m := Metaslab addr (Smo 0 0 0) smo zeroes zeroes sm 0 in
  openable vd os smo sm s -> vinv vd (node_of m :: ns) L V ->
  exists vd' m', metaslab_sync_done vd m txg = Ok (vd', m') /\ minv T vd' os m' s /\ vinv vd' (node_of m' :: ns) L V /\
    vd_ext vd vd' /\ vs_alloc (vd_stat vd') = u64 (vs_alloc (vd_stat vd) + smo_alloc smo) /\
    vs_space (vd_stat vd') = u64 (vs_space (vd_stat vd) + size) /\
    ms_addr m' = addr /\ ms_smo m' = smo /\ ms_smo_syncing m' = smo /\ compatible sm (ms_map m').
Proof.
  intros sm zeroes m Hop Hv. pose proof Hop as []. pose proof (geom_bounds _ _ op_geom0) as (Hz & Hst & Hend & Hc). cbn in Hz, Hst, Hend.
  assert (sm_ok sm) as Hok by (by eapply geom_create_ok).
  unfold metaslab_sync_done. destruct (zeroes_get zero_map (slot (TXG_CLEAN txg)) ltac:(apply slot_lt)) as [Gz _]. cbn [ms_freemap m]. unfold zeroes. rewrite Gz. run.
  cbn [sm_size zero_map space_map_create Z.eqb ms_map m sm sm_start sm_shift]. fold sm. set (maps := replicate _ sm).
  destruct (space_update_spec vd size 0 _ L V Hv ltac:(lia)) as (vd1 & -> & He1 & Hv1 & Ha1 & Hs1).
  { exact (aligned_sector _ _ _ op_geom0 (geom_aligned _ _ op_geom0)). }
  run. cbn [ms_smo ms_smo_syncing ms_allocmap ms_freemap set_freemap set_allocmap smo_alloc m].
  destruct (space_update_spec vd1 0 (smo_alloc smo - 0) _ L V Hv1 ltac:(destruct He1; lia) eq_refl) as (vd2 & -> & He2 & Hv2 & Ha2 & Hs2). run.
  assert (forall t, maps !! slot t = Some sm) as Hmaps by (intros t; by apply lookup_replicate_2; pose proof (slot_lt t)).
  assert (forall t, get maps (slot t) = Ok sm /\ forall v, put maps (slot t) v = Ok (<[slot t := v]> maps)) as Hget by (intros t; by apply get_at).
  cbn [ms_allocmap ms_freemap set_freemap set_allocmap]. rewrite !(proj1 (Hget _)). run. cbn [sm_space sm space_map_create Z.eqb verify]. run.
  change (space_map_load_wait [] sm) with (Ok sm). run. change (sm_loaded sm) with false. cbv iota.
  destruct (vacate_null_spec sm Hok) as (f & -> & Kf & Sf & Rf). run. rewrite (proj2 (Hget _)). run.
  set (m1 := set_map _ sm). destruct (ot_empty_spec (A := space_seg)) as [_ Et].
  assert (segs sm = []) as Esm by (unfold segs; exact Et).
  assert (compatible sm f) as Cf by (destruct Rf as (? & ? & ? & _); split_and!; congruence).
  assert (forall t a, ms_freemap m1 !! slot t = Some a -> sm_ok a /\ compatible sm a /\ segs a = []) as Hfm.
  { intros t a Ha. cbn in Ha. destruct (decide (slot t = slot (TXG_CLEAN txg))) as [E|E].
    - rewrite E, list_lookup_insert_eq in Ha by (unfold maps; rewrite length_replicate; apply slot_lt). injection Ha as <-. done.
    - rewrite list_lookup_insert_ne, Hmaps in Ha by done. injection Ha as <-. by split_and!. }
  assert (forall x u, ~ born_in (s x) u /\ ~ freed_in (s x) u /\ s x <> Dying) as Hn.
  { intros x u. destruct (op_quiet0 x) as [-> | ->]; cbn; naive_solver. }
  assert (minv (txg + 1) vd2 os (set_weight m1 0) s) as I1.
  { apply (minv_ext _ vd); [by eapply vd_ext_trans|].
    split; cbn [ms_map ms_allocmap ms_smo ms_smo_syncing set_weight set_map set_smo set_freemap set_allocmap m1]; try done.
    - split; [done|]. cbn. by rewrite length_insert.
    - apply List.Forall_app. split; [by apply Forall_replicate|]. cbn. apply Forall_insert; [by apply Forall_replicate|]. done.
    - intros t a _ Ha. rewrite Hmaps in Ha. injection Ha as <-. intros x. rewrite Esm. destruct (Hn x t). split; [intros Hx; by apply member_nil in Hx|tauto].
    - intros t a _ Ha x. destruct (Hfm t a Ha) as (_ & _ & ->). destruct (Hn x t) as (? & ? & ?). split; [intros Hx; by apply member_nil in Hx|]. destruct (txg + 1 <=? t); tauto.
    - intros x. destruct (op_quiet0 x) as [-> | ->]; done.
    - intros _. split_and!; try done; [intros x t g; destruct (op_quiet0 x) as [-> | ->]; done|].
      eapply (log_ext _ _ sm); [by split_and!|exact op_log0|]. intros x. destruct (Hn x 0) as (_ & _ & ?). tauto.
    - destruct (decide (smo_object smo = 0)) as [E|E]; [left; by apply op_none0|by right].
    - split; [done|]. split; [by left|]. intros Hx. unfold active in Hx. cbn in Hx. lia. }
  destruct (evict_and_sort_spec (txg + 1) vd2 os m1 s ns L V I1) as (vd3 & m3 & E & J1 & J2 & J3 & J4 & J5 & J6 & J7 & J8); try done.
  - intros x. by destruct (Hn x 0) as (_ & _ & ?).
  - intros x t f' Hx. destruct (op_quiet0 x) as [E|E]; rewrite E in Hx; done.
  - replace (txg + 1 - 1) with txg in E by lia. rewrite E. exists vd3, m3. split_and!; try done.
    + by eapply minv_quiet.
    + eapply vd_ext_trans; [exact He1|]. by eapply vd_ext_trans.
    + rewrite J4, Ha2, Ha1. unfold wrap. rewrite Z.add_mod_idemp_l by lia. f_equal. lia.
    + rewrite J4, Hs2, Hs1. unfold wrap. rewrite Z.add_mod_idemp_l by lia. f_equal. lia.
Qed.

(** New memory holds no object of the lists. *)
Lemma rep_add_node tl st L a :
  rep tl st L -> (forall t, ~ listed L t a) -> rep tl (<[a + tl_offset tl := zero_node]> st) L.
Proof.
  intros R Ha. assert (forall t, (t < 4)%nat -> a ∉ L t) as Hn.
  { intros t Ht Hin. apply (Ha (Z.of_nat t)). unfold listed. by rewrite slot_mod, Z.mod_small, Nat2Z.id by lia. }
  destruct R as [R1 R2 R3 R4]. split; [| |done|].
  - intros b n. rewrite lookup_insert_Some. intros [[_ <-]|[_ ?]]; [done|by apply (R1 b)].
  - intros t Ht. destruct (R2 t Ht) as (h & Hh & Hc). exists h. split; [done|]. eapply chain_frame; [exact Hc|].
    intros p n Hin Hp. exists n. split; [|done]. rewrite lookup_insert_ne; [done|]. intros E. assert (p = a) as -> by lia. by apply (Hn t).
  - intros t p n Ht. rewrite lookup_insert_Some. intros [[E <-]|[_ ?]]; [|by apply R4].
    assert (p = a) as -> by lia. rewrite bool_decide_false by (by apply Hn). by apply lookup_replicate_2.
Qed.

Lemma vinv_add_node vd ns L V a : vinv vd ns L V -> (forall t, ~ listed L t a) -> vinv (add_node vd a) ns L V.
Proof. intros [] Ha. split; try done. by apply rep_add_node. Qed.

Definition new_metaslab (addr : Z) (smo : space_map_obj) (start size shift : Z) : metaslab :=
  let zeroes := replicate (Z.to_nat TXG_SIZE) zero_map in
  Metaslab addr (Smo 0 0 0) smo zeroes zeroes (space_map_create start size shift) 0.

(** A metaslab of a pool that is opened or created is ready at once; one that is
    added to a pool waits, on the list of the group before, for its first
    [metaslab_sync_done]. *)
Lemma metaslab_init_spec T vd os smo start size txg addr last s ns L V :
  openable vd os smo (space_map_create start size (vdev_ashift vd)) s -> vinv vd ns L V ->
  ~ In start (map mn_start ns) -> (forall t, ~ listed L t addr) ->
  (txg <> 0 -> TXG_CLEAN txg = last) ->
  exists vd' m' L' V', metaslab_init vd smo start size txg addr last = Ok (vd', m') /\
    vinv vd' (node_of m' :: ns) L' V' /\ vd_ext vd vd' /\ has_node vd' m' /\ ms_addr m' = addr /\
    (txg <= TXG_INITIAL -> minv T vd' os m' s /\ ms_smo m' = smo /\ ms_smo_syncing m' = smo /\
       compatible (space_map_create start size (vdev_ashift vd)) (ms_map m') /\
       vs_alloc (vd_stat vd') = u64 (vs_alloc (vd_stat vd) + smo_alloc smo) /\ vs_space (vd_stat vd') = u64 (vs_space (vd_stat vd) + size)) /\
    (TXG_INITIAL < txg -> m' = new_metaslab addr smo start size (vdev_ashift vd) /\ vd_stat vd' = vd_stat vd) /\
    (if txg =? 0 then L' = L /\ V' = V
     else L' = push L (TXG_CLEAN txg) addr /\ V' = push (push V txg (vdev_addr vd)) (TXG_CLEAN txg) (vdev_addr vd)).
Proof.
  intros Hop Hv0 Hns Hnone Hlast. unfold metaslab_init, metaslab_group_add. pose proof (vinv_add_node _ _ _ _ _ Hv0 Hnone) as Hv.
  assert (is_Some (ms_txg_nodes (add_node vd addr) !! (addr + tl_offset (vdev_ms_list (add_node vd addr))))) as Hnode.
  { exists zero_node. apply lookup_insert_eq. }
  change (vdev_ashift vd) with (vdev_ashift (add_node vd addr)) in *. change (vd_stat vd) with (vd_stat (add_node vd addr)) in *.
  change (vdev_addr vd) with (vdev_addr (add_node vd addr)) in *.
  assert (openable (add_node vd addr) os smo (space_map_create start size (vdev_ashift (add_node vd addr))) s) as Hop'.
  { destruct Hop as [[] ]. by split; [split|..]. }
  clear Hop. rename Hop' into Hop.
  assert (vd_ext vd (add_node vd addr)) as He0 by (split; try done; cbn; set_solver).
  set (vd0 := add_node vd addr) in *. clearbody vd0. clear Hv0 Hnone.
  fold (new_metaslab addr smo start size (vdev_ashift vd0)).
  set (m := new_metaslab addr smo start size (vdev_ashift vd0)). change (set_weight m 0) with m.
  destruct (tree_add_spec _ (node_of m) ns (vinv_tree _ _ _ _ Hv)) as (t & -> & Ht); [by apply start_fresh|]. run.
  set (vd1 := set_tree vd0 t). assert (vd_ext vd0 vd1) as He1 by (by split).
  assert (vinv vd1 (node_of m :: ns) L V) as Hv1.
  { eapply vinv_set_tree; [done|done|]. constructor; [exact Hns|apply Hv]. }
  assert (exists vd2 m2, (if txg <=? TXG_INITIAL then metaslab_sync_done vd1 m 0 else Ok (vd1, m)) = Ok (vd2, m2) /\
    vinv vd2 (node_of m2 :: ns) L V /\ vd_ext vd0 vd2 /\ ms_addr m2 = addr /\
    (txg <= TXG_INITIAL -> minv T vd2 os m2 s /\ ms_smo m2 = smo /\ ms_smo_syncing m2 = smo /\
       compatible (space_map_create start size (vdev_ashift vd0)) (ms_map m2) /\
       vs_alloc (vd_stat vd2) = u64 (vs_alloc (vd_stat vd0) + smo_alloc smo) /\ vs_space (vd_stat vd2) = u64 (vs_space (vd_stat vd0) + size)) /\
    (TXG_INITIAL < txg -> m2 = m /\ vd_stat vd2 = vd_stat vd0)) as (vd2 & m2 & -> & Hv2 & He2 & Ha2 & Hn2 & Hl2).
  { destruct (Z.leb_spec txg TXG_INITIAL) as [Hle|Hgt].
    - destruct (sync_done_new T vd1 os smo addr start size (vdev_ashift vd0) s ns L V 0) as (vd2 & m2 & E & I & Hv2 & He2 & A & S & Ea & Es & Es' & Hc); try done.
      { destruct Hop as [[] ]. by split; [split|..]. }
      exists vd2, m2. split; [exact E|]. split_and!; try done; [by eapply vd_ext_trans|]. intros. lia.
    - exists vd1, m. split_and!; try done. intros. lia. }
  run. assert (has_node vd2 m2) as Hn by (eapply vd_ext_node; [exact He2|]; unfold has_node; by rewrite Ha2).
  pose proof (vd_ext_trans _ _ _ He0 He2) as He02. destruct (Z.eqb_spec txg 0) as [->|Hne]; cbn [negb].
  { exists vd2, m2, L, V. do 5 (split; [done|]). by split; [|split]. }
  rewrite (Hlast Hne), Z.eqb_refl. cbn [verify]. run.
  destruct (vdev_dirty_none_spec vd2 txg _ L V Hv2) as (vd3 & -> & He3 & Hv3 & Hs3%stats_own). run.
  destruct (vdev_dirty_spec vd3 m2 last _ L _ Hv3) as (vd4 & -> & He4 & Hv4 & Hs4%stats_own).
  { by eapply vd_ext_node. }
  run. pose proof (vd_ext_trans _ _ _ He02 (vd_ext_trans _ _ _ He3 He4)) as He. rewrite (e_addr _ _ He3), (e_addr _ _ He2), Ha2 in Hv4.
  eexists vd4, m2, _, _. split; [done|]. split; [exact Hv4|]. split_and!; try done.
  - eapply vd_ext_node; [exact He4|]. by eapply vd_ext_node.
  - intros Hle. destruct (Hn2 Hle) as (I & ? & ? & ? & ? & ?). rewrite Hs4, Hs3. split_and!; try done. eapply minv_ext; [|exact I]. by eapply vd_ext_trans.
  - intros Hlt. rewrite Hs4, Hs3. by apply Hl2.
Qed.

(** ** Statuses up to pointwise equality *)

Lemma minv_status T vd os m s s' : (forall x, s x = s' x) -> minv T vd os m s -> minv T vd os m s'.
Proof.
  intros E []. split; try done.
  - intros t a Ht Ha. eapply holds_ext; [by eapply i_alloc0|]. intros x. cbn. by rewrite E.
  - intros t a Ht Ha. eapply holds_ext; [by eapply i_free0|]. intros x. cbn. by rewrite E.
  - intros x. rewrite <- E. apply i_out0.
  - intros x. rewrite <- E. apply i_status0.
  - intros Hl. destruct (i_loaded0 Hl) as (H1 & H2 & H3). split_and!; [|done|done]. eapply holds_ext; [exact H1|]. intros x. cbn. by rewrite E.
  - intros Hl. destruct (i_unloaded0 Hl) as (H1 & H2 & H3 & H4 & H5 & H6). split_and!; try done.
    + intros x. rewrite <- E. apply H4.
    + eapply (log_ext _ _ (ms_map m)); [by split_and!|exact H5|]. intros x. cbn. by rewrite E.
  - eapply (log_ext _ _ (ms_map m)); [by split_and!|exact i_log0|]. intros x. cbn. by rewrite E.
  - destruct i_weight0 as (W1 & W2 & W3). split_and!; [apply W1|apply W1|done|]. intros Ha. destruct (W3 Ha) as [Hl [Hw|Hw]]; (split; [done|]); [by left|right].
    intros x. rewrite <- E. apply Hw.
Qed.

Lemma dirty_status T vd L V m s s' : (forall x, s x = s' x) -> dirty_ok T vd L V m s -> dirty_ok T vd L V m s'.
Proof. intros E [D1 D2]. split; intros x; rewrite <- E; [apply D1|apply D2]. Qed.

#[global] Instance minv_proper T vd os m : Proper (pointwise_relation Z eq ==> iff) (minv T vd os m).
Proof. intros s s' E. split; apply minv_status; intros x; by rewrite (E x). Qed.
#[global] Instance dirty_proper T vd L V m : Proper (pointwise_relation Z eq ==> iff) (dirty_ok T vd L V m).
Proof. intros s s' E. split; apply dirty_status; intros x; by rewrite (E x). Qed.

(** A metaslab on no list of the group that is done goes to the next as it is. *)
Lemma minv_skip T vd os m s :
  minv T vd os m s -> (forall x, ~ born_in (s x) T /\ ~ freed_in (s x) T /\ s x <> Dying) -> minv (T + 1) vd os m s.
Proof.
  intros I Hq. assert (forall x, status_ok T (s x)) as Hst by apply I. destruct I. split; try done.
  - intros t a Ht Ha. destruct (decide (t = T + 3)) as [->|Hne].
    + rewrite slot_next in Ha. eapply holds_ext; [eapply i_alloc0; [|exact Ha]; lia|]. intros x. cbn. specialize (Hst x).
      destruct (s x) as [|? []|[]|]; cbn in *; lia.
    + eapply holds_ext; [eapply i_alloc0; [|exact Ha]; lia|]. intros x. cbn. specialize (Hq x). destruct (s x) as [|? ?|?|]; cbn in *; lia.
  - intros t a Ht Ha. destruct (decide (t = T + 3)) as [->|Hne].
    + rewrite slot_next in Ha. eapply holds_ext; [eapply i_free0; [|exact Ha]; lia|]. intros x. cbn beta.
      rewrite (proj2 (Z.leb_gt T (T - 1))), (proj2 (Z.leb_le (T + 1) (T + 3))) by lia. specialize (Hst x). specialize (Hq x).
      destruct (s x) as [|? []|[]|]; cbn in *; naive_solver lia.
    + eapply holds_ext; [eapply i_free0; [|exact Ha]; lia|]. intros x. cbn beta. rewrite (proj2 (Z.leb_le T t)) by lia. specialize (Hq x).
      destruct (Z.leb_spec (T + 1) t); [done|]. assert (t = T) as -> by lia. naive_solver.
  - intros x. specialize (Hst x). specialize (Hq x). destruct (s x) as [|? []|[]|]; cbn in *; try done; naive_solver lia.
Qed.
End Ops.
End MetaslabTxg.
