(* ===== verification/MetaslabGroup.v ===== *)
(** * The metaslabs of a top-level vdev: metaslab groups and their part of vdev.c

    A top-level vdev is cut into metaslabs of equal size ([vdev_ms], here a list by
    index); its metaslab group keeps them in a tree by weight.  This file models
    the choice of a metaslab and the loop of [metaslab_group_alloc], the loops of
    [vdev_sync] and [vdev_sync_done] over the lists of dirty metaslabs, and
    [vdev_metaslab_init], which finds the logs of the metaslabs when a pool is
    opened.

    [ginv] is the invariant of a vdev: one status ([MetaslabTxg.status]) for each of
    its offsets says what the maps, the logs and the lists of all its metaslabs
    hold. *)

From Stdlib Require Import List Permutation Sorted.
From stdpp Require Import base option numbers list gmap.
From S2P Require Import Prelude Bits OrdTree Avl SpaceMap SpaceMapDisk Mos Metaslab Blkptr Txg MetaslabTxg.
Import SpaceMap SpaceMapDisk Metaslab Blkptr Txg MetaslabTxg.
Local Open Scope Z_scope.

Module MetaslabGroup.
Section Group.
Context {OT : OrdTree space_seg} {OM : OrdTree mnode} {DM : Mos}.
Variable zfs_recover : bool.

(** The index in [vdev_ms] of the metaslab an offset is in. *)
Definition ms_slot (vd : vdev) (offset : Z) : nat := Z.to_nat (Z.shiftr offset (vdev_ms_shift vd)).

(** ** Allocation from a group *)

Definition metaslab_distance (vd : vdev) (m : metaslab) (d : dva) : Z :=
  let ms_shift := vdev_ms_shift vd in
  let offset := Z.shiftr (DVA_GET_OFFSET d) ms_shift in
  let start := Z.shiftr (sm_start (ms_map m)) ms_shift in
  if negb (vdev_id vd =? DVA_GET_VDEV d) then Z.shiftl 1 63
  else if offset <? start then u64 (Z.shiftl (start - offset) ms_shift)
  else if start <? offset then u64 (Z.shiftl (offset - start) ms_shift)
  else 0.

(** The body of the loop over the tree; [dvas] are the first [d] of the block's.
    [None] is the return of -1. *)
Definition choose_round (vd : vdev) (ms : list metaslab) (size activation_weight min_distance : Z) (dvas : list dva)
    (n : option mnode) : outcome (option mnode + option metaslab) :=
  match n with
  | None => Ok (inr None)
  | Some n =>
      m ← get ms (ms_slot vd (mn_start n));
      if ms_weight m <? size then Ok (inr None)
      else if activation_weight =? METASLAB_WEIGHT_PRIMARY then Ok (inr (Some m))
      else
        let target_distance :=
          u64 (min_distance + (if negb (smo_alloc (ms_smo m) =? 0) then 0 else Z.shiftr min_distance 1)) in
        if existsb (fun d => metaslab_distance vd m d <? target_distance) dvas
        then Ok (inl (ot_walk (mg_metaslab_tree vd) n true))
        else Ok (inr (Some m))
  end.

Definition activation (vd : vdev) (dvas : list dva) : Z :=
  if existsb (fun d => DVA_GET_VDEV d =? vdev_id vd) dvas
  then METASLAB_WEIGHT_SECONDARY else METASLAB_WEIGHT_PRIMARY.

(** The body of the outer loop. *)
Definition group_alloc_round (os : objset) (size txg min_distance : Z) (dvas : list dva) (st : vdev * list metaslab)
    : outcome (vdev * list metaslab + vdev * list metaslab * Z) :=
  let '(vd, ms) := st in
  let activation_weight := activation vd dvas in
  r ← iter (S (length ms)) (choose_round vd ms size activation_weight min_distance dvas) (ot_first (mg_metaslab_tree vd));
  match r with
  | None => Ok (inr (vd, ms, 2 ^ 64 - 1))
  | Some m =>
      '(vd, m, a) ← alloc_locked zfs_recover vd os m size txg activation_weight;
      ms ← put ms (ms_slot vd (sm_start (ms_map m))) m;
      match a with
      | Again => Ok (inl (vd, ms))
      | Found offset => Ok (inr (vd, ms, offset))
      end
  end.

(** An attempt that fails lowers the weight of its metaslab; at most two fail on
    each. *)
Definition metaslab_group_alloc (vd : vdev) (ms : list metaslab) (os : objset) (size txg min_distance : Z)
    (dvas : list dva) : outcome (vdev * list metaslab * Z) :=
  iter (S (2 * length ms)) (group_alloc_round os size txg min_distance dvas) (vd, ms).

(** ** The loops of [vdev_sync] and [vdev_sync_done] *)

(** The metaslab at an address. *)
Definition by_addr (ms : list metaslab) (p : Z) : outcome (nat * metaslab) :=
  match list_find (fun m => ms_addr m = p) ms with Some r => Ok r | None => Err Fault end.

Definition set_ms_list (vd : vdev) (ml : txg_list) (nodes : store) : vdev :=
  set_lists vd ml nodes (spa_vdev_txg_list vd) (vdev_txg_nodes vd).
Definition set_ms_array (vd : vdev) (obj : Z) (dirty : bool) : vdev :=
  Vdev (vdev_addr vd) (vdev_id vd) (vdev_ashift vd) (vdev_asize vd) (vdev_ms_shift vd) (vdev_ms_count vd)
    obj (vdev_deflate_ratio vd) (vd_stat vd) (rvd_stat vd) (mg_normal vd) (mg_metaslab_tree vd)
    (vdev_ms_list vd) (ms_txg_nodes vd) (spa_vdev_txg_list vd) (vdev_txg_nodes vd) dirty.

(** [vdev_config_dirty] of a top-level vdev enters it on the list unless it is there. *)
Definition vdev_config_dirty (vd : vdev) : vdev := set_ms_array vd (vdev_ms_array vd) true.

(** [while ((msp = txg_list_remove(&vd->vdev_ms_list, txg)) != NULL)
       { metaslab_sync(msp, txg); txg_list_add(&vd->vdev_ms_list, msp, TXG_CLEAN(txg)); }] *)
Definition sync_round (txg syncpass : Z) (st : vdev * objset * list metaslab)
    : outcome (vdev * objset * list metaslab + vdev * objset * list metaslab) :=
  let '(vd, os, ms) := st in
  '(ml, nodes, p) ← txg_list_remove (vdev_ms_list vd) (ms_txg_nodes vd) txg;
  let vd := set_ms_list vd ml nodes in
  match p with
  | None => Ok (inr (vd, os, ms))
  | Some p =>
      '(i, m) ← by_addr ms p;
      '(os, m) ← metaslab_sync zfs_recover vd os m txg syncpass;
      '(ml, nodes, _) ← txg_list_add (vdev_ms_list vd) (ms_txg_nodes vd) p (TXG_CLEAN txg);
      Ok (inl (set_ms_list vd ml nodes, os, <[i := m]> ms))
  end.

(** The object of the array, made when there is none. *)
Definition sync_array (vd : vdev) (os : objset) : outcome (vdev * objset) :=
  if (vdev_ms_array vd =? 0) && negb (vdev_ms_shift vd =? 0) then
    let '(obj, os) := dmu_object_alloc os 0 in
    _ ← verify (negb (obj =? 0));
    Ok (vdev_config_dirty (set_ms_array vd obj (vdev_dirty_node vd)), os)
  else Ok (vd, os).

(** [vdev_sync] of a vdev none of whose leaves has a dirty time log to write: the
    loop over [vdev_dtl_list] finds nothing. *)
Definition vdev_sync (vd : vdev) (os : objset) (ms : list metaslab) (txg syncpass : Z)
    : outcome (vdev * objset * list metaslab) :=
  '(vd, os) ← sync_array vd os;
  '(vd, os, ms) ← iter (S (length ms)) (sync_round txg syncpass) (vd, os, ms);
  '(vl, nodes, _) ← txg_list_add (spa_vdev_txg_list vd) (vdev_txg_nodes vd) (vdev_addr vd) (TXG_CLEAN txg);
  Ok (set_lists vd (vdev_ms_list vd) (ms_txg_nodes vd) vl nodes, os, ms).

Definition sync_done_round (txg : Z) (st : vdev * list metaslab)
    : outcome (vdev * list metaslab + vdev * list metaslab) :=
  let '(vd, ms) := st in
  '(ml, nodes, p) ← txg_list_remove (vdev_ms_list vd) (ms_txg_nodes vd) (TXG_CLEAN txg);
  let vd := set_ms_list vd ml nodes in
  match p with
  | None => Ok (inr (vd, ms))
  | Some p =>
      '(i, m) ← by_addr ms p;
      '(vd, m) ← metaslab_sync_done zfs_recover vd m txg;
      Ok (inl (vd, <[i := m]> ms))
  end.

Definition vdev_sync_done (vd : vdev) (ms : list metaslab) (txg : Z) : outcome (vdev * list metaslab) :=
  iter (S (length ms)) (sync_done_round txg) (vd, ms).

(** ** Opening the metaslabs of a vdev *)

(** The header of the log of metaslab [m], from the array and the bonus buffer;
    [None] when the DMU reports an error. *)
Definition read_smo (vd : vdev) (os : objset) (m txg : Z) : outcome (option space_map_obj) :=
  if txg =? 0 then
    match dmu_read os (vdev_ms_array vd) (m * 8) 8 with
    | Some [object] =>
        if negb (object =? 0) then
          match dmu_bonus os object with
          | None => Ok None
          | Some db_data =>
              _ ← verify (24 <=? 8 * zlen db_data);
              match db_data with
              | o :: objsize :: alloc :: _ => _ ← verify (o =? object); Ok (Some (Smo o objsize alloc))
              | _ => Err Fault
              end
          end
        else Ok (Some (Smo 0 0 0))
    | _ => Ok None
    end
  else Ok (Some (Smo 0 0 0)).

(** [addr m] is where [kmem_zalloc] puts metaslab [m]; the result says whether all
    logs were found. *)
Fixpoint init_loop (n : nat) (m : Z) (vd : vdev) (ms : list metaslab) (os : objset) (txg last_synced : Z) (addr : Z -> Z)
    : outcome (vdev * list metaslab * bool) :=
  match n with
  | O => Ok (vd, ms, true)
  | S n' =>
      smo ← read_smo vd os m txg;
      match smo with
      | None => Ok (vd, ms, false)
      | Some smo =>
          '(vd, msp) ← metaslab_init zfs_recover vd smo (u64 (Z.shiftl m (vdev_ms_shift vd))) (u64 (Z.shiftl 1 (vdev_ms_shift vd)))
                         txg (addr m) last_synced;
          init_loop n' (m + 1) vd (ms ++ [msp]) os txg last_synced addr
      end
  end.

Definition set_ms_count (vd : vdev) (c : Z) : vdev :=
  Vdev (vdev_addr vd) (vdev_id vd) (vdev_ashift vd) (vdev_asize vd) (vdev_ms_shift vd) c
    (vdev_ms_array vd) (vdev_deflate_ratio vd) (vd_stat vd) (rvd_stat vd) (mg_normal vd) (mg_metaslab_tree vd)
    (vdev_ms_list vd) (ms_txg_nodes vd) (spa_vdev_txg_list vd) (vdev_txg_nodes vd) (vdev_dirty_node vd).

(** The group is part of the vdev here; it is made when it is not there. *)
Definition vdev_metaslab_init (vd : vdev) (ms : list metaslab) (os : objset) (txg last_synced : Z) (addr : Z -> Z)
    : outcome (vdev * list metaslab * bool) :=
  let oldc := vdev_ms_count vd in
  let newc := Z.shiftr (vdev_asize vd) (vdev_ms_shift vd) in
  if vdev_ms_shift vd =? 0 then Ok (vd, ms, true)
  else
    _ ← verify (oldc <=? newc);
    init_loop (Z.to_nat (newc - oldc)) oldc (set_ms_count vd newc) ms os txg last_synced addr.

(** ** The invariant of a vdev *)

(** The statuses of the offsets of metaslab [i]. *)
Definition inside (vd : vdev) (i : nat) (x : Z) : Prop :=
  Z.of_nat i * 2 ^ vdev_ms_shift vd <= x < (Z.of_nat i + 1) * 2 ^ vdev_ms_shift vd.
#[global] Instance inside_dec vd i x : Decision (inside vd i x).
Proof. unfold inside. apply _. Defined.
Definition clip (vd : vdev) (i : nat) (S : Z -> status) (x : Z) : status :=
  if decide (inside vd i x) then S x else Free.

(** A metaslab in its place. *)
Record slab (T : Z) (vd : vdev) (os : objset) (L V : nat -> list Z) (S : Z -> status) (i : nat) (m : metaslab) : Prop := {
  sl_start : sm_start (ms_map m) = Z.of_nat i * 2 ^ vdev_ms_shift vd;
  sl_shift : sm_shift (ms_map m) = vdev_ashift vd;
  sl_minv : minv T vd os m (clip vd i S);
  sl_node : has_node vd m;
  sl_dirty : dirty_ok T vd L V m (clip vd i S)
}.

(** What is allocated on disk according to the logs of the metaslabs. *)
Definition total_alloc (ms : list metaslab) : Z := foldr (fun m a => smo_alloc (ms_smo m) + a) 0 ms.

(** The metaslabs as a whole: their tree and lists, that they share nothing, and
    that the vdev's counter of allocated space counts theirs. *)
Record gcore (vd : vdev) (os : objset) (ms : list metaslab) (L V : nat -> list Z) : Prop := {
  c_count : zlen ms = vdev_ms_count vd;
  c_vinv : vinv vd (map node_of ms) L V;
  c_addr i j m m' : ms !! i = Some m -> ms !! j = Some m' -> ms_addr m = ms_addr m' -> i = j;
  c_objs i j m m' : ms !! i = Some m -> ms !! j = Some m' ->
    smo_object (ms_smo_syncing m) = smo_object (ms_smo_syncing m') -> smo_object (ms_smo_syncing m) <> 0 -> i = j;
  c_array : vdev_ms_array vd <> 0 -> dmu_exists os (vdev_ms_array vd);
  c_noarray i m : vdev_ms_array vd = 0 -> ms !! i = Some m -> smo_object (ms_smo_syncing m) = 0;
  c_listed t p : listed L t p -> exists i m, ms !! i = Some m /\ ms_addr m = p;
  c_alloc : vs_alloc (vd_stat vd) = u64 (total_alloc ms)
}.

(** [W] says for which groups the vdev itself is known to be dirty: the list [V] of
    dirty vdevs, but while the vdev is taken off that list to be synced. *)
Record ginv_at (T : Z) (vd : vdev) (os : objset) (ms : list metaslab) (S : Z -> status) (L V W : nat -> list Z) : Prop := {
  g_core : gcore vd os ms L V;
  g_slab i m : ms !! i = Some m -> slab T vd os L W S i m;
  g_out x : ~ 0 <= x < vdev_ms_count vd * 2 ^ vdev_ms_shift vd -> S x = Free
}.
Abbreviation ginv T vd os ms S L V := (ginv_at T vd os ms S L V V).

(** ** One metaslab changes *)

Lemma clip_in vd i S x : inside vd i x -> clip vd i S x = S x.
Proof. intros H. unfold clip. by rewrite decide_True. Qed.
Lemma clip_out vd i S x : ~ inside vd i x -> clip vd i S x = Free.
Proof. intros H. unfold clip. by rewrite decide_False. Qed.

Lemma inside_unique vd i j x : 0 <= vdev_ms_shift vd -> inside vd i x -> inside vd j x -> i = j.
Proof. intros Hs. unfold inside. pose proof (Z.pow_pos_nonneg 2 (vdev_ms_shift vd)). nia. Qed.

Lemma inside_ext vd vd' i x : vd_ext vd vd' -> inside vd' i x <-> inside vd i x.
Proof. intros E. unfold inside. by rewrite (e_ms_shift _ _ E). Qed.
Lemma clip_ext vd vd' i S x : vd_ext vd vd' -> clip vd' i S x = clip vd i S x.
Proof. intros E. unfold clip. destruct (decide (inside vd i x)) as [H|H]; [rewrite decide_True|rewrite decide_False]; try done; by rewrite inside_ext. Qed.

Lemma slab_region T vd os L V S i m x : slab T vd os L V S i m -> in_region m x <-> inside vd i x.
Proof.
  intros H. unfold in_region, inside, sm_end. rewrite (sl_start _ _ _ _ _ _ _ _ H). destruct (i_geom _ _ _ _ _ (sl_minv _ _ _ _ _ _ _ _ H)) as [_ -> _ _ _].
  rewrite Z.mul_add_distr_r. lia.
Qed.

Lemma slot_of_start vd i : 0 <= vdev_ms_shift vd -> ms_slot vd (Z.of_nat i * 2 ^ vdev_ms_shift vd) = i.
Proof. intros H. unfold ms_slot. rewrite Z.shiftr_div_pow2, Z.div_mul by lia. lia. Qed.

Lemma slot_inside vd i x : 0 <= vdev_ms_shift vd -> 0 <= x -> ms_slot vd x = i <-> inside vd i x.
Proof.
  intros H Hx. unfold ms_slot, inside. rewrite Z.shiftr_div_pow2 by done. pose proof (Z.pow_pos_nonneg 2 (vdev_ms_shift vd)).
  pose proof (Z.div_pos x (2 ^ vdev_ms_shift vd)). Z.to_euclidean_division_equations; nia.
Qed.

Lemma g_vinv T vd os ms S L V W : ginv_at T vd os ms S L V W -> vinv vd (map node_of ms) L V.
Proof. intros []. apply g_core0. Qed.
Lemma g_count T vd os ms S L V W : ginv_at T vd os ms S L V W -> zlen ms = vdev_ms_count vd.
Proof. intros []. apply g_core0. Qed.

Lemma ginv_shift T vd os ms S L V W i m : ginv_at T vd os ms S L V W -> ms !! i = Some m -> 9 <= vdev_ms_shift vd.
Proof. intros G Hi. destruct (i_geom _ _ _ _ _ (sl_minv _ _ _ _ _ _ _ _ (g_slab _ _ _ _ _ _ _ _ G i m Hi))). lia. Qed.

Lemma vinv_perm vd ns ns' L V : Permutation ns ns' -> vinv vd ns L V -> vinv vd ns' L V.
Proof.
  intros P []. split; try done; [by etransitivity|]. eapply Permutation_NoDup; [|exact v_starts0]. by apply Permutation_map.
Qed.

Lemma nodes_split (ms : list metaslab) i m : ms !! i = Some m -> Permutation (map node_of ms) (node_of m :: map node_of (delete i ms)).
Proof. intros H. change (node_of m :: map node_of (delete i ms)) with (map node_of (m :: delete i ms)). by apply Permutation_map, delete_Permutation. Qed.

Lemma delete_replaced {A} (l : list A) i x : delete i (<[i := x]> l) = delete i l.
Proof. revert i. induction l as [|y l IH]; intros [|i]; cbn; try done. f_equal. apply IH. Qed.

Lemma nodes_join (ms : list metaslab) i m m' : ms !! i = Some m -> Permutation (node_of m' :: map node_of (delete i ms)) (map node_of (<[i := m']> ms)).
Proof.
  intros H. assert (<[i := m']> ms !! i = Some m') as H' by (apply list_lookup_insert_eq; by eapply lookup_lt_Some).
  rewrite (nodes_split _ _ _ H'). f_equiv. by rewrite delete_replaced.
Qed.

(** Other metaslabs keep their place when lists grow. *)
Lemma dirty_mono T vd vd' L V L' V' m s :
  dirty_ok T vd L V m s -> vdev_addr vd' = vdev_addr vd ->
  (forall u, listed L u (ms_addr m) -> listed L' u (ms_addr m)) ->
  (forall u, listed V u (vdev_addr vd) -> listed V' u (vdev_addr vd)) -> dirty_ok T vd' L' V' m s.
Proof. intros [D1 D2] E HL HV. split; [intros x t H; destruct (D1 x t H); rewrite E; auto|eauto]. Qed.

Lemma slab_other T vd vd' os L V L' V' S S' i m :
  slab T vd os L V S i m -> vd_ext vd vd' ->
  (forall u, listed L u (ms_addr m) -> listed L' u (ms_addr m)) ->
  (forall u, listed V u (vdev_addr vd) -> listed V' u (vdev_addr vd)) ->
  (forall x, inside vd i x -> S' x = S x) -> slab T vd' os L' V' S' i m.
Proof.
  intros [] E HL HV HS. assert (forall x, clip vd i S x = clip vd' i S' x) as HC.
  { intros x. rewrite (clip_ext vd vd') by done. unfold clip. case_decide; [|done]. by rewrite HS. }
  split.
  - by rewrite (e_ms_shift _ _ E).
  - by rewrite (e_ashift _ _ E).
  - eapply minv_status; [exact HC|]. by eapply minv_ext.
  - by eapply vd_ext_node.
  - eapply dirty_status; [exact HC|]. eapply dirty_mono; [done|apply E|done|done].
Qed.

Lemma insert_cases {A} (l : list A) i x j y : <[i := x]> l !! j = Some y -> (j = i /\ y = x) \/ (j <> i /\ l !! j = Some y).
Proof. intros Hj. apply list_lookup_insert_Some in Hj as [(-> & -> & _)|[? ?]]; [by left|by right]. Qed.

(** No other metaslab logs to the object [obj]. *)
Definition unshared (ms : list metaslab) (i : nat) (obj : Z) : Prop :=
  forall j n, ms !! j = Some n -> j <> i -> smo_object (ms_smo_syncing n) = 0 \/ smo_object (ms_smo_syncing n) <> obj.

Lemma core_unshared vd os ms L V i m : gcore vd os ms L V -> ms !! i = Some m -> unshared ms i (smo_object (ms_smo_syncing m)).
Proof.
  intros C Hi j n Hj Hne. destruct (decide (smo_object (ms_smo_syncing n) = 0)) as [|Hn]; [by left|right]. intros E.
  apply Hne. by eapply (c_objs _ _ _ _ _ C).
Qed.

Lemma total_insert ms i m m' : ms !! i = Some m ->
  total_alloc (<[i := m']> ms) = total_alloc ms + (smo_alloc (ms_smo m') - smo_alloc (ms_smo m)).
Proof.
  unfold total_alloc. revert i. induction ms as [|n ms IH]; intros [|i] Hi; cbn in *; try done; [injection Hi as ->; lia|].
  rewrite IH by done. lia.
Qed.

Lemma core_update vd os ms L V i m vd' os' m' L' V' :
  gcore vd os ms L V -> ms !! i = Some m -> vd_ext vd vd' -> vinv vd' (node_of m' :: map node_of (delete i ms)) L' V' ->
  ms_addr m' = ms_addr m -> unshared ms i (smo_object (ms_smo_syncing m')) ->
  (vdev_ms_array vd = 0 -> smo_object (ms_smo_syncing m') = 0) -> (vdev_ms_array vd <> 0 -> dmu_exists os' (vdev_ms_array vd)) ->
  (forall t q, listed L' t q -> listed L t q \/ q = ms_addr m) ->
  (vd_stat vd' = vd_stat vd /\ ms_smo m' = ms_smo m \/
   vs_alloc (vd_stat vd') = u64 (vs_alloc (vd_stat vd) + (smo_alloc (ms_smo m') - smo_alloc (ms_smo m)))) ->
  gcore vd' os' (<[i := m']> ms) L' V'.
Proof.
  intros C Hi He Hv Ea Hun Ha0 Ha HL Hst. pose proof (lookup_lt_Some _ _ _ Hi) as Hlt. split; rewrite ?(e_ms_array _ _ He); try done.
  - rewrite length_insert, (e_ms_count _ _ He). apply C.
  - eapply vinv_perm; [by eapply nodes_join|done].
  - intros j k n n' Hj Hk. destruct (insert_cases _ _ _ _ _ Hj) as [[-> ->]|[Hne Hj']], (insert_cases _ _ _ _ _ Hk) as [[-> ->]|[Hne' Hk']]; rewrite ?Ea;
      try done; intros E; by eapply (c_addr _ _ _ _ _ C).
  - intros j k n n' Hj Hk. destruct (insert_cases _ _ _ _ _ Hj) as [[-> ->]|[Hne Hj']], (insert_cases _ _ _ _ _ Hk) as [[-> ->]|[Hne' Hk']]; try done; intros E1 E2.
    + exfalso. destruct (Hun k n' Hk' Hne'); congruence.
    + exfalso. destruct (Hun j n Hj' Hne); congruence.
    + by eapply (c_objs _ _ _ _ _ C).
  - intros j n E Hj. destruct (insert_cases _ _ _ _ _ Hj) as [[-> ->]|[Hne Hj']]; [auto|by eapply (c_noarray _ _ _ _ _ C)].
  - intros t q Hq. apply HL in Hq as [Hq|Hq].
    + destruct (c_listed _ _ _ _ _ C t q Hq) as (j & n & Hj & Eq). destruct (decide (j = i)) as [->|Hne].
      * exists i, m'. split; [by apply list_lookup_insert_eq|]. congruence.
      * exists j, n. by rewrite list_lookup_insert_ne.
    + exists i, m'. split; [by apply list_lookup_insert_eq|]. congruence.
  - rewrite (total_insert _ _ _ _ Hi). pose proof (c_alloc _ _ _ _ _ C) as Hal. destruct Hst as [[-> ->]| ->].
    + by rewrite Z.sub_diag, Z.add_0_r.
    + rewrite Hal. unfold wrap. by rewrite Z.add_mod_idemp_l.
Qed.

Lemma inside_bounds vd os ms L V i m x : gcore vd os ms L V -> ms !! i = Some m -> 0 <= vdev_ms_shift vd ->
  inside vd i x -> 0 <= x < vdev_ms_count vd * 2 ^ vdev_ms_shift vd.
Proof.
  intros C Hi Hs Hx. pose proof (lookup_lt_Some _ _ _ Hi) as Hlt. pose proof (c_count _ _ _ _ _ C) as Hc. unfold inside in Hx.
  pose proof (Z.pow_pos_nonneg 2 (vdev_ms_shift vd) ltac:(lia) ltac:(lia)). assert (Z.of_nat i + 1 <= vdev_ms_count vd) by lia. nia.
Qed.

Lemma ginv_update T t vd os ms S L V i m vd' L' V' m' s' S' :
  ginv T vd os ms S L V -> ms !! i = Some m ->
  step_ok T t os (map node_of (delete i ms)) vd L V m vd' L' V' m' s' ->
  (forall x, s' x = clip vd i S' x) -> (forall x, ~ inside vd i x -> S' x = S x) ->
  ginv T vd' os (<[i := m']> ms) S' L' V'.
Proof.
  intros G Hi St Hin Hout. pose proof (ginv_shift _ _ _ _ _ _ _ _ _ _ G Hi) as Hsh. pose proof (g_slab _ _ _ _ _ _ _ _ G i m Hi) as Sl.
  pose proof (g_core _ _ _ _ _ _ _ _ G) as C. pose proof St as []. destruct so_smo0 as [Es0 Es]. split.
  - eapply core_update; try done; [|intros E; rewrite Es; by eapply (c_noarray _ _ _ _ _ C)|by apply C| |left; by apply stats_own in so_stat0].
    + rewrite Es. by eapply core_unshared.
    + intros u q Hq. apply so_list0 in Hq. tauto.
  - intros j n Hj. destruct (insert_cases _ _ _ _ _ Hj) as [[-> ->]|[Hne Hj']].
    + split.
      * destruct so_start0 as (C1 & _ & _). rewrite (e_ms_shift _ _ so_ext0). rewrite <- (sl_start _ _ _ _ _ _ _ _ Sl). congruence.
      * destruct so_start0 as (_ & _ & C3). rewrite (e_ashift _ _ so_ext0), <- (sl_shift _ _ _ _ _ _ _ _ Sl). congruence.
      * eapply minv_status; [|exact so_minv0]. intros x. rewrite Hin. symmetry. by apply clip_ext.
      * eapply step_node; [exact St|apply Sl].
      * eapply dirty_status; [|exact so_dirty0]. intros x. rewrite Hin. symmetry. by apply clip_ext.
    + eapply slab_other; [apply (g_slab _ _ _ _ _ _ _ _ G j n Hj')|done|intros u; apply so_list0|intros u; apply so_vlist0|].
      intros x Hx. apply Hout. intros Hx'. apply Hne. eapply inside_unique; [|done|done]. lia.
  - intros x Hx. rewrite (e_ms_count _ _ so_ext0), (e_ms_shift _ _ so_ext0) in Hx. rewrite Hout; [by apply G|]. intros Hin'. apply Hx.
    eapply inside_bounds; [done|done|lia|done].
Qed.

(** ** Allocation *)

Lemma clip_upd vd i S off size f x :
  (forall x, in_range off size x -> inside vd i x) -> upd_range (clip vd i S) off size f x = clip vd i (upd_range S off size f) x.
Proof.
  intros Hr. destruct (in_range_dec off size x) as [Hx|Hx].
  - rewrite upd_in, !clip_in by auto. by rewrite upd_in.
  - rewrite upd_out by done. unfold clip. case_decide; [|done]. by rewrite upd_out.
Qed.

Lemma tree_metaslab T vd os ms S L V n :
  ginv T vd os ms S L V -> In n (ot_elems (mg_metaslab_tree vd)) ->
  exists i m, ms !! i = Some m /\ node_of m = n /\ get ms (ms_slot vd (mn_start n)) = Ok m /\ ms_slot vd (mn_start n) = i.
Proof.
  intros G Hin. pose proof (v_nodes _ _ _ _ (g_vinv _ _ _ _ _ _ _ _ G)) as P. apply (Permutation_in _ P), in_map_iff in Hin as (m & <- & Hm).
  apply list_elem_of_In, list_elem_of_lookup_1 in Hm as [i Hi]. pose proof (ginv_shift _ _ _ _ _ _ _ _ _ _ G Hi).
  assert (ms_slot vd (mn_start (node_of m)) = i) as Es.
  { cbn. rewrite (sl_start _ _ _ _ _ _ _ _ (g_slab _ _ _ _ _ _ _ _ G i m Hi)). apply slot_of_start. lia. }
  exists i, m. split_and!; try done. rewrite Es. by apply get_at.
Qed.

(** The walk over the tree ends, on a metaslab with room or on none. *)
Lemma choose_spec T vd os ms S L V size aw md dvas :
  ginv T vd os ms S L V ->
  exists r, iter (Datatypes.S (length ms)) (choose_round vd ms size aw md dvas) (ot_first (mg_metaslab_tree vd)) = Ok r /\
    (forall m, r = Some m -> size <= ms_weight m /\ exists i, ms !! i = Some m) /\
    (r = None -> aw = METASLAB_WEIGHT_PRIMARY -> forall i m, ms !! i = Some m -> ms_weight m < size).
Proof.
  intros G. pose proof (g_vinv _ _ _ _ _ _ _ _ G) as Hv. pose proof (Avl.Avl.sorted_NoDup metaslab_compare metaslab_compare_opp _ (v_sorted _ _ _ _ Hv)) as Hnd.
  rewrite ot_first_spec. set (l := ot_elems (mg_metaslab_tree vd)) in *.
  assert (length l = length ms) as Hlen by (unfold l; rewrite (Permutation_length (v_nodes _ _ _ _ Hv)); apply length_map).
  enough (forall l2 l1 f, l = l1 ++ l2 -> (length l2 < f)%nat ->
    exists r, iter f (choose_round vd ms size aw md dvas) (head l2) = Ok r /\
      (forall m, r = Some m -> size <= ms_weight m /\ exists i, ms !! i = Some m) /\
      (l1 = [] -> r = None -> aw = METASLAB_WEIGHT_PRIMARY -> forall n, In n l -> mn_weight n < size)) as H.
  { destruct (H l [] (Datatypes.S (length ms)) eq_refl ltac:(lia)) as (r & E & H1 & H2). exists r. split_and!; [done|done|].
    intros Hr Ha i m Hi. apply (H2 eq_refl Hr Ha (node_of m)). apply (Permutation_in _ (Permutation_sym (v_nodes _ _ _ _ Hv))).
    apply in_map, list_elem_of_In. by eapply list_elem_of_lookup_2. }
  induction l2 as [|n l2 IH]; intros l1 f El Hf; (destruct f as [|f]; [cbn in Hf; lia|]); rewrite iter_S; cbn [head choose_round].
  { exists None. split_and!; try done. intros -> _ _ n Hn. rewrite El in Hn. destruct Hn. }
  assert (In n l) as Hin by (rewrite El; apply in_elt). destruct (tree_metaslab _ _ _ _ _ _ _ _ G Hin) as (i & m & Hi & En & -> & _). run.
  destruct (Z.ltb_spec (ms_weight m) size) as [Hlt|Hge].
  { exists None. split_and!; try done. intros -> _ _ n' Hn'. rewrite El in Hn'. cbn in Hn'.
    pose proof (v_sorted _ _ _ _ Hv) as Hs. fold l in Hs. rewrite El in Hs. cbn in Hs. apply StronglySorted_inv in Hs as [_ Hs].
    assert (mn_weight n < size) by (by rewrite <- En). destruct Hn' as [->|Hn']; [done|]. rewrite List.Forall_forall in Hs. apply Hs in Hn'.
    revert Hn'. unfold Avl.Avl.before_cmp, metaslab_compare. repeat case Z.ltb_spec; intros; done || lia. }
  destruct (aw =? METASLAB_WEIGHT_PRIMARY) eqn:Ea.
  { exists (Some m). split_and!; [done| |done]. intros ? [= <-]. eauto. }
  destruct (existsb _ dvas).
  - rewrite El in Hnd. destruct (ot_walk_spec _ _ _ _ El Hnd) as [_ ->]. destruct (IH (l1 ++ [n]) f) as (r & E & H1 & _).
    { by rewrite <- app_assoc. }
    { cbn in Hf. lia. }
    exists r. split_and!; [done|done|]. intros _ _ ->. apply Z.eqb_neq in Ea. done.
  - exists (Some m). split_and!; [done| |done]. intros ? [= <-]. eauto.
Qed.

Definition ranks (size : Z) (ms : list metaslab) : nat := sum_list_with (fun m => rank size (ms_weight m)) ms.

Lemma ranks_insert size ms i m m' :
  ms !! i = Some m -> (ranks size (<[i := m']> ms) + rank size (ms_weight m) = ranks size ms + rank size (ms_weight m'))%nat.
Proof.
  unfold ranks. revert i. induction ms as [|x ms IH]; intros [|i] H; cbn -[rank] in *; try done; [injection H as ->; lia|]. rewrite <- !Nat.add_assoc. f_equal. by apply IH.
Qed.
Lemma ranks_bound size ms : (ranks size ms <= 2 * length ms)%nat.
Proof.
  unfold ranks. induction ms as [|m ms IH]; [cbn; lia|]. cbn [sum_list_with length].
  assert (rank size (ms_weight m) <= 2)%nat by (unfold rank; repeat step_if; lia). lia.
Qed.

(** What an operation on one vdev leaves alone. *)
Record gstep (t : Z) (vd : vdev) (ms : list metaslab) (L V : nat -> list Z)
    (vd' : vdev) (ms' : list metaslab) (L' V' : nat -> list Z) : Prop := {
  gs_ext : vd_ext vd vd';
  gs_stat : stats vd' = stats vd;
  gs_len : length ms' = length ms;
  gs_list u q : slot u <> slot t -> listed L' u q -> listed L u q;
  gs_vlist : grows t V V' (vdev_addr vd)
}.

Lemma gstep_refl t vd ms L V : gstep t vd ms L V vd ms L V.
Proof. split; try done. apply grows_refl. Qed.
Lemma gstep_trans t vd ms L V vd1 ms1 L1 V1 vd2 ms2 L2 V2 :
  gstep t vd ms L V vd1 ms1 L1 V1 -> gstep t vd1 ms1 L1 V1 vd2 ms2 L2 V2 -> gstep t vd ms L V vd2 ms2 L2 V2.
Proof.
  intros [] []. split; try congruence; [by eapply vd_ext_trans|auto|]. rewrite (e_addr _ _ gs_ext0) in gs_vlist1. by eapply grows_trans.
Qed.
Lemma gstep_of T t os ns vd ms L V m vd' L' V' m' s' i :
  step_ok T t os ns vd L V m vd' L' V' m' s' -> gstep t vd ms L V vd' (<[i := m']> ms) L' V'.
Proof.
  intros []. split; try done; [by rewrite length_insert|]. intros u q Hu Hq. apply so_list0 in Hq. tauto.
Qed.

(** A range in one metaslab of the vdev, in whole sectors. *)
Definition block_range (vd : vdev) (off size : Z) : Prop :=
  0 < size /\ off `mod` 2 ^ vdev_ashift vd = 0 /\ size `mod` 2 ^ vdev_ashift vd = 0 /\
  exists i, Z.of_nat i < vdev_ms_count vd /\ forall x, in_range off size x -> inside vd i x.

(** The range of an allocation: free before. *)
Definition fresh_range (vd : vdev) (S : Z -> status) (off size : Z) : Prop :=
  block_range vd off size /\ forall x, in_range off size x -> S x = Free.

Lemma block_range_ok T vd os ms S L V off size :
  ginv T vd os ms S L V -> block_range vd off size ->
  exists i m, ms !! i = Some m /\ range_ok (ms_map m) off size /\ (forall x, in_range off size x -> inside vd i x) /\ ms_slot vd off = i /\
    0 <= off /\ off + size <= 2 ^ 59.
Proof.
  intros G (H0 & H1 & H2 & i & Hi & Hin). rewrite <- (g_count _ _ _ _ _ _ _ _ G) in Hi.
  destruct (lookup_lt_is_Some_2 ms i) as [m Hm]; [lia|]. exists i, m. pose proof (g_slab _ _ _ _ _ _ _ _ G i m Hm) as Sl.
  pose proof (ginv_shift _ _ _ _ _ _ _ _ _ _ G Hm) as Hsh. pose proof (i_geom _ _ _ _ _ (sl_minv _ _ _ _ _ _ _ _ Sl)) as Hg.
  pose proof (geom_bounds _ _ Hg) as (_ & Hst & Hend & _). pose proof (sl_start _ _ _ _ _ _ _ _ Sl) as Es. destruct Hg as [_ Ez _ _ _].
  assert (inside vd i off /\ inside vd i (off + size - 1)) as [A B] by (split; apply Hin; unfold in_range; lia).
  assert (0 <= off) as Hoff by (unfold inside in A; lia).
  split_and!; try done; try (by apply slot_inside; [lia|..]); unfold aligned, sm_end, inside in *; rewrite ?(sl_shift _ _ _ _ _ _ _ _ Sl), ?Ez, ?Es in *; try done; try lia.
  unfold range_ok, aligned, sm_end. rewrite (sl_shift _ _ _ _ _ _ _ _ Sl), Ez, Es. split_and!; done || lia.
Qed.

Lemma block_range_of T vd os ms S L V i m off size :
  ginv T vd os ms S L V -> ms !! i = Some m -> range_ok (ms_map m) off size -> block_range vd off size /\ forall x, in_range off size x -> inside vd i x.
Proof.
  intros G Hi Hr. pose proof (g_slab _ _ _ _ _ _ _ _ G i m Hi) as Sl. pose proof Hr as (R1 & R2 & R3 & R4 & R5). unfold aligned in *.
  rewrite (sl_shift _ _ _ _ _ _ _ _ Sl) in *.
  assert (forall x, in_range off size x -> inside vd i x) as Hin.
  { intros x Hx. rewrite <- (slab_region _ _ _ _ _ _ _ _ _ Sl). eapply range_region; [apply (sl_minv _ _ _ _ _ _ _ _ Sl)|done|done]. }
  split; [|done]. split_and!; try done. exists i. split; [|done]. rewrite <- (g_count _ _ _ _ _ _ _ _ G). pose proof (lookup_lt_Some _ _ _ Hi). lia.
Qed.

(** What an allocation may give: nothing, or a range that was free and is the
    caller's now. *)
Definition alloc_post (T : Z) (os : objset) (vd : vdev) (ms : list metaslab) (S : Z -> status) (L V : nat -> list Z) (size t : Z)
    (vd' : vdev) (ms' : list metaslab) (L' V' : nat -> list Z) (off : Z) : Prop :=
  gstep t vd ms L V vd' ms' L' V' /\
  ((off = 2 ^ 64 - 1 /\ ginv T vd' os ms' S L' V') \/
   (off < 2 ^ 59 /\ fresh_range vd S off size /\ ginv T vd' os ms' (upd_range S off size (fun _ => Born t None)) L' V')).

Lemma activation_bit vd dvas : is_active_bit (activation vd dvas).
Proof. unfold activation. destruct (existsb _ _); [by right|by left]. Qed.

Lemma group_round_spec T vd os ms S L V size t md dvas :
  ginv T vd os ms S L V -> T <= t <= T + 2 -> SPA_MINBLOCKSIZE <= size < 2 ^ 61 -> size `mod` 2 ^ vdev_ashift vd = 0 ->
  exists r L' V', group_alloc_round os size t md dvas (vd, ms) = Ok r /\
    match r with
    | inl (vd', ms') => ginv T vd' os ms' S L' V' /\ gstep t vd ms L V vd' ms' L' V' /\ (ranks size ms' < ranks size ms)%nat
    | inr (vd', ms', off) => alloc_post T os vd ms S L V size t vd' ms' L' V' off
    end.
Proof.
  intros G Ht Hs Hal. unfold group_alloc_round.
  destruct (choose_spec T vd os ms S L V size (activation vd dvas) md dvas G) as (r & -> & Hr & _). run. destruct r as [m|].
  2: { eexists _, L, V. split; [done|]. split; [apply gstep_refl|]. by left. }
  destruct (Hr m eq_refl) as [Hw [i Hi]]. pose proof (g_slab _ _ _ _ _ _ _ _ G i m Hi) as Sl. pose proof (ginv_shift _ _ _ _ _ _ _ _ _ _ G Hi) as Hsh.
  destruct (alloc_locked_spec zfs_recover T vd os m (clip vd i S) size t (activation vd dvas) (map node_of (delete i ms)) L V)
    as (vd' & m' & L' & V' & a & -> & Ha); try done; try apply Sl.
  { eapply vinv_perm; [by apply nodes_split|apply G]. }
  { apply activation_bit. }
  { unfold aligned. by rewrite (sl_shift _ _ _ _ _ _ _ _ Sl). }
  run. assert (forall s', step_ok T t os (map node_of (delete i ms)) vd L V m vd' L' V' m' s' ->
    put ms (ms_slot vd' (sm_start (ms_map m'))) m' = Ok (<[i := m']> ms) /\ gstep t vd ms L V vd' (<[i := m']> ms) L' V') as Hput.
  { intros s' St. split; [|by eapply gstep_of]. destruct St. destruct so_start0 as (C1 & _ & _). unfold ms_slot. rewrite <- C1, (e_ms_shift _ _ so_ext0), (sl_start _ _ _ _ _ _ _ _ Sl).
    fold (ms_slot vd (Z.of_nat i * 2 ^ vdev_ms_shift vd)). rewrite slot_of_start by lia. by destruct (get_at _ _ _ Hi) as [_ ->]. }
  destruct a as [|off]; cbn [attempt_ok] in Ha.
  - destruct Ha as [St Hrk]. destruct (Hput _ St) as [-> Hg]. run. eexists _, L', V'. split; [done|]. split_and!; [|done|].
    + eapply ginv_update; try done.
    + pose proof (ranks_insert size ms i m m' Hi). lia.
  - destruct Ha as (Hr' & Hfree & St). destruct (Hput _ St) as [-> Hg]. run. eexists _, L', V'. split; [done|]. split; [done|]. right.
    destruct (block_range_of _ _ _ _ _ _ _ _ _ _ _ G Hi Hr') as [Hbr Hins].
    split_and!.
    + pose proof (geom_bounds _ _ (i_geom _ _ _ _ _ (sl_minv _ _ _ _ _ _ _ _ Sl))) as (_ & _ & Hend & _). destruct Hr' as (R1 & R2 & R3 & _). unfold sm_end in *. lia.
    + split; [done|]. intros x Hx. specialize (Hfree x Hx). rewrite clip_in in Hfree; auto.
    + eapply ginv_update; try done.
      * intros x. by apply clip_upd.
      * intros x Hx. apply upd_out. auto.
Qed.

Lemma block_range_ext vd vd' off size : vd_ext vd vd' -> block_range vd' off size <-> block_range vd off size.
Proof. intros []. unfold block_range, inside. rewrite e_ashift0, e_ms_count0, e_ms_shift0. done. Qed.

Lemma alloc_post_step T os vd ms S L V size t vd1 ms1 L1 V1 vd2 ms2 L2 V2 off :
  gstep t vd ms L V vd1 ms1 L1 V1 -> alloc_post T os vd1 ms1 S L1 V1 size t vd2 ms2 L2 V2 off -> alloc_post T os vd ms S L V size t vd2 ms2 L2 V2 off.
Proof.
  intros Hg [Hg2 H]. split; [by eapply gstep_trans|]. destruct H as [?|(Ho & [Hr Hf] & G)]; [by left|right].
  split_and!; [done| |done]. split; [|done]. by apply (block_range_ext vd vd1 _ _ (gs_ext _ _ _ _ _ _ _ _ _ Hg)).
Qed.

(** Allocation from a group ends. *)
Lemma group_alloc_spec T vd os ms S L V size t md dvas :
  ginv T vd os ms S L V -> T <= t <= T + 2 -> SPA_MINBLOCKSIZE <= size < 2 ^ 61 -> size `mod` 2 ^ vdev_ashift vd = 0 ->
  exists vd' ms' off L' V', metaslab_group_alloc vd ms os size t md dvas = Ok (vd', ms', off) /\
    alloc_post T os vd ms S L V size t vd' ms' L' V' off.
Proof.
  intros G Ht Hs Hal. unfold metaslab_group_alloc. pose proof (ranks_bound size ms) as Hb.
  assert (ranks size ms < Datatypes.S (2 * length ms))%nat as Hf by lia. clear Hb. revert Hf. generalize (Datatypes.S (2 * length ms)) as f.
  intros f. revert vd ms L V G Hal. induction f as [|f IH]; intros vd ms L V G Hal Hf; [lia|]. rewrite iter_S.
  destruct (group_round_spec T vd os ms S L V size t md dvas G Ht Hs Hal) as (r & L1 & V1 & -> & Hr).
  destruct r as [[vd1 ms1]|[[vd1 ms1] off]]; [|by exists vd1, ms1, off, L1, V1].
  destruct Hr as (G1 & Hg & Hlt). destruct (IH vd1 ms1 L1 V1 G1) as (vd2 & ms2 & off & L2 & V2 & E & Hp).
  - by rewrite (e_ashift _ _ (gs_ext _ _ _ _ _ _ _ _ _ Hg)).
  - lia.
  - exists vd2, ms2, off, L2, V2. split; [done|]. by eapply alloc_post_step.
Qed.

(** ** Freeing and claiming *)

(** The parts of [metaslab_free_dva] and [metaslab_claim_dva] that find the
    metaslab of an offset and work on it. *)
Definition group_free (vd : vdev) (ms : list metaslab) (offset size txg : Z) (now : bool) : outcome (vdev * list metaslab) :=
  m ← get ms (ms_slot vd offset);
  '(vd', m) ← free_locked zfs_recover vd m offset size txg now;
  ms ← put ms (ms_slot vd offset) m;
  Ok (vd', ms).

Definition group_claim (vd : vdev) (os : objset) (ms : list metaslab) (offset size txg : Z) : outcome (vdev * list metaslab) :=
  m ← get ms (ms_slot vd offset);
  '(vd', m) ← claim_locked zfs_recover vd os m offset size txg;
  ms ← put ms (ms_slot vd offset) m;
  Ok (vd', ms).

(** A step of the metaslab of a range is one of the vdev. *)
Lemma range_step T t vd os ms S L V off size f i m vd' m' L' V' :
  ginv T vd os ms S L V -> ms !! i = Some m -> (forall x, in_range off size x -> inside vd i x) ->
  step_ok T t os (map node_of (delete i ms)) vd L V m vd' L' V' m' (upd_range (clip vd i S) off size f) ->
  ginv T vd' os (<[i := m']> ms) (upd_range S off size f) L' V' /\ gstep t vd ms L V vd' (<[i := m']> ms) L' V'.
Proof.
  intros G Hi Hin St. split.
  - eapply ginv_update; try done; [intros x; by apply clip_upd|]. intros x Hx. apply upd_out. auto.
  - by eapply gstep_of.
Qed.

Lemma range_vinv T vd os ms S L V i m : ginv T vd os ms S L V -> ms !! i = Some m -> vinv vd (node_of m :: map node_of (delete i ms)) L V.
Proof. intros G Hi. eapply vinv_perm; [by apply nodes_split|apply G]. Qed.

Lemma group_free_now_spec T vd os ms S L V off size t :
  ginv T vd os ms S L V -> T <= t <= T + 2 -> block_range vd off size -> (forall x, in_range off size x -> S x = Born t None) ->
  exists vd' ms' L' V', group_free vd ms off size t true = Ok (vd', ms') /\
    ginv T vd' os ms' (upd_range S off size (fun _ => Free)) L' V' /\ gstep t vd ms L V vd' ms' L' V'.
Proof.
  intros G Ht Hr Hs. destruct (block_range_ok _ _ _ _ _ _ _ _ _ G Hr) as (i & m & Hi & Hrm & Hin & Es & _). unfold group_free. rewrite Es.
  destruct (get_at _ _ _ Hi) as [-> Hput]. run. pose proof (g_slab _ _ _ _ _ _ _ _ G i m Hi) as Sl.
  destruct (free_now_spec zfs_recover T vd os m (clip vd i S) off size t (map node_of (delete i ms)) L V) as (m' & -> & St & _); try done; try apply Sl.
  - by eapply range_vinv.
  - intros x Hx. rewrite clip_in; auto.
  - run. rewrite Hput. run. exists vd, (<[i := m']> ms), L, V. split; [done|]. by eapply range_step.
Qed.

Lemma group_free_spec T vd os ms S L V off size t :
  ginv T vd os ms S L V -> T <= t <= T + 2 -> block_range vd off size -> (forall x, in_range off size x -> freeable t (S x)) ->
  exists vd' ms' L' V', group_free vd ms off size t false = Ok (vd', ms') /\
    ginv T vd' os ms' (upd_range S off size (mark_freed t)) L' V' /\ gstep t vd ms L V vd' ms' L' V'.
Proof.
  intros G Ht Hr Hs. destruct (block_range_ok _ _ _ _ _ _ _ _ _ G Hr) as (i & m & Hi & Hrm & Hin & Es & _). unfold group_free. rewrite Es.
  destruct (get_at _ _ _ Hi) as [-> Hput]. run. pose proof (g_slab _ _ _ _ _ _ _ _ G i m Hi) as Sl.
  destruct (free_locked_spec zfs_recover T vd os m (clip vd i S) off size t (map node_of (delete i ms)) L V) as (vd' & m' & L' & V' & -> & St & _); try done; try apply Sl.
  - by eapply range_vinv.
  - intros x Hx. rewrite clip_in; auto.
  - run. rewrite Hput. run. exists vd', (<[i := m']> ms), L', V'. split; [done|]. by eapply range_step.
Qed.

Lemma group_claim_spec T vd os ms S L V off size t :
  ginv T vd os ms S L V -> T <= t <= T + 2 -> block_range vd off size -> (forall x, in_range off size x -> S x = Free) ->
  (forall m, ms !! ms_slot vd off = Some m -> SPA_MINBLOCKSIZE <= ms_weight m) ->
  exists vd' ms' L' V', group_claim vd os ms off size t = Ok (vd', ms') /\
    ginv T vd' os ms' (upd_range S off size (fun _ => Born t None)) L' V' /\ gstep t vd ms L V vd' ms' L' V'.
Proof.
  intros G Ht Hr Hs Hw. destruct (block_range_ok _ _ _ _ _ _ _ _ _ G Hr) as (i & m & Hi & Hrm & Hin & Es & _). unfold group_claim. rewrite Es in *.
  destruct (get_at _ _ _ Hi) as [-> Hput]. run. pose proof (g_slab _ _ _ _ _ _ _ _ G i m Hi) as Sl.
  destruct (claim_locked_spec zfs_recover T vd os m (clip vd i S) off size t (map node_of (delete i ms)) L V) as (vd' & m' & L' & V' & -> & St); try done; try apply Sl.
  - by eapply range_vinv.
  - by apply Hw.
  - intros x Hx. rewrite clip_in; auto.
  - run. rewrite Hput. run. exists vd', (<[i := m']> ms), L', V'. split; [done|]. by eapply range_step.
Qed.

(** ** Syncing *)

(** Writing the log of one metaslab leaves the others' alone. *)
Lemma minv_frame T vd os os' m s obj j :
  minv T vd os m s -> others os os' obj (vdev_ms_array vd) ->
  (forall k, 0 <= k -> k <> j -> dmu_read os' (vdev_ms_array vd) (8 * k) 8 = dmu_read os (vdev_ms_array vd) (8 * k) 8) ->
  ms_index vd m <> j -> smo_object (ms_smo_syncing m) = 0 \/ smo_object (ms_smo_syncing m) <> obj -> minv T vd os' m s.
Proof.
  intros I [O1 O2] Hr Hj Ho. pose proof (geom_bounds _ _ (i_geom _ _ _ _ _ I)) as (_ & Hst & _). destruct I.
  assert (smo_object (ms_smo_syncing m) <> 0 -> dmu_words os' (smo_object (ms_smo_syncing m)) = dmu_words os (smo_object (ms_smo_syncing m)) /\
    dmu_bonus os' (smo_object (ms_smo_syncing m)) = dmu_bonus os (smo_object (ms_smo_syncing m)) /\ dmu_exists os' (smo_object (ms_smo_syncing m))) as Hw.
  { intros Hne. destruct (i_exists0 Hne) as (E1 & E2 & _). destruct (O2 (smo_object (ms_smo_syncing m))); [tauto|done|done|]. auto. }
  assert (forall smo A, smo_objsize smo = 0 \/ (smo_object smo = smo_object (ms_smo_syncing m) /\ smo_object smo <> 0) ->
    log_of os smo (ms_map m) A -> log_of os' smo (ms_map m) A) as Hlog.
  { intros smo A [Ez|[Eo Hne]] HL; [by eapply (log_empty os smo)|]. destruct HL as (n & L1 & L2 & L3). exists n. rewrite Eo in *.
    destruct (Hw Hne) as [-> _]. done. }
  split; try done.
  - intros Hl. destruct (i_unloaded0 Hl) as (U1 & U2 & U3 & U4 & U5 & U6). split_and!; try done. apply Hlog; [|done].
    destruct i_synced0 as [?|[E1 E2]]; [by left|right]. split; congruence.
  - apply Hlog; [|done]. destruct (decide (smo_object (ms_smo_syncing m) = 0)) as [E|E]; [left; by apply i_object0|by right].
  - intros Hne. destruct (Hw Hne) as (_ & -> & ?). destruct (i_exists0 Hne) as (_ & ? & ?). done.
  - intros Ha. rewrite Hr; [auto| |done]. by apply Z.shiftr_nonneg.
Qed.

Lemma ms_list_ext vd ml nodes :
  tl_offset ml = tl_offset (vdev_ms_list vd) -> dom nodes = dom (ms_txg_nodes vd) -> vd_ext vd (set_ms_list vd ml nodes).
Proof. intros E D. split; try done. cbn. by rewrite D. Qed.
Lemma ms_list_vinv vd ns L V ml nodes L' : vinv vd ns L V -> rep ml nodes L' -> vinv (set_ms_list vd ml nodes) ns L' V.
Proof. intros [] R. by split. Qed.

Lemma by_addr_spec vd os ms L V t p :
  gcore vd os ms L V -> listed L t p -> exists i m, by_addr ms p = Ok (i, m) /\ ms !! i = Some m /\ ms_addr m = p.
Proof.
  intros G Hp. destruct (c_listed _ _ _ _ _ G t p Hp) as (i & m & Hi & Ha). unfold by_addr.
  destruct (list_find_elem_of (fun m => ms_addr m = p) ms m) as [[j n] E]; [by eapply list_elem_of_lookup_2|done|].
  rewrite E. apply list_find_Some in E as (E1 & E2 & _). by exists j, n.
Qed.

(** The statuses after metaslab [i] was synced. *)
Definition synced (T : Z) (vd : vdev) (i : nat) (S : Z -> status) (x : Z) : status :=
  if decide (inside vd i x) then sync_status T (S x) else S x.

Lemma clip_synced T vd i S x : clip vd i (synced T vd i S) x = sync_status T (clip vd i S x).
Proof. unfold clip, synced. by case_decide. Qed.

(** The log of a metaslab has room for what a group can bring. *)
Definition log_room (m : metaslab) : Prop := smo_objsize (ms_smo_syncing m) + 16 * (1 + sm_size (ms_map m)) < 2 ^ 63.

Lemma sync_dirty T vd L V L' m m' s :
  dirty_ok T vd L V m s -> (forall x, status_ok T (s x)) -> ms_addr m' = ms_addr m -> listed L' (T - 1) (ms_addr m) ->
  (forall u, u <> T -> T <= u <= T + 2 -> listed L u (ms_addr m) -> listed L' u (ms_addr m)) ->
  dirty_ok T vd L' V m' (fun x => sync_status T (s x)).
Proof.
  intros [D1 D2] Hst Ea Hl Hu. rewrite <- Ea in *. split; [|done]. intros x t Ht.
  destruct (sync_status_spec T (s x) (Hst x)) as (_ & _ & _ & Hb & Hf & _ & Hok & _). rewrite Hb, Hf in Ht.
  assert (t <> T /\ (born_in (s x) t \/ freed_in (s x) t)) as [Hne Ht'] by tauto. destruct (D1 x t Ht') as [H1 H2]. split; [|done].
  apply Hu; [done| |done]. specialize (Hst x). destruct (s x) as [|? []|[]|]; cbn in *; lia.
Qed.

(** One round of the loop of [vdev_sync]: the metaslab at the head of the list. *)
Lemma sync_round_spec T vd os ms S L V W pass p l :
  ginv_at T vd os ms S L V W -> vdev_ms_array vd <> 0 -> L (slot T) = p :: l ->
  (forall i m, ms !! i = Some m -> listed L T (ms_addr m) -> log_room m) ->
  exists vd' os' ms' L' i, sync_round T pass (vd, os, ms) = Ok (inl (vd', os', ms')) /\
    ginv_at T vd' os' ms' (synced T vd i S) L' V W /\ vd_ext vd vd' /\ vd_stat vd' = vd_stat vd /\ length ms' = length ms /\
    L' (slot T) = l /\ (forall j m, ms' !! j = Some m -> listed L' T (ms_addr m) -> log_room m).
Proof.
  intros G Ha El Hroom. unfold sync_round. pose proof (g_vinv _ _ _ _ _ _ _ _ G) as Hv. pose proof (g_core _ _ _ _ _ _ _ _ G) as C.
  destruct (list_remove_spec _ _ _ T (v_list _ _ _ _ Hv)) as (ml & nodes & -> & R1 & O1 & D1). run. rewrite El in R1 |- *. cbn [head tail] in *.
  pose proof (ms_list_ext vd ml nodes O1 D1) as He1. set (vd1 := set_ms_list vd ml nodes) in *.
  pose proof (ms_list_vinv _ _ _ _ _ _ _ Hv R1 : vinv vd1 _ _ V) as Hv1.
  assert (listed L T p) as Hp by (unfold listed; rewrite El; set_solver).
  destruct (by_addr_spec _ _ _ _ _ _ _ C Hp) as (i & m & -> & Hi & Eaddr). run.
  pose proof (g_slab _ _ _ _ _ _ _ _ G i m Hi) as Sl. pose proof (ginv_shift _ _ _ _ _ _ _ _ _ _ G Hi) as Hsh.
  destruct (metaslab_sync_spec zfs_recover T vd1 os m (clip vd i S) pass) as (os' & m' & -> & I' & A1 & A2 & A3 & A4 & A5 & A6 & A7 & A8); try done.
  { eapply minv_ext; [exact He1|apply Sl]. }
  { by apply (c_array _ _ _ _ _ C). }
  { apply (Hroom i m Hi). by rewrite Eaddr. }
  run. assert (has_node vd1 m) as Hn1 by (eapply vd_ext_node; [exact He1|apply Sl]). unfold has_node in Hn1. rewrite Eaddr in Hn1.
  destruct (list_add_spec (vdev_ms_list vd1) (ms_txg_nodes vd1) _ p (TXG_CLEAN T) R1 Hn1) as (ml2 & nodes2 & -> & R2 & O2 & D2). run.
  unfold TXG_CLEAN in R2. rewrite slot_u64 in R2.
  pose proof (ms_list_ext vd1 ml2 nodes2 O2 D2) as He2. set (vd2 := set_ms_list vd1 ml2 nodes2) in *.
  pose proof (ms_list_vinv _ _ _ _ _ _ _ Hv1 R2 : vinv vd2 _ _ V) as Hv2. fold (push (upd L (slot T) l) (T - 1) p) in Hv2.
  set (L1 := upd L (slot T) l) in *. set (L2 := push L1 (T - 1) p) in *. pose proof (vd_ext_trans _ _ _ He1 He2) as He.
  assert (slot T <> slot (T - 1)) as Hslot by (intros E; apply (window_slot T) in E; unfold window; lia).
  assert (p ∉ l) as Hpl.
  { pose proof (rep_nodup _ _ _ (v_list _ _ _ _ Hv) (slot T) (slot_lt T)) as Hnd. rewrite El in Hnd. by apply NoDup_cons in Hnd as [? _]. }
  assert (forall u q, q <> p -> listed L2 u q <-> listed L u q) as HL2.
  { intros u q Hq. unfold L2. rewrite push_listed. unfold L1, listed. destruct (decide (slot u = slot T)) as [Eu|Eu].
    - rewrite Eu, upd_eq, El, elem_of_cons. naive_solver.
    - rewrite upd_ne by done. naive_solver. }
  assert (forall u, T <= u <= T + 2 -> u <> T -> listed L u p -> listed L2 u p) as HL2p.
  { intros u Hu Hne H. unfold L2. rewrite push_listed. left. unfold L1, listed. rewrite upd_ne; [done|]. intros E. apply (window_slot T) in E; unfold window; lia. }
  assert (listed L2 (T - 1) p) as Hpl2 by (unfold L2; rewrite push_listed; by right).
  assert (L2 (slot T) = l) as EL2.
  { unfold L2, push. rewrite upd_ne by done. unfold L1. apply upd_eq. }
  assert (forall j n, ms !! j = Some n -> j <> i -> ms_addr n <> p) as Hneq.
  { intros j n Hj Hne E. apply Hne. eapply (c_addr _ _ _ _ _ C); [done|done|]. congruence. }
  assert (unshared ms i (smo_object (ms_smo_syncing m'))) as Hobj.
  { destruct (decide (smo_object (ms_smo_syncing m) = 0)) as [E0|E0]; [|rewrite (A5 E0); by eapply core_unshared].
    intros j n Hj Hne. destruct (decide (smo_object (ms_smo_syncing n) = 0)) as [|Hn0]; [by left|right]. intros E.
    apply (A6 E0). rewrite <- E. apply (i_exists _ _ _ _ _ (sl_minv _ _ _ _ _ _ _ _ (g_slab _ _ _ _ _ _ _ _ G j n Hj)) Hn0). }
  exists vd2, os', (<[i := m']> ms), L2, i. split; [done|]. split_and!; try done.
  2: by rewrite length_insert.
  2: { intros j n Hj Hl. unfold listed in Hl. rewrite EL2 in Hl. destruct (insert_cases _ _ _ _ _ Hj) as [[-> ->]|[Hne Hj']].
       - rewrite A1, Eaddr in Hl. done.
       - apply (Hroom j n Hj'). unfold listed. rewrite El. set_solver. }
  assert (forall x, status_ok T (clip vd i S x)) as Hst by apply (i_status _ _ _ _ _ (sl_minv _ _ _ _ _ _ _ _ Sl)).
  split.
  - eapply (core_update vd os); try done.
    + eapply vinv_perm; [|exact Hv2]. rewrite (nodes_split _ _ _ Hi). replace (node_of m') with (node_of m); [done|]. unfold node_of. by rewrite A3, A4.
    + intros _. apply A7. by apply (c_array _ _ _ _ _ C).
    + intros t q Hq. rewrite Eaddr. destruct (decide (q = p)) as [|Hne]; [by right|left]. by apply HL2.
    + by left.
  - intros j n Hj. destruct (insert_cases _ _ _ _ _ Hj) as [[-> ->]|[Hne Hj']].
    + split; [by rewrite A3; apply Sl|by rewrite A3; apply Sl| | |].
      * eapply minv_status; [|eapply minv_ext; [exact He2|exact I']]. intros x. rewrite (clip_ext vd vd2), clip_synced by done. done.
      * unfold has_node. rewrite A1. eapply vd_ext_node; [exact He|apply Sl].
      * eapply dirty_status; [|eapply (sync_dirty T vd2 L W L2 m m' (clip vd i S))]; try done.
        -- intros x. cbn beta. rewrite (clip_ext vd vd2), clip_synced by done. done.
        -- eapply dirty_mono; [apply Sl|done|done|done].
        -- by rewrite Eaddr.
        -- intros u Hne Hu. rewrite Eaddr. by apply HL2p.
    + pose proof (g_slab _ _ _ _ _ _ _ _ G j n Hj') as Sln. eapply (slab_other T vd vd2 os' L W L2 W S); try done.
      * destruct Sln. split; try done. eapply (minv_frame T vd os os' n _ (smo_object (ms_smo_syncing m')) (ms_index vd m)); try done.
        -- intros k Hk Hkj. etransitivity; [exact (A8 k Hk)|]. change (ms_index vd1 m) with (ms_index vd m). by rewrite (proj2 (Z.eqb_neq _ _)).
        -- unfold ms_index. rewrite sl_start0, (sl_start _ _ _ _ _ _ _ _ Sl). rewrite !Z.shiftr_div_pow2, !Z.div_mul by lia. lia.
        -- by eapply Hobj.
      * intros u. apply HL2. by eapply Hneq.
      * intros x Hx. unfold synced. rewrite decide_False; [done|]. intros Hx'. apply Hne. eapply inside_unique; [|done|done]. lia.
  - intros x Hx. unfold synced. rewrite (g_out _ _ _ _ _ _ _ _ G x Hx). by destruct (decide (inside vd i x)).
Qed.

Lemma slab_status T vd os L W S S' i m : (forall x, S x = S' x) -> slab T vd os L W S i m -> slab T vd os L W S' i m.
Proof.
  intros E H. eapply slab_other; [exact H|apply vd_ext_refl|done|done|]. intros x _. by rewrite E.
Qed.
Lemma ginv_status T vd os ms S S' L V W : (forall x, S x = S' x) -> ginv_at T vd os ms S L V W -> ginv_at T vd os ms S' L V W.
Proof.
  intros E []. split; try done; [|intros x Hx; rewrite <- E; auto]. intros i m Hi. eapply slab_status; [exact E|auto].
Qed.

Lemma sync_status_idem T s : sync_status T (sync_status T s) = sync_status T s.
Proof. destruct s as [|t [u|]|[u|]|]; cbn; repeat (case Z.eqb_spec; intros; cbn); subst; try done; congruence. Qed.

Lemma sync_status_same T s : ~ born_in s T -> ~ freed_in s T -> sync_status T s = s.
Proof. destruct s as [|t [u|]|[u|]|]; cbn; intros; repeat (case Z.eqb_spec; intros; cbn); subst; try done; tauto. Qed.

(** A list of dirty metaslabs is no longer than the vdev has. *)
Lemma listed_length T vd os ms S L V W t : ginv_at T vd os ms S L V W -> (length (L (slot t)) <= length ms)%nat.
Proof.
  intros G. rewrite <- (length_map ms_addr ms). apply NoDup_incl_length.
  - apply NoDup_ListNoDup, (rep_nodup _ _ _ (v_list _ _ _ _ (g_vinv _ _ _ _ _ _ _ _ G))), slot_lt.
  - intros p Hp. destruct (c_listed _ _ _ _ _ (g_core _ _ _ _ _ _ _ _ G) t p) as (i & m & Hi & <-); [by apply list_elem_of_In|].
    apply in_map, list_elem_of_In. by eapply list_elem_of_lookup_2.
Qed.

(** Every offset is in a metaslab, or free. *)
Lemma find_slab T vd os ms S L V W x :
  ginv_at T vd os ms S L V W -> S x = Free \/ exists m, ms !! ms_slot vd x = Some m /\ inside vd (ms_slot vd x) x.
Proof.
  intros G. destruct (decide (0 <= x < vdev_ms_count vd * 2 ^ vdev_ms_shift vd)) as [Hx|Hx]; [right|left; by eapply g_out].
  pose proof (g_count _ _ _ _ _ _ _ _ G) as Hc. pose proof (Z.pow_nonneg 2 (vdev_ms_shift vd) ltac:(lia)).
  assert (0 < 2 ^ vdev_ms_shift vd) as Hp by nia. assert (0 <= vdev_ms_shift vd) as Hs.
  { destruct (Z.lt_ge_cases (vdev_ms_shift vd) 0); [|lia]. rewrite Z.pow_neg_r in Hp by done. lia. }
  assert (inside vd (ms_slot vd x) x) as Hin by (apply slot_inside; [done|lia|done]).
  destruct (lookup_lt_is_Some_2 ms (ms_slot vd x)) as [m Hm]; [unfold inside in Hin; nia|]. by exists m.
Qed.

Lemma ginv_status_ok T vd os ms S L V W x : ginv_at T vd os ms S L V W -> status_ok T (S x).
Proof.
  intros G. destruct (find_slab _ _ _ _ _ _ _ _ x G) as [-> |(m & Hm & Hin)]; [done|].
  pose proof (i_status _ _ _ _ _ (sl_minv _ _ _ _ _ _ _ _ (g_slab _ _ _ _ _ _ _ _ G _ _ Hm)) x) as Hok. by rewrite clip_in in Hok.
Qed.

(** Nothing on a list: nothing changed in that group. *)
Lemma unlisted_clean T vd os ms S L V W t x :
  ginv_at T vd os ms S L V W -> L (slot t) = [] -> ~ born_in (S x) t /\ ~ freed_in (S x) t.
Proof.
  intros G El. assert (~ (born_in (S x) t \/ freed_in (S x) t)); [|tauto]. intros H.
  destruct (find_slab _ _ _ _ _ _ _ _ x G) as [E|(m & Hm & Hin)]; [rewrite E in H; cbn in H; tauto|].
  destruct (sl_dirty _ _ _ _ _ _ _ _ (g_slab _ _ _ _ _ _ _ _ G _ _ Hm)) as [D _]. destruct (D x t) as [Hl _]; [by rewrite clip_in|].
  unfold listed in Hl. rewrite El in Hl. set_solver.
Qed.

Lemma sync_loop T pass V W l : forall f vd os ms S L,
  ginv_at T vd os ms S L V W -> vdev_ms_array vd <> 0 -> L (slot T) = l -> (length l < f)%nat ->
  (forall i m, ms !! i = Some m -> listed L T (ms_addr m) -> log_room m) ->
  exists vd' os' ms' S' L', iter f (sync_round T pass) (vd, os, ms) = Ok (vd', os', ms') /\
    ginv_at T vd' os' ms' S' L' V W /\ vd_ext vd vd' /\ vd_stat vd' = vd_stat vd /\ length ms' = length ms /\ L' (slot T) = [] /\
    (forall x, S' x = S x \/ S' x = sync_status T (S x)).
Proof.
  induction l as [|p l IH]; intros [|f] vd os ms S L G Ha El Hf Hroom; cbn in Hf; try lia; rewrite iter_S.
  - unfold sync_round at 1. pose proof (g_vinv _ _ _ _ _ _ _ _ G) as Hv.
    destruct (list_remove_spec _ _ _ T (v_list _ _ _ _ Hv)) as (ml & nodes & -> & R1 & O1 & D1). run. rewrite El in *. cbn [head tail] in *.
    pose proof (ms_list_ext vd ml nodes O1 D1) as He. pose proof (ms_list_vinv _ _ _ _ _ _ _ Hv R1) as Hv1.
    exists (set_ms_list vd ml nodes), os, ms, S, (upd L (slot T) []). split; [done|]. split_and!; try done; [|apply upd_eq|by left].
    assert (forall u q, listed (upd L (slot T) []) u q <-> listed L u q) as HL.
    { intros u q. unfold listed. destruct (decide (slot u = slot T)) as [E|E]; [by rewrite E, upd_eq, El|by rewrite upd_ne]. }
    destruct G as [[] ]. split; [split; try done; by intros t q Hq%HL; apply (c_listed0 t)| |done].
    intros i m Hi. eapply slab_other; [by apply g_slab0|done| |done|done]. intros u. apply HL.
  - destruct (sync_round_spec T vd os ms S L V W pass p l G Ha El Hroom) as (vd1 & os1 & ms1 & L1 & i & -> & G1 & He & Hst & Hlen & El1 & Hr1).
    destruct (IH f vd1 os1 ms1 (synced T vd i S) L1 G1) as (vd2 & os2 & ms2 & S2 & L2 & -> & G2 & He2 & Hst2 & Hlen2 & El2 & HS); try done.
    { by rewrite (e_ms_array _ _ He). }
    { lia. }
    exists vd2, os2, ms2, S2, L2. split; [done|]. split_and!; try done; try congruence; [by eapply vd_ext_trans|].
    intros x. specialize (HS x). unfold synced in HS. destruct (decide (inside vd i x)); [|done].
    rewrite sync_status_idem in HS. right. by destruct HS.
Qed.

(** A new array reads as zeroes, as the metaslabs without a log expect. *)
Lemma minv_new_array T vd os m s obj os' d :
  minv T vd os m s -> smo_object (ms_smo_syncing m) = 0 -> dmu_object_alloc os 0 = (obj, os') -> minv T (set_ms_array vd obj d) os' m s.
Proof.
  intros I E Eo. destruct (dmu_object_alloc_spec os 0 obj os' Eo) as (O1 & O2 & O3 & O4 & O5 & O6 & O7).
  pose proof (geom_bounds _ _ (i_geom _ _ _ _ _ I)) as (_ & Hst & _). destruct I. destruct (i_object0 E) as [Ez Eal].
  split; try done.
  - destruct i_geom0. by split.
  - intros Hl. destruct (i_unloaded0 Hl) as (U1 & U2 & U3 & U4 & U5 & U6). split_and!; try done.
    destruct i_synced0 as [Ez'|[_ Hne]]; [|done]. by apply (log_empty os (ms_smo m)).
  - by apply (log_empty os (ms_smo_syncing m)).
  - intros _. rewrite E. apply O6. by apply Z.shiftr_nonneg.
Qed.

Lemma set_array_same vd : set_ms_array vd (vdev_ms_array vd) (vdev_dirty_node vd) = vd.
Proof. by destruct vd. Qed.

Lemma sync_array_spec T vd os ms S L V W :
  ginv_at T vd os ms S L V W -> vdev_ms_shift vd <> 0 ->
  exists arr d os', sync_array vd os = Ok (set_ms_array vd arr d, os') /\ ginv_at T (set_ms_array vd arr d) os' ms S L V W /\ arr <> 0 /\
    (vdev_ms_array vd <> 0 -> arr = vdev_ms_array vd /\ os' = os).
Proof.
  intros G Hs. unfold sync_array. destruct (Z.eqb_spec (vdev_ms_array vd) 0) as [E|E]; cbn [andb].
  2: { exists (vdev_ms_array vd), (vdev_dirty_node vd), os. by rewrite set_array_same. }
  rewrite (proj2 (Z.eqb_neq _ _) Hs). cbn [negb]. destruct (dmu_object_alloc os 0) as [obj os'] eqn:Eo.
  destruct (dmu_object_alloc_spec os 0 obj os' Eo) as (O1 & O2 & O3 & _). rewrite (proj2 (Z.eqb_neq obj 0)) by lia. cbn [negb verify]. run.
  exists obj, true, os'. split; [done|]. split_and!; [|lia|done]. destruct G as [[? [] ] ]. split; [split; try done; cbn; lia| |done].
  intros i m Hi. destruct (g_slab0 i m Hi). split; try done. eapply minv_new_array; [exact sl_minv0|by eapply c_noarray0|done].
Qed.

Lemma vdev_list_vinv vd ns L V vl nodes V' :
  vinv vd ns L V -> rep vl nodes V' -> tl_offset vl = tl_offset (spa_vdev_txg_list vd) -> dom nodes = dom (vdev_txg_nodes vd) ->
  vinv (set_lists vd (vdev_ms_list vd) (ms_txg_nodes vd) vl nodes) ns L V'.
Proof.
  intros [] R E D. split; try done. cbn. apply elem_of_dom. rewrite E, D. by apply elem_of_dom.
Qed.

(** Only what the lists of dirty vdevs say of this vdev matters. *)
Lemma ginv_relist T vd vd' os ms S L V V' W W' :
  ginv_at T vd os ms S L V W -> vd_ext vd vd' -> vs_alloc (vd_stat vd') = vs_alloc (vd_stat vd) -> vinv vd' (map node_of ms) L V' ->
  (forall x t, born_in (S x) t \/ freed_in (S x) t -> listed W t (vdev_addr vd) -> listed W' t (vdev_addr vd)) ->
  ginv_at T vd' os ms S L V' W'.
Proof.
  intros [[] ] He Es Hv HW. split.
  - split; rewrite ?(e_ms_array _ _ He), ?(e_ms_count _ _ He), ?Es; done.
  - intros i m Hi. destruct (g_slab0 i m Hi). split.
    + by rewrite (e_ms_shift _ _ He).
    + by rewrite (e_ashift _ _ He).
    + eapply minv_status; [|by eapply minv_ext]. intros x. symmetry. by apply clip_ext.
    + by eapply vd_ext_node.
    + eapply dirty_status; [intros x; symmetry; by apply (clip_ext vd vd')|]. destruct sl_dirty0 as [D1 D2]. split; [|done].
      intros x t Ht. destruct (D1 x t Ht) as [H1 H2]. rewrite (e_addr _ _ He). split; [done|]. apply (HW x); [|done].
      unfold clip in Ht. case_decide; [done|]. cbn in Ht. tauto.
  - intros x Hx. rewrite (e_ms_count _ _ He), (e_ms_shift _ _ He) in Hx. auto.
Qed.

(** Syncing a vdev: every change of the group goes to the logs, nothing of it is
    left, and the metaslabs wait on the list of the group before for
    [metaslab_sync_done]. *)
Lemma vdev_sync_spec T vd os ms S L V W pass :
  ginv_at T vd os ms S L V W -> ms <> [] -> (forall i m, ms !! i = Some m -> listed L T (ms_addr m) -> log_room m) ->
  (forall u, T < u <= T + 2 -> listed W u (vdev_addr vd) -> listed V u (vdev_addr vd)) ->
  exists vd' os' ms' L', vdev_sync vd os ms T pass = Ok (vd', os', ms') /\
    ginv T vd' os' ms' (fun x => sync_status T (S x)) L' (push V (T - 1) (vdev_addr vd)) /\
    vd_ext (set_ms_array vd (vdev_ms_array vd') (vdev_dirty_node vd')) vd' /\ vdev_ms_array vd' <> 0 /\ vd_stat vd' = vd_stat vd /\
    length ms' = length ms /\ L' (slot T) = [].
Proof.
  intros G Hne Hroom HW. unfold vdev_sync.
  assert (9 <= vdev_ms_shift vd) as Hsh.
  { destruct ms as [|m ms]; [done|]. by apply (ginv_shift _ _ _ _ _ _ _ _ 0%nat m G). }
  destruct (sync_array_spec T vd os ms S L V W G) as (arr & d & os1 & -> & G1 & Harr & _); [lia|]. run.
  pose proof (listed_length _ _ _ _ _ _ _ _ T G1) as Hlen.
  destruct (sync_loop T pass V W _ (Datatypes.S (length ms)) _ _ _ _ _ G1 Harr eq_refl ltac:(lia) Hroom)
    as (vd2 & os2 & ms2 & S2 & L2 & -> & G2 & He2 & Hst2 & Hlen2 & El2 & HS). run.
  pose proof (g_vinv _ _ _ _ _ _ _ _ G2) as Hv2.
  destruct (list_add_spec _ _ _ (vdev_addr vd2) (TXG_CLEAN T) (v_vlist _ _ _ _ Hv2) (v_node _ _ _ _ Hv2)) as (vl & nodes & -> & R & O & D). run.
  unfold TXG_CLEAN in R. rewrite slot_u64 in R. fold (push V (T - 1) (vdev_addr vd2)) in R. rewrite (e_addr _ _ He2) in R. cbn [vdev_addr set_ms_array] in R.
  eexists _, os2, ms2, L2. split; [done|].
  assert (forall x, S2 x = sync_status T (S x)) as HS2.
  { intros x. destruct (HS x) as [E|E]; [|done]. destruct (unlisted_clean _ _ _ _ _ _ _ _ T x G2 El2) as [H1 H2]. rewrite E in *.
    symmetry. by apply sync_status_same. }
  cbn [vdev_ms_array set_lists vd_stat]. rewrite (e_ms_array _ _ He2). split_and!; try done.
  - eapply ginv_status; [exact HS2|]. eapply ginv_relist; [exact G2|split; cbn; try done; by rewrite D|done|by eapply vdev_list_vinv|].
    intros x t Ht Hl. rewrite (e_addr _ _ He2) in *. cbn in *. apply push_listed. left. apply HW; [|done].
    destruct (unlisted_clean _ _ _ _ _ _ _ _ T x G2 El2) as [H1 H2].
    pose proof (ginv_status_ok _ _ _ _ _ _ _ _ x G2) as Hok.
    destruct (S2 x) as [|? []|[]|]; cbn in *; lia.
  - destruct He2. split; cbn in *; try done; [congruence|by rewrite D].
Qed.

(** ** When the group is on disk *)

(** While [vdev_sync_done] runs, the metaslabs on its list are those of group [T],
    the others have gone to the next. *)
Record dinv (T : Z) (vd : vdev) (os : objset) (ms : list metaslab) (S : Z -> status) (L V : nat -> list Z) : Prop := {
  d_core : gcore vd os ms L V;
  d_wait i m : ms !! i = Some m -> listed L (T - 1) (ms_addr m) -> slab T vd os L V S i m;
  d_done i m : ms !! i = Some m -> ~ listed L (T - 1) (ms_addr m) -> slab (T + 1) vd os L V S i m;
  d_out x : ~ 0 <= x < vdev_ms_count vd * 2 ^ vdev_ms_shift vd -> S x = Free;
  d_clean x : ~ born_in (S x) T /\ ~ freed_in (S x) T
}.

Lemma slab_skip T vd os L V S i m :
  slab T vd os L V S i m -> ~ listed L (T - 1) (ms_addr m) -> (forall x, ~ born_in (S x) T /\ ~ freed_in (S x) T) ->
  slab (T + 1) vd os L V S i m.
Proof.
  intros [] Hl Hc. assert (forall x, ~ born_in (clip vd i S x) T /\ ~ freed_in (clip vd i S x) T /\ clip vd i S x <> Dying) as Hq.
  { intros x. destruct sl_dirty0 as [_ D2]. specialize (D2 x). unfold clip in *. case_decide; [|cbn; naive_solver]. destruct (Hc x). tauto. }
  split; try done; [by apply minv_skip|]. destruct sl_dirty0 as [D1 D2]. split; [done|]. intros x Hx. by destruct (Hq x) as (_ & _ & ?).
Qed.

Lemma dinv_start T vd os ms S L V :
  ginv T vd os ms S L V -> (forall x, ~ born_in (S x) T /\ ~ freed_in (S x) T) -> dinv T vd os ms S L V.
Proof. intros [] Hc. split; try done; [auto|]. intros i m Hi Hl. apply slab_skip; auto. Qed.

Lemma dinv_end T vd os ms S L V : dinv T vd os ms S L V -> L (slot (T - 1)) = [] -> ginv (T + 1) vd os ms S L V.
Proof.
  intros [] E. split; try done. intros i m Hi. apply d_done0; [done|]. unfold listed. rewrite E. set_solver.
Qed.

Definition made_free (vd : vdev) (i : nat) (S : Z -> status) (x : Z) : status :=
  if decide (inside vd i x) then done_status (S x) else S x.

Lemma clip_made_free vd i S x : clip vd i (made_free vd i S) x = done_status (clip vd i S x).
Proof. unfold clip, made_free. by case_decide. Qed.

Lemma done_dirty T vd L V L' m m' s :
  dirty_ok T vd L V m s -> (forall x, status_ok T (s x)) -> (forall x, ~ born_in (s x) T /\ ~ freed_in (s x) T) -> ms_addr m' = ms_addr m ->
  (forall u, T < u <= T + 2 -> listed L u (ms_addr m) -> listed L' u (ms_addr m)) ->
  dirty_ok (T + 1) vd L' V m' (fun x => done_status (s x)).
Proof.
  intros [D1 D2] Hst Hc Ea Hu. rewrite <- Ea in *. split; [|intros x; by destruct (s x)]. intros x t Ht.
  assert (born_in (s x) t \/ freed_in (s x) t) as Ht' by (by destruct (s x)). destruct (D1 x t Ht') as [H1 H2]. split; [|done].
  apply Hu; [|done]. specialize (Hst x). destruct (Hc x). destruct (s x) as [|? []|[]|]; cbn in *; lia.
Qed.

Lemma sync_done_round_spec T vd os ms S L V p l :
  dinv T vd os ms S L V -> L (slot (T - 1)) = p :: l ->
  exists vd' ms' L' i, sync_done_round T (vd, ms) = Ok (inl (vd', ms')) /\
    dinv T vd' os ms' (made_free vd i S) L' V /\ vd_ext vd vd' /\ length ms' = length ms /\
    L' (slot (T - 1)) = l /\ L' (slot T) = L (slot T).
Proof.
  intros G El. unfold sync_done_round, TXG_CLEAN. pose proof (d_core _ _ _ _ _ _ _ G) as C. pose proof (c_vinv _ _ _ _ _ C) as Hv.
  destruct (list_remove_spec _ _ _ (u64 (T - 1)) (v_list _ _ _ _ Hv)) as (ml & nodes & -> & R1 & O1 & D1). run.
  rewrite slot_u64 in *. rewrite El in R1 |- *. cbn [head tail] in *.
  pose proof (ms_list_ext vd ml nodes O1 D1) as He1. set (vd1 := set_ms_list vd ml nodes) in *. set (L1 := upd L (slot (T - 1)) l) in *.
  pose proof (ms_list_vinv _ _ _ _ _ _ _ Hv R1 : vinv vd1 _ L1 V) as Hv1.
  assert (listed L (T - 1) p) as Hp by (unfold listed; rewrite El; set_solver).
  destruct (by_addr_spec _ _ _ _ _ _ _ C Hp) as (i & m & -> & Hi & Eaddr). run. rewrite <- Eaddr in Hp.
  pose proof (d_wait _ _ _ _ _ _ _ G i m Hi Hp) as Sl. pose proof (sl_minv _ _ _ _ _ _ _ _ Sl) as I.
  assert (9 <= vdev_ms_shift vd) as Hsh by (destruct (i_geom _ _ _ _ _ I); lia).
  assert (forall x, ~ born_in (clip vd i S x) T /\ ~ freed_in (clip vd i S x) T) as Hc.
  { intros x. unfold clip. case_decide; [apply (d_clean _ _ _ _ _ _ _ G)|cbn; naive_solver]. }
  assert (vinv vd1 (node_of m :: map node_of (delete i ms)) L1 V) as Hv1' by (eapply vinv_perm; [by apply nodes_split|done]).
  destruct (metaslab_sync_done_spec zfs_recover T vd1 os m (clip vd i S) _ L1 V (minv_ext _ _ _ _ _ _ He1 I) Hv1' Hc)
    as (vd2 & m' & -> & I' & Hv2 & He2 & Hal & A1 & A2 & A3 & A4). run. pose proof (vd_ext_trans _ _ _ He1 He2) as He.
  assert (p ∉ l) as Hpl.
  { pose proof (rep_nodup _ _ _ (v_list _ _ _ _ Hv) (slot (T - 1)) (slot_lt _)) as Hnd. rewrite El in Hnd. by apply NoDup_cons in Hnd as [? _]. }
  assert (forall u q, q <> p -> listed L1 u q <-> listed L u q) as HL1.
  { intros u q Hq. unfold L1, listed. destruct (decide (slot u = slot (T - 1))) as [Eu|Eu]; [rewrite Eu, upd_eq, El, elem_of_cons; naive_solver|by rewrite upd_ne]. }
  assert (forall u, T < u <= T + 2 -> listed L u p -> listed L1 u p) as HL1p.
  { intros u Hu H. unfold L1, listed. rewrite upd_ne; [done|]. intros E. apply (window_slot T) in E; unfold window; lia. }
  assert (forall j n, ms !! j = Some n -> j <> i -> ms_addr n <> p) as Hneq.
  { intros j n Hj Hne E. apply Hne. eapply (c_addr _ _ _ _ _ C); [done|done|]. congruence. }
  assert (forall T' j n, ms !! j = Some n -> j <> i -> slab T' vd os L V S j n -> slab T' vd2 os L1 V (made_free vd i S) j n) as Hother.
  { intros T' j n Hj Hne Sln. eapply (slab_other T' vd vd2 os L V L1 V S); try done.
    - intros u. apply HL1. by eapply Hneq.
    - intros x Hx. unfold made_free. rewrite decide_False; [done|]. intros Hx'. apply Hne. eapply inside_unique; [|done|done]. lia. }
  exists vd2, (<[i := m']> ms), L1, i. split; [done|]. split_and!; [|done|by rewrite length_insert|apply upd_eq|].
  2: { apply upd_ne. intros E. apply (window_slot T) in E; unfold window; lia. }
  split.
  - eapply (core_update vd os); try done.
    + rewrite A3. by eapply core_unshared.
    + intros E. rewrite A3. by eapply (c_noarray _ _ _ _ _ C).
    + apply C.
    + intros t q Hq. rewrite Eaddr. destruct (decide (q = p)) as [|Hne]; [by right|left]. by apply HL1.
    + right. rewrite Hal, A2. done.
  - intros j n Hj Hl. destruct (insert_cases _ _ _ _ _ Hj) as [[-> ->]|[Hne Hj']].
    + exfalso. rewrite A1, Eaddr in Hl. unfold listed, L1 in Hl. by rewrite upd_eq in Hl.
    + apply Hother; try done. eapply (d_wait _ _ _ _ _ _ _ G); [done|]. apply HL1; [by eapply Hneq|done].
  - intros j n Hj Hl. destruct (insert_cases _ _ _ _ _ Hj) as [[-> ->]|[Hne Hj']].
    + split.
      * destruct A4 as (C1 & _ & _). rewrite (e_ms_shift _ _ He). rewrite <- (sl_start _ _ _ _ _ _ _ _ Sl). congruence.
      * destruct A4 as (_ & _ & C3). rewrite (e_ashift _ _ He), <- (sl_shift _ _ _ _ _ _ _ _ Sl). congruence.
      * eapply minv_status; [|exact I']. intros x. cbn beta. rewrite (clip_ext vd vd2), clip_made_free by done. done.
      * unfold has_node. rewrite A1. eapply vd_ext_node; [exact He|apply Sl].
      * eapply dirty_status; [|eapply (done_dirty T vd2 L V L1 m m' (clip vd i S))]; try done.
        -- intros x. cbn beta. rewrite (clip_ext vd vd2), clip_made_free by done. done.
        -- eapply dirty_mono; [apply Sl|apply He|done|done].
        -- apply I.
        -- intros u Hu. rewrite Eaddr. by apply HL1p.
    + apply Hother; try done. eapply (d_done _ _ _ _ _ _ _ G); [done|]. rewrite <- (HL1 (T - 1)); [done|by eapply Hneq].
  - intros x Hx. rewrite (e_ms_count _ _ He), (e_ms_shift _ _ He) in Hx. unfold made_free. rewrite (d_out _ _ _ _ _ _ _ G x Hx). by destruct (decide _).
  - intros x. unfold made_free. destruct (d_clean _ _ _ _ _ _ _ G x). destruct (decide _); [by destruct (S x)|done].
Qed.

Lemma sync_done_loop T os V l : forall f vd ms S L,
  dinv T vd os ms S L V -> L (slot (T - 1)) = l -> (length l < f)%nat ->
  exists vd' ms' S' L', iter f (sync_done_round T) (vd, ms) = Ok (vd', ms') /\
    dinv T vd' os ms' S' L' V /\ vd_ext vd vd' /\ length ms' = length ms /\ L' (slot (T - 1)) = [] /\ L' (slot T) = L (slot T) /\
    (forall x, S' x = S x \/ S' x = done_status (S x)).
Proof.
  induction l as [|p l IH]; intros [|f] vd ms S L G El Hf; cbn in Hf; try lia; rewrite iter_S.
  - unfold sync_done_round at 1, TXG_CLEAN. pose proof (c_vinv _ _ _ _ _ (d_core _ _ _ _ _ _ _ G)) as Hv.
    destruct (list_remove_spec _ _ _ (u64 (T - 1)) (v_list _ _ _ _ Hv)) as (ml & nodes & -> & R1 & O1 & D1). run.
    rewrite slot_u64 in *. rewrite El in *. cbn [head tail] in *.
    pose proof (ms_list_ext vd ml nodes O1 D1) as He. pose proof (ms_list_vinv _ _ _ _ _ _ _ Hv R1) as Hv1.
    exists (set_ms_list vd ml nodes), ms, S, (upd L (slot (T - 1)) []). split; [done|]. split_and!; try done; [|apply upd_eq| |by left].
    2: { apply upd_ne. intros E. apply (window_slot T) in E; unfold window; lia. }
    assert (forall u q, listed (upd L (slot (T - 1)) []) u q <-> listed L u q) as HL.
    { intros u q. unfold listed. destruct (decide (slot u = slot (T - 1))) as [E|E]; [by rewrite E, upd_eq, El|by rewrite upd_ne]. }
    destruct G as [[] ]. split; try done; [split; try done; by intros t q Hq%HL; apply (c_listed0 t)|..].
    + intros i m Hi Hl%HL. eapply slab_other; [by apply d_wait0|done| |done|done]. intros u. apply HL.
    + intros i m Hi Hl. rewrite HL in Hl. eapply slab_other; [by apply d_done0|done| |done|done]. intros u. apply HL.
  - destruct (sync_done_round_spec T vd os ms S L V p l G El) as (vd1 & ms1 & L1 & i & -> & G1 & He & Hlen & El1 & Et1).
    destruct (IH f vd1 ms1 (made_free vd i S) L1 G1) as (vd2 & ms2 & S2 & L2 & -> & G2 & He2 & Hlen2 & El2 & Et2 & HS); try done.
    { lia. }
    exists vd2, ms2, S2, L2. split; [done|]. split_and!; try done; try congruence; [by eapply vd_ext_trans|].
    intros x. specialize (HS x). unfold made_free in HS. destruct (decide (inside vd i x)); [|done].
    assert (done_status (done_status (S x)) = done_status (S x)) as E by (by destruct (S x)). rewrite E in HS. right. by destruct HS.
Qed.

Lemma vdev_sync_done_spec T vd os ms S L V :
  ginv T vd os ms S L V -> L (slot T) = [] ->
  exists vd' ms' L', vdev_sync_done vd ms T = Ok (vd', ms') /\
    ginv (T + 1) vd' os ms' (fun x => done_status (S x)) L' V /\ vd_ext vd vd' /\ length ms' = length ms.
Proof.
  intros G El. unfold vdev_sync_done. pose proof (listed_length _ _ _ _ _ _ _ _ (T - 1) G) as Hlen.
  pose proof (dinv_start _ _ _ _ _ _ _ G (fun x => unlisted_clean _ _ _ _ _ _ _ _ T x G El)) as D.
  destruct (sync_done_loop T os V _ (Datatypes.S (length ms)) _ _ _ _ D eq_refl ltac:(lia)) as (vd' & ms' & S' & L' & -> & D' & He & Hlen' & E1 & E2 & HS).
  exists vd', ms', L'. split; [done|]. split_and!; try done. pose proof (dinv_end _ _ _ _ _ _ _ D' E1) as G'.
  eapply ginv_status; [|exact G']. intros x. destruct (HS x) as [E|E]; [|done]. rewrite E. destruct (S x) eqn:Ex; try done. exfalso.
  destruct (find_slab _ _ _ _ _ _ _ _ x G') as [Ef|(m & Hm & Hin)]; [congruence|].
  destruct (sl_dirty _ _ _ _ _ _ _ _ (g_slab _ _ _ _ _ _ _ _ G' _ _ Hm)) as [_ D2]. specialize (D2 x). rewrite clip_in in D2 by done.
  replace (T + 1 - 1) with T in D2 by lia. unfold listed in D2. rewrite E2, El in D2. rewrite E in D2. specialize (D2 eq_refl). set_solver.
Qed.

(** ** Opening *)

Lemma openable_ext vd vd' os smo sm s : vd_ext vd vd' -> openable vd os smo sm s -> openable vd' os smo sm s.
Proof.
  intros E []. split; try done; [by eapply geom_ext|..]; by rewrite ?(e_ms_array _ _ E), ?(e_ms_shift _ _ E).
Qed.

Lemma dirty_quiet T vd L V m s : (forall x, s x = Free \/ s x = Live None) -> dirty_ok T vd L V m s.
Proof. intros H. split; intros x; destruct (H x) as [-> | ->]; cbn; try done; intros; tauto. Qed.

(** What [vdev_metaslab_init] has done after some of the metaslabs. *)
Record opened (T : Z) (vd0 vd : vdev) (os : objset) (ms : list metaslab) (S : Z -> status) (L V : nat -> list Z)
    (smo : nat -> space_map_obj) (addr : Z -> Z) : Prop := {
  o_ext : vd_ext vd0 vd;
  o_vinv : vinv vd (map node_of ms) L V;
  o_slab i m : ms !! i = Some m -> slab T vd os L V S i m /\ ms_addr m = addr (Z.of_nat i) /\ ms_smo m = smo i /\ ms_smo_syncing m = smo i;
  o_listed t p : listed L t p -> exists i, (i < length ms)%nat /\ p = addr (Z.of_nat i);
  o_alloc : vs_alloc (vd_stat vd) = u64 (total_alloc ms)
}.

Lemma total_alloc_snoc ms m : total_alloc (ms ++ [m]) = total_alloc ms + smo_alloc (ms_smo m).
Proof. unfold total_alloc. induction ms as [|n ms IH]; cbn; [lia|]. rewrite IH. lia. Qed.

(** The logs [smo], where the vdev says they are, leave the statuses [S]. *)
Definition on_media (vd : vdev) (os : objset) (S : Z -> status) (txg : Z) (smo : nat -> space_map_obj) (n : nat) : Prop :=
  forall i, (i < n)%nat -> read_smo vd os (Z.of_nat i) txg = Ok (Some (smo i)) /\
    openable vd os (smo i) (space_map_create (Z.of_nat i * 2 ^ vdev_ms_shift vd) (2 ^ vdev_ms_shift vd) (vdev_ashift vd)) (clip vd i S).

Lemma read_smo_ext vd vd' os m txg : vd_ext vd vd' -> read_smo vd' os m txg = read_smo vd os m txg.
Proof. intros E. unfold read_smo. by rewrite (e_ms_array _ _ E). Qed.

Lemma open_round T vd0 vd os ms S L V smo addr txg last n :
  opened T vd0 vd os ms S L V smo addr -> on_media vd0 os S txg smo n -> (length ms < n)%nat -> Z.of_nat n = vdev_ms_count vd0 ->
  (forall i j, (i < n)%nat -> (j < n)%nat -> addr (Z.of_nat i) = addr (Z.of_nat j) -> i = j) ->
  txg <= TXG_INITIAL -> (txg <> 0 -> TXG_CLEAN txg = last) ->
  exists vd' m L' V', metaslab_init zfs_recover vd (smo (length ms)) (u64 (Z.shiftl (zlen ms) (vdev_ms_shift vd))) (u64 (Z.shiftl 1 (vdev_ms_shift vd)))
      txg (addr (zlen ms)) last = Ok (vd', m) /\
    opened T vd0 vd' os (ms ++ [m]) S L' V' smo addr.
Proof.
  intros O Hm Hlt Hn Hinj Htx Hlast. destruct O. destruct (Hm (length ms) Hlt) as [_ Hop]. apply (openable_ext _ _ _ _ _ _ o_ext0) in Hop.
  rewrite <- (e_ms_shift _ _ o_ext0), <- (e_ashift _ _ o_ext0) in Hop. pose proof (op_geom _ _ _ _ _ Hop) as Hg.
  pose proof (geom_bounds _ _ Hg) as (Hz & Hst & Hend & _). cbn in Hz, Hst, Hend. unfold sm_end in Hend. cbn in Hend.
  destruct Hg as [_ _ Hsh _ _]. cbn in Hsh. rewrite !Z.shiftl_mul_pow2, !wrap_small by lia. rewrite Z.mul_1_l.
  destruct (metaslab_init_spec zfs_recover T vd os (smo (length ms)) (zlen ms * 2 ^ vdev_ms_shift vd) (2 ^ vdev_ms_shift vd) txg (addr (zlen ms)) last
    (clip vd0 (length ms) S) (map node_of ms) L V) as (vd' & m & L' & V' & -> & Hv & He & Hnode & Ha & Hi & _ & HLV); try done.
  { rewrite map_map, in_map_iff. intros (m & Em & Hin). apply list_elem_of_In, list_elem_of_lookup_1 in Hin as [i Hi].
    destruct (o_slab0 i m Hi) as ([] & _). cbn in Em. rewrite Em in sl_start0. pose proof (lookup_lt_Some _ _ _ Hi). nia. }
  { intros t Hl. destruct (o_listed0 t _ Hl) as (i & Hi & E). apply Hinj in E; lia. }
  exists vd', m, L', V'. split; [done|]. destruct (Hi Htx) as (I & Es & Ess & Hc & Hal & _). clear Hi.
  assert (forall t p, listed L' t p -> listed L t p \/ p = addr (zlen ms)) as HL.
  { destruct (txg =? 0); destruct HLV as [-> _]; [by left|]. intros t p Hp. apply push_listed in Hp. tauto. }
  assert (forall t p, listed L t p -> listed L' t p) as HL'.
  { destruct (txg =? 0); destruct HLV as [-> _]; [done|]. intros t p Hp. apply push_listed. tauto. }
  assert (forall t p, listed V t p -> listed V' t p) as HV'.
  { destruct (txg =? 0); destruct HLV as [_ ->]; [done|]. intros t p Hp. rewrite !push_listed. tauto. }
  split.
  - by eapply vd_ext_trans.
  - eapply vinv_perm; [|exact Hv]. rewrite map_app. apply Permutation_cons_append.
  - intros i n' Hi. apply lookup_snoc_Some in Hi as [[_ Hi]|[-> <-]].
    + destruct (o_slab0 i n' Hi) as (Sl & ? & ? & ?). split; [|done]. eapply slab_other; try done; intros u; [apply HL'|apply HV'].
    + split; [|done]. destruct Hc as (C1 & C2 & C3). cbn in C1, C2, C3. pose proof (vd_ext_trans _ _ _ o_ext0 He) as He'. split.
      * rewrite <- C1, (e_ms_shift _ _ He). done.
      * rewrite <- C3, (e_ashift _ _ He). done.
      * eapply minv_status; [|exact I]. intros x. symmetry. by apply clip_ext.
      * done.
      * apply dirty_quiet. intros x. rewrite (clip_ext vd0 vd') by done. apply (op_quiet _ _ _ _ _ Hop).
  - intros t p Hp. rewrite length_app. cbn. apply HL in Hp as [Hp| ->].
    + destruct (o_listed0 t p Hp) as (i & Hi & ->). exists i. split; [lia|done].
    + exists (length ms). split; [lia|done].
  - rewrite Hal, o_alloc0, total_alloc_snoc, Es. unfold wrap. by rewrite Z.add_mod_idemp_l.
Qed.

Lemma init_loop_spec T vd0 os S smo addr txg last n :
  on_media vd0 os S txg smo n -> Z.of_nat n = vdev_ms_count vd0 ->
  (forall i j, (i < n)%nat -> (j < n)%nat -> addr (Z.of_nat i) = addr (Z.of_nat j) -> i = j) ->
  txg <= TXG_INITIAL -> (txg <> 0 -> TXG_CLEAN txg = last) ->
  forall k vd ms L V, opened T vd0 vd os ms S L V smo addr -> (length ms + k = n)%nat ->
  exists vd' ms' L' V', init_loop k (zlen ms) vd ms os txg last addr = Ok (vd', ms', true) /\
    opened T vd0 vd' os ms' S L' V' smo addr /\ length ms' = n.
Proof.
  intros Hm Hn Hinj Htx Hlast. induction k as [|k IH]; intros vd ms L V O Hlen; cbn [init_loop].
  - exists vd, ms, L, V. split_and!; [done|done|lia].
  - rewrite (read_smo_ext vd0 vd) by apply O. destruct (Hm (length ms)) as [-> _]; [lia|]. run.
    destruct (open_round T vd0 vd os ms S L V smo addr txg last n O Hm) as (vd1 & m & L1 & V1 & -> & O1); try done; [lia|]. run.
    destruct (IH vd1 (ms ++ [m]) L1 V1 O1) as (vd2 & ms2 & L2 & V2 & E & H2); [rewrite length_app; cbn; lia|].
    rewrite length_app in E. cbn [length] in E. replace (Z.of_nat (length ms + 1)) with (zlen ms + 1) in E by lia. exists vd2, ms2, L2, V2. done.
Qed.

(** Opening (or making) the metaslabs of a vdev that had none. *)
Lemma vdev_metaslab_init_spec T vd os S L V smo addr txg last :
  let newc := Z.shiftr (vdev_asize vd) (vdev_ms_shift vd) in let vd0 := set_ms_count vd newc in
  vdev_ms_count vd = 0 -> 0 < vdev_ms_shift vd -> 0 <= newc -> vinv vd [] L V -> (forall t p, ~ listed L t p) -> vs_alloc (vd_stat vd) = 0 ->
  on_media vd0 os S txg smo (Z.to_nat newc) -> (forall x, ~ 0 <= x < newc * 2 ^ vdev_ms_shift vd -> S x = Free) ->
  (forall i j, (i < Z.to_nat newc)%nat -> (j < Z.to_nat newc)%nat -> addr (Z.of_nat i) = addr (Z.of_nat j) -> i = j) ->
  (forall i j, (i < Z.to_nat newc)%nat -> (j < Z.to_nat newc)%nat -> smo_object (smo i) = smo_object (smo j) -> smo_object (smo i) <> 0 -> i = j) ->
  (vdev_ms_array vd <> 0 -> dmu_exists os (vdev_ms_array vd)) ->
  (vdev_ms_array vd = 0 -> forall i, (i < Z.to_nat newc)%nat -> smo_object (smo i) = 0) ->
  txg <= TXG_INITIAL -> (txg <> 0 -> TXG_CLEAN txg = last) ->
  exists vd' ms L' V', vdev_metaslab_init vd [] os txg last addr = Ok (vd', ms, true) /\
    ginv T vd' os ms S L' V' /\ vd_ext vd0 vd' /\ forall i m, ms !! i = Some m -> ms_smo m = smo i.
Proof.
  intros newc vd0 Hc0 Hsh Hnew Hv HL Hal Hm Hout Hinj Hobj Harr Hnoarr Htx Hlast. unfold vdev_metaslab_init. fold newc.
  rewrite (proj2 (Z.eqb_neq (vdev_ms_shift vd) 0)) by lia. rewrite Hc0, (proj2 (Z.leb_le 0 newc)) by lia. cbn [verify]. run.
  rewrite Z.sub_0_r. assert (opened T vd0 vd0 os [] S L V smo addr) as O0.
  { split; try done.
    - destruct Hv. by split.
    - intros t p Hp. by apply HL in Hp. }
  destruct (init_loop_spec T vd0 os S smo addr txg last _ Hm ltac:(cbn; lia) Hinj Htx Hlast (Z.to_nat newc) vd0 [] L V O0 eq_refl)
    as (vd' & ms & L' & V' & E & [] & Hlen).
  exists vd', ms, L', V'. split; [exact E|]. split_and!; [|done|intros i m Hi; by apply o_slab0].
  split; [split; try done| |].
  - rewrite (e_ms_count _ _ o_ext0), Hlen. cbn. lia.
  - intros i j m m' Hi Hj. destruct (o_slab0 i m Hi) as (_ & -> & _), (o_slab0 j m' Hj) as (_ & -> & _).
    apply Hinj; rewrite <- Hlen; by eapply lookup_lt_Some.
  - intros i j m m' Hi Hj. destruct (o_slab0 i m Hi) as (_ & _ & _ & ->), (o_slab0 j m' Hj) as (_ & _ & _ & ->).
    apply Hobj; rewrite <- Hlen; by eapply lookup_lt_Some.
  - rewrite (e_ms_array _ _ o_ext0). done.
  - intros i m. rewrite (e_ms_array _ _ o_ext0). intros E0 Hi. destruct (o_slab0 i m Hi) as (_ & _ & _ & ->).
    apply Hnoarr; [done|]. rewrite <- Hlen. by eapply lookup_lt_Some.
  - intros t p Hp. destruct (o_listed0 t p Hp) as (i & Hi & ->). destruct (lookup_lt_is_Some_2 ms i Hi) as [m Hm']. exists i, m. split; [done|]. by apply o_slab0.
  - intros i m Hi. by apply o_slab0.
  - intros x Hx. rewrite (e_ms_count _ _ o_ext0), (e_ms_shift _ _ o_ext0) in Hx. by apply Hout.
Qed.

(** What the disk remembers of a status. *)
Definition disk_status (s : status) : status := match s with Live _ => Live None | _ => Free end.

(** What was synced is what is found: the arrays, headers and logs of a vdev in use
    say which offsets are allocated. *)
Lemma media_of T vd os ms S L V W vd0 :
  ginv_at T vd os ms S L V W -> vdev_ms_array vd <> 0 -> vdev_ms_array vd0 = vdev_ms_array vd -> vdev_ms_shift vd0 = vdev_ms_shift vd ->
  vdev_ms_count vd0 = vdev_ms_count vd -> vdev_ashift vd0 = vdev_ashift vd ->
  on_media vd0 os (fun x => disk_status (S x)) 0 (fun i => default (Smo 0 0 0) (ms_smo_syncing <$> ms !! i)) (length ms).
Proof.
  intros G Ha E1 E2 E3 E4 i Hi. destruct (lookup_lt_is_Some_2 ms i Hi) as [m Hm]. rewrite Hm. cbn [fmap option_fmap option_map default id].
  destruct (g_slab _ _ _ _ _ _ _ _ G i m Hm) as [Es Ef I _ _]. pose proof (i_geom _ _ _ _ _ I) as Hg. destruct I.
  assert (ms_index vd m = Z.of_nat i) as Eix.
  { unfold ms_index. destruct Hg as [_ _ Hs _ _]. rewrite Es, Z.shiftr_div_pow2, Z.div_mul by lia. done. }
  rewrite Eix in *. set (smo := ms_smo_syncing m) in *.
  assert (compatible (ms_map m) (space_map_create (Z.of_nat i * 2 ^ vdev_ms_shift vd) (2 ^ vdev_ms_shift vd) (vdev_ashift vd))) as Hc.
  { split_and!; cbn; [done| |done]. apply Hg. }
  assert (forall x, clip vd0 i (fun x => disk_status (S x)) x = disk_status (clip vd i S x)) as Hcl.
  { intros x. assert (inside vd0 i x <-> inside vd i x) as Hi' by (unfold inside; by rewrite E2).
    destruct (decide (inside vd i x)) as [Hx|Hx]; [rewrite !clip_in|rewrite !clip_out]; rewrite ?Hi'; done. }
  rewrite E2, E4. split.
  - unfold read_smo. cbn [Z.eqb]. rewrite E1, (Z.mul_comm _ 8), (i_array0 Ha). destruct (Z.eqb_spec (smo_object smo) 0) as [E|E]; cbn [negb].
    + destruct (i_object0 E) as [F1 F2]. destruct smo. cbn in *. by subst.
    + destruct (i_exists0 E) as (_ & _ & b & ->). unfold smo_words. cbn [app]. rewrite (proj2 (Z.leb_le _ _)) by (cbn [length]; lia). cbn [verify]. run.
      rewrite Z.eqb_refl. cbn [verify]. run. by destruct smo.
  - split; rewrite ?E1, ?E2; try done.
    + destruct (geom_compatible _ _ _ Hc Hg). split; rewrite ?E2, ?E3; done.
    + eapply log_ext; [exact Hc|exact i_log0|]. intros x. rewrite Hcl. by destruct (clip vd i S x).
    + intros x. rewrite Hcl. destruct (clip vd i S x); cbn; auto.
    + intros x Hx. rewrite Hcl. rewrite (i_out0 x); [done|]. unfold in_region. destruct (compatible_end _ _ Hc) as [<- <-]. done.
    + apply i_sizes0.
    + intros _. cbn [sm_start space_map_create]. destruct Hg as [_ _ Hs _ _]. rewrite Z.shiftr_div_pow2, Z.div_mul by lia. auto.
Qed.

(** ** Histories

    What the clients of a vdev do: allocate and free in the groups that are open,
    write the group that syncs, in any number of passes, and finish it when it is
    on disk. *)
Inductive vop :=
  | OAlloc (size txg min_distance : Z) (dvas : list dva)
  | OFree (off size txg : Z) (now : bool)
  | OClaim (off size txg : Z)
  | OSync (syncpass : Z)
  | ODone.

Definition vstate : Type := vdev * objset * list metaslab.

(** [T] is the group that syncs; the result is that of an allocation. *)
Definition exec (T : Z) (op : vop) (st : vstate) : outcome (vstate * option Z) :=
  let '(vd, os, ms) := st in
  match op with
  | OAlloc size txg md dvas => '(vd, ms, off) ← metaslab_group_alloc vd ms os size txg md dvas; Ok (vd, os, ms, Some off)
  | OFree off size txg now => '(vd, ms) ← group_free vd ms off size txg now; Ok (vd, os, ms, None)
  | OClaim off size txg => '(vd, ms) ← group_claim vd os ms off size txg; Ok (vd, os, ms, None)
  | OSync pass => '(vd, os, ms) ← vdev_sync vd os ms T pass; Ok (vd, os, ms, None)
  | ODone => '(vd, ms) ← vdev_sync_done vd ms T; Ok (vd, os, ms, None)
  end.

(** The contract: the status of every offset, the group that syncs, and whether all
    of it has been written. *)
Record contract := Contract { a_T : Z; a_S : Z -> status; a_written : bool }.

Definition open_txg (A : contract) (t : Z) : Prop := a_T A <= t <= a_T A + 2.
Definition still_written (A : contract) (t : Z) : bool := a_written A && negb (t =? a_T A).

Inductive astep (vd : vdev) (A : contract) : vop -> option Z -> contract -> Prop :=
  | a_full size t md dvas : open_txg A t ->
      astep vd A (OAlloc size t md dvas) (Some (2 ^ 64 - 1)) (Contract (a_T A) (a_S A) (still_written A t))
  | a_alloc size t md dvas off : open_txg A t -> off < 2 ^ 59 -> fresh_range vd (a_S A) off size ->
      astep vd A (OAlloc size t md dvas) (Some off)
        (Contract (a_T A) (upd_range (a_S A) off size (fun _ => Born t None)) (still_written A t))
  | a_free_now off size t : open_txg A t ->
      astep vd A (OFree off size t true) None (Contract (a_T A) (upd_range (a_S A) off size (fun _ => Free)) (still_written A t))
  | a_free off size t : open_txg A t ->
      astep vd A (OFree off size t false) None (Contract (a_T A) (upd_range (a_S A) off size (mark_freed t)) (still_written A t))
  | a_claim off size t : open_txg A t -> fresh_range vd (a_S A) off size ->
      astep vd A (OClaim off size t) None (Contract (a_T A) (upd_range (a_S A) off size (fun _ => Born t None)) (still_written A t))
  | a_sync pass : astep vd A (OSync pass) None (Contract (a_T A) (fun x => sync_status (a_T A) (a_S A x)) true)
  | a_done : a_written A = true -> astep vd A ODone None (Contract (a_T A + 1) (fun x => done_status (a_S A x)) false).

(** What the clients owe: only what is allocated is freed, once, and a group is done
    when it has been written.  A claim is made when the pool is opened, when weights
    are what the disk says; logs do not grow to 2^63 bytes. *)
Definition enabled (st : vstate) (A : contract) (op : vop) : Prop :=
  let '(vd, os, ms) := st in
  match op with
  | OAlloc size t _ _ => open_txg A t /\ SPA_MINBLOCKSIZE <= size < 2 ^ 61 /\ size `mod` 2 ^ vdev_ashift vd = 0
  | OFree off size t now =>
      open_txg A t /\ block_range vd off size /\
      forall x, in_range off size x -> if now then a_S A x = Born t None else freeable t (a_S A x)
  | OClaim off size t =>
      open_txg A t /\ fresh_range vd (a_S A) off size /\
      forall m, ms !! ms_slot vd off = Some m -> SPA_MINBLOCKSIZE <= ms_weight m
  | OSync _ => forall i m, ms !! i = Some m -> log_room m
  | ODone => a_written A = true
  end.

Definition refines (st : vstate) (A : contract) : Prop :=
  let '(vd, os, ms) := st in
  ms <> [] /\ exists L V, ginv (a_T A) vd os ms (a_S A) L V /\ (a_written A = true -> L (slot (a_T A)) = []).

(** Geometry, which no operation changes. *)
Definition same_place (vd vd' : vdev) : Prop :=
  vdev_id vd' = vdev_id vd /\ vdev_ashift vd' = vdev_ashift vd /\ vdev_ms_shift vd' = vdev_ms_shift vd /\ vdev_ms_count vd' = vdev_ms_count vd.

Lemma ext_place vd vd' : vd_ext vd vd' -> same_place vd vd'.
Proof. by intros []. Qed.

Lemma nonempty_len {A} (l l' : list A) : l <> [] -> length l' = length l -> l' <> [].
Proof. by destruct l, l'. Qed.

Lemma written_list A t vd ms L V vd' ms' L' V' :
  gstep t vd ms L V vd' ms' L' V' -> open_txg A t -> (a_written A = true -> L (slot (a_T A)) = []) ->
  still_written A t = true -> L' (slot (a_T A)) = [].
Proof.
  intros Hg Ht HL Hw. apply andb_true_iff in Hw as [Hw Hne]. apply negb_true_iff, Z.eqb_neq in Hne. specialize (HL Hw).
  destruct (L' (slot (a_T A))) as [|q l] eqn:E; [done|]. exfalso.
  assert (listed L (a_T A) q) as Hq.
  { eapply (gs_list _ _ _ _ _ _ _ _ _ Hg); [|unfold listed; rewrite E; set_solver]. unfold open_txg in Ht.
    intros Es. apply (window_slot (a_T A)) in Es; unfold window; lia. }
  unfold listed in Hq. rewrite HL in Hq. set_solver.
Qed.

(** Every operation of the code that its client may call ends, and does what the
    contract says. *)
Lemma exec_refines st A op :
  refines st A -> enabled st A op ->
  exists st' r A', exec (a_T A) op st = Ok (st', r) /\ astep st.1.1 A op r A' /\ refines st' A' /\ same_place st.1.1 st'.1.1.
Proof.
  destruct st as [[vd os] ms]. intros (Hne & L & V & G & HL). destruct op as [size t md dvas|off size t now|off size t|pass|]; cbn [enabled exec fst snd].
  - intros (Ht & Hs & Hal). destruct (group_alloc_spec _ _ _ _ _ _ _ size t md dvas G Ht Hs Hal) as (vd' & ms' & off & L' & V' & -> & Hg & Hp). run.
    exists (vd', os, ms'), (Some off). pose proof (written_list A t _ _ _ _ _ _ _ _ Hg Ht HL) as HL'.
    pose proof (nonempty_len ms ms' Hne (gs_len _ _ _ _ _ _ _ _ _ Hg)) as Hne'. pose proof (ext_place _ _ (gs_ext _ _ _ _ _ _ _ _ _ Hg)) as Hpl.
    destruct Hp as [[-> G']|(Ho & Hf & G')].
    + eexists. split; [done|]. split; [by apply a_full|]. split; [|done]. split; [done|]. by exists L', V'.
    + eexists. split; [done|]. split; [by apply a_alloc|]. split; [|done]. split; [done|]. by exists L', V'.
  - intros (Ht & Hr & Hs). destruct now.
    + destruct (group_free_now_spec _ _ _ _ _ _ _ off size t G Ht Hr Hs) as (vd' & ms' & L' & V' & -> & G' & Hg). run.
      eexists (vd', os, ms'), _, _. split; [done|]. split; [by apply a_free_now|]. split; [|exact (ext_place _ _ (gs_ext _ _ _ _ _ _ _ _ _ Hg))].
      split; [exact (nonempty_len ms ms' Hne (gs_len _ _ _ _ _ _ _ _ _ Hg))|]. exists L', V'. split; [done|]. exact (written_list A t _ _ _ _ _ _ _ _ Hg Ht HL).
    + destruct (group_free_spec _ _ _ _ _ _ _ off size t G Ht Hr Hs) as (vd' & ms' & L' & V' & -> & G' & Hg). run.
      eexists (vd', os, ms'), _, _. split; [done|]. split; [by apply a_free|]. split; [|exact (ext_place _ _ (gs_ext _ _ _ _ _ _ _ _ _ Hg))].
      split; [exact (nonempty_len ms ms' Hne (gs_len _ _ _ _ _ _ _ _ _ Hg))|]. exists L', V'. split; [done|]. exact (written_list A t _ _ _ _ _ _ _ _ Hg Ht HL).
  - intros (Ht & Hf & Hw). destruct (group_claim_spec _ _ _ _ _ _ _ off size t G Ht (proj1 Hf) (proj2 Hf) Hw) as (vd' & ms' & L' & V' & -> & G' & Hg). run.
    eexists (vd', os, ms'), _, _. split; [done|]. split; [by apply a_claim|]. split; [|exact (ext_place _ _ (gs_ext _ _ _ _ _ _ _ _ _ Hg))].
    split; [exact (nonempty_len ms ms' Hne (gs_len _ _ _ _ _ _ _ _ _ Hg))|]. exists L', V'. split; [done|]. exact (written_list A t _ _ _ _ _ _ _ _ Hg Ht HL).
  - intros Hroom. destruct (vdev_sync_spec _ _ _ _ _ _ _ V pass G Hne) as (vd' & os' & ms' & L' & -> & G' & He & _ & _ & Hlen & El); [eauto|done|]. run.
    eexists (vd', os', ms'), _, _. split; [done|]. split; [apply a_sync|]. split; [|exact (ext_place _ _ He)].
    split; [exact (nonempty_len ms ms' Hne Hlen)|]. by eexists L', _.
  - intros Hw. destruct (vdev_sync_done_spec _ _ _ _ _ _ _ G (HL Hw)) as (vd' & ms' & L' & -> & G' & He & Hlen). run.
    eexists (vd', os, ms'), _, _. split; [done|]. split; [by apply a_done|]. split; [|exact (ext_place _ _ He)].
    split; [exact (nonempty_len ms ms' Hne Hlen)|]. by exists L', V.
Qed.

Definition event : Type := vop * option Z.

Inductive history : vstate -> contract -> list event -> vstate -> contract -> Prop :=
  | h_nil st A : history st A [] st A
  | h_step st A op st1 r A1 tr st2 A2 :
      enabled st A op -> exec (a_T A) op st = Ok (st1, r) -> astep st.1.1 A op r A1 ->
      history st1 A1 tr st2 A2 -> history st A ((op, r) :: tr) st2 A2.

Lemma astep_det vd A op r A1 A2 : astep vd A op r A1 -> astep vd A op r A2 -> A1 = A2.
Proof. intros H1 H2. destruct H1; inversion H2; subst; try done; lia. Qed.

Lemma history_refines st A tr st' A' : history st A tr st' A' -> refines st A -> refines st' A'.
Proof.
  induction 1 as [|st A op st1 r A1 tr st2 A2 He Hx Ha Hh IH]; intros R; [done|]. apply IH.
  destruct (exec_refines st A op R He) as (st1' & r' & A1' & Hx' & Ha' & R' & _). rewrite Hx in Hx'. injection Hx' as <- <-.
  by rewrite (astep_det _ _ _ _ _ _ Ha Ha').
Qed.

(** A property of statuses that every step keeps, as long as group [t] is not done. *)
Lemma history_keeps (P : Z -> status -> Prop) x l n st A tr st' A' :
  (forall T s, T < n -> P T s -> P T (sync_status T s)) -> (forall T s, l <= T -> T + 1 < n -> P T s -> P (T + 1) (done_status s)) ->
  (forall T s t, P T s -> s <> Free /\ s <> Born t None /\ (freeable t s -> P T (mark_freed t s))) ->
  history st A tr st' A' -> refines st A -> l <= a_T A -> P (a_T A) (a_S A x) -> a_T A' < n -> P (a_T A') (a_S A' x).
Proof.
  intros Hsync Hdone Hst Hh. induction Hh as [|st A op st1 r A1 tr st2 A2 He Hx Ha Hh IH]; intros R Hl HP Hn; [done|].
  assert (a_T A <= a_T A1 <= a_T A2) as Hmono.
  { assert (forall st A tr st' A', history st A tr st' A' -> a_T A <= a_T A') as Hm.
    { induction 1 as [|? ? ? ? ? ? ? ? ? _ _ Hs _ IHh]; [done|]. destruct Hs; cbn in IHh; lia. }
    split; [destruct Ha; cbn; lia|by eapply Hm]. }
  assert (refines st1 A1) as R1.
  { eapply (history_refines st A [(op, r)]); [|done]. by repeat econstructor. }
  apply IH; [done|lia| |done]. clear IH Hh Hx R1. destruct (Hst _ _ 0 HP) as (Hnf & _ & _).
  destruct st as [[vd os] ms]. destruct Ha as [size t md dvas Ht|size t md dvas off Ht Ho [_ Hf]|off size t Ht|off size t Ht|off size t Ht [_ Hf]|pass|Hw]; cbn in *; try done.
  - destruct (in_range_dec off size x) as [Hin|Hin]; [by specialize (Hf x Hin)|by rewrite upd_out].
  - destruct (in_range_dec off size x) as [Hin|Hin]; [|by rewrite upd_out]. destruct He as (_ & _ & Hb). specialize (Hb x Hin).
    by destruct (Hst _ _ t HP) as (_ & ? & _).
  - destruct (in_range_dec off size x) as [Hin|Hin]; [|by rewrite upd_out]. rewrite upd_in by done. destruct He as (_ & _ & Hb).
    apply (Hst _ _ t HP). by apply Hb.
  - destruct (in_range_dec off size x) as [Hin|Hin]; [by specialize (Hf x Hin)|by rewrite upd_out].
  - apply Hsync; [lia|done].
  - apply Hdone; [lia|lia|done].
Qed.

Lemma alloc_result st A size t md dvas st' off :
  refines st A -> enabled st A (OAlloc size t md dvas) -> exec (a_T A) (OAlloc size t md dvas) st = Ok (st', Some off) ->
  off = 2 ^ 64 - 1 \/ forall x, in_range off size x -> a_S A x = Free.
Proof.
  intros R He Hx. destruct (exec_refines st A _ R He) as (st1 & r & A1 & Hx' & Ha & _). rewrite Hx in Hx'. injection Hx' as <- <-.
  inversion Ha as [|? ? ? ? ? ? ? [_ Hf]| | | | |]; subst; [by left|by right].
Qed.

Lemma range_low st A x off : refines st A -> off = 2 ^ 64 - 1 -> a_S A x <> Free -> ~ off <= x.
Proof.
  destruct st as [[vd os] ms]. intros (Hne & L & V & G & _) -> Hx Hle. destruct ms as [|m ms]; [done|].
  pose proof (g_slab _ _ _ _ _ _ _ _ G 0%nat m eq_refl) as Sl. pose proof (i_geom _ _ _ _ _ (sl_minv _ _ _ _ _ _ _ _ Sl)) as [_ _ _ _ Hv].
  apply Hx, (g_out _ _ _ _ _ _ _ _ G). lia.
Qed.

(** C1: Along every history of a top-level vdev - allocations, frees and claims in the
    groups that are open, interleaved with the passes that sync a group and with its
    end - the metaslabs, their trees and lists, their logs and the counters keep the
    invariant that relates them to one status for each offset; and every operation
    its client may call next ends without a failed assertion and is a step of the
    contract: an allocation gives a range inside one metaslab that was free, or says
    there is none, a free is entered, a sync moves the changes of the group to disk
    and the end of the group makes freed space free. *)
Theorem vdev_histories_refine (st : vstate) (A : contract) (tr : list event) (st' : vstate) (A' : contract) (op : vop) :
  refines st A -> history st A tr st' A' -> enabled st' A' op ->
  refines st' A' /\ exists st2 r A2, exec (a_T A') op st' = Ok (st2, r) /\ astep st'.1.1 A' op r A2 /\ refines st2 A2.
Proof.
  intros R Hh He. pose proof (history_refines _ _ _ _ _ Hh R) as R'. split; [done|].
  destruct (exec_refines st' A' op R' He) as (st2 & r & A2 & H1 & H2 & H3 & _). by exists st2, r, A2.
Qed.

(** C2: Space that the disk says is allocated when a group becomes the one that syncs
    is not given to anyone while that group is, whatever is freed, synced or
    allocated in between: what the last group on disk refers to is never
    overwritten. *)
Theorem committed_space_not_reused (st : vstate) (A : contract) (tr : list event) (st' : vstate) (A' : contract)
    (x size t md : Z) (dvas : list dva) (st2 : vstate) (off : Z) :
  refines st A -> history st A tr st' A' -> a_T A' = a_T A -> on_disk (a_S A x) ->
  enabled st' A' (OAlloc size t md dvas) -> exec (a_T A') (OAlloc size t md dvas) st' = Ok (st2, Some off) ->
  ~ off <= x < off + size.
Proof.
  intros R Hh ET Hd He Hx Hin. pose proof (history_refines _ _ _ _ _ Hh R) as R'.
  assert (on_disk (a_S A' x) \/ a_S A' x = Dying) as HP.
  { refine (history_keeps (fun _ s => on_disk s \/ s = Dying) x (a_T A) (a_T A + 1) st A tr st' A' _ _ _ Hh R _ _ _); try lia.
    - intros T s _ [H1| ->]; [|by right]. destruct s as [| |[u|]|]; try done; cbn; [|by left]. destruct (u =? T); [by right|by left].
    - intros T s t' [H1| ->]; [|done]. destruct s as [| |[u|]|]; try done; cbn; split_and!; try done; by left.
    - by left. }
  destruct (alloc_result _ _ _ _ _ _ _ _ R' He Hx) as [E|Hf].
  - apply (range_low _ _ x off R' E); [|lia]. destruct HP as [HP| ->]; [by destruct (a_S A' x)|done].
  - rewrite (Hf x Hin) in HP. destruct HP; done.
Qed.

(** C3: Space freed in a group is not given to anyone before that group is on disk:
    as long as the group that syncs is not a later one than the group [t] it was
    freed in, no allocation gives it. *)
Theorem freed_space_waits (st : vstate) (A : contract) (foff fsize t : Z) (tr : list event) (st' : vstate) (A' : contract)
    (x size u md : Z) (dvas : list dva) (st2 : vstate) (off : Z) :
  refines st A -> history st A ((OFree foff fsize t false, None) :: tr) st' A' -> foff <= x < foff + fsize -> a_T A' <= t ->
  enabled st' A' (OAlloc size u md dvas) -> exec (a_T A') (OAlloc size u md dvas) st' = Ok (st2, Some off) ->
  ~ off <= x < off + size.
Proof.
  intros R Hh Hf Hge He Hx Hin.
  pose proof (history_refines _ _ _ _ _ Hh R) as R'.
  inversion Hh as [|? ? ? st1 ? A1 ? ? ? He1 Hx1 Ha1 Hh1]; subst.
  assert (refines st1 A1) as R1.
  { eapply (history_refines st A [(OFree foff fsize t false, None)]); [|done]. eapply h_step; [done|done|done|constructor]. }
  assert (freed_in (a_S A' x) t \/ (a_S A' x = Dying /\ a_T A' = t)) as HP.
  { refine (history_keeps (fun T s => freed_in s t \/ (s = Dying /\ T = t)) x (a_T A1) (t + 1) st1 A1 tr st' A' _ _ _ Hh1 R1 _ _ _); try lia.
    - intros T s _ [H1|[-> ->]]; [|by right]. destruct (decide (T = t)) as [->|Hne].
      + destruct s as [|v [w|]|[w|]|]; cbn in *; try done; subst; rewrite ?Z.eqb_refl; repeat (case Z.eqb_spec; intros; cbn); subst; auto; try tauto.
      + left. destruct s as [|v [w|]|[w|]|]; cbn in *; try done; subst; repeat (case Z.eqb_spec; intros; cbn); subst; done || lia.
    - intros T s _ HT [H1|[-> ->]]; [|lia]. left. by destruct s.
    - intros T s v [H1|[-> ->]]; [|done]. destruct s as [|w [z|]|[z|]|]; cbn in *; try done; subst; split_and!; done.
    - inversion Ha1; subst. cbn. rewrite upd_in by done. left. destruct st as [[vd os] ms]. destruct He1 as (_ & _ & Hs). specialize (Hs x Hf).
      destruct (a_S A x) as [|? []|[]|]; done. }
  destruct (alloc_result _ _ _ _ _ _ _ _ R' He Hx) as [E|Hfree].
  - apply (range_low _ _ x off R' E); [|lia]. destruct HP as [HP|[-> _]]; [by destruct (a_S A' x)|done].
  - rewrite (Hfree x Hin) in HP. by destruct HP as [?|[? _]].
Qed.

(** A vdev whose metaslabs have not been opened. *)
Record closed (vd : vdev) : Prop := {
  cl_count : vdev_ms_count vd = 0;
  cl_shift : 9 <= vdev_ashift vd <= vdev_ms_shift vd /\ vdev_ms_shift vd <= 47 + vdev_ashift vd;
  cl_size : 0 <= vdev_asize vd <= 2 ^ 59;
  cl_lists : exists L V, vinv vd [] L V /\ forall t p, ~ listed L t p;
  cl_alloc : vs_alloc (vd_stat vd) = 0
}.

Definition ms_total (vd : vdev) : Z := Z.shiftr (vdev_asize vd) (vdev_ms_shift vd).

Lemma closed_newc vd : closed vd -> 0 <= ms_total vd /\ ms_total vd * 2 ^ vdev_ms_shift vd <= 2 ^ 59.
Proof.
  intros []. unfold ms_total. rewrite Z.shiftr_div_pow2 by lia. pose proof (Z.pow_pos_nonneg 2 (vdev_ms_shift vd) ltac:(lia) ltac:(lia)).
  split; [by apply Z.div_pos; lia|]. pose proof (Z.mul_div_le (vdev_asize vd) (2 ^ vdev_ms_shift vd)). lia.
Qed.

(** A new vdev: everything is free. *)
Lemma new_media vd os txg :
  closed vd -> vdev_ms_array vd = 0 -> txg <> 0 ->
  on_media (set_ms_count vd (ms_total vd)) os (fun _ => Free) txg (fun _ => Smo 0 0 0) (Z.to_nat (ms_total vd)).
Proof.
  intros Hcl Ha Htx i Hi. pose proof (closed_newc _ Hcl) as [Hn Hb]. destruct Hcl. set (vd0 := set_ms_count vd (ms_total vd)).
  split; [unfold read_smo; by rewrite (proj2 (Z.eqb_neq txg 0))|].
  assert (forall x, clip vd0 i (fun _ => Free) x = Free) as Hc by (intros x; unfold clip; by destruct (decide _)).
  assert (geom vd0 (space_map_create (Z.of_nat i * 2 ^ vdev_ms_shift vd0) (2 ^ vdev_ms_shift vd0) (vdev_ashift vd0))) as Hg.
  { split; cbn; try done; [|lia..]. exists (Z.of_nat i). split; [lia|done]. }
  split; try done.
  - exists 0%nat. cbn. split_and!; [done|lia|]. apply rp_nil. intros x. rewrite Hc. tauto.
  - intros x. rewrite Hc. by left.
Qed.

Lemma closed_opens T vd os S smo txg last addr :
  closed vd -> 0 < ms_total vd -> on_media (set_ms_count vd (ms_total vd)) os S txg smo (Z.to_nat (ms_total vd)) ->
  (forall x, ~ 0 <= x < ms_total vd * 2 ^ vdev_ms_shift vd -> S x = Free) ->
  (forall i j : Z, addr i = addr j -> i = j) ->
  (forall i j, (i < Z.to_nat (ms_total vd))%nat -> (j < Z.to_nat (ms_total vd))%nat -> smo_object (smo i) = smo_object (smo j) -> smo_object (smo i) <> 0 -> i = j) ->
  (vdev_ms_array vd <> 0 -> dmu_exists os (vdev_ms_array vd)) ->
  (vdev_ms_array vd = 0 -> forall i, (i < Z.to_nat (ms_total vd))%nat -> smo_object (smo i) = 0) ->
  txg <= TXG_INITIAL -> (txg <> 0 -> TXG_CLEAN txg = last) ->
  exists vd' ms, vdev_metaslab_init vd [] os txg last addr = Ok (vd', ms, true) /\ refines (vd', os, ms) (Contract T S false) /\
    vd_ext (set_ms_count vd (ms_total vd)) vd'.
Proof.
  intros Hcl Hpos Hm Hout Hinj Hobj Ha Hna Htx Hlast. pose proof (closed_newc _ Hcl) as [Hn Hb]. pose proof Hcl as []. destruct cl_lists0 as (L & V & Hv & HL).
  destruct (vdev_metaslab_init_spec T vd os S L V smo addr txg last) as (vd' & ms & L' & V' & E & G & He & _); try done; try lia.
  { intros i j _ _ Hij. apply Hinj in Hij. lia. }
  exists vd', ms. split; [done|]. split; [|done]. split; [|by exists L', V']. intros ->. pose proof (g_count _ _ _ _ _ _ _ _ G) as Hc.
  rewrite (e_ms_count _ _ He) in Hc. cbn in Hc. unfold ms_total in *. lia.
Qed.

(** C4: Opening the metaslabs of a vdev from the object set another history left
    behind - the array of log objects, the header in each object's bonus buffer, the
    logs, appended to or condensed - finds exactly the offsets that were allocated
    on disk: they are allocated, everything else is free, and the vdev is ready for
    any history. *)
Theorem reopen_finds_allocated (vd : vdev) (os : objset) (ms : list metaslab) (A : contract) (vd0 : vdev) (T last : Z) (addr : Z -> Z) :
  refines (vd, os, ms) A -> vdev_ms_array vd <> 0 ->
  closed vd0 -> vdev_ms_array vd0 = vdev_ms_array vd -> vdev_ms_shift vd0 = vdev_ms_shift vd -> vdev_ashift vd0 = vdev_ashift vd ->
  ms_total vd0 = vdev_ms_count vd -> (forall i j, addr i = addr j -> i = j) ->
  exists vd' ms', vdev_metaslab_init vd0 [] os 0 last addr = Ok (vd', ms', true) /\
    refines (vd', os, ms') (Contract T (fun x => disk_status (a_S A x)) false).
Proof.
  intros (Hne & L & V & G & _) Ha Hcl E1 E2 E3 E4 Hinj. pose proof (g_core _ _ _ _ _ _ _ _ G) as C. pose proof (c_count _ _ _ _ _ C) as Hc.
  pose proof (media_of _ vd os ms (a_S A) L V V (set_ms_count vd0 (ms_total vd0)) G Ha E1 E2 E4 E3) as Hm.
  replace (length ms) with (Z.to_nat (ms_total vd0)) in Hm by lia.
  destruct (closed_opens T vd0 os _ _ 0 last addr Hcl ltac:(destruct ms; [done|cbn in Hc; lia]) Hm) as (vd' & ms' & E & R & _); try done.
  - intros x Hx. rewrite E4, E2 in Hx. by rewrite (g_out _ _ _ _ _ _ _ _ G x Hx).
  - intros i j Hi Hj. destruct (lookup_lt_is_Some_2 ms i ltac:(lia)) as [m Hm1], (lookup_lt_is_Some_2 ms j ltac:(lia)) as [m' Hm2].
    rewrite Hm1, Hm2. cbn. by eapply (c_objs _ _ _ _ _ C).
  - rewrite E1. apply C.
  - rewrite E1. done.
  - by exists vd', ms'.
Qed.
End Group.

(** ** A vdev of two metaslabs, on AVL trees and an object set in memory

    The array of logs is object 1; the log of the first metaslab, object 2, says that
    its first two sectors are allocated. *)
#[local] Existing Instance Avl.avl_OrdTree.
#[local] Existing Instance RamMos.ram_mos.

Definition ex_vd : vdev :=
  Vdev 100 0 9 8192 12 0 1 512 (VdevStat 0 0 0) (VdevStat 0 0 0) true ot_empty (txg_list_create 8) ∅
    (txg_list_create 16) {[116 := zero_node]} false.
Definition ex_entry : Z := Z.lor (Z.lor (SM_OFFSET_ENCODE 0) (SM_TYPE_ENCODE SM_ALLOC)) (SM_RUN_ENCODE 2).
Definition ex_smo (i : nat) : space_map_obj := match i with O => Smo 2 8 1024 | _ => Smo 0 0 0 end.
Definition ex_os : objset := RamMos.Objs {[1 := [2; 0]; 2 := [ex_entry]]} {[1 := []; 2 := [2; 8; 1024]]}.
Definition ex_addr (i : Z) : Z := 1000 + 100 * i.
Definition ex_S : Z -> status := upd_range (fun _ => Free) 0 1024 (fun _ => Live None).
Definition ex_A : contract := Contract 4 ex_S false.

Lemma ex_closed : closed ex_vd.
Proof.
  split; try done; try (cbn; lia). exists (fun _ => []), (fun _ => []). split; [|intros t p Hp; by apply not_elem_of_nil in Hp]. split; try done.
  - constructor.
  - constructor.
  - by apply rep_create.
  - apply rep_create. intros a n Ha. cbn in Ha. apply lookup_singleton_Some in Ha as [<- <-]. done.
Qed.

Lemma ex_live x : ex_S x = if decide (0 <= x < 1024) then Live None else Free.
Proof. unfold ex_S. destruct (in_range_dec 0 1024 x) as [H|H]; [rewrite upd_in|rewrite upd_out]; try done; unfold in_range in H; case_decide; done || lia. Qed.

Lemma ex_media : on_media (set_ms_count ex_vd (ms_total ex_vd)) ex_os ex_S 0 ex_smo (Z.to_nat (ms_total ex_vd)).
Proof.
  intros i Hi. change (Z.to_nat (ms_total ex_vd)) with 2%nat in Hi. change (ms_total ex_vd) with 2. set (vd := set_ms_count ex_vd 2).
  assert (geom vd (space_map_create (Z.of_nat i * 2 ^ vdev_ms_shift vd) (2 ^ vdev_ms_shift vd) (vdev_ashift vd))) as Hg.
  { split; try done. exists (Z.of_nat i). split; [cbn; lia|done]. }
  destruct i as [|[|]]; [| |lia].
  - split; [reflexivity|]. split; try done.
    + exists 1%nat. split_and!; [done|done|]. change (take 1 (dmu_words ex_os (smo_object (ex_smo 0)))) with ([] ++ [ex_entry]).
      change (smo_alloc (ex_smo 0)) with (0 + e_size (space_map_create 0 4096 9) ex_entry). eapply (rp_alloc _ [] (fun _ => False)); try done.
      * apply rp_nil. by intros x [].
      * by intros x _ [].
      * intros x. unfold in_entry. change (e_start _ ex_entry) with 0. change (e_size _ ex_entry) with 1024.
        unfold clip, inside. cbn [vdev_ms_shift vd set_ms_count ex_vd]. rewrite ex_live. destruct (decide _) as [Hx|Hx]; cbn; [case_decide; cbn; tauto || lia|].
        split; [done|]. intros [[]|Hx']. apply Hx. split; lia.
    + intros x. unfold clip. destruct (decide _); [|by left]. rewrite ex_live. case_decide; auto.
    + intros x Hx. unfold clip. destruct (decide _) as [Hx'|]; [|done]. destruct Hx. exact Hx'.
    + intros _. split; [by vm_compute|]. split; [done|]. by exists [].
  - split; [reflexivity|]. split; try done.
    + exists 0%nat. split_and!; [done|cbn; lia|]. apply rp_nil. intros x. unfold clip, inside. cbn [vdev_ms_shift vd set_ms_count ex_vd]. rewrite ex_live.
      destruct (decide _) as [Hx|Hx]; [|by intros []]. rewrite decide_False; [by intros []|lia].
    + intros x. unfold clip. destruct (decide _); [|by left]. rewrite ex_live. case_decide; auto.
    + intros x Hx. unfold clip. destruct (decide _) as [Hx'|]; [|done]. destruct Hx. exact Hx'.
Qed.

Lemma ex_opens : exists vd ms, refines (vd, ex_os, ms) ex_A /\ vd_ext (set_ms_count ex_vd 2) vd.
Proof.
  destruct (closed_opens false 4 ex_vd ex_os ex_S ex_smo 0 0 ex_addr ex_closed) as (vd & ms & _ & R & He).
  - reflexivity.
  - exact ex_media.
  - intros x Hx. rewrite ex_live. change (ms_total ex_vd * 2 ^ vdev_ms_shift ex_vd) with 8192 in Hx. rewrite decide_False; [done|lia].
  - intros i j H. unfold ex_addr in H. lia.
  - intros [|i] [|j] Hi Hj; cbn; try done; lia.
  - intros _. by vm_compute.
  - done.
  - by vm_compute.
  - done.
  - by exists vd, ms.
Qed.

(** The two sectors are freed in group 5, while group 4 syncs. *)
Definition ex_free : vop := OFree 0 1024 5 false.
Definition ex_A1 : contract := Contract 4 (upd_range ex_S 0 1024 (mark_freed 5)) false.

Lemma ex_freed : exists st st1, refines st ex_A /\ history false st ex_A [(ex_free, None)] st1 ex_A1 /\
  enabled st1 ex_A1 (OAlloc 512 6 0 []).
Proof.
  destruct ex_opens as (vd & ms & R & He). destruct (ext_place _ _ He) as (_ & E1 & E2 & E3). cbn in E1, E2, E3.
  assert (enabled (vd, ex_os, ms) ex_A ex_free) as Hen.
  { split; [unfold open_txg; cbn; lia|]. split.
    - unfold block_range, inside. rewrite E1, E2, E3. split_and!; try done. exists 0%nat. split; [lia|]. unfold in_range. lia.
    - intros x Hx. cbn. rewrite ex_live, decide_True; done. }
  destruct (exec_refines false _ _ _ R Hen) as (st1 & r & A1 & Hx & Ha & R1 & Hp). exists (vd, ex_os, ms), st1. split; [done|].
  inversion Ha; subst. split.
  - eapply h_step; [exact Hen|exact Hx|exact Ha|constructor].
  - destruct st1 as [[vd1 os1] ms1]. destruct Hp as (_ & E4 & _). cbn in E4. cbn. rewrite E4, E1. split_and!; try done; unfold open_txg; cbn; lia.
Qed.

Lemma ex_allocates st A t : refines st A -> enabled st A (OAlloc 512 t 0 []) ->
  exists st' off, exec false (a_T A) (OAlloc 512 t 0 []) st = Ok (st', Some off).
Proof.
  intros R He. destruct (exec_refines false _ _ _ R He) as (st' & r & A' & Hx & Ha & _). exists st'. inversion Ha; subst; eauto.
Qed.

Lemma vdev_histories_refine_witness : exists st A r st2 A2,
  exec false 4 (OAlloc 512 6 0 []) st = Ok (st2, r) /\ astep st.1.1 A (OAlloc 512 6 0 []) r A2 /\ refines st2 A2.
Proof.
  destruct ex_freed as (st & st1 & R & Hh & He).
  destruct (vdev_histories_refine false st ex_A [(ex_free, None)] st1 ex_A1 (OAlloc 512 6 0 []) R Hh He) as (_ & st2 & r & A2 & H).
  by exists st1, ex_A1, r, st2, A2.
Defined.

Lemma committed_space_not_reused_witness : exists st st2 off,
  exec false 4 (OAlloc 512 6 0 []) st = Ok (st2, Some off) /\ ~ off <= 0 < off + 512.
Proof.
  destruct ex_freed as (st & st1 & R & Hh & He). pose proof (history_refines _ _ _ _ _ _ Hh R) as R1.
  destruct (ex_allocates _ _ _ R1 He) as (st2 & off & Hx). exists st1, st2, off. split; [exact Hx|].
  apply (committed_space_not_reused false st ex_A [(ex_free, None)] st1 ex_A1 0 512 6 0 [] st2 off R Hh); [reflexivity| |exact He|exact Hx].
  cbn. rewrite ex_live. exact I.
Defined.

Lemma freed_space_waits_witness : exists st st2 off,
  exec false 4 (OAlloc 512 6 0 []) st = Ok (st2, Some off) /\ ~ off <= 1000 < off + 512.
Proof.
  destruct ex_freed as (st & st1 & R & Hh & He). pose proof (history_refines _ _ _ _ _ _ Hh R) as R1.
  destruct (ex_allocates _ _ _ R1 He) as (st2 & off & Hx). exists st1, st2, off. split; [exact Hx|].
  apply (freed_space_waits false st ex_A 0 1024 5 [] st1 ex_A1 1000 512 6 0 [] st2 off R Hh); [lia|cbn; lia|exact He|exact Hx].
Defined.

Lemma reopen_finds_allocated_witness : exists vd' ms',
  vdev_metaslab_init false ex_vd [] ex_os 0 0 ex_addr = Ok (vd', ms', true) /\
  refines (vd', ex_os, ms') (Contract 9 (fun x => disk_status (ex_S x)) false).
Proof.
  destruct ex_opens as (vd & ms & R & He).
  apply (reopen_finds_allocated false vd ex_os ms ex_A ex_vd 9 0 ex_addr R).
  - rewrite (e_ms_array _ _ He). discriminate.
  - exact ex_closed.
  - by rewrite (e_ms_array _ _ He).
  - by rewrite (e_ms_shift _ _ He).
  - by rewrite (e_ashift _ _ He).
  - by rewrite (e_ms_count _ _ He).
  - intros i j H. unfold ex_addr in H. lia.
Defined.
End MetaslabGroup.
