(* ===== verification/Gf256.v ===== *)
(** * The Galois field of RAID-Z: fs/zfs/vdev_raidz.c

    The field GF(2^8) in which the second parity column is computed: the tables of
    powers and logarithms of 2, [vdev_raidz_exp2], and the step that multiplies
    the eight bytes of a word by 2 at once.  Addition is [Z.lxor]; multiplication
    by a power of 2 is [xp], the iteration of multiplication by 2, and the laws of
    the field the reconstruction uses are proved for it.  The field itself is given
    apart from the code, by polynomials over GF(2) and their remainders modulo
    x^8 + x^4 + x^3 + x^2 + 1 ([is_remainder]), and both steps of the code are shown to
    multiply by x there. *)

From stdpp Require Import base option numbers list.
From S2P Require Import Prelude Checksum.
Local Open Scope Z_scope.

Module Gf256.

(** [(((a) << 1) ^ (((a) & 0x80) ? 0x1d : 0))], kept in a [uint8_t] *)
Definition VDEV_RAIDZ_MUL_2 (a : Z) : Z :=
  u8 (Z.lxor (Z.shiftl a 1) (if negb (Z.land a 0x80 =? 0) then 0x1d else 0)).

Definition vdev_raidz_pow2 : list Z :=
  [0x01; 0x02; 0x04; 0x08; 0x10; 0x20; 0x40; 0x80] ++
  [0x1d; 0x3a; 0x74; 0xe8; 0xcd; 0x87; 0x13; 0x26] ++
  [0x4c; 0x98; 0x2d; 0x5a; 0xb4; 0x75; 0xea; 0xc9] ++
  [0x8f; 0x03; 0x06; 0x0c; 0x18; 0x30; 0x60; 0xc0] ++
  [0x9d; 0x27; 0x4e; 0x9c; 0x25; 0x4a; 0x94; 0x35] ++
  [0x6a; 0xd4; 0xb5; 0x77; 0xee; 0xc1; 0x9f; 0x23] ++
  [0x46; 0x8c; 0x05; 0x0a; 0x14; 0x28; 0x50; 0xa0] ++
  [0x5d; 0xba; 0x69; 0xd2; 0xb9; 0x6f; 0xde; 0xa1] ++
  [0x5f; 0xbe; 0x61; 0xc2; 0x99; 0x2f; 0x5e; 0xbc] ++
  [0x65; 0xca; 0x89; 0x0f; 0x1e; 0x3c; 0x78; 0xf0] ++
  [0xfd; 0xe7; 0xd3; 0xbb; 0x6b; 0xd6; 0xb1; 0x7f] ++
  [0xfe; 0xe1; 0xdf; 0xa3; 0x5b; 0xb6; 0x71; 0xe2] ++
  [0xd9; 0xaf; 0x43; 0x86; 0x11; 0x22; 0x44; 0x88] ++
  [0x0d; 0x1a; 0x34; 0x68; 0xd0; 0xbd; 0x67; 0xce] ++
  [0x81; 0x1f; 0x3e; 0x7c; 0xf8; 0xed; 0xc7; 0x93] ++
  [0x3b; 0x76; 0xec; 0xc5; 0x97; 0x33; 0x66; 0xcc] ++
  [0x85; 0x17; 0x2e; 0x5c; 0xb8; 0x6d; 0xda; 0xa9] ++
  [0x4f; 0x9e; 0x21; 0x42; 0x84; 0x15; 0x2a; 0x54] ++
  [0xa8; 0x4d; 0x9a; 0x29; 0x52; 0xa4; 0x55; 0xaa] ++
  [0x49; 0x92; 0x39; 0x72; 0xe4; 0xd5; 0xb7; 0x73] ++
  [0xe6; 0xd1; 0xbf; 0x63; 0xc6; 0x91; 0x3f; 0x7e] ++
  [0xfc; 0xe5; 0xd7; 0xb3; 0x7b; 0xf6; 0xf1; 0xff] ++
  [0xe3; 0xdb; 0xab; 0x4b; 0x96; 0x31; 0x62; 0xc4] ++
  [0x95; 0x37; 0x6e; 0xdc; 0xa5; 0x57; 0xae; 0x41] ++
  [0x82; 0x19; 0x32; 0x64; 0xc8; 0x8d; 0x07; 0x0e] ++
  [0x1c; 0x38; 0x70; 0xe0; 0xdd; 0xa7; 0x53; 0xa6] ++
  [0x51; 0xa2; 0x59; 0xb2; 0x79; 0xf2; 0xf9; 0xef] ++
  [0xc3; 0x9b; 0x2b; 0x56; 0xac; 0x45; 0x8a; 0x09] ++
  [0x12; 0x24; 0x48; 0x90; 0x3d; 0x7a; 0xf4; 0xf5] ++
  [0xf7; 0xf3; 0xfb; 0xeb; 0xcb; 0x8b; 0x0b; 0x16] ++
  [0x2c; 0x58; 0xb0; 0x7d; 0xfa; 0xe9; 0xcf; 0x83] ++
  [0x1b; 0x36; 0x6c; 0xd8; 0xad; 0x47; 0x8e; 0x01].

Definition vdev_raidz_log2 : list Z :=
  [0x00; 0x00; 0x01; 0x19; 0x02; 0x32; 0x1a; 0xc6] ++
  [0x03; 0xdf; 0x33; 0xee; 0x1b; 0x68; 0xc7; 0x4b] ++
  [0x04; 0x64; 0xe0; 0x0e; 0x34; 0x8d; 0xef; 0x81] ++
  [0x1c; 0xc1; 0x69; 0xf8; 0xc8; 0x08; 0x4c; 0x71] ++
  [0x05; 0x8a; 0x65; 0x2f; 0xe1; 0x24; 0x0f; 0x21] ++
  [0x35; 0x93; 0x8e; 0xda; 0xf0; 0x12; 0x82; 0x45] ++
  [0x1d; 0xb5; 0xc2; 0x7d; 0x6a; 0x27; 0xf9; 0xb9] ++
  [0xc9; 0x9a; 0x09; 0x78; 0x4d; 0xe4; 0x72; 0xa6] ++
  [0x06; 0xbf; 0x8b; 0x62; 0x66; 0xdd; 0x30; 0xfd] ++
  [0xe2; 0x98; 0x25; 0xb3; 0x10; 0x91; 0x22; 0x88] ++
  [0x36; 0xd0; 0x94; 0xce; 0x8f; 0x96; 0xdb; 0xbd] ++
  [0xf1; 0xd2; 0x13; 0x5c; 0x83; 0x38; 0x46; 0x40] ++
  [0x1e; 0x42; 0xb6; 0xa3; 0xc3; 0x48; 0x7e; 0x6e] ++
  [0x6b; 0x3a; 0x28; 0x54; 0xfa; 0x85; 0xba; 0x3d] ++
  [0xca; 0x5e; 0x9b; 0x9f; 0x0a; 0x15; 0x79; 0x2b] ++
  [0x4e; 0xd4; 0xe5; 0xac; 0x73; 0xf3; 0xa7; 0x57] ++
  [0x07; 0x70; 0xc0; 0xf7; 0x8c; 0x80; 0x63; 0x0d] ++
  [0x67; 0x4a; 0xde; 0xed; 0x31; 0xc5; 0xfe; 0x18] ++
  [0xe3; 0xa5; 0x99; 0x77; 0x26; 0xb8; 0xb4; 0x7c] ++
  [0x11; 0x44; 0x92; 0xd9; 0x23; 0x20; 0x89; 0x2e] ++
  [0x37; 0x3f; 0xd1; 0x5b; 0x95; 0xbc; 0xcf; 0xcd] ++
  [0x90; 0x87; 0x97; 0xb2; 0xdc; 0xfc; 0xbe; 0x61] ++
  [0xf2; 0x56; 0xd3; 0xab; 0x14; 0x2a; 0x5d; 0x9e] ++
  [0x84; 0x3c; 0x39; 0x53; 0x47; 0x6d; 0x41; 0xa2] ++
  [0x1f; 0x2d; 0x43; 0xd8; 0xb7; 0x7b; 0xa4; 0x76] ++
  [0xc4; 0x17; 0x49; 0xec; 0x7f; 0x0c; 0x6f; 0xf6] ++
  [0x6c; 0xa1; 0x3b; 0x52; 0x29; 0x9d; 0x55; 0xaa] ++
  [0xfb; 0x60; 0x86; 0xb1; 0xbb; 0xcc; 0x3e; 0x5a] ++
  [0xcb; 0x59; 0x5f; 0xb0; 0x9c; 0xa9; 0xa0; 0x51] ++
  [0x0b; 0xf5; 0x16; 0xeb; 0x7a; 0x75; 0x2c; 0xd7] ++
  [0x4f; 0xae; 0xd5; 0xe9; 0xe6; 0xe7; 0xad; 0xe8] ++
  [0x74; 0xd6; 0xf4; 0xea; 0xa8; 0x50; 0x58; 0xaf].

Definition vdev_raidz_exp2 (a exp : Z) : outcome Z :=
  if a =? 0 then Ok 0
  else
    _ ← verify (0 <=? exp);
    l ← rd vdev_raidz_log2 a;
    _ ← verify ((0 <? l) || (a =? 1));
    let exp := exp + l in
    let exp := if 255 <? exp then exp - 255 else exp in
    rd vdev_raidz_pow2 exp.

(** Eight bytes at once: a mask of 0xff in every byte whose high bit is set
    selects the bytes to which 0x1d is added after the shift. *)
Definition mul2_word (q : Z) : Z :=
  let mask := Z.land q 0x8080808080808080 in
  let mask := u64 (u64 (Z.shiftl mask 1) - Z.shiftr mask 7) in
  Z.lxor (Z.land (u64 (Z.shiftl q 1)) 0xfefefefefefefefe) (Z.land mask 0x1d1d1d1d1d1d1d1d).

(** ** Multiplication by powers of 2 *)

Definition xp (k : nat) (a : Z) : Z := Nat.iter k VDEV_RAIDZ_MUL_2 a.

Lemma xp_S k a : xp (S k) a = VDEV_RAIDZ_MUL_2 (xp k a).
Proof. reflexivity. Qed.

Lemma mul2_range a : is_byte (VDEV_RAIDZ_MUL_2 a).
Proof. apply (wrap_range 8). lia. Qed.

Lemma xp_range k a : is_byte a -> is_byte (xp k a).
Proof. destruct k; [done|]. intros _. apply mul2_range. Qed.

Lemma xp_add j k a : xp (j + k) a = xp j (xp k a).
Proof. apply Nat.iter_add. Qed.

Lemma wrap_lxor w a b : 0 <= w -> wrap w (Z.lxor a b) = Z.lxor (wrap w a) (wrap w b).
Proof.
  intros Hw. unfold wrap. apply Z.bits_inj'. intros i Hi. rewrite Z.lxor_spec.
  destruct (decide (i < w)).
  - rewrite !Z.mod_pow2_bits_low by lia. apply Z.lxor_spec.
  - rewrite !Z.mod_pow2_bits_high by lia. done.
Qed.

Lemma lxor_byte a b : is_byte a -> is_byte b -> is_byte (Z.lxor a b).
Proof.
  intros Ha Hb. rewrite <- (wrap_small 8 a), <- (wrap_small 8 b), <- wrap_lxor by done || lia. apply (wrap_range 8). lia.
Qed.

Lemma land_0x80 a : (Z.land a 0x80 =? 0) = negb (Z.testbit a 7).
Proof.
  destruct (Z.testbit a 7) eqn:E; cbn [negb].
  - apply Z.eqb_neq. intros H. assert (Z.testbit (Z.land a 0x80) 7 = false) as H1 by (by rewrite H, Z.bits_0).
    rewrite Z.land_spec, E in H1. done.
  - apply Z.eqb_eq. apply Z.bits_inj'. intros i Hi. rewrite Z.land_spec, Z.bits_0. change 0x80 with (2 ^ 7).
    rewrite Z.pow2_bits_eqb by lia. destruct (Z.eqb_spec 7 i) as [<-|]; [by rewrite E|apply andb_false_r].
Qed.

(** Multiplication by 2 distributes over addition, so multiplication by every power does. *)
Lemma mul2_lxor a b : VDEV_RAIDZ_MUL_2 (Z.lxor a b) = Z.lxor (VDEV_RAIDZ_MUL_2 a) (VDEV_RAIDZ_MUL_2 b).
Proof.
  unfold VDEV_RAIDZ_MUL_2. rewrite <- wrap_lxor by lia. f_equal. rewrite !land_0x80, Z.lxor_spec, Z.shiftl_lxor.
  apply Z.bits_inj'. intros i _. destruct (Z.testbit a 7), (Z.testbit b 7); cbn [negb xorb]; rewrite !Z.lxor_spec, ?Z.bits_0.
  all: destruct (Z.testbit (Z.shiftl a 1) i), (Z.testbit (Z.shiftl b 1) i), (Z.testbit 29 i); done.
Qed.

Lemma xp_lxor k a b : xp k (Z.lxor a b) = Z.lxor (xp k a) (xp k b).
Proof. induction k as [|k IH]; [done|]. rewrite !xp_S, IH. apply mul2_lxor. Qed.

Lemma xp_0 k : xp k 0 = 0.
Proof. induction k as [|k IH]; [done|]. by rewrite xp_S, IH. Qed.

(** ** The tables *)

Fixpoint powers (n : nat) (a : Z) : list Z :=
  match n with O => [] | S n' => a :: powers n' (VDEV_RAIDZ_MUL_2 a) end.

Lemma powers_lookup n a k : (k < n)%nat -> powers n a !! k = Some (xp k a).
Proof.
  revert a k. induction n as [|n IH]; intros a k Hk; [lia|]. destruct k as [|k]; [done|].
  cbn. rewrite IH by lia. f_equal. unfold xp. by rewrite <- Nat.iter_succ_r.
Qed.

Lemma pow2_table : vdev_raidz_pow2 = powers 256 1.
Proof. vm_compute. reflexivity. Qed.

Definition log_good (a : Z) : bool :=
  match rd vdev_raidz_log2 a with
  | Ok l => (0 <=? l) && (l <=? 254) && ((0 <? l) || (a =? 1)) &&
            match rd vdev_raidz_pow2 l with Ok v => v =? a | Err _ => false end
  | Err _ => false
  end.

Lemma log2_table : forallb log_good (map Z.of_nat (seq 1 255)) = true.
Proof. vm_compute. reflexivity. Qed.

Lemma pow2_rd k : 0 <= k <= 255 -> rd vdev_raidz_pow2 k = Ok (xp (Z.to_nat k) 1).
Proof. intros Hk. apply rd_ok. split; [lia|]. rewrite pow2_table. apply powers_lookup. lia. Qed.

(** Every non-zero byte is a power of 2. *)
Lemma log2_rd a :
  is_byte a -> a <> 0 ->
  exists l, rd vdev_raidz_log2 a = Ok l /\ 0 <= l <= 254 /\ xp (Z.to_nat l) 1 = a /\ ((0 <? l) || (a =? 1)) = true.
Proof.
  intros Ha Hne. pose proof log2_table as H. rewrite forallb_forall in H.
  specialize (H a). unfold log_good in H.
  assert (In a (map Z.of_nat (seq 1 255))) as Hin.
  { apply in_map_iff. exists (Z.to_nat a). unfold is_byte in Ha. split; [lia|]. apply in_seq. lia. }
  specialize (H Hin). destruct (rd vdev_raidz_log2 a) as [l|] eqn:E; [|done]. exists l.
  destruct (rd vdev_raidz_pow2 l) as [v|] eqn:E2; [|by rewrite andb_false_r in H].
  apply andb_true_iff in H as [H H4]. apply andb_true_iff in H as [H H3]. b2p.
  rewrite pow2_rd in E2 by lia. injection E2 as <-. split_and!; [done|lia|lia|done|done].
Qed.

Lemma xp_255_1 : xp 255 1 = 1.
Proof. vm_compute. reflexivity. Qed.

Lemma xp_comm j k a : xp j (xp k a) = xp k (xp j a).
Proof. by rewrite <- !xp_add, Nat.add_comm. Qed.

(** The powers of 2 repeat after 255. *)
Lemma xp_255 a : is_byte a -> xp 255 a = a.
Proof.
  intros Ha. destruct (decide (a = 0)) as [->|Hne]; [apply xp_0|].
  destruct (log2_rd a Ha Hne) as (l & _ & _ & <- & _). by rewrite xp_comm, xp_255_1.
Qed.

Lemma exp2_spec a exp :
  is_byte a -> 0 <= exp <= 255 -> vdev_raidz_exp2 a exp = Ok (xp (Z.to_nat exp) a).
Proof.
  intros Ha He. unfold vdev_raidz_exp2. destruct (Z.eqb_spec a 0) as [->|Hne]; [by rewrite xp_0|].
  rewrite (proj2 (Z.leb_le 0 exp)) by lia. cbn [verify]. run.
  destruct (log2_rd a Ha Hne) as (l & -> & Hl & Hx & Hg). run. rewrite Hg. cbn [verify]. run.
  assert (xp (Z.to_nat exp) a = xp (Z.to_nat (exp + l)) 1) as ->.
  { rewrite <- Hx, <- xp_add. f_equal. lia. }
  destruct (Z.ltb_spec 255 (exp + l)); [|apply pow2_rd; lia].
  rewrite pow2_rd by lia. f_equal. replace (Z.to_nat (exp + l)) with (Z.to_nat (exp + l - 255) + 255)%nat by lia.
  by rewrite xp_add, xp_255_1.
Qed.

(** Equal powers of 2 multiply every byte alike: the step from exponents to field elements. *)
Lemma xp_ext j k : xp j 1 = xp k 1 -> forall a, is_byte a -> xp j a = xp k a.
Proof.
  intros E a Ha. destruct (decide (a = 0)) as [->|Hne]; [by rewrite !xp_0|].
  destruct (log2_rd a Ha Hne) as (l & _ & _ & <- & _). by rewrite xp_comm, E, xp_comm.
Qed.

(** A sum of two powers that is 1 multiplies every byte to itself. *)
Lemma xp_sum_one j k : Z.lxor (xp j 1) (xp k 1) = 1 -> forall a, is_byte a -> Z.lxor (xp j a) (xp k a) = a.
Proof.
  intros E a Ha. destruct (decide (a = 0)) as [->|Hne]; [by rewrite !xp_0|].
  destruct (log2_rd a Ha Hne) as (l & _ & _ & <- & _). by rewrite (xp_comm j), (xp_comm k), <- xp_lxor, E.
Qed.

(** ** Words and their bytes *)

Definition byte (w : Z) (i : nat) : Z := u8 (Z.shiftr w (8 * Z.of_nat i)).
Definition to_bytes (w : Z) : list Z := map (byte w) (seq 0 8).

Lemma bit_split b x n :
  is_byte b -> 0 <= n -> Z.testbit (b + 256 * x) n = if n <? 8 then Z.testbit b n else Z.testbit x (n - 8).
Proof.
  intros Hb Hn. replace (b + 256 * x) with (x * 2 ^ 8 + b) by lia.
  rewrite <- lor_shiftl_add by (done || lia). rewrite Z.lor_spec.
  destruct (Z.ltb_spec n 8).
  - by rewrite Z.shiftl_spec_low by lia.
  - rewrite Z.shiftl_spec by lia. rewrite (bits_above b 8 n) by done. apply orb_false_r.
Qed.

(** The bytewise reading of a bitwise operation. *)
Section Bitwise.
Variables (op : Z -> Z -> Z) (f : bool -> bool -> bool).
Hypothesis op_spec : forall a b n, Z.testbit (op a b) n = f (Z.testbit a n) (Z.testbit b n).
Hypothesis op_byte : forall a b, is_byte a -> is_byte b -> is_byte (op a b).
Hypothesis op_0 : op 0 0 = 0.

Lemma combine_op l1 l2 :
  length l1 = length l2 -> Forall is_byte l1 -> Forall is_byte l2 ->
  op (le_combine l1) (le_combine l2) = le_combine (zip_with op l1 l2).
Proof.
  revert l2. induction l1 as [|b l1 IH]; intros [|c l2] Hl H1 H2; try done.
  inversion_clear H1 as [|? ? Hb H1']. inversion_clear H2 as [|? ? Hc H2']. cbn [le_combine zip_with].
  rewrite <- IH by (try done; by injection Hl). apply Z.bits_inj'. intros n Hn.
  rewrite op_spec, !bit_split by auto. destruct (n <? 8); by rewrite op_spec.
Qed.
End Bitwise.

Lemma land_byte a b : is_byte a -> is_byte b -> is_byte (Z.land a b).
Proof.
  intros Ha _. replace (Z.land a b) with (wrap 8 (Z.land a b)); [apply (wrap_range 8); lia|].
  apply Z.bits_inj'. intros n Hn. unfold wrap. destruct (decide (n < 8)); [by rewrite Z.mod_pow2_bits_low by lia|].
  rewrite Z.mod_pow2_bits_high by lia. by rewrite Z.land_spec, (bits_above a 8 n) by (done || lia).
Qed.

Lemma combine_land l1 l2 :
  length l1 = length l2 -> Forall is_byte l1 -> Forall is_byte l2 ->
  Z.land (le_combine l1) (le_combine l2) = le_combine (zip_with Z.land l1 l2).
Proof. apply (combine_op Z.land andb); [apply Z.land_spec|apply land_byte|done]. Qed.

Lemma combine_lxor l1 l2 :
  length l1 = length l2 -> Forall is_byte l1 -> Forall is_byte l2 ->
  Z.lxor (le_combine l1) (le_combine l2) = le_combine (zip_with Z.lxor l1 l2).
Proof. apply (combine_op Z.lxor xorb); [apply Z.lxor_spec|apply lxor_byte|done]. Qed.

Lemma byte_combine b l i :
  is_byte b -> byte (b + 256 * le_combine l) (S i) = byte (le_combine l) i.
Proof.
  intros Hb. unfold byte. f_equal. apply Z.bits_inj'. intros n Hn. rewrite !Z.shiftr_spec by lia.
  rewrite bit_split by (done || lia). destruct (Z.ltb_spec (n + 8 * Z.of_nat (S i)) 8); [lia|]. f_equal. lia.
Qed.

Lemma byte_combine_0 b x : is_byte b -> byte (b + 256 * x) 0 = b.
Proof.
  intros Hb. unfold byte. rewrite Z.shiftr_0_r. unfold wrap. change (2 ^ 8) with 256.
  rewrite (Z.mul_comm 256), Z.mod_add by lia. by apply Z.mod_small.
Qed.

Lemma byte_lookup l i : Forall is_byte l -> (i < length l)%nat -> l !! i = Some (byte (le_combine l) i).
Proof.
  intros Hl. revert i. induction Hl as [|b l Hb Hl IH]; intros i Hi; cbn in Hi; [lia|]. destruct i as [|i]; cbn [lookup list_lookup le_combine].
  - by rewrite byte_combine_0.
  - rewrite byte_combine by done. apply IH. lia.
Qed.

Lemma to_bytes_combine l : Forall is_byte l -> length l = 8%nat -> to_bytes (le_combine l) = l.
Proof.
  intros Hl Hlen. apply list_eq. intros i. unfold to_bytes. rewrite list_lookup_fmap.
  destruct (decide (i < 8)%nat).
  - rewrite lookup_seq_lt by done. cbn. symmetry. apply byte_lookup; [done|lia].
  - rewrite lookup_seq_ge by lia. cbn. symmetry. apply lookup_ge_None. lia.
Qed.

Lemma to_bytes_range w : Forall is_byte (to_bytes w).
Proof. apply Forall_forall. intros b (i & <- & _)%list_elem_of_In%in_map_iff. apply (wrap_range 8). lia. Qed.

Lemma to_bytes_len w : length (to_bytes w) = 8%nat.
Proof. done. Qed.

Lemma combine_to_bytes w : is_u64 w -> le_combine (to_bytes w) = w.
Proof.
  intros Hw. unfold to_bytes, byte, wrap, is_u64 in *. cbn [map seq le_combine]. rewrite !Z.shiftr_div_pow2 by lia.
  change (2 ^ (8 * Z.of_nat 0)) with 1. change (2 ^ (8 * Z.of_nat 1)) with (2 ^ 8). change (2 ^ (8 * Z.of_nat 2)) with (2 ^ 16).
  change (2 ^ (8 * Z.of_nat 3)) with (2 ^ 24). change (2 ^ (8 * Z.of_nat 4)) with (2 ^ 32).
  change (2 ^ (8 * Z.of_nat 5)) with (2 ^ 40). change (2 ^ (8 * Z.of_nat 6)) with (2 ^ 48). change (2 ^ (8 * Z.of_nat 7)) with (2 ^ 56).
  Z.to_euclidean_division_equations. lia.
Qed.

(** Checking every byte. *)
Lemma every_byte (P : Z -> bool) :
  forallb P (map Z.of_nat (seq 0 256)) = true -> forall b, is_byte b -> P b = true.
Proof.
  intros H b Hb. rewrite forallb_forall in H. apply H. apply in_map_iff. exists (Z.to_nat b).
  unfold is_byte in Hb. split; [lia|]. apply in_seq. lia.
Qed.

Lemma byte_high b : is_byte b -> Z.land b 0x80 = 128 * (b / 128).
Proof. intros Hb. apply Z.eqb_eq. revert b Hb. apply every_byte. vm_compute. reflexivity. Qed.

Lemma byte_even b : is_byte b -> Z.land b 0xfe = b - b `mod` 2.
Proof. intros Hb. apply Z.eqb_eq. revert b Hb. apply every_byte. vm_compute. reflexivity. Qed.

Lemma byte_mul2 b : is_byte b ->
  Z.lxor (2 * b - 256 * (b / 128)) (Z.land (255 * (b / 128)) 0x1d) = VDEV_RAIDZ_MUL_2 b.
Proof. intros Hb. apply Z.eqb_eq. revert b Hb. apply every_byte. vm_compute. reflexivity. Qed.

(** Powers of 2 are not 0, and are 1 only at multiples of 255. *)
Lemma mul2_nz b : is_byte b -> b <> 0 -> VDEV_RAIDZ_MUL_2 b <> 0.
Proof.
  intros Hb Hne E. assert (((b =? 0) || negb (VDEV_RAIDZ_MUL_2 b =? 0)) = true) as H.
  { revert b Hb Hne E. intros b Hb _ _. revert b Hb. apply every_byte. vm_compute. reflexivity. }
  rewrite E in H. cbn in H. apply orb_true_iff in H as [H|H]; [b2p; done|done].
Qed.

Lemma xp_nz k b : is_byte b -> b <> 0 -> xp k b <> 0.
Proof.
  intros Hb Hne. induction k as [|k IH]; [done|]. rewrite xp_S. apply mul2_nz; [by apply xp_range|done].
Qed.

Lemma xp_order k : (0 < k < 255)%nat -> xp k 1 <> 1.
Proof.
  intros Hk E. assert (forallb (fun v => negb (v =? 1)) (take 254 (drop 1 (powers 255 1))) = true) as H by (vm_compute; reflexivity).
  rewrite forallb_forall in H. specialize (H 1). enough (In 1 (take 254 (drop 1 (powers 255 1)))) as Hin by (by apply H in Hin).
  apply list_elem_of_In. apply (list_elem_of_lookup_2 _ (k - 1)). rewrite lookup_take_lt, lookup_drop by lia.
  replace (1 + (k - 1))%nat with k by lia. rewrite powers_lookup by lia. by rewrite E.
Qed.

(** One byte of the shifted word: the carry from the byte below is masked out. *)
Lemma byte_shifted b m c : m = b / 128 -> is_byte b -> 0 <= c <= 1 -> Z.land (2 * b - 256 * m + c) 0xfe = 2 * b - 256 * m.
Proof.
  intros -> Hb Hc. unfold is_byte in Hb. assert (0 <= b / 128 <= 1 /\ 128 * (b / 128) <= b < 128 * (b / 128) + 128) as Hd
    by (Z.to_euclidean_division_equations; lia).
  rewrite byte_even by (unfold is_byte; lia).
  replace (2 * b - 256 * (b / 128) + c) with (c + (b - 128 * (b / 128)) * 2) by lia.
  rewrite Z.mod_add, Z.mod_small by lia. lia.
Qed.

Ltac bytes := repeat constructor; unfold is_byte in *; lia.

(** The masked shift of a word multiplies each of its bytes by 2. *)
Lemma mul2_word_8 b0 b1 b2 b3 b4 b5 b6 b7 :
  Forall is_byte [b0; b1; b2; b3; b4; b5; b6; b7] ->
  mul2_word (le_combine [b0; b1; b2; b3; b4; b5; b6; b7]) =
  le_combine (map VDEV_RAIDZ_MUL_2 [b0; b1; b2; b3; b4; b5; b6; b7]).
Proof.
  intros HF. pose proof HF as HF'. rewrite !Forall_cons in HF'. destruct HF' as (H0 & H1 & H2 & H3 & H4 & H5 & H6 & H7 & _).
  assert (forall b, is_byte b -> 0 <= b / 128 <= 1 /\ 128 * (b / 128) <= b < 128 * (b / 128) + 128) as Hd.
  { intros b Hb. unfold is_byte in Hb. Z.to_euclidean_division_equations. lia. }
  pose proof (Hd b0 H0). pose proof (Hd b1 H1). pose proof (Hd b2 H2). pose proof (Hd b3 H3).
  pose proof (Hd b4 H4). pose proof (Hd b5 H5). pose proof (Hd b6 H6). pose proof (Hd b7 H7).
  unfold mul2_word.
  change 0x8080808080808080 with (le_combine [0x80; 0x80; 0x80; 0x80; 0x80; 0x80; 0x80; 0x80]).
  change 0xfefefefefefefefe with (le_combine [0xfe; 0xfe; 0xfe; 0xfe; 0xfe; 0xfe; 0xfe; 0xfe]).
  change 0x1d1d1d1d1d1d1d1d with (le_combine [0x1d; 0x1d; 0x1d; 0x1d; 0x1d; 0x1d; 0x1d; 0x1d]).
  rewrite (combine_land [b0; b1; b2; b3; b4; b5; b6; b7]) by (try done; bytes).
  cbn [zip_with]. rewrite !byte_high by done.
  set (m0 := b0 / 128) in *. set (m1 := b1 / 128) in *. set (m2 := b2 / 128) in *. set (m3 := b3 / 128) in *.
  set (m4 := b4 / 128) in *. set (m5 := b5 / 128) in *. set (m6 := b6 / 128) in *. set (m7 := b7 / 128) in *.
  assert (u64 (u64 (Z.shiftl (le_combine [128 * m0; 128 * m1; 128 * m2; 128 * m3; 128 * m4; 128 * m5; 128 * m6; 128 * m7]) 1) -
            Z.shiftr (le_combine [128 * m0; 128 * m1; 128 * m2; 128 * m3; 128 * m4; 128 * m5; 128 * m6; 128 * m7]) 7) =
          le_combine [255 * m0; 255 * m1; 255 * m2; 255 * m3; 255 * m4; 255 * m5; 255 * m6; 255 * m7]) as ->.
  { rewrite Z.shiftl_mul_pow2, Z.shiftr_div_pow2 by lia. unfold wrap. rewrite Zminus_mod_idemp_l.
    replace (le_combine [128 * m0; 128 * m1; 128 * m2; 128 * m3; 128 * m4; 128 * m5; 128 * m6; 128 * m7])
      with (le_combine [m0; m1; m2; m3; m4; m5; m6; m7] * 2 ^ 7) by (cbn [le_combine]; lia).
    rewrite Z.div_mul by lia. rewrite Z.mod_small; cbn [le_combine]; lia. }
  assert (u64 (Z.shiftl (le_combine [b0; b1; b2; b3; b4; b5; b6; b7]) 1) =
          le_combine [2 * b0 - 256 * m0 + 0; 2 * b1 - 256 * m1 + m0; 2 * b2 - 256 * m2 + m1; 2 * b3 - 256 * m3 + m2;
                      2 * b4 - 256 * m4 + m3; 2 * b5 - 256 * m5 + m4; 2 * b6 - 256 * m6 + m5; 2 * b7 - 256 * m7 + m6]) as ->.
  { rewrite Z.shiftl_mul_pow2 by lia. unfold wrap. rewrite <- (Z.mod_add _ (- m7) (2 ^ 64)) by lia.
    rewrite Z.mod_small; cbn [le_combine]; lia. }
  rewrite !combine_land by (try done; bytes). cbn [zip_with].
  rewrite (byte_shifted b0 m0 0), (byte_shifted b1 m1 m0), (byte_shifted b2 m2 m1), (byte_shifted b3 m3 m2),
    (byte_shifted b4 m4 m3), (byte_shifted b5 m5 m4), (byte_shifted b6 m6 m5), (byte_shifted b7 m7 m6) by (done || lia).
  assert (forall m, 0 <= m <= 1 -> is_byte (Z.land (255 * m) 0x1d)) as Hm.
  { intros m Hm. apply land_byte; unfold is_byte; lia. }
  rewrite combine_lxor.
  - cbn [zip_with map]. unfold m0, m1, m2, m3, m4, m5, m6, m7. by rewrite !byte_mul2.
  - done.
  - bytes.
  - repeat constructor; apply Hm; lia.
Qed.

Lemma to_bytes_mul2 w : is_u64 w -> to_bytes (mul2_word w) = map VDEV_RAIDZ_MUL_2 (to_bytes w).
Proof.
  intros Hw. rewrite <- (combine_to_bytes w Hw) at 1. pose proof (to_bytes_range w) as HF.
  unfold to_bytes at 2. cbn [map seq]. rewrite mul2_word_8 by exact HF. apply to_bytes_combine; [|done].
  repeat constructor; apply mul2_range.
Qed.

Lemma to_bytes_lxor a b : is_u64 a -> is_u64 b -> to_bytes (Z.lxor a b) = zip_with Z.lxor (to_bytes a) (to_bytes b).
Proof.
  intros Ha Hb. rewrite <- (combine_to_bytes a Ha), <- (combine_to_bytes b Hb) at 1.
  pose proof (to_bytes_range a) as HFa. pose proof (to_bytes_range b) as HFb.
  rewrite combine_lxor by done. apply to_bytes_combine; [|done].
  revert HFa HFb. generalize (to_bytes a) (to_bytes b). intros l1 l2 HFa. revert l2.
  induction HFa as [|x l1 Hx HFa IH]; intros [|y l2] HFb; try constructor.
  - inversion_clear HFb. by apply lxor_byte.
  - inversion_clear HFb. by apply IH.
Qed.

(** ** The field on words *)

Definition wxp (k : nat) (w : Z) : Z := Nat.iter k mul2_word w.

Lemma wxp_S k w : wxp (S k) w = mul2_word (wxp k w).
Proof. reflexivity. Qed.
Lemma wxp_add j k w : wxp (j + k) w = wxp j (wxp k w).
Proof. apply Nat.iter_add. Qed.

Lemma combine_range l : Forall is_byte l -> length l = 8%nat -> is_u64 (le_combine l).
Proof.
  intros HF Hl. do 9 (destruct l as [|? l]; try done). rewrite !Forall_cons in HF.
  unfold is_u64, is_byte in *. cbn [le_combine]. lia.
Qed.

Lemma mul2_word_u64 w : is_u64 w -> is_u64 (mul2_word w).
Proof.
  intros Hw. rewrite <- (combine_to_bytes w Hw). pose proof (to_bytes_range w) as HF.
  unfold to_bytes. cbn [map seq]. rewrite mul2_word_8 by exact HF. apply combine_range; [|done].
  repeat constructor; apply mul2_range.
Qed.

Lemma lxor_u64 a b : is_u64 a -> is_u64 b -> is_u64 (Z.lxor a b).
Proof.
  intros Ha Hb. rewrite <- (wrap_small 64 a), <- (wrap_small 64 b), <- wrap_lxor by (done || lia). apply (wrap_range 64). lia.
Qed.

Lemma wxp_u64 k w : is_u64 w -> is_u64 (wxp k w).
Proof. intros Hw. induction k; [done|]. rewrite wxp_S. by apply mul2_word_u64. Qed.

Lemma to_bytes_inj a b : is_u64 a -> is_u64 b -> to_bytes a = to_bytes b -> a = b.
Proof. intros Ha Hb E. rewrite <- (combine_to_bytes a Ha), <- (combine_to_bytes b Hb). by rewrite E. Qed.

Lemma map_zip_lxor l1 l2 :
  map VDEV_RAIDZ_MUL_2 (zip_with Z.lxor l1 l2) = zip_with Z.lxor (map VDEV_RAIDZ_MUL_2 l1) (map VDEV_RAIDZ_MUL_2 l2).
Proof. revert l2. induction l1 as [|a l1 IH]; intros [|b l2]; cbn; [done..|]. by rewrite mul2_lxor, IH. Qed.

Lemma mul2_word_lxor a b : is_u64 a -> is_u64 b -> mul2_word (Z.lxor a b) = Z.lxor (mul2_word a) (mul2_word b).
Proof.
  intros Ha Hb. pose proof (lxor_u64 a b Ha Hb). pose proof (mul2_word_u64 a Ha). pose proof (mul2_word_u64 b Hb).
  apply to_bytes_inj; auto using mul2_word_u64, lxor_u64.
  rewrite to_bytes_mul2, !to_bytes_lxor, !to_bytes_mul2 by done. apply map_zip_lxor.
Qed.

Lemma wxp_lxor k a b : is_u64 a -> is_u64 b -> wxp k (Z.lxor a b) = Z.lxor (wxp k a) (wxp k b).
Proof. intros Ha Hb. induction k as [|k IH]; [done|]. rewrite !wxp_S, IH. apply mul2_word_lxor; by apply wxp_u64. Qed.

Lemma mul2_word_0 : mul2_word 0 = 0.
Proof. reflexivity. Qed.
Lemma wxp_0 k : wxp k 0 = 0.
Proof. induction k as [|k IH]; [done|]. by rewrite wxp_S, IH. Qed.

Lemma to_bytes_wxp k w : is_u64 w -> to_bytes (wxp k w) = map (xp k) (to_bytes w).
Proof.
  intros Hw. induction k as [|k IH].
  - done.
  - rewrite wxp_S, to_bytes_mul2 by (by apply wxp_u64). rewrite IH, map_map. done.
Qed.

Lemma byte_wxp k w i : is_u64 w -> (i < 8)%nat -> byte (wxp k w) i = xp k (byte w i).
Proof.
  intros Hw Hi. pose proof (to_bytes_wxp k w Hw) as E.
  apply (f_equal (fun l => l !! i)) in E. unfold to_bytes in E. rewrite map_map in E.
  rewrite !list_lookup_fmap in E. rewrite lookup_seq_lt in E by done. cbn in E. by injection E.
Qed.

Lemma byte_lxor a b i : byte (Z.lxor a b) i = Z.lxor (byte a i) (byte b i).
Proof. unfold byte. by rewrite Z.shiftr_lxor, wrap_lxor by lia. Qed.

Lemma byte_range w i : is_byte (byte w i).
Proof. apply (wrap_range 8). lia. Qed.

Lemma byte_mul2_word w i : is_u64 w -> (i < 8)%nat -> byte (mul2_word w) i = VDEV_RAIDZ_MUL_2 (byte w i).
Proof. exact (byte_wxp 1 w i). Qed.

(** ** The field, by polynomials

    Bit [i] of a number is the coefficient of x^i, so that the sum of two polynomials
    is [Z.lxor] and the product with x^k is [Z.shiftl]. *)

(** The product with x^8 + x^4 + x^3 + x^2 + 1. *)
Definition times_modulus (q : Z) : Z :=
  Z.lxor (Z.shiftl q 8) (Z.lxor (Z.shiftl q 4) (Z.lxor (Z.shiftl q 3) (Z.lxor (Z.shiftl q 2) q))).

(** [r] is the remainder of [p] divided by that polynomial. *)
Definition is_remainder (p r : Z) : Prop := is_byte r /\ exists q, 0 <= q /\ p = Z.lxor (times_modulus q) r.

Lemma lxor_swap a b c d : Z.lxor (Z.lxor a b) (Z.lxor c d) = Z.lxor (Z.lxor a c) (Z.lxor b d).
Proof. rewrite !Z.lxor_assoc. f_equal. rewrite <- !Z.lxor_assoc. f_equal. apply Z.lxor_comm. Qed.

Lemma times_modulus_lxor a b : times_modulus (Z.lxor a b) = Z.lxor (times_modulus a) (times_modulus b).
Proof. unfold times_modulus. rewrite !Z.shiftl_lxor. by rewrite (lxor_swap (Z.shiftl a 2)), (lxor_swap (Z.shiftl a 3)), (lxor_swap (Z.shiftl a 4)), lxor_swap. Qed.

Lemma times_modulus_shiftl q : times_modulus (Z.shiftl q 1) = Z.shiftl (times_modulus q) 1.
Proof. unfold times_modulus. rewrite !Z.shiftl_lxor, !Z.shiftl_shiftl by lia. done. Qed.

(** A multiple of the modulus has degree at least 8. *)
Lemma times_modulus_byte q : 0 <= q -> is_byte (times_modulus q) -> q = 0.
Proof.
  intros Hq Hb. destruct (decide (q = 0)) as [|Hne]; [done|]. exfalso. pose proof (Z.log2_nonneg q) as Hl.
  assert (Z.testbit (times_modulus q) (Z.log2 q + 8) = true) as Ht.
  { unfold times_modulus. rewrite !Z.lxor_spec, !Z.shiftl_spec by lia. replace (Z.log2 q + 8 - 8) with (Z.log2 q) by lia.
    rewrite Z.bit_log2 by lia. by rewrite !(Z.bits_above_log2 q) by lia. }
  assert (times_modulus q `mod` 2 ^ 8 = times_modulus q) as E by (apply Z.mod_small; unfold is_byte in Hb; lia).
  rewrite <- E, Z.mod_pow2_bits_high in Ht by lia. done.
Qed.

Lemma remainder_unique p r r' : is_remainder p r -> is_remainder p r' -> r = r'.
Proof.
  intros (Hr & q & Hq & E) (Hr' & q' & Hq' & E'). assert (times_modulus (Z.lxor q q') = Z.lxor r r') as Em.
  { rewrite times_modulus_lxor. apply Z.lxor_eq. rewrite lxor_swap, <- E, <- E'. apply Z.lxor_nilpotent. }
  apply Z.lxor_eq. rewrite <- Em. rewrite (times_modulus_byte (Z.lxor q q')); [done|by apply Z.lxor_nonneg|].
  rewrite Em. by apply lxor_byte.
Qed.

Lemma remainder_byte r : is_byte r -> is_remainder r r.
Proof. intros Hr. split; [done|]. by exists 0. Qed.

Lemma remainder_lxor p r p' r' : is_remainder p r -> is_remainder p' r' -> is_remainder (Z.lxor p p') (Z.lxor r r').
Proof.
  intros (Hr & q & Hq & ->) (Hr' & q' & Hq' & ->). split; [by apply lxor_byte|]. exists (Z.lxor q q').
  split; [by apply Z.lxor_nonneg|]. by rewrite times_modulus_lxor, lxor_swap.
Qed.

(** [VDEV_RAIDZ_MUL_2] multiplies by x. *)
Lemma shiftl_byte r : is_byte r -> Z.shiftl r 1 = Z.lxor (times_modulus (r / 128)) (VDEV_RAIDZ_MUL_2 r).
Proof. intros Hr. apply Z.eqb_eq. revert r Hr. apply every_byte. vm_compute. reflexivity. Qed.

Lemma remainder_mul2 p r : is_remainder p r -> is_remainder (Z.shiftl p 1) (VDEV_RAIDZ_MUL_2 r).
Proof.
  intros (Hr & q & Hq & ->). split; [apply mul2_range|]. exists (Z.lxor (Z.shiftl q 1) (r / 128)). split.
  - apply Z.lxor_nonneg. rewrite Z.shiftl_nonneg. split; [intros _; apply Z.div_pos; unfold is_byte in Hr; lia|done].
  - by rewrite Z.shiftl_lxor, (shiftl_byte r Hr), times_modulus_lxor, times_modulus_shiftl, Z.lxor_assoc.
Qed.

End Gf256.
