(* ===== verification/Raidz.v ===== *)
(** * RAID-Z parity and reconstruction: fs/zfs/vdev_raidz.c

    A block is split into columns, the first one or two of which are parity.  The
    contents of a column are the 64-bit words the code reads them as; where it
    goes through a byte pointer, the words are taken apart into their bytes and
    put together again.  Every access is checked against the buffer. *)

From Stdlib Require Import List.
From stdpp Require Import base option numbers list.
From S2P Require Import Prelude Checksum Gf256.
Import Gf256.
Local Open Scope Z_scope.

Module Raidz.

Definition VDEV_RAIDZ_P : Z := 0.
Definition VDEV_RAIDZ_Q : Z := 1.

(** [raidz_col_t] *)
Record raidz_col := RCol {
  rc_devidx : Z;
  rc_offset : Z;
  rc_size : Z;
  rc_data : list Z;
  rc_error : Z;
  rc_tried : bool;
  rc_skipped : bool
}.

(** [raidz_map_t]; [rm_cols] is the length of the array. *)
Record raidz_map := RMap {
  rm_bigcols : Z;
  rm_asize : Z;
  rm_missingdata : Z;
  rm_missingparity : Z;
  rm_firstdatacol : Z;
  rm_col : list raidz_col
}.

Definition rm_cols (rm : raidz_map) : Z := zlen (rm_col rm).

(** [&rm->rm_col[c]] *)
Definition get_col (rm : raidz_map) (c : Z) : outcome raidz_col :=
  if c <? 0 then Err Fault
  else match rm_col rm !! Z.to_nat c with Some rc => Ok rc | None => Err Fault end.

Definition set_cols (rm : raidz_map) (cols : list raidz_col) : raidz_map :=
  RMap (rm_bigcols rm) (rm_asize rm) (rm_missingdata rm) (rm_missingparity rm) (rm_firstdatacol rm) cols.
Definition with_data (rc : raidz_col) (data : list Z) : raidz_col :=
  RCol (rc_devidx rc) (rc_offset rc) (rc_size rc) data (rc_error rc) (rc_tried rc) (rc_skipped rc).
Definition with_size (rc : raidz_col) (size : Z) : raidz_col :=
  RCol (rc_devidx rc) (rc_offset rc) size (rc_data rc) (rc_error rc) (rc_tried rc) (rc_skipped rc).

Definition set_data (rm : raidz_map) (c : Z) (data : list Z) : outcome raidz_map :=
  rc ← get_col rm c;
  Ok (set_cols rm (<[Z.to_nat c := with_data rc data]> (rm_col rm))).
Definition set_size (rm : raidz_map) (c : Z) (size : Z) : outcome raidz_map :=
  rc ← get_col rm c;
  Ok (set_cols rm (<[Z.to_nat c := with_size rc size]> (rm_col rm))).

(** ** Loops over words *)

(** [for (; i < count; i++, dst++, src++) *dst = f( *dst, *src);] *)
Fixpoint words2 (n : nat) (i : Z) (f : Z -> Z -> Z) (dst src : list Z) : outcome (list Z) :=
  match n with
  | O => Ok dst
  | S n' =>
      d ← rd dst i;
      s ← rd src i;
      dst ← wr dst i (f d s);
      words2 n' (i + 1) f dst src
  end.

(** The same without a source. *)
Fixpoint words1 (n : nat) (i : Z) (f : Z -> outcome Z) (dst : list Z) : outcome (list Z) :=
  match n with
  | O => Ok dst
  | S n' =>
      d ← rd dst i;
      v ← f d;
      dst ← wr dst i v;
      words1 n' (i + 1) f dst
  end.

(** [for (c = rm->rm_firstdatacol; c < rm->rm_cols; c++)] *)
Fixpoint for_cols {S} (n : nat) (c : Z) (body : Z -> S -> outcome S) (s : S) : outcome S :=
  match n with
  | O => Ok s
  | Datatypes.S n' => s ← body c s; for_cols n' (c + 1) body s
  end.

Definition data_cols (rm : raidz_map) : nat := Z.to_nat (rm_cols rm - rm_firstdatacol rm).
Definition col_count (rc : raidz_col) : Z := rc_size rc / 8.

(** ** Generating parity *)

(** One data column of [vdev_raidz_generate_parity_p]. *)
Definition p_col (rm : raidz_map) (pcount c : Z) (p : list Z) : outcome (list Z) :=
  rc ← get_col rm c;
  let ccount := col_count rc in
  if c =? rm_firstdatacol rm then
    _ ← verify (ccount =? pcount);
    words2 (Z.to_nat ccount) 0 (fun _ s => s) p (rc_data rc)
  else
    _ ← verify (ccount <=? pcount);
    words2 (Z.to_nat ccount) 0 Z.lxor p (rc_data rc).

Definition vdev_raidz_generate_parity_p (rm : raidz_map) : outcome raidz_map :=
  rp ← get_col rm VDEV_RAIDZ_P;
  let pcount := col_count rp in
  p ← for_cols (data_cols rm) (rm_firstdatacol rm) (p_col rm pcount) (rc_data rp);
  set_data rm VDEV_RAIDZ_P p.

(** One data column of [vdev_raidz_generate_parity_pq]. *)
Definition pq_col (rm : raidz_map) (pcount : Z) (c : Z) (pq : list Z * list Z) : outcome (list Z * list Z) :=
  let '(p, q) := pq in
  rc ← get_col rm c;
  let ccount := col_count rc in
  if c =? rm_firstdatacol rm then
    _ ← verify ((ccount =? pcount) || (ccount =? 0));
    q ← words2 (Z.to_nat ccount) 0 (fun _ s => s) q (rc_data rc);
    p ← words2 (Z.to_nat ccount) 0 (fun _ s => s) p (rc_data rc);
    q ← words1 (Z.to_nat (pcount - ccount)) ccount (fun _ => Ok 0) q;
    p ← words1 (Z.to_nat (pcount - ccount)) ccount (fun _ => Ok 0) p;
    Ok (p, q)
  else
    _ ← verify (ccount <=? pcount);
    q ← words2 (Z.to_nat ccount) 0 (fun d s => Z.lxor (mul2_word d) s) q (rc_data rc);
    p ← words2 (Z.to_nat ccount) 0 Z.lxor p (rc_data rc);
    q ← words1 (Z.to_nat (pcount - ccount)) ccount (fun d => Ok (mul2_word d)) q;
    Ok (p, q).

Definition vdev_raidz_generate_parity_pq (rm : raidz_map) : outcome raidz_map :=
  rp ← get_col rm VDEV_RAIDZ_P;
  rq ← get_col rm VDEV_RAIDZ_Q;
  let pcount := col_count rp in
  _ ← verify (rc_size rp =? rc_size rq);
  '(p, q) ← for_cols (data_cols rm) (rm_firstdatacol rm) (pq_col rm pcount) (rc_data rp, rc_data rq);
  rm ← set_data rm VDEV_RAIDZ_P p;
  set_data rm VDEV_RAIDZ_Q q.

(** ** Reconstruction *)

(** One data column of [vdev_raidz_reconstruct_p]. *)
Definition rec_p_col (rm : raidz_map) (x xcount c : Z) (dst : list Z) : outcome (list Z) :=
  rc ← get_col rm c;
  if c =? x then Ok dst
  else words2 (Z.to_nat (Z.min (col_count rc) xcount)) 0 Z.lxor dst (rc_data rc).

Definition vdev_raidz_reconstruct_p (rm : raidz_map) (x : Z) : outcome raidz_map :=
  rx ← get_col rm x;
  rp ← get_col rm VDEV_RAIDZ_P;
  let xcount := col_count rx in
  _ ← verify (xcount <=? col_count rp);
  _ ← verify (0 <? xcount);
  dst ← words2 (Z.to_nat xcount) 0 (fun _ s => s) (rc_data rx) (rc_data rp);
  dst ← for_cols (data_cols rm) (rm_firstdatacol rm) (rec_p_col rm x xcount) dst;
  set_data rm x dst.

(** One column of the first loop of [vdev_raidz_reconstruct_q]. *)
Definition rec_q_col (rm : raidz_map) (x xcount : Z) (c : Z) (dst : list Z) : outcome (list Z) :=
  rc ← get_col rm c;
  let ccount := if c =? x then 0 else col_count rc in
  let count := Z.min ccount xcount in
  if c =? rm_firstdatacol rm then
    dst ← words2 (Z.to_nat count) 0 (fun _ s => s) dst (rc_data rc);
    words1 (Z.to_nat (xcount - count)) count (fun _ => Ok 0) dst
  else
    dst ← words2 (Z.to_nat count) 0 (fun d s => Z.lxor (mul2_word d) s) dst (rc_data rc);
    words1 (Z.to_nat (xcount - count)) count (fun d => Ok (mul2_word d)) dst.

(** Apply a byte function to the eight bytes of a word. *)
Fixpoint each_byte (f : Z -> outcome Z) (bs : list Z) : outcome (list Z) :=
  match bs with
  | [] => Ok []
  | b :: bs' => v ← f b; vs ← each_byte f bs'; Ok (v :: vs)
  end.
Definition exp2_word (exp w : Z) : outcome Z :=
  bs ← each_byte (fun b => vdev_raidz_exp2 b exp) (to_bytes w);
  Ok (le_combine bs).

Definition vdev_raidz_reconstruct_q (rm : raidz_map) (x : Z) : outcome raidz_map :=
  rx ← get_col rm x;
  rq ← get_col rm VDEV_RAIDZ_Q;
  let xcount := col_count rx in
  _ ← verify (xcount <=? col_count rq);
  dst ← for_cols (data_cols rm) (rm_firstdatacol rm) (rec_q_col rm x xcount) (rc_data rx);
  let exp := 255 - (rm_cols rm - 1 - x) in
  dst ← words2 (Z.to_nat xcount) 0 Z.lxor dst (rc_data rq);
  dst ← words1 (Z.to_nat xcount) 0 (exp2_word exp) dst;
  set_data rm x dst.

(** The bytes of a buffer of words, and back. *)
Definition bytes_of (ws : list Z) : list Z := flat_map to_bytes ws.
Fixpoint words_of (n : nat) (bs : list Z) : list Z :=
  match n with O => [] | S n' => le_combine (take 8 bs) :: words_of n' (drop 8 bs) end.

(** The last loop of [vdev_raidz_reconstruct_pq], over bytes. *)
Fixpoint rec_pq_loop (n : nat) (i : Z) (aexp bexp ysize : Z) (p q pxy qxy xd yd : list Z) : outcome (list Z * list Z) :=
  match n with
  | O => Ok (xd, yd)
  | S n' =>
      pi ← rd p i; qi ← rd q i; pxyi ← rd pxy i; qxyi ← rd qxy i;
      va ← vdev_raidz_exp2 (Z.lxor pi pxyi) aexp;
      vb ← vdev_raidz_exp2 (Z.lxor qi qxyi) bexp;
      xd ← wr xd i (Z.lxor va vb);
      yd ← (if i <? ysize then wr yd i (Z.lxor (Z.lxor pi pxyi) (Z.lxor va vb)) else Ok yd);
      rec_pq_loop n' (i + 1) aexp bexp ysize p q pxy qxy xd yd
  end.

(** The two coefficients, as powers of 2. *)
Definition rec_pq_exps (cols x y : Z) : outcome (Z * Z) :=
  a ← rd vdev_raidz_pow2 (255 + x - y);
  b ← rd vdev_raidz_pow2 (255 - (cols - 1 - x));
  l ← rd vdev_raidz_log2 (Z.lxor a 1);
  let tmp := u8 (255 - l) in
  ea ← vdev_raidz_exp2 a tmp;
  aexp ← rd vdev_raidz_log2 ea;
  eb ← vdev_raidz_exp2 b tmp;
  bexp ← rd vdev_raidz_log2 eb;
  Ok (aexp, bexp).

(** Move the parity aside and empty the two columns; give them their sizes back; leave
    the recovered data and put the parity back. *)
Definition pq_aside (newp newq : list Z) (rm : raidz_map) (x y : Z) : outcome raidz_map :=
  rm ← set_data rm VDEV_RAIDZ_P newp;
  rm ← set_data rm VDEV_RAIDZ_Q newq;
  rm ← set_size rm x 0;
  set_size rm y 0.
Definition pq_sizes (rm : raidz_map) (x y xsize ysize : Z) : outcome raidz_map :=
  rm ← set_size rm x xsize;
  set_size rm y ysize.
Definition pq_back (rm : raidz_map) (x y : Z) (xd yd pdata qdata : list Z) : outcome raidz_map :=
  rm ← set_data rm x xd;
  rm ← set_data rm y yd;
  rm ← set_data rm VDEV_RAIDZ_P pdata;
  set_data rm VDEV_RAIDZ_Q qdata.

(** [newp] and [newq] are the buffers [zio_buf_alloc] returns, with whatever is in
    them. *)
Definition vdev_raidz_reconstruct_pq (newp newq : list Z) (rm : raidz_map) (x y : Z) : outcome raidz_map :=
  _ ← verify (x <? y);
  _ ← verify (rm_firstdatacol rm <=? x);
  _ ← verify (y <? rm_cols rm);
  rx ← get_col rm x;
  ry ← get_col rm y;
  _ ← verify (rc_size ry <=? rc_size rx);
  rp ← get_col rm VDEV_RAIDZ_P;
  rq ← get_col rm VDEV_RAIDZ_Q;
  let pdata := rc_data rp in
  let qdata := rc_data rq in
  let xsize := rc_size rx in
  let ysize := rc_size ry in
  rm1 ← pq_aside newp newq rm x y;
  rm1 ← vdev_raidz_generate_parity_pq rm1;
  rm1 ← pq_sizes rm1 x y xsize ysize;
  rp1 ← get_col rm1 VDEV_RAIDZ_P;
  rq1 ← get_col rm1 VDEV_RAIDZ_Q;
  '(aexp, bexp) ← rec_pq_exps (rm_cols rm) x y;
  '(xd, yd) ← rec_pq_loop (Z.to_nat xsize) 0 aexp bexp ysize
                (bytes_of pdata) (bytes_of qdata) (bytes_of (rc_data rp1)) (bytes_of (rc_data rq1))
                (bytes_of (rc_data rx)) (bytes_of (rc_data ry));
  pq_back rm1 x y (words_of (length (rc_data rx)) xd) (words_of (length (rc_data ry)) yd) pdata qdata.

(** ** Words of a buffer *)

Definition wd (l : list Z) (k : nat) : Z := nth k l 0.

Lemma wd_insert l k j v : (k < length l)%nat -> wd (<[k := v]> l) j = if decide (j = k) then v else wd l j.
Proof.
  intros Hk. unfold wd. destruct (decide (j = k)) as [->|Hne].
  - apply nth_lookup_Some. apply list_lookup_insert_eq. done.
  - destruct (decide (j < length l)%nat) as [Hj|Hj].
    + destruct (lookup_lt_is_Some_2 l j Hj) as [w Hw].
      rewrite (nth_lookup_Some l j 0 w Hw). apply nth_lookup_Some. by rewrite list_lookup_insert_ne.
    + rewrite !nth_overflow; [done|lia|rewrite length_insert; lia].
Qed.

Lemma wd_eq l1 l2 : length l1 = length l2 -> (forall k, (k < length l1)%nat -> wd l1 k = wd l2 k) -> l1 = l2.
Proof. intros Hl H. by apply (nth_ext l1 l2 0 0). Qed.

Lemma wd_u64 l k : Forall is_u64 l -> is_u64 (wd l k).
Proof.
  intros Hl. unfold wd. destruct (nth_in_or_default k l 0) as [Hin| ->]; [|done].
  rewrite List.Forall_forall in Hl. by apply Hl.
Qed.

Lemma words2_spec n i f dst src :
  (i + n <= length dst)%nat -> (i + n <= length src)%nat ->
  exists dst', words2 n (Z.of_nat i) f dst src = Ok dst' /\ length dst' = length dst /\
    forall k, wd dst' k = if decide (i <= k < i + n)%nat then f (wd dst k) (wd src k) else wd dst k.
Proof.
  revert i dst. induction n as [|n IH]; intros i dst Hd Hs.
  { exists dst. split_and!; [done|done|]. intros k. destruct (decide _); [lia|done]. }
  cbn [words2]. rewrite !rd_nth, Nat2Z.id by lia. run. rewrite wr_in, Nat2Z.id by lia. run.
  replace (Z.of_nat i + 1) with (Z.of_nat (S i)) by lia.
  destruct (IH (S i) (<[i := f (nth i dst 0) (nth i src 0)]> dst)) as (dst' & -> & Hl & Hk); [rewrite length_insert; lia|lia|].
  exists dst'. rewrite length_insert in Hl. split_and!; [done|done|]. intros k. rewrite Hk, wd_insert by lia.
  destruct (decide (k = i)) as [->|]; repeat destruct (decide _); try lia; done.
Qed.

Lemma words2_0 n f dst src :
  (n <= length dst)%nat -> (n <= length src)%nat ->
  exists dst', words2 n 0 f dst src = Ok dst' /\ length dst' = length dst /\
    forall k, wd dst' k = if decide (k < n)%nat then f (wd dst k) (wd src k) else wd dst k.
Proof.
  intros Hd Hs. destruct (words2_spec n 0 f dst src Hd Hs) as (dst' & E & Hl & Hk). exists dst'. split_and!; [done|done|].
  intros k. rewrite Hk. repeat destruct (decide _); done || lia.
Qed.

Lemma words1_spec n i f g dst :
  (i + n <= length dst)%nat -> (forall k, (i <= k < i + n)%nat -> f (wd dst k) = Ok (g (wd dst k))) ->
  exists dst', words1 n (Z.of_nat i) f dst = Ok dst' /\ length dst' = length dst /\
    forall k, wd dst' k = if decide (i <= k < i + n)%nat then g (wd dst k) else wd dst k.
Proof.
  revert i dst. induction n as [|n IH]; intros i dst Hd Hf.
  { exists dst. split_and!; [done|done|]. intros k. destruct (decide _); [lia|done]. }
  cbn [words1]. rewrite !rd_nth, Nat2Z.id by lia. run. fold (wd dst i). rewrite Hf by lia. run.
  rewrite wr_in, Nat2Z.id by lia. run. replace (Z.of_nat i + 1) with (Z.of_nat (S i)) by lia.
  destruct (IH (S i) (<[i := g (wd dst i)]> dst)) as (dst' & -> & Hl & Hk); [rewrite length_insert; lia| |].
  { intros k Hk. rewrite wd_insert by lia. destruct (decide (k = i)); [lia|]. apply Hf. lia. }
  exists dst'. rewrite length_insert in Hl. split_and!; [done|done|]. intros k. rewrite Hk, wd_insert by lia.
  destruct (decide (k = i)) as [->|]; repeat destruct (decide _); try lia; done.
Qed.

Lemma for_cols_spec {S} (I : nat -> S -> Prop) n c body (s : S) :
  I 0%nat s ->
  (forall k s, (k < n)%nat -> I k s -> exists s', body (c + Z.of_nat k) s = Ok s' /\ I (Datatypes.S k) s') ->
  exists s', for_cols n c body s = Ok s' /\ I n s'.
Proof.
  revert I c s. induction n as [|n IH]; intros I c s H0 Hs; cbn [for_cols]; [by exists s|].
  destruct (Hs 0%nat s ltac:(lia) H0) as (s1 & E & H1). rewrite Z.add_0_r in E. rewrite E. run.
  destruct (IH (fun k => I (Datatypes.S k)) (c + 1) s1 H1) as (s' & E' & H'); [|by exists s'].
  intros k s2 Hk Hi. destruct (Hs (Datatypes.S k) s2 ltac:(lia) Hi) as (s3 & E3 & H3). exists s3.
  by replace (c + 1 + Z.of_nat k) with (c + Z.of_nat (Datatypes.S k)) by lia.
Qed.

(** ** Sums over the data columns *)

Fixpoint xs (d : nat -> Z) (n : nat) : Z := match n with O => 0 | S k => Z.lxor (xs d k) (d k) end.
Fixpoint hs (d : nat -> Z) (n : nat) : Z := match n with O => 0 | S k => Z.lxor (mul2_word (hs d k)) (d k) end.

Definition off (d : nat -> Z) (x : nat) : nat -> Z := fun c => if decide (c = x) then 0 else d c.

Lemma xs_ext d d' n : (forall c, (c < n)%nat -> d c = d' c) -> xs d n = xs d' n.
Proof. induction n as [|n IH]; intros H; [done|]. cbn. rewrite IH, H; [done|lia|]. intros. apply H. lia. Qed.
Lemma hs_ext d d' n : (forall c, (c < n)%nat -> d c = d' c) -> hs d n = hs d' n.
Proof. induction n as [|n IH]; intros H; [done|]. cbn. rewrite IH, H; [done|lia|]. intros. apply H. lia. Qed.

Lemma hs_u64 d n : (forall c, is_u64 (d c)) -> is_u64 (hs d n).
Proof. intros H. induction n; cbn; [done|]. apply lxor_u64; [by apply mul2_word_u64|done]. Qed.
Lemma xs_u64 d n : (forall c, is_u64 (d c)) -> is_u64 (xs d n).
Proof. intros H. induction n; cbn; [done|]. by apply lxor_u64. Qed.
Lemma off_u64 d x : (forall c, is_u64 (d c)) -> forall c, is_u64 (off d x c).
Proof. intros H c. unfold off. destruct (decide _); [done|apply H]. Qed.

(** Taking one column out of the sums. *)
Lemma xs_off d x n : (x < n)%nat -> xs d n = Z.lxor (xs (off d x) n) (d x).
Proof.
  induction n as [|n IH]; intros Hx; [lia|]. cbn. destruct (decide (x = n)) as [->|Hne].
  - unfold off at 2. destruct (decide (n = n)); [|done]. rewrite Z.lxor_0_r. f_equal.
    apply xs_ext. intros c Hc. unfold off. by destruct (decide _); [lia|].
  - rewrite IH by lia. unfold off at 3. destruct (decide _); [lia|].
    rewrite !Z.lxor_assoc. f_equal. apply Z.lxor_comm.
Qed.

Lemma hs_off d x n :
  (forall c, is_u64 (d c)) -> (x < n)%nat -> hs d n = Z.lxor (hs (off d x) n) (wxp (n - 1 - x) (d x)).
Proof.
  intros Hu. induction n as [|n IH]; intros Hx; [lia|]. cbn [hs]. destruct (decide (x = n)) as [->|Hne].
  - unfold off at 2. destruct (decide (n = n)); [|done]. rewrite Z.lxor_0_r.
    replace (S n - 1 - n)%nat with 0%nat by lia. cbn [wxp Nat.iter]. f_equal. f_equal.
    apply hs_ext. intros c Hc. unfold off. by destruct (decide _); [lia|].
  - rewrite IH by lia. rewrite mul2_word_lxor by auto using hs_u64, wxp_u64, off_u64.
    rewrite <- wxp_S. replace (S (n - 1 - x)) with (S n - 1 - x)%nat by lia.
    unfold off at 3. destruct (decide _); [lia|]. rewrite !Z.lxor_assoc. f_equal. apply Z.lxor_comm.
Qed.

(** ** Maps *)

Definition col0 : raidz_col := RCol 0 0 0 [] 0 false false.
Definition colat (rm : raidz_map) (c : nat) : raidz_col := nth c (rm_col rm) col0.

(** Word [i] of a column, 0 beyond its end. *)
Definition cw (rc : raidz_col) (i : nat) : Z := if Z.of_nat i <? col_count rc then wd (rc_data rc) i else 0.

(** The words the data columns have at [i]. *)
Definition dat (rm : raidz_map) (i c : nat) : Z := cw (colat rm (Z.to_nat (rm_firstdatacol rm) + c)) i.

Definition put (rm : raidz_map) (c : nat) (data : list Z) : raidz_map :=
  set_cols rm (<[c := with_data (colat rm c) data]> (rm_col rm)).

Lemma get_col_at rm c : (c < length (rm_col rm))%nat -> get_col rm (Z.of_nat c) = Ok (colat rm c).
Proof.
  intros Hc. unfold get_col, colat. destruct (Z.ltb_spec (Z.of_nat c) 0); [lia|]. rewrite Nat2Z.id.
  destruct (lookup_lt_is_Some_2 _ _ Hc) as [rc Hrc]. rewrite Hrc. f_equal. symmetry. by apply nth_lookup_Some.
Qed.

Lemma set_data_at rm c data :
  (c < length (rm_col rm))%nat -> set_data rm (Z.of_nat c) data = Ok (put rm c data).
Proof. intros Hc. unfold set_data. rewrite get_col_at by done. run. by rewrite Nat2Z.id. Qed.

Lemma nth_insert {A} (l : list A) c j x d :
  (c < length l)%nat -> nth j (<[c := x]> l) d = if decide (j = c) then x else nth j l d.
Proof.
  intros Hc. destruct (decide (j = c)) as [->|Hne].
  - apply nth_lookup_Some. by apply list_lookup_insert_eq.
  - destruct (decide (j < length l)%nat) as [Hj|Hj].
    + destruct (lookup_lt_is_Some_2 l j Hj) as [w Hw].
      rewrite (nth_lookup_Some l j d w Hw). apply nth_lookup_Some. by rewrite list_lookup_insert_ne.
    + rewrite !nth_overflow; [done|lia|rewrite length_insert; lia].
Qed.

Lemma colat_put rm c data j :
  (c < length (rm_col rm))%nat ->
  colat (put rm c data) j = if decide (j = c) then with_data (colat rm c) data else colat rm j.
Proof. intros Hc. unfold colat at 1, put. cbn [rm_col set_cols]. by rewrite nth_insert. Qed.

Lemma colat_put_ne rm c data j : (c < length (rm_col rm))%nat -> j <> c -> colat (put rm c data) j = colat rm j.
Proof. intros Hc Hj. rewrite colat_put by done. by destruct (decide _). Qed.

Lemma put_len rm c data : length (rm_col (put rm c data)) = length (rm_col rm).
Proof. apply length_insert. Qed.

(** What parity generation needs of a map with [f] parity and [n] data columns of
    at most [pc] words: a column may have been shortened, but not beyond its data. *)
Record gen_pre (rm : raidz_map) (f n pc : nat) : Prop := {
  gp_first : rm_firstdatacol rm = Z.of_nat f;
  gp_cols : length (rm_col rm) = (f + n)%nat;
  gp_f : (0 < f)%nat;
  gp_n : (0 < n)%nat;
  gp_p : forall c, (c < f)%nat -> rc_size (colat rm c) = 8 * Z.of_nat pc /\ length (rc_data (colat rm c)) = pc;
  gp_data : forall c, (c < n)%nat ->
    0 <= col_count (colat rm (f + c)) <= Z.of_nat pc /\ col_count (colat rm (f + c)) <= zlen (rc_data (colat rm (f + c)));
  gp_u64 : forall c, (c < n)%nat -> Forall is_u64 (rc_data (colat rm (f + c)))
}.

Lemma dat_u64 rm f n pc i : gen_pre rm f n pc -> forall c, (c < n)%nat -> is_u64 (dat rm i c).
Proof.
  intros G c Hc. unfold dat, cw. rewrite (gp_first _ _ _ _ G), Nat2Z.id. destruct (_ <? _); [|done].
  apply wd_u64. by apply (gp_u64 _ _ _ _ G).
Qed.

Lemma p_count rm f n pc c : gen_pre rm f n pc -> (c < f)%nat -> col_count (colat rm c) = Z.of_nat pc.
Proof.
  intros G Hc. destruct (gp_p _ _ _ _ G c Hc) as [E _]. unfold col_count. rewrite E, Z.mul_comm. apply Z.div_mul. lia.
Qed.

Definition pvec (rm : raidz_map) (n pc : nat) : list Z := map (fun i => xs (dat rm i) n) (seq 0 pc).
Definition qvec (rm : raidz_map) (n pc : nat) : list Z := map (fun i => hs (dat rm i) n) (seq 0 pc).

Lemma wd_map f n i : wd (map f (seq 0 n)) i = if decide (i < n)%nat then f i else 0.
Proof.
  unfold wd. destruct (decide (i < n)%nat) as [Hi|Hi].
  - rewrite (nth_indep _ 0 (f 0%nat)) by (rewrite length_map, length_seq; lia). by rewrite map_nth, seq_nth.
  - apply nth_overflow. rewrite length_map, length_seq. lia.
Qed.

Lemma vec_eq p f n :
  length p = n -> (forall i, (i < n)%nat -> wd p i = f i) -> p = map f (seq 0 n).
Proof.
  intros Hl H. apply wd_eq; [by rewrite length_map, length_seq|]. intros k Hk. rewrite H by lia. rewrite wd_map.
  by destruct (decide _); [|lia].
Qed.

Lemma data_cols_at rm f n pc : gen_pre rm f n pc -> data_cols rm = n.
Proof. intros G. unfold data_cols, rm_cols. rewrite (gp_first _ _ _ _ G), (gp_cols _ _ _ _ G). lia. Qed.

Lemma dat_at rm f n pc i k :
  gen_pre rm f n pc ->
  dat rm i k = if decide (Z.of_nat i < col_count (colat rm (f + k))) then wd (rc_data (colat rm (f + k))) i else 0.
Proof.
  intros G. unfold dat, cw. rewrite (gp_first _ _ _ _ G), Nat2Z.id.
  destruct (Z.ltb_spec (Z.of_nat i) (col_count (colat rm (f + k)))), (decide _); done || lia.
Qed.

Ltac cases := repeat destruct (decide _); try lia; try done.

(** The first parity column becomes the sum of the data columns. *)
Lemma p_col_spec rm f n pc k p :
  gen_pre rm f n pc -> col_count (colat rm f) = Z.of_nat pc -> (k < n)%nat -> length p = pc ->
  (0 < k -> forall i, (i < pc)%nat -> wd p i = xs (dat rm i) k)%nat ->
  exists p', p_col rm (Z.of_nat pc) (Z.of_nat (f + k)) p = Ok p' /\ length p' = pc /\
    forall i, (i < pc)%nat -> wd p' i = xs (dat rm i) (S k).
Proof.
  intros G Hfirst Hk Hl Hp. pose proof (gp_cols _ _ _ _ G). unfold p_col. rewrite get_col_at by lia. run. cbn zeta.
  destruct (gp_data _ _ _ _ G k Hk) as [D1 D2]. rewrite (gp_first _ _ _ _ G).
  destruct (Z.eqb_spec (Z.of_nat (f + k)) (Z.of_nat f)) as [E|E].
  - assert (k = 0%nat) as -> by lia. rewrite Nat.add_0_r in *. rewrite Hfirst, Z.eqb_refl. cbn [verify]. run.
    destruct (words2_0 (Z.to_nat (Z.of_nat pc)) (fun _ s => s) p (rc_data (colat rm f))) as (p' & E' & Hl' & Hk'); [lia|lia|].
    exists p'. split_and!; [done|lia|]. intros i Hi. rewrite Hk'. cbn [xs]. rewrite Z.lxor_0_l, (dat_at _ _ _ _ i 0 G), Nat.add_0_r. cases.
  - rewrite (proj2 (Z.leb_le _ _)) by lia. cbn [verify]. run.
    destruct (words2_0 (Z.to_nat (col_count (colat rm (f + k)))) Z.lxor p (rc_data (colat rm (f + k)))) as (p' & E' & Hl' & Hk'); [lia|lia|].
    exists p'. split_and!; [done|lia|]. intros i Hi. rewrite Hk'. cbn [xs]. rewrite (dat_at _ _ _ _ i k G), (Hp ltac:(lia) i Hi).
    cases. by rewrite Z.lxor_0_r.
Qed.

Lemma generate_p_spec rm f n pc :
  gen_pre rm f n pc -> col_count (colat rm f) = Z.of_nat pc ->
  vdev_raidz_generate_parity_p rm = Ok (put rm 0 (pvec rm n pc)).
Proof.
  intros G Hfirst. pose proof (gp_cols _ _ _ _ G) as Hc. pose proof (gp_f _ _ _ _ G) as Hf.
  unfold vdev_raidz_generate_parity_p. change VDEV_RAIDZ_P with (Z.of_nat 0). rewrite (get_col_at rm 0) by lia. run. cbn zeta.
  rewrite (p_count rm f n pc 0 G Hf), (data_cols_at _ _ _ _ G), (gp_first _ _ _ _ G).
  destruct (for_cols_spec (fun k p => length p = pc /\ (0 < k -> forall i, (i < pc)%nat -> wd p i = xs (dat rm i) k)%nat)
    n (Z.of_nat f) (p_col rm (Z.of_nat pc)) (rc_data (colat rm 0))) as (p & -> & Hl & Hp).
  - split; [by apply (gp_p _ _ _ _ G)|lia].
  - intros k p Hk (Hl & Hp). rewrite <- Nat2Z.inj_add.
    destruct (p_col_spec rm f n pc k p G Hfirst Hk Hl Hp) as (p' & E & Hl' & Hp'). exists p'. split_and!; [done|done|]. by intros _.
  - run. rewrite (set_data_at rm 0) by lia. do 2 f_equal. apply vec_eq; [done|]. apply Hp. apply (gp_n _ _ _ _ G).
Qed.

Lemma pq_col_spec rm f n pc k p q :
  gen_pre rm f n pc -> (col_count (colat rm f) = Z.of_nat pc \/ col_count (colat rm f) = 0) ->
  (k < n)%nat -> length p = pc -> length q = pc ->
  (0 < k -> forall i, (i < pc)%nat -> wd p i = xs (dat rm i) k /\ wd q i = hs (dat rm i) k)%nat ->
  exists p' q', pq_col rm (Z.of_nat pc) (Z.of_nat (f + k)) (p, q) = Ok (p', q') /\ length p' = pc /\ length q' = pc /\
    forall i, (i < pc)%nat -> wd p' i = xs (dat rm i) (S k) /\ wd q' i = hs (dat rm i) (S k).
Proof.
  intros G Hfirst Hk Hl Hlq Hp. pose proof (gp_cols _ _ _ _ G). unfold pq_col. rewrite get_col_at by lia. run. cbn zeta.
  destruct (gp_data _ _ _ _ G k Hk) as [D1 D2]. rewrite (gp_first _ _ _ _ G).
  set (cc := col_count (colat rm (f + k))) in *. assert (Z.of_nat (Z.to_nat cc) = cc) as Ec by lia.
  destruct (Z.eqb_spec (Z.of_nat (f + k)) (Z.of_nat f)) as [E|E].
  - assert (k = 0%nat) as -> by lia. assert (cc = col_count (colat rm f)) as Ecc by (unfold cc; by rewrite Nat.add_0_r).
    rewrite Nat.add_0_r in *. rewrite <- Ecc in Hfirst.
    assert (((cc =? Z.of_nat pc) || (cc =? 0)) = true) as -> by (apply orb_true_iff; rewrite !Z.eqb_eq; exact Hfirst). cbn [verify]. run.
    destruct (words2_0 (Z.to_nat cc) (fun _ s => s) q (rc_data (colat rm f))) as (q1 & -> & Lq1 & Kq1); [lia|lia|]. run.
    destruct (words2_0 (Z.to_nat cc) (fun _ s => s) p (rc_data (colat rm f))) as (p1 & -> & Lp1 & Kp1); [lia|lia|]. run.
    rewrite <- Ec.
    destruct (words1_spec (Z.to_nat (Z.of_nat pc - Z.of_nat (Z.to_nat cc))) (Z.to_nat cc) (fun _ => Ok 0) (fun _ => 0) q1) as (q2 & -> & Lq2 & Kq2); [lia|done|]. run.
    destruct (words1_spec (Z.to_nat (Z.of_nat pc - Z.of_nat (Z.to_nat cc))) (Z.to_nat cc) (fun _ => Ok 0) (fun _ => 0) p1) as (p2 & -> & Lp2 & Kp2); [lia|done|]. run.
    exists p2, q2. split_and!; [done|lia|lia|]. intros i Hi. rewrite Kp2, Kq2, Kp1, Kq1. cbn [xs hs].
    rewrite mul2_word_0, !Z.lxor_0_l, (dat_at _ _ _ _ i 0 G), Nat.add_0_r. fold cc. cases.
  - rewrite (proj2 (Z.leb_le cc _)) by lia. cbn [verify]. run.
    destruct (words2_0 (Z.to_nat cc) (fun d s => Z.lxor (mul2_word d) s) q (rc_data (colat rm (f + k)))) as (q1 & -> & Lq1 & Kq1); [lia|lia|]. run.
    destruct (words2_0 (Z.to_nat cc) Z.lxor p (rc_data (colat rm (f + k)))) as (p1 & -> & Lp1 & Kp1); [lia|lia|]. run.
    rewrite <- Ec.
    destruct (words1_spec (Z.to_nat (Z.of_nat pc - Z.of_nat (Z.to_nat cc))) (Z.to_nat cc) (fun d => Ok (mul2_word d)) mul2_word q1) as (q2 & -> & Lq2 & Kq2); [lia|done|]. run.
    exists p1, q2. split_and!; [done|lia|lia|]. intros i Hi. rewrite Kq2, Kp1, Kq1. cbn [xs hs].
    destruct (Hp ltac:(lia) i Hi) as [<- <-]. rewrite (dat_at _ _ _ _ i k G). fold cc. cases; by rewrite !Z.lxor_0_r.
Qed.

(** Both parity columns: the sum, and the sum weighted by powers of 2. *)
Lemma generate_pq_spec rm n pc :
  gen_pre rm 2 n pc -> (col_count (colat rm 2) = Z.of_nat pc \/ col_count (colat rm 2) = 0) ->
  vdev_raidz_generate_parity_pq rm = Ok (put (put rm 0 (pvec rm n pc)) 1 (qvec rm n pc)).
Proof.
  intros G Hfirst. pose proof (gp_cols _ _ _ _ G) as Hc. pose proof (gp_f _ _ _ _ G) as Hf.
  unfold vdev_raidz_generate_parity_pq. change VDEV_RAIDZ_P with (Z.of_nat 0). change VDEV_RAIDZ_Q with (Z.of_nat 1).
  rewrite !get_col_at by lia. run. cbn zeta.
  destruct (gp_p _ _ _ _ G 0%nat ltac:(lia)) as [P1 P2]. destruct (gp_p _ _ _ _ G 1%nat ltac:(lia)) as [Q1 Q2].
  rewrite P1, Q1, Z.eqb_refl. cbn [verify]. run.
  rewrite (p_count rm 2 n pc 0 G Hf), (data_cols_at _ _ _ _ G), (gp_first _ _ _ _ G).
  destruct (for_cols_spec (fun k pq => length pq.1 = pc /\ length pq.2 = pc /\
      (0 < k -> forall i, (i < pc)%nat -> wd pq.1 i = xs (dat rm i) k /\ wd pq.2 i = hs (dat rm i) k)%nat)
    n (Z.of_nat 2) (pq_col rm (Z.of_nat pc)) (rc_data (colat rm 0), rc_data (colat rm 1))) as ([p q] & -> & Hl & Hlq & Hp).
  - split_and!; [done|done|lia].
  - intros k [p q] Hk (Hl & Hlq & Hp). rewrite <- Nat2Z.inj_add.
    destruct (pq_col_spec rm 2 n pc k p q G Hfirst Hk Hl Hlq Hp) as (p' & q' & E & Hl' & Hlq' & Hp').
    exists (p', q'). split_and!; [done|done|done|]. by intros _.
  - run. rewrite (set_data_at rm 0) by lia. run. rewrite (set_data_at _ 1) by (rewrite put_len; lia).
    specialize (Hp (gp_n _ _ _ _ G)). cbn in Hl, Hlq, Hp.
    rewrite (vec_eq p _ pc Hl (fun i Hi => proj1 (Hp i Hi))), (vec_eq q _ pc Hlq (fun i Hi => proj2 (Hp i Hi))). done.
Qed.

(** ** Reconstruction *)

(** A map whose data columns are as long as their sizes say and whose first one is
    as long as the parity. *)
Record rz_ok (rm : raidz_map) (f n pc : nat) : Prop := {
  rz_gen : gen_pre rm f n pc;
  rz_first : col_count (colat rm f) = Z.of_nat pc;
  rz_sizes : forall c, (c < n)%nat -> rc_size (colat rm (f + c)) = 8 * zlen (rc_data (colat rm (f + c)))
}.

Lemma rz_count rm f n pc c :
  rz_ok rm f n pc -> (c < n)%nat -> col_count (colat rm (f + c)) = zlen (rc_data (colat rm (f + c))).
Proof. intros R Hc. unfold col_count. rewrite (rz_sizes _ _ _ _ R c Hc), Z.mul_comm. apply Z.div_mul. lia. Qed.

Lemma put_put rm c d d' : (c < length (rm_col rm))%nat -> put (put rm c d) c d' = put rm c d'.
Proof.
  intros Hc. unfold put at 1 3. rewrite colat_put by done. destruct (decide (c = c)); [|done].
  unfold put, set_cols. cbn. f_equal. by rewrite list_insert_insert_eq.
Qed.

Lemma put_id rm c : (c < length (rm_col rm))%nat -> put rm c (rc_data (colat rm c)) = rm.
Proof.
  intros Hc. unfold put. replace (with_data (colat rm c) (rc_data (colat rm c))) with (colat rm c) by (by destruct (colat rm c)).
  rewrite list_insert_id; [by destruct rm|].
  destruct (lookup_lt_is_Some_2 _ _ Hc) as [rc Hrc]. rewrite Hrc. f_equal. symmetry. by apply nth_lookup_Some.
Qed.

Lemma put_id_2 rm x y :
  (x < length (rm_col rm))%nat -> (y < length (rm_col rm))%nat -> y <> x ->
  put (put rm x (rc_data (colat rm x))) y (rc_data (colat rm y)) = rm.
Proof. intros Hx Hy Hne. rewrite (put_id rm x) by done. by apply put_id. Qed.

(** Other data of the same length in a column leaves the rest of the map in order. *)
Lemma rz_put rm f n pc x d :
  rz_ok rm f n pc -> (x < n)%nat -> length d = length (rc_data (colat rm (f + x))) -> Forall is_u64 d ->
  rz_ok (put rm (f + x) d) f n pc.
Proof.
  intros R Hx Hd Hu. pose proof (rz_gen _ _ _ _ R) as G. pose proof (gp_cols _ _ _ _ G) as Hc.
  assert (forall c, (c < f + n)%nat -> col_count (colat (put rm (f + x) d) c) = col_count (colat rm c) /\
            rc_size (colat (put rm (f + x) d) c) = rc_size (colat rm c) /\
            length (rc_data (colat (put rm (f + x) d) c)) = length (rc_data (colat rm c))) as Hk.
  { intros c Hc'. rewrite colat_put by lia. destruct (decide _) as [->|]; done. }
  split.
  - split; try apply G.
    + by rewrite put_len, Hc.
    + intros c Hf. destruct (Hk c ltac:(lia)) as (_ & -> & ->). by apply G.
    + intros c Hn. destruct (Hk (f + c)%nat ltac:(lia)) as (-> & _ & ->). by apply G.
    + intros c Hn. rewrite colat_put by lia. destruct (decide _); [done|by apply G].
  - destruct (Hk f ltac:(pose proof (gp_n _ _ _ _ G); lia)) as (-> & _). apply R.
  - intros c Hn. destruct (Hk (f + c)%nat ltac:(lia)) as (_ & -> & ->). by apply R.
Qed.

Lemma dat_put rm f n pc x d i c :
  gen_pre rm f n pc -> (x < n)%nat -> c <> x -> dat (put rm (f + x) d) i c = dat rm i c.
Proof.
  intros G Hx Hne. unfold dat. cbn [rm_firstdatacol put set_cols]. rewrite (gp_first _ _ _ _ G), Nat2Z.id.
  pose proof (gp_cols _ _ _ _ G). rewrite colat_put by lia. by destruct (decide _); [lia|].
Qed.

Lemma lxor_cancel a b : Z.lxor a (Z.lxor a b) = b.
Proof. by rewrite <- Z.lxor_assoc, Z.lxor_nilpotent, Z.lxor_0_l. Qed.
Lemma lxor_cancel_l a b : Z.lxor (Z.lxor a b) a = b.
Proof. rewrite Z.lxor_comm. apply lxor_cancel. Qed.

Lemma lxor_cancel_3 s a b : Z.lxor (Z.lxor (Z.lxor s b) a) s = Z.lxor a b.
Proof. apply Z.bits_inj'. intros k _. rewrite !Z.lxor_spec. by destruct (Z.testbit s k), (Z.testbit a k), (Z.testbit b k). Qed.

(** Column [x] of a good map, with other contents [d]. *)
Record damaged (rm0 rm : raidz_map) (f n pc x : nat) : Prop := {
  dm_ok : rz_ok rm0 f n pc;
  dm_x : (x < n)%nat;
  dm_map : exists d, rm = put rm0 (f + x) d /\ length d = length (rc_data (colat rm0 (f + x))) /\ Forall is_u64 d
}.

Lemma damaged_ok rm0 rm f n pc x : damaged rm0 rm f n pc x -> rz_ok rm f n pc.
Proof. intros [R Hx (d & -> & Hd & Hu)]. by apply rz_put. Qed.

Lemma damaged_dat rm0 rm f n pc x i c : damaged rm0 rm f n pc x -> c <> x -> dat rm i c = dat rm0 i c.
Proof. intros [R Hx (d & -> & Hd & Hu)] Hne. apply (dat_put rm0 f n pc); [apply R|done|done]. Qed.

Lemma damaged_len rm0 rm f n pc x :
  damaged rm0 rm f n pc x -> length (rc_data (colat rm (f + x))) = length (rc_data (colat rm0 (f + x))).
Proof.
  intros [R Hx (d & -> & Hd & Hu)]. pose proof (gp_cols _ _ _ _ (rz_gen _ _ _ _ R)). rewrite colat_put by lia.
  by destruct (decide _).
Qed.

Lemma damaged_parity rm0 rm f n pc x c :
  damaged rm0 rm f n pc x -> (c < f)%nat -> colat rm c = colat rm0 c.
Proof.
  intros [R Hx (d & -> & Hd & Hu)] Hc. pose proof (gp_cols _ _ _ _ (rz_gen _ _ _ _ R)). rewrite colat_put by lia.
  by destruct (decide _); [lia|].
Qed.

Lemma damaged_fix rm0 rm f n pc x : damaged rm0 rm f n pc x -> put rm (f + x) (rc_data (colat rm0 (f + x))) = rm0.
Proof.
  intros [R Hx (d & -> & Hd & Hu)]. pose proof (gp_cols _ _ _ _ (rz_gen _ _ _ _ R)). rewrite put_put by lia. apply put_id. lia.
Qed.

(** The words of the damaged column in the good map. *)
Lemma good_words rm0 f n pc x i :
  rz_ok rm0 f n pc -> (x < n)%nat -> (i < length (rc_data (colat rm0 (f + x))))%nat -> wd (rc_data (colat rm0 (f + x))) i = dat rm0 i x.
Proof.
  intros R Hx Hi. rewrite (dat_at _ _ _ _ i x (rz_gen _ _ _ _ R)), (rz_count _ _ _ _ _ R Hx). destruct (decide _); [done|lia].
Qed.

Lemma rec_p_col_spec rm0 rm f n pc x k dst p :
  damaged rm0 rm f n pc x -> (k < n)%nat ->
  length dst = length (rc_data (colat rm0 (f + x))) ->
  (forall i, (i < length dst)%nat -> wd dst i = Z.lxor (p i) (xs (off (dat rm0 i) x) k)) ->
  exists dst', rec_p_col rm (Z.of_nat (f + x)) (zlen dst) (Z.of_nat (f + k)) dst = Ok dst' /\ length dst' = length dst /\
    forall i, (i < length dst)%nat -> wd dst' i = Z.lxor (p i) (xs (off (dat rm0 i) x) (S k)).
Proof.
  intros D Hk Hl Hp. pose proof (damaged_ok _ _ _ _ _ _ D) as R. pose proof (gp_cols _ _ _ _ (rz_gen _ _ _ _ R)).
  unfold rec_p_col. rewrite get_col_at by lia. run. cbn [xs]. destruct (Z.eqb_spec (Z.of_nat (f + k)) (Z.of_nat (f + x))) as [E|E].
  - assert (k = x) as -> by lia. exists dst. split_and!; [done|done|]. intros i Hi. rewrite Hp by done.
    unfold off at 3. destruct (decide _); [|done]. by rewrite Z.lxor_0_r.
  - pose proof (rz_count _ _ _ _ _ R Hk) as Ec.
    destruct (words2_0 (Z.to_nat (Z.min (col_count (colat rm (f + k))) (zlen dst))) Z.lxor dst (rc_data (colat rm (f + k)))) as (dst' & -> & Hl' & Hk'); [lia|lia|].
    exists dst'. split_and!; [done|done|]. intros i Hi. rewrite Hk', Hp by done.
    assert (k <> x) as Hkx by lia. replace (off (dat rm0 i) x k) with (dat rm0 i k) by (unfold off; by destruct (decide _)).
    rewrite <- (damaged_dat _ _ _ _ _ _ i k D) by done. rewrite (dat_at _ _ _ _ i k (rz_gen _ _ _ _ R)). cases; rewrite ?Z.lxor_0_r; [|done]. apply Z.lxor_assoc.
Qed.

Lemma reconstruct_p_spec rm0 rm f n pc x :
  damaged rm0 rm f n pc x ->
  (forall i, (i < length (rc_data (colat rm0 (f + x))))%nat -> wd (rc_data (colat rm0 0)) i = xs (dat rm0 i) n) ->
  (0 < length (rc_data (colat rm0 (f + x))))%nat ->
  vdev_raidz_reconstruct_p rm (Z.of_nat (f + x)) = Ok rm0.
Proof.
  intros D HP Hpos. pose proof (damaged_ok _ _ _ _ _ _ D) as R. pose proof (rz_gen _ _ _ _ R) as G.
  pose proof (gp_cols _ _ _ _ G) as Hc. pose proof (gp_f _ _ _ _ G) as Hf. pose proof (dm_x _ _ _ _ _ _ D) as Hx.
  pose proof (damaged_len _ _ _ _ _ _ D) as Hlen.
  unfold vdev_raidz_reconstruct_p. change VDEV_RAIDZ_P with (Z.of_nat 0). rewrite !get_col_at by lia. run. cbn zeta.
  rewrite (p_count rm f n pc 0 G Hf), (rz_count _ _ _ _ _ R Hx), (data_cols_at _ _ _ _ G), (gp_first _ _ _ _ G).
  destruct (gp_data _ _ _ _ G x Hx) as [D1 _]. rewrite (rz_count _ _ _ _ _ R Hx) in D1.
  rewrite (proj2 (Z.leb_le _ _)), (proj2 (Z.ltb_lt _ _)) by lia. cbn [verify]. run.
  rewrite (damaged_parity _ _ _ _ _ _ 0 D Hf).
  destruct (gp_p _ _ _ _ (rz_gen _ _ _ _ (dm_ok _ _ _ _ _ _ D)) 0%nat Hf) as [_ Lp].
  destruct (words2_0 (Z.to_nat (zlen (rc_data (colat rm (f + x))))) (fun _ s => s) (rc_data (colat rm (f + x))) (rc_data (colat rm0 0))) as (dst & -> & Hl & Hk); [lia|lia|]. run.
  rewrite <- Hl.
  destruct (for_cols_spec (fun k d => length d = length dst /\ forall i, (i < length dst)%nat ->
      wd d i = Z.lxor (xs (dat rm0 i) n) (xs (off (dat rm0 i) x) k)) n (Z.of_nat f) (rec_p_col rm (Z.of_nat (f + x)) (zlen dst)) dst) as (dst' & -> & Hl' & Hk').
  - split; [done|]. intros i Hi. rewrite Hk. cbn [xs]. rewrite Z.lxor_0_r. rewrite HP by lia. cases.
  - intros k d Hkn (Hld & Hd). rewrite <- Nat2Z.inj_add. rewrite <- Hld in Hd |- *.
    destruct (rec_p_col_spec rm0 rm f n pc x k d (fun i => xs (dat rm0 i) n) D Hkn ltac:(lia) Hd) as (d' & E & Hl2 & Hk2).
    exists d'. by rewrite Hl2.
  - run. rewrite set_data_at by lia. f_equal. rewrite <- (damaged_fix _ _ _ _ _ _ D). f_equal. apply wd_eq; [lia|].
    intros i Hi. rewrite Hk' by lia. rewrite (xs_off (dat rm0 i) x n Hx), lxor_cancel_l.
    symmetry. apply (good_words rm0 f n pc); [apply D|done|lia].
Qed.

(** ** Reconstruction from the weighted sum *)

Lemma each_byte_spec f g l : (forall b, In b l -> f b = Ok (g b)) -> each_byte f l = Ok (map g l).
Proof.
  induction l as [|b l IH]; intros H; [done|]. cbn. rewrite H by (by left). run. rewrite IH by (intros; apply H; by right). done.
Qed.

Lemma exp2_word_spec e w : 0 <= e <= 255 -> is_u64 w -> exp2_word e w = Ok (wxp (Z.to_nat e) w).
Proof.
  intros He Hw. unfold exp2_word. rewrite (each_byte_spec _ (xp (Z.to_nat e))).
  - run. rewrite <- to_bytes_wxp by done. f_equal. apply combine_to_bytes. by apply wxp_u64.
  - intros b Hb. apply exp2_spec; [|done]. pose proof (to_bytes_range w) as H. rewrite List.Forall_forall in H. by apply H.
Qed.

Lemma rec_q_col_spec rm0 rm f n pc x k dst :
  damaged rm0 rm f n pc x -> (k < n)%nat -> length dst = length (rc_data (colat rm0 (f + x))) ->
  (0 < k -> forall i, (i < length dst)%nat -> wd dst i = hs (off (dat rm0 i) x) k)%nat ->
  exists dst', rec_q_col rm (Z.of_nat (f + x)) (zlen dst) (Z.of_nat (f + k)) dst = Ok dst' /\ length dst' = length dst /\
    forall i, (i < length dst)%nat -> wd dst' i = hs (off (dat rm0 i) x) (S k).
Proof.
  intros D Hk Hl Hp. pose proof (damaged_ok _ _ _ _ _ _ D) as R. pose proof (rz_gen _ _ _ _ R) as G. pose proof (gp_cols _ _ _ _ G).
  unfold rec_q_col. rewrite get_col_at by lia. run. cbn zeta. pose proof (rz_count _ _ _ _ _ R Hk) as Ec.
  set (cc := if Z.of_nat (f + k) =? Z.of_nat (f + x) then 0 else col_count (colat rm (f + k))).
  assert (forall i, (i < length dst)%nat -> off (dat rm0 i) x k = if decide (Z.of_nat i < Z.min cc (zlen dst)) then wd (rc_data (colat rm (f + k))) i else 0) as Hd.
  { intros i Hi. unfold off, cc. destruct (Z.eqb_spec (Z.of_nat (f + k)) (Z.of_nat (f + x))) as [E|E].
    - cases.
    - destruct (decide (k = x)); [lia|]. rewrite <- (damaged_dat _ _ _ _ _ _ i k D) by done. rewrite (dat_at _ _ _ _ i k G). cases. }
  assert (0 <= cc <= zlen (rc_data (colat rm (f + k)))) as Hcc by (unfold cc; destruct (_ =? _); lia).
  set (m := Z.min cc (zlen dst)) in *. assert (Z.of_nat (Z.to_nat m) = m) as Em by lia.
  rewrite (gp_first _ _ _ _ G). destruct (Z.eqb_spec (Z.of_nat (f + k)) (Z.of_nat f)) as [E|E].
  - assert (k = 0%nat) as -> by lia.
    destruct (words2_0 (Z.to_nat m) (fun _ s => s) dst (rc_data (colat rm (f + 0)))) as (d1 & -> & L1 & K1); [lia|lia|]. run. rewrite <- Em.
    destruct (words1_spec (Z.to_nat (zlen dst - Z.of_nat (Z.to_nat m))) (Z.to_nat m) (fun _ => Ok 0) (fun _ => 0) d1) as (d2 & -> & L2 & K2); [lia|done|].
    exists d2. split_and!; [done|lia|]. intros i Hi. rewrite K2, K1. cbn [hs]. rewrite mul2_word_0, Z.lxor_0_l, Hd by done. cases.
  - destruct (words2_0 (Z.to_nat m) (fun d s => Z.lxor (mul2_word d) s) dst (rc_data (colat rm (f + k)))) as (d1 & -> & L1 & K1); [lia|lia|]. run. rewrite <- Em.
    destruct (words1_spec (Z.to_nat (zlen dst - Z.of_nat (Z.to_nat m))) (Z.to_nat m) (fun d => Ok (mul2_word d)) mul2_word d1) as (d2 & -> & L2 & K2); [lia|done|].
    exists d2. split_and!; [done|lia|]. intros i Hi. rewrite K2, K1. cbn [hs]. rewrite <- (Hp ltac:(lia) i Hi), Hd by done. cases.
    all: by rewrite ?Z.lxor_0_r.
Qed.

Lemma dat_all_u64 rm f n pc i : gen_pre rm f n pc -> exists d, (forall c, is_u64 (d c)) /\ forall c, (c < n)%nat -> dat rm i c = d c.
Proof.
  intros G. exists (fun c => if decide (c < n)%nat then dat rm i c else 0). split.
  - intros c. destruct (decide _); [by eapply dat_u64|done].
  - intros c Hc. by destruct (decide _).
Qed.

(** Taking a column out of the weighted sum of a map. *)
Lemma hs_dat_off rm f n pc i x :
  gen_pre rm f n pc -> (x < n)%nat ->
  hs (dat rm i) n = Z.lxor (hs (off (dat rm i) x) n) (wxp (n - 1 - x) (dat rm i x)) /\
  is_u64 (hs (off (dat rm i) x) n) /\ is_u64 (dat rm i x).
Proof.
  intros G Hx. destruct (dat_all_u64 rm f n pc i G) as (d & Hu & Hd).
  rewrite (hs_ext (dat rm i) d n Hd), (Hd x Hx). rewrite (hs_ext (off (dat rm i) x) (off d x) n).
  - split_and!; [by apply hs_off|by apply hs_u64, off_u64..|by apply Hu].
  - intros c Hc. unfold off. destruct (decide _); [done|by apply Hd].
Qed.

Lemma wxp_255 w : is_u64 w -> wxp 255 w = w.
Proof.
  intros Hw. apply to_bytes_inj; [by apply wxp_u64|done|]. rewrite to_bytes_wxp by done.
  rewrite <- (map_id (to_bytes w)) at 2. apply map_ext_in. intros b Hb. apply xp_255.
  pose proof (to_bytes_range w) as H. rewrite List.Forall_forall in H. by apply H.
Qed.

Lemma reconstruct_q_spec rm0 rm n pc x :
  damaged rm0 rm 2 n pc x ->
  (forall i, (i < length (rc_data (colat rm0 (2 + x))))%nat -> wd (rc_data (colat rm0 1)) i = hs (dat rm0 i) n) ->
  (n <= 255)%nat ->
  vdev_raidz_reconstruct_q rm (Z.of_nat (2 + x)) = Ok rm0.
Proof.
  intros D HQ Hn. pose proof (damaged_ok _ _ _ _ _ _ D) as R. pose proof (rz_gen _ _ _ _ R) as G.
  pose proof (gp_cols _ _ _ _ G) as Hc. pose proof (dm_x _ _ _ _ _ _ D) as Hx. pose proof (dm_ok _ _ _ _ _ _ D) as R0.
  pose proof (damaged_len _ _ _ _ _ _ D) as Hlen. pose proof (rz_gen _ _ _ _ R0) as G0.
  unfold vdev_raidz_reconstruct_q. change VDEV_RAIDZ_Q with (Z.of_nat 1). rewrite !get_col_at by lia. run. cbn zeta.
  rewrite (p_count rm 2 n pc 1 G ltac:(lia)), (rz_count _ _ _ _ _ R Hx), (data_cols_at _ _ _ _ G), (gp_first _ _ _ _ G).
  destruct (gp_data _ _ _ _ G x Hx) as [D1 _]. rewrite (rz_count _ _ _ _ _ R Hx) in D1.
  rewrite (proj2 (Z.leb_le _ _)) by lia. cbn [verify]. run.
  set (L := length (rc_data (colat rm (2 + x)))) in *.
  destruct (for_cols_spec (fun k d => length d = L /\
      (0 < k -> forall i, (i < L)%nat -> wd d i = hs (off (dat rm0 i) x) k)%nat)
    n (Z.of_nat 2) (rec_q_col rm (Z.of_nat (2 + x)) (Z.of_nat L)) (rc_data (colat rm (2 + x)))) as (d1 & -> & L1 & K1).
  - split; [done|lia].
  - intros k d Hk (Hld & Hd). rewrite <- Nat2Z.inj_add. rewrite <- Hld in Hd |- *.
    destruct (rec_q_col_spec rm0 rm 2 n pc x k d D Hk ltac:(lia) Hd) as (d' & E & Hl2 & Hk2).
    exists d'. split_and!; [done|lia|]. intros _. by rewrite Hld in Hk2 |- *.
  - run. specialize (K1 ltac:(lia)). rewrite (damaged_parity _ _ _ _ _ _ 1 D ltac:(lia)).
    destruct (gp_p _ _ _ _ G0 1%nat ltac:(lia)) as [_ Lq].
    destruct (words2_0 (Z.to_nat (Z.of_nat L)) Z.lxor d1 (rc_data (colat rm0 1))) as (d2 & -> & L2 & K2); [lia|lia|]. run.
    assert (forall i, (i < L)%nat -> wd d2 i = wxp (n - 1 - x) (dat rm0 i x)) as K2'.
    { intros i Hi. rewrite K2, K1, HQ by lia. destruct (decide (i < Z.to_nat (Z.of_nat L))%nat); [|lia].
      destruct (hs_dat_off rm0 2 n pc i x G0 Hx) as (-> & _ & _). apply lxor_cancel. }
    unfold rm_cols. rewrite Hc.
    assert (0 <= 255 - (Z.of_nat (2 + n) - 1 - Z.of_nat (2 + x)) <= 255) as He by lia.
    set (e := 255 - (Z.of_nat (2 + n) - 1 - Z.of_nat (2 + x))) in *.
    destruct (words1_spec (Z.to_nat (Z.of_nat L)) 0 (exp2_word e) (wxp (Z.to_nat e)) d2) as (d3 & E3 & L3 & K3); [lia| |].
    { intros k Hk. apply exp2_word_spec; [done|]. rewrite K2' by lia. apply wxp_u64. by apply (hs_dat_off rm0 2 n pc k x G0 Hx). }
    change (Z.of_nat 0) with 0 in E3. rewrite E3. run. rewrite set_data_at by lia. f_equal.
    rewrite <- (damaged_fix _ _ _ _ _ _ D). f_equal. apply wd_eq; [lia|]. intros i Hi. rewrite K3.
    destruct (decide _); [|lia]. rewrite K2', <- wxp_add by lia. replace (Z.to_nat e + (n - 1 - x))%nat with 255%nat by lia.
    rewrite wxp_255 by (by apply (hs_dat_off rm0 2 n pc i x G0 Hx)).
    symmetry. apply (good_words rm0 2 n pc); [done|done|lia].
Qed.

(** ** Reconstruction of two columns *)

(** The coefficients: with [a] and [b] the weights of the two columns,
    2^aexp + 2^(bexp + a) = 1 and 2^aexp + 2^(bexp + b) = 0. *)
Lemma rec_pq_exps_spec n x y :
  (x < y)%nat -> (y < n)%nat -> (n <= 255)%nat ->
  exists aexp bexp, rec_pq_exps (Z.of_nat (2 + n)) (Z.of_nat (2 + x)) (Z.of_nat (2 + y)) = Ok (aexp, bexp) /\
    0 <= aexp <= 254 /\ 0 <= bexp <= 254 /\
    (forall v, is_byte v -> Z.lxor (xp (Z.to_nat aexp) v) (xp (Z.to_nat bexp + (n - 1 - x)) v) = v) /\
    (forall v, is_byte v -> xp (Z.to_nat aexp) v = xp (Z.to_nat bexp + (n - 1 - y)) v).
Proof.
  intros Hxy Hyn Hn. unfold rec_pq_exps.
  rewrite !pow2_rd by lia. run.
  replace (Z.to_nat (255 + Z.of_nat (2 + x) - Z.of_nat (2 + y))) with (255 - (y - x))%nat by lia.
  replace (Z.to_nat (255 - (Z.of_nat (2 + n) - 1 - Z.of_nat (2 + x)))) with (255 - (n - 1 - x))%nat by lia.
  set (d := (y - x)%nat). set (ea := (n - 1 - x)%nat). assert (0 < d <= 254)%nat as Hd by lia. assert (ea <= 254)%nat as Hea by lia.
  assert (is_byte 1) as H1 by done.
  assert (is_byte (Z.lxor (xp (255 - d) 1) 1)) as Hb by (by apply lxor_byte; [apply xp_range|]).
  assert (Z.lxor (xp (255 - d) 1) 1 <> 0) as Hne.
  { intros E. apply Z.lxor_eq in E. by apply (xp_order (255 - d)) in E; [|lia]. }
  destruct (log2_rd _ Hb Hne) as (l & -> & Hl & Hx & _). run.
  rewrite (wrap_small 8) by lia. rewrite !exp2_spec by (try apply xp_range; done || lia). run.
  set (t := Z.to_nat (255 - l)).
  destruct (log2_rd (xp t (xp (255 - d) 1))) as (aexp & -> & Ha & Ea & _); [by do 2 apply xp_range|by do 2 (apply xp_nz; [by repeat apply xp_range|])|]. run.
  destruct (log2_rd (xp t (xp (255 - ea) 1))) as (bexp & -> & Hbx & Eb & _); [by do 2 apply xp_range|by do 2 (apply xp_nz; [by repeat apply xp_range|])|]. run.
  exists aexp, bexp. split_and!; [done|lia|lia|lia|lia|..].
  - apply xp_sum_one. rewrite Ea, Nat.add_comm, xp_add, Eb, <- !xp_add.
    replace (ea + t + (255 - ea))%nat with (t + 255)%nat by lia. rewrite (xp_add t 255), (xp_add t (255 - d)), xp_255_1, <- xp_lxor, <- Hx, <- xp_add.
    replace (t + Z.to_nat l)%nat with 255%nat by lia. apply xp_255_1.
  - apply xp_ext. rewrite Ea, Nat.add_comm, xp_add, Eb, <- !xp_add. f_equal. lia.
Qed.

Definition resize (rm : raidz_map) (c : nat) (size : Z) : raidz_map :=
  set_cols rm (<[c := with_size (colat rm c) size]> (rm_col rm)).

Lemma set_size_at rm c size :
  (c < length (rm_col rm))%nat -> set_size rm (Z.of_nat c) size = Ok (resize rm c size).
Proof. intros Hc. unfold set_size. rewrite get_col_at by done. run. by rewrite Nat2Z.id. Qed.

Lemma colat_resize rm c size j :
  (c < length (rm_col rm))%nat ->
  colat (resize rm c size) j = if decide (j = c) then with_size (colat rm c) size else colat rm j.
Proof. intros Hc. unfold colat at 1, resize. cbn [rm_col set_cols]. by rewrite nth_insert. Qed.

Lemma resize_len rm c size : length (rm_col (resize rm c size)) = length (rm_col rm).
Proof. apply length_insert. Qed.

Lemma put_fields rm c d : set_cols (put rm c d) [] = set_cols rm [].
Proof. reflexivity. Qed.
Lemma resize_fields rm c size : set_cols (resize rm c size) [] = set_cols rm [].
Proof. reflexivity. Qed.

Lemma rmap_ext rm rm' :
  set_cols rm [] = set_cols rm' [] -> length (rm_col rm) = length (rm_col rm') ->
  (forall c, (c < length (rm_col rm))%nat -> colat rm c = colat rm' c) -> rm = rm'.
Proof.
  intros E Hl Hc. destruct rm as [? ? ? ? ? l], rm' as [? ? ? ? ? l']. unfold set_cols in E. cbn in *.
  injection E as -> -> -> -> ->. f_equal. by apply (nth_ext l l' col0 col0).
Qed.

(** Bytes of words. *)
Lemma bytes_of_len ws : length (bytes_of ws) = (8 * length ws)%nat.
Proof. induction ws as [|w ws IH]; [done|]. cbn [bytes_of flat_map]. rewrite length_app, to_bytes_len. fold (bytes_of ws). rewrite IH. cbn [length]. lia. Qed.

Lemma bytes_of_at ws i j : (j < 8)%nat -> wd (bytes_of ws) (8 * i + j) = byte (wd ws i) j.
Proof.
  intros Hj. revert i. induction ws as [|w ws IH]; intros i.
  - unfold wd. cbn [bytes_of flat_map]. rewrite !nth_overflow by (cbn; lia). unfold byte. by rewrite Z.shiftr_0_l.
  - cbn [bytes_of flat_map]. fold (bytes_of ws). unfold wd at 1. destruct i as [|i].
    + rewrite app_nth1 by (rewrite to_bytes_len; lia). change (wd (w :: ws) 0) with w. unfold to_bytes.
      replace (8 * 0 + j)%nat with j by lia. rewrite (nth_indep _ 0 (byte w 0)) by (rewrite length_map, length_seq; lia).
      by rewrite map_nth, seq_nth.
    + rewrite app_nth2 by (rewrite to_bytes_len; lia). rewrite to_bytes_len.
      replace (8 * S i + j - 8)%nat with (8 * i + j)%nat by lia. apply IH.
Qed.

Lemma bytes_of_range ws : Forall is_byte (bytes_of ws).
Proof. induction ws as [|w ws IH]; [constructor|]. cbn [bytes_of flat_map]. apply List.Forall_app. split; [apply to_bytes_range|done]. Qed.

Lemma words_bytes ws : Forall is_u64 ws -> words_of (length ws) (bytes_of ws) = ws.
Proof.
  induction 1 as [|w ws Hw _ IH]; [done|]. cbn [length words_of bytes_of flat_map]. fold (bytes_of ws).
  rewrite take_app_length', drop_app_length' by done. by rewrite combine_to_bytes, IH.
Qed.

Lemma wd_byte l k : Forall is_byte l -> is_byte (wd l k).
Proof.
  intros Hl. unfold wd. destruct (nth_in_or_default k l 0) as [Hin| ->]; [|done].
  rewrite List.Forall_forall in Hl. by apply Hl.
Qed.

Lemma all_bytes l : (forall k, is_byte (wd l k)) -> Forall is_byte l.
Proof.
  intros H. apply List.Forall_forall. intros b Hb. destruct (In_nth l b 0 Hb) as (k & _ & <-). apply H.
Qed.

Section PqLoop.
Variables (p q pxy qxy : list Z) (aexp bexp ysize : Z).
Hypotheses (Bp : Forall is_byte p) (Bq : Forall is_byte q) (Bpxy : Forall is_byte pxy) (Bqxy : Forall is_byte qxy).
Hypotheses (Ha : 0 <= aexp <= 255) (Hb : 0 <= bexp <= 255).

Definition xval (k : nat) : Z :=
  Z.lxor (xp (Z.to_nat aexp) (Z.lxor (wd p k) (wd pxy k))) (xp (Z.to_nat bexp) (Z.lxor (wd q k) (wd qxy k))).

Lemma rec_pq_loop_spec n i xd yd :
  (i + n <= length p)%nat -> (i + n <= length q)%nat -> (i + n <= length pxy)%nat -> (i + n <= length qxy)%nat ->
  (i + n <= length xd)%nat -> ysize <= zlen yd ->
  exists xd' yd', rec_pq_loop n (Z.of_nat i) aexp bexp ysize p q pxy qxy xd yd = Ok (xd', yd') /\
    length xd' = length xd /\ length yd' = length yd /\
    (forall k, wd xd' k = if decide (i <= k < i + n)%nat then xval k else wd xd k) /\
    (forall k, wd yd' k = if decide ((i <= k < i + n)%nat /\ Z.of_nat k < ysize) then Z.lxor (Z.lxor (wd p k) (wd pxy k)) (xval k) else wd yd k).
Proof.
  revert i xd yd. induction n as [|n IH]; intros i xd yd L1 L2 L3 L4 L5 L6.
  { exists xd, yd. split_and!; try done; intros k; destruct (decide _); lia || done. }
  cbn [rec_pq_loop]. rewrite !rd_nth, Nat2Z.id by lia. run. fold (wd p i) (wd q i) (wd pxy i) (wd qxy i).
  rewrite !exp2_spec by (try apply lxor_byte; try apply wd_byte; done || lia). run. fold (xval i).
  rewrite (wr_in xd), Nat2Z.id by lia. run.
  assert (exists yd1, (if Z.of_nat i <? ysize then wr yd (Z.of_nat i) (Z.lxor (Z.lxor (wd p i) (wd pxy i)) (xval i)) else Ok yd) = Ok yd1 /\
    length yd1 = length yd /\ forall k, wd yd1 k = if decide (k = i /\ Z.of_nat k < ysize) then Z.lxor (Z.lxor (wd p k) (wd pxy k)) (xval k) else wd yd k)
    as (yd1 & -> & Ly & Ky).
  { destruct (Z.ltb_spec (Z.of_nat i) ysize).
    - rewrite wr_in, Nat2Z.id by lia. eexists. split_and!; [done|apply length_insert|]. intros k. rewrite wd_insert by lia.
      destruct (decide (k = i)) as [->|]; destruct (decide _); try done; lia.
    - exists yd. split_and!; [done|done|]. intros k. destruct (decide _); [lia|done]. }
  run. replace (Z.of_nat i + 1) with (Z.of_nat (S i)) by lia.
  destruct (IH (S i) (<[i := xval i]> xd) yd1) as (xd' & yd' & -> & Lx' & Ly' & Kx & Ky'); rewrite ?length_insert; [lia..|].
  exists xd', yd'. rewrite length_insert in Lx'. split_and!; [done|done|lia|..]; intros k.
  - rewrite Kx, wd_insert by lia. destruct (decide (k = i)) as [->|]; repeat destruct (decide _); try lia; done.
  - rewrite Ky', Ky. repeat destruct (decide _); try lia; done.
Qed.
End PqLoop.

Lemma pq_back_at r x y xd yd p q :
  (1 < length (rm_col r))%nat -> (x < length (rm_col r))%nat -> (y < length (rm_col r))%nat ->
  pq_back r (Z.of_nat x) (Z.of_nat y) xd yd p q = Ok (put (put (put (put r x xd) y yd) 0 p) 1 q).
Proof.
  intros H1 Hx Hy. unfold pq_back. change VDEV_RAIDZ_P with (Z.of_nat 0). change VDEV_RAIDZ_Q with (Z.of_nat 1).
  rewrite (set_data_at r x) by done. cbn [mbind outcome_bind].
  rewrite (set_data_at (put r x xd) y) by (rewrite put_len; done). cbn [mbind outcome_bind].
  rewrite (set_data_at _ 0) by (rewrite !put_len; lia). cbn [mbind outcome_bind].
  apply (set_data_at _ 1). rewrite !put_len. done.
Qed.

(** The routine, from what its steps give. *)
Lemma reconstruct_pq_steps newp newq r r1 r2 r3 x y cx cy cp cq p1 q1 aexp bexp xd yd :
  x < y -> rm_firstdatacol r <= x -> y < rm_cols r -> rc_size cy <= rc_size cx ->
  get_col r x = Ok cx -> get_col r y = Ok cy -> get_col r VDEV_RAIDZ_P = Ok cp -> get_col r VDEV_RAIDZ_Q = Ok cq ->
  pq_aside newp newq r x y = Ok r1 -> vdev_raidz_generate_parity_pq r1 = Ok r2 ->
  pq_sizes r2 x y (rc_size cx) (rc_size cy) = Ok r3 ->
  get_col r3 VDEV_RAIDZ_P = Ok p1 -> get_col r3 VDEV_RAIDZ_Q = Ok q1 ->
  rec_pq_exps (rm_cols r) x y = Ok (aexp, bexp) ->
  rec_pq_loop (Z.to_nat (rc_size cx)) 0 aexp bexp (rc_size cy) (bytes_of (rc_data cp)) (bytes_of (rc_data cq))
    (bytes_of (rc_data p1)) (bytes_of (rc_data q1)) (bytes_of (rc_data cx)) (bytes_of (rc_data cy)) = Ok (xd, yd) ->
  vdev_raidz_reconstruct_pq newp newq r x y =
    pq_back r3 x y (words_of (length (rc_data cx)) xd) (words_of (length (rc_data cy)) yd) (rc_data cp) (rc_data cq).
Proof.
  intros Hxy Hf Hy Hs Ex Ey Ep Eq E1 E2 E3 Ep1 Eq1 Ee El. unfold vdev_raidz_reconstruct_pq.
  rewrite (proj2 (Z.ltb_lt x y) Hxy), (proj2 (Z.leb_le _ _) Hf), (proj2 (Z.ltb_lt y _) Hy). cbn [verify mbind outcome_bind].
  rewrite Ex, Ey. cbn [mbind outcome_bind]. rewrite (proj2 (Z.leb_le _ _) Hs). cbn [verify mbind outcome_bind].
  rewrite Ep, Eq. cbn [mbind outcome_bind]. rewrite E1. cbn [mbind outcome_bind]. rewrite E2. cbn [mbind outcome_bind].
  rewrite E3. cbn [mbind outcome_bind]. rewrite Ep1, Eq1. cbn [mbind outcome_bind]. rewrite Ee. cbn [mbind outcome_bind]. by rewrite El.
Qed.

(** Two columns [x] and [y] of a good map, with other contents. *)
Section Two.
Variables (rm0 : raidz_map) (n pc x y : nat) (dx dy newp newq : list Z).
Hypothesis R : rz_ok rm0 2 n pc.
Hypotheses (Hxy : (x < y)%nat) (Hyn : (y < n)%nat) (Hn : (n <= 255)%nat).
Hypothesis HP : rc_data (colat rm0 0) = pvec rm0 n pc.
Hypothesis HQ : rc_data (colat rm0 1) = qvec rm0 n pc.
Hypotheses (Ldx : length dx = length (rc_data (colat rm0 (2 + x)))) (Ldy : length dy = length (rc_data (colat rm0 (2 + y)))).
Hypotheses (Udx : Forall is_u64 dx) (Udy : Forall is_u64 dy).
Hypothesis Hord : rc_size (colat rm0 (2 + y)) <= rc_size (colat rm0 (2 + x)).
Hypotheses (Lp : length newp = pc) (Lq : length newq = pc).

Definition rm2 : raidz_map := put (put rm0 (2 + x) dx) (2 + y) dy.
(** The map as parity is generated for it: scratch parity, empty columns. *)
Definition rm_xy : raidz_map := resize (resize (put (put rm2 0 newp) 1 newq) (2 + x) 0) (2 + y) 0.

Let G : gen_pre rm0 2 n pc := rz_gen _ _ _ _ R.
Let Hc : length (rm_col rm0) = (2 + n)%nat := gp_cols _ _ _ _ G.

Ltac at_cols :=
  unfold rm_xy, rm2;
  repeat (rewrite colat_put || rewrite colat_resize); rewrite ?put_len, ?resize_len, ?put_len, ?Hc; try lia;
  repeat destruct (decide _); try lia.

Lemma rm_xy_len : length (rm_col rm_xy) = (2 + n)%nat.
Proof. unfold rm_xy, rm2. by rewrite !resize_len, !put_len. Qed.

Lemma rm_xy_0 : colat rm_xy 0 = with_data (colat rm0 0) newp.
Proof. at_cols; done. Qed.
Lemma rm_xy_1 : colat rm_xy 1 = with_data (colat rm0 1) newq.
Proof. at_cols; done. Qed.
Lemma rm_xy_x : colat rm_xy (2 + x) = with_size (with_data (colat rm0 (2 + x)) dx) 0.
Proof. at_cols; done. Qed.
Lemma rm_xy_y : colat rm_xy (2 + y) = with_size (with_data (colat rm0 (2 + y)) dy) 0.
Proof. at_cols; done. Qed.
Lemma rm_xy_other c : (1 < c)%nat -> c <> (2 + x)%nat -> c <> (2 + y)%nat -> colat rm_xy c = colat rm0 c.
Proof. intros. at_cols; done. Qed.

Lemma rm_xy_data c :
  (c < n)%nat -> exists d, rc_data (colat rm_xy (2 + c)) = d /\ Forall is_u64 d /\
    ((c = x \/ c = y) /\ col_count (colat rm_xy (2 + c)) = 0 \/ colat rm_xy (2 + c) = colat rm0 (2 + c)).
Proof.
  intros Hcn. eexists. split; [done|]. destruct (decide (c = x)) as [->|]; [|destruct (decide (c = y)) as [->|]].
  - rewrite rm_xy_x. split; [done|]. left. split; [by left|done].
  - rewrite rm_xy_y. split; [done|]. left. split; [by right|done].
  - rewrite rm_xy_other by lia. split; [|by right]. by apply (gp_u64 _ _ _ _ G).
Qed.

Lemma rm_xy_pre : gen_pre rm_xy 2 n pc.
Proof.
  split; [apply G|apply rm_xy_len|lia|lia|..].
  - intros [|[|c]] Hf; [rewrite rm_xy_0|rewrite rm_xy_1|lia]; (split; [by apply (gp_p _ _ _ _ G)|done]).
  - intros c Hcn. destruct (rm_xy_data c Hcn) as (d & _ & _ & [[_ ->]| ->]); [lia|by apply (gp_data _ _ _ _ G)].
  - intros c Hcn. by destruct (rm_xy_data c Hcn) as (d & -> & H & _).
Qed.

Lemma rm_xy_first : col_count (colat rm_xy 2) = Z.of_nat pc \/ col_count (colat rm_xy 2) = 0.
Proof.
  destruct (rm_xy_data 0 ltac:(lia)) as (d & _ & _ & [[_ H]|H]); [by right|left]. change (colat rm_xy 2 = colat rm0 2) in H. rewrite H. apply R.
Qed.

Lemma rm_xy_dat i c : (c < n)%nat -> dat rm_xy i c = off (off (dat rm0 i) x) y c.
Proof.
  intros Hcn. rewrite (dat_at _ _ _ _ i c rm_xy_pre). unfold off.
  destruct (decide (c = y)) as [->|]; [|destruct (decide (c = x)) as [->|]].
  - rewrite rm_xy_y. unfold col_count. cbn [rc_size with_size]. change (0 / 8) with 0. cases.
  - rewrite rm_xy_x. unfold col_count. cbn [rc_size with_size]. change (0 / 8) with 0. cases.
  - rewrite rm_xy_other by lia. by rewrite (dat_at _ _ _ _ i c G).
Qed.

(** What the two sums differ by. *)
Lemma two_sums i :
  Z.lxor (xs (dat rm0 i) n) (xs (dat rm_xy i) n) = Z.lxor (dat rm0 i x) (dat rm0 i y) /\
  Z.lxor (hs (dat rm0 i) n) (hs (dat rm_xy i) n) = Z.lxor (wxp (n - 1 - x) (dat rm0 i x)) (wxp (n - 1 - y) (dat rm0 i y)) /\
  is_u64 (dat rm0 i x) /\ is_u64 (dat rm0 i y).
Proof.
  destruct (dat_all_u64 rm0 2 n pc i G) as (d & Hu & Hd).
  rewrite (xs_ext (dat rm_xy i) (off (off d x) y) n), (hs_ext (dat rm_xy i) (off (off d x) y) n).
  2, 3: intros c Hcn; rewrite rm_xy_dat by done; unfold off; repeat destruct (decide _); [done|done|by apply Hd].
  rewrite (xs_ext (dat rm0 i) d n Hd), (hs_ext (dat rm0 i) d n Hd), (Hd x ltac:(lia)), (Hd y ltac:(lia)).
  assert (off d x y = d y) as Ey by (unfold off; destruct (decide _); [lia|done]).
  split_and!; [..|by apply Hu|by apply Hu].
  - rewrite (xs_off d x n) by lia. rewrite (xs_off (off d x) y n) by lia. rewrite Ey. apply lxor_cancel_3.
  - rewrite (hs_off d x n) by (auto; lia). rewrite (hs_off (off d x) y n) by (auto using off_u64; lia).
    rewrite Ey. apply lxor_cancel_3.
Qed.

(** The bytes the last loop computes. *)
Lemma xval_spec aexp bexp i j :
  (forall v, is_byte v -> Z.lxor (xp (Z.to_nat aexp) v) (xp (Z.to_nat bexp + (n - 1 - x)) v) = v) ->
  (forall v, is_byte v -> xp (Z.to_nat aexp) v = xp (Z.to_nat bexp + (n - 1 - y)) v) ->
  (i < pc)%nat -> (j < 8)%nat ->
  xval (bytes_of (pvec rm0 n pc)) (bytes_of (qvec rm0 n pc)) (bytes_of (pvec rm_xy n pc)) (bytes_of (qvec rm_xy n pc))
    aexp bexp (8 * i + j) = byte (dat rm0 i x) j /\
  Z.lxor (wd (bytes_of (pvec rm0 n pc)) (8 * i + j)) (wd (bytes_of (pvec rm_xy n pc)) (8 * i + j)) =
    Z.lxor (byte (dat rm0 i x) j) (byte (dat rm0 i y) j).
Proof.
  intros Hone Hzero Hi Hj. unfold xval. rewrite !bytes_of_at by done. unfold pvec, qvec. rewrite !wd_map.
  destruct (decide (i < pc)%nat); [|lia]. rewrite <- !byte_lxor.
  destruct (two_sums i) as (-> & -> & Ux & Uy). split; [|done]. rewrite !byte_lxor, !byte_wxp by done.
  rewrite !xp_lxor, <- !xp_add. rewrite (Hzero (byte (dat rm0 i y) j)) by apply byte_range.
  rewrite <- (Hone (byte (dat rm0 i x) j)) at 3 by apply byte_range.
  apply Z.bits_inj'. intros k _. rewrite !Z.lxor_spec. by repeat destruct (Z.testbit _ k).
Qed.

Lemma rm2_len : length (rm_col rm2) = (2 + n)%nat.
Proof. unfold rm2. by rewrite !put_len. Qed.
Lemma rm2_at c :
  colat rm2 c = if decide (c = (2 + y)%nat) then with_data (colat rm0 (2 + y)) dy
                else if decide (c = (2 + x)%nat) then with_data (colat rm0 (2 + x)) dx else colat rm0 c.
Proof. at_cols; done. Qed.

Lemma good_data c : (c < n)%nat -> Forall is_u64 (rc_data (colat rm0 (2 + c))) /\
  rc_size (colat rm0 (2 + c)) = 8 * zlen (rc_data (colat rm0 (2 + c))) /\ zlen (rc_data (colat rm0 (2 + c))) <= Z.of_nat pc.
Proof.
  intros Hcn. split_and!; [by apply (gp_u64 _ _ _ _ G)|by apply R|].
  rewrite <- (rz_count _ _ _ _ _ R Hcn). by apply (gp_data _ _ _ _ G).
Qed.

(** The last loop recovers both columns, byte by byte. *)
Lemma rec_pq_bytes aexp bexp :
  0 <= aexp <= 254 -> 0 <= bexp <= 254 ->
  (forall v, is_byte v -> Z.lxor (xp (Z.to_nat aexp) v) (xp (Z.to_nat bexp + (n - 1 - x)) v) = v) ->
  (forall v, is_byte v -> xp (Z.to_nat aexp) v = xp (Z.to_nat bexp + (n - 1 - y)) v) ->
  rec_pq_loop (Z.to_nat (rc_size (colat rm0 (2 + x)))) 0 aexp bexp (rc_size (colat rm0 (2 + y)))
    (bytes_of (pvec rm0 n pc)) (bytes_of (qvec rm0 n pc)) (bytes_of (pvec rm_xy n pc)) (bytes_of (qvec rm_xy n pc))
    (bytes_of dx) (bytes_of dy) =
  Ok (bytes_of (rc_data (colat rm0 (2 + x))), bytes_of (rc_data (colat rm0 (2 + y)))).
Proof.
  intros Ha Hb Hone Hzero. destruct (good_data x ltac:(lia)) as (_ & Sx & Bx). destruct (good_data y Hyn) as (_ & Sy & By).
  assert (forall rm, length (bytes_of (pvec rm n pc)) = (8 * pc)%nat /\ length (bytes_of (qvec rm n pc)) = (8 * pc)%nat) as Lb.
  { intros rm. unfold pvec, qvec. by rewrite !bytes_of_len, !length_map, !length_seq. }
  destruct (Lb rm0) as [L1 L2]. destruct (Lb rm_xy) as [L3 L4].
  destruct (rec_pq_loop_spec (bytes_of (pvec rm0 n pc)) (bytes_of (qvec rm0 n pc)) (bytes_of (pvec rm_xy n pc)) (bytes_of (qvec rm_xy n pc))
    aexp bexp (rc_size (colat rm0 (2 + y))) (bytes_of_range _) (bytes_of_range _) (bytes_of_range _) (bytes_of_range _) ltac:(lia) ltac:(lia)
    (Z.to_nat (rc_size (colat rm0 (2 + x)))) 0 (bytes_of dx) (bytes_of dy)) as (xd & yd & E & Lx & Ly & Kx & Ky);
    rewrite ?L1, ?L2, ?L3, ?L4, ?bytes_of_len; try lia.
  change (Z.of_nat 0) with 0 in E. rewrite E. rewrite bytes_of_len in Lx, Ly.
  assert (forall k, (k < 8 * pc)%nat -> exists i j, k = (8 * i + j)%nat /\ (j < 8)%nat /\ (i < pc)%nat) as Hdiv.
  { intros k Hk. exists (k / 8)%nat, (k mod 8)%nat. pose proof (Nat.div_mod_eq k 8). pose proof (Nat.mod_upper_bound k 8 ltac:(lia)). lia. }
  f_equal. f_equal; (apply wd_eq; [rewrite bytes_of_len; lia|]); intros k Hk.
  - destruct (Hdiv k ltac:(lia)) as (i & j & -> & Hj & Hi). rewrite Kx. destruct (decide _); [|lia].
    destruct (xval_spec aexp bexp i j Hone Hzero Hi Hj) as [-> _]. rewrite bytes_of_at by done. f_equal.
    symmetry. apply (good_words rm0 2 n pc); [done|lia|lia].
  - destruct (Hdiv k ltac:(lia)) as (i & j & -> & Hj & Hi). rewrite Ky. destruct (decide _); [|lia].
    destruct (xval_spec aexp bexp i j Hone Hzero Hi Hj) as [-> ->]. rewrite lxor_cancel_l, bytes_of_at by done. f_equal.
    symmetry. apply (good_words rm0 2 n pc); [done|lia|lia].
Qed.

(** The last loop runs on any parity, and leaves bytes. *)
Lemma rec_pq_bytes_run aexp bexp :
  0 <= aexp <= 254 -> 0 <= bexp <= 254 ->
  exists xd yd, rec_pq_loop (Z.to_nat (rc_size (colat rm0 (2 + x)))) 0 aexp bexp (rc_size (colat rm0 (2 + y)))
    (bytes_of (rc_data (colat rm0 0))) (bytes_of (rc_data (colat rm0 1))) (bytes_of (pvec rm_xy n pc)) (bytes_of (qvec rm_xy n pc))
    (bytes_of dx) (bytes_of dy) = Ok (xd, yd) /\ Forall is_byte xd /\ Forall is_byte yd.
Proof.
  clear HP HQ. intros Ha Hb. destruct (good_data x ltac:(lia)) as (_ & Sx & Bx). destruct (good_data y Hyn) as (_ & Sy & By).
  assert (length (bytes_of (pvec rm_xy n pc)) = (8 * pc)%nat /\ length (bytes_of (qvec rm_xy n pc)) = (8 * pc)%nat) as [L3 L4].
  { unfold pvec, qvec. by rewrite !bytes_of_len, !length_map, !length_seq. }
  destruct (gp_p _ _ _ _ G 0%nat ltac:(lia)) as [_ Lp0]. destruct (gp_p _ _ _ _ G 1%nat ltac:(lia)) as [_ Lq0].
  destruct (rec_pq_loop_spec (bytes_of (rc_data (colat rm0 0))) (bytes_of (rc_data (colat rm0 1))) (bytes_of (pvec rm_xy n pc)) (bytes_of (qvec rm_xy n pc))
    aexp bexp (rc_size (colat rm0 (2 + y))) (bytes_of_range _) (bytes_of_range _) (bytes_of_range _) (bytes_of_range _) ltac:(lia) ltac:(lia)
    (Z.to_nat (rc_size (colat rm0 (2 + x)))) 0 (bytes_of dx) (bytes_of dy)) as (xd & yd & E & Lx & Ly & Kx & Ky);
    rewrite ?L3, ?L4, ?bytes_of_len; try lia.
  assert (forall k, is_byte (xval (bytes_of (rc_data (colat rm0 0))) (bytes_of (rc_data (colat rm0 1)))
    (bytes_of (pvec rm_xy n pc)) (bytes_of (qvec rm_xy n pc)) aexp bexp k)) as Hxv.
  { intros k. unfold xval. apply lxor_byte; apply xp_range, lxor_byte; apply wd_byte, bytes_of_range. }
  exists xd, yd. split; [exact E|]. split; apply all_bytes; intros k.
  - rewrite Kx. destruct (decide _); [apply Hxv|apply wd_byte, bytes_of_range].
  - rewrite Ky. destruct (decide _); [|apply wd_byte, bytes_of_range]. apply lxor_byte; [|apply Hxv].
    apply lxor_byte; apply wd_byte, bytes_of_range.
Qed.

(** Setting the parity aside, and putting everything back. *)
Lemma pq_aside_spec : pq_aside newp newq rm2 (Z.of_nat (2 + x)) (Z.of_nat (2 + y)) = Ok rm_xy.
Proof.
  unfold pq_aside. change VDEV_RAIDZ_P with (Z.of_nat 0). change VDEV_RAIDZ_Q with (Z.of_nat 1).
  rewrite (set_data_at rm2 0) by (rewrite rm2_len; lia). run.
  rewrite (set_data_at _ 1) by (rewrite ?put_len, rm2_len; lia). run.
  rewrite (set_size_at _ (2 + x)) by (rewrite ?put_len, rm2_len; lia). run.
  rewrite (set_size_at _ (2 + y)) by (rewrite ?resize_len, ?put_len, rm2_len; lia). reflexivity.
Qed.

(** The map once parity is generated and the sizes are back. *)
Definition rm_gen : raidz_map :=
  resize (resize (put (put rm_xy 0 (pvec rm_xy n pc)) 1 (qvec rm_xy n pc)) (2 + x) (rc_size (colat rm0 (2 + x)))) (2 + y) (rc_size (colat rm0 (2 + y))).

Lemma pq_sizes_spec :
  pq_sizes (put (put rm_xy 0 (pvec rm_xy n pc)) 1 (qvec rm_xy n pc)) (Z.of_nat (2 + x)) (Z.of_nat (2 + y))
    (rc_size (colat rm0 (2 + x))) (rc_size (colat rm0 (2 + y))) = Ok rm_gen.
Proof.
  unfold pq_sizes. rewrite (set_size_at _ (2 + x)) by (rewrite !put_len, rm_xy_len; lia). run.
  rewrite (set_size_at _ (2 + y)) by (rewrite resize_len, !put_len, rm_xy_len; lia). reflexivity.
Qed.

Lemma rm_gen_len : length (rm_col rm_gen) = (2 + n)%nat.
Proof. unfold rm_gen. by rewrite !resize_len, !put_len, rm_xy_len. Qed.

Lemma rm_gen_fields : set_cols rm_gen [] = set_cols rm0 [].
Proof.
  unfold rm_gen. rewrite !resize_fields, !put_fields. unfold rm_xy. rewrite !resize_fields, !put_fields. unfold rm2. by rewrite !put_fields.
Qed.

Ltac at_gen :=
  unfold rm_gen; rewrite ?colat_resize, ?colat_put by (rewrite ?resize_len, ?put_len, rm_xy_len; lia);
  repeat destruct (decide _); try lia.

Lemma rm_gen_0 : colat rm_gen 0 = with_data (colat rm0 0) (pvec rm_xy n pc).
Proof. at_gen. by rewrite rm_xy_0. Qed.
Lemma rm_gen_1 : colat rm_gen 1 = with_data (colat rm0 1) (qvec rm_xy n pc).
Proof. at_gen. by rewrite rm_xy_1. Qed.
Lemma rm_gen_x : colat rm_gen (2 + x) = with_data (colat rm0 (2 + x)) dx.
Proof. at_gen. by rewrite rm_xy_x. Qed.
Lemma rm_gen_y : colat rm_gen (2 + y) = with_data (colat rm0 (2 + y)) dy.
Proof. at_gen. by rewrite rm_xy_y. Qed.
Lemma rm_gen_other c : (1 < c)%nat -> c <> (2 + x)%nat -> c <> (2 + y)%nat -> colat rm_gen c = colat rm0 c.
Proof. intros. at_gen. by apply rm_xy_other. Qed.

Lemma with_data_data rc d : with_data (with_data rc d) (rc_data rc) = rc.
Proof. by destruct rc. Qed.

Lemma pq_back_spec xd yd :
  pq_back rm_gen (Z.of_nat (2 + x)) (Z.of_nat (2 + y)) xd yd (rc_data (colat rm0 0)) (rc_data (colat rm0 1)) =
    Ok (put (put rm0 (2 + x) xd) (2 + y) yd).
Proof.
  rewrite pq_back_at by (rewrite rm_gen_len; lia). apply f_equal.
  pose proof rm_gen_0 as A0. pose proof rm_gen_1 as A1. pose proof rm_gen_x as Ax. pose proof rm_gen_y as Ay. pose proof rm_gen_other as Ao.
  pose proof rm_gen_len as Al. pose proof rm_gen_fields as Af. generalize dependent rm_gen. intros r A0 A1 Ax Ay Ao Al Af.
  apply rmap_ext; [by rewrite !put_fields, Af|by rewrite !put_len, Al, Hc|]. intros c _.
  rewrite !colat_put by (rewrite ?put_len, ?Al, ?Hc; lia).
  destruct (decide (c = 1%nat)) as [->|]; [repeat (destruct (decide _); [lia|]); rewrite A1; apply with_data_data|].
  destruct (decide (c = 0%nat)) as [->|]; [repeat (destruct (decide _); [lia|]); rewrite A0; apply with_data_data|].
  destruct (decide (c = (2 + y)%nat)) as [->|]; [destruct (decide _); [lia|]; by rewrite Ay|].
  destruct (decide (c = (2 + x)%nat)) as [->|]; [by rewrite Ax|]. apply Ao; lia.
Qed.

Lemma rm2_cols :
  get_col rm2 (Z.of_nat (2 + x)) = Ok (with_data (colat rm0 (2 + x)) dx) /\
  get_col rm2 (Z.of_nat (2 + y)) = Ok (with_data (colat rm0 (2 + y)) dy) /\
  get_col rm2 (Z.of_nat 0) = Ok (colat rm0 0) /\ get_col rm2 (Z.of_nat 1) = Ok (colat rm0 1).
Proof.
  rewrite !get_col_at by (rewrite rm2_len; lia). rewrite !rm2_at.
  split_and!; repeat (destruct (decide (_ = _)); try lia); done.
Qed.

(** The routine runs, whatever the parity columns hold, and rewrites the two columns. *)
Lemma reconstruct_pq_run :
  exists aexp bexp xd yd, 0 <= aexp <= 254 /\ 0 <= bexp <= 254 /\
    (forall v, is_byte v -> Z.lxor (xp (Z.to_nat aexp) v) (xp (Z.to_nat bexp + (n - 1 - x)) v) = v) /\
    (forall v, is_byte v -> xp (Z.to_nat aexp) v = xp (Z.to_nat bexp + (n - 1 - y)) v) /\
    rec_pq_loop (Z.to_nat (rc_size (colat rm0 (2 + x)))) 0 aexp bexp (rc_size (colat rm0 (2 + y)))
      (bytes_of (rc_data (colat rm0 0))) (bytes_of (rc_data (colat rm0 1))) (bytes_of (pvec rm_xy n pc)) (bytes_of (qvec rm_xy n pc))
      (bytes_of dx) (bytes_of dy) = Ok (xd, yd) /\
    Forall is_byte xd /\ Forall is_byte yd /\
    vdev_raidz_reconstruct_pq newp newq rm2 (Z.of_nat (2 + x)) (Z.of_nat (2 + y)) =
      Ok (put (put rm0 (2 + x) (words_of (length dx) xd)) (2 + y) (words_of (length dy) yd)).
Proof.
  clear HP HQ. destruct (rec_pq_exps_spec n x y Hxy Hyn Hn) as (aexp & bexp & Eexp & Ha & Hb & Hone & Hzero).
  destruct (rec_pq_bytes_run aexp bexp Ha Hb) as (xd & yd & Eloop & Bx & By).
  exists aexp, bexp, xd, yd. split_and!; [lia..|done|done|done|done|done|].
  destruct rm2_cols as (C1 & C2 & C3 & C4).
  assert (rm_cols rm2 = Z.of_nat (2 + n)) as Ec by (unfold rm_cols; by rewrite rm2_len).
  assert (rm_firstdatacol rm2 = 2) as Ef by (apply (gp_first _ _ _ _ G)).
  assert (get_col rm_gen (Z.of_nat 0) = Ok (colat rm_gen 0)) as D0 by (apply get_col_at; rewrite rm_gen_len; lia).
  assert (get_col rm_gen (Z.of_nat 1) = Ok (colat rm_gen 1)) as D1 by (apply get_col_at; rewrite rm_gen_len; lia).
  rewrite rm_gen_0 in D0. rewrite rm_gen_1 in D1.
  etransitivity; [|apply pq_back_spec].
  apply (reconstruct_pq_steps newp newq rm2 rm_xy _ rm_gen (Z.of_nat (2 + x)) (Z.of_nat (2 + y))
    (with_data (colat rm0 (2 + x)) dx) (with_data (colat rm0 (2 + y)) dy) (colat rm0 0) (colat rm0 1) _ _ aexp bexp xd yd
    ltac:(lia) ltac:(rewrite Ef; lia) ltac:(rewrite Ec; lia) Hord C1 C2 C3 C4 pq_aside_spec
    (generate_pq_spec rm_xy n pc rm_xy_pre rm_xy_first) pq_sizes_spec D0 D1).
  - rewrite Ec. exact Eexp.
  - exact Eloop.
Qed.

Lemma reconstruct_pq_spec :
  vdev_raidz_reconstruct_pq newp newq rm2 (Z.of_nat (2 + x)) (Z.of_nat (2 + y)) = Ok rm0.
Proof.
  destruct reconstruct_pq_run as (aexp & bexp & xd & yd & Ha & Hb & Hone & Hzero & E & _ & _ & ->).
  rewrite HP, HQ, (rec_pq_bytes aexp bexp Ha Hb Hone Hzero) in E. injection E as <- <-.
  rewrite Ldx, Ldy, !words_bytes by (apply good_data; lia). f_equal.
  apply (put_id_2 rm0 (2 + x) (2 + y)); lia.
Qed.
End Two.

(** ** Generated parity *)

(** *** Q by polynomials

    The sum over the columns of byte [j] of their word times x^(n-1-c). *)
Definition weighted_bytes (d : nat -> Z) (n j : nat) : Z := xs (fun c => Z.shiftl (byte (d c) j) (Z.of_nat (n - 1 - c))) n.

Lemma xs_shiftl d n k : Z.shiftl (xs d n) k = xs (fun c => Z.shiftl (d c) k) n.
Proof. induction n as [|n IH]; cbn; [apply Z.shiftl_0_l|]. by rewrite Z.shiftl_lxor, IH. Qed.

Lemma weighted_bytes_S d n j : weighted_bytes d (S n) j = Z.lxor (Z.shiftl (weighted_bytes d n j) 1) (byte (d n) j).
Proof.
  unfold weighted_bytes. rewrite xs_shiftl. cbn [xs]. replace (S n - 1 - n)%nat with 0%nat by lia. rewrite Z.shiftl_0_r. f_equal.
  apply xs_ext. intros c Hc. rewrite Z.shiftl_shiftl by lia. f_equal. lia.
Qed.

Lemma hs_remainder d n j : (forall c, is_u64 (d c)) -> (j < 8)%nat -> is_remainder (weighted_bytes d n j) (byte (hs d n) j).
Proof.
  intros Hu Hj. induction n as [|n IH].
  - cbn. change (byte 0 j) with (u8 (Z.shiftr 0 (8 * Z.of_nat j))). rewrite Z.shiftr_0_l. by apply remainder_byte.
  - rewrite weighted_bytes_S. cbn [hs]. rewrite byte_lxor, byte_mul2_word by (done || by apply hs_u64).
    apply remainder_lxor; [by apply remainder_mul2|apply remainder_byte, byte_range].
Qed.

Lemma dat_put_parity rm f n pc c d i k : gen_pre rm f n pc -> (c < f)%nat -> dat (put rm c d) i k = dat rm i k.
Proof.
  intros G Hc. unfold dat. cbn [rm_firstdatacol put set_cols]. rewrite (gp_first _ _ _ _ G), Nat2Z.id.
  pose proof (gp_cols _ _ _ _ G). rewrite colat_put by lia. by destruct (decide _); [lia|].
Qed.

(** New parity of the right length leaves the map in order. *)
Lemma rz_put_parity rm f n pc c d :
  rz_ok rm f n pc -> (c < f)%nat -> length d = pc -> rz_ok (put rm c d) f n pc.
Proof.
  intros R Hc Hd. pose proof (rz_gen _ _ _ _ R) as G. pose proof (gp_cols _ _ _ _ G) as Hl.
  assert (forall k, colat (put rm c d) (f + k) = colat rm (f + k)) as Hk.
  { intros k. rewrite colat_put by lia. by destruct (decide _); [lia|]. }
  split; [split; try apply G|..].
  - by rewrite put_len.
  - intros k Hf. rewrite colat_put by lia. destruct (decide _) as [->|]; [|by apply G]. split; [by apply (gp_p _ _ _ _ G)|done].
  - intros k Hn. rewrite Hk. by apply G.
  - intros k Hn. rewrite Hk. by apply G.
  - specialize (Hk 0%nat). rewrite Nat.add_0_r in Hk. rewrite Hk. apply R.
  - intros k Hn. rewrite Hk. by apply R.
Qed.

Lemma pvec_len rm n pc : length (pvec rm n pc) = pc.
Proof. unfold pvec. by rewrite length_map, length_seq. Qed.
Lemma qvec_len rm n pc : length (qvec rm n pc) = pc.
Proof. unfold qvec. by rewrite length_map, length_seq. Qed.

(** Parity that is the sum is the sum of every word of a column. *)
Lemma col_le_parity rm f n pc x : rz_ok rm f n pc -> (x < n)%nat -> (length (rc_data (colat rm (f + x))) <= pc)%nat.
Proof.
  intros R Hx. pose proof (gp_data _ _ _ _ (rz_gen _ _ _ _ R) x Hx) as [H _]. rewrite (rz_count _ _ _ _ _ R Hx) in H. lia.
Qed.
Lemma pvec_words rm f n pc x :
  rz_ok rm f n pc -> (x < n)%nat -> rc_data (colat rm 0) = pvec rm n pc ->
  forall i, (i < length (rc_data (colat rm (f + x))))%nat -> wd (rc_data (colat rm 0)) i = xs (dat rm i) n.
Proof.
  intros R Hx -> i Hi. pose proof (col_le_parity _ _ _ _ _ R Hx). unfold pvec. rewrite wd_map. destruct (decide _); [done|lia].
Qed.
Lemma qvec_words rm n pc x :
  rz_ok rm 2 n pc -> (x < n)%nat -> rc_data (colat rm 1) = qvec rm n pc ->
  forall i, (i < length (rc_data (colat rm (2 + x))))%nat -> wd (rc_data (colat rm 1)) i = hs (dat rm i) n.
Proof.
  intros R Hx -> i Hi. pose proof (col_le_parity _ _ _ _ _ R Hx). unfold qvec. rewrite wd_map. destruct (decide _); [done|lia].
Qed.

(** What generating parity gives: the sums are those of the result itself. *)
Lemma generated_p rm rm0 f n pc :
  rz_ok rm f n pc -> vdev_raidz_generate_parity_p rm = Ok rm0 ->
  rz_ok rm0 f n pc /\ rc_data (colat rm0 0) = pvec rm0 n pc.
Proof.
  intros R E. pose proof (rz_gen _ _ _ _ R) as G. rewrite (generate_p_spec rm f n pc G (rz_first _ _ _ _ R)) in E. injection E as <-.
  pose proof (gp_cols _ _ _ _ G). pose proof (gp_f _ _ _ _ G). split; [apply rz_put_parity; auto using pvec_len|].
  rewrite colat_put by lia. destruct (decide _); [|done]. cbn [rc_data with_data]. unfold pvec. apply map_ext_in. intros i _.
  apply xs_ext. intros c Hc. symmetry. by apply (dat_put_parity rm f n pc).
Qed.

Lemma generated_pq rm rm0 n pc :
  rz_ok rm 2 n pc -> vdev_raidz_generate_parity_pq rm = Ok rm0 ->
  rz_ok rm0 2 n pc /\ rc_data (colat rm0 0) = pvec rm0 n pc /\ rc_data (colat rm0 1) = qvec rm0 n pc /\
  forall i c, dat rm0 i c = dat rm i c.
Proof.
  intros R E. pose proof (rz_gen _ _ _ _ R) as G. rewrite (generate_pq_spec rm n pc G (or_introl (rz_first _ _ _ _ R))) in E. injection E as <-.
  pose proof (gp_cols _ _ _ _ G).
  assert (rz_ok (put rm 0 (pvec rm n pc)) 2 n pc) as R1 by (apply rz_put_parity; auto using pvec_len; lia).
  assert (forall i c, dat (put (put rm 0 (pvec rm n pc)) 1 (qvec rm n pc)) i c = dat rm i c) as Hd.
  { intros i c. rewrite (dat_put_parity _ 2 n pc) by (apply R1 || lia). apply (dat_put_parity rm 2 n pc); [done|lia]. }
  split_and!; [apply rz_put_parity; auto using qvec_len; lia|..|done].
  - rewrite !colat_put by (rewrite ?put_len; lia). repeat destruct (decide _); try lia. cbn [rc_data with_data]. unfold pvec.
    apply map_ext_in. intros i _. apply xs_ext. intros c Hc. by rewrite Hd.
  - rewrite !colat_put by (rewrite ?put_len; lia). repeat destruct (decide _); try lia. cbn [rc_data with_data]. unfold qvec.
    apply map_ext_in. intros i _. apply hs_ext. intros c Hc. by rewrite Hd.
Qed.

(** ** Reconstruction from any parity

    Whatever the parity columns hold, reconstruction returns and rewrites only the
    columns it is asked for, with words. *)

Lemma all_u64 l : (forall k, (k < length l)%nat -> is_u64 (wd l k)) -> Forall is_u64 l.
Proof.
  intros H. apply List.Forall_forall. intros b Hb. destruct (In_nth l b 0 Hb) as (k & Hk & <-). by apply H.
Qed.

(** A column set to [g] of every word, so that it is damaged by what it held. *)
Lemma damaged_by rm f n pc x (g : nat -> Z) :
  rz_ok rm f n pc -> (x < n)%nat -> (forall i, is_u64 (g i)) ->
  let d := map g (seq 0 (length (rc_data (colat rm (f + x))))) in
  damaged (put rm (f + x) d) rm f n pc x /\ Forall is_u64 d /\ length d = length (rc_data (colat rm (f + x))) /\
  (forall i, (i < length d)%nat -> dat (put rm (f + x) d) i x = g i) /\ length (rc_data (colat (put rm (f + x) d) (f + x))) = length d.
Proof.
  intros R Hx Hg d. pose proof (rz_gen _ _ _ _ R) as G. pose proof (gp_cols _ _ _ _ G) as Hc.
  assert (length d = length (rc_data (colat rm (f + x)))) as Hd by (unfold d; by rewrite length_map, length_seq).
  assert (Forall is_u64 d) as Hu by (apply List.Forall_map, List.Forall_forall; intros; apply Hg).
  assert (rz_ok (put rm (f + x) d) f n pc) as R' by (by apply rz_put).
  assert (rc_data (colat (put rm (f + x) d) (f + x)) = d) as Ed by (rewrite colat_put by lia; by destruct (decide _)).
  split_and!; [|done|done| |by rewrite Ed].
  - split; [done|done|]. exists (rc_data (colat rm (f + x))). rewrite put_put, put_id, Ed by lia. split_and!; [done|done|].
    by apply (gp_u64 _ _ _ _ G).
  - intros i Hi. rewrite <- (good_words _ f n pc x i R' Hx) by (by rewrite Ed). rewrite Ed. unfold d. rewrite wd_map.
    destruct (decide _); [done|lia].
Qed.

Lemma dat_off_put rm f n pc x d i c :
  gen_pre rm f n pc -> (x < n)%nat -> off (dat (put rm (f + x) d) i) x c = off (dat rm i) x c.
Proof. intros G Hx. unfold off. destruct (decide (c = x)); [done|]. by apply (dat_put rm f n pc). Qed.

Lemma reconstruct_p_total rm f n pc x :
  rz_ok rm f n pc -> (x < n)%nat -> (0 < length (rc_data (colat rm (f + x))))%nat -> Forall is_u64 (rc_data (colat rm 0)) ->
  exists d, vdev_raidz_reconstruct_p rm (Z.of_nat (f + x)) = Ok (put rm (f + x) d) /\
    length d = length (rc_data (colat rm (f + x))) /\ Forall is_u64 d.
Proof.
  intros R Hx Hpos HP. pose proof (rz_gen _ _ _ _ R) as G. pose proof (gp_cols _ _ _ _ G). pose proof (gp_f _ _ _ _ G).
  set (g := fun i => Z.lxor (wd (rc_data (colat rm 0)) i) (xs (off (dat rm i) x) n)).
  assert (forall i, is_u64 (g i)) as Hg.
  { intros i. apply lxor_u64; [by apply wd_u64|]. destruct (dat_all_u64 rm f n pc i G) as (d & Hu & Hd).
    rewrite (xs_ext _ (off d x)); [by apply xs_u64, off_u64|]. intros c Hc. unfold off. destruct (decide _); [done|by apply Hd]. }
  destruct (damaged_by rm f n pc x g R Hx Hg) as (D & Hu & Hl & Hw & Hl').
  set (d := map g _) in *. exists d. split_and!; [|done|done].
  apply (reconstruct_p_spec _ rm f n pc x D); [|lia]. intros i Hi. rewrite colat_put_ne by lia.
  rewrite (xs_off _ x n Hx), Hw by lia. rewrite (xs_ext _ (off (dat rm i) x)) by (intros; by apply (dat_off_put rm f n pc)).
  unfold g. rewrite Z.lxor_comm, Z.lxor_assoc, Z.lxor_nilpotent. by rewrite Z.lxor_0_r.
Qed.

Lemma reconstruct_q_total rm n pc x :
  rz_ok rm 2 n pc -> (x < n)%nat -> (n <= 255)%nat -> Forall is_u64 (rc_data (colat rm 1)) ->
  exists d, vdev_raidz_reconstruct_q rm (Z.of_nat (2 + x)) = Ok (put rm (2 + x) d) /\
    length d = length (rc_data (colat rm (2 + x))) /\ Forall is_u64 d.
Proof.
  intros R Hx Hn HQ. pose proof (rz_gen _ _ _ _ R) as G. pose proof (gp_cols _ _ _ _ G).
  set (h := fun i => Z.lxor (wd (rc_data (colat rm 1)) i) (hs (off (dat rm i) x) n)).
  assert (forall i, is_u64 (h i)) as Hh.
  { intros i. apply lxor_u64; [by apply wd_u64|]. by apply (hs_dat_off rm 2 n pc i x G Hx). }
  destruct (damaged_by rm 2 n pc x (fun i => wxp (255 - (n - 1 - x)) (h i)) R Hx ltac:(intros; by apply wxp_u64)) as (D & Hu & Hl & Hw & Hl').
  set (d := map _ _) in *. exists d. split_and!; [|done|done].
  apply (reconstruct_q_spec _ rm n pc x D); [|done]. intros i Hi. rewrite colat_put_ne by lia.
  destruct (hs_dat_off (put rm (2 + x) d) 2 n pc i x (rz_gen _ _ _ _ (dm_ok _ _ _ _ _ _ D)) Hx) as (-> & _ & _).
  rewrite Hw by lia. rewrite (hs_ext _ (off (dat rm i) x)) by (intros; by apply (dat_off_put rm 2 n pc)).
  rewrite <- wxp_add. replace (n - 1 - x + (255 - (n - 1 - x)))%nat with 255%nat by lia. rewrite wxp_255 by done.
  unfold h. rewrite Z.lxor_comm, Z.lxor_assoc, Z.lxor_nilpotent. by rewrite Z.lxor_0_r.
Qed.

Lemma le_combine_u64 l : Forall is_byte l -> (length l <= 8)%nat -> is_u64 (le_combine l).
Proof.
  intros Hb Hl. pose proof (load_range false l Hb) as H. unfold load in H.
  pose proof (Z.pow_le_mono_r 256 (zlen l) 8 ltac:(lia) ltac:(lia)) as Hp. change (256 ^ 8) with (2 ^ 64) in Hp. unfold is_u64. lia.
Qed.

Lemma words_of_u64 k bs : Forall is_byte bs -> Forall is_u64 (words_of k bs) /\ length (words_of k bs) = k.
Proof.
  revert bs. induction k as [|k IH]; intros bs Hb; [done|]. cbn [words_of length].
  destruct (IH (drop 8 bs) ltac:(by apply Forall_drop)) as [H1 H2]. split; [|by rewrite H2].
  apply List.Forall_cons; [|done]. apply le_combine_u64; [by apply Forall_take|rewrite length_take; lia].
Qed.

Lemma reconstruct_pq_total rm n pc x y newp newq :
  rz_ok rm 2 n pc -> (x < y)%nat -> (y < n)%nat -> (n <= 255)%nat -> length newp = pc -> length newq = pc ->
  rc_size (colat rm (2 + y)) <= rc_size (colat rm (2 + x)) ->
  exists dx dy, vdev_raidz_reconstruct_pq newp newq rm (Z.of_nat (2 + x)) (Z.of_nat (2 + y)) = Ok (put (put rm (2 + x) dx) (2 + y) dy) /\
    length dx = length (rc_data (colat rm (2 + x))) /\ length dy = length (rc_data (colat rm (2 + y))) /\ Forall is_u64 dx /\ Forall is_u64 dy.
Proof.
  intros R Hxy Hy Hn Lp Lq Hord. pose proof (rz_gen _ _ _ _ R) as G. pose proof (gp_cols _ _ _ _ G).
  set (dx := rc_data (colat rm (2 + x))). set (dy := rc_data (colat rm (2 + y))).
  destruct (reconstruct_pq_run rm n pc x y dx dy newp newq R Hxy Hy Hn eq_refl eq_refl
    ltac:(apply (gp_u64 _ _ _ _ G); lia) ltac:(by apply (gp_u64 _ _ _ _ G)) Hord Lp Lq)
    as (aexp & bexp & xd & yd & _ & _ & _ & _ & _ & Bx & By & E).
  assert (rm2 rm x y dx dy = rm) as Erm.
  { apply put_id_2; lia. }
  rewrite Erm in E. destruct (words_of_u64 (length dx) xd Bx). destruct (words_of_u64 (length dy) yd By).
  by exists (words_of (length dx) xd), (words_of (length dy) yd).
Qed.

(** ** Properties *)

(** C23: [vdev_raidz_generate_parity_pq] returns on every map whose columns fit their
    sizes, whatever was in the parity buffers, and changes only those: every word of
    P is the sum (exclusive or) of the data columns' words, and every byte of every
    word of Q is the sum of the data columns' bytes with column [c] of [n] multiplied
    by x^(n-1-c) in GF(2^8), the polynomials over GF(2) modulo
    x^8 + x^4 + x^3 + x^2 + 1: it is the remainder of that sum, of which there is one.
    Columns shorter than the parity count as zeros beyond their end. *)
Theorem raidz_parity_pq_correct (rm : raidz_map) (n pc : nat) :
  rz_ok rm 2 n pc ->
  exists p q, vdev_raidz_generate_parity_pq rm = Ok (put (put rm 0 p) 1 q) /\ length p = pc /\ length q = pc /\
    Forall is_u64 p /\ Forall is_u64 q /\
    forall i, (i < pc)%nat -> wd p i = xs (dat rm i) n /\
      forall j, (j < 8)%nat -> forall r,
        r = byte (wd q i) j <-> is_remainder (xs (fun c => Z.shiftl (byte (dat rm i c) j) (Z.of_nat (n - 1 - c))) n) r.
Proof.
  intros R. pose proof (rz_gen _ _ _ _ R) as G. exists (pvec rm n pc), (qvec rm n pc). assert (forall i, exists d, (forall c, is_u64 (d c)) /\
    (forall c, (c < n)%nat -> dat rm i c = d c) /\ xs (dat rm i) n = xs d n /\ hs (dat rm i) n = hs d n) as Hd.
  { intros i. destruct (dat_all_u64 rm 2 n pc i G) as (d & Hu & Hd). exists d. split_and!; [done|done|by apply xs_ext|by apply hs_ext]. }
  split_and!; [apply (generate_pq_spec rm n pc G); left; apply R|apply pvec_len|apply qvec_len|..].
  - apply List.Forall_map, List.Forall_forall. intros i _. destruct (Hd i) as (d & Hu & _ & -> & _). by apply xs_u64.
  - apply List.Forall_map, List.Forall_forall. intros i _. destruct (Hd i) as (d & Hu & _ & _ & ->). by apply hs_u64.
  - intros i Hi. unfold pvec, qvec. rewrite !wd_map. destruct (decide _); [|lia]. split; [done|]. intros j Hj r.
    destruct (Hd i) as (d & Hu & He & _ & ->). rewrite (xs_ext _ (fun c => Z.shiftl (byte (d c) j) (Z.of_nat (n - 1 - c)))).
    + split; [intros ->; by apply hs_remainder|]. intros Hr. eapply remainder_unique; [exact Hr|by apply hs_remainder].
    + intros c Hc. by rewrite He.
Qed.

(** C24: one lost data column of a RAID-Z block is recovered exactly: whatever a
    column of a map with generated parity is overwritten with, reconstruction from P
    gives the whole map back, with single and with double parity, and so does
    reconstruction from Q. *)
Theorem raidz_reconstruct_one (rm rm0 rm1 : raidz_map) (f n pc x : nat) :
  rz_ok rm f n pc -> (n <= 255)%nat ->
  (f = 1%nat /\ vdev_raidz_generate_parity_p rm = Ok rm0 \/ f = 2%nat /\ vdev_raidz_generate_parity_pq rm = Ok rm0) ->
  damaged rm0 rm1 f n pc x ->
  ((0 < length (rc_data (colat rm0 (f + x))))%nat -> vdev_raidz_reconstruct_p rm1 (Z.of_nat (f + x)) = Ok rm0) /\
  (f = 2%nat -> vdev_raidz_reconstruct_q rm1 (Z.of_nat (f + x)) = Ok rm0).
Proof.
  intros R Hn Hgen D. pose proof (dm_ok _ _ _ _ _ _ D). pose proof (dm_x _ _ _ _ _ _ D). split.
  - intros Hpos. destruct Hgen as [[-> E]|[-> E]].
    + destruct (generated_p rm rm0 1 n pc R E) as [_ HP]. apply (reconstruct_p_spec rm0 rm1 1 n pc); [done|by apply (pvec_words rm0 1 n pc x)|done].
    + destruct (generated_pq rm rm0 n pc R E) as (_ & HP & _). apply (reconstruct_p_spec rm0 rm1 2 n pc); [done|by apply (pvec_words rm0 2 n pc x)|done].
  - intros ->. destruct Hgen as [[? _]|[_ E]]; [done|].
    destruct (generated_pq rm rm0 n pc R E) as (_ & _ & HQ & _). apply (reconstruct_q_spec rm0 rm1 n pc); [done|by apply (qvec_words rm0 n pc x)|done].
Qed.

(** C25: any two lost data columns of a double-parity block are recovered exactly,
    for up to 255 data columns and columns of different lengths: reconstruction from
    P and Q gives the whole map back, whatever the two columns and the scratch parity
    buffers held. *)
Theorem raidz_reconstruct_two (rm rm0 : raidz_map) (n pc x y : nat) (dx dy newp newq : list Z) :
  rz_ok rm 2 n pc -> vdev_raidz_generate_parity_pq rm = Ok rm0 ->
  (x < y)%nat -> (y < n)%nat -> (n <= 255)%nat ->
  rc_size (colat rm0 (2 + y)) <= rc_size (colat rm0 (2 + x)) ->
  length dx = length (rc_data (colat rm0 (2 + x))) -> length dy = length (rc_data (colat rm0 (2 + y))) ->
  Forall is_u64 dx -> Forall is_u64 dy -> length newp = pc -> length newq = pc ->
  vdev_raidz_reconstruct_pq newp newq (put (put rm0 (2 + x) dx) (2 + y) dy) (Z.of_nat (2 + x)) (Z.of_nat (2 + y)) = Ok rm0.
Proof.
  intros R E Hxy Hyn Hn Hord Ldx Ldy Udx Udy Lp Lq. destruct (generated_pq rm rm0 n pc R E) as (R0 & HP & HQ & _).
  by apply (reconstruct_pq_spec rm0 n pc x y dx dy newp newq).
Qed.

(** ** Witnesses: two parity and three data columns, the last one shorter *)

Definition wcol (dev : Z) (data : list Z) : raidz_col := RCol dev 0 (8 * zlen data) data 0 false false.
Definition wmap : raidz_map :=
  RMap 4 128 0 0 2 [wcol 0 [5; 5]; wcol 1 [6; 6]; wcol 2 [258; 3]; wcol 3 [2 ^ 63; 77]; wcol 4 [2 ^ 64 - 1]].
Definition wgen : raidz_map :=
  match vdev_raidz_generate_parity_pq wmap with Ok rm => rm | Err _ => wmap end.

(** The first three columns, one by one. *)
Lemma below_3 (Q : nat -> Prop) : Q 0%nat -> Q 1%nat -> Q 2%nat -> forall c, (c < 3)%nat -> Q c.
Proof. intros ? ? ? [|[|[|c]]] Hc; [done|done|done|lia]. Qed.

Lemma wmap_gen : gen_pre wmap 2 3 2.
Proof.
  split; [reflexivity|reflexivity|lia|lia| | |].
  - intros [|[|c]] Hc; [split; reflexivity|split; reflexivity|lia].
  - apply below_3; vm_compute; intuition congruence.
  - apply below_3; repeat (apply List.Forall_cons || apply List.Forall_nil); vm_compute; intuition congruence.
Qed.

Lemma wmap_ok : rz_ok wmap 2 3 2.
Proof. split; [exact wmap_gen|reflexivity|]. apply below_3; reflexivity. Qed.

Lemma wgen_ok : rz_ok wgen 2 3 2.
Proof. apply (generated_pq wmap wgen 3 2 wmap_ok). vm_compute. reflexivity. Qed.

(** The byte 1 of the first word of Q is 1 * x^2 + 0 * x + 255. *)
Lemma raidz_parity_pq_correct_witness :
  exists p q, vdev_raidz_generate_parity_pq wmap = Ok (put (put wmap 0 p) 1 q) /\ byte (wd q 0) 1 = Z.lxor 4 255.
Proof.
  destruct (raidz_parity_pq_correct wmap 3 2 wmap_ok) as (p & q & E & _ & _ & _ & _ & H).
  exists p, q. split; [exact E|]. symmetry. destruct (H 0%nat) as [_ HQ]; [lia|]. apply (HQ 1%nat); [lia|].
  split; [vm_compute; intuition congruence|]. exists 0. split; [lia|]. vm_compute. reflexivity.
Defined.

Lemma raidz_reconstruct_one_witness :
  wgen <> put wgen 3 [0; 0] /\
  vdev_raidz_reconstruct_p (put wgen 3 [0; 0]) 3 = Ok wgen /\ vdev_raidz_reconstruct_q (put wgen 3 [0; 0]) 3 = Ok wgen.
Proof.
  split; [vm_compute; congruence|].
  destruct (raidz_reconstruct_one wmap wgen (put wgen 3 [0; 0]) 2 3 2 1) as [HP HQ].
  - exact wmap_ok.
  - lia.
  - right. split; [done|]. vm_compute; reflexivity.
  - split; [exact wgen_ok|lia|]. exists [0; 0]. split; [done|]. split; [vm_compute; reflexivity|].
    repeat (apply List.Forall_cons || apply List.Forall_nil); vm_compute; intuition congruence.
  - split; [apply HP; vm_compute; lia|by apply HQ].
Defined.

Lemma raidz_reconstruct_two_witness :
  vdev_raidz_reconstruct_pq [0; 0] [0; 0] (put (put wgen 2 [0; 0]) 4 [0]) 2 4 = Ok wgen.
Proof.
  apply (raidz_reconstruct_two wmap wgen 3 2 0 2 [0; 0] [0] [0; 0] [0; 0]);
    [exact wmap_ok|vm_compute; reflexivity|lia|lia|lia|vm_compute; congruence|vm_compute; reflexivity|vm_compute; reflexivity| | |done|done];
    repeat (apply List.Forall_cons || apply List.Forall_nil); vm_compute; intuition congruence.
Defined.

End Raidz.
