(* ===== verification/RaidzMap.v ===== *)
(** * RAID-Z layout: [vdev_raidz_map_alloc] and [vdev_raidz_asize] of fs/zfs/vdev_raidz.c

    How a block is cut into columns, where on the children the columns go, and how
    much space that takes.  [uint64_t] arithmetic wraps where it can.  The data
    columns are pointers into the one buffer of the zio; a column of the model holds
    its stretch of that buffer, and [io_buffer] puts the stretches together. *)

From Stdlib Require Import List.
From stdpp Require Import base option numbers list.
From S2P Require Import Prelude Gf256 Raidz.
Import Raidz.
Local Open Scope Z_scope.

Module RaidzMap.

(** The fields of [zio_t] the RAID-Z code reads and writes; [io_data] in words. *)
Record zio := Zio {
  io_offset : Z;
  io_size : Z;
  io_data : list Z;
  io_write : bool;
  io_flags : Z;
  io_error : Z;
  io_numerrors : Z
}.

Definition roundup (x y : Z) : Z := u64 (u64 (x + (y - 1)) / y * y).

(** The loop that fills the columns in and adds up their sizes. *)
Fixpoint fill_cols (n : nat) (c unit_shift dcols f o q bc asize : Z) : list raidz_col * Z :=
  match n with
  | O => ([], asize)
  | S n' =>
      let col := u64 (f + c) in
      let '(col, coff) :=
        if dcols <=? col then (col - dcols, u64 (o + Z.shiftl 1 unit_shift)) else (col, o) in
      let size := u64 (Z.shiftl (q + (if c <? bc then 1 else 0)) unit_shift) in
      let '(cols, asize) := fill_cols n' (c + 1) unit_shift dcols f o q bc (u64 (asize + size)) in
      (RCol col coff size [] 0 false false :: cols, asize)
  end.

(** [rm->rm_col[c].rc_data = zio_buf_alloc(rm->rm_col[c].rc_size)] *)
Definition parity_buf (zio_buf_alloc : Z -> Z -> list Z) (c : Z) (rm : raidz_map) : outcome raidz_map :=
  rc ← get_col rm c;
  set_data rm c (zio_buf_alloc c (rc_size rc)).

(** A data column starts where the one before it ends. *)
Definition data_ptr (data : list Z) (c : Z) (st : raidz_map * Z) : outcome (raidz_map * Z) :=
  let '(rm, pos) := st in
  rc ← get_col rm c;
  rm ← set_data rm c (take (Z.to_nat (col_count rc)) (drop (Z.to_nat pos) data));
  Ok (rm, pos + col_count rc).

Definition at_dev (rc : raidz_col) (dev off : Z) : raidz_col :=
  RCol dev off (rc_size rc) (rc_data rc) (rc_error rc) (rc_tried rc) (rc_skipped rc).

(** Exchange the devices of the first two columns. *)
Definition switch_parity (rm : raidz_map) : outcome raidz_map :=
  rc0 ← get_col rm 0;
  rc1 ← get_col rm 1;
  let cols := <[0%nat := at_dev rc0 (rc_devidx rc1) (rc_offset rc1)]> (rm_col rm) in
  Ok (set_cols rm (<[1%nat := at_dev rc1 (rc_devidx rc0) (rc_offset rc0)]> cols)).

(** [zio_buf_alloc c size] is the buffer column [c] gets, with whatever is in it. *)
Definition vdev_raidz_map_alloc (zio_buf_alloc : Z -> Z -> list Z) (io : zio) (unit_shift dcols nparity : Z)
    : outcome raidz_map :=
  let b := Z.shiftr (io_offset io) unit_shift in
  let s := Z.shiftr (io_size io) unit_shift in
  let f := b mod dcols in
  let o := u64 (Z.shiftl (b / dcols) unit_shift) in
  let q := s / (dcols - nparity) in
  let r := s - q * (dcols - nparity) in
  let bc := if r =? 0 then 0 else r + nparity in
  let acols := if q =? 0 then bc else dcols in
  let '(cols, asize) := fill_cols (Z.to_nat acols) 0 unit_shift dcols f o q bc 0 in
  let asize := roundup asize (u64 (Z.shiftl (nparity + 1) unit_shift)) in
  let rm := RMap bc asize 0 0 nparity cols in
  rm ← for_cols (Z.to_nat nparity) 0 (parity_buf zio_buf_alloc) rm;
  '(rm, _) ← data_ptr (io_data io) nparity (rm, 0) ≫= for_cols (Z.to_nat (acols - (nparity + 1))) (nparity + 1) (data_ptr (io_data io));
  _ ← verify (2 <=? rm_cols rm);
  rc0 ← get_col rm 0;
  rc1 ← get_col rm 1;
  _ ← verify (rc_size rc0 =? rc_size rc1);
  if (rm_firstdatacol rm =? 1) && negb (Z.land (io_offset io) (Z.shiftl 1 20) =? 0)
  then switch_parity rm else Ok rm.

(** [vdev_raidz_asize] of a vdev with [cols] children and sectors of [2^ashift]. *)
Definition vdev_raidz_asize (ashift cols nparity psize : Z) : Z :=
  let asize := Z.shiftr (u64 (psize - 1)) ashift + 1 in
  let asize := u64 (asize + nparity * ((asize + cols - nparity - 1) / (cols - nparity))) in
  u64 (Z.shiftl (roundup asize (nparity + 1)) ashift).

(** What the data columns hold, as the one buffer they are stretches of. *)
Definition io_buffer (rm : raidz_map) : list Z :=
  concat (map rc_data (drop (Z.to_nat (rm_firstdatacol rm)) (rm_col rm))).

(** ** The layout in closed form *)

Lemma seq_map_shift a n : seq a n = map (fun j => (a + j)%nat) (seq 0 n).
Proof. rewrite <- (Nat.add_0_r a) at 1. symmetry. apply fmap_add_seq. Qed.

Lemma take_add_app_drop (l : list Z) n m : take (n + m) l = take n l ++ take m (drop n l).
Proof. rewrite take_drop_commute. rewrite <- (take_drop n (take (n + m) l)) at 1. by rewrite take_take, Nat.min_l by lia. Qed.

(** What the allocator and the rest of the pipeline guarantee of an I/O to a RAID-Z
    vdev with sectors of [2^sh] bytes, [d] children and [np] parity columns. *)
Record layout_ok (zio_buf_alloc : Z -> Z -> list Z) (io : zio) (sh d np : Z) : Prop := {
  lo_sh : 3 <= sh;
  lo_np : 0 < np < d;
  lo_d : d < 2 ^ 32;
  lo_off : 0 <= io_offset io;
  lo_size : 0 < io_size io;
  lo_off_al : io_offset io mod 2 ^ sh = 0;
  lo_size_al : io_size io mod 2 ^ sh = 0;
  lo_max : io_offset io + (np + 1) * (io_size io + 2 ^ sh) < 2 ^ 64;
  lo_len : io_size io = 8 * zlen (io_data io);
  lo_u64 : Forall is_u64 (io_data io);
  lo_alloc : forall c size, 0 <= size -> zlen (zio_buf_alloc c size) = size / 8
}.

(** A map given by its columns. *)
Definition cols_at (bc asize np : Z) (n : nat) (g : nat -> raidz_col) : raidz_map :=
  RMap bc asize 0 0 np (map g (seq 0 n)).

Section ColsAt.
Context (bc asize np : Z) (n : nat).
Notation at_ := (cols_at bc asize np n).

Lemma cols_at_len g : length (rm_col (at_ g)) = n.
Proof. cbn. by rewrite length_map, length_seq. Qed.

Lemma colat_cols_at g c : (c < n)%nat -> colat (at_ g) c = g c.
Proof.
  intros Hc. unfold colat. cbn. rewrite (nth_indep _ col0 (g 0%nat)) by (rewrite length_map, length_seq; done).
  rewrite map_nth, seq_nth by done. done.
Qed.

Lemma cols_at_ext g g' : (forall c, (c < n)%nat -> g c = g' c) -> at_ g = at_ g'.
Proof. intros H. unfold cols_at. f_equal. apply map_ext_in. intros c Hc%in_seq. apply H. lia. Qed.

Lemma get_cols_at g c : (c < n)%nat -> get_col (at_ g) (Z.of_nat c) = Ok (g c).
Proof. intros Hc. rewrite get_col_at by (rewrite cols_at_len; done). by rewrite colat_cols_at. Qed.

Lemma get_cols_at_0 g : (0 < n)%nat -> get_col (at_ g) 0 = Ok (g 0%nat).
Proof. apply (get_cols_at g 0). Qed.
Lemma get_cols_at_1 g : (1 < n)%nat -> get_col (at_ g) 1 = Ok (g 1%nat).
Proof. apply (get_cols_at g 1). Qed.

Lemma insert_cols_at (g : nat -> raidz_col) c x :
  <[c := x]> (map g (seq 0 n)) = map (fun j => if decide (j = c) then x else g j) (seq 0 n).
Proof.
  apply list_eq. intros j. destruct (decide (j < n)%nat) as [Hj|Hj].
  - rewrite list_lookup_fmap. rewrite (lookup_seq_lt 0 n j Hj). cbn. destruct (decide (j = c)) as [->|Hne].
    + apply list_lookup_insert_eq. rewrite length_map, length_seq. done.
    + rewrite list_lookup_insert_ne by done. rewrite list_lookup_fmap, (lookup_seq_lt 0 n j Hj). done.
  - rewrite !lookup_ge_None_2; [done|rewrite length_map, length_seq; lia|rewrite length_insert, length_map, length_seq; lia].
Qed.

Lemma set_cols_at g c data :
  (c < n)%nat ->
  set_data (at_ g) (Z.of_nat c) data = Ok (at_ (fun j => if decide (j = c) then with_data (g c) data else g j)).
Proof.
  intros Hc. unfold set_data. rewrite get_cols_at by done. run. rewrite Nat2Z.id. cbn [rm_col cols_at].
  rewrite insert_cols_at. done.
Qed.

End ColsAt.

Lemma split_sector d a k a' k' : 0 <= a < d -> 0 <= a' < d -> a + k * d = a' + k' * d -> a = a' /\ k = k'.
Proof. intros. assert (k = k') by nia. subst. lia. Qed.

Section Layout.
Context (zio_buf_alloc : Z -> Z -> list Z) (io : zio) (sh d np : Z).
Hypothesis HL : layout_ok zio_buf_alloc io sh d np.

(** The sectors of the I/O, and its share per column. *)
Definition sec_b : Z := io_offset io / 2 ^ sh.
Definition sec_s : Z := io_size io / 2 ^ sh.
Definition sec_q : Z := sec_s / (d - np).
Definition sec_r : Z := sec_s mod (d - np).
Definition sec_bc : Z := if sec_r =? 0 then 0 else sec_r + np.
Definition sec_cols : Z := if sec_q =? 0 then sec_bc else d.

(** The sectors of column [c], and of the first [c] columns. *)
Definition sec_of (c : Z) : Z := sec_q + (if c <? sec_bc then 1 else 0).
Definition sec_upto (c : Z) : Z := c * sec_q + Z.min c sec_bc.

Definition geom (c : Z) : raidz_col :=
  let k := sec_b mod d + c in
  if d <=? k then RCol (k - d) ((sec_b / d + 1) * 2 ^ sh) (sec_of c * 2 ^ sh) [] 0 false false
  else RCol k (sec_b / d * 2 ^ sh) (sec_of c * 2 ^ sh) [] 0 false false.

Lemma pow_pos : 8 <= 2 ^ sh.
Proof. pose proof (Z.pow_le_mono_r 2 3 sh ltac:(lia) (lo_sh _ _ _ _ _ HL)). lia. Qed.

Lemma sec_facts :
  io_offset io = sec_b * 2 ^ sh /\ io_size io = sec_s * 2 ^ sh /\ 0 <= sec_b /\ 0 < sec_s /\
  sec_s = sec_q * (d - np) + sec_r /\ 0 <= sec_r < d - np /\ 0 <= sec_q.
Proof.
  pose proof pow_pos as Hp. destruct HL. unfold sec_q, sec_r, sec_s, sec_b.
  pose proof (Z.div_mod (io_offset io) (2 ^ sh) ltac:(lia)). pose proof (Z.div_mod (io_size io) (2 ^ sh) ltac:(lia)).
  pose proof (Z.div_mod (io_size io / 2 ^ sh) (d - np) ltac:(lia)).
  pose proof (Z.mod_pos_bound (io_size io / 2 ^ sh) (d - np) ltac:(lia)).
  assert (0 < io_size io / 2 ^ sh) by nia.
  split_and!; lia || (apply Z.div_pos; lia).
Qed.

Lemma sec_cols_range : np < sec_cols <= d /\ 0 <= sec_bc < d /\ (sec_q = 0 -> sec_cols = sec_bc) /\ (0 < sec_q -> sec_cols = d).
Proof.
  destruct sec_facts as (_ & _ & _ & Hs & Hqr & Hr & Hq). pose proof (lo_np _ _ _ _ _ HL) as Hnp. unfold sec_cols, sec_bc.
  destruct (Z.eqb_spec sec_r 0), (Z.eqb_spec sec_q 0); lia.
Qed.

Lemma sec_of_pos c : 0 <= c < sec_cols -> 0 < sec_of c.
Proof.
  intros Hc. destruct sec_facts as (_ & _ & _ & Hs & Hqr & Hr & Hq). destruct sec_cols_range as (_ & _ & Hz & Hp).
  unfold sec_of. destruct (Z.ltb_spec c sec_bc); [lia|]. destruct (Z.eq_dec sec_q 0); [rewrite Hz in Hc by done; lia|lia].
Qed.

Lemma sec_upto_S c : 0 <= c -> sec_upto (c + 1) = sec_upto c + sec_of c.
Proof. intros. unfold sec_upto, sec_of. destruct (Z.ltb_spec c sec_bc); lia. Qed.

Lemma sec_upto_mono c c' : 0 <= c <= c' -> sec_upto c <= sec_upto c'.
Proof. intros. destruct sec_facts as (_ & _ & _ & _ & _ & _ & Hq). unfold sec_upto. nia. Qed.

Lemma sec_upto_nonneg c : 0 <= c -> 0 <= sec_upto c.
Proof. intros. pose proof (sec_upto_mono 0 c ltac:(lia)). destruct sec_cols_range as (_ & ? & _). unfold sec_upto in *. lia. Qed.

(** All columns: the data and its parity. *)
Lemma sec_upto_cols : sec_upto sec_cols = sec_q * d + sec_bc.
Proof.
  destruct sec_cols_range as (_ & Hbc & Hz & Hp). destruct sec_facts as (_ & _ & _ & _ & _ & _ & Hq). unfold sec_upto.
  destruct (Z.eq_dec sec_q 0) as [E|]; [rewrite Hz, E by done; lia|rewrite Hp by lia; lia].
Qed.

Lemma sec_parity : sec_bc = 0 \/ np < sec_bc.
Proof.
  destruct sec_facts as (_ & _ & _ & _ & _ & Hr & _). unfold sec_bc. destruct (Z.eqb_spec sec_r 0); lia.
Qed.

Lemma sec_data : sec_upto sec_cols - sec_upto np = sec_s.
Proof.
  rewrite sec_upto_cols. destruct sec_facts as (_ & _ & _ & _ & Hqr & Hr & _). pose proof sec_parity.
  assert (sec_bc = 0 /\ sec_r = 0 \/ sec_bc = sec_r + np /\ sec_r <> 0) by (unfold sec_bc; destruct (Z.eqb_spec sec_r 0); lia).
  pose proof (lo_np _ _ _ _ _ HL). unfold sec_upto. lia.
Qed.

Lemma sec_total_le : sec_upto sec_cols <= (np + 1) * sec_s.
Proof.
  pose proof sec_data. destruct sec_facts as (_ & _ & _ & Hs & Hqr & Hr & Hq). pose proof (lo_np _ _ _ _ _ HL).
  assert (sec_upto np <= np * sec_s); [|lia]. unfold sec_upto. pose proof sec_parity.
  assert (sec_bc = 0 /\ sec_r = 0 \/ sec_bc = sec_r + np /\ sec_r <> 0) as [[-> Er]|[-> Er]]
    by (unfold sec_bc; destruct (Z.eqb_spec sec_r 0); lia); nia.
Qed.

Lemma bytes_max k : 0 <= k <= (np + 1) * (sec_s + 1) -> 0 <= k * 2 ^ sh < 2 ^ 64.
Proof.
  intros Hk. destruct sec_facts as (Hb & Hs & ? & ? & _). pose proof (lo_max _ _ _ _ _ HL) as Hm. rewrite Hb, Hs in Hm.
  pose proof pow_pos. nia.
Qed.

Lemma fill_cols_spec n c :
  0 <= c -> c + Z.of_nat n <= sec_cols ->
  fill_cols n c sh d (sec_b mod d) (sec_b / d * 2 ^ sh) sec_q sec_bc (sec_upto c * 2 ^ sh) =
    (map (fun k => geom (c + Z.of_nat k)) (seq 0 n), sec_upto (c + Z.of_nat n) * 2 ^ sh).
Proof.
  destruct sec_facts as (Hb & Hs & Hb0 & Hs0 & Hqr & Hr & Hq). destruct sec_cols_range as (Hcols & Hbc & _).
  pose proof (lo_np _ _ _ _ _ HL) as Hnp. pose proof (lo_d _ _ _ _ _ HL) as Hd. pose proof (lo_sh _ _ _ _ _ HL) as Hsh.
  pose proof pow_pos as Hp.
  revert c. induction n as [|n IH]; intros c Hc Hn; [by rewrite Z.add_0_r|].
  assert (0 <= sec_b mod d < d) as Hf by (apply Z.mod_pos_bound; lia).
  pose proof (sec_upto_nonneg c Hc) as H0.
  assert (sec_upto c + sec_of c <= sec_upto sec_cols) as H1
    by (rewrite <- sec_upto_S by done; apply sec_upto_mono; lia).
  pose proof sec_total_le as H2. pose proof (sec_of_pos c ltac:(lia)) as H3.
  cbn [fill_cols]. rewrite (wrap_small 64 (_ + c)) by lia.
  rewrite !Z.shiftl_mul_pow2 by lia. rewrite Z.mul_1_l. fold (sec_of c).
  rewrite (wrap_small 64 (sec_of c * _)) by (apply bytes_max; nia).
  rewrite <- Z.mul_add_distr_r, (wrap_small 64 ((sec_upto c + _) * _)) by (apply bytes_max; nia).
  rewrite <- sec_upto_S, IH by lia.
  assert (forall x y, map (fun k => geom (c + 1 + Z.of_nat k)) (seq 0 n) = x -> sec_upto (c + 1 + Z.of_nat n) * 2 ^ sh = y ->
    x = map (fun k => geom (c + Z.of_nat k)) (seq 1 n) /\ y = sec_upto (c + Z.of_nat (S n)) * 2 ^ sh) as Hend.
  { intros x y <- <-. split; [|f_equal; f_equal; lia]. rewrite <- seq_shift, map_map. apply map_ext. intros k. f_equal. lia. }
  destruct (Hend _ _ eq_refl eq_refl) as [-> ->].
  assert (0 <= sec_b / d) by (apply Z.div_pos; lia).
  assert (sec_b / d * d <= sec_b) by (rewrite Z.mul_comm; apply Z.mul_div_le; lia).
  assert (u64 (sec_b / d * 2 ^ sh + 2 ^ sh) = (sec_b / d + 1) * 2 ^ sh) as ->.
  { rewrite wrap_small by (pose proof (lo_max _ _ _ _ _ HL) as Hm; rewrite Hb, Hs in Hm; nia). lia. }
  cbn [map seq]. rewrite Z.add_0_r. unfold geom at 2. destruct (Z.leb_spec d (sec_b mod d + c)); done.
Qed.

(** Column [c] of the map: where it is, and what it holds. *)
Definition col_data (c : Z) : list Z :=
  if c <? np then zio_buf_alloc c (sec_of c * 2 ^ sh)
  else take (Z.to_nat (sec_of c * 2 ^ sh / 8)) (drop (Z.to_nat ((sec_upto c - sec_upto np) * 2 ^ sh / 8)) (io_data io)).
Definition fcol (c : Z) : raidz_col := with_data (geom c) (col_data c).

Definition map_asize : Z := (sec_upto sec_cols + np) / (np + 1) * (np + 1) * 2 ^ sh.
Notation at_ := (cols_at sec_bc map_asize np (Z.to_nat sec_cols)).
Definition halfway (k j : nat) : raidz_col := if decide (j < k)%nat then fcol (Z.of_nat j) else geom (Z.of_nat j).

Lemma pow_div8 k : k * 2 ^ sh / 8 = k * (2 ^ sh / 8).
Proof.
  assert (2 ^ sh = 2 ^ (sh - 3) * 8) as ->.
  { change 8 with (2 ^ 3). rewrite <- Z.pow_add_r; [f_equal; lia|pose proof (lo_sh _ _ _ _ _ HL); lia|lia]. }
  rewrite Z.mul_assoc, !Z.div_mul; lia.
Qed.

Lemma geom_count c : col_count (geom c) = sec_of c * (2 ^ sh / 8).
Proof. rewrite <- pow_div8. unfold col_count, geom. by destruct (_ <=? _). Qed.

Lemma halfway_put k :
  forall j, (j < Z.to_nat sec_cols)%nat ->
  (if decide (j = k) then with_data (halfway k k) (col_data (Z.of_nat k)) else halfway k j) = halfway (S k) j.
Proof.
  intros j Hj. unfold halfway. destruct (decide (j = k)) as [->|].
  - destruct (decide (k < k)%nat); [lia|]. destruct (decide (k < S k)%nat); [done|lia].
  - destruct (decide (j < k)%nat), (decide (j < S k)%nat); done || lia.
Qed.

Lemma parity_bufs_spec :
  for_cols (Z.to_nat np) 0 (parity_buf zio_buf_alloc) (at_ (fun j => geom (Z.of_nat j))) = Ok (at_ (halfway (Z.to_nat np))).
Proof.
  destruct sec_cols_range as (Hcols & _). pose proof (lo_np _ _ _ _ _ HL) as Hnp.
  destruct (for_cols_spec (fun k rm => rm = at_ (halfway k)) (Z.to_nat np) 0 (parity_buf zio_buf_alloc)
    (at_ (fun j => geom (Z.of_nat j)))) as (rm' & E & ->); [|  |done].
  - apply cols_at_ext. intros j _. unfold halfway. by destruct (decide _); [lia|].
  - intros k ? Hk ->. exists (at_ (halfway (S k))). split; [|done]. rewrite Z.add_0_l. unfold parity_buf.
    rewrite get_cols_at by lia. run. rewrite set_cols_at by lia. f_equal. apply cols_at_ext. intros j Hj.
    rewrite <- halfway_put by done. destruct (decide (j = k)); [|done]. f_equal. unfold col_data.
    destruct (Z.ltb_spec (Z.of_nat k) np); [|lia]. f_equal. unfold halfway. destruct (decide _); [lia|].
    unfold geom. by destruct (_ <=? _).
Qed.

Definition pos_of (c : Z) : Z := (sec_upto c - sec_upto np) * (2 ^ sh / 8).

Lemma data_ptr_spec k :
  (Z.to_nat np <= k < Z.to_nat sec_cols)%nat ->
  data_ptr (io_data io) (Z.of_nat k) (at_ (halfway k), pos_of (Z.of_nat k)) =
    Ok (at_ (halfway (S k)), pos_of (Z.of_nat (S k))).
Proof.
  intros Hk. unfold data_ptr. rewrite get_cols_at by lia. run. rewrite set_cols_at by lia. run.
  assert (col_count (halfway k k) = sec_of (Z.of_nat k) * (2 ^ sh / 8)) as Ec.
  { unfold halfway. destruct (decide _); [lia|]. apply geom_count. }
  rewrite Ec. f_equal. f_equal.
  - apply cols_at_ext. intros j Hj. rewrite <- halfway_put by done. destruct (decide (j = k)); [|done]. f_equal.
    unfold col_data. destruct (Z.ltb_spec (Z.of_nat k) np); [lia|]. rewrite !pow_div8. done.
  - unfold pos_of. rewrite Nat2Z.inj_succ, <- Z.add_1_r, sec_upto_S by lia. lia.
Qed.

Lemma data_ptrs_spec :
  (data_ptr (io_data io) np (at_ (halfway (Z.to_nat np)), 0) ≫=
     for_cols (Z.to_nat (sec_cols - (np + 1))) (np + 1) (data_ptr (io_data io))) =
    Ok (at_ (fun j => fcol (Z.of_nat j)), pos_of sec_cols).
Proof.
  destruct sec_cols_range as (Hcols & _). pose proof (lo_np _ _ _ _ _ HL) as Hnp.
  pose proof (data_ptr_spec (Z.to_nat np) ltac:(lia)) as E. rewrite Z2Nat.id in E by lia.
  replace (pos_of np) with 0 in E by (unfold pos_of; lia). rewrite E. run.
  destruct (for_cols_spec (fun k st => st = (at_ (halfway (S (Z.to_nat np + k))), pos_of (Z.of_nat (S (Z.to_nat np + k)))))
    (Z.to_nat (sec_cols - (np + 1))) (np + 1) (data_ptr (io_data io))
    (at_ (halfway (S (Z.to_nat np))), pos_of (Z.of_nat (S (Z.to_nat np))))) as (st & E' & ->).
  - by rewrite Nat.add_0_r.
  - intros k st Hk ->. eexists. split; [|reflexivity].
    replace (np + 1 + Z.of_nat k) with (Z.of_nat (S (Z.to_nat np + k))) by lia.
    rewrite data_ptr_spec by lia. by replace (S (S (Z.to_nat np + k))) with (S (Z.to_nat np + S k)) by lia.
  - rewrite E'. f_equal. replace (S (Z.to_nat np + Z.to_nat (sec_cols - (np + 1)))) with (Z.to_nat sec_cols) by lia.
    rewrite Z2Nat.id by lia. f_equal. apply cols_at_ext. intros j Hj. unfold halfway. by destruct (decide _); [|lia].
Qed.

(** The switch of the parity device every megabyte. *)
Definition switching : bool := (np =? 1) && negb (Z.land (io_offset io) (Z.shiftl 1 20) =? 0).
Definition sw (c : Z) : Z :=
  if switching then (if c =? 0 then 1 else if c =? 1 then 0 else c) else c.
Definition lcol (c : Z) : raidz_col := at_dev (fcol c) (rc_devidx (geom (sw c))) (rc_offset (geom (sw c))).

Lemma sw_sw c : sw (sw c) = c.
Proof. unfold sw. destruct switching; [|done]. repeat case_match; b2p; lia. Qed.

Lemma sw_range c : 0 <= c < sec_cols -> 0 <= sw c < sec_cols.
Proof.
  intros Hc. destruct sec_cols_range as (Hcols & _). pose proof (lo_np _ _ _ _ _ HL). unfold sw.
  destruct switching; repeat case_match; b2p; lia.
Qed.

Lemma sec_of_parity c : 0 <= c <= np -> sec_of c = sec_of 0.
Proof. intros Hc. pose proof sec_parity. pose proof (lo_np _ _ _ _ _ HL). unfold sec_of. repeat case_match; b2p; lia. Qed.

Lemma sec_of_sw c : 0 <= c -> sec_of (sw c) = sec_of c.
Proof.
  intros Hc. unfold sw, switching. destruct (Z.eqb_spec np 1) as [E|]; [|done]. cbn [andb].
  destruct (negb _); [|done]. pose proof (sec_of_parity 1 ltac:(lia)). repeat case_match; b2p; subst; lia.
Qed.

Lemma geom_size c : rc_size (geom c) = sec_of c * 2 ^ sh.
Proof. unfold geom. by destruct (_ <=? _). Qed.

Lemma fcol_size c : rc_size (fcol c) = sec_of c * 2 ^ sh.
Proof. apply geom_size. Qed.
Lemma lcol_size c : rc_size (lcol c) = sec_of c * 2 ^ sh.
Proof. cbn. apply geom_size. Qed.

Lemma at_dev_id rc : at_dev rc (rc_devidx rc) (rc_offset rc) = rc.
Proof. by destruct rc. Qed.

Lemma switch_spec :
  (if switching then switch_parity (at_ (fun j => fcol (Z.of_nat j))) else Ok (at_ (fun j => fcol (Z.of_nat j)))) =
    Ok (at_ (fun j => lcol (Z.of_nat j))).
Proof.
  destruct sec_cols_range as (Hcols & _). pose proof (lo_np _ _ _ _ _ HL) as Hnp.
  destruct switching eqn:Es.
  - unfold switch_parity. rewrite get_cols_at_0, get_cols_at_1 by lia. run.
    cbn [rm_col cols_at]. rewrite !insert_cols_at. f_equal.
    transitivity (at_ (fun j => if decide (j = 1%nat) then lcol 1 else if decide (j = 0%nat) then lcol 0 else fcol (Z.of_nat j)));
      [unfold lcol, sw; rewrite Es; done|].
    apply cols_at_ext. intros j Hj. destruct (decide (j = 1%nat)) as [->|]; [done|]. destruct (decide (j = 0%nat)) as [->|]; [done|].
    unfold lcol, sw. rewrite Es. destruct (Z.eqb_spec (Z.of_nat j) 0); [lia|]. destruct (Z.eqb_spec (Z.of_nat j) 1); [lia|].
    symmetry. exact (at_dev_id (fcol _)).
  - f_equal. apply cols_at_ext. intros j Hj. unfold lcol, sw. rewrite Es. symmetry. exact (at_dev_id (fcol _)).
Qed.

Lemma roundup_spec x : 0 <= x <= (np + 1) * sec_s ->
  roundup (x * 2 ^ sh) (u64 (Z.shiftl (np + 1) sh)) = (x + np) / (np + 1) * (np + 1) * 2 ^ sh /\
  roundup x (np + 1) = (x + np) / (np + 1) * (np + 1).
Proof.
  intros Hx. pose proof pow_pos as Hp. pose proof (lo_np _ _ _ _ _ HL) as Hnp. pose proof (lo_sh _ _ _ _ _ HL).
  destruct sec_facts as (_ & _ & _ & Hs & _). rewrite Z.shiftl_mul_pow2 by lia. rewrite (wrap_small 64 ((np + 1) * _)) by (apply bytes_max; nia).
  assert (Hlt : forall k, 0 <= k <= (np + 1) * (sec_s + 1) -> 0 <= k < 2 ^ 64).
  { intros k Hk. pose proof (bytes_max k Hk). nia. }
  assert ((x + np) / (np + 1) * (np + 1) <= x + np) by (rewrite Z.mul_comm; apply Z.mul_div_le; lia).
  assert (0 <= (x + np) / (np + 1)) by (apply Z.div_pos; lia).
  assert ((x * 2 ^ sh + ((np + 1) * 2 ^ sh - 1)) / ((np + 1) * 2 ^ sh) = (x + np) / (np + 1)) as Ediv.
  { symmetry. rewrite (Z.mul_comm (np + 1)). apply Z.div_unique with (r := (x + np) mod (np + 1) * 2 ^ sh + 2 ^ sh - 1).
    - left. pose proof (Z.mod_pos_bound (x + np) (np + 1) ltac:(lia)). nia.
    - pose proof (Z.div_mod (x + np) (np + 1) ltac:(lia)) as E. nia. }
  unfold roundup. split.
  - rewrite (wrap_small 64 (_ + _)) by (pose proof (bytes_max (x + np + 1) ltac:(nia)); nia).
    rewrite Ediv. rewrite wrap_small; [lia|]. rewrite Z.mul_assoc. apply bytes_max. nia.
  - rewrite (wrap_small 64 (x + _)) by (apply Hlt; nia). replace (x + (np + 1 - 1)) with (x + np) by lia.
    apply wrap_small. apply Hlt. nia.
Qed.

Lemma asize_spec : vdev_raidz_asize sh d np (io_size io) = map_asize.
Proof.
  pose proof pow_pos as Hp. pose proof (lo_np _ _ _ _ _ HL) as Hnp. pose proof (lo_sh _ _ _ _ _ HL).
  destruct sec_facts as (_ & Hsz & _ & Hs & Hqr & Hr & Hq). pose proof sec_total_le as Ht. pose proof sec_upto_cols as Hc.
  unfold vdev_raidz_asize. rewrite Hsz.
  pose proof (bytes_max sec_s ltac:(nia)). rewrite (wrap_small 64 (_ - 1)) by nia.
  rewrite Z.shiftr_div_pow2 by lia.
  replace ((sec_s * 2 ^ sh - 1) / 2 ^ sh) with (sec_s - 1)
    by (apply Z.div_unique with (r := 2 ^ sh - 1); nia).
  assert (sec_s - 1 + 1 + np * ((sec_s - 1 + 1 + d - np - 1) / (d - np)) = sec_upto sec_cols) as ->.
  { rewrite Hc. assert ((sec_s - 1 + 1 + d - np - 1) / (d - np) = sec_q + if sec_r =? 0 then 0 else 1) as ->.
    - symmetry. destruct (Z.eqb_spec sec_r 0).
      + apply Z.div_unique with (r := d - np - 1); lia.
      + apply Z.div_unique with (r := sec_r - 1); lia.
    - unfold sec_bc. destruct (Z.eqb_spec sec_r 0); lia. }
  destruct sec_cols_range as (Hcols & _ & _). pose proof (sec_upto_nonneg sec_cols ltac:(lia)).
  pose proof (bytes_max (sec_upto sec_cols) ltac:(lia)).
  rewrite (wrap_small 64 (sec_upto _)) by nia. rewrite (proj2 (roundup_spec (sec_upto sec_cols) ltac:(lia))).
  rewrite Z.shiftl_mul_pow2 by lia. apply wrap_small. apply bytes_max.
  assert ((sec_upto sec_cols + np) / (np + 1) * (np + 1) <= sec_upto sec_cols + np) by (rewrite Z.mul_comm; apply Z.mul_div_le; lia).
  assert (0 <= (sec_upto sec_cols + np) / (np + 1)) by (apply Z.div_pos; lia). lia.
Qed.

Lemma map_alloc_spec : vdev_raidz_map_alloc zio_buf_alloc io sh d np = Ok (at_ (fun j => lcol (Z.of_nat j))).
Proof.
  pose proof pow_pos as Hp. pose proof (lo_np _ _ _ _ _ HL) as Hnp. pose proof (lo_sh _ _ _ _ _ HL) as Hsh.
  destruct sec_facts as (Ho & Hsz & Hb0 & Hs0 & Hqr & Hr & Hq). destruct sec_cols_range as (Hcols & Hbc & _).
  unfold vdev_raidz_map_alloc. rewrite !Z.shiftr_div_pow2 by lia. fold sec_b. fold sec_s. fold sec_q.
  replace (sec_s - sec_q * (d - np)) with sec_r by lia. fold sec_bc. fold sec_cols.
  rewrite Z.shiftl_mul_pow2 by lia.
  assert (0 <= sec_b / d) by (apply Z.div_pos; lia).
  assert (sec_b / d <= sec_b) by (apply Z.div_le_upper_bound; nia).
  rewrite (wrap_small 64 (sec_b / d * _)) by (pose proof (lo_max _ _ _ _ _ HL) as Hm; rewrite Ho, Hsz in Hm; nia).
  pose proof (fill_cols_spec (Z.to_nat sec_cols) 0 ltac:(lia) ltac:(lia)) as E.
  replace (sec_upto 0 * 2 ^ sh) with 0 in E by (unfold sec_upto; lia). rewrite E. clear E.
  rewrite Z.add_0_l, Z2Nat.id by lia.
  pose proof (sec_upto_nonneg sec_cols ltac:(lia)). pose proof sec_total_le.
  rewrite (proj1 (roundup_spec (sec_upto sec_cols) ltac:(lia))). fold map_asize.
  change (RMap _ _ 0 0 np _) with (at_ (fun j => geom (0 + Z.of_nat j))).
  rewrite (cols_at_ext _ _ _ _ _ (fun j => geom (Z.of_nat j))) by (intros; f_equal; lia).
  rewrite parity_bufs_spec. run. rewrite data_ptrs_spec. run.
  unfold rm_cols. rewrite cols_at_len, (proj2 (Z.leb_le 2 _)) by lia. run.
  rewrite get_cols_at_0, get_cols_at_1 by lia. run.
  rewrite !fcol_size, (sec_of_parity (Z.of_nat 1)) by lia. rewrite Z.eqb_refl. run. cbn [rm_firstdatacol cols_at]. apply switch_spec.
Qed.

Definition the_map : raidz_map := at_ (fun j => lcol (Z.of_nat j)).
Definition n_data : nat := Z.to_nat (sec_cols - np).
Definition words_0 : nat := Z.to_nat (sec_of 0 * (2 ^ sh / 8)).

Lemma data_len : zlen (io_data io) = sec_s * (2 ^ sh / 8).
Proof.
  rewrite <- pow_div8. destruct sec_facts as (_ & <- & _). rewrite (lo_len _ _ _ _ _ HL), Z.mul_comm, Z.div_mul; lia.
Qed.

Lemma col_data_len c : 0 <= c < sec_cols -> zlen (col_data c) = sec_of c * (2 ^ sh / 8).
Proof.
  intros Hc. pose proof pow_pos as Hp. pose proof (sec_of_pos c Hc) as Hpos. unfold col_data. destruct (Z.ltb_spec c np).
  - rewrite (lo_alloc _ _ _ _ _ HL) by nia. apply pow_div8.
  - rewrite !pow_div8, length_take, length_drop. pose proof data_len as El.
    assert (0 <= sec_upto c - sec_upto np) by (pose proof (sec_upto_mono np c); pose proof (lo_np _ _ _ _ _ HL); lia).
    assert (sec_upto c - sec_upto np + sec_of c <= sec_s).
    { rewrite <- sec_data. pose proof (sec_upto_S c ltac:(lia)). pose proof (sec_upto_mono (c + 1) sec_cols ltac:(lia)). lia. }
    assert (0 <= 2 ^ sh / 8) by (apply Z.div_pos; lia).
    rewrite <- (Nat2Z.id (length (io_data io))), El. rewrite Nat2Z.inj_min, Z2Nat.id by nia. rewrite Z.min_l; [done|].
    rewrite <- Z2Nat.inj_sub by nia. rewrite Z2Nat.id by nia. nia.
Qed.

Lemma col_data_u64 c : np <= c -> Forall is_u64 (col_data c).
Proof.
  intros Hc. unfold col_data. destruct (Z.ltb_spec c np); [lia|]. apply Forall_take, Forall_drop, (lo_u64 _ _ _ _ _ HL).
Qed.

Lemma lcol_count c : col_count (lcol c) = sec_of c * (2 ^ sh / 8).
Proof. unfold col_count. rewrite lcol_size. apply pow_div8. Qed.

Lemma words_8 k : k * 2 ^ sh = 8 * (k * (2 ^ sh / 8)).
Proof.
  rewrite <- pow_div8. assert (2 ^ sh = 8 * 2 ^ (sh - 3)) as ->.
  { change 8 with (2 ^ 3). rewrite <- Z.pow_add_r; [f_equal; lia|lia|pose proof (lo_sh _ _ _ _ _ HL); lia]. }
  rewrite (Z.mul_comm 8 (2 ^ _)), Z.mul_assoc, Z.div_mul; lia.
Qed.

Lemma the_map_ok : rz_ok the_map (Z.to_nat np) n_data words_0.
Proof.
  destruct sec_cols_range as (Hcols & _). pose proof (lo_np _ _ _ _ _ HL) as Hnp. pose proof pow_pos as Hp.
  assert (0 <= 2 ^ sh / 8) as Hw by (apply Z.div_pos; lia).
  assert (Hat : forall c, (c < Z.to_nat sec_cols)%nat -> colat the_map c = lcol (Z.of_nat c)) by (intros; apply colat_cols_at; done).
  pose proof (sec_of_pos 0 ltac:(lia)) as H0.
  assert (Hle : forall c, 0 <= c -> sec_of c <= sec_of 0) by (intros; unfold sec_of; repeat case_match; b2p; lia).
  assert (Hlen : forall c, (c < Z.to_nat sec_cols)%nat -> zlen (rc_data (lcol (Z.of_nat c))) = sec_of (Z.of_nat c) * (2 ^ sh / 8))
    by (intros; apply col_data_len; lia).
  split; [split| |]; unfold n_data, words_0.
  - cbn. lia.
  - unfold the_map. rewrite cols_at_len. lia.
  - lia.
  - lia.
  - intros c Hc. rewrite Hat by lia. rewrite lcol_size, (sec_of_parity (Z.of_nat c)), words_8 by lia. split; [nia|].
    specialize (Hlen c ltac:(lia)). rewrite (sec_of_parity (Z.of_nat c)) in Hlen by lia. nia.
  - intros c Hc. rewrite Hat, lcol_count, Hlen by lia. pose proof (Hle (Z.of_nat (Z.to_nat np + c)) ltac:(lia)).
    pose proof (sec_of_pos (Z.of_nat (Z.to_nat np + c)) ltac:(lia)). nia.
  - intros c Hc. rewrite Hat by lia. apply col_data_u64. lia.
  - rewrite Hat, lcol_count, sec_of_parity by lia. nia.
  - intros c Hc. rewrite Hat, lcol_size, Hlen, words_8 by lia. done.
Qed.

Lemma slices_app n c :
  np <= c -> c + Z.of_nat n <= sec_cols ->
  concat (map (fun j => col_data (c + Z.of_nat j)) (seq 0 n)) =
    take (Z.to_nat ((sec_upto (c + Z.of_nat n) - sec_upto c) * (2 ^ sh / 8))) (drop (Z.to_nat ((sec_upto c - sec_upto np) * (2 ^ sh / 8))) (io_data io)).
Proof.
  intros Hc Hn. pose proof pow_pos as Hp. pose proof (lo_np _ _ _ _ _ HL) as Hnp.
  assert (0 <= 2 ^ sh / 8) as Hw by (apply Z.div_pos; lia).
  revert c Hc Hn. induction n as [|n IH]; intros c Hc Hn; [by rewrite Z.add_0_r, Z.sub_diag|].
  cbn [seq map concat]. rewrite Z.add_0_r, <- seq_shift, map_map.
  assert (map (fun x => col_data (c + Z.of_nat (S x))) (seq 0 n) = map (fun j => col_data (c + 1 + Z.of_nat j)) (seq 0 n)) as ->
    by (apply map_ext; intros; f_equal; lia).
  rewrite IH by lia. unfold col_data at 1. destruct (Z.ltb_spec c np); [lia|]. rewrite !pow_div8.
  replace (c + Z.of_nat (S n)) with (c + 1 + Z.of_nat n) by lia. pose proof (sec_upto_S c ltac:(lia)) as E.
  pose proof (sec_upto_mono (c + 1) (c + 1 + Z.of_nat n) ltac:(lia)). pose proof (sec_of_pos c ltac:(lia)).
  pose proof (sec_upto_mono np c ltac:(lia)).
  replace (Z.to_nat ((sec_upto (c + 1) - sec_upto np) * (2 ^ sh / 8)))
    with (Z.to_nat ((sec_upto c - sec_upto np) * (2 ^ sh / 8)) + Z.to_nat (sec_of c * (2 ^ sh / 8)))%nat by (rewrite E; nia).
  replace (Z.to_nat ((sec_upto (c + 1 + Z.of_nat n) - sec_upto c) * (2 ^ sh / 8)))
    with (Z.to_nat (sec_of c * (2 ^ sh / 8)) + Z.to_nat ((sec_upto (c + 1 + Z.of_nat n) - sec_upto (c + 1)) * (2 ^ sh / 8)))%nat by nia.
  rewrite <- drop_drop. symmetry. apply take_add_app_drop.
Qed.

Lemma the_map_buffer : io_buffer the_map = io_data io.
Proof.
  destruct sec_cols_range as (Hcols & _). pose proof (lo_np _ _ _ _ _ HL) as Hnp.
  unfold io_buffer, the_map. cbn [rm_firstdatacol rm_col cols_at].
  rewrite skipn_map, map_map. unfold lcol, fcol. cbn [rc_data at_dev with_data].
  rewrite drop_seq, Nat.add_0_l. rewrite (seq_map_shift (Z.to_nat np)).
  rewrite map_map. rewrite (map_ext _ (fun j => col_data (np + Z.of_nat j))) by (intros; f_equal; lia).
  rewrite slices_app by lia. rewrite Z.sub_diag, drop_0.
  replace (np + Z.of_nat _) with sec_cols by lia. rewrite sec_data, <- data_len, Nat2Z.id. apply firstn_all.
Qed.

(** The sector a sector of a column is, counting across the children. *)
Definition flat (rc : raidz_col) (k : Z) : Z := (rc_offset rc / 2 ^ sh + k) * d + rc_devidx rc.

Lemma geom_flat c k : 0 <= c < sec_cols -> flat (geom c) k = sec_b + c + k * d.
Proof.
  intros Hc. destruct sec_facts as (_ & _ & Hb & _). pose proof (lo_np _ _ _ _ _ HL) as Hnp. pose proof pow_pos.
  pose proof (Z.div_mod sec_b d ltac:(lia)). unfold flat, geom.
  destruct (Z.leb_spec d (sec_b mod d + c)); cbn [rc_offset rc_devidx]; rewrite Z.div_mul by lia; lia.
Qed.

Lemma lcol_flat c k : 0 <= c < sec_cols -> flat (lcol c) k = sec_b + sw c + k * d.
Proof. intros Hc. rewrite <- (geom_flat (sw c)) by (by apply sw_range). done. Qed.

Lemma geom_dev c : 0 <= c < sec_cols -> 0 <= rc_devidx (geom c) < d.
Proof.
  intros Hc. destruct sec_cols_range as (Hcols & _). pose proof (lo_np _ _ _ _ _ HL) as Hnp.
  pose proof (Z.mod_pos_bound sec_b d ltac:(lia)). unfold geom. destruct (Z.leb_spec d (sec_b mod d + c)); cbn; lia.
Qed.

Lemma geom_dev_inj c c' : 0 <= c < sec_cols -> 0 <= c' < sec_cols -> rc_devidx (geom c) = rc_devidx (geom c') -> c = c'.
Proof.
  intros Hc Hc'. destruct sec_cols_range as (Hcols & _).
  pose proof (Z.mod_pos_bound sec_b d ltac:(pose proof (lo_np _ _ _ _ _ HL); lia)). unfold geom.
  destruct (Z.leb_spec d (sec_b mod d + c)), (Z.leb_spec d (sec_b mod d + c')); cbn; lia.
Qed.

Lemma flat_in c k : 0 <= c < sec_cols -> 0 <= k < sec_of c -> 0 <= c + k * d < sec_upto sec_cols.
Proof.
  intros Hc Hk. destruct sec_cols_range as (Hcols & Hbc & Hz & Hp). rewrite sec_upto_cols. unfold sec_of in Hk.
  destruct (Z.eq_dec sec_q 0) as [E|].
  - rewrite Hz in Hc by done. rewrite E in *. destruct (Z.ltb_spec c sec_bc); [|lia]. assert (k = 0) by lia. subst k. lia.
  - rewrite Hp in Hc by (destruct sec_facts as (_ & _ & _ & _ & _ & _ & ?); lia). destruct (Z.ltb_spec c sec_bc); [|nia].
    destruct (Z.eq_dec k sec_q); [subst; nia|nia].
Qed.

Lemma map_asize_ge : sec_upto sec_cols * 2 ^ sh <= map_asize.
Proof.
  pose proof pow_pos. pose proof (lo_np _ _ _ _ _ HL) as Hnp. unfold map_asize.
  pose proof (Z.div_mod (sec_upto sec_cols + np) (np + 1) ltac:(lia)).
  pose proof (Z.mod_pos_bound (sec_upto sec_cols + np) (np + 1) ltac:(lia)).
  apply Z.mul_le_mono_nonneg_r; lia.
Qed.

(** Facts about the map that its users need. *)
Lemma the_map_len : length (rm_col the_map) = (Z.to_nat np + n_data)%nat.
Proof. unfold the_map, n_data. rewrite cols_at_len. destruct sec_cols_range as (Hc & _). pose proof (lo_np _ _ _ _ _ HL). lia. Qed.

Lemma the_map_at c : (c < Z.to_nat np + n_data)%nat -> colat the_map c = lcol (Z.of_nat c) /\ 0 <= Z.of_nat c < sec_cols.
Proof.
  intros Hc. rewrite <- the_map_len in Hc. unfold the_map in *. rewrite cols_at_len in Hc. rewrite colat_cols_at by done. split; [done|lia].
Qed.

Lemma the_map_new c : (c < Z.to_nat np + n_data)%nat ->
  rc_error (colat the_map c) = 0 /\ rc_tried (colat the_map c) = false /\ rc_skipped (colat the_map c) = false /\
  (0 < length (rc_data (colat the_map c)))%nat.
Proof.
  intros Hc. destruct (the_map_at c Hc) as [-> Hr]. unfold lcol, fcol. cbn [rc_error rc_tried rc_skipped rc_data at_dev with_data].
  split_and!; [unfold geom; by destruct (_ <=? _)..|]. pose proof (col_data_len _ Hr) as El. pose proof (sec_of_pos _ Hr).
  pose proof pow_pos. assert (1 <= 2 ^ sh / 8) by (apply Z.div_le_lower_bound; lia). nia.
Qed.

Lemma the_map_ord x y : (x < y)%nat -> (y < n_data)%nat ->
  rc_size (colat the_map (Z.to_nat np + y)) <= rc_size (colat the_map (Z.to_nat np + x)).
Proof.
  intros Hxy Hy. destruct (the_map_at (Z.to_nat np + y) ltac:(lia)) as [-> Hr1]. destruct (the_map_at (Z.to_nat np + x) ltac:(lia)) as [-> Hr2].
  rewrite !lcol_size. pose proof pow_pos. assert (sec_of (Z.of_nat (Z.to_nat np + y)) <= sec_of (Z.of_nat (Z.to_nat np + x))); [|nia].
  unfold sec_of. repeat case_match; b2p; lia.
Qed.

End Layout.

(** The layout depends only on the place and the size of the I/O. *)
Lemma the_map_same alloc alloc' io io' sh d np :
  layout_ok alloc io sh d np -> layout_ok alloc' io' sh d np ->
  io_offset io = io_offset io' -> io_size io = io_size io' ->
  n_data io sh d np = n_data io' sh d np /\ words_0 io sh d np = words_0 io' sh d np /\
  forall c, (c < Z.to_nat np + n_data io sh d np)%nat ->
    let rc := colat (the_map alloc io sh d np) c in let rc' := colat (the_map alloc' io' sh d np) c in
    rc_devidx rc = rc_devidx rc' /\ rc_offset rc = rc_offset rc' /\ rc_size rc = rc_size rc' /\
    length (rc_data rc) = length (rc_data rc').
Proof.
  intros HL HL' Eo Es. destruct io as [o s ? ? ? ? ?], io' as [o' s' ? ? ? ? ?]. cbn in Eo, Es. subst o' s'.
  split; [done|]. split; [done|]. intros c Hc.
  destruct (the_map_at _ _ _ _ _ HL c Hc) as [-> Hr]. destruct (the_map_at _ _ _ _ _ HL' c Hc) as [-> Hr'].
  split_and!; [done|done|by rewrite !lcol_size|]. pose proof (col_data_len _ _ _ _ _ HL _ Hr) as E1. pose proof (col_data_len _ _ _ _ _ HL' _ Hr') as E2.
  unfold lcol, fcol. cbn [rc_data at_dev with_data]. apply Nat2Z.inj. rewrite E1, E2. done.
Qed.

(** ** Properties *)

(** C26: the layout of an aligned I/O to a RAID-Z vdev of any width and parity:
    [vdev_raidz_map_alloc] returns; the space the map takes is what
    [vdev_raidz_asize] told the allocator (the assertion of [vdev_raidz_io_start]);
    the parity columns are as long as the longest data column, every column is as
    long as its size says, and the data columns together hold exactly the buffer of
    the I/O, so parity generation and reconstruction apply to it. *)
Theorem raidz_map_layout (zio_buf_alloc : Z -> Z -> list Z) (io : zio) (sh d np : Z) :
  layout_ok zio_buf_alloc io sh d np ->
  exists rm n pc, vdev_raidz_map_alloc zio_buf_alloc io sh d np = Ok rm /\
    rm_asize rm = vdev_raidz_asize sh d np (io_size io) /\
    rz_ok rm (Z.to_nat np) n pc /\ Z.of_nat n <= d - np /\ io_buffer rm = io_data io.
Proof.
  intros HL. exists (the_map zio_buf_alloc io sh d np), (n_data io sh d np), (words_0 io sh d np).
  split_and!.
  - by apply map_alloc_spec.
  - symmetry. by apply (asize_spec zio_buf_alloc).
  - by apply the_map_ok.
  - destruct (sec_cols_range _ _ _ _ _ HL) as (Hc & _). unfold n_data. lia.
  - by apply the_map_buffer.
Qed.

(** C27: no two sectors of a map coincide and none lies outside the space allocated
    for it.  Counting the sectors of the vdev across its children, sector [k] of
    column [c] is one of those the allocation [io_offset, io_offset + rm_asize)
    covers, and it determines [c] and [k]; the columns are on different children.
    Blocks in disjoint allocations therefore never share a sector of a child. *)
Theorem raidz_map_sectors (zio_buf_alloc : Z -> Z -> list Z) (io : zio) (sh d np : Z) (rm : raidz_map) :
  layout_ok zio_buf_alloc io sh d np -> vdev_raidz_map_alloc zio_buf_alloc io sh d np = Ok rm ->
  forall c k, (c < length (rm_col rm))%nat -> 0 <= k < rc_size (colat rm c) / 2 ^ sh ->
    0 <= rc_devidx (colat rm c) < d /\
    io_offset io / 2 ^ sh <= flat sh d (colat rm c) k < (io_offset io + rm_asize rm) / 2 ^ sh /\
    forall c' k', (c' < length (rm_col rm))%nat -> 0 <= k' < rc_size (colat rm c') / 2 ^ sh ->
      (flat sh d (colat rm c) k = flat sh d (colat rm c') k' -> c = c' /\ k = k') /\
      (rc_devidx (colat rm c) = rc_devidx (colat rm c') -> c = c').
Proof.
  intros HL E. rewrite (map_alloc_spec _ _ _ _ _ HL) in E. injection E as <-. rewrite cols_at_len.
  pose proof (pow_pos _ _ _ _ _ HL) as Hp. destruct (sec_cols_range _ _ _ _ _ HL) as (Hcols & _).
  pose proof (sw_range _ _ _ _ _ HL) as Hsw. pose proof (lo_np _ _ _ _ _ HL) as Hnp.
  assert (Hk : forall c k, 0 <= c < sec_cols io sh d np -> 0 <= k < rc_size (lcol zio_buf_alloc io sh d np c) / 2 ^ sh ->
    0 <= k < sec_of io sh d np (sw io np c)).
  { intros c k Hc. rewrite (sec_of_sw _ _ _ _ _ HL) by lia. rewrite lcol_size, Z.div_mul by lia. done. }
  assert (Hin : forall c, (c < Z.to_nat (sec_cols io sh d np))%nat -> 0 <= Z.of_nat c < sec_cols io sh d np) by lia.
  intros c k Hc%Hin Hkc. rewrite colat_cols_at in * by lia. pose proof (Hk _ _ Hc Hkc) as Hk1.
  pose proof (Hsw _ Hc). split; [|split]; [| |intros c' k' Hc' Hk'; pose proof (Hsw _ (Hin _ Hc')); split].
  - by apply (geom_dev zio_buf_alloc io sh d np HL).
  - rewrite (lcol_flat _ _ _ _ _ HL) by done. pose proof (flat_in _ _ _ _ _ HL _ _ (Hsw _ Hc) Hk1) as Hf.
    pose proof (Z.div_le_mono _ _ (2 ^ sh) ltac:(lia) (map_asize_ge _ _ _ _ _ HL)) as Hge. rewrite Z.div_mul in Hge by lia.
    cbn [rm_asize cols_at]. destruct (sec_facts _ _ _ _ _ HL) as (Ho & _). rewrite Ho, Z.div_add_l, Z.div_mul by lia. lia.
  - intros Hf. rewrite colat_cols_at in Hf by done. rewrite !(lcol_flat _ _ _ _ _ HL) in Hf by (done || lia).
    destruct (split_sector d (sw io np (Z.of_nat c)) k (sw io np (Z.of_nat c')) k') as [Es ->]; [lia..|].
    split; [|done]. apply (f_equal (sw io np)) in Es. rewrite !sw_sw in Es. lia.
  - rewrite colat_cols_at by done. intros Hf. apply (geom_dev_inj zio_buf_alloc io sh d np HL) in Hf; [|lia..].
    apply (f_equal (sw io np)) in Hf. rewrite !sw_sw in Hf. lia.
Qed.

(** ** Witnesses: four sectors on four children with single parity, at an offset
    where the parity device is switched *)

Definition w_zio : zio := Zio (1048576 + 3072) 2048 (map Z.of_nat (seq 0 256)) false 0 0 0.
Definition w_alloc (c size : Z) : list Z := repeat c (Z.to_nat (size / 8)).

Example w_map_columns :
  (rm ← vdev_raidz_map_alloc w_alloc w_zio 9 4 1; Ok (map (fun rc => (rc_devidx rc, rc_offset rc, rc_size rc)) (rm_col rm))) =
    Ok [(3, 262656, 1024); (2, 262656, 1024); (0, 263168, 512); (1, 263168, 512)].
Proof. vm_compute. reflexivity. Qed.

Lemma w_layout : layout_ok w_alloc w_zio 9 4 1.
Proof.
  split; [lia|lia|lia|cbn; lia|cbn; lia|reflexivity|reflexivity|reflexivity|reflexivity| |].
  - cbn [io_data w_zio]. repeat (apply List.Forall_cons || apply List.Forall_nil); vm_compute; intuition congruence.
  - intros c size Hs. unfold w_alloc. rewrite repeat_length. apply Z2Nat.id. by apply Z.div_pos.
Qed.

Lemma raidz_map_layout_witness :
  exists rm n pc, vdev_raidz_map_alloc w_alloc w_zio 9 4 1 = Ok rm /\
    rm_asize rm = vdev_raidz_asize 9 4 1 2048 /\
    rz_ok rm 1 n pc /\ Z.of_nat n <= 3 /\ io_buffer rm = io_data w_zio.
Proof. apply (raidz_map_layout w_alloc w_zio 9 4 1). exact w_layout. Defined.

Definition w_the_map : raidz_map :=
  match vdev_raidz_map_alloc w_alloc w_zio 9 4 1 with Ok rm => rm | Err _ => RMap 0 0 0 0 0 [] end.

Lemma raidz_map_sectors_witness :
  flat 9 4 (colat w_the_map 2) 0 = 2048 + 8 /\ 2048 + 6 <= flat 9 4 (colat w_the_map 2) 0 < 2048 + 12.
Proof.
  split; [vm_compute; reflexivity|].
  apply (raidz_map_sectors w_alloc w_zio 9 4 1 w_the_map w_layout).
  - vm_compute. reflexivity.
  - vm_compute. lia.
  - vm_compute. intuition congruence.
Defined.

End RaidzMap.
