(* ===== verification/RaidzIo.v ===== *)
(** * RAID-Z reads and writes: [vdev_raidz_io_start] and [vdev_raidz_io_done] of
    fs/zfs/vdev_raidz.c

    The two halves of an I/O, between which the children do theirs: the first issues
    requests to the children, the second looks at what came back and either finishes,
    reconstructing what is missing and issuing repairs, or asks for the columns not
    read yet.  [zio_checksum_error] (zio_checksum.c) is a parameter: whether the
    buffer is accepted. *)

From Stdlib Require Import List.
From stdpp Require Import base option numbers list.
From S2P Require Import Prelude OrdTree Avl SpaceMap Gf256 Raidz RaidzMap.
Import Raidz RaidzMap SpaceMap.
Local Open Scope Z_scope.

Module RaidzIo.

(** Darwin's numbers; [ECKSUM] is [EBADE], which zfs_context.h makes [EBADMACHO]. *)
Definition EIO : Z := 5.
Definition ENXIO : Z := 6.
Definition ESTALE : Z := 70.
Definition ECKSUM : Z := 88.

Definition ZIO_FLAG_FAILFAST : Z := 0x00002.
Definition ZIO_FLAG_SPECULATIVE : Z := 0x00800.
Definition ZIO_FLAG_RESILVER : Z := 0x01000.
Definition ZIO_FLAG_SCRUB : Z := 0x02000.
Definition has_flag (io : zio) (flag : Z) : bool := negb (Z.land (io_flags io) flag =? 0).

Definition VDEV_STATE_DEGRADED : Z := 6.

Section RaidzIo.
Context {OT : OrdTree space_seg}.

(** What the RAID-Z code looks at of a child, and of the RAID-Z vdev itself. *)
Record vdev := Vdev { vdev_state : Z; vdev_dtl_map : space_map }.
Record raidz_vdev := RVdev { vdev_ashift : Z; vdev_nparity : Z; vdev_child : list vdev }.

Definition vdev_is_dead (vd : vdev) : bool := vdev_state vd <? VDEV_STATE_DEGRADED.

Definition vdev_dtl_contains (sm : space_map) (txg size : Z) : outcome bool :=
  if sm_space sm =? 0 then Ok false else space_map_contains sm txg size.

Definition get_child (vd : raidz_vdev) (dev : Z) : outcome vdev :=
  if dev <? 0 then Err Fault
  else match vdev_child vd !! Z.to_nat dev with Some cvd => Ok cvd | None => Err Fault end.

(** A request to a child: [zio_vdev_child_io(zio, NULL, cvd, rc->rc_offset, rc->rc_data,
    rc->rc_size, ...)]. *)
Record req := Req {
  rq_col : Z;
  rq_dev : Z;
  rq_offset : Z;
  rq_size : Z;
  rq_data : list Z;
  rq_write : bool
}.
Definition child_io (c : Z) (rc : raidz_col) (write : bool) : req :=
  Req c (rc_devidx rc) (rc_offset rc) (rc_size rc) (rc_data rc) write.

Definition set_col (rm : raidz_map) (c : Z) (rc : raidz_col) : raidz_map :=
  set_cols rm (<[Z.to_nat c := rc]> (rm_col rm)).
Definition with_status (rc : raidz_col) (error : Z) (tried skipped : bool) : raidz_col :=
  RCol (rc_devidx rc) (rc_offset rc) (rc_size rc) (rc_data rc) error tried skipped.
Definition with_missing (rm : raidz_map) (data parity : Z) : raidz_map :=
  RMap (rm_bigcols rm) (rm_asize rm) data parity (rm_firstdatacol rm) (rm_col rm).

Definition vdev_raidz_child_done (rm : raidz_map) (c error : Z) : outcome raidz_map :=
  rc ← get_col rm c;
  Ok (set_col rm c (with_status rc error true false)).

(** ** Starting an I/O *)

(** [if (c >= rm->rm_firstdatacol) rm->rm_missingdata++; else rm->rm_missingparity++;] *)
Definition count_missing (rm : raidz_map) (c : Z) : raidz_map :=
  if rm_firstdatacol rm <=? c then with_missing rm (rm_missingdata rm + 1) (rm_missingparity rm)
  else with_missing rm (rm_missingdata rm) (rm_missingparity rm + 1).

(** One column of a read. *)
Definition start_col (vd : raidz_vdev) (io : zio) (birth c : Z) (st : raidz_map * list req)
    : outcome (raidz_map * list req) :=
  let '(rm, reqs) := st in
  rc ← get_col rm c;
  cvd ← get_child vd (rc_devidx rc);
  if vdev_is_dead cvd then
    Ok (set_col (count_missing rm c) c (with_status rc ENXIO true true), reqs)
  else
    dtl ← vdev_dtl_contains (vdev_dtl_map cvd) birth 1;
    if (dtl : bool) then
      Ok (set_col (count_missing rm c) c (with_status rc ESTALE (rc_tried rc) true), reqs)
    else if (rm_firstdatacol rm <=? c) || (0 <? rm_missingdata rm) || has_flag io ZIO_FLAG_SCRUB then
      Ok (rm, reqs ++ [child_io c rc false])
    else Ok (rm, reqs).

(** [for (c = rm->rm_cols - 1; c >= 0; c--)] *)
Fixpoint start_cols (vd : raidz_vdev) (io : zio) (birth : Z) (n : nat) (st : raidz_map * list req)
    : outcome (raidz_map * list req) :=
  match n with
  | O => Ok st
  | S n' => st ← start_col vd io birth (Z.of_nat n') st; start_cols vd io birth n' st
  end.

Definition generate_parity (rm : raidz_map) : outcome raidz_map :=
  if rm_firstdatacol rm =? 1 then vdev_raidz_generate_parity_p rm else vdev_raidz_generate_parity_pq rm.

(** Requests for the columns that [p] selects, in order, from column [c] on. *)
Fixpoint reqs_where (p : raidz_col -> bool) (write : bool) (c : Z) (cols : list raidz_col) : list req :=
  match cols with
  | [] => []
  | rc :: cols' =>
      if p rc then child_io c rc write :: reqs_where p write (c + 1) cols' else reqs_where p write (c + 1) cols'
  end.

Definition vdev_raidz_io_start (zio_buf_alloc : Z -> Z -> list Z) (vd : raidz_vdev) (io : zio) (birth : Z)
    : outcome (raidz_map * list req) :=
  rm ← vdev_raidz_map_alloc zio_buf_alloc io (vdev_ashift vd) (zlen (vdev_child vd)) (vdev_nparity vd);
  _ ← verify (rm_asize rm =? vdev_raidz_asize (vdev_ashift vd) (zlen (vdev_child vd)) (vdev_nparity vd) (io_size io));
  if io_write io then
    rm ← generate_parity rm;
    Ok (rm, reqs_where (fun _ => true) true 0 (rm_col rm))
  else start_cols vd io birth (length (rm_col rm)) (rm, []).

(** ** Finishing an I/O *)

(** What goes to the fault management code and the vdev statistics. *)
Inductive event := CksumStat (dev : Z) | Ereport (dev off size : Z).

Definition raidz_checksum_error (io : zio) (rc : raidz_col) : list event :=
  if has_flag io ZIO_FLAG_SPECULATIVE then []
  else [CksumStat (rc_devidx rc); Ereport (rc_devidx rc) (rc_offset rc) (rc_size rc)].

(** [bcmp] of two buffers of words. *)
Definition bcmp (a b : list Z) (size : Z) : bool :=
  negb (bool_decide (take (Z.to_nat (size / 8)) a = take (Z.to_nat (size / 8)) b)).

(** The last loop of [raidz_parity_verify], for parity column [c]; [old] is the map
    before parity was generated. *)
Definition verify_col (io : zio) (old : raidz_map) (c : Z) (st : raidz_map * Z * list event)
    : outcome (raidz_map * Z * list event) :=
  let '(rm, ret, ev) := st in
  rc ← get_col rm c;
  if negb (rc_tried rc) || negb (rc_error rc =? 0) then Ok st
  else
    orig ← get_col old c;
    if bcmp (rc_data orig) (rc_data rc) (rc_size rc) then
      Ok (set_col rm c (with_status rc ECKSUM (rc_tried rc) (rc_skipped rc)), ret + 1, ev ++ raidz_checksum_error io rc)
    else Ok st.

Definition raidz_parity_verify (io : zio) (rm : raidz_map) : outcome (raidz_map * Z * list event) :=
  rm' ← generate_parity rm;
  for_cols (Z.to_nat (rm_firstdatacol rm)) 0 (verify_col io rm) (rm', 0, []).

(** The first loop of [vdev_raidz_io_done]. *)
Record tally := Tally {
  t_error : Z;
  t_numerrors : Z;
  t_parity_errors : Z;
  t_data_errors : Z;
  t_unexpected : Z;
  t_untried : Z
}.
Definition tally_col (f c : Z) (rc : raidz_col) (t : tally) : tally :=
  if negb (rc_error rc =? 0) then
    Tally (if t_error t =? EIO then t_error t else rc_error rc) (t_numerrors t + 1)
      (if c <? f then t_parity_errors t + 1 else t_parity_errors t)
      (if c <? f then t_data_errors t else t_data_errors t + 1)
      (if rc_skipped rc then t_unexpected t else t_unexpected t + 1) (t_untried t)
  else if (c <? f) && negb (rc_tried rc) then
    Tally (t_error t) (t_numerrors t) (t_parity_errors t) (t_data_errors t) (t_unexpected t) (t_untried t + 1)
  else t.
Fixpoint tally_cols (f c : Z) (cols : list raidz_col) (t : tally) : tally :=
  match cols with
  | [] => t
  | rc :: cols' => tally_cols f (c + 1) cols' (tally_col f c rc t)
  end.

(** The variables of [vdev_raidz_io_done] when it goes to [done]. *)
Record done := Done {
  d_rm : raidz_map;
  d_error : Z;
  d_unexpected : Z;
  d_events : list event
}.

(** The first column from [c] on with an error: the loops that end in [break]. *)
Fixpoint find_error (n : nat) (rm : raidz_map) (c : Z) : outcome Z :=
  match n with
  | O => Ok c
  | S n' => rc ← get_col rm c; if negb (rc_error rc =? 0) then Ok c else find_error n' rm (c + 1)
  end.

(** The search and the assertions after it. *)
Definition bad_column (rm : raidz_map) (from : Z) : outcome Z :=
  c ← find_error (Z.to_nat (rm_cols rm - from)) rm from;
  _ ← verify (negb (c =? rm_cols rm));
  rc ← get_col rm c;
  _ ← verify (negb (rc_skipped rc) || (rc_error rc =? ENXIO) || (rc_error rc =? ESTALE));
  Ok c.

Context (zio_checksum_error : list Z -> Z) (zio_buf_alloc : Z -> Z -> list Z).

Definition accepted (rm : raidz_map) : bool := zio_checksum_error (io_buffer rm) =? 0.

(** [vdev_raidz_reconstruct_pq] with the two buffers it allocates. *)
Definition reconstruct_pq (rm : raidz_map) (x y : Z) : outcome raidz_map :=
  rp ← get_col rm VDEV_RAIDZ_P;
  rq ← get_col rm VDEV_RAIDZ_Q;
  vdev_raidz_reconstruct_pq (zio_buf_alloc (x * 2 ^ 32 + 2 * y) (rc_size rp))
    (zio_buf_alloc (x * 2 ^ 32 + 2 * y + 1) (rc_size rq)) rm x y.

(** [raidz_parity_verify] where the code calls it, with the assertion after it. *)
Definition verify_parity (io : zio) (t : tally) (needed : bool) (rm : raidz_map) : outcome done :=
  if needed || has_flag io ZIO_FLAG_RESILVER then
    '(rm, n, ev) ← raidz_parity_verify io rm;
    _ ← verify (t_parity_errors t + n <=? rm_firstdatacol rm);
    Ok (Done rm 0 (t_unexpected t + n) ev)
  else Ok (Done rm 0 (t_unexpected t) []).

(** Phase 1, when the errors seen are correctable: either [done], or the map goes on
    to the next phase. *)
Definition phase1 (io : zio) (t : tally) (rm : raidz_map) : outcome (done + raidz_map) :=
  let f := rm_firstdatacol rm in
  if t_data_errors t =? 0 then
    if accepted rm then
      d ← verify_parity io t (t_parity_errors t + t_untried t <? f) rm; Ok (inl d)
    else Ok (inr rm)
  else if t_data_errors t =? 1 then
    _ ← verify (t_untried t =? 0);
    _ ← verify (t_parity_errors t <? f);
    c ← bad_column rm f;
    rp ← get_col rm VDEV_RAIDZ_P;
    rm ← (if rc_error rp =? 0 then vdev_raidz_reconstruct_p rm c
          else _ ← verify (1 <? f); vdev_raidz_reconstruct_q rm c);
    if accepted rm then
      d ← verify_parity io t (t_parity_errors t <? f - 1) rm; Ok (inl d)
    else Ok (inr rm)
  else if t_data_errors t =? 2 then
    _ ← verify (f =? 2);
    c1 ← bad_column rm f;
    c ← bad_column rm (c1 + 1);
    rm ← reconstruct_pq rm c1 c;
    if accepted rm then Ok (inl (Done rm 0 (t_unexpected t) [])) else Ok (inr rm)
  else Err Panic.

(** A column found to have returned bad data: told so unless it knew, and marked. *)
Definition impute (io : zio) (rm : raidz_map) (c : Z) : outcome (raidz_map * list event) :=
  rc ← get_col rm c;
  let ev := if rc_tried rc && (rc_error rc =? 0) then raidz_checksum_error io rc else [] in
  Ok (set_col rm c (with_status rc ECKSUM (rc_tried rc) (rc_skipped rc)), ev).

(** Phase 3 with one parity column: try every data column in turn, putting back what
    it held when the checksum does not match. *)
Fixpoint try_one (io : zio) (rec : raidz_map -> Z -> outcome raidz_map) (n : nat) (c : Z) (rm : raidz_map)
    : outcome (raidz_map + done) :=
  match n with
  | O => Ok (inl rm)
  | S n' =>
      rc ← get_col rm c;
      let orig := rc_data rc in
      rm ← rec rm c;
      if accepted rm then
        '(rm, ev) ← impute io rm c;
        Ok (inr (Done rm 0 1 ev))
      else
        rm ← set_data rm c orig;
        try_one io rec n' (c + 1) rm
  end.

(** With both: try column [c] with every later one; [c] itself is put back only after
    the last of them. *)
Fixpoint try_second (io : zio) (n : nat) (c c1 : Z) (rm : raidz_map) : outcome (raidz_map + done) :=
  match n with
  | O => Ok (inl rm)
  | S n' =>
      rc1 ← get_col rm c1;
      let orig1 := rc_data rc1 in
      rm ← reconstruct_pq rm c c1;
      if accepted rm then
        '(rm, ev) ← impute io rm c;
        '(rm, ev1) ← impute io rm c1;
        Ok (inr (Done rm 0 1 (ev ++ ev1)))
      else
        rm ← set_data rm c1 orig1;
        try_second io n' c (c1 + 1) rm
  end.
Fixpoint try_pairs (io : zio) (n : nat) (c : Z) (rm : raidz_map) : outcome (raidz_map + done) :=
  match n with
  | O => Ok (inl rm)
  | S n' =>
      rc ← get_col rm c;
      let orig := rc_data rc in
      r ← try_second io (Z.to_nat (rm_cols rm - (c + 1))) c (c + 1) rm;
      match r with
      | inr d => Ok (inr d)
      | inl rm => rm ← set_data rm c orig; try_pairs io n' (c + 1) rm
      end
  end.

(** Go on with [k] unless an attempt succeeded. *)
Definition or_else (r : outcome (raidz_map + done)) (k : raidz_map -> outcome (raidz_map + done))
    : outcome (raidz_map + done) :=
  r ← r; match r with inr d => Ok (inr d) | inl rm => k rm end.

Definition try_p (io : zio) (rm : raidz_map) : outcome (raidz_map + done) :=
  rp ← get_col rm VDEV_RAIDZ_P;
  if rc_error rp =? 0 then try_one io vdev_raidz_reconstruct_p (data_cols rm) (rm_firstdatacol rm) rm
  else Ok (inl rm).
Definition try_q (io : zio) (rm : raidz_map) : outcome (raidz_map + done) :=
  if 1 <? rm_firstdatacol rm then
    rq ← get_col rm VDEV_RAIDZ_Q;
    if rc_error rq =? 0 then try_one io vdev_raidz_reconstruct_q (data_cols rm) (rm_firstdatacol rm) rm
    else Ok (inl rm)
  else Ok (inl rm).
Definition try_pq (io : zio) (rm : raidz_map) : outcome (raidz_map + done) :=
  if 1 <? rm_firstdatacol rm then
    rp ← get_col rm VDEV_RAIDZ_P;
    rq ← get_col rm VDEV_RAIDZ_Q;
    if (rc_error rp =? 0) && (rc_error rq =? 0) then try_pairs io (data_cols rm - 1) (rm_firstdatacol rm) rm
    else Ok (inl rm)
  else Ok (inl rm).

Definition phase3 (io : zio) (t : tally) (rm : raidz_map) : outcome done :=
  if rm_firstdatacol rm <=? t_numerrors t then
    _ ← verify (negb (t_error t =? 0));
    Ok (Done rm (t_error t) 1 [])
  else
    r ← or_else (or_else (try_p io rm) (try_q io)) (try_pq io);
    match r with
    | inr d => Ok d
    | inl rm =>
        Ok (Done rm ECKSUM 1
              (if has_flag io ZIO_FLAG_SPECULATIVE then []
               else map (fun rc => Ereport (rc_devidx rc) (rc_offset rc) (rc_size rc)) (rm_col rm)))
    end.

(** The code after [done:], and what is left of the I/O: the repairs issued, and the
    error and the buffer its parent sees. *)
Record result := Result {
  r_error : Z;
  r_rm : raidz_map;
  r_repairs : list req;
  r_events : list event
}.
Definition finish (io : zio) (writable : bool) (d : done) : result :=
  let repair := (d_error d =? 0) && writable && (negb (d_unexpected d =? 0) || has_flag io ZIO_FLAG_RESILVER) in
  Result (d_error d) (d_rm d)
    (if repair then reqs_where (fun rc => negb (rc_error rc =? 0)) true 0 (rm_col (d_rm d)) else [])
    (d_events d).

(** Phase 2: the columns not tried yet. *)
Definition untried (rm : raidz_map) : list req :=
  reqs_where (fun rc => negb (rc_tried rc)) false 0 (rm_col rm).

Inductive next := Reread (rm : raidz_map) (reqs : list req) | Finished (r : result).

Definition vdev_raidz_io_done (writable : bool) (io : zio) (rm : raidz_map) : outcome next :=
  let f := rm_firstdatacol rm in
  _ ← verify (rm_missingparity rm <=? f);
  _ ← verify (rm_missingdata rm <=? rm_cols rm - f);
  let t := tally_cols f 0 (rm_col rm) (Tally 0 0 0 0 0 0) in
  if io_write io then
    let error := if (t_numerrors t <=? f) && negb (has_flag io ZIO_FLAG_FAILFAST) then 0 else t_error t in
    Ok (Finished (Result error rm [] []))
  else
    r ← (if t_numerrors t <=? f - t_untried t then phase1 io t rm else Ok (inr rm));
    match r with
    | inl d => Ok (Finished (finish io writable d))
    | inr rm =>
        let rm := with_missing rm 0 0 in
        match untried rm with
        | [] => d ← phase3 io t rm; Ok (Finished (finish io writable d))
        | reqs => Ok (Reread rm reqs)
        end
    end.

(** ** A read from start to end

    Between the two halves the children answer: [ans c] is the error and the data the
    read of column [c] gives. *)

Fixpoint serve (ans : Z -> Z * list Z) (reqs : list req) (rm : raidz_map) : outcome raidz_map :=
  match reqs with
  | [] => Ok rm
  | r :: reqs' =>
      rm ← set_data rm (rq_col r) (ans (rq_col r)).2;
      rm ← vdev_raidz_child_done rm (rq_col r) (ans (rq_col r)).1;
      serve ans reqs' rm
  end.

Fixpoint read_rounds (k : nat) (writable : bool) (io : zio) (ans : Z -> Z * list Z) (rm : raidz_map) : outcome result :=
  match k with
  | O => Err Fuel
  | S k' =>
      r ← vdev_raidz_io_done writable io rm;
      match r with
      | Finished r => Ok r
      | Reread rm reqs => rm ← serve ans reqs rm; read_rounds k' writable io ans rm
      end
  end.

Definition raidz_read (vd : raidz_vdev) (writable : bool) (io : zio) (birth : Z) (ans : Z -> Z * list Z) : outcome result :=
  '(rm, reqs) ← vdev_raidz_io_start zio_buf_alloc vd io birth;
  rm ← serve ans reqs rm;
  read_rounds 2 writable io ans rm.

(** The children of a write answer with errors only. *)
Fixpoint complete (error : Z -> Z) (k : nat) (c : Z) (rm : raidz_map) : outcome raidz_map :=
  match k with
  | O => Ok rm
  | S k' => rm ← vdev_raidz_child_done rm c (error c); complete error k' (c + 1) rm
  end.

(** ** Maps that differ in what was read *)

(** The block as it was written: parity matches the data; no column is empty, and
    none is longer than one before it. *)
Record written (rm0 : raidz_map) (f n pc : nat) : Prop := {
  wt_ok : rz_ok rm0 f n pc;
  wt_f : f = 1%nat \/ f = 2%nat;
  wt_n : (n <= 255)%nat;
  wt_p : rc_data (colat rm0 0) = pvec rm0 n pc;
  wt_q : f = 2%nat -> rc_data (colat rm0 1) = qvec rm0 n pc;
  wt_u64 : forall c, (c < f)%nat -> Forall is_u64 (rc_data (colat rm0 c));
  wt_pos : forall c, (c < f + n)%nat -> (0 < length (rc_data (colat rm0 c)))%nat;
  wt_ord : forall x y, (x < y)%nat -> (y < n)%nat -> rc_size (colat rm0 (f + y)) <= rc_size (colat rm0 (f + x))
}.

Section Read.
Context (rm0 : raidz_map) (f n pc : nat).
Hypothesis W : written rm0 f n pc.
Hypothesis alloc_len : forall c size, 0 <= size -> zlen (zio_buf_alloc c size) = size / 8.

(** The same layout, with words in the columns. *)
Record shape (rm : raidz_map) : Prop := {
  sh_first : rm_firstdatacol rm = Z.of_nat f;
  sh_len : length (rm_col rm) = (f + n)%nat;
  sh_col : forall c, (c < f + n)%nat ->
    rc_devidx (colat rm c) = rc_devidx (colat rm0 c) /\ rc_offset (colat rm c) = rc_offset (colat rm0 c) /\
    rc_size (colat rm c) = rc_size (colat rm0 c) /\ length (rc_data (colat rm c)) = length (rc_data (colat rm0 c)) /\
    Forall is_u64 (rc_data (colat rm c))
}.

(** Column [c] holds what was written. *)
Definition good (rm : raidz_map) (c : nat) : Prop := rc_data (colat rm c) = rc_data (colat rm0 c).

Let R0 : rz_ok rm0 f n pc := wt_ok _ _ _ _ W.
Let G0 : gen_pre rm0 f n pc := rz_gen _ _ _ _ R0.

Lemma shape_rz rm : shape rm -> rz_ok rm f n pc.
Proof.
  intros S. destruct S as [S1 S2 S3].
  assert (forall c, (c < f + n)%nat -> col_count (colat rm c) = col_count (colat rm0 c)) as Hc.
  { intros c Hc. unfold col_count. by destruct (S3 c Hc) as (_ & _ & -> & _). }
  split; [split; try apply G0|..]; try done.
  - intros c Hf. destruct (S3 c ltac:(lia)) as (_ & _ & -> & -> & _). by apply G0.
  - intros c Hn. rewrite Hc by lia. destruct (S3 (f + c)%nat ltac:(lia)) as (_ & _ & _ & -> & _). by apply G0.
  - intros c Hn. by apply S3; lia.
  - rewrite Hc by (pose proof (gp_n _ _ _ _ G0); lia). apply R0.
  - intros c Hn. destruct (S3 (f + c)%nat ltac:(lia)) as (_ & _ & -> & -> & _). by apply R0.
Qed.

Lemma shape_put rm c d :
  shape rm -> (c < f + n)%nat -> length d = length (rc_data (colat rm c)) -> Forall is_u64 d -> shape (put rm c d).
Proof.
  intros [S1 S2 S3] Hc Hl Hu. split; [done|by rewrite put_len|]. intros j Hj. rewrite colat_put by lia.
  destruct (decide (j = c)) as [->|]; [|by apply S3]. destruct (S3 c Hc) as (E1 & E2 & E3 & E4 & _).
  cbn [rc_devidx rc_offset rc_size rc_data with_data]. rewrite Hl. done.
Qed.

Lemma good_put rm c d j : shape rm -> (c < f + n)%nat -> j <> c -> good (put rm c d) j <-> good rm j.
Proof. intros S Hc Hj. unfold good. rewrite colat_put_ne by (rewrite ?(sh_len _ S); done). done. Qed.

(** The map with every data column put right. *)
Definition heal (rm : raidz_map) : raidz_map :=
  set_cols rm (map (fun c => if decide (c < f)%nat then colat rm c else with_data (colat rm c) (rc_data (colat rm0 c)))
    (seq 0 (f + n))).

Lemma heal_len rm : length (rm_col (heal rm)) = (f + n)%nat.
Proof. cbn. by rewrite length_map, length_seq. Qed.

Lemma colat_heal rm c :
  (c < f + n)%nat ->
  colat (heal rm) c = if decide (c < f)%nat then colat rm c else with_data (colat rm c) (rc_data (colat rm0 c)).
Proof. intros Hc. exact (colat_cols_at 0 0 0 (f + n) _ c Hc). Qed.

Lemma shape_heal rm : shape rm -> shape (heal rm).
Proof.
  intros [S1 S2 S3]. split; [done|apply heal_len|]. intros c Hc. rewrite colat_heal by done.
  destruct (decide _); [by apply S3|]. destruct (S3 c Hc) as (E1 & E2 & E3 & E4 & _). cbn. split_and!; try done.
  replace c with (f + (c - f))%nat by lia. apply (gp_u64 _ _ _ _ G0). lia.
Qed.

Lemma good_heal rm c : (f <= c < f + n)%nat -> good (heal rm) c.
Proof. intros Hc. unfold good. rewrite colat_heal by lia. by destruct (decide _); [lia|]. Qed.

(** Words of the data columns, where they are good. *)
Lemma dat_good rm i c : shape rm -> (c < n)%nat -> good rm (f + c) -> dat rm i c = dat rm0 i c.
Proof.
  intros S Hc Hg. rewrite (dat_at _ _ _ _ i c (rz_gen _ _ _ _ (shape_rz _ S))), (dat_at _ _ _ _ i c G0). rewrite Hg.
  unfold col_count. by destruct (sh_col _ S (f + c)%nat ltac:(lia)) as (_ & _ & -> & _).
Qed.

Lemma heal_vec rm : shape rm -> pvec (heal rm) n pc = pvec rm0 n pc /\ qvec (heal rm) n pc = qvec rm0 n pc.
Proof.
  intros S. unfold pvec, qvec. split; apply map_ext; intros i; [apply xs_ext|apply hs_ext]; intros c Hc;
    (apply dat_good; [by apply shape_heal|done|apply good_heal; lia]).
Qed.

(** One bad data column: the rest is the healed map. *)
Lemma one_bad rm x :
  shape rm -> (x < n)%nat -> (forall c, (c < n)%nat -> c <> x -> good rm (f + c)) ->
  rm = put (heal rm) (f + x) (rc_data (colat rm (f + x))).
Proof.
  intros S Hx Hg. apply rmap_ext; [by destruct rm|by rewrite put_len, heal_len, (sh_len _ S)|]. intros c Hc.
  rewrite (sh_len _ S) in Hc. rewrite colat_put by (rewrite heal_len; lia). rewrite !colat_heal by lia.
  destruct (decide (c = (f + x)%nat)) as [->|Hne].
  - destruct (decide _); [lia|]. by destruct (colat rm (f + x)).
  - destruct (decide _); [done|]. specialize (Hg (c - f)%nat ltac:(lia) ltac:(lia)).
    replace (f + (c - f))%nat with c in Hg by lia. unfold good in Hg. rewrite <- Hg. by destruct (colat rm c).
Qed.

Lemma one_damaged rm x :
  shape rm -> (x < n)%nat -> (forall c, (c < n)%nat -> c <> x -> good rm (f + c)) -> damaged (heal rm) rm f n pc x.
Proof.
  intros S Hx Hg. split; [by apply shape_rz, shape_heal|done|]. exists (rc_data (colat rm (f + x))).
  split_and!; [by apply one_bad| |by apply S; lia]. rewrite colat_heal by lia. destruct (decide _); [lia|].
  cbn. by destruct (sh_col _ S (f + x)%nat ltac:(lia)) as (_ & _ & _ & -> & _).
Qed.

Lemma healed_len rm x : (x < n)%nat -> length (rc_data (colat (heal rm) (f + x))) = length (rc_data (colat rm0 (f + x))).
Proof. intros Hx. rewrite colat_heal by lia. by destruct (decide _); [lia|]. Qed.

Lemma heals_p rm x :
  shape rm -> (x < n)%nat -> good rm 0 -> (forall c, (c < n)%nat -> c <> x -> good rm (f + c)) ->
  vdev_raidz_reconstruct_p rm (Z.of_nat (f + x)) = Ok (heal rm).
Proof.
  intros S Hx HP Hg. pose proof (gp_f _ _ _ _ G0). apply (reconstruct_p_spec _ _ f n pc); [by apply one_damaged| |].
  - apply (pvec_words _ f n pc x); [by apply shape_rz, shape_heal|done|]. rewrite (proj1 (heal_vec rm S)).
    rewrite colat_heal by lia. destruct (decide _); [|lia]. rewrite HP. apply W.
  - rewrite healed_len by done. apply (wt_pos _ _ _ _ W). lia.
Qed.

Lemma heals_q rm x :
  f = 2%nat -> shape rm -> (x < n)%nat -> good rm 1 -> (forall c, (c < n)%nat -> c <> x -> good rm (f + c)) ->
  vdev_raidz_reconstruct_q rm (Z.of_nat (f + x)) = Ok (heal rm).
Proof.
  intros Ef S Hx HQ Hg. pose proof (one_damaged rm x S Hx Hg) as D. pose proof (proj2 (heal_vec rm S)) as Ev.
  assert (rc_data (colat (heal rm) 1) = qvec rm0 n pc) as Eq.
  { rewrite colat_heal by lia. destruct (decide _); [|lia]. rewrite HQ. by apply (wt_q _ _ _ _ W). }
  pose proof (shape_rz _ (shape_heal _ S)) as Rh. rewrite Ef in D, Rh |- *.
  apply (reconstruct_q_spec _ _ n pc); [done| |apply W]. apply (qvec_words _ n pc x); [done|done|]. by rewrite Ev.
Qed.

(** Two bad data columns. *)
Lemma two_bad rm x y :
  shape rm -> (x < y)%nat -> (y < n)%nat -> (forall c, (c < n)%nat -> c <> x -> c <> y -> good rm (f + c)) ->
  rm = put (put (heal rm) (f + x) (rc_data (colat rm (f + x)))) (f + y) (rc_data (colat rm (f + y))).
Proof.
  intros S Hx Hy Hg. apply rmap_ext; [by destruct rm|by rewrite !put_len, heal_len, (sh_len _ S)|]. intros c Hc.
  rewrite (sh_len _ S) in Hc. rewrite !colat_put by (rewrite ?put_len, heal_len; lia). rewrite !colat_heal by lia.
  destruct (decide (c = (f + y)%nat)) as [->|].
  { destruct (decide _); [lia|]. destruct (decide _); [lia|]. by destruct (colat rm (f + y)). }
  destruct (decide (c = (f + x)%nat)) as [->|].
  { destruct (decide _); [lia|]. by destruct (colat rm (f + x)). }
  destruct (decide _); [done|]. specialize (Hg (c - f)%nat ltac:(lia) ltac:(lia) ltac:(lia)).
  replace (f + (c - f))%nat with c in Hg by lia. unfold good in Hg. rewrite <- Hg. by destruct (colat rm c).
Qed.

Lemma parity_alloc rm c tag :
  shape rm -> (c < f)%nat -> length (zio_buf_alloc tag (rc_size (colat rm c))) = pc.
Proof.
  intros S Hc. destruct (gp_p _ _ _ _ (rz_gen _ _ _ _ (shape_rz _ S)) c Hc) as [-> _].
  pose proof (alloc_len tag (8 * Z.of_nat pc) ltac:(lia)) as E. rewrite Z.mul_comm, Z.div_mul in E by lia.
  rewrite Z.mul_comm. lia.
Qed.

Lemma reconstruct_pq_eq rm x y :
  f = 2%nat -> shape rm ->
  exists newp newq, length newp = pc /\ length newq = pc /\ reconstruct_pq rm x y = vdev_raidz_reconstruct_pq newp newq rm x y.
Proof.
  intros Ef S. pose proof (sh_len _ S). pose proof (parity_alloc rm 0 (x * 2 ^ 32 + 2 * y) S ltac:(lia)).
  pose proof (parity_alloc rm 1 (x * 2 ^ 32 + 2 * y + 1) S ltac:(lia)).
  unfold reconstruct_pq. change VDEV_RAIDZ_P with (Z.of_nat 0). change VDEV_RAIDZ_Q with (Z.of_nat 1).
  rewrite !get_col_at by lia. run. eexists _, _. split_and!; [| |done]; done.
Qed.

Lemma heals_pq rm x y :
  f = 2%nat -> shape rm -> (x < y)%nat -> (y < n)%nat -> good rm 0 -> good rm 1 ->
  (forall c, (c < n)%nat -> c <> x -> c <> y -> good rm (f + c)) ->
  reconstruct_pq rm (Z.of_nat (f + x)) (Z.of_nat (f + y)) = Ok (heal rm).
Proof.
  intros Ef S Hxy Hy HP HQ Hg. destruct (reconstruct_pq_eq rm (Z.of_nat (f + x)) (Z.of_nat (f + y)) Ef S) as (newp & newq & Lp & Lq & ->).
  pose proof (two_bad rm x y S Hxy Hy Hg) as E2. pose proof (heal_vec rm S) as [Ep Eq].
  pose proof (shape_rz _ (shape_heal _ S)) as Rh. pose proof (wt_n _ _ _ _ W).
  pose proof (sh_col _ S (f + x)%nat ltac:(lia)) as (_ & _ & Sx & Lx & Ux). pose proof (sh_col _ S (f + y)%nat ltac:(lia)) as (_ & _ & Sy & Ly & Uy).
  pose proof (wt_ord _ _ _ _ W x y Hxy Hy) as Hord.
  assert (rc_data (colat (heal rm) 0) = pvec (heal rm) n pc) as E0.
  { rewrite Ep, colat_heal by lia. destruct (decide _); [|lia]. rewrite HP. apply W. }
  assert (rc_data (colat (heal rm) 1) = qvec (heal rm) n pc) as E1.
  { rewrite Eq, colat_heal by lia. destruct (decide _); [|lia]. rewrite HQ. by apply (wt_q _ _ _ _ W). }
  pose proof (healed_len rm x ltac:(lia)) as Hx. pose proof (healed_len rm y Hy) as Hy'.
  assert (rc_size (colat (heal rm) (f + y)) <= rc_size (colat (heal rm) (f + x))) as Ho.
  { rewrite !colat_heal by lia. repeat destruct (decide _); try lia. cbn [rc_size with_data]. lia. }
  rewrite E2 at 1. rewrite Ef in *.
  apply (reconstruct_pq_spec (heal rm) n pc x y _ _ newp newq); try done; congruence.
Qed.

(** Any attempt returns and stays within the columns it is for. *)
Lemma parity_u64 rm c : shape rm -> (c < f)%nat -> Forall is_u64 (rc_data (colat rm c)).
Proof. intros S Hc. apply S. lia. Qed.

Lemma total_p rm x :
  shape rm -> (x < n)%nat -> exists d, vdev_raidz_reconstruct_p rm (Z.of_nat (f + x)) = Ok (put rm (f + x) d) /\
    length d = length (rc_data (colat rm (f + x))) /\ Forall is_u64 d.
Proof.
  intros S Hx. pose proof (gp_f _ _ _ _ G0). apply (reconstruct_p_total rm f n pc); [by apply shape_rz|done| |by apply parity_u64].
  destruct (sh_col _ S (f + x)%nat ltac:(lia)) as (_ & _ & _ & -> & _). apply (wt_pos _ _ _ _ W). lia.
Qed.

Lemma total_q rm x :
  f = 2%nat -> shape rm -> (x < n)%nat -> exists d, vdev_raidz_reconstruct_q rm (Z.of_nat (f + x)) = Ok (put rm (f + x) d) /\
    length d = length (rc_data (colat rm (f + x))) /\ Forall is_u64 d.
Proof.
  intros Ef S Hx. pose proof (parity_u64 rm 1 S ltac:(lia)). pose proof (shape_rz _ S) as R. rewrite Ef in *.
  apply (reconstruct_q_total rm n pc); try done. apply W.
Qed.

Lemma total_pq rm x y :
  f = 2%nat -> shape rm -> (x < y)%nat -> (y < n)%nat ->
  exists dx dy, reconstruct_pq rm (Z.of_nat (f + x)) (Z.of_nat (f + y)) = Ok (put (put rm (f + x) dx) (f + y) dy) /\
    length dx = length (rc_data (colat rm (f + x))) /\ length dy = length (rc_data (colat rm (f + y))) /\ Forall is_u64 dx /\ Forall is_u64 dy.
Proof.
  intros Ef S Hxy Hy. destruct (reconstruct_pq_eq rm (Z.of_nat (f + x)) (Z.of_nat (f + y)) Ef S) as (newp & newq & Lp & Lq & ->).
  pose proof (shape_rz _ S) as R. pose proof (wt_n _ _ _ _ W).
  pose proof (wt_ord _ _ _ _ W x y Hxy Hy) as Hord.
  destruct (sh_col _ S (f + x)%nat ltac:(lia)) as (_ & _ & Ex & _). destruct (sh_col _ S (f + y)%nat ltac:(lia)) as (_ & _ & Ey & _).
  rewrite <- Ex, <- Ey in Hord. rewrite Ef in *. by apply (reconstruct_pq_total rm n pc).
Qed.

(** The buffer of the I/O. *)
Lemma buffer_eq rm rm' :
  shape rm -> shape rm' -> (forall c, (c < n)%nat -> rc_data (colat rm (f + c)) = rc_data (colat rm' (f + c))) ->
  io_buffer rm = io_buffer rm'.
Proof.
  intros S S' H. unfold io_buffer. rewrite (sh_first _ S), (sh_first _ S'), Nat2Z.id. f_equal.
  apply (list_eq_same_length _ _ n); rewrite ?length_map, ?length_drop, ?(sh_len _ S), ?(sh_len _ S'); try lia.
  intros i a b Hi Ha Hb. rewrite list_lookup_fmap, lookup_drop in Ha, Hb.
  destruct (rm_col rm !! (f + i)%nat) as [ca|] eqn:Ea; [|done]. destruct (rm_col rm' !! (f + i)%nat) as [cb|] eqn:Eb; [|done].
  cbn in Ha, Hb. injection Ha as <-. injection Hb as <-. specialize (H i Hi). unfold colat in H.
  by rewrite (nth_lookup_Some _ _ _ _ Ea), (nth_lookup_Some _ _ _ _ Eb) in H.
Qed.

Lemma shape_rm0 : shape rm0.
Proof.
  split; [apply G0|apply G0|]. intros c Hc. split_and!; try done. destruct (decide (c < f)%nat); [by apply (wt_u64 _ _ _ _ W)|].
  replace c with (f + (c - f))%nat by lia. apply (gp_u64 _ _ _ _ G0). lia.
Qed.

Hypothesis accepts : zio_checksum_error (io_buffer rm0) = 0.

Lemma accepted_good rm : shape rm -> (forall c, (c < n)%nat -> good rm (f + c)) -> accepted rm = true.
Proof.
  intros S Hg. unfold accepted. rewrite (buffer_eq rm rm0 S shape_rm0 Hg), accepts. done.
Qed.

Lemma accepted_heal rm : shape rm -> accepted (heal rm) = true.
Proof. intros S. apply accepted_good; [by apply shape_heal|]. intros c Hc. apply good_heal. lia. Qed.

Lemma accepted_eq rm rm' :
  shape rm -> shape rm' -> (forall c, (c < n)%nat -> rc_data (colat rm (f + c)) = rc_data (colat rm' (f + c))) ->
  accepted rm = accepted rm'.
Proof. intros S S' H. unfold accepted. by rewrite (buffer_eq rm rm' S S' H). Qed.

(** Changing the status of a column changes nothing else. *)
Lemma colat_set_col rm c rc j :
  (c < length (rm_col rm))%nat -> colat (set_col rm (Z.of_nat c) rc) j = if decide (j = c) then rc else colat rm j.
Proof. intros Hc. unfold colat at 1, set_col. rewrite Nat2Z.id. cbn [rm_col set_cols]. by rewrite nth_insert. Qed.

Lemma status_data rm c e tr sk j :
  (c < length (rm_col rm))%nat ->
  rc_data (colat (set_col rm (Z.of_nat c) (with_status (colat rm c) e tr sk)) j) = rc_data (colat rm j).
Proof. intros Hc. rewrite colat_set_col by done. by destruct (decide _) as [->|]. Qed.

Lemma shape_status rm c e tr sk :
  shape rm -> (c < f + n)%nat -> shape (set_col rm (Z.of_nat c) (with_status (colat rm c) e tr sk)).
Proof.
  intros [S1 S2 S3] Hc. split; [done|by cbn; rewrite length_insert|]. intros j Hj. rewrite colat_set_col by lia.
  destruct (decide (j = c)) as [->|]; by apply S3.
Qed.

(** ** Counting errors *)

Definition bad_status (rm : raidz_map) (c : nat) : Prop := rc_error (colat rm c) <> 0.
Definition errs (rm : raidz_map) (a k : nat) : list nat := filter (bad_status rm) (seq a k).
Definition nerr (rm : raidz_map) (a k : nat) : Z := zlen (errs rm a k).
Definition unread (rm : raidz_map) (c : nat) : Prop := rc_error (colat rm c) = 0 /\ rc_tried (colat rm c) = false.
Definition nunread (rm : raidz_map) (k : nat) : Z := zlen (filter (unread rm) (seq 0 k)).

Lemma nerr_S rm a k : nerr rm a (S k) = nerr rm a k + (if decide (bad_status rm (a + k)) then 1 else 0).
Proof.
  unfold nerr, errs. rewrite seq_S, filter_app, length_app. cbn [filter list_filter]. destruct (decide _); cbn; lia.
Qed.
Lemma nunread_S rm k : nunread rm (S k) = nunread rm k + (if decide (unread rm k) then 1 else 0).
Proof.
  unfold nunread. rewrite seq_S, filter_app, length_app. cbn [filter list_filter]. destruct (decide _); cbn; lia.
Qed.

Lemma tally_app c l rc t : tally_cols (Z.of_nat f) c (l ++ [rc]) t = tally_col (Z.of_nat f) (c + zlen l) rc (tally_cols (Z.of_nat f) c l t).
Proof.
  revert c t. induction l as [|r l IH]; intros c t; cbn [app tally_cols length]; [by rewrite Z.add_0_r|].
  rewrite IH. f_equal. lia.
Qed.

Definition tally_of (rm : raidz_map) : tally := tally_cols (rm_firstdatacol rm) 0 (rm_col rm) (Tally 0 0 0 0 0 0).

Record tally_ok (rm : raidz_map) (k : nat) (t : tally) : Prop := {
  ty_parity : t_parity_errors t = nerr rm 0 (Nat.min k f);
  ty_data : t_data_errors t = nerr rm f (k - f);
  ty_num : t_numerrors t = t_parity_errors t + t_data_errors t;
  ty_untried : t_untried t = nunread rm (Nat.min k f);
  ty_error : 0 < t_numerrors t <-> t_error t <> 0
}.

Ltac tally_cases :=
  repeat match goal with
  | |- context [decide ?P] => let Hd := fresh in destruct (decide P) as [Hd|Hd]; unfold bad_status, unread in Hd
  | |- context [if ?a =? ?b then _ else _] => destruct (Z.eqb_spec a b)
  end; try congruence; try lia; try (unfold EIO in *; lia); try (destruct_and?; congruence); try naive_solver.

Lemma tally_step rm k t :
  tally_ok rm k t -> tally_ok rm (S k) (tally_col (Z.of_nat f) (Z.of_nat k) (colat rm k) t).
Proof.
  intros [T1 T2 T3 T4 T5]. assert (0 <= t_numerrors t) as Hnn by (rewrite T3, T1, T2; unfold nerr; lia).
  unfold tally_col. destruct (Z.ltb_spec (Z.of_nat k) (Z.of_nat f)) as [Hk|Hk].
  - assert (Nat.min (S k) f = S k /\ Nat.min k f = k /\ (S k - f)%nat = 0%nat /\ (k - f)%nat = 0%nat) as (E1 & E2 & E3 & E4) by lia.
    rewrite E2 in T1, T4. rewrite E4 in T2.
    destruct (Z.eqb_spec (rc_error (colat rm k)) 0) as [He|He], (rc_tried (colat rm k)) eqn:Ht; cbn [negb andb];
      split; cbn [t_error t_numerrors t_parity_errors t_data_errors t_untried]; rewrite ?E1, ?E3, ?nerr_S, ?nunread_S, ?Nat.add_0_l; tally_cases.
  - assert (Nat.min (S k) f = f /\ Nat.min k f = f /\ (S k - f)%nat = S (k - f) /\ (f + (k - f))%nat = k) as (E1 & E2 & E3 & E4) by lia.
    rewrite E2 in T1, T4.
    destruct (Z.eqb_spec (rc_error (colat rm k)) 0) as [He|He]; cbn [negb andb];
      split; cbn [t_error t_numerrors t_parity_errors t_data_errors t_untried]; rewrite ?E1, ?E3, ?nerr_S, ?E4; tally_cases.
Qed.

Lemma take_S_colat rm k : (k < length (rm_col rm))%nat -> take (S k) (rm_col rm) = take k (rm_col rm) ++ [colat rm k].
Proof.
  intros Hk. destruct (lookup_lt_is_Some_2 _ _ Hk) as [rc Hrc]. rewrite (take_S_r _ _ _ Hrc). unfold colat.
  by rewrite (nth_lookup_Some _ _ _ _ Hrc).
Qed.

Lemma tally_spec rm : shape rm -> tally_ok rm (f + n) (tally_of rm).
Proof.
  intros S. unfold tally_of. rewrite (sh_first _ S). rewrite <- (take_ge (rm_col rm) (f + n)) by (rewrite (sh_len _ S); done).
  assert (forall k, (k <= f + n)%nat -> tally_ok rm k (tally_cols (Z.of_nat f) 0 (take k (rm_col rm)) (Tally 0 0 0 0 0 0))) as H; [|by apply H].
  induction k as [|k IH]; intros Hk; [by split|]. rewrite take_S_colat by (rewrite (sh_len _ S); lia).
  rewrite tally_app, length_take, (sh_len _ S), Nat.min_l, Z.add_0_l by lia. apply tally_step, IH. lia.
Qed.

(** ** Verifying parity *)

Lemma vec_u64 rm : shape rm -> Forall is_u64 (pvec rm n pc) /\ Forall is_u64 (qvec rm n pc).
Proof.
  intros S. pose proof (rz_gen _ _ _ _ (shape_rz _ S)) as G. unfold pvec, qvec.
  split; apply List.Forall_map, List.Forall_forall; intros i _; destruct (dat_all_u64 rm f n pc i G) as (d & Hu & Hd).
  - rewrite (xs_ext _ d n Hd). by apply xs_u64.
  - rewrite (hs_ext _ d n Hd). by apply hs_u64.
Qed.

(** Only data of parity columns may differ. *)
Definition parity_only (rm rm' : raidz_map) : Prop :=
  forall c, exists d, colat rm' c = with_data (colat rm c) d /\ ((f <= c)%nat -> colat rm' c = colat rm c).

Lemma parity_only_put rm c d : shape rm -> (c < f)%nat -> parity_only rm (put rm c d).
Proof.
  intros S Hc j. rewrite colat_put by (rewrite (sh_len _ S); lia). destruct (decide (j = c)) as [->|].
  - exists d. split; [done|lia].
  - exists (rc_data (colat rm j)). split; [by destruct (colat rm j)|done].
Qed.

Lemma parity_len rm c : shape rm -> (c < f)%nat -> length (rc_data (colat rm c)) = pc.
Proof. intros S Hc. by apply (gp_p _ _ _ _ (rz_gen _ _ _ _ (shape_rz _ S))). Qed.

Lemma generate_spec rm : shape rm -> exists rm', generate_parity rm = Ok rm' /\ shape rm' /\ parity_only rm rm'.
Proof.
  intros S. pose proof (shape_rz _ S) as R. destruct (vec_u64 rm S) as [Up Uq].
  unfold generate_parity. rewrite (sh_first _ S). destruct (wt_f _ _ _ _ W) as [Ef|Ef].
  - assert (Z.of_nat f =? 1 = true) as -> by lia. eexists.
    split; [by apply (generate_p_spec rm f n pc); apply R|].
    split; [|apply parity_only_put; [done|lia]]. apply shape_put; [done|lia| |done]. rewrite pvec_len, parity_len; [done|done|lia].
  - assert (Z.of_nat f =? 1 = false) as -> by lia. eexists.
    split; [apply (generate_pq_spec rm n pc); rewrite Ef in R; [apply R|left; apply R]|].
    assert (shape (put rm 0 (pvec rm n pc))) as S1.
    { apply shape_put; [done|lia| |done]. rewrite pvec_len, parity_len; [done|done|lia]. }
    split.
    + apply shape_put; [done|lia| |done]. rewrite qvec_len, parity_len; [done|done|lia].
    + intros c. destruct (parity_only_put rm 0 (pvec rm n pc) S ltac:(lia) c) as (d1 & E1 & H1).
      destruct (parity_only_put _ 1 (qvec rm n pc) S1 ltac:(lia) c) as (d2 & E2 & H2).
      exists d2. split; [by rewrite E2, E1|]. intros Hc. by rewrite H2, H1.
Qed.

Lemma verify_spec io rm :
  shape rm -> exists rm' k ev, raidz_parity_verify io rm = Ok (rm', k, ev) /\ shape rm' /\
    (forall c, (c < n)%nat -> rc_data (colat rm' (f + c)) = rc_data (colat rm (f + c))) /\ k + nerr rm 0 f <= Z.of_nat f.
Proof.
  intros Sh. destruct (generate_spec rm Sh) as (rm1 & E1 & S1 & P1). unfold raidz_parity_verify. rewrite E1. run.
  rewrite (sh_first _ Sh), Nat2Z.id.
  destruct (for_cols_spec (fun j st => let '(rm', k, ev) := st in shape rm' /\
      (forall c, (f <= c)%nat -> colat rm' c = colat rm c) /\ k + nerr rm 0 j <= Z.of_nat j /\
      (forall c, (j <= c < f)%nat -> rc_tried (colat rm' c) = rc_tried (colat rm c) /\ rc_error (colat rm' c) = rc_error (colat rm c)))
    f 0 (verify_col io rm) (rm1, 0, [])) as ([[rm' k] ev] & E & S' & Hd & Hk & _).
  - split_and!; [done| | |].
    + intros c Hc. by destruct (P1 c) as (d & _ & ->).
    + done.
    + intros c _. by destruct (P1 c) as (d & -> & _).
  - intros j [[rm2 k] ev] Hj (S2 & Hd & Hk & Hst). rewrite Z.add_0_l. unfold verify_col.
    rewrite (get_col_at rm2) by (rewrite (sh_len _ S2); lia). run. destruct (Hst j ltac:(lia)) as [Et Ee].
    assert (forall c, (S j <= c < f)%nat -> rc_tried (colat rm2 c) = rc_tried (colat rm c) /\ rc_error (colat rm2 c) = rc_error (colat rm c)) as Hst'
      by (intros; apply Hst; lia).
    pose proof (nerr_S rm 0 j) as En. rewrite Nat.add_0_l in En.
    destruct (negb (rc_tried (colat rm2 j)) || negb (rc_error (colat rm2 j) =? 0)) eqn:Eb.
    { eexists. split; [done|]. split_and!; [done|done| |done]. destruct (decide _); lia. }
    b2p. assert (~ bad_status rm j) as Hnb by (unfold bad_status; lia). destruct (decide _); [done|].
    rewrite get_col_at by (rewrite (sh_len _ Sh); lia). run.
    destruct (bcmp _ _ _); (eexists; split; [reflexivity|]); [|split_and!; [done|done|lia|done]].
    split_and!; [apply shape_status; [done|lia]|..].
    + intros c Hc. rewrite colat_set_col by (rewrite (sh_len _ S2); lia). destruct (decide _); [lia|by apply Hd].
    + lia.
    + intros c Hc. rewrite colat_set_col by (rewrite (sh_len _ S2); lia). destruct (decide _); [lia|by apply Hst'].
  - exists rm', k, ev. split_and!; [done|done| |done]. intros c Hc. by rewrite Hd by lia.
Qed.

(** ** Finding the columns with errors *)

Lemma errs_cons rm a k c l :
  errs rm a k = c :: l -> (a <= c < a + k)%nat /\ bad_status rm c /\ l = errs rm (S c) (a + k - S c).
Proof.
  unfold errs. revert a. induction k as [|k IH]; intros a; [done|]. cbn [seq]. rewrite filter_cons.
  destruct (decide (bad_status rm a)) as [Hb|Hb].
  - intros [= <- <-]. split_and!; [lia|lia|done|]. by replace (a + S k - S a)%nat with k by lia.
  - intros E. destruct (IH (S a) E) as (H1 & H2 & ->). split_and!; [lia|lia|done|]. do 2 f_equal. lia.
Qed.

Lemma find_error_spec rm a k c l :
  errs rm a k = c :: l -> (a + k <= length (rm_col rm))%nat -> find_error k rm (Z.of_nat a) = Ok (Z.of_nat c).
Proof.
  unfold errs. revert a. induction k as [|k IH]; intros a; [done|]. cbn [seq find_error]. rewrite filter_cons.
  intros E Hl. rewrite get_col_at by lia. run. destruct (decide (bad_status rm a)) as [Hb|Hb]; unfold bad_status in Hb.
  - injection E as <- _. destruct (Z.eqb_spec (rc_error (colat rm a)) 0); [lia|done].
  - destruct (Z.eqb_spec (rc_error (colat rm a)) 0); [|lia]. cbn [negb]. replace (Z.of_nat a + 1) with (Z.of_nat (S a)) by lia.
    apply IH; [done|lia].
Qed.

(** A column is skipped only when its child is dead or misses the block. *)
Definition skips (rm : raidz_map) : Prop :=
  forall c, (c < f + n)%nat -> rc_skipped (colat rm c) = true -> rc_error (colat rm c) = ENXIO \/ rc_error (colat rm c) = ESTALE.

Lemma bad_column_spec rm a c l :
  shape rm -> skips rm -> (a <= f + n)%nat -> errs rm a (f + n - a) = c :: l -> bad_column rm (Z.of_nat a) = Ok (Z.of_nat c).
Proof.
  intros S Hs Ha E. destruct (errs_cons _ _ _ _ _ E) as (Hc & Hb & _). unfold bad_column, rm_cols. rewrite (sh_len _ S).
  replace (Z.to_nat (Z.of_nat (f + n) - Z.of_nat a)) with (f + n - a)%nat by lia.
  rewrite (find_error_spec _ _ _ _ _ E) by (rewrite (sh_len _ S); lia). run.
  rewrite (proj2 (Z.eqb_neq (Z.of_nat c) (Z.of_nat (f + n)))) by lia. cbn [verify negb]. run.
  rewrite get_col_at by (rewrite (sh_len _ S); lia). run.
  assert (negb (rc_skipped (colat rm c)) || (rc_error (colat rm c) =? ENXIO) || (rc_error (colat rm c) =? ESTALE) = true) as ->; [|done].
  destruct (rc_skipped (colat rm c)) eqn:Es; [|done]. destruct (Hs c ltac:(lia) Es) as [-> | ->]; done.
Qed.

(** ** Phase 1 *)

(** Success: no error, and a buffer the checksum accepts. *)
Definition done_ok (d : done) : Prop := d_error d = 0 /\ shape (d_rm d) /\ accepted (d_rm d) = true.

(** Only columns with errors may hold something else. *)
Record touched (rm rm' : raidz_map) : Prop := {
  tc_shape : shape rm';
  tc_status : forall c, exists d, colat rm' c = with_data (colat rm c) d;
  tc_same : forall c, ~ bad_status rm c -> colat rm' c = colat rm c;
  tc_fields : set_cols rm' [] = set_cols rm []
}.

Lemma touched_refl rm : shape rm -> touched rm rm.
Proof. intros S. split; [done| |done|done]. intros c. exists (rc_data (colat rm c)). by destruct (colat rm c). Qed.

Lemma touched_put rm rm' c d :
  touched rm rm' -> (c < f + n)%nat -> bad_status rm c -> length d = length (rc_data (colat rm' c)) -> Forall is_u64 d ->
  touched rm (put rm' c d).
Proof.
  intros [S Ht Hs Hf] Hc Hb Hl Hu. split; [by apply shape_put|..|done].
  - intros j. rewrite colat_put by (rewrite (sh_len _ S); lia). destruct (decide (j = c)) as [->|]; [|apply Ht].
    destruct (Ht c) as (d' & ->). by exists d.
  - intros j Hj. rewrite colat_put by (rewrite (sh_len _ S); lia). destruct (decide (j = c)) as [->|]; [done|by apply Hs].
Qed.

Lemma verify_parity_spec io t needed rm :
  shape rm -> accepted rm = true -> t_parity_errors t = nerr rm 0 f ->
  exists d, verify_parity io t needed rm = Ok d /\ done_ok d.
Proof.
  intros S Ha Ht. unfold verify_parity. destruct (needed || has_flag io ZIO_FLAG_RESILVER); [|by eexists].
  destruct (verify_spec io rm S) as (rm' & k & ev & -> & S' & Hd & Hk). run.
  rewrite (sh_first _ S'), (proj2 (Z.leb_le _ _)) by lia. cbn [verify]. run. eexists. split; [done|]. split_and!; [done|done|].
  cbn [d_rm]. rewrite (accepted_eq rm' rm S' S Hd). done.
Qed.

(** The errors seen account for every bad column phase 1 depends on. *)
Definition certain (rm : raidz_map) : Prop :=
  (forall c, (c < n)%nat -> ~ bad_status rm (f + c) -> good rm (f + c)) /\
  (errs rm f n = [] \/ forall c, (c < f)%nat -> ~ bad_status rm c -> good rm c).

Lemma in_errs rm a k c : In c (errs rm a k) <-> (a <= c < a + k)%nat /\ bad_status rm c.
Proof. rewrite <- list_elem_of_In. unfold errs. rewrite list_elem_of_filter, list_elem_of_In, in_seq. tauto. Qed.

Definition phase1_ok (rm : raidz_map) (r : done + raidz_map) : Prop :=
  match r with inl d => done_ok d | inr rm' => touched rm rm' /\ ~ certain rm end.

Lemma phase1_none io rm :
  shape rm -> errs rm f n = [] -> exists r, phase1 io (tally_of rm) rm = Ok r /\ phase1_ok rm r.
Proof.
  intros S E. pose proof (tally_spec rm S) as [T1 T2 _ _ _]. replace (f + n - f)%nat with n in T2 by lia. rewrite Nat.min_r in T1 by lia.
  unfold phase1. assert (t_data_errors (tally_of rm) =? 0 = true) as -> by (rewrite T2; unfold nerr; by rewrite E).
  destruct (accepted rm) eqn:Ea.
  - destruct (verify_parity_spec io (tally_of rm) (t_parity_errors (tally_of rm) + t_untried (tally_of rm) <? rm_firstdatacol rm) rm S Ea T1) as (d & -> & Hd).
    run. by eexists.
  - eexists. split; [done|]. split; [by apply touched_refl|]. intros [Hg _].
    rewrite accepted_good in Ea; [done|done|]. intros c Hc. apply Hg; [done|]. intros Hb.
    assert (In (f + c)%nat (errs rm f n)) as Hin by (apply in_errs; split; [lia|done]). by rewrite E in Hin.
Qed.

(** With fewer errors than parity columns, P is good or there is a good Q. *)
Lemma parity_left rm :
  nerr rm 0 f < Z.of_nat f -> bad_status rm 0 -> f = 2%nat /\ ~ bad_status rm 1.
Proof.
  intros Hp Hb. pose proof (nerr_S rm 0 0) as H0. pose proof (nerr_S rm 0 1) as H1. cbn [Nat.add] in H0, H1.
  change (nerr rm 0 0) with 0 in H0. destruct (decide (bad_status rm 0)); [|done].
  destruct (wt_f _ _ _ _ W) as [Ef|Ef]; rewrite Ef in Hp; [lia|]. split; [done|]. destruct (decide (bad_status rm 1)); [lia|done].
Qed.

Definition rec_one (rm : raidz_map) (c : Z) : outcome raidz_map :=
  if rc_error (colat rm 0) =? 0 then vdev_raidz_reconstruct_p rm c
  else _ ← verify (1 <? Z.of_nat f); vdev_raidz_reconstruct_q rm c.

Lemma rec_one_spec rm c :
  shape rm -> errs rm f n = [c] -> nerr rm 0 f < Z.of_nat f ->
  exists d, rec_one rm (Z.of_nat c) = Ok (put rm c d) /\ length d = length (rc_data (colat rm c)) /\ Forall is_u64 d /\
    (certain rm -> put rm c d = heal rm).
Proof.
  intros S E Hp. destruct (errs_cons _ _ _ _ _ E) as (Hc & Hb & _).
  set (x := (c - f)%nat). assert (c = (f + x)%nat) as Ec by lia. assert (x < n)%nat as Hx by lia. rewrite Ec. unfold rec_one.
  assert (certain rm -> (forall j, (j < n)%nat -> j <> x -> good rm (f + j)) /\ forall j, (j < f)%nat -> ~ bad_status rm j -> good rm j) as Hcert.
  { intros [Hg [He|Hpar]]; [by rewrite He in E|]. split; [|done]. intros j Hj Hne. apply Hg; [done|]. intros Hbj.
    assert (In (f + j)%nat (errs rm f n)) as Hin by (apply in_errs; split; [lia|done]). rewrite E in Hin. destruct Hin as [|[]]. lia. }
  pose proof (gp_f _ _ _ _ G0) as Hf. destruct (Z.eqb_spec (rc_error (colat rm 0)) 0) as [Ep|Ep].
  - destruct (total_p rm x S Hx) as (d & Er & Hl & Hu). exists d. split_and!; [done|done|done|]. intros [Hg Hpar]%Hcert.
    rewrite (heals_p rm x S Hx) in Er; [congruence| |done]. apply Hpar; [lia|]. unfold bad_status. lia.
  - destruct (parity_left rm Hp Ep) as [Ef Hq]. rewrite (proj2 (Z.ltb_lt 1 (Z.of_nat f))) by lia. cbn [verify]. run.
    destruct (total_q rm x Ef S Hx) as (d & Er & Hl & Hu). exists d. split_and!; [done|done|done|]. intros [Hg Hpar]%Hcert.
    rewrite (heals_q rm x Ef S Hx) in Er; [congruence| |done]. apply Hpar; [lia|done].
Qed.

Lemma touched_nerr rm rm' a k : touched rm rm' -> nerr rm' a k = nerr rm a k.
Proof.
  intros T. unfold nerr, errs. do 2 f_equal. apply list_filter_iff. intros j. unfold bad_status.
  destruct (tc_status _ _ T j) as (d & ->). done.
Qed.

Lemma phase1_one io rm c :
  shape rm -> skips rm -> errs rm f n = [c] -> t_untried (tally_of rm) = 0 -> t_parity_errors (tally_of rm) < Z.of_nat f ->
  exists r, phase1 io (tally_of rm) rm = Ok r /\ phase1_ok rm r.
Proof.
  intros S Hs E Hu Hp. pose proof (tally_spec rm S) as [T1 T2 _ _ _]. replace (f + n - f)%nat with n in T2 by lia. rewrite Nat.min_r in T1 by lia.
  destruct (errs_cons _ _ _ _ _ E) as (Hc & Hb & Hrest). pose proof (gp_f _ _ _ _ G0) as Hf.
  assert (t_data_errors (tally_of rm) = 1) as Ed by (rewrite T2; unfold nerr; by rewrite E).
  unfold phase1. rewrite Ed, Hu. cbn [Z.eqb Pos.eqb verify]. run. rewrite (sh_first _ S).
  rewrite (proj2 (Z.ltb_lt (t_parity_errors (tally_of rm)) (Z.of_nat f))) by done. cbn [verify]. run.
  rewrite (bad_column_spec rm f c [] S Hs) by (replace (f + n - f)%nat with n by lia; done || lia). run.
  change VDEV_RAIDZ_P with (Z.of_nat 0). rewrite get_col_at by (rewrite (sh_len _ S); lia). run. fold (rec_one rm (Z.of_nat c)).
  rewrite T1 in Hp. destruct (rec_one_spec rm c S E Hp) as (d & -> & Hl & Hud & Hcert). run.
  assert (touched rm (put rm c d)) as Ht by (apply touched_put; [by apply touched_refl|lia|done|done|done]).
  destruct (accepted (put rm c d)) eqn:Ea.
  - destruct (verify_parity_spec io (tally_of rm) (t_parity_errors (tally_of rm) <? Z.of_nat f - 1) (put rm c d) (tc_shape _ _ Ht) Ea) as (dn & -> & Hd); [|run; by eexists].
    by rewrite T1, (touched_nerr _ _ _ _ Ht).
  - eexists. split; [done|]. split; [done|]. intros Hcc. rewrite (Hcert Hcc), accepted_heal in Ea; done.
Qed.

Lemma phase1_two io rm c1 c :
  shape rm -> skips rm -> f = 2%nat -> errs rm f n = [c1; c] -> t_parity_errors (tally_of rm) = 0 ->
  exists r, phase1 io (tally_of rm) rm = Ok r /\ phase1_ok rm r.
Proof.
  intros S Hs Ef E Hp. pose proof (tally_spec rm S) as [T1 T2 _ _ _]. replace (f + n - f)%nat with n in T2 by lia. rewrite Nat.min_r in T1 by lia.
  destruct (errs_cons _ _ _ _ _ E) as (Hc1 & Hb1 & Hrest). symmetry in Hrest. destruct (errs_cons _ _ _ _ _ Hrest) as (Hc & Hb & _).
  assert (t_data_errors (tally_of rm) = 2) as Ed by (rewrite T2; unfold nerr; by rewrite E).
  unfold phase1. rewrite Ed. cbn [Z.eqb Pos.eqb]. rewrite (sh_first _ S).
  rewrite (proj2 (Z.eqb_eq (Z.of_nat f) 2)) by lia. cbn [verify]. run.
  rewrite (bad_column_spec rm f c1 [c] S Hs) by (replace (f + n - f)%nat with n by lia; done || lia). run.
  replace (Z.of_nat c1 + 1) with (Z.of_nat (Datatypes.S c1)) by lia.
  rewrite (bad_column_spec rm (Datatypes.S c1) c [] S Hs) by (done || lia). run.
  set (x := (c1 - f)%nat). set (y := (c - f)%nat). assert (c1 = (f + x)%nat /\ c = (f + y)%nat) as [Ex Ey] by lia.
  assert (x < y)%nat as Hxy by lia. assert (y < n)%nat as Hy by lia. rewrite Ex, Ey.
  destruct (total_pq rm x y Ef S Hxy Hy) as (dx & dy & Er & Lx & Ly & Ux & Uy). rewrite Er. run.
  assert (touched rm (put (put rm (f + x) dx) (f + y) dy)) as Ht.
  { apply touched_put; [|lia|by rewrite <- Ey| |done].
    - apply touched_put; [by apply touched_refl|lia|by rewrite <- Ex|done|done].
    - rewrite colat_put_ne by (rewrite ?(sh_len _ S); lia). done. }
  destruct (accepted _) eqn:Ea; eexists; (split; [reflexivity|]); [split_and!; [done|apply Ht|done]|].
  split; [done|]. intros [Hg [He|Hpar]]; [by rewrite He in E|].
  assert (forall j, (j < f)%nat -> ~ bad_status rm j) as Hnp.
  { intros j Hj Hbj. assert (In j (errs rm 0 f)) as Hin by (apply in_errs; split; [lia|done]).
    rewrite T1 in Hp. unfold nerr in Hp. destruct (errs rm 0 f); [done|]. cbn in Hp. lia. }
  rewrite (heals_pq rm x y Ef S Hxy Hy) in Er; [|apply Hpar; [lia|apply Hnp; lia]..|].
  - assert (put (put rm (f + x) dx) (f + y) dy = heal rm) as Er' by congruence. rewrite Er', accepted_heal in Ea; done.
  - intros j Hj Hjx Hjy. apply Hg; [done|]. intros Hbj.
    assert (In (f + j)%nat (errs rm f n)) as Hin by (apply in_errs; split; [lia|done]). rewrite E in Hin. destruct Hin as [|[|[]]]; lia.
Qed.

(** Phase 1 returns whenever the errors are correctable, and succeeds when they are all there is. *)
Lemma phase1_spec io rm :
  shape rm -> skips rm -> t_numerrors (tally_of rm) <= Z.of_nat f - t_untried (tally_of rm) ->
  (t_untried (tally_of rm) = 0 \/ t_parity_errors (tally_of rm) + t_untried (tally_of rm) = Z.of_nat f) ->
  exists r, phase1 io (tally_of rm) rm = Ok r /\ phase1_ok rm r.
Proof.
  intros S Hs Hn Hall. pose proof (tally_spec rm S) as [T1 T2 T3 T4 _]. replace (f + n - f)%nat with n in T2 by lia.
  assert (0 <= t_parity_errors (tally_of rm) /\ 0 <= t_untried (tally_of rm)) as [Hp Hu] by (rewrite T1, T4; unfold nerr, nunread; lia).
  pose proof (wt_f _ _ _ _ W) as Hf. unfold nerr in T2. destruct (errs rm f n) as [|c1 [|c2 [|c3 l]]] eqn:E; cbn [length] in T2.
  - by apply phase1_none.
  - apply (phase1_one io rm c1); [done..|lia|lia].
  - apply (phase1_two io rm c1 c2); [done..|lia|done|lia].
  - lia.
Qed.

(** ** Phase 3 *)

Lemma impute_spec io rm c :
  shape rm -> (c < f + n)%nat -> exists rm' ev, impute io rm (Z.of_nat c) = Ok (rm', ev) /\ shape rm' /\
    forall j, rc_data (colat rm' j) = rc_data (colat rm j).
Proof.
  intros S Hc. unfold impute. rewrite get_col_at by (rewrite (sh_len _ S); lia). run. eexists _, _. split; [done|].
  split; [by apply shape_status|]. intros j. apply status_data. rewrite (sh_len _ S). lia.
Qed.

(** All data columns but some are good. *)
Definition good_but (rm : raidz_map) (xs : list nat) : Prop := forall c, (c < n)%nat -> ~ In c xs -> good rm (f + c).

Lemma restore rm c d : shape rm -> (c < f + n)%nat -> set_data (put rm c d) (Z.of_nat c) (rc_data (colat rm c)) = Ok rm.
Proof. intros S Hc. rewrite set_data_at, put_put, put_id; rewrite ?put_len, ?(sh_len _ S); done || lia. Qed.

(** The attempts with one parity column: the first accepted one is taken; if there is
    none, the map is as before. *)
Lemma try_one_spec io rec rm :
  shape rm ->
  (forall x, (x < n)%nat -> exists d, rec rm (Z.of_nat (f + x)) = Ok (put rm (f + x) d) /\
     length d = length (rc_data (colat rm (f + x))) /\ Forall is_u64 d) ->
  forall k i, (i + k = n)%nat -> exists r, try_one io rec k (Z.of_nat (f + i)) rm = Ok r /\
    match r with
    | inr d => done_ok d
    | inl rm' => rm' = rm /\ forall x rm1, (i <= x < n)%nat -> rec rm (Z.of_nat (f + x)) = Ok rm1 -> accepted rm1 = false
    end.
Proof.
  intros S Hrec. induction k as [|k IH]; intros i Hi; cbn [try_one].
  { eexists. split; [done|]. split; [done|]. lia. }
  rewrite get_col_at by (rewrite (sh_len _ S); lia). run. destruct (Hrec i ltac:(lia)) as (d & E & Hl & Hu). rewrite E. run.
  assert (shape (put rm (f + i) d)) as S' by (apply shape_put; done || lia).
  destruct (accepted (put rm (f + i) d)) eqn:Ea.
  - destruct (impute_spec io (put rm (f + i) d) (f + i) S' ltac:(lia)) as (rm2 & ev & -> & S2 & Hd). run.
    eexists. split; [done|]. split_and!; [done|done|]. cbn [d_rm]. rewrite (accepted_eq rm2 (put rm (f + i) d)); [done..|]. intros. apply Hd.
  - rewrite restore by (done || lia). run. replace (Z.of_nat (f + i) + 1) with (Z.of_nat (f + Datatypes.S i)) by lia.
    destruct (IH (Datatypes.S i) ltac:(lia)) as (r & -> & Hr). exists r. split; [done|]. destruct r as [rm'|dn]; [|done].
    destruct Hr as [-> Hr]. split; [done|]. intros x rm1 Hx E1. destruct (decide (x = i)) as [->|]; [congruence|]. apply (Hr x rm1); [lia|done].
Qed.

(** The same for pairs: [d] is what an earlier attempt left in the first column. *)
Lemma try_second_spec io rm x :
  f = 2%nat -> shape rm -> (x < n)%nat ->
  forall k j d, (x < j)%nat -> (j + k = n)%nat -> length d = length (rc_data (colat rm (f + x))) -> Forall is_u64 d ->
  exists r, try_second io k (Z.of_nat (f + x)) (Z.of_nat (f + j)) (put rm (f + x) d) = Ok r /\
    match r with
    | inr d => done_ok d
    | inl rm' => (exists d', rm' = put rm (f + x) d') /\
        forall y, (j <= y < n)%nat -> good rm 0 -> good rm 1 -> ~ good_but rm [x; y]
    end.
Proof.
  intros Ef S Hx. induction k as [|k IH]; intros j d Hxj Hj Hl Hu; cbn [try_second].
  { eexists. split; [done|]. split; [by exists d|]. lia. }
  assert (shape (put rm (f + x) d)) as Sd by (apply shape_put; done || lia). set (rmd := put rm (f + x) d) in *.
  rewrite get_col_at by (rewrite (sh_len _ Sd); lia). run.
  destruct (total_pq rmd x j Ef Sd Hxj ltac:(lia)) as (dx & dy & E & Lx & Ly & Ux & Uy). rewrite E. run.
  assert (put rmd (f + x) dx = put rm (f + x) dx) as Ed by (apply put_put; rewrite (sh_len _ S); lia).
  assert (length dx = length (rc_data (colat rm (f + x)))) as Lx'.
  { rewrite Lx. unfold rmd. rewrite colat_put by (rewrite (sh_len _ S); lia). by destruct (decide _). }
  assert (shape (put rm (f + x) dx)) as Sx by (apply shape_put; done || lia). rewrite Ed in *.
  assert (colat (put rm (f + x) dx) (f + j) = colat rmd (f + j)) as Ej by (unfold rmd; rewrite !colat_put_ne by (rewrite ?(sh_len _ S); lia); done).
  assert (shape (put (put rm (f + x) dx) (f + j) dy)) as Sxy by (apply shape_put; [done|lia|by rewrite Ej|done]).
  destruct (accepted _) eqn:Ea.
  - destruct (impute_spec io _ (f + x) Sxy ltac:(lia)) as (rm2 & ev & -> & S2 & Hd2). run.
    destruct (impute_spec io rm2 (f + j) S2 ltac:(lia)) as (rm3 & ev3 & -> & S3 & Hd3). run.
    eexists. split; [done|]. split_and!; [done|done|]. cbn [d_rm]. rewrite <- Ea. apply accepted_eq; [done|done|]. intros. by rewrite Hd3, Hd2.
  - rewrite <- Ej, restore by (done || lia). run. replace (Z.of_nat (f + j) + 1) with (Z.of_nat (f + Datatypes.S j)) by lia.
    destruct (IH (Datatypes.S j) dx ltac:(lia) ltac:(lia) Lx' Ux) as (r & -> & Hr). exists r. split; [done|].
    destruct r as [rm'|dn]; [|done]. destruct Hr as [Hd Hr]. split; [done|]. intros y Hy HP HQ Hg.
    destruct (decide (y = j)) as [->|]; [|by apply (Hr y ltac:(lia))].
    assert (forall c, c <> (f + x)%nat -> good rm c -> good rmd c) as Hgd by (intros; apply good_put; done || lia).
    rewrite (heals_pq rmd x j Ef Sd Hxj ltac:(lia)) in E.
    + assert (put (put rm (f + x) dx) (f + j) dy = heal rmd) as Er by congruence. rewrite Er, accepted_heal in Ea; done.
    + apply Hgd; [lia|done].
    + apply Hgd; [lia|done].
    + intros c Hc Hcx Hcy. apply Hgd; [lia|]. apply Hg; [done|]. intros [|[|[]]]; lia.
Qed.

Lemma try_pairs_spec io rm :
  f = 2%nat -> shape rm ->
  forall k i, (i + k = n - 1)%nat -> exists r, try_pairs io k (Z.of_nat (f + i)) rm = Ok r /\
    match r with
    | inr d => done_ok d
    | inl rm' => rm' = rm /\ forall x y, (i <= x)%nat -> (x < y < n)%nat -> good rm 0 -> good rm 1 -> ~ good_but rm [x; y]
    end.
Proof.
  intros Ef S. induction k as [|k IH]; intros i Hi; cbn [try_pairs].
  { eexists. split; [done|]. split; [done|]. lia. }
  rewrite get_col_at by (rewrite (sh_len _ S); lia). run. unfold rm_cols. rewrite (sh_len _ S).
  replace (Z.of_nat (f + i) + 1) with (Z.of_nat (f + Datatypes.S i)) by lia.
  replace (Z.to_nat (Z.of_nat (f + n) - Z.of_nat (f + Datatypes.S i))) with (n - Datatypes.S i)%nat by lia.
  destruct (try_second_spec io rm i Ef S ltac:(lia) (n - Datatypes.S i) (Datatypes.S i) (rc_data (colat rm (f + i))) ltac:(lia) ltac:(lia) eq_refl
    ltac:(apply S; lia)) as (r & E & Hr).
  rewrite put_id in E by (rewrite (sh_len _ S); lia). rewrite E. run. destruct r as [rm'|dn]; [|by eexists].
  destruct Hr as [(d' & ->) Hr]. rewrite restore by (done || lia). run.
  destruct (IH (Datatypes.S i) ltac:(lia)) as (r & -> & Hr'). exists r. split; [done|]. destruct r as [rm'|dn]; [|done].
  destruct Hr' as [-> Hr']. split; [done|]. intros x y Hix Hxy HP HQ. destruct (decide (x = i)) as [->|]; [apply Hr; done || lia|].
  apply Hr'; done || lia.
Qed.

(** What the attempts of phase 3 rule out when none succeeds. *)
Record exhausted (rm : raidz_map) : Prop := {
  ex_p : ~ bad_status rm 0 -> good rm 0 -> forall x, (x < n)%nat -> ~ good_but rm [x];
  ex_q : f = 2%nat -> ~ bad_status rm 1 -> good rm 1 -> forall x, (x < n)%nat -> ~ good_but rm [x];
  ex_pq : f = 2%nat -> ~ bad_status rm 0 -> ~ bad_status rm 1 -> good rm 0 -> good rm 1 ->
    forall x y, (x < y < n)%nat -> ~ good_but rm [x; y]
}.

Lemma good_but_one rm x : good_but rm [x] -> forall c, (c < n)%nat -> c <> x -> good rm (f + c).
Proof. intros H c Hc Hne. apply H; [done|]. intros [|[]]; lia. Qed.

Lemma data_cols_shape rm : shape rm -> data_cols rm = n.
Proof. intros S. unfold data_cols, rm_cols. rewrite (sh_len _ S), (sh_first _ S). lia. Qed.

Lemma try_p_spec io rm :
  shape rm -> exists r, try_p io rm = Ok r /\ match r with
    | inr d => done_ok d
    | inl rm' => rm' = rm /\ (~ bad_status rm 0 -> good rm 0 -> forall x, (x < n)%nat -> ~ good_but rm [x])
    end.
Proof.
  intros S. pose proof (gp_f _ _ _ _ G0) as Hf. unfold try_p. change VDEV_RAIDZ_P with (Z.of_nat 0).
  rewrite get_col_at by (rewrite (sh_len _ S); lia). run. rewrite data_cols_shape, (sh_first _ S) by done.
  destruct (Z.eqb_spec (rc_error (colat rm 0)) 0) as [E|E]; [|eexists; split; [done|]; split; [done|]; intros []; exact E].
  destruct (try_one_spec io vdev_raidz_reconstruct_p rm S (fun x Hx => total_p rm x S Hx) n 0 eq_refl) as (r & Er & Hr).
  rewrite Nat.add_0_r in Er. rewrite Er. eexists. split; [done|]. destruct r as [rm'|d]; [|done]. destruct Hr as [-> Hr].
  split; [done|]. intros _ HP x Hx Hg. pose proof (heals_p rm x S Hx HP (good_but_one _ _ Hg)) as Eh.
  specialize (Hr x (heal rm) ltac:(lia) Eh). by rewrite accepted_heal in Hr.
Qed.

Lemma try_q_spec io rm :
  shape rm -> exists r, try_q io rm = Ok r /\ match r with
    | inr d => done_ok d
    | inl rm' => rm' = rm /\ (f = 2%nat -> ~ bad_status rm 1 -> good rm 1 -> forall x, (x < n)%nat -> ~ good_but rm [x])
    end.
Proof.
  intros S. unfold try_q. rewrite (sh_first _ S), data_cols_shape by done.
  destruct (wt_f _ _ _ _ W) as [Ef|Ef]; [rewrite (proj2 (Z.ltb_ge 1 (Z.of_nat f))) by lia; eexists; split; [done|]; split; [done|]; lia|].
  rewrite (proj2 (Z.ltb_lt 1 (Z.of_nat f))) by lia. change VDEV_RAIDZ_Q with (Z.of_nat 1).
  rewrite get_col_at by (rewrite (sh_len _ S); lia). run.
  destruct (Z.eqb_spec (rc_error (colat rm 1)) 0) as [E|E]; [|eexists; split; [done|]; split; [done|]; intros _ []; exact E].
  destruct (try_one_spec io vdev_raidz_reconstruct_q rm S (fun x Hx => total_q rm x Ef S Hx) n 0 eq_refl) as (r & Er & Hr).
  rewrite Nat.add_0_r in Er. rewrite Er. eexists. split; [done|]. destruct r as [rm'|d]; [|done]. destruct Hr as [-> Hr].
  split; [done|]. intros _ _ HQ x Hx Hg. pose proof (heals_q rm x Ef S Hx HQ (good_but_one _ _ Hg)) as Eh.
  specialize (Hr x (heal rm) ltac:(lia) Eh). by rewrite accepted_heal in Hr.
Qed.

Lemma try_pq_spec io rm :
  shape rm -> exists r, try_pq io rm = Ok r /\ match r with
    | inr d => done_ok d
    | inl rm' => rm' = rm /\ (f = 2%nat -> ~ bad_status rm 0 -> ~ bad_status rm 1 -> good rm 0 -> good rm 1 ->
        forall x y, (x < y < n)%nat -> ~ good_but rm [x; y])
    end.
Proof.
  intros S. unfold try_pq. rewrite (sh_first _ S), data_cols_shape by done.
  destruct (wt_f _ _ _ _ W) as [Ef|Ef]; [rewrite (proj2 (Z.ltb_ge 1 (Z.of_nat f))) by lia; eexists; split; [done|]; split; [done|]; lia|].
  rewrite (proj2 (Z.ltb_lt 1 (Z.of_nat f))) by lia. change VDEV_RAIDZ_P with (Z.of_nat 0). change VDEV_RAIDZ_Q with (Z.of_nat 1).
  rewrite !get_col_at by (rewrite (sh_len _ S); lia). run.
  destruct ((rc_error (colat rm 0) =? 0) && (rc_error (colat rm 1) =? 0)) eqn:E.
  - destruct (try_pairs_spec io rm Ef S (n - 1) 0 eq_refl) as (r & Er & Hr). rewrite Nat.add_0_r in Er. rewrite Er.
    eexists. split; [done|]. destruct r as [rm'|d]; [|done]. destruct Hr as [-> Hr]. split; [done|].
    intros _ _ _ HP HQ x y Hxy. apply Hr; done || lia.
  - eexists. split; [done|]. split; [done|]. intros _ H0 H1. unfold bad_status in *. lia.
Qed.

Lemma attempts_spec io rm :
  shape rm -> exists r, or_else (or_else (try_p io rm) (try_q io)) (try_pq io) = Ok r /\
    match r with inr d => done_ok d | inl rm' => rm' = rm /\ exhausted rm end.
Proof.
  intros S. destruct (try_p_spec io rm S) as (r1 & E1 & H1). unfold or_else. rewrite E1. run.
  destruct r1 as [rm1|d1]; [|run; by eexists]. destruct H1 as [-> H1].
  destruct (try_q_spec io rm S) as (r2 & E2 & H2). rewrite E2. run.
  destruct r2 as [rm2|d2]; [|by eexists]. destruct H2 as [-> H2].
  destruct (try_pq_spec io rm S) as (r3 & E3 & H3). rewrite E3.
  eexists. split; [done|]. destruct r3 as [rm3|d3]; [|done]. destruct H3 as [-> H3]. done.
Qed.

(** ** At most as many bad columns as parity *)

Definition all_but (rm : raidz_map) (B : list nat) : Prop :=
  forall c, (c < f + n)%nat -> ~ In c B -> ~ bad_status rm c /\ good rm c.

Lemma nerr_app rm : nerr rm 0 (f + n) = nerr rm 0 f + nerr rm f n.
Proof. unfold nerr, errs. rewrite seq_app, filter_app, length_app. cbn [Nat.add]. lia. Qed.

(** If there are as many errors as parity columns, they are all that is bad. *)
Lemma errors_are_all rm B :
  (length B <= f)%nat -> all_but rm B -> Z.of_nat f <= nerr rm 0 (f + n) -> certain rm.
Proof.
  intros HB Hall Hn.
  assert (incl (errs rm 0 (f + n)) B) as Hin.
  { intros c [Hc Hb]%in_errs. destruct (in_dec Nat.eq_dec c B) as [|Hni]; [done|]. by destruct (Hall c ltac:(lia) Hni). }
  assert (incl B (errs rm 0 (f + n))) as Hin'.
  { apply NoDup_length_incl; [apply NoDup_ListNoDup, NoDup_filter, NoDup_seq|unfold nerr in Hn; lia|done]. }
  assert (forall c, (c < f + n)%nat -> ~ bad_status rm c -> good rm c) as Hg.
  { intros c Hc Hb. apply Hall; [done|]. intros Hi%Hin'. apply in_errs in Hi. tauto. }
  split; [intros; apply Hg; done || lia|]. right. intros. apply Hg; [lia|done].
Qed.

(** No bad data column: nothing to reconstruct. *)
Lemma data_all_good rm B : all_but rm B -> (forall c, (c < n)%nat -> ~ In (f + c)%nat B) -> certain rm.
Proof.
  intros Hall Hd. split; [intros c Hc _; apply Hall; [lia|by apply Hd]|]. left. destruct (errs rm f n) as [|c l] eqn:E; [done|].
  destruct (errs_cons _ _ _ _ _ E) as (Hc & Hb & _). replace c with (f + (c - f))%nat in Hb by lia.
  by destruct (Hall (f + (c - f))%nat ltac:(lia) (Hd (c - f)%nat ltac:(lia))).
Qed.

Lemma find_bad_data (B : list nat) k :
  (exists c, (c < k)%nat /\ In (f + c)%nat B) \/ (forall c, (c < k)%nat -> ~ In (f + c)%nat B).
Proof.
  induction k as [|k [(c & Hc & Hin)|IH]]; [right; lia|left; exists c; split; [lia|done]|].
  destruct (in_dec Nat.eq_dec (f + k)%nat B) as [Hin|Hni]; [left; exists k; split; [lia|done]|].
  right. intros c Hc. destruct (decide (c = k)) as [->|]; [done|]. apply IH. lia.
Qed.

(** Otherwise some attempt has what it needs. *)
Lemma not_exhausted rm B :
  (length B <= f)%nat -> all_but rm B -> (exists c, (c < n)%nat /\ In (f + c)%nat B) -> ~ exhausted rm.
Proof.
  intros HB Hall (x & Hx & HxB) [X1 X2 X3]. pose proof (wt_f _ _ _ _ W) as Hf.
  assert (forall c, (c < f)%nat -> ~ In c B -> ~ bad_status rm c /\ good rm c) as Hpar by (intros; apply Hall; [lia|done]).
  assert (Hone : forall b, (forall c, In c B -> c = (f + x)%nat \/ c = b) -> (b < f)%nat -> good_but rm [x]).
  { intros b Hb Hbf c Hc Hni. apply Hall; [lia|]. intros [|]%Hb; [apply Hni; left; lia|lia]. }
  destruct B as [|b1 [|b2 [|b3 B]]]; cbn [length] in HB; [done| | |lia].
  - destruct HxB as [->|[]]. destruct (Hpar 0%nat) as [H1 H2]; [lia|intros [|[]]; lia|].
    apply (X1 H1 H2 x Hx). apply (Hone 0%nat); [|lia]. intros c [|[]]. by left.
  - assert (f = 2%nat) as Ef by lia.
    assert (exists b, forall c, In c [b1; b2] <-> c = (f + x)%nat \/ c = b) as [b Hb].
    { clear -HxB. cbn in *. destruct HxB as [->|[->|[]]]; [exists b2|exists b1]; intros c; split; [intros [|[|[]]]|intros [|]| intros [|[|[]]]|intros [|]]; auto. }
    destruct (decide (b < f)%nat) as [Hbf|Hbf].
    + assert (good_but rm [x]) as Hg by (apply (Hone b); [intros; by apply Hb|done]).
      destruct (decide (b = 0%nat)) as [->|].
      * destruct (Hpar 1%nat) as [H1 H2]; [lia|intros [|]%Hb; lia|]. by apply (X2 Ef H1 H2 x Hx).
      * destruct (Hpar 0%nat) as [H1 H2]; [lia|intros [|]%Hb; lia|]. by apply (X1 H1 H2 x Hx).
    + destruct (Hpar 0%nat) as [H1 H2]; [lia|intros [|]%Hb; lia|]. destruct (Hpar 1%nat) as [H3 H4]; [lia|intros [|]%Hb; lia|].
      assert (forall l, In x l -> (forall y, b = (f + y)%nat -> In y l) -> good_but rm l) as Hg.
      { intros l Hxl Hyl c Hc Hni. apply Hall; [lia|]. intros [|Eb]%Hb; [apply Hni; by replace c with x by lia|].
        apply Hni. by apply Hyl. }
      set (y := (b - f)%nat). destruct (decide (b < f + n)%nat) as [Hbn|Hbn].
      * destruct (Nat.lt_total x y) as [Hlt|[Heq|Hlt]].
        -- apply (X3 Ef H1 H3 H2 H4 x y ltac:(lia)). apply Hg; [by left|]. intros z Ez. right. left. lia.
        -- apply (X1 H1 H2 x Hx). apply Hg; [by left|]. intros z Ez. left. lia.
        -- apply (X3 Ef H1 H3 H2 H4 y x ltac:(lia)). apply Hg; [by right; left|]. intros z Ez. left. lia.
      * apply (X1 H1 H2 x Hx). intros c Hc Hni. apply Hall; [lia|]. intros [|]%Hb; [apply Hni; left; lia|lia].
Qed.

(** ** The second half of a read *)

Lemma shape_missing rm a b : shape rm -> shape (with_missing rm a b).
Proof. by intros [S1 S2 S3]. Qed.

Lemma all_but_touched rm rm' B : touched rm rm' -> all_but rm B -> all_but rm' B.
Proof.
  intros T Hall c Hc Hni. destruct (Hall c Hc Hni) as [Hb Hg]. unfold bad_status, good. rewrite (tc_same _ _ T c Hb). done.
Qed.

Lemma reqs_none p w c cols : reqs_where p w c cols = [] <-> Forall (fun rc => p rc = false) cols.
Proof.
  revert c. induction cols as [|rc cols IH]; intros c; cbn [reqs_where]; [split; [intros _; apply List.Forall_nil|done]|].
  rewrite List.Forall_cons_iff. destruct (p rc); [naive_solver|]. rewrite IH. naive_solver.
Qed.

Lemma colat_in rm rc : In rc (rm_col rm) -> exists c, (c < length (rm_col rm))%nat /\ colat rm c = rc.
Proof. intros Hin. destruct (In_nth _ _ col0 Hin) as (c & Hc & E). by exists c. Qed.

Lemma untried_none rm : shape rm -> untried rm = [] <-> forall c, (c < f + n)%nat -> rc_tried (colat rm c) = true.
Proof.
  intros S. unfold untried. rewrite reqs_none, List.Forall_forall. split.
  - intros H c Hc. specialize (H (colat rm c)). apply negb_false_iff, H. apply nth_In. rewrite (sh_len _ S). done.
  - intros H rc (c & Hc & <-)%colat_in. rewrite (sh_len _ S) in Hc. by rewrite (H c Hc).
Qed.

(** What [vdev_raidz_io_done] relies on of a read in progress. *)
Record reading (rm : raidz_map) : Prop := {
  rg_shape : shape rm;
  rg_skips : skips rm;
  rg_missing : rm_missingparity rm <= Z.of_nat f /\ rm_missingdata rm <= Z.of_nat n;
  rg_unread : nunread rm f = 0 \/ nerr rm 0 f + nunread rm f = Z.of_nat f
}.

Definition fallback (io : zio) (writable : bool) (t : tally) (rm : raidz_map) : outcome next :=
  match untried rm with
  | [] => d ← phase3 io t rm; Ok (Finished (finish io writable d))
  | reqs => Ok (Reread rm reqs)
  end.

(** After the first phase: finished well, or on to the others with the map as it was
    but for columns with errors. *)
Lemma io_done_phase1 writable io rm :
  io_write io = false -> reading rm ->
  (exists d, vdev_raidz_io_done writable io rm = Ok (Finished (finish io writable d)) /\ done_ok d) \/
  (exists rm', touched rm rm' /\ vdev_raidz_io_done writable io rm = fallback io writable (tally_of rm) (with_missing rm' 0 0) /\
     (t_numerrors (tally_of rm) <= Z.of_nat f - t_untried (tally_of rm) -> ~ certain rm)).
Proof.
  intros Hw [S Hs [Hm1 Hm2] Hu]. pose proof (tally_spec rm S) as [T1 T2 T3 T4 T5]. rewrite Nat.min_r in T1, T4 by lia.
  unfold vdev_raidz_io_done. fold (tally_of rm). rewrite (sh_first _ S), (proj2 (Z.leb_le (rm_missingparity rm) (Z.of_nat f)) Hm1). cbn [verify]. run.
  unfold rm_cols. rewrite (sh_len _ S), (proj2 (Z.leb_le (rm_missingdata rm) (Z.of_nat (f + n) - Z.of_nat f))) by lia. cbn [verify]. run. rewrite Hw.
  destruct (Z.leb_spec (t_numerrors (tally_of rm)) (Z.of_nat f - t_untried (tally_of rm))) as [Hle|Hgt].
  - destruct (phase1_spec io rm S Hs Hle) as (r & -> & Hr); [rewrite T1, T4; tauto|]. run. destruct r as [d|rm'].
    + left. by exists d.
    + right. destruct Hr as [Ht Hc]. exists rm'. split_and!; done.
  - right. exists rm. split_and!; [by apply touched_refl|done|]. lia.
Qed.

(** With every column tried, and at most as many bad ones as parity: success. *)
Lemma io_done_final writable io rm B :
  io_write io = false -> reading rm -> (forall c, (c < f + n)%nat -> rc_tried (colat rm c) = true) ->
  (length B <= f)%nat -> all_but rm B ->
  exists d, vdev_raidz_io_done writable io rm = Ok (Finished (finish io writable d)) /\ done_ok d.
Proof.
  intros Hw Hr Htr HB Hall. destruct (io_done_phase1 writable io rm Hw Hr) as [|(rm' & T & -> & Hcert)]; [done|].
  pose proof (rg_shape _ Hr) as S. pose proof (tally_spec rm S) as [T1 T2 T3 T4 T5]. rewrite Nat.min_r in T1, T4 by lia.
  replace (f + n - f)%nat with n in T2 by lia.
  assert (nunread rm f = 0) as Hun.
  { unfold nunread. replace (filter (unread rm) (seq 0 f)) with (@nil nat); [done|]. symmetry. apply length_zero_iff_nil.
    destruct (filter (unread rm) (seq 0 f)) as [|c l] eqn:E; [done|].
    assert (c ∈ filter (unread rm) (seq 0 f)) as [[_ Ht] Hc%list_elem_of_In%in_seq]%list_elem_of_filter by (rewrite E; apply list_elem_of_here). rewrite Htr in Ht; [done|lia]. }
  assert (nerr rm 0 (f + n) <= Z.of_nat f) as Hnum.
  { unfold nerr. assert (length (errs rm 0 (f + n)) <= length B)%nat; [|lia].
    apply NoDup_incl_length; [apply NoDup_ListNoDup, NoDup_filter, NoDup_seq|]. intros c [Hc Hb]%in_errs.
    destruct (in_dec Nat.eq_dec c B) as [|Hni]; [done|]. by destruct (Hall c ltac:(lia) Hni). }
  rewrite nerr_app in Hnum. rewrite T3, T1, T2, T4, Hun in Hcert. specialize (Hcert ltac:(lia)).
  set (rm'' := with_missing rm' 0 0). assert (shape rm'') as S'' by (apply shape_missing, T).
  assert (untried rm'' = []) as Hnone.
  { apply untried_none; [done|]. intros c Hc. change (colat rm'' c) with (colat rm' c). destruct (tc_status _ _ T c) as (d & ->). by apply Htr. }
  unfold fallback. rewrite Hnone. unfold phase3. rewrite (sh_first _ S'').
  destruct (Z.leb_spec (Z.of_nat f) (t_numerrors (tally_of rm))) as [Hge|Hlt].
  { destruct Hcert. apply (errors_are_all rm B); [done|done|]. rewrite nerr_app, <- T1, <- T2, <- T3. done. }
  destruct (attempts_spec io rm'' S'') as (r & -> & Hres). run. destruct r as [rm3|d]; [|run; by exists d].
  destruct Hres as [-> Hex]. destruct Hcert.
  destruct (find_bad_data B n) as [Hex'|Hno]; [|by apply (data_all_good rm B)].
  exfalso. apply (not_exhausted rm'' B); [done| |done|done]. exact (all_but_touched rm rm' B T Hall).
Qed.

(** ** Answers *)

Section Answers.
Context (ans : Z -> Z * list Z).
Hypothesis ans_ok : forall c, (c < f + n)%nat ->
  length (ans (Z.of_nat c)).2 = length (rc_data (colat rm0 c)) /\ Forall is_u64 (ans (Z.of_nat c)).2.

Definition answered (rc : raidz_col) (c : nat) : raidz_col :=
  with_status (with_data rc (ans (Z.of_nat c)).2) (ans (Z.of_nat c)).1 true false.

Lemma serve_spec reqs ns rm :
  shape rm -> map rq_col reqs = map Z.of_nat ns -> (forall c, In c ns -> (c < f + n)%nat) ->
  exists rm', serve ans reqs rm = Ok rm' /\ shape rm' /\ set_cols rm' [] = set_cols rm [] /\
    (forall c, In c ns -> colat rm' c = answered (colat rm c) c) /\ (forall c, ~ In c ns -> colat rm' c = colat rm c).
Proof.
  revert reqs rm. induction ns as [|c ns IH]; intros reqs rm S E Hns; (destruct reqs as [|r reqs]; [try done|try done]); cbn [serve].
  { exists rm. by split_and!. }
  cbn [map] in E. injection E as Er E. rewrite Er. assert (c < f + n)%nat as Hc by (apply Hns; by left). destruct (ans_ok c Hc) as [Hl Hu].
  rewrite set_data_at by (rewrite (sh_len _ S); lia). run. unfold vdev_raidz_child_done.
  assert (shape (put rm c (ans (Z.of_nat c)).2)) as S1.
  { apply shape_put; [done|done| |done]. destruct (sh_col _ S c Hc) as (_ & _ & _ & -> & _). done. }
  rewrite get_col_at by (rewrite (sh_len _ S1); lia). run.
  destruct (IH reqs _ (shape_status _ c (ans (Z.of_nat c)).1 true false S1 Hc) E ltac:(intros; apply Hns; by right)) as (rm' & -> & S' & Ef & Hin & Hout).
  assert (forall j, colat (set_col (put rm c (ans (Z.of_nat c)).2) (Z.of_nat c)
    (with_status (colat (put rm c (ans (Z.of_nat c)).2) c) (ans (Z.of_nat c)).1 true false)) j =
    if decide (j = c) then answered (colat rm c) c else colat rm j) as Hj.
  { intros j. rewrite colat_set_col by (rewrite (sh_len _ S1); lia). rewrite !colat_put by (rewrite (sh_len _ S); lia).
    repeat destruct (decide _); done. }
  exists rm'. split_and!; [done|done|done|..].
  - intros j Hj'. destruct (in_dec Nat.eq_dec j ns) as [Hi|Hi].
    + rewrite Hin, Hj by done. destruct (decide (j = c)) as [->|]; done.
    + rewrite Hout, Hj by done. destruct Hj' as [->|]; [|done]. by destruct (decide _).
  - intros j Hj'. rewrite Hout, Hj by (intros ?; apply Hj'; by right). destruct (decide (j = c)) as [->|]; [|done]. destruct Hj'. by left.
Qed.

Lemma reqs_cols p w a cols :
  exists ns, map rq_col (reqs_where p w (Z.of_nat a) cols) = map Z.of_nat ns /\
    forall c, In c ns <-> (a <= c < a + length cols)%nat /\ p (nth (c - a) cols col0) = true.
Proof.
  revert a. induction cols as [|rc cols IH]; intros a; [exists []; split; [done|]; cbn; intros; lia|].
  destruct (IH (Datatypes.S a)) as (ns & E & Hns). cbn [reqs_where]. replace (Z.of_nat a + 1) with (Z.of_nat (Datatypes.S a)) by lia.
  assert (forall c, (Datatypes.S a <= c)%nat -> nth (c - a) (rc :: cols) col0 = nth (c - Datatypes.S a) cols col0) as Hnth.
  { intros c Hc. by replace (c - a)%nat with (Datatypes.S (c - Datatypes.S a)) by lia. }
  assert (forall c, In c ns <-> (Datatypes.S a <= c < a + length (rc :: cols))%nat /\ p (nth (c - a) (rc :: cols) col0) = true) as Hns'.
  { intros c. rewrite Hns. cbn [length]. split; intros [H1 H2]; (split; [lia|]); [rewrite Hnth by lia|rewrite <- Hnth by lia]; done. }
  destruct (p rc) eqn:Ep.
  - exists (a :: ns). split; [cbn; by rewrite E|]. intros c. cbn [In]. rewrite Hns'. split.
    + intros [<-|[H1 H2]]; [|split; [lia|done]]. rewrite Nat.sub_diag. cbn. split; [lia|done].
    + intros [H1 H2]. destruct (decide (a = c)); [by left|right]. split; [lia|done].
  - exists ns. split; [done|]. intros c. rewrite Hns'. split; intros [H1 H2]; (split; [|done]); [lia|].
    destruct (decide (a = c)) as [<-|]; [|lia]. rewrite Nat.sub_diag in H2. cbn in H2. congruence.
Qed.

(** ** The first half of a read *)

Context (vd : raidz_vdev) (io : zio) (birth : Z) (dead stale : nat -> bool).
Hypothesis children : forall c, (c < f + n)%nat -> exists cvd, get_child vd (rc_devidx (colat rm0 c)) = Ok cvd /\
  vdev_is_dead cvd = dead c /\ vdev_dtl_contains (vdev_dtl_map cvd) birth 1 = Ok (stale c).

Definition lost (c : nat) : Prop := dead c = true \/ stale c = true.
#[local] Instance lost_dec c : Decision (lost c).
Proof. unfold lost. apply _. Defined.
Definition nlost (a k : nat) : Z := zlen (filter lost (seq a k)).

Lemma nlost_cons a k : nlost a (S k) = (if decide (lost a) then 1 else 0) + nlost (S a) k.
Proof. unfold nlost. cbn [seq]. rewrite filter_cons. destruct (decide _); cbn [length]; lia. Qed.
Lemma nlost_le a k : 0 <= nlost a k <= Z.of_nat k.
Proof. unfold nlost. pose proof (length_filter lost (seq a k)) as H. rewrite length_seq in H. lia. Qed.

(** The status a column starts with. *)
Definition started (rc : raidz_col) (c : nat) : raidz_col :=
  if dead c then with_status rc ENXIO true true
  else if stale c then with_status rc ESTALE (rc_tried rc) true else rc.

(** Parity is read at once. *)
Definition eager : Prop := 0 < nlost f n \/ has_flag io ZIO_FLAG_SCRUB = true.

(** Columns from [k] on are started, the others are those of [rmf]. *)
Record starting (rmf : raidz_map) (k : nat) (rm : raidz_map) (reqs : list req) : Prop := {
  sg_shape : shape rm;
  sg_todo : forall c, (c < k)%nat -> colat rm c = colat rmf c;
  sg_done : forall c, (k <= c < f + n)%nat -> colat rm c = started (colat rmf c) c;
  sg_data : rm_missingdata rm = nlost (Nat.max k f) (f + n - Nat.max k f);
  sg_parity : rm_missingparity rm = nlost (Nat.min k f) (f - k);
  sg_reqs : exists ns, map rq_col reqs = map Z.of_nat ns /\
    forall c, In c ns <-> (k <= c < f + n)%nat /\ ~ lost c /\ ((f <= c)%nat \/ eager)
}.

Lemma start_counts k rm :
  (k < f + n)%nat -> rm_firstdatacol rm = Z.of_nat f ->
  rm_missingdata rm = nlost (Nat.max (S k) f) (f + n - Nat.max (S k) f) ->
  rm_missingparity rm = nlost (Nat.min (S k) f) (f - S k) ->
  let rm' := if decide (lost k) then count_missing rm (Z.of_nat k) else rm in
  rm_missingdata rm' = nlost (Nat.max k f) (f + n - Nat.max k f) /\ rm_missingparity rm' = nlost (Nat.min k f) (f - k).
Proof.
  intros Hk Hf Hd Hp. unfold count_missing. rewrite Hf. destruct (decide (k < f)%nat) as [Hkf|Hkf].
  - rewrite Nat.max_r in Hd by lia. rewrite Nat.min_l in Hp by lia. rewrite Nat.max_r, Nat.min_l by lia.
    replace (f - k)%nat with (S (f - S k)) by lia. rewrite nlost_cons.
    destruct (decide (lost k)); [|split; [done|lia]]. destruct (Z.leb_spec (Z.of_nat f) (Z.of_nat k)); [lia|]. cbn. split; [done|lia].
  - rewrite Nat.max_l in Hd by lia. rewrite Nat.min_r in Hp by lia. rewrite Nat.max_l, Nat.min_r by lia.
    replace (f + n - k)%nat with (S (f + n - S k)) by lia. rewrite nlost_cons.
    replace (f - S k)%nat with 0%nat in Hp by lia. replace (f - k)%nat with 0%nat by lia.
    destruct (decide (lost k)); [|split; [lia|done]]. destruct (Z.leb_spec (Z.of_nat f) (Z.of_nat k)); [|lia]. cbn. split; [lia|done].
Qed.

Lemma start_col_spec rmf k rm reqs :
  (k < f + n)%nat -> starting rmf (S k) rm reqs ->
  exists rm' reqs', start_col vd io birth (Z.of_nat k) (rm, reqs) = Ok (rm', reqs') /\ starting rmf k rm' reqs'.
Proof.
  intros Hk [Sh Ht Hd Hmd Hmp (ns & En & Hns)]. destruct (children k Hk) as (cvd & Ec & Edead & Estale).
  destruct (start_counts k rm Hk (sh_first _ Sh) Hmd Hmp) as [Cd Cp].
  unfold start_col. rewrite get_col_at by (rewrite (sh_len _ Sh); lia). run.
  destruct (sh_col _ Sh k Hk) as (Edev & _). rewrite Edev, Ec. run. rewrite Edead.
  assert (Hskip : forall e tr, lost k -> started (colat rmf k) k = with_status (colat rmf k) e tr true ->
    starting rmf k (set_col (count_missing rm (Z.of_nat k)) (Z.of_nat k) (with_status (colat rm k) e tr true)) reqs).
  { intros e tr Hl Hst. destruct (decide (lost k)) as [_|]; [|done].
    assert (shape (count_missing rm (Z.of_nat k))) as Sc by (unfold count_missing; destruct (_ <=? _); by apply shape_missing).
    assert (forall c, colat (count_missing rm (Z.of_nat k)) c = colat rm c) as Hcc by (intros; unfold count_missing; by destruct (_ <=? _)).
    assert (forall c, colat (set_col (count_missing rm (Z.of_nat k)) (Z.of_nat k) (with_status (colat rm k) e tr true)) c =
      if decide (c = k) then started (colat rmf k) k else colat rm c) as Hc.
    { intros c. rewrite colat_set_col by (rewrite (sh_len _ Sc); lia). rewrite Hcc, Hst, <- (Ht k) by lia. done. }
    split; [rewrite <- (Hcc k); by apply shape_status|..|done|done|].
    - intros c Hck. rewrite Hc. destruct (decide _); [lia|]. apply Ht. lia.
    - intros c Hck. rewrite Hc. destruct (decide (c = k)) as [->|]; [done|]. apply Hd. lia.
    - exists ns. split; [done|]. intros c. rewrite Hns. split; intros (H1 & H2 & H3); (split; [|done]); [lia|].
      destruct (decide (c = k)) as [->|]; [done|lia]. }
  unfold started in Hskip. destruct (dead k) eqn:Edk.
  { eexists _, _. split; [done|]. apply Hskip; [by left|done]. }
  rewrite Estale. run. destruct (stale k) eqn:Esk.
  { eexists _, _. split; [done|]. apply Hskip; [by right|]. by rewrite (Ht k) by lia. }
  assert (~ lost k) as Hnl by (unfold lost; rewrite Edk, Esk; intros [|]; done). destruct (decide (lost k)) as [|_]; [done|].
  assert (forall c, (k <= c < f + n)%nat -> colat rm c = started (colat rmf c) c) as Hd'.
  { intros c Hc. destruct (decide (c = k)) as [->|]; [|apply Hd; lia]. rewrite (Ht k) by lia. unfold started. by rewrite Edk, Esk. }
  assert ((rm_firstdatacol rm <=? Z.of_nat k) || (0 <? rm_missingdata rm) || has_flag io ZIO_FLAG_SCRUB = true <-> (f <= k)%nat \/ eager) as Hreq.
  { rewrite (sh_first _ Sh), !orb_true_iff, Z.leb_le, Z.ltb_lt. unfold eager. destruct (decide (f <= k)%nat); [intuition lia|].
    rewrite Hmd, Nat.max_r by lia. replace (f + n - f)%nat with n by lia. intuition lia. }
  destruct (_ || _) eqn:Eb; (eexists _, _; split; [reflexivity|]); (split; [done|intros; apply Ht; lia|done|done|done|]).
  - exists (ns ++ [k]). split; [by rewrite !map_app, En|]. intros c. rewrite in_app_iff, Hns. cbn [In]. split.
    + intros [(H1 & H2 & H3)|[<-|[]]]; [split_and!; [lia|lia|done|done]|]. split_and!; [lia|lia|done|]. by apply Hreq.
    + intros (H1 & H2 & H3). destruct (decide (c = k)) as [->|]; [right; by left|left]. split_and!; [lia|lia|done|done].
  - exists ns. split; [done|]. intros c. rewrite Hns. split; intros (H1 & H2 & H3); (split_and!; [lia|lia|done|done] || idtac).
    destruct (decide (c = k)) as [->|]; [|split_and!; [lia|lia|done|done]]. destruct Hreq as [_ Hreq]. by specialize (Hreq H3).
Qed.

Lemma start_cols_spec rmf k rm reqs :
  (k <= f + n)%nat -> starting rmf k rm reqs ->
  exists rm' reqs', start_cols vd io birth k (rm, reqs) = Ok (rm', reqs') /\ starting rmf 0 rm' reqs'.
Proof.
  revert rm reqs. induction k as [|k IH]; intros rm reqs Hk Hs; cbn [start_cols]; [by eexists _, _|].
  destruct (start_col_spec rmf k rm reqs ltac:(lia) Hs) as (rm1 & reqs1 & -> & Hs1). run. by apply IH; [lia|].
Qed.

(** ** The whole read *)

(** A map as [vdev_raidz_map_alloc] makes it. *)
Record fresh (rm : raidz_map) : Prop := {
  fr_shape : shape rm;
  fr_missing : rm_missingdata rm = 0 /\ rm_missingparity rm = 0;
  fr_status : forall c, (c < f + n)%nat ->
    rc_error (colat rm c) = 0 /\ rc_tried (colat rm c) = false /\ rc_skipped (colat rm c) = false
}.

Lemma start_init rmf : fresh rmf -> starting rmf (f + n) rmf [].
Proof.
  intros [S [M1 M2] _]. split; [done|done|lia|..].
  - rewrite M1, Nat.max_l by lia. by rewrite Nat.sub_diag.
  - rewrite M2, Nat.min_r by lia. by replace (f - (f + n))%nat with 0%nat by lia.
  - exists []. split; [done|]. intros c. cbn. lia.
Qed.

(** After the first answers every column is one of these. *)
Inductive state_of (rm : raidz_map) (c : nat) : Prop :=
  | IsDead : dead c = true -> rc_error (colat rm c) = ENXIO -> rc_tried (colat rm c) = true -> state_of rm c
  | IsStale : stale c = true -> rc_error (colat rm c) = ESTALE -> rc_tried (colat rm c) = false -> state_of rm c
  | IsRead : ~ lost c -> (f <= c)%nat \/ eager -> rc_error (colat rm c) = (ans (Z.of_nat c)).1 -> rc_tried (colat rm c) = true ->
      rc_data (colat rm c) = (ans (Z.of_nat c)).2 -> rc_skipped (colat rm c) = false -> state_of rm c
  | IsUnread : ~ lost c -> (c < f)%nat -> ~ eager -> rc_error (colat rm c) = 0 -> rc_tried (colat rm c) = false ->
      rc_skipped (colat rm c) = false -> state_of rm c.

Lemma eager_dec : Decision eager.
Proof. unfold eager. apply _. Defined.

Lemma first_answers rmf :
  fresh rmf -> exists rm reqs rm', start_cols vd io birth (length (rm_col rmf)) (rmf, []) = Ok (rm, reqs) /\
    serve ans reqs rm = Ok rm' /\ shape rm' /\ rm_missingdata rm' <= Z.of_nat n /\ rm_missingparity rm' <= Z.of_nat f /\
    forall c, (c < f + n)%nat -> state_of rm' c.
Proof.
  intros F. pose proof (fr_shape _ F) as Sf. rewrite (sh_len _ Sf).
  destruct (start_cols_spec rmf (f + n) rmf [] ltac:(lia) (start_init _ F)) as (rm & reqs & -> & [Sh _ Hd Hmd Hmp (ns & En & Hns)]).
  destruct (serve_spec reqs ns rm Sh En ltac:(intros c Hc%Hns; lia)) as (rm' & Es & Sh' & Ef & Hin & Hout).
  assert (rm_missingdata rm' = rm_missingdata rm /\ rm_missingparity rm' = rm_missingparity rm) as [Em1 Em2].
  { unfold set_cols in Ef. by injection Ef. }
  exists rm, reqs, rm'. split_and!; [done|done|done|..].
  - rewrite Em1, Hmd, Nat.max_r by lia. pose proof (nlost_le f (f + n - f)). lia.
  - rewrite Em2, Hmp, Nat.min_l by lia. pose proof (nlost_le 0 (f - 0)). lia.
  - intros c Hc. destruct (fr_status _ F c Hc) as (F1 & F2 & F3). specialize (Hd c ltac:(lia)). unfold started in Hd.
    destruct (in_dec Nat.eq_dec c ns) as [Hi|Hi].
    + apply Hin in Hi as Ec. apply Hns in Hi. destruct Hi as (_ & Hnl & Hwhen). apply IsRead; [done|done|..]; by rewrite Ec.
    + destruct (dead c) eqn:Edc.
      { apply IsDead; [done|..]; by rewrite (Hout c Hi), Hd. }
      destruct (stale c) eqn:Esc.
      { apply IsStale; [done|..]; rewrite (Hout c Hi), Hd; done. }
      assert (~ lost c) as Hnl by (unfold lost; rewrite Edc, Esc; intros [|]; done).
      assert (~ ((f <= c)%nat \/ eager)) as Hne by (intros Hw; apply Hi, Hns; split_and!; [lia|lia|done|done]).
      apply IsUnread; [done|destruct (decide (c < f)%nat); [done|destruct Hne; left; lia]|tauto|..]; rewrite (Hout c Hi), Hd; done.
Qed.

Lemma unread_counts rm : (forall c, (c < f + n)%nat -> state_of rm c) ->
  nunread rm f = 0 \/ nerr rm 0 f + nunread rm f = Z.of_nat f.
Proof.
  intros Hst.
  assert (forall k, (k <= f)%nat -> (eager -> nunread rm k = 0) /\ (~ eager -> nerr rm 0 k + nunread rm k = Z.of_nat k)) as H.
  { induction k as [|k IH]; intros Hk; [done|]. destruct (IH ltac:(lia)) as [IH1 IH2]. rewrite nunread_S, nerr_S, Nat.add_0_l.
    pose proof (Hst k ltac:(lia)) as Hs. split; intros He.
    - rewrite IH1 by done. destruct (decide (unread rm k)) as [[U1 U2]|]; [|lia].
      destruct Hs; first [congruence | done | unfold ESTALE in *; lia].
    - specialize (IH2 He). assert (bad_status rm k /\ ~ unread rm k \/ ~ bad_status rm k /\ unread rm k) as Hx.
      { unfold bad_status, unread. destruct Hs as [? E ?|? E ?|? Hw ? ? ? ?|]; [left..| |right]; rewrite ?E.
        - split; [done|by intros [? ?]].
        - split; [done|by intros [? ?]].
        - destruct Hw; [lia|done].
        - split; [by intros []|done]. }
      destruct (decide (bad_status rm k)), (decide (unread rm k)); lia || tauto. }
  destruct (H f ltac:(lia)) as [H1 H2]. destruct eager_dec; [left; auto|right; auto].
Qed.

Lemma first_reading rm :
  shape rm -> rm_missingdata rm <= Z.of_nat n -> rm_missingparity rm <= Z.of_nat f ->
  (forall c, (c < f + n)%nat -> state_of rm c) -> reading rm.
Proof.
  intros S M1 M2 Hst. split; [done| |done|by apply unread_counts].
  intros c Hc Hsk. destruct (Hst c Hc); try congruence; [by left|by right].
Qed.

Context (B : list nat).
Hypothesis few : (length B <= f)%nat.
Hypothesis rest_good : forall c, (c < f + n)%nat -> ~ In c B ->
  ~ lost c /\ (ans (Z.of_nat c)).1 = 0 /\ (ans (Z.of_nat c)).2 = rc_data (colat rm0 c).

(** A column read and not bad. *)
Lemma read_good rm c : state_of rm c -> rc_tried (colat rm c) = true -> (c < f + n)%nat -> ~ In c B -> ~ bad_status rm c /\ good rm c.
Proof.
  intros Hs Ht Hc Hni. destruct (rest_good c Hc Hni) as (Hnl & He & Hd). unfold bad_status, good.
  destruct Hs as [Hx|Hx| |]; try congruence; [destruct Hnl; by left|split; congruence].
Qed.

(** The second round: every column tried. *)
Lemma second_answers writable rm rm' :
  shape rm -> (forall c, (c < f + n)%nat -> state_of rm c) -> touched rm rm' -> io_write io = false ->
  exists rm3 d, serve ans (untried (with_missing rm' 0 0)) (with_missing rm' 0 0) = Ok rm3 /\
    vdev_raidz_io_done writable io rm3 = Ok (Finished (finish io writable d)) /\ done_ok d.
Proof.
  intros S Hst T Hw. set (rm2 := with_missing rm' 0 0). assert (shape rm2) as S2 by (apply shape_missing, T).
  destruct (reqs_cols (fun rc => negb (rc_tried rc)) false 0 (rm_col rm2)) as (ns & En & Hns).
  change (map rq_col (untried rm2) = map Z.of_nat ns) in En.
  assert (forall c, In c ns <-> (c < f + n)%nat /\ rc_tried (colat rm c) = false) as Hns'.
  { intros c. rewrite Hns, (sh_len _ S2), Nat.sub_0_r. fold (colat rm2 c). change (colat rm2 c) with (colat rm' c).
    destruct (tc_status _ _ T c) as (d & ->). cbn [rc_tried with_data]. rewrite negb_true_iff. split; intros [H1 H2]; (split; [lia|done]). }
  destruct (serve_spec _ ns rm2 S2 En ltac:(intros c Hc%Hns'; lia)) as (rm3 & Es & S3 & Ef & Hin & Hout).
  assert (forall c, (c < f + n)%nat -> rc_tried (colat rm c) = true -> exists d, colat rm3 c = with_data (colat rm c) d /\
    (~ bad_status rm c -> colat rm3 c = colat rm c)) as Hkeep.
  { intros c Hc Ht. rewrite Hout by (rewrite Hns'; intros [_ H]; congruence). change (colat rm2 c) with (colat rm' c).
    destruct (tc_status _ _ T c) as (d & E). exists d. split; [done|]. apply (tc_same _ _ T). }
  assert (forall c, (c < f + n)%nat -> rc_tried (colat rm c) = false -> colat rm3 c = answered (colat rm2 c) c) as Hnew.
  { intros c Hc Ht. apply Hin, Hns'. done. }
  assert (forall c, (c < f + n)%nat -> rc_tried (colat rm3 c) = true) as Htr.
  { intros c Hc. destruct (rc_tried (colat rm c)) eqn:Ht; [|by rewrite Hnew]. destruct (Hkeep c Hc Ht) as (d & -> & _). done. }
  destruct (io_done_final writable io rm3 B Hw) as (d & E & Hd); [| |done| |].
  - split; [done| | |left].
    + intros c Hc Hsk. destruct (rc_tried (colat rm c)) eqn:Ht; [|by rewrite Hnew in Hsk].
      destruct (Hkeep c Hc Ht) as (d & E & _). rewrite E in Hsk |- *. cbn in Hsk |- *. destruct (Hst c Hc); try congruence. by left.
    + assert (rm_missingdata rm3 = 0 /\ rm_missingparity rm3 = 0) as [-> ->]; [|lia]. unfold set_cols in Ef. by injection Ef.
    + unfold nunread. destruct (filter (unread rm3) (seq 0 f)) as [|c l] eqn:E; [done|].
      assert (c ∈ filter (unread rm3) (seq 0 f)) as [[_ Ht] Hc%list_elem_of_In%in_seq]%list_elem_of_filter by (rewrite E; apply list_elem_of_here).
      rewrite Htr in Ht; [done|lia].
  - done.
  - intros c Hc Hni. destruct (rc_tried (colat rm c)) eqn:Ht.
    + destruct (read_good rm c (Hst c Hc) Ht Hc Hni) as [Hb Hg]. destruct (Hkeep c Hc Ht) as (_ & _ & Hk). unfold bad_status, good in *. by rewrite (Hk Hb).
    + destruct (rest_good c Hc Hni) as (_ & He & Hdat). unfold bad_status, good. rewrite Hnew by done. cbn. rewrite He. split; [by intros []|done].
  - by exists rm3, d.
Qed.

Lemma rounds_spec writable rm :
  shape rm -> reading rm -> (forall c, (c < f + n)%nat -> state_of rm c) -> io_write io = false ->
  exists d, read_rounds 2 writable io ans rm = Ok (finish io writable d) /\ done_ok d.
Proof.
  intros S Hr Hst Hw.
  destruct (untried rm) as [|q qs] eqn:Eu.
  - pose proof (proj1 (untried_none rm S) Eu) as Htr.
    destruct (io_done_final writable io rm B Hw Hr Htr few) as (d & E & Hd); [intros c Hc Hni; apply read_good; auto|].
    cbn [read_rounds]. rewrite E. run. by exists d.
  - destruct (io_done_phase1 writable io rm Hw Hr) as [(d & E & Hd)|(rm' & T & E & _)].
    { cbn [read_rounds]. rewrite E. run. by exists d. }
    destruct (second_answers writable rm rm' S Hst T Hw) as (rm3 & d & Es & Ed & Hd).
    assert (untried (with_missing rm' 0 0) <> []) as Hne.
    { intros Hn. pose proof (proj1 (untried_none _ (shape_missing _ 0 0 (tc_shape _ _ T))) Hn) as Hn'. clear Hn. rename Hn' into Hn. assert (untried rm = []) as Hz; [|by rewrite Hz in Eu].
      apply (untried_none rm S). intros c Hc. specialize (Hn c Hc). change (colat (with_missing rm' 0 0) c) with (colat rm' c) in Hn.
      destruct (tc_status _ _ T c) as (dd & Ec). rewrite Ec in Hn. done. }
    exists d. split; [|done]. cbn [read_rounds]. rewrite E. unfold fallback.
    destruct (untried (with_missing rm' 0 0)) as [|q' qs'] eqn:Eu'; [done|]. run. rewrite Es. run. rewrite Ed. run. done.
Qed.

Lemma read_spec writable rmf :
  fresh rmf -> io_write io = false ->
  exists rm reqs rm' d, start_cols vd io birth (length (rm_col rmf)) (rmf, []) = Ok (rm, reqs) /\ serve ans reqs rm = Ok rm' /\
    read_rounds 2 writable io ans rm' = Ok (finish io writable d) /\ done_ok d.
Proof.
  intros F Hw. destruct (first_answers rmf F) as (rm & reqs & rm' & E1 & E2 & S & M1 & M2 & Hst).
  destruct (rounds_spec writable rm' S (first_reading rm' S M1 M2 Hst) Hst Hw) as (d & E3 & Hd). by exists rm, reqs, rm', d.
Qed.

End Answers.

(** The right buffer has the right columns. *)
Lemma concat_inj (l1 l2 : list (list Z)) :
  length l1 = length l2 -> (forall i a b, l1 !! i = Some a -> l2 !! i = Some b -> length a = length b) -> concat l1 = concat l2 -> l1 = l2.
Proof.
  revert l2. induction l1 as [|a l1 IH]; intros [|b l2] Hl Hab E; try done. cbn [concat] in E.
  pose proof (Hab 0%nat a b eq_refl eq_refl) as H0. apply app_inj_1 in E as [-> E]; [|done]. f_equal.
  apply IH; [by injection Hl|intros i; apply (Hab (Datatypes.S i))|done].
Qed.

Lemma buffer_good rm : shape rm -> io_buffer rm = io_buffer rm0 -> forall c, (c < n)%nat -> good rm (f + c).
Proof.
  intros S E c Hc. unfold io_buffer in E. rewrite (sh_first _ S), (sh_first _ shape_rm0), Nat2Z.id in E.
  assert (forall r j, shape r -> (j < n)%nat -> map rc_data (drop f (rm_col r)) !! j = Some (rc_data (colat r (f + j)))) as Hlk.
  { intros r j Sr Hj. rewrite list_lookup_fmap, lookup_drop.
    destruct (lookup_lt_is_Some_2 (rm_col r) (f + j)) as [rc Hrc]; [rewrite (sh_len _ Sr); lia|]. rewrite Hrc. cbn. unfold colat.
    by rewrite (nth_lookup_Some _ _ _ _ Hrc). }
  assert (forall r, shape r -> length (map rc_data (drop f (rm_col r))) = n) as Hln.
  { intros r Sr. rewrite length_map, length_drop, (sh_len _ Sr). lia. }
  apply concat_inj in E.
  - pose proof (Hlk rm c S Hc) as H1. rewrite E, (Hlk rm0 c shape_rm0 Hc) in H1. unfold good. congruence.
  - by rewrite !Hln by (done || apply shape_rm0).
  - intros i x y Hx Hy. assert (i < n)%nat as Hi by (apply lookup_lt_Some in Hx; rewrite Hln in Hx; done).
    rewrite (Hlk rm i S Hi) in Hx. rewrite (Hlk rm0 i shape_rm0 Hi) in Hy. injection Hx as <-. injection Hy as <-.
    by destruct (sh_col _ S (f + i)%nat ltac:(lia)) as (_ & _ & _ & -> & _).
Qed.

Lemma in_reqs p w a cols q :
  In q (reqs_where p w (Z.of_nat a) cols) -> exists c, (a <= c < a + length cols)%nat /\ q = child_io (Z.of_nat c) (nth (c - a) cols col0) w.
Proof.
  revert a. induction cols as [|rc cols IH]; intros a Hin; cbn [reqs_where] in Hin; [done|].
  replace (Z.of_nat a + 1) with (Z.of_nat (Datatypes.S a)) in Hin by lia.
  assert (In q (reqs_where p w (Z.of_nat (Datatypes.S a)) cols) -> exists c, (a <= c < a + length (rc :: cols))%nat /\ q = child_io (Z.of_nat c) (nth (c - a) (rc :: cols) col0) w) as Htl.
  { intros (c & Hc & ->)%IH. exists c. cbn [length]. split; [lia|]. by replace (c - a)%nat with (Datatypes.S (c - Datatypes.S a)) by lia. }
  destruct (p rc); [|by apply Htl]. destruct Hin as [<-|Hin]; [|by apply Htl]. exists a. cbn [length]. split; [lia|]. by rewrite Nat.sub_diag.
Qed.

(** Repairs write good data, on the children it belongs to. *)
Lemma repairs_good io writable d q :
  shape (d_rm d) -> io_buffer (d_rm d) = io_buffer rm0 -> In q (r_repairs (finish io writable d)) -> Z.of_nat f <= rq_col q ->
  exists c, q = child_io (Z.of_nat c) (colat (d_rm d) c) true /\ (c < f + n)%nat /\
    rq_data q = rc_data (colat rm0 c) /\ rq_dev q = rc_devidx (colat rm0 c) /\ rq_offset q = rc_offset (colat rm0 c).
Proof.
  intros S Eb Hin Hq. unfold finish in Hin. cbn [r_repairs] in Hin. destruct (_ && _ && _); [|done].
  change 0 with (Z.of_nat 0) in Hin at 2. apply in_reqs in Hin as (c & Hc & ->). rewrite (sh_len _ S), Nat.sub_0_r in *. fold (colat (d_rm d) c).
  exists c. destruct (sh_col _ S c ltac:(lia)) as (E1 & E2 & _). split_and!; [done|lia| |done|done].
  cbn. cbn in Hq. replace c with (f + (c - f))%nat by lia. apply (buffer_good _ S Eb). lia.
Qed.

End Read.

(** ** From the layout to the block as written *)

Lemma generate_ok rm rm0 f n pc :
  rz_ok rm f n pc -> f = 1%nat \/ f = 2%nat -> generate_parity rm = Ok rm0 ->
  rz_ok rm0 f n pc /\ rc_data (colat rm0 0) = pvec rm0 n pc /\ (f = 2%nat -> rc_data (colat rm0 1) = qvec rm0 n pc) /\
  (forall c, exists d, colat rm0 c = with_data (colat rm c) d /\ ((c < f)%nat -> length d = pc) /\ ((f <= c)%nat -> colat rm0 c = colat rm c)) /\
  length (rm_col rm0) = length (rm_col rm) /\ set_cols rm0 [] = set_cols rm [].
Proof.
  intros R Hf E. pose proof (gp_cols _ _ _ _ (rz_gen _ _ _ _ R)) as Hc. unfold generate_parity in E.
  rewrite (gp_first _ _ _ _ (rz_gen _ _ _ _ R)) in E.
  assert (Hid : forall c, colat rm c = with_data (colat rm c) (rc_data (colat rm c))) by (intros c; by destruct (colat rm c)).
  destruct Hf as [-> | ->]; cbn [Z.of_nat Pos.of_succ_nat Pos.succ Z.eqb Pos.eqb] in E.
  - destruct (generated_p rm rm0 1 n pc R E) as [R0 HP]. split_and!; [done|done|done|..].
    + rewrite (generate_p_spec rm 1 n pc (rz_gen _ _ _ _ R) (rz_first _ _ _ _ R)) in E. injection E as <-. intros c.
      rewrite colat_put by lia.
      destruct (decide (c = 0%nat)) as [->|]; [exists (pvec rm n pc); split; [done|split; [intros; apply pvec_len|lia]]|].
      exists (rc_data (colat rm c)). split; [apply Hid|split; [lia|done]].
    + rewrite (gp_cols _ _ _ _ (rz_gen _ _ _ _ R0)). done.
    + rewrite (generate_p_spec rm 1 n pc (rz_gen _ _ _ _ R) (rz_first _ _ _ _ R)) in E. by injection E as <-.
  - destruct (generated_pq rm rm0 n pc R E) as (R0 & HP & HQ & _). split_and!; [done|done|done|..].
    + rewrite (generate_pq_spec rm n pc (rz_gen _ _ _ _ R) (or_introl (rz_first _ _ _ _ R))) in E. injection E as <-. intros c.
      rewrite !colat_put by (rewrite ?put_len; lia).
      destruct (decide (c = 1%nat)) as [->|]; [exists (qvec rm n pc); destruct (decide _); [lia|]; split; [done|split; [intros; apply qvec_len|lia]]|].
      destruct (decide (c = 0%nat)) as [->|]; [exists (pvec rm n pc); split; [done|split; [intros; apply pvec_len|lia]]|].
      exists (rc_data (colat rm c)). split; [apply Hid|split; [lia|done]].
    + rewrite (gp_cols _ _ _ _ (rz_gen _ _ _ _ R0)). done.
    + rewrite (generate_pq_spec rm n pc (rz_gen _ _ _ _ R) (or_introl (rz_first _ _ _ _ R))) in E. by injection E as <-.
Qed.

Lemma generate_runs rm f n pc : rz_ok rm f n pc -> f = 1%nat \/ f = 2%nat -> exists rm0, generate_parity rm = Ok rm0.
Proof.
  intros R Hf. unfold generate_parity. rewrite (gp_first _ _ _ _ (rz_gen _ _ _ _ R)). destruct Hf as [-> | ->]; eexists.
  - apply (generate_p_spec rm 1 n pc (rz_gen _ _ _ _ R) (rz_first _ _ _ _ R)).
  - apply (generate_pq_spec rm n pc (rz_gen _ _ _ _ R) (or_introl (rz_first _ _ _ _ R))).
Qed.

Lemma gen_vec_u64 rm f n pc : rz_ok rm f n pc -> Forall is_u64 (pvec rm n pc) /\ Forall is_u64 (qvec rm n pc).
Proof.
  intros R. pose proof (rz_gen _ _ _ _ R) as G. unfold pvec, qvec.
  split; apply List.Forall_map, List.Forall_forall; intros i _; destruct (dat_all_u64 rm f n pc i G) as (d & Hu & Hd).
  - rewrite (xs_ext _ d n Hd). by apply xs_u64.
  - rewrite (hs_ext _ d n Hd). by apply hs_u64.
Qed.

Section Written.
Context (walloc : Z -> Z -> list Z) (iow : zio) (sh d np : Z).
Hypothesis HW : layout_ok walloc iow sh d np.
Hypothesis Hnp : np = 1 \/ np = 2.
Hypothesis Hd : d - np <= 255.
Context (rm0 : raidz_map).
Hypothesis E0 : generate_parity (the_map walloc iow sh d np) = Ok rm0.
Notation f := (Z.to_nat np).
Notation n := (n_data iow sh d np).
Notation pc := (words_0 iow sh d np).

Lemma written_spec :
  written rm0 f n pc /\ length (rm_col rm0) = (f + n)%nat /\ io_buffer rm0 = io_data iow /\
  forall c, (c < f + n)%nat -> rc_devidx (colat rm0 c) = rc_devidx (colat (the_map walloc iow sh d np) c) /\
    rc_offset (colat rm0 c) = rc_offset (colat (the_map walloc iow sh d np) c) /\
    rc_size (colat rm0 c) = rc_size (colat (the_map walloc iow sh d np) c) /\
    length (rc_data (colat rm0 c)) = length (rc_data (colat (the_map walloc iow sh d np) c)).
Proof.
  pose proof (the_map_ok _ _ _ _ _ HW) as R. assert (f = 1%nat \/ f = 2%nat) as Hf by lia.
  destruct (generate_ok _ rm0 f n pc R Hf E0) as (R0 & HP & HQ & Hcol & Hlen & _). rewrite (the_map_len _ _ _ _ _ HW) in Hlen.
  assert (forall c, (c < f)%nat -> length (rc_data (colat rm0 c)) = pc) as Hpl by (intros; by apply (gp_p _ _ _ _ (rz_gen _ _ _ _ R0))).
  assert (forall c, (c < f)%nat -> length (rc_data (colat (the_map walloc iow sh d np) c)) = pc) as Hpl' by (intros; by apply (gp_p _ _ _ _ (rz_gen _ _ _ _ R))).
  assert (forall c, (c < f + n)%nat -> rc_size (colat rm0 c) = rc_size (colat (the_map walloc iow sh d np) c) /\
    length (rc_data (colat rm0 c)) = length (rc_data (colat (the_map walloc iow sh d np) c))) as Hsz.
  { intros c Hc. destruct (Hcol c) as (dt & E & H1 & H2). split; [by rewrite E|]. destruct (decide (c < f)%nat); [by rewrite Hpl, Hpl'|].
    by rewrite H2 by lia. }
  destruct (gen_vec_u64 rm0 f n pc R0) as [Up Uq].
  split_and!; [split| | |].
  - done.
  - done.
  - destruct (sec_cols_range _ _ _ _ _ HW) as (Hc & _). unfold n_data. lia.
  - done.
  - done.
  - intros c Hc. destruct c as [|[|c]]; [by rewrite HP|rewrite HQ by lia; done|lia].
  - intros c Hc. rewrite (proj2 (Hsz c Hc)). by apply (the_map_new _ _ _ _ _ HW).
  - intros x y Hxy Hy. rewrite (proj1 (Hsz (f + y)%nat ltac:(lia))), (proj1 (Hsz (f + x)%nat ltac:(lia))). by apply (the_map_ord _ _ _ _ _ HW).
  - done.
  - rewrite <- (the_map_buffer _ _ _ _ _ HW). unfold io_buffer.
    rewrite (gp_first _ _ _ _ (rz_gen _ _ _ _ R)), (gp_first _ _ _ _ (rz_gen _ _ _ _ R0)). f_equal. f_equal.
    apply (nth_ext _ _ col0 col0); [by rewrite !length_drop, Hlen, (the_map_len _ _ _ _ _ HW)|]. intros i Hi. rewrite length_drop, Hlen in Hi.
    rewrite !nth_skipn, Nat2Z.id. fold (colat rm0 (f + i)) (colat (the_map walloc iow sh d np) (f + i)).
    destruct (Hcol (f + i)%nat) as (_ & _ & _ & H2). apply H2. lia.
  - intros c Hc. destruct (Hcol c) as (dt & E & _ & _). destruct (Hsz c Hc) as [H1 H2]. split_and!; [by rewrite E|by rewrite E|done|done].
Qed.

Lemma fresh_spec alloc io :
  layout_ok alloc io sh d np -> (forall c size, Forall is_u64 (alloc c size)) ->
  io_offset io = io_offset iow -> io_size io = io_size iow -> fresh rm0 f n (the_map alloc io sh d np).
Proof.
  intros HL Hu Eo Es. destruct written_spec as (Wr & Hlen & _ & Hcol).
  destruct (the_map_same _ _ _ _ _ _ _ HL HW Eo Es) as (En & Ew & Hsame).
  pose proof (the_map_ok _ _ _ _ _ HL) as R. rewrite En, Ew in R.
  split; [split|done|].
  - apply (gp_first _ _ _ _ (rz_gen _ _ _ _ R)).
  - apply (gp_cols _ _ _ _ (rz_gen _ _ _ _ R)).
  - intros c Hc. destruct (Hcol c Hc) as (-> & -> & -> & ->). rewrite <- En in Hc. destruct (Hsame c Hc) as (-> & -> & -> & ->).
    split_and!; try done. destruct (decide (c < f)%nat).
    + destruct (the_map_at _ _ _ _ _ HL c Hc) as [-> _]. unfold lcol, fcol, col_data. cbn [rc_data at_dev with_data].
      rewrite (proj2 (Z.ltb_lt (Z.of_nat c) np)) by lia. apply Hu.
    + replace c with (f + (c - f))%nat by lia. apply (gp_u64 _ _ _ _ (rz_gen _ _ _ _ R)). lia.
  - intros c Hc. rewrite <- En in Hc. destruct (the_map_new _ _ _ _ _ HL c Hc) as (H1 & H2 & H3 & _). done.
Qed.

End Written.

(** ** Properties *)

(** Column [c] is of no use for reading the block [rm0] was written as: its child is
    dead or is known to miss the block, or its answer is an error or other data. *)
Definition unusable (vd : raidz_vdev) (birth : Z) (rm0 : raidz_map) (ans : Z -> Z * list Z) (c : nat) : Prop :=
  (exists cvd, get_child vd (rc_devidx (colat rm0 c)) = Ok cvd /\
     (vdev_is_dead cvd = true \/ vdev_dtl_contains (vdev_dtl_map cvd) birth 1 = Ok true)) \/
  (ans (Z.of_nat c)).1 <> 0 \/ (ans (Z.of_nat c)).2 <> rc_data (colat rm0 c).

Lemma io_start_map alloc vd io birth sh np :
  layout_ok alloc io sh (zlen (vdev_child vd)) np -> vdev_ashift vd = sh -> vdev_nparity vd = np ->
  vdev_raidz_io_start alloc vd io birth =
    let rm := the_map alloc io sh (zlen (vdev_child vd)) np in
    if io_write io then rm ← generate_parity rm; Ok (rm, reqs_where (fun _ => true) true 0 (rm_col rm))
    else start_cols vd io birth (length (rm_col rm)) (rm, []).
Proof.
  intros HL <- <-. unfold vdev_raidz_io_start. rewrite (map_alloc_spec _ _ _ _ _ HL). run.
  rewrite (asize_spec _ _ _ _ _ HL). cbn [rm_asize cols_at]. rewrite Z.eqb_refl. cbn [verify]. run. done.
Qed.

Lemma get_child_in vd dev : 0 <= dev < zlen (vdev_child vd) -> exists cvd, get_child vd dev = Ok cvd /\ In cvd (vdev_child vd).
Proof.
  intros Hd. unfold get_child. destruct (Z.ltb_spec dev 0); [lia|].
  destruct (lookup_lt_is_Some_2 (vdev_child vd) (Z.to_nat dev)) as [cvd E]; [lia|]. rewrite E. exists cvd. split; [done|].
  by apply list_elem_of_In, (list_elem_of_lookup_2 _ (Z.to_nat dev)).
Qed.

(** C28: a RAID-Z read survives as many unusable columns as the vdev has parity.
    Take any block written through [vdev_raidz_io_start] and a read of the same place;
    let the columns of dead children, of children whose DTL says they miss the block,
    and of children that answer with an error or, silently, with other data number at
    most [nparity].  Then the read, through its first half, the answers and at most two
    rounds of [vdev_raidz_io_done], returns without a failed assertion, reports no
    error, and hands up a buffer the checksum accepts; and if the checksum accepts only
    the data written, that is the data, and every repair of a data column that it issues
    writes what belongs there. *)
Theorem raidz_read_recovers (walloc : Z -> Z -> list Z) (vd : raidz_vdev) (iow io : zio) (wbirth birth : Z) (writable : bool)
    (rm0 : raidz_map) (wreqs : list req) (ans : Z -> Z * list Z) (bad : list nat) :
  let d := zlen (vdev_child vd) in let np := vdev_nparity vd in
  layout_ok walloc iow (vdev_ashift vd) d np -> layout_ok zio_buf_alloc io (vdev_ashift vd) d np ->
  (np = 1 \/ np = 2) -> d - np <= 255 ->
  (forall c size, Forall is_u64 (zio_buf_alloc c size)) ->
  io_offset io = io_offset iow -> io_size io = io_size iow -> io_write iow = true -> io_write io = false ->
  vdev_raidz_io_start walloc vd iow wbirth = Ok (rm0, wreqs) ->
  Forall (fun cvd => exists b, vdev_dtl_contains (vdev_dtl_map cvd) birth 1 = Ok b) (vdev_child vd) ->
  (forall c, (c < length (rm_col rm0))%nat ->
     length (ans (Z.of_nat c)).2 = length (rc_data (colat rm0 c)) /\ Forall is_u64 (ans (Z.of_nat c)).2) ->
  zio_checksum_error (io_data iow) = 0 ->
  (forall c, (c < length (rm_col rm0))%nat -> unusable vd birth rm0 ans c -> In c bad) -> Z.of_nat (length bad) <= np ->
  exists r, raidz_read vd writable io birth ans = Ok r /\ r_error r = 0 /\ zio_checksum_error (io_buffer (r_rm r)) = 0 /\
    ((forall b, zio_checksum_error b = 0 -> b = io_data iow) -> io_buffer (r_rm r) = io_data iow /\
       forall q, In q (r_repairs r) -> np <= rq_col q ->
         exists rc, rm_col rm0 !! Z.to_nat (rq_col q) = Some rc /\
           rq_data q = rc_data rc /\ rq_dev q = rc_devidx rc /\ rq_offset q = rc_offset rc).
Proof.
  intros d np HW HL Hnp Hd Hu Eo Es Hww Hwr E0 Hdtl Hans Hck Hbad Hfew.
  rewrite (io_start_map walloc vd iow wbirth _ _ HW eq_refl eq_refl), Hww in E0. cbn zeta in E0.
  destruct (generate_parity _) as [rm0'|] eqn:Eg; [|done]. run. injection E0 as -> _.
  destruct (written_spec walloc iow _ d np HW Hnp Hd rm0 Eg) as (Wr & Hlen & Hbuf & Hcol).
  pose proof (fresh_spec walloc iow _ d np HW Hnp Hd rm0 Eg zio_buf_alloc io HL Hu Eo Es) as Fr.
  set (f := Z.to_nat np) in *. set (n := n_data iow (vdev_ashift vd) d np) in *. rewrite Hlen in Hans, Hbad.
  set (child c := get_child vd (rc_devidx (colat rm0 c))).
  set (dead c := match child c with Ok cvd => vdev_is_dead cvd | Err _ => false end).
  set (stale c := match child c with
    | Ok cvd => match vdev_dtl_contains (vdev_dtl_map cvd) birth 1 with Ok b => b | Err _ => false end
    | Err _ => false end).
  assert (forall c, (c < f + n)%nat -> exists cvd, get_child vd (rc_devidx (colat rm0 c)) = Ok cvd /\
    vdev_is_dead cvd = dead c /\ vdev_dtl_contains (vdev_dtl_map cvd) birth 1 = Ok (stale c)) as Hch.
  { intros c Hc. destruct (the_map_at _ _ _ _ _ HW c Hc) as [Ec Hr].
    destruct (get_child_in vd (rc_devidx (colat rm0 c))) as (cvd & Eq & Hin).
    { destruct (Hcol c Hc) as (-> & _). rewrite Ec. apply (geom_dev walloc iow _ _ _ HW). by apply (sw_range walloc iow _ _ _ HW). }
    rewrite List.Forall_forall in Hdtl. destruct (Hdtl cvd Hin) as (b & Eb). exists cvd. unfold dead, stale, child. rewrite Eq, Eb. done. }
  assert (forall c, (c < f + n)%nat -> ~ In c bad -> ~ lost dead stale c /\ (ans (Z.of_nat c)).1 = 0 /\
    (ans (Z.of_nat c)).2 = rc_data (colat rm0 c)) as Hrest.
  { intros c Hc Hni. destruct (Hch c Hc) as (cvd & Eq & Ed & Est). split_and!.
    - intros Hl. apply Hni, Hbad; [done|]. left. exists cvd. rewrite Ed, Est. split; [done|]. destruct Hl as [-> | ->]; [by left|by right].
    - destruct (decide ((ans (Z.of_nat c)).1 = 0)) as [|Hne]; [done|]. destruct Hni. apply Hbad; [done|]. right. by left.
    - destruct (decide ((ans (Z.of_nat c)).2 = rc_data (colat rm0 c))) as [|Hne]; [done|]. destruct Hni. apply Hbad; [done|]. right. by right. }
  assert (zio_checksum_error (io_buffer rm0) = 0) as Hck0 by (by rewrite Hbuf).
  destruct (read_spec rm0 f n _ Wr (lo_alloc _ _ _ _ _ HL) Hck0 ans Hans vd io birth dead stale Hch bad ltac:(lia) Hrest writable _ Fr Hwr)
    as (rm & reqs & rm' & dn & E1 & E2 & E3 & D1 & D2 & D3).
  exists (finish io writable dn). split_and!.
  - unfold raidz_read. rewrite (io_start_map zio_buf_alloc vd io birth _ _ HL eq_refl eq_refl), Hwr. cbn zeta. fold d np. rewrite E1. run. rewrite E2. run. done.
  - done.
  - by apply Z.eqb_eq in D3.
  - intros Hinj. assert (io_buffer (d_rm dn) = io_data iow) as Eb by (apply Hinj; by apply Z.eqb_eq in D3). split; [done|].
    intros q Hq Hc. destruct (repairs_good rm0 f n _ Wr io writable dn q D2 ltac:(by rewrite Eb, Hbuf) Hq ltac:(lia)) as (c & -> & Hcl & Q1 & Q2 & Q3).
    exists (colat rm0 c). split; [|done]. cbn [rq_col child_io]. rewrite Nat2Z.id. unfold colat.
    destruct (lookup_lt_is_Some_2 (rm_col rm0) c) as [rc Erc]; [lia|]. by rewrite Erc, (nth_lookup_Some _ _ _ _ Erc).
Qed.

Lemma all_reqs_len w c cols : length (reqs_where (fun _ => true) w c cols) = length cols.
Proof. revert c. induction cols as [|rc l IH]; intros c; [done|]. cbn [reqs_where length]. by rewrite IH. Qed.

Lemma filter_ext_in (P Q : nat -> Prop) `{forall c, Decision (P c)} `{forall c, Decision (Q c)} (l : list nat) :
  (forall c, In c l -> P c <-> Q c) -> filter P l = filter Q l.
Proof.
  induction l as [|a l IH]; intros Hpq; [done|]. rewrite !filter_cons, IH by (intros; apply Hpq; by right).
  destruct (Hpq a ltac:(by left)). destruct (decide (P a)), (decide (Q a)); tauto || done.
Qed.

Definition failed (error : Z -> Z) (a k : nat) : list nat := filter (fun c => error (Z.of_nat c) <> 0) (seq a k).

Lemma complete_spec error k a rm :
  (a + k <= length (rm_col rm))%nat ->
  exists rm', complete error k (Z.of_nat a) rm = Ok rm' /\ set_cols rm' [] = set_cols rm [] /\ length (rm_col rm') = length (rm_col rm) /\
    forall c, colat rm' c = if decide (a <= c < a + k)%nat then with_status (colat rm c) (error (Z.of_nat c)) true false else colat rm c.
Proof.
  revert a rm. induction k as [|k IH]; intros a rm Ha; cbn [complete].
  { exists rm. split_and!; [done|done|done|]. intros c. destruct (decide _); [lia|done]. }
  unfold vdev_raidz_child_done at 1. rewrite get_col_at by lia. run. replace (Z.of_nat a + 1) with (Z.of_nat (S a)) by lia.
  set (rm1 := set_col rm (Z.of_nat a) (with_status (colat rm a) (error (Z.of_nat a)) true false)).
  assert (length (rm_col rm1) = length (rm_col rm)) as L1 by (cbn; apply length_insert).
  destruct (IH (S a) rm1 ltac:(lia)) as (rm' & -> & Ef & Hl & Hc). exists rm'. split_and!; [done|done|lia|]. intros c. rewrite Hc.
  unfold rm1. rewrite !colat_set_col by lia. repeat destruct (decide _); subst; try lia; done.
Qed.

(** C29: a RAID-Z write, with its parity generated, is done without error exactly when
    no column failed, or no more columns failed than there is parity and the write is
    not a failfast one: then what is on the children is enough to read it back. *)
Theorem raidz_write_done (walloc : Z -> Z -> list Z) (vd : raidz_vdev) (iow : zio) (birth : Z) (writable : bool) (error : Z -> Z) :
  let d := zlen (vdev_child vd) in let np := vdev_nparity vd in
  layout_ok walloc iow (vdev_ashift vd) d np -> (np = 1 \/ np = 2) -> d - np <= 255 -> io_write iow = true ->
  exists rm0 reqs rm1 r, vdev_raidz_io_start walloc vd iow birth = Ok (rm0, reqs) /\
    length reqs = length (rm_col rm0) /\
    complete error (length (rm_col rm0)) 0 rm0 = Ok rm1 /\
    vdev_raidz_io_done writable iow rm1 = Ok (Finished r) /\
    let failures := zlen (failed error 0 (length (rm_col rm0))) in
    (r_error r = 0 <-> failures = 0 \/ failures <= np /\ has_flag iow ZIO_FLAG_FAILFAST = false).
Proof.
  intros d np HW Hnp Hd Hw. subst d np. rewrite (io_start_map walloc vd iow birth _ _ HW eq_refl eq_refl), Hw. cbn zeta.
  pose proof (the_map_ok _ _ _ _ _ HW) as R.
  set (f := Z.to_nat (vdev_nparity vd)) in *. set (n := n_data iow (vdev_ashift vd) (zlen (vdev_child vd)) (vdev_nparity vd)) in *.
  destruct (generate_runs _ f n _ R ltac:(lia)) as (rm0 & E0). rewrite E0. run.
  destruct (generate_ok _ rm0 f n _ R ltac:(lia) E0) as (_ & _ & _ & _ & _ & Ef0).
  destruct (written_spec walloc iow _ _ _ HW Hnp Hd rm0 E0) as (Wr & Hlen & _ & _).
  destruct (complete_spec error (length (rm_col rm0)) 0 rm0 ltac:(lia)) as (rm1 & E1 & Ef & Hl & Hc).
  assert (shape rm0 f n rm1) as S1.
  { destruct (shape_rm0 rm0 f n _ Wr) as [H1 H2 H3]. split; [unfold set_cols in Ef; injection Ef; congruence|lia|]. intros c Hcn.
    rewrite Hc. destruct (decide _); by apply H3. }
  pose proof (tally_spec rm0 f n rm1 S1) as [T1 T2 T3 _ T5]. replace (f + n - f)%nat with n in T2 by lia. rewrite Nat.min_r in T1 by lia.
  assert (t_numerrors (tally_of rm1) = zlen (failed error 0 (length (rm_col rm0)))) as En.
  { rewrite T3, T1, T2, <- (nerr_app f n). unfold nerr, errs, failed. rewrite Hlen. do 2 f_equal. apply filter_ext_in.
    intros c Hcn%in_seq. unfold bad_status. rewrite Hc. destruct (decide _); [done|lia]. }
  assert (rm_missingparity rm1 = 0 /\ rm_missingdata rm1 = 0) as [M1 M2].
  { rewrite Ef0 in Ef. unfold set_cols in Ef. by injection Ef. }
  eexists rm0, _, rm1, _. split_and!; [done|apply all_reqs_len|done| |].
  - unfold vdev_raidz_io_done. fold (tally_of rm1). rewrite M1, M2, (sh_first _ _ _ _ S1), (proj2 (Z.leb_le 0 (Z.of_nat f))) by lia. cbn [verify]. run.
    unfold rm_cols. rewrite (sh_len _ _ _ _ S1), (proj2 (Z.leb_le 0 (Z.of_nat (f + n) - Z.of_nat f))) by lia. cbn [verify]. run. rewrite Hw. done.
  - cbn [r_error]. rewrite En in *. destruct (Z.leb_spec (zlen (failed error 0 (length (rm_col rm0)))) (Z.of_nat f)) as [Hle|Hgt];
      destruct (has_flag iow ZIO_FLAG_FAILFAST) eqn:Eff; cbn [andb negb].
    2: split; [intros _; right; split; [lia|done]|done].
    all: split; [|intros [H|[H1 H2]]; [destruct (Z.eq_dec (t_error (tally_of rm1)) 0) as [|Hne]; [done|apply T5 in Hne; lia]|lia || done]].
    all: intros H; left; destruct (Z.eq_dec (zlen (failed error 0 (length (rm_col rm0)))) 0) as [|Hne]; [done|exfalso; by apply T5; [lia|]].
Qed.

End RaidzIo.

(** ** Witnesses: three words over five children with double parity *)

#[local] Existing Instance Avl.avl_OrdTree.

Definition w_child (state : Z) : vdev := Vdev state (space_map_create 0 (2 ^ 40) 0).
Definition w_vd : raidz_vdev := RVdev 3 2 [w_child 7; w_child 7; w_child 7; w_child 4; w_child 7].
Definition w_write : zio := Zio 0 24 [11; 22; 33] true 0 0 0.
Definition w_read : zio := Zio 0 24 [0; 0; 0] false 0 0 0.
Definition w_buf (c size : Z) : list Z := repeat 99 (Z.to_nat (size / 8)).
Definition w_cksum (b : list Z) : Z := if decide (b = [11; 22; 33]) then 0 else ECKSUM.

(** The block on the children, and answers in which a column is silently wrong; the
    child of another one is dead. *)
Definition w_block : raidz_map * list req :=
  match vdev_raidz_io_start w_buf w_vd w_write 0 with Ok r => r | Err _ => (RMap 0 0 0 0 0 [], []) end.
Definition w_ans (c : Z) : Z * list Z :=
  if c =? 2 then (0, [12]) else (0, rc_data (colat w_block.1 (Z.to_nat c))).

Lemma w_layouts data w : Forall is_u64 data -> length data = 3%nat -> layout_ok w_buf (Zio 0 24 data w 0 0 0) 3 5 2.
Proof.
  intros Hu Hl. split; [lia|lia|lia|cbn; lia|cbn; lia|reflexivity|reflexivity|reflexivity|cbn; lia|done|].
  intros c size Hs. unfold w_buf. rewrite repeat_length. apply Z2Nat.id. by apply Z.div_pos.
Qed.

Lemma w_words (l : list Z) : forallb (fun w => (0 <=? w) && (w <? 2 ^ 64)) l = true -> Forall is_u64 l.
Proof. rewrite forallb_forall, List.Forall_forall. intros H x Hx. specialize (H x Hx). unfold is_u64. lia. Qed.

Lemma w_columns (Q : nat -> Prop) : Q 0%nat -> Q 1%nat -> Q 2%nat -> Q 3%nat -> Q 4%nat -> forall c, (c < length (rm_col w_block.1))%nat -> Q c.
Proof. intros ? ? ? ? ? c Hc. replace (length (rm_col w_block.1)) with 5%nat in Hc by (vm_compute; reflexivity).
  destruct c as [|[|[|[|[|c]]]]]; try done. lia. Qed.

Lemma w_dtl s : vdev_dtl_contains (vdev_dtl_map (w_child s)) 0 1 = Ok false.
Proof. reflexivity. Qed.

Lemma w_usable c :
  get_child w_vd (rc_devidx (colat w_block.1 c)) = Ok (w_child 7) -> (w_ans (Z.of_nat c)).1 = 0 ->
  (w_ans (Z.of_nat c)).2 = rc_data (colat w_block.1 c) -> unusable w_vd 0 w_block.1 w_ans c -> In c [2%nat; 3%nat].
Proof.
  intros E1 E2 E3 [(cvd & Ec & Hs)|[Hs|Hs]]; [|by destruct Hs..]. rewrite E1 in Ec. injection Ec as <-.
  rewrite w_dtl in Hs. destruct Hs; discriminate.
Qed.

Lemma w_bad c : (c < length (rm_col w_block.1))%nat -> unusable w_vd 0 w_block.1 w_ans c -> In c [2%nat; 3%nat].
Proof.
  revert c. refine (w_columns _ _ _ _ _ _); [apply w_usable; reflexivity|apply w_usable; reflexivity|by left|by right; left|].
  apply w_usable; reflexivity.
Qed.
Lemma w_dtls : Forall (fun cvd => exists b, vdev_dtl_contains (vdev_dtl_map cvd) 0 1 = Ok b) (vdev_child w_vd).
Proof. repeat (apply List.Forall_cons || apply List.Forall_nil); exists false; apply w_dtl. Qed.

Lemma raidz_read_recovers_witness :
  exists r, raidz_read w_cksum w_buf w_vd true w_read 0 w_ans = Ok r /\ r_error r = 0 /\ io_buffer (r_rm r) = [11; 22; 33].
Proof.
  destruct (raidz_read_recovers w_cksum w_buf w_buf w_vd w_write w_read 0 0 true w_block.1 w_block.2 w_ans [2%nat; 3%nat])
    as (r & E & He & _ & Hr).
  - apply w_layouts; [by apply w_words|done].
  - apply w_layouts; [by apply w_words|done].
  - by right.
  - vm_compute. congruence.
  - intros c size. apply List.Forall_forall. intros x ->%repeat_spec. split; reflexivity || lia.
  - done.
  - done.
  - done.
  - done.
  - vm_compute. reflexivity.
  - exact w_dtls.
  - refine (w_columns _ _ _ _ _ _); (split; [vm_compute; reflexivity|apply w_words; vm_compute; reflexivity]).
  - vm_compute. reflexivity.
  - exact w_bad.
  - vm_compute. congruence.
  - exists r. split; [exact E|]. split; [exact He|]. apply Hr. intros b. unfold w_cksum. destruct (decide _); done.
Defined.

Lemma raidz_write_done_witness :
  exists rm0 reqs rm1 r, vdev_raidz_io_start w_buf w_vd w_write 0 = Ok (rm0, reqs) /\
    complete (fun c => if c =? 3 then EIO else 0) (length (rm_col rm0)) 0 rm0 = Ok rm1 /\
    vdev_raidz_io_done w_cksum w_buf true w_write rm1 = Ok (Finished r) /\ r_error r = 0.
Proof.
  destruct (raidz_write_done w_cksum w_buf w_buf w_vd w_write 0 true (fun c => if c =? 3 then EIO else 0))
    as (rm0 & reqs & rm1 & r & E0 & _ & E1 & E2 & E3).
  - apply w_layouts; [by apply w_words|done].
  - by right.
  - vm_compute. congruence.
  - done.
  - exists rm0, reqs, rm1, r. split; [exact E0|]. split; [exact E1|]. split; [exact E2|]. apply E3. right. split; [|reflexivity].
    assert (rm0 = w_block.1) as -> by (unfold w_block; rewrite E0; reflexivity). vm_compute. congruence.
Defined.

(** ** Parity that is not regenerated before it is written back *)

Definition w_vd_ok : raidz_vdev := RVdev 3 2 [w_child 7; w_child 7; w_child 7; w_child 7; w_child 7].
Definition w_ans2 (c : Z) : Z * list Z :=
  if (c =? 0) || (c =? 2) then (EIO, [77]) else (0, rc_data (colat w_block.1 (Z.to_nat c))).

(** A repair can write parity that was never computed.  When a data column and the
    P column both fail to read, the data is reconstructed from Q and the repair writes
    both columns back, P with whatever the failed read left in its buffer:
    [raidz_parity_verify] is called only when there are fewer parity errors than
    [rm_firstdatacol - 1].  Here the read is right, and the P column it writes back
    (77) is not the parity of the data; no error says so. *)
Theorem raidz_repair_writes_stale_parity :
  exists r, raidz_read w_cksum w_buf w_vd_ok true w_read 0 w_ans2 = Ok r /\ r_error r = 0 /\
    io_buffer (r_rm r) = [11; 22; 33] /\
    map (fun q => (rq_col q, rq_data q)) (r_repairs r) = [(0, [77]); (2, [11])] /\
    rc_data (colat w_block.1 0) = [Z.lxor 11 (Z.lxor 22 33)].
Proof. eexists. split; [vm_compute; reflexivity|]. vm_compute. done. Qed.

End RaidzIo.
