(* ===== verification/VdevDtl.v ===== *)
(** * Dirty time logs: fs/zfs/vdev.c

    A vdev's dirty time log (DTL) is the set of transaction groups in which it missed
    writes, kept as a space map over group numbers; a second map holds the groups in
    which a scrub failed to repair it.  A leaf's log also lives on disk, in a space map
    object.  This file models how failed I/Os get into the logs ([vdev_stat_update]),
    how the logs of interior vdevs are derived ([vdev_dtl_reassess]), and how a leaf's
    log is written and read back ([vdev_dtl_sync], [vdev_dtl_load]), with the lists of
    dirty logs and the loops of [vdev_sync] and [spa_sync] that empty them.

    None of these functions changes the tree of vdevs, so a vdev is split in two: what
    the configuration fixes ([vdev]) and what changes ([dtls]). *)

From Stdlib Require Import List Permutation.
From stdpp Require Import base option numbers sets list gmap relations.
From S2P Require Import Prelude Bits OrdTree Avl SpaceMap SpaceMapDisk Mos Txg RaidzIo MetaslabTxg.
Import SpaceMap SpaceMapDisk Txg.
Local Open Scope Z_scope.

(** ** What the logs need of the DMU besides [Mos]: freeing an object. *)
Class DtlMos := {
  dtl_mos :: Mos;
  dmu_object_free : objset -> Z -> option objset;
  dmu_object_free_spec os obj :
    dmu_exists os obj ->
    exists os', dmu_object_free os obj = Some os' /\ ~ dmu_exists os' obj /\
      forall o, o <> obj -> (dmu_exists os' o <-> dmu_exists os o) /\ dmu_words os' o = dmu_words os o /\
        dmu_bonus os' o = dmu_bonus os o
}.

#[export] Instance ram_dtl_mos : DtlMos.
Proof.
  refine {| dtl_mos := RamMos.ram_mos;
    dmu_object_free os obj := Some (RamMos.Objs (delete obj (RamMos.o_words os)) (delete obj (RamMos.o_bonus os))) |}.
  intros os obj _. eexists. split; [done|]. cbn. split; [set_solver|]. intros o Ho. unfold RamMos.words. cbn.
  rewrite !lookup_delete_ne by done. split_and!; [set_solver|done|done].
Defined.

Module VdevDtl.

Definition VDD_DTL : Z := 2.
Definition ZIO_FLAG_IO_BYPASS : Z := 0x00200.
Definition ZIO_FLAG_IO_REPAIR : Z := 0x00400.
Definition ZIO_FLAG_SCRUB_THREAD : Z := 0x04000.
Definition ZIO_TYPE_READ : Z := 1.
Definition ZIO_TYPE_WRITE : Z := 2.
Definition ZIO_TYPES : Z := 6.

Section VdevDtl.
Context {OT : OrdTree space_seg} {DM : DtlMos}.
Variable zfs_recover : bool.

(** What the configuration says of a vdev; pointers are addresses. *)
Record vdev := Vdev {
  vdev_top : option Z;
  vdev_parent : option Z;
  vdev_child : list Z;
  vdev_state : Z;
  vdev_detached : bool
}.

(** The counters of [vdev_stat_t] that I/Os move. *)
Record vdev_stat := VdevStat {
  vs_ops : list Z;
  vs_bytes : list Z;
  vs_read_errors : Z;
  vs_write_errors : Z;
  vs_checksum_errors : Z;
  vs_self_healed : Z;
  vs_scrub_repaired : Z
}.

(** The rest of a vdev: its logs in memory, the header of the one on disk, counters. *)
Record dtls := Dtls {
  vdev_dtl_map : space_map;
  vdev_dtl_scrub : space_map;
  vdev_dtl : space_map_obj;
  vdev_stats : vdev_stat
}.

(** The pool.  [dtl_lists] has the [vdev_dtl_list] of every top-level vdev, with the
    [vdev_dtl_node]s of the leaves under it; [spa_dirty_list] the vdevs whose
    configuration changed. *)
Record pool := Pool {
  vds : gmap Z dtls;
  dtl_lists : gmap Z (txg_list * store);
  spa_vdev_txg_list : txg_list;
  vdev_txg_nodes : store;
  spa_dirty_list : list Z;
  spa_meta_objset : objset
}.

Record zio := Zio {
  io_vd : Z;
  io_txg : Z;
  io_type : Z;
  io_flags : Z;
  io_error : Z;
  io_size : Z;
  io_delegate_list : option Z
}.

Definition set_vd (p : pool) (v : Z) (x : dtls) : pool :=
  Pool (<[v := x]> (vds p)) (dtl_lists p) (spa_vdev_txg_list p) (vdev_txg_nodes p) (spa_dirty_list p) (spa_meta_objset p).
Definition set_dtl_list (p : pool) (t : Z) (l : txg_list * store) : pool :=
  Pool (vds p) (<[t := l]> (dtl_lists p)) (spa_vdev_txg_list p) (vdev_txg_nodes p) (spa_dirty_list p) (spa_meta_objset p).
Definition set_txg_list (p : pool) (l : txg_list) (st : store) : pool :=
  Pool (vds p) (dtl_lists p) l st (spa_dirty_list p) (spa_meta_objset p).
Definition set_dirty (p : pool) (l : list Z) : pool :=
  Pool (vds p) (dtl_lists p) (spa_vdev_txg_list p) (vdev_txg_nodes p) l (spa_meta_objset p).
Definition set_mos (p : pool) (os : objset) : pool :=
  Pool (vds p) (dtl_lists p) (spa_vdev_txg_list p) (vdev_txg_nodes p) (spa_dirty_list p) os.
Definition set_stats (x : dtls) (s : vdev_stat) : dtls := Dtls (vdev_dtl_map x) (vdev_dtl_scrub x) (vdev_dtl x) s.
Definition set_smo (x : dtls) (smo : space_map_obj) : dtls := Dtls (vdev_dtl_map x) (vdev_dtl_scrub x) smo (vdev_stats x).

(** One of the two logs: [true] is the scrub's. *)
Definition log_at (scrub : bool) (x : dtls) : space_map := if scrub then vdev_dtl_scrub x else vdev_dtl_map x.
Definition set_log (scrub : bool) (x : dtls) (sm : space_map) : dtls :=
  if scrub then Dtls (vdev_dtl_map x) sm (vdev_dtl x) (vdev_stats x) else Dtls sm (vdev_dtl_scrub x) (vdev_dtl x) (vdev_stats x).

(** The configuration the functions run with, and the addresses in it. *)
Variable cfg : gmap Z vdev.
Definition ptr {A} (m : gmap Z A) (v : Z) : outcome A := match m !! v with Some x => Ok x | None => Err Fault end.
Definition nonnull (o : option Z) : outcome Z := match o with Some v => Ok v | None => Err Fault end.

(** ** Dirty logs *)

(** [vdev_dirty] with [VDD_DTL] and a leaf, or with no flag. *)
Definition vdev_dirty (p : pool) (v flags arg txg : Z) : outcome pool :=
  vd ← ptr cfg v;
  _ ← verify (bool_decide (vdev_top vd = Some v));
  _ ← verify (Z.land flags (flags - 1) =? 0);
  p ← (if Z.land flags VDD_DTL =? 0 then Ok p
       else
         '(tl, st) ← ptr (dtl_lists p) v;
         '(tl, st, _) ← txg_list_add tl st arg txg;
         Ok (set_dtl_list p v (tl, st)));
  '(tl, st, _) ← txg_list_add (spa_vdev_txg_list p) (vdev_txg_nodes p) v txg;
  Ok (set_txg_list p tl st).

Definition vdev_dtl_dirty (sm : space_map) (txg size : Z) : outcome space_map :=
  c ← space_map_contains sm txg size;
  if (c : bool) then Ok sm else space_map_add zfs_recover sm txg size.

(** [for (pvd = vd; pvd != NULL; pvd = pvd->vdev_parent) vdev_dtl_dirty(&pvd->..., txg, 1);] *)
Definition dirty_round (scrub : bool) (txg : Z) (st : pool * option Z) : outcome (pool * option Z + pool) :=
  let '(p, pvd) := st in
  match pvd with
  | None => Ok (inr p)
  | Some v =>
      vd ← ptr cfg v;
      x ← ptr (vds p) v;
      sm ← vdev_dtl_dirty (log_at scrub x) txg 1;
      Ok (inl (set_vd p v (set_log scrub x sm), vdev_parent vd))
  end.
Definition dirty_up (scrub : bool) (p : pool) (v txg : Z) : outcome pool :=
  iter (S (S (size cfg))) (dirty_round scrub txg) (p, Some v).

(** ** The end of an I/O *)

Definition has (flags flag : Z) : bool := negb (Z.land flags flag =? 0).
Definition bump (l : list Z) (type delta : Z) : outcome (list Z) :=
  n ← get l (Z.to_nat type); put l (Z.to_nat type) (u64 (n + delta)).

Definition vdev_is_dead (vd : vdev) : bool := vdev_state vd <? RaidzIo.VDEV_STATE_DEGRADED.

(** Counting an I/O that succeeded. *)
Definition stat_success (s : vdev_stat) (io : zio) : outcome vdev_stat :=
  s ← (if has (io_flags io) ZIO_FLAG_IO_BYPASS then Ok s
       else
         ops ← bump (vs_ops s) (io_type io) 1;
         bytes ← bump (vs_bytes s) (io_type io) (io_size io);
         Ok (VdevStat ops bytes (vs_read_errors s) (vs_write_errors s) (vs_checksum_errors s) (vs_self_healed s) (vs_scrub_repaired s)));
  Ok (if has (io_flags io) ZIO_FLAG_IO_REPAIR && bool_decide (io_delegate_list io = None) then
        if has (io_flags io) ZIO_FLAG_SCRUB_THREAD then
          VdevStat (vs_ops s) (vs_bytes s) (vs_read_errors s) (vs_write_errors s) (vs_checksum_errors s) (vs_self_healed s)
            (u64 (vs_scrub_repaired s + io_size io))
        else
          VdevStat (vs_ops s) (vs_bytes s) (vs_read_errors s) (vs_write_errors s) (vs_checksum_errors s)
            (u64 (vs_self_healed s + io_size io)) (vs_scrub_repaired s)
      else s).

(** Counting one that failed. *)
Definition stat_failure (s : vdev_stat) (io : zio) : vdev_stat :=
  if io_type io =? ZIO_TYPE_READ then
    if io_error io =? RaidzIo.ECKSUM then
      VdevStat (vs_ops s) (vs_bytes s) (vs_read_errors s) (vs_write_errors s) (u64 (vs_checksum_errors s + 1)) (vs_self_healed s) (vs_scrub_repaired s)
    else
      VdevStat (vs_ops s) (vs_bytes s) (u64 (vs_read_errors s + 1)) (vs_write_errors s) (vs_checksum_errors s) (vs_self_healed s) (vs_scrub_repaired s)
  else if io_type io =? ZIO_TYPE_WRITE then
    VdevStat (vs_ops s) (vs_bytes s) (vs_read_errors s) (u64 (vs_write_errors s + 1)) (vs_checksum_errors s) (vs_self_healed s) (vs_scrub_repaired s)
  else s.

(** What a failed write to leaf [v] does to the logs. *)
Definition missed_write (p : pool) (vd : vdev) (v txg flags : Z) : outcome pool :=
  p ← (if has flags ZIO_FLAG_SCRUB_THREAD then _ ← verify (has flags ZIO_FLAG_IO_REPAIR); dirty_up true p v txg else Ok p);
  if has flags ZIO_FLAG_IO_REPAIR then Ok p
  else
    x ← ptr (vds p) v;
    c ← RaidzIo.vdev_dtl_contains (vdev_dtl_map x) txg 1;
    if (c : bool) then Ok p
    else
      top ← nonnull (vdev_top vd);
      p ← vdev_dirty p top VDD_DTL v txg;
      dirty_up false p v txg.

Definition vdev_stat_update (p : pool) (io : zio) : outcome pool :=
  let v := io_vd io in
  vd ← ptr cfg v;
  x ← ptr (vds p) v;
  if io_error io =? 0 then
    s ← stat_success (vdev_stats x) io;
    Ok (set_vd p v (set_stats x s))
  else if has (io_flags io) RaidzIo.ZIO_FLAG_SPECULATIVE then Ok p
  else
    let p := if vdev_is_dead vd then p else set_vd p v (set_stats x (stat_failure (vdev_stats x) io)) in
    if io_type io =? ZIO_TYPE_WRITE then
      if (io_txg io =? 0) || negb (bool_decide (vdev_child vd = [])) then Ok p
      else missed_write p vd v (io_txg io) (io_flags io)
    else Ok p.

(** ** Reassessing *)

(** A leaf: what has been scrubbed is no longer missing, except what could not be
    repaired. *)
Definition reassess_leaf (p : pool) (vd : vdev) (v txg scrub_txg : Z) (scrub_done : bool) : outcome pool :=
  x ← ptr (vds p) v;
  map ← (if scrub_txg =? 0 then Ok (vdev_dtl_map x)
         else sm ← space_map_excise zfs_recover (vdev_dtl_map x) 0 scrub_txg; space_map_union zfs_recover sm (vdev_dtl_scrub x));
  scrub ← (if scrub_done then MetaslabTxg.vacate_null (vdev_dtl_scrub x) else Ok (vdev_dtl_scrub x));
  let p := set_vd p v (Dtls map scrub (vdev_dtl x) (vdev_stats x)) in
  if txg =? 0 then Ok p else top ← nonnull (vdev_top vd); vdev_dirty p top VDD_DTL v txg.

(** [for (c = 0; c < vd->vdev_children; c++)], with the recursive call as [rec]. *)
Fixpoint reassess_children (rec : pool -> Z -> outcome pool) (v : Z) (cs : list Z) (p : pool) : outcome pool :=
  match cs with
  | [] => Ok p
  | c :: cs' =>
      p ← rec p c;
      x ← ptr (vds p) v;
      cx ← ptr (vds p) c;
      map ← space_map_union zfs_recover (vdev_dtl_map x) (vdev_dtl_map cx);
      scrub ← space_map_union zfs_recover (vdev_dtl_scrub x) (vdev_dtl_scrub cx);
      reassess_children rec v cs' (set_vd p v (Dtls map scrub (vdev_dtl x) (vdev_stats x)))
  end.

(** The recursion goes down the tree: as much fuel as there are vdevs is enough. *)
Fixpoint vdev_dtl_reassess (fuel : nat) (txg scrub_txg : Z) (scrub_done : bool) (p : pool) (v : Z) : outcome pool :=
  match fuel with
  | O => Err Fuel
  | S fuel' =>
      vd ← ptr cfg v;
      match vdev_child vd with
      | [] => reassess_leaf p vd v txg scrub_txg scrub_done
      | cs =>
          x ← ptr (vds p) v;
          map ← MetaslabTxg.vacate_null (vdev_dtl_map x);
          scrub ← MetaslabTxg.vacate_null (vdev_dtl_scrub x);
          reassess_children (vdev_dtl_reassess fuel' txg scrub_txg scrub_done) v cs (set_vd p v (Dtls map scrub (vdev_dtl x) (vdev_stats x)))
      end
  end.

(** ** The log on disk *)

(** The result says whether the DMU found the object. *)
Definition vdev_dtl_load (p : pool) (v : Z) : outcome (pool * bool) :=
  vd ← ptr cfg v;
  _ ← verify (bool_decide (vdev_child vd = []));
  x ← ptr (vds p) v;
  let smo := vdev_dtl x in
  if smo_object smo =? 0 then Ok (p, true)
  else
    match dmu_bonus (spa_meta_objset p) (smo_object smo) with
    | None => Ok (p, false)
    | Some db_data =>
        _ ← verify (24 <=? 8 * zlen db_data);
        match db_data with
        | o :: objsize :: alloc :: _ =>
            let smo := Smo o objsize alloc in
            sm ← space_map_load zfs_recover (fun _ => None) [] (vdev_dtl_map x) None SM_ALLOC smo (spa_meta_objset p);
            Ok (set_vd p v (Dtls sm (vdev_dtl_scrub x) smo (vdev_stats x)), true)
        | _ => Err Fault
        end
    end.

(** [vdev_config_dirty] of a top-level vdev. *)
Definition vdev_config_dirty (p : pool) (v : Z) : outcome pool :=
  vd ← ptr cfg v;
  _ ← verify (bool_decide (vdev_top vd = Some v));
  Ok (if bool_decide (v ∈ spa_dirty_list p) then p else set_dirty p (v :: spa_dirty_list p)).

(** The object of the log, made when there is none yet. *)
Definition dtl_object (p : pool) (vd : vdev) (smo : space_map_obj) : outcome (pool * space_map_obj) :=
  if smo_object smo =? 0 then
    _ ← verify (smo_objsize smo =? 0);
    _ ← verify (smo_alloc smo =? 0);
    let '(object, os) := dmu_object_alloc (spa_meta_objset p) 24 in
    _ ← verify (negb (object =? 0));
    top ← nonnull (vdev_top vd);
    p ← vdev_config_dirty (set_mos p os) top;
    Ok (p, Smo object (smo_objsize smo) (smo_alloc smo))
  else Ok (p, smo).

(** Writing map [sm] as the whole of the log. *)
Definition dtl_write (sm : space_map) (smo : space_map_obj) (os : objset) (syncpass txg : Z) : outcome (space_map_obj * objset) :=
  smsync ← space_map_walk sm (space_map_add zfs_recover) (space_map_create (sm_start sm) (sm_size sm) (sm_shift sm));
  '(smo, os) ← space_map_truncate smo os;
  '(smsync, smo, os) ← space_map_sync smsync SM_ALLOC smo os syncpass txg;
  _ ← space_map_destroy smsync;
  match dmu_bonus os (smo_object smo) with
  | None => Err Panic
  | Some db_data =>
      _ ← verify (24 <=? 8 * zlen db_data);
      Ok (smo, dmu_bonus_write os (smo_object smo) (MetaslabTxg.smo_words smo))
  end.

(** [syncpass] is [spa_sync_pass(spa)]. *)
Definition vdev_dtl_sync (p : pool) (v txg syncpass : Z) : outcome pool :=
  vd ← ptr cfg v;
  x ← ptr (vds p) v;
  let smo := vdev_dtl x in
  if vdev_detached vd then
    if smo_object smo =? 0 then Ok p
    else
      match dmu_object_free (spa_meta_objset p) (smo_object smo) with
      | None => Err Panic
      | Some os => Ok (set_vd (set_mos p os) v (set_smo x (Smo 0 (smo_objsize smo) (smo_alloc smo))))
      end
  else
    '(p, smo) ← dtl_object p vd smo;
    '(smo, os) ← dtl_write (vdev_dtl_map x) smo (spa_meta_objset p) syncpass txg;
    Ok (set_vd (set_mos p os) v (set_smo x smo)).

(** [while ((lvd = txg_list_remove(&vd->vdev_dtl_list, txg)) != NULL) vdev_dtl_sync(lvd, txg);] *)
Definition sync_dtl_round (v txg syncpass : Z) (p : pool) : outcome (pool + pool) :=
  '(tl, st) ← ptr (dtl_lists p) v;
  '(tl, st, lvd) ← txg_list_remove tl st txg;
  let p := set_dtl_list p v (tl, st) in
  match lvd with
  | None => Ok (inr p)
  | Some lvd => p ← vdev_dtl_sync p lvd txg syncpass; Ok (inl p)
  end.

(** The part of [vdev_sync] that follows the metaslabs: one round more than there are
    leaves under the vdev is enough. *)
Definition vdev_sync_dtls (p : pool) (v txg syncpass : Z) : outcome pool :=
  '(_, st) ← ptr (dtl_lists p) v;
  p ← iter (S (size st)) (sync_dtl_round v txg syncpass) p;
  '(tl, st, _) ← txg_list_add (spa_vdev_txg_list p) (vdev_txg_nodes p) v (TXG_CLEAN txg);
  Ok (set_txg_list p tl st).

(** The loop over dirty vdevs in a pass of [spa_sync]. *)
Definition spa_sync_round (txg syncpass : Z) (p : pool) : outcome (pool + pool) :=
  '(tl, st, vd) ← txg_list_remove (spa_vdev_txg_list p) (vdev_txg_nodes p) txg;
  let p := set_txg_list p tl st in
  match vd with
  | None => Ok (inr p)
  | Some v => p ← vdev_sync_dtls p v txg syncpass; Ok (inl p)
  end.
Definition spa_sync_vdevs (p : pool) (txg syncpass : Z) : outcome pool :=
  iter (S (size (vdev_txg_nodes p))) (spa_sync_round txg syncpass) p.

(** ** One log *)

(** A log's map: over all 64-bit group numbers, holding groups that entries of a space
    map object can name. *)
Record dtl_ok (sm : space_map) : Prop := {
  do_ok : sm_ok sm;
  do_start : sm_start sm = 0;
  do_size : sm_size sm = 2 ^ 64 - 1;
  do_shift : sm_shift sm = 0;
  do_small x : member (segs sm) x -> x < 2 ^ 47
}.

Lemma dtl_region sm sm' : dtl_ok sm -> same_region sm sm' -> sm_ok sm' -> (forall x, member (segs sm') x -> x < 2 ^ 47) -> dtl_ok sm'.
Proof. intros [? ? ? ? ?] (? & ? & ? & _) ? ?. split; [done|congruence..|done]. Qed.

Lemma dtl_compatible a b : dtl_ok a -> dtl_ok b -> compatible a b.
Proof. intros [] []. split_and!; congruence. Qed.

Lemma dtl_range sm start size : dtl_ok sm -> 0 <= start -> 0 < size -> start + size < 2 ^ 64 -> range_ok sm start size.
Proof. intros [] ? ? ?. unfold range_ok, aligned. rewrite do_start0, do_size0, do_shift0, !Z.mod_1_r. lia. Qed.

Lemma held_one sm t : is_held sm t 1 <-> member (segs sm) t.
Proof. unfold is_held. split; [intros H; apply H; lia|]. intros H x Hx. by replace x with t by lia. Qed.

Lemma contains_one sm t :
  dtl_ok sm -> 0 <= t < 2 ^ 47 -> exists b, space_map_contains sm t 1 = Ok b /\ (b = true <-> member (segs sm) t).
Proof.
  intros Hs Ht. destruct (contains_spec sm t 1) as (b & E & Hb); [apply Hs|apply dtl_range; [done|lia..]|].
  exists b. split; [done|]. by rewrite Hb, held_one.
Qed.

Lemma dtl_contains_spec sm t :
  dtl_ok sm -> 0 <= t < 2 ^ 47 -> exists b, RaidzIo.vdev_dtl_contains sm t 1 = Ok b /\ (b = true <-> member (segs sm) t).
Proof.
  intros Hs Ht. unfold RaidzIo.vdev_dtl_contains. destruct (Z.eqb_spec (sm_space sm) 0) as [E|_]; [|by apply contains_one].
  exists false. split; [done|]. rewrite (space_zero _ (do_ok _ Hs) E). split; [done|intros []%member_nil].
Qed.

Lemma dtl_dirty_spec sm t :
  dtl_ok sm -> 0 <= t < 2 ^ 47 ->
  exists sm', vdev_dtl_dirty sm t 1 = Ok sm' /\ dtl_ok sm' /\ forall y, member (segs sm') y <-> member (segs sm) y \/ y = t.
Proof.
  intros Hs Ht. unfold vdev_dtl_dirty. destruct (contains_one sm t Hs Ht) as ([|] & -> & Hb); run.
  - exists sm. split_and!; [done|done|]. intros y. split; [tauto|]. intros [?| ->]; tauto.
  - destruct (add_free zfs_recover sm t 1) as (sm' & E & K & R & _ & M); [apply Hs|apply dtl_range; [done|lia..]| |].
    { intros x Hx Hm. replace x with t in Hm by lia. discriminate (proj2 Hb Hm). }
    assert (forall y, member (segs sm') y <-> member (segs sm) y \/ y = t) as M' by (intros y; rewrite M; intuition lia).
    exists sm'. split_and!; [done| |done]. eapply dtl_region; [done..|]. intros x [Hx| ->]%M'; [by apply (do_small _ Hs)|lia].
Qed.

Lemma dtl_union_spec a b :
  dtl_ok a -> dtl_ok b ->
  exists c, space_map_union zfs_recover a b = Ok c /\ dtl_ok c /\ forall y, member (segs c) y <-> member (segs a) y \/ member (segs b) y.
Proof.
  intros Ha Hb. destruct (union_spec zfs_recover a b) as (c & E & K & R & M); [apply Hb|apply Ha|by apply dtl_compatible|].
  exists c. split_and!; [done| |done]. eapply dtl_region; [exact Ha|done|done|]. intros x [?|?]%M; [by apply (do_small _ Ha)|by apply (do_small _ Hb)].
Qed.

Lemma dtl_excise_spec sm n :
  dtl_ok sm -> 0 < n < 2 ^ 64 ->
  exists sm', space_map_excise zfs_recover sm 0 n = Ok sm' /\ dtl_ok sm' /\ forall y, member (segs sm') y <-> member (segs sm) y /\ ~ y < n.
Proof.
  intros Hs Hn. destruct (excise_spec zfs_recover sm 0 n) as (sm' & E & K & R & M); [apply Hs|apply dtl_range; [done|lia..]|].
  assert (forall y, member (segs sm) y -> 0 <= y) as Hpos.
  { intros y (s & Hs' & Hy). pose proof (ok_bounds _ (do_ok _ Hs)) as Hb. rewrite List.Forall_forall in Hb. apply Hb in Hs'. rewrite (do_start _ Hs) in Hs'. lia. }
  exists sm'. split_and!; [done| |].
  - eapply dtl_region; [done..|]. intros x [Hx _]%M. by apply (do_small _ Hs).
  - intros y. rewrite M. split; intros [H1 H2]; (split; [done|]); specialize (Hpos y H1); lia.
Qed.

Lemma dtl_vacate_spec sm : dtl_ok sm -> exists sm', MetaslabTxg.vacate_null sm = Ok sm' /\ dtl_ok sm' /\ segs sm' = [].
Proof.
  intros Hs. destruct (MetaslabTxg.vacate_null_spec sm (do_ok _ Hs)) as (sm' & E & K & S & R). exists sm'. split_and!; [done| |done].
  eapply dtl_region; [done..|]. rewrite S. intros x []%member_nil.
Qed.

(** ** The tree of vdevs *)

(** [d] is the depth.  Parents and children agree, and every leaf is under a top-level
    vdev. *)
Record tree (d : Z -> nat) : Prop := {
  t_child v vd c : cfg !! v = Some vd -> c ∈ vdev_child vd -> exists cvd, cfg !! c = Some cvd /\ vdev_parent cvd = Some v;
  t_parent v vd q : cfg !! v = Some vd -> vdev_parent vd = Some q -> exists qvd, cfg !! q = Some qvd /\ v ∈ vdev_child qvd /\ d v = S (d q);
  t_nodup v vd : cfg !! v = Some vd -> NoDup (vdev_child vd);
  t_root v vd : cfg !! v = Some vd -> vdev_parent vd = None -> d v = 0%nat;
  t_top v vd : cfg !! v = Some vd -> vdev_child vd = [] -> exists t tvd, vdev_top vd = Some t /\ cfg !! t = Some tvd /\ vdev_top tvd = Some t
}.

Definition up (v q : Z) : Prop := exists vd, cfg !! v = Some vd /\ vdev_parent vd = Some q.
Abbreviation anc := (rtc up).

Section Tree.
Context (d : Z -> nat) (T : tree d).

Lemma up_fun v q q' : up v q -> up v q' -> q = q'.
Proof. intros (? & ? & ?) (? & ? & ?). congruence. Qed.
Lemma up_d v q : up v q -> d v = S (d q).
Proof. intros (vd & Hv & Hq). by destruct (t_parent _ T _ _ _ Hv Hq) as (? & _ & _ & ?). Qed.
Lemma up_child v vd c : cfg !! v = Some vd -> c ∈ vdev_child vd <-> up c v.
Proof.
  intros Hv. split; [intros Hc; by destruct (t_child _ T _ _ _ Hv Hc) as (cvd & ? & ?); exists cvd|].
  intros (cvd & Hc & Hp). destruct (t_parent _ T _ _ _ Hc Hp) as (vd' & Hv' & Hin & _). congruence.
Qed.
Lemma anc_d v u : anc v u -> (d u <= d v)%nat.
Proof. induction 1 as [|v w u Hu _ IH]; [done|]. apply up_d in Hu. lia. Qed.
Lemma anc_cfg v u : anc v u -> is_Some (cfg !! v) -> is_Some (cfg !! u).
Proof.
  induction 1 as [|v w u (vd & Hv & Hp) _ IH]; [done|]. intros _. apply IH. destruct (t_parent _ T _ _ _ Hv Hp) as (? & ? & _). eauto.
Qed.
Lemma anc_linear v a b : anc v a -> anc v b -> anc a b \/ anc b a.
Proof.
  intros Ha. revert b. induction Ha as [|v w a Hw Ha IH]; intros b Hb; [by left|].
  inversion Hb as [|? w' ? Hw' Hb']; subst; [right; by eapply rtc_l|]. rewrite (up_fun _ _ _ Hw' Hw) in Hb'. by apply IH.
Qed.

(** The subtrees of two siblings do not meet, and a vdev is not below its child. *)
Lemma siblings u a b v : anc u a -> anc u b -> up a v -> up b v -> a = b.
Proof.
  intros Ha Hb Hav Hbv. apply up_d in Hav, Hbv. destruct (anc_linear _ _ _ Ha Hb) as [H|H]; (destruct H as [|? w ? Hw H]; [done|]);
    apply up_d in Hw; apply anc_d in H; lia.
Qed.
Lemma child_below c v : up c v -> ~ anc v c.
Proof. intros Hc H. apply up_d in Hc. apply anc_d in H. lia. Qed.

Lemma below_cases v vd u : cfg !! v = Some vd -> anc u v <-> u = v \/ exists c, c ∈ vdev_child vd /\ anc u c.
Proof.
  intros Hv. split.
  - intros [->|(c & Hc & Hu)]%rtc_inv_r; [by left|]. right. exists c. split; [|done]. by rewrite (up_child _ _ _ Hv).
  - intros [->|(c & Hc & Hu)]; [done|]. eapply rtc_r; [done|]. by rewrite <- (up_child _ _ _ Hv).
Qed.

(** No vdev is as deep as there are vdevs. *)
Lemma depth_lt v : is_Some (cfg !! v) -> (d v < size cfg)%nat.
Proof.
  intros Hv. assert (exists l : list Z, length l = S (d v) /\ NoDup l /\ forall u, u ∈ l -> u ∈ dom cfg /\ (d u <= d v)%nat) as (l & Hl & Hn & Hin).
  { remember (d v) as n eqn:E. revert v E Hv. induction n as [|n IH]; intros v E [vd Hv].
    - exists [v]. split_and!; [done|apply NoDup_singleton|]. intros u ->%list_elem_of_singleton. split; [by apply elem_of_dom|lia].
    - destruct (vdev_parent vd) as [q|] eqn:Hp; [|pose proof (t_root _ T _ _ Hv Hp); lia].
      destruct (t_parent _ T _ _ _ Hv Hp) as (qvd & Hq & _ & Hd). destruct (IH q) as (l & Hl & Hn & Hin); [lia|eauto|].
      exists (v :: l). split_and!; [by cbn; rewrite Hl| |].
      + constructor; [|done]. intros Hvl. apply Hin in Hvl as [_ ?]. lia.
      + intros u [->|Hu]%elem_of_cons; [split; [by apply elem_of_dom|lia]|]. apply Hin in Hu as [? ?]. split; [done|lia]. }
  rewrite <- size_dom. enough (length l <= size (dom cfg))%nat by lia. rewrite <- (size_list_to_set (C := gset Z)) by done.
  apply subseteq_size. intros u Hu. apply elem_of_list_to_set in Hu. by apply Hin.
Qed.
End Tree.

(** ** The logs of all vdevs *)

Definition with_vds (p : pool) (m : gmap Z dtls) : pool :=
  Pool m (dtl_lists p) (spa_vdev_txg_list p) (vdev_txg_nodes p) (spa_dirty_list p) (spa_meta_objset p).

Record vds_ok (m : gmap Z dtls) : Prop := {
  vo_dom v : is_Some (m !! v) <-> is_Some (cfg !! v);
  vo_logs v x scrub : m !! v = Some x -> dtl_ok (log_at scrub x)
}.

(** The groups in a log of vdev [v]. *)
Definition logs (m : gmap Z dtls) (scrub : bool) (v y : Z) : Prop := exists x, m !! v = Some x /\ member (segs (log_at scrub x)) y.

(** What is not a log. *)
Definition hdr (x : dtls) : space_map_obj * vdev_stat := (vdev_dtl x, vdev_stats x).
Definition keeps (m m' : gmap Z dtls) : Prop := forall v, hdr <$> m' !! v = hdr <$> m !! v.

Lemma logs_at m scrub v x y : m !! v = Some x -> logs m scrub v y <-> member (segs (log_at scrub x)) y.
Proof. intros E. unfold logs. split; [intros (? & ? & ?); congruence|eauto]. Qed.
Lemma logs_insert_ne m v x scrub u y : u <> v -> logs (<[v := x]> m) scrub u y <-> logs m scrub u y.
Proof. intros Hu. unfold logs. by rewrite lookup_insert_ne. Qed.
Lemma logs_insert m v x scrub y : logs (<[v := x]> m) scrub v y <-> member (segs (log_at scrub x)) y.
Proof. apply logs_at, lookup_insert_eq. Qed.

Lemma vds_ok_insert m v x : vds_ok m -> is_Some (m !! v) -> (forall scrub, dtl_ok (log_at scrub x)) -> vds_ok (<[v := x]> m).
Proof.
  intros [H1 H2] Hv Hx. split.
  - intros u. rewrite <- H1. destruct (decide (u = v)) as [->|]; [rewrite lookup_insert_eq|by rewrite lookup_insert_ne]. split; eauto.
  - intros u y scrub. destruct (decide (u = v)) as [->|]; [rewrite lookup_insert_eq; intros [= <-]; done|rewrite lookup_insert_ne by done; apply H2].
Qed.
Lemma keeps_insert m v x x' : m !! v = Some x -> hdr x' = hdr x -> keeps m (<[v := x']> m).
Proof. intros E Eh u. destruct (decide (u = v)) as [->|]; [by rewrite lookup_insert_eq, E; cbn; rewrite Eh|by rewrite lookup_insert_ne]. Qed.
Lemma keeps_trans a b c : keeps a b -> keeps b c -> keeps a c.
Proof. intros H1 H2 v. by rewrite H2. Qed.

Lemma log_set scrub b x sm : log_at b (set_log scrub x sm) = if decide (b = scrub) then sm else log_at b x.
Proof. by destruct scrub, b. Qed.
Lemma hdr_set scrub x sm : hdr (set_log scrub x sm) = hdr x.
Proof. by destruct scrub. Qed.

(** A group is entered in the logs of a vdev and of everything above it. *)
Definition marked (scrub : bool) (v txg : Z) (m m' : gmap Z dtls) : Prop :=
  vds_ok m' /\ keeps m m' /\
  forall b u y, logs m' b u y <-> logs m b u y \/ (b = scrub /\ y = txg /\ anc v u).

Lemma dirty_loop (d : Z -> nat) (T : tree d) scrub txg f : forall v p,
  is_Some (cfg !! v) -> vds_ok (vds p) -> 0 <= txg < 2 ^ 47 -> (d v + 1 < f)%nat ->
  exists m, iter f (dirty_round scrub txg) (p, Some v) = Ok (with_vds p m) /\ marked scrub v txg (vds p) m.
Proof.
  induction f as [|f IH]; intros v p [vd Hv] Hok Ht Hf; [lia|]. rewrite iter_S. unfold dirty_round, ptr. rewrite Hv. run.
  destruct (proj2 (vo_dom _ Hok v) (ex_intro _ _ Hv)) as [x Hx]. rewrite Hx. run.
  destruct (dtl_dirty_spec (log_at scrub x) txg (vo_logs _ Hok _ _ scrub Hx) Ht) as (sm & -> & Hsm & Msm). run.
  set (x' := set_log scrub x sm). set (p1 := set_vd p v x').
  assert (vds_ok (vds p1)) as Hok1.
  { apply vds_ok_insert; [done|eauto|]. intros b. unfold x'. rewrite log_set. case_decide; [done|by apply (vo_logs _ Hok v)]. }
  assert (keeps (vds p) (vds p1)) as Hk1 by (apply (keeps_insert _ _ x); [done|apply hdr_set]).
  assert (forall b u y, logs (vds p1) b u y <-> logs (vds p) b u y \/ (b = scrub /\ y = txg /\ u = v)) as Hl1.
  { intros b u y. cbn [p1 set_vd vds]. destruct (decide (u = v)) as [->|Hu]; [|rewrite logs_insert_ne by done; tauto].
    rewrite logs_insert, (logs_at _ _ _ _ _ Hx). unfold x'. rewrite log_set. case_decide as Hb; [subst b; rewrite Msm|]; tauto. }
  destruct (vdev_parent vd) as [q|] eqn:Hq.
  - assert (up v q) as Hup by (by exists vd). destruct (IH q p1) as (m & E & M1 & M2 & M3); [| |done| |].
    + destruct (t_parent _ T _ _ _ Hv Hq) as (? & ? & _). eauto.
    + done.
    + pose proof (up_d _ T _ _ Hup). lia.
    + exists m. split; [exact E|]. split_and!; [done|by eapply keeps_trans|]. intros b u y. rewrite M3, Hl1.
      assert (anc v u <-> u = v \/ anc q u) as ->; [|tauto]. split.
      * intros [->|(w & Hw & H)]%rtc_inv; [by left|]. right. by rewrite (up_fun _ _ _ Hup Hw).
      * intros [->|H]; [done|by eapply rtc_l].
  - destruct f as [|f]; [lia|]. exists (vds p1). split; [done|]. split_and!; [done|done|]. intros b u y. rewrite Hl1.
    assert (anc v u <-> u = v) as ->; [|tauto]. split; [|by intros ->]. intros [->|(w & (vd' & Hv' & Hw) & H)]%rtc_inv; [done|]. congruence.
Qed.

Lemma dirty_up_spec (d : Z -> nat) (T : tree d) scrub p v txg :
  is_Some (cfg !! v) -> vds_ok (vds p) -> 0 <= txg < 2 ^ 47 ->
  exists m, dirty_up scrub p v txg = Ok (with_vds p m) /\ marked scrub v txg (vds p) m.
Proof. intros Hv Hok Ht. apply (dirty_loop d T); [done..|]. pose proof (depth_lt d T v Hv). lia. Qed.

(** Every interior vdev misses exactly what its children miss. *)
Definition summed (m : gmap Z dtls) : Prop :=
  forall v vd b y, cfg !! v = Some vd -> vdev_child vd <> [] -> logs m b v y <-> exists c, c ∈ vdev_child vd /\ logs m b c y.

Lemma marked_summed (d : Z -> nat) (T : tree d) scrub v vd txg m m' :
  cfg !! v = Some vd -> vdev_child vd = [] -> marked scrub v txg m m' -> summed m -> summed m'.
Proof.
  intros Hv Hleaf (_ & _ & Hm) Hs u uvd b y Hu Hne. rewrite Hm, (Hs _ _ _ _ Hu Hne), (below_cases d T u uvd v Hu). setoid_rewrite Hm. split.
  - intros [(c & ? & ?)|(-> & -> & [->|(c & Hc & Ha)])]; [eauto|congruence|eauto 10].
  - intros (c & Hc & [?|(-> & -> & ?)]); [eauto|]. right. split_and!; [done|done|]. right. eauto.
Qed.

(** ** The lists of dirty logs *)

Definition is_top (t : Z) : Prop := exists tvd, cfg !! t = Some tvd /\ vdev_top tvd = Some t.
Definition leaf_of (t v : Z) : Prop := exists vd, cfg !! v = Some vd /\ vdev_child vd = [] /\ vdev_top vd = Some t.

(** [L t s] are the leaves under top-level vdev [t] whose log is dirty in the groups of
    slot [s], and [V s] the vdevs the pool has to sync in them; [E] are the exceptions
    while one of them is being synced. *)
Record lists_ok (E : Z -> nat -> Prop) (p : pool) (L : Z -> nat -> list Z) (V : nat -> list Z) : Prop := {
  lo_top t : is_top t -> exists tl st, dtl_lists p !! t = Some (tl, st) /\ rep tl st (L t) /\
    forall v, leaf_of t v -> is_Some (st !! (v + tl_offset tl));
  lo_node t : is_top t -> is_Some (vdev_txg_nodes p !! (t + tl_offset (spa_vdev_txg_list p)));
  lo_pool : rep (spa_vdev_txg_list p) (vdev_txg_nodes p) V;
  lo_leaf t s v : (s < 4)%nat -> v ∈ L t s -> leaf_of t v;
  lo_known s t : (s < 4)%nat -> t ∈ V s -> is_top t;
  lo_seen t s : (s < 4)%nat -> L t s <> [] -> t ∈ V s \/ E t s
}.

Lemma pool_add E p L V t txg :
  lists_ok E p L V -> is_top t ->
  exists tl st V', txg_list_add (spa_vdev_txg_list p) (vdev_txg_nodes p) t txg = Ok (tl, st, flag (bool_decide (t ∈ V (slot txg)))) /\
    lists_ok E (set_txg_list p tl st) L V' /\ (forall s u, u ∈ V' s <-> u ∈ V s \/ (s = slot txg /\ u = t)) /\
    forall s, s <> slot txg -> V' s = V s.
Proof.
  intros [H1 H2 H3 H4 H5 H6] Ht. destruct (list_add_spec _ _ _ t txg H3 (H2 t Ht)) as (tl & st & Ea & R & Eo & Ed).
  set (V' := upd V _ _) in R. assert (forall s u, u ∈ V' s <-> u ∈ V s \/ (s = slot txg /\ u = t)) as HV.
  { intros s u. unfold V', upd. destruct (decide (s = slot txg)) as [->|]; [|tauto]. case_bool_decide as Hin; [split; [tauto|]; by intros [?|[_ ->]]|]. rewrite elem_of_cons. tauto. }
  exists tl, st, V'. split_and!; [done| |done|intros s Hs; by apply upd_ne]. split; cbn [dtl_lists set_txg_list spa_vdev_txg_list vdev_txg_nodes]; try done.
  - intros u Hu. rewrite Eo. apply elem_of_dom. rewrite Ed. by apply elem_of_dom, H2.
  - intros s u Hs [?|[-> ->]]%HV; [by eapply H5|done].
  - intros u s Hs Hu. rewrite HV. destruct (H6 u s Hs Hu); tauto.
Qed.

Lemma dtl_list_dirty_spec E p L V t v txg :
  lists_ok E p L V -> is_top t -> leaf_of t v ->
  exists p' L' V', vdev_dirty p t VDD_DTL v txg = Ok p' /\ lists_ok E p' L' V' /\
    vds p' = vds p /\ spa_meta_objset p' = spa_meta_objset p /\ spa_dirty_list p' = spa_dirty_list p /\
    forall t' s u, u ∈ L' t' s <-> u ∈ L t' s \/ (t' = t /\ s = slot txg /\ u = v).
Proof.
  intros HL Ht Hv. pose proof Ht as (tvd & Hc & Htop). unfold vdev_dirty, ptr. rewrite Hc. run. rewrite bool_decide_true by done. cbn [verify]. run.
  change (Z.land VDD_DTL (VDD_DTL - 1) =? 0) with true. change (Z.land VDD_DTL VDD_DTL =? 0) with false. cbn [verify]. run.
  destruct (pool_add E p L V t txg HL Ht) as (ptl & pst & V' & Ea & HL' & HV & _). destruct HL' as [H1 H2 H3 H4 H5 H6].
  destruct (H1 t Ht) as (tl & st & Hl & R & Hn). cbn [dtl_lists set_txg_list] in Hl. rewrite Hl. run.
  destruct (list_add_spec _ _ _ v txg R (Hn v Hv)) as (tl' & st' & -> & R' & Eo & Ed). run.
  cbn [set_dtl_list spa_vdev_txg_list vdev_txg_nodes]. rewrite Ea. run.
  set (l' := upd (L t) _ _) in R'. set (L' := fun t' => if decide (t' = t) then l' else L t').
  assert (forall t' s u, u ∈ L' t' s <-> u ∈ L t' s \/ (t' = t /\ s = slot txg /\ u = v)) as HL'.
  { intros t' s u. unfold L'. destruct (decide (t' = t)) as [->|]; [|tauto]. unfold l', upd. destruct (decide (s = slot txg)) as [->|]; [|tauto].
    destruct (bool_decide_reflect (v ∈ L t (slot txg))); [split; [tauto|]; by intros [?|(_ & _ & ->)]|]. rewrite elem_of_cons. tauto. }
  eexists _, L', V'. split; [done|]. split_and!; try done. split; cbn [set_dtl_list set_txg_list dtl_lists spa_vdev_txg_list vdev_txg_nodes]; try done.
  - intros u Hu. unfold L'. destruct (decide (u = t)) as [->|Eu]; [|by rewrite lookup_insert_ne; [apply H1|]].
    rewrite lookup_insert_eq. exists tl', st'. split_and!; [done|done|]. intros w Hw. rewrite Eo. apply elem_of_dom. rewrite Ed. by apply elem_of_dom, Hn.
  - intros t' s u Hs [?|(-> & -> & ->)]%HL'; [by eapply H4|done].
  - intros t' s Hs Hne. rewrite HV. destruct (decide (t' = t /\ s = slot txg)) as [[-> ->]|Hno]; [tauto|].
    enough (t' ∈ V s \/ E t' s) by tauto. apply (lo_seen _ _ _ _ HL); [done|]. destruct (L' t' s) as [|u l] eqn:E'; [done|]. intros E0. clear Hne.
    assert (u ∈ L' t' s) as Hu by (rewrite E'; apply elem_of_cons; by left). apply HL' in Hu as [Hu|(-> & -> & _)]; [rewrite E0 in Hu; by apply not_elem_of_nil in Hu|]. by destruct Hno.
Qed.

Lemma lists_vds E p p' L V :
  lists_ok E p L V -> dtl_lists p' = dtl_lists p -> spa_vdev_txg_list p' = spa_vdev_txg_list p -> vdev_txg_nodes p' = vdev_txg_nodes p -> lists_ok E p' L V.
Proof. intros [H1 H2 H3 H4 H5 H6] E1 E2 E3. split; rewrite ?E1, ?E2, ?E3; done. Qed.

(** ** Reassessing *)

(** What a leaf misses afterwards. *)
Definition reassessed (m : gmap Z dtls) (scrub_txg : Z) (scrub_done : bool) (b : bool) (u y : Z) : Prop :=
  if b then scrub_done = false /\ logs m true u y
  else if scrub_txg =? 0 then logs m false u y
  else (logs m false u y /\ ~ y < scrub_txg) \/ logs m true u y.

(** The vdevs of [P] have been reassessed. *)
Record effect (E : Z -> nat -> Prop) (txg scrub_txg : Z) (scrub_done : bool) (P : Z -> Prop) (p : pool) (L : Z -> nat -> list Z)
    (p' : pool) (L' : Z -> nat -> list Z) (V' : nat -> list Z) : Prop := {
  ef_ok : vds_ok (vds p');
  ef_lists : lists_ok E p' L' V';
  ef_mos : spa_meta_objset p' = spa_meta_objset p;
  ef_dirty : spa_dirty_list p' = spa_dirty_list p;
  ef_keeps : keeps (vds p) (vds p');
  ef_leaf u uvd b y : P u -> cfg !! u = Some uvd -> vdev_child uvd = [] ->
    logs (vds p') b u y <-> reassessed (vds p) scrub_txg scrub_done b u y;
  ef_inner u uvd b y : P u -> cfg !! u = Some uvd -> vdev_child uvd <> [] ->
    logs (vds p') b u y <-> exists c, c ∈ vdev_child uvd /\ logs (vds p') b c y;
  ef_list t s u : u ∈ L' t s <-> u ∈ L t s \/ (txg <> 0 /\ s = slot txg /\ P u /\ leaf_of t u)
}.
Definition frame (P : Z -> Prop) (p p' : pool) : Prop := forall u, ~ P u -> vds p' !! u = vds p !! u.

Lemma frame_logs P p p' b u y : frame P p p' -> ~ P u -> logs (vds p') b u y <-> logs (vds p) b u y.
Proof. intros F Hu. unfold logs. by rewrite (F u Hu). Qed.


Section Reassess.
Context (E : Z -> nat -> Prop) (d : Z -> nat) (T : tree d) (txg scrub_txg : Z) (scrub_done : bool) (Hscrub : 0 <= scrub_txg < 2 ^ 64).
Local Abbreviation eff := (effect E txg scrub_txg scrub_done).

Lemma leaf_top v vd : cfg !! v = Some vd -> vdev_child vd = [] -> exists t, vdev_top vd = Some t /\ is_top t /\ leaf_of t v.
Proof. intros Hv Hl. destruct (t_top _ T _ _ Hv Hl) as (t & tvd & Ht & Hc & Htt). exists t. split_and!; [done|by exists tvd|by exists vd]. Qed.

(** The new logs of a leaf. *)
Lemma leaf_logs x :
  (forall b, dtl_ok (log_at b x)) ->
  exists map scrub,
    (if scrub_txg =? 0 then Ok (vdev_dtl_map x)
     else sm ← space_map_excise zfs_recover (vdev_dtl_map x) 0 scrub_txg; space_map_union zfs_recover sm (vdev_dtl_scrub x)) = Ok map /\
    (if scrub_done then MetaslabTxg.vacate_null (vdev_dtl_scrub x) else Ok (vdev_dtl_scrub x)) = Ok scrub /\
    dtl_ok map /\ dtl_ok scrub /\
    forall m v y, m !! v = Some x ->
      (member (segs map) y <-> reassessed m scrub_txg scrub_done false v y) /\ (member (segs scrub) y <-> reassessed m scrub_txg scrub_done true v y).
Proof.
  intros Hx. pose proof (Hx false) as Hm. pose proof (Hx true) as Hs. cbn in Hm, Hs.
  assert (exists scrub, (if scrub_done then MetaslabTxg.vacate_null (vdev_dtl_scrub x) else Ok (vdev_dtl_scrub x)) = Ok scrub /\ dtl_ok scrub /\
    forall y, member (segs scrub) y <-> scrub_done = false /\ member (segs (vdev_dtl_scrub x)) y) as (scrub & -> & Ks & Ms).
  { destruct scrub_done; [|by exists (vdev_dtl_scrub x); split_and!; [| |tauto]].
    destruct (dtl_vacate_spec _ Hs) as (sm & -> & K & Ee). exists sm. split_and!; [done|done|]. intros y. rewrite Ee. split; [intros []%member_nil|by intros [? _]]. }
  unfold reassessed. destruct (Z.eqb_spec scrub_txg 0) as [Ez|Ez].
  - exists (vdev_dtl_map x), scrub. split_and!; [done..|]. intros m v y Hv. by rewrite !(logs_at _ _ _ _ _ Hv), Ms.
  - destruct (dtl_excise_spec _ scrub_txg Hm ltac:(lia)) as (sm & -> & K & M). run. destruct (dtl_union_spec _ _ K Hs) as (sm' & -> & K' & M').
    exists sm', scrub. split_and!; [done..|]. intros m v y Hv. rewrite !(logs_at _ _ _ _ _ Hv), Ms, M', M. done.
Qed.

Lemma reassess_leaf_spec p L V v vd :
  cfg !! v = Some vd -> vdev_child vd = [] -> vds_ok (vds p) -> lists_ok E p L V ->
  exists p' L' V', reassess_leaf p vd v txg scrub_txg scrub_done = Ok p' /\ eff (fun u => u = v) p L p' L' V' /\ frame (fun u => u = v) p p'.
Proof.
  intros Hv Hl Hok HL. unfold reassess_leaf, ptr. destruct (proj2 (vo_dom _ Hok v) (ex_intro _ _ Hv)) as [x Hx]. rewrite Hx. run.
  destruct (leaf_logs x (fun b => vo_logs _ Hok v x b Hx)) as (map & scrub & -> & -> & Km & Ks & M). run.
  set (x' := Dtls map scrub _ _). set (p1 := set_vd p v x'). destruct (leaf_top v vd Hv Hl) as (t & Htop & Ht & Hlt). rewrite Htop. cbn [nonnull]. run.
  assert (lists_ok E p1 L V) as HL1 by by apply (lists_vds E p).
  assert (vds_ok (vds p1)) as Hok1 by (apply vds_ok_insert; [done|eauto|by intros []]).
  assert (exists p' L' V', (if txg =? 0 then Ok p1 else vdev_dirty p1 t VDD_DTL v txg) = Ok p' /\ lists_ok E p' L' V' /\ vds p' = vds p1 /\
    spa_meta_objset p' = spa_meta_objset p1 /\ spa_dirty_list p' = spa_dirty_list p1 /\
    forall t' s u, u ∈ L' t' s <-> u ∈ L t' s \/ (txg <> 0 /\ s = slot txg /\ u = v /\ leaf_of t' u)) as (p' & L' & V' & -> & HL' & E1 & E2 & E3 & E4).
  { destruct (Z.eqb_spec txg 0) as [Et|Et]; [exists p1, L, V; split_and!; try done; intros; tauto|].
    destruct (dtl_list_dirty_spec E p1 L V t v txg HL1 Ht Hlt) as (p' & L' & V' & ? & ? & ? & ? & ? & HLm). exists p', L', V'. split_and!; try done.
    intros t' s u. rewrite HLm. split; [intros [?|(-> & -> & ->)]; [tauto|by right]|]. intros [?|(_ & -> & -> & (vd' & Hv' & _ & Ht'))]; [by left|right]. split_and!; congruence. }
  exists p', L', V'. split; [done|]. split.
  - split; [by rewrite E1|done|by rewrite E2|by rewrite E3|rewrite E1; by apply (keeps_insert _ _ x)| | |done].
    + intros u uvd b y -> _ _. rewrite E1. cbn [p1 set_vd vds]. rewrite logs_insert. destruct (M (vds p) v y Hx), b; done.
    + intros u uvd b y -> Hu Hne. congruence.
  - intros u Hu. rewrite E1. cbn. by rewrite lookup_insert_ne.
Qed.

(** Two sets of vdevs, one after the other. *)
Definition closed (P : Z -> Prop) : Prop := forall u uvd c, P u -> cfg !! u = Some uvd -> c ∈ vdev_child uvd -> P c.

Lemma effect_app P Q p L p1 L1 V1 p2 L2 V2 :
  eff P p L p1 L1 V1 -> eff Q p1 L1 p2 L2 V2 -> frame Q p1 p2 -> (forall u, P u -> ~ Q u) -> closed P ->
  (forall u uvd, Q u -> cfg !! u = Some uvd -> vdev_child uvd = [] -> vds p1 !! u = vds p !! u) ->
  eff (fun u => P u \/ Q u) p L p2 L2 V2.
Proof.
  intros [A1 A2 A3 A4 A5 A6 A7 A8] [B1 B2 B3 B4 B5 B6 B7 B8] F Hd Hc Hq.
  split; [done|done|congruence|congruence|by eapply keeps_trans| | |].
  - intros u uvd b y [Hu|Hu] Hcf Hl.
    + rewrite (frame_logs _ _ _ _ _ _ F (Hd u Hu)). by eapply A6.
    + rewrite (B6 u uvd b y Hu Hcf Hl). unfold reassessed, logs. by rewrite (Hq u uvd Hu Hcf Hl).
  - intros u uvd b y [Hu|Hu] Hcf Hl; [|by eapply B7]. rewrite (frame_logs _ _ _ _ _ _ F (Hd u Hu)), (A7 u uvd b y Hu Hcf Hl).
    assert (forall c, c ∈ vdev_child uvd -> logs (vds p2) b c y <-> logs (vds p1) b c y) as Es by (intros c Hin; apply (frame_logs _ _ _ _ _ _ F), Hd; by eapply Hc).
    split; intros (c & Hin & Hy); exists c; (split; [done|]); by apply Es.
  - intros t s u. rewrite B8, A8. tauto.
Qed.

(** Changing the logs of a vdev outside [P]. *)
Lemma effect_set P p L p1 L1 V1 v x x' :
  eff P p L p1 L1 V1 -> closed P -> ~ P v -> vds p1 !! v = Some x -> hdr x' = hdr x -> (forall b, dtl_ok (log_at b x')) ->
  eff P p L (set_vd p1 v x') L1 V1.
Proof.
  intros [A1 A2 A3 A4 A5 A6 A7 A8] Hc Hv Hx Hh Hk.
  assert (forall u, P u -> u <> v) as Hne by (intros u Hu ->; done). split; [apply vds_ok_insert; [done|eauto|done]|by apply (lists_vds E p1)|done|done| | | |done].
  - eapply keeps_trans; [exact A5|by apply (keeps_insert _ _ x)].
  - intros u uvd b y Hu Hcf Hl. cbn. rewrite logs_insert_ne by auto. by eapply A6.
  - intros u uvd b y Hu Hcf Hl. cbn. rewrite logs_insert_ne, (A7 u uvd b y Hu Hcf Hl) by auto.
    assert (forall c, c ∈ vdev_child uvd -> c <> v) as Hcv by (intros c Hin; apply Hne; by eapply Hc).
    split; intros (c & Hin & Hy); exists c; (split; [done|]); apply logs_insert_ne in Hy || apply logs_insert_ne; auto.
Qed.

Definition under (cs : list Z) (u : Z) : Prop := exists c, c ∈ cs /\ anc u c.

Lemma under_closed cs : closed (under cs).
Proof. intros u uvd c (a & Ha & Hu) Hcf Hc. exists a. split; [done|]. eapply rtc_l; [|exact Hu]. by apply (up_child d T u uvd). Qed.

Lemma under_snoc dn c u : under (dn ++ [c]) u <-> under dn u \/ anc u c.
Proof.
  unfold under. setoid_rewrite elem_of_app. setoid_rewrite list_elem_of_singleton. split; [intros (a & [?| ->] & ?); eauto|].
  intros [(a & ? & ?)|?]; eauto.
Qed.

Lemma effect_ext (P Q : Z -> Prop) p L p1 L1 V1 : (forall u, P u <-> Q u) -> eff P p L p1 L1 V1 -> eff Q p L p1 L1 V1.
Proof.
  intros Ep [A1 A2 A3 A4 A5 A6 A7 A8]. split; try done.
  - intros u uvd b y Hu. apply A6. by apply Ep.
  - intros u uvd b y Hu. apply A7. by apply Ep.
  - intros t s u. by rewrite A8, Ep.
Qed.

(** The loop over the children of [v], of which those of [dn] are done. *)
Lemma children_spec rec v vd p0 L0 :
  cfg !! v = Some vd ->
  (forall c p L V, up c v -> vds_ok (vds p) -> lists_ok E p L V ->
     exists p' L' V', rec p c = Ok p' /\ eff (fun u => anc u c) p L p' L' V' /\ frame (fun u => anc u c) p p') ->
  forall cs dn p L V, vdev_child vd = dn ++ cs -> NoDup (vdev_child vd) ->
    eff (under dn) p0 L0 p L V -> frame (fun u => under dn u \/ u = v) p0 p ->
    (forall b y, logs (vds p) b v y <-> exists c, c ∈ dn /\ logs (vds p) b c y) ->
    exists p' L' V', reassess_children rec v cs p = Ok p' /\ eff (under (vdev_child vd)) p0 L0 p' L' V' /\
      frame (fun u => under (vdev_child vd) u \/ u = v) p0 p' /\
      forall b y, logs (vds p') b v y <-> exists c, c ∈ vdev_child vd /\ logs (vds p') b c y.
Proof.
  intros Hv Hrec. induction cs as [|c cs IH]; intros dn p L V Ecs Hnd He Hf Hs.
  - rewrite app_nil_r in Ecs. rewrite Ecs. by exists p, L, V.
  - cbn [reassess_children]. assert (c ∈ vdev_child vd) as Hc by (rewrite Ecs; set_solver). assert (up c v) as Hup by by apply (up_child d T v vd).
    destruct (Hrec c p L V Hup (ef_ok _ _ _ _ _ _ _ _ _ _ He) (ef_lists _ _ _ _ _ _ _ _ _ _ He)) as (p1 & L1 & V1 & -> & He1 & Hf1). run.
    assert (~ anc v c) as Hvc by by apply (child_below d T).
    assert (forall a, a ∈ dn -> up a v) as Hdn by (intros a Ha; apply (up_child d T v vd); [done|rewrite Ecs; set_solver]).
    assert (c ∉ dn) as Hcdn by (rewrite Ecs in Hnd; apply NoDup_app in Hnd as (_ & Hnd & _); intros Hin; apply (Hnd c Hin); set_solver).
    assert (forall u, under dn u -> ~ anc u c) as Hdis.
    { intros u (a & Ha & Hu) Huc. destruct Hcdn. by rewrite <- (siblings d T u a c v Hu Huc (Hdn a Ha) Hup). }
    assert (eff (fun u => under dn u \/ anc u c) p0 L0 p1 L1 V1) as He2.
    { eapply effect_app; [exact He|exact He1|done|done|apply under_closed|]. intros u uvd Hu Hcf Hl. apply Hf.
      intros [Hun| ->]; [by apply (Hdis u)|]. congruence. }
    destruct (proj2 (vo_dom _ (ef_ok _ _ _ _ _ _ _ _ _ _ He1) v) (ex_intro _ _ Hv)) as [x Hx].
    destruct (proj2 (vo_dom _ (ef_ok _ _ _ _ _ _ _ _ _ _ He1) c)) as [cx Hcx]; [destruct Hup as (? & ? & _); eauto|].
    unfold ptr. rewrite Hx, Hcx. run. pose proof (vo_logs _ (ef_ok _ _ _ _ _ _ _ _ _ _ He1)) as Kl.
    destruct (dtl_union_spec _ _ (Kl v x false Hx) (Kl c cx false Hcx)) as (map & Em & Km & Mm). cbn [log_at] in Em. rewrite Em. run.
    destruct (dtl_union_spec _ _ (Kl v x true Hx) (Kl c cx true Hcx)) as (scrub & Es & Ks & Ms). cbn [log_at] in Es. rewrite Es. run.
    set (x' := Dtls map scrub _ _). pose proof (under_snoc dn c) as Hun.
    apply (IH (dn ++ [c]) (set_vd p1 v x') L1 V1); [by rewrite <- app_assoc|done| | |].
    + eapply effect_ext; [intros u; symmetry; apply Hun|]. apply (effect_set _ _ _ _ _ _ _ x); [done| | |done|done|by intros []].
      * intros u uvd a Hu Hcf Ha. apply Hun. eapply under_closed; [by apply Hun|done..].
      * intros [(a & Ha & Hva)|?]; [|done]. by apply (child_below d T a v (Hdn a Ha)).
    + intros u Hu. cbn. rewrite lookup_insert_ne by (intros ->; tauto). rewrite Hf1, Hf; [done|intros [?| ->]; apply Hu; [left; apply Hun; by left|by right]|].
      intros Huc. apply Hu. left. apply Hun. by right.
    + intros b y. cbn. rewrite logs_insert. assert (forall a, a ∈ dn -> logs (vds p1) b a y <-> logs (vds p) b a y) as Hsame.
      { intros a Ha. apply (frame_logs _ _ _ _ _ _ Hf1), Hdis. by exists a. }
      assert (member (segs (log_at b x')) y <-> logs (vds p1) b v y \/ logs (vds p1) b c y) as ->
        by (rewrite (logs_at _ _ _ _ _ Hx), (logs_at _ _ _ _ _ Hcx); by destruct b).
      rewrite (frame_logs _ _ _ b v y Hf1 Hvc), Hs. assert (forall a, a ∈ dn ++ [c] -> a <> v) as Hav.
      { intros a [Ha| ->%list_elem_of_singleton]%elem_of_app ->; [by apply (child_below d T v v (Hdn v Ha))|done]. }
      split.
      * intros [(a & Ha & Hy)|Hy]; [exists a|exists c]; (split; [set_solver|]); (apply logs_insert_ne; [apply Hav; set_solver|]); [by apply Hsame|done].
      * intros (a & Ha & Hy). apply logs_insert_ne in Hy; [|by apply Hav]. apply elem_of_app in Ha as [Ha| ->%list_elem_of_singleton]; [left; exists a; split; [done|by apply Hsame]|by right].
Qed.

Lemma ptr_ok {A} (m : gmap Z A) v x : m !! v = Some x -> ptr m v = Ok x.
Proof. unfold ptr. by intros ->. Qed.

(** A vdev whose children have been reassessed, and itself. *)
Lemma effect_root v vd p L p0 x x' p' L' V' :
  cfg !! v = Some vd -> vdev_child vd <> [] -> vds p !! v = Some x -> hdr x' = hdr x -> p0 = set_vd p v x' ->
  eff (under (vdev_child vd)) p0 L p' L' V' ->
  (forall b y, logs (vds p') b v y <-> exists c, c ∈ vdev_child vd /\ logs (vds p') b c y) ->
  eff (fun u => under (vdev_child vd) u \/ u = v) p L p' L' V'.
Proof.
  intros Hv Hne Hx Hh -> [A1 A2 A3 A4 A5 A6 A7 A8] Hs. split; try done.
  - eapply keeps_trans; [|exact A5]. by apply (keeps_insert _ _ x).
  - intros u uvd b y Hu Hcf Hl. assert (u <> v) as Huv by (intros ->; congruence). rewrite (A6 u uvd b y) by (tauto || done).
    unfold reassessed, logs. cbn. by rewrite lookup_insert_ne.
  - intros u uvd b y [Hu| ->] Hcf Hl; [by eapply A7|]. rewrite Hs. replace uvd with vd by congruence. done.
  - intros t s u. rewrite A8. split; [intros [?|(? & ? & ? & ?)]; [by left|right; tauto]|]. intros [?|(? & ? & [?| ->] & Hlf)]; [by left|by right|]. destruct Hlf as (vd' & Hv' & Hl' & _). congruence.
Qed.

Lemma reassess_spec fuel : forall v p L V,
  is_Some (cfg !! v) -> vds_ok (vds p) -> lists_ok E p L V -> (size cfg <= d v + fuel)%nat ->
  exists p' L' V', vdev_dtl_reassess fuel txg scrub_txg scrub_done p v = Ok p' /\
    eff (fun u => anc u v) p L p' L' V' /\ frame (fun u => anc u v) p p'.
Proof.
  induction fuel as [|fuel IH]; intros v p L V [vd Hv] Hok HL Hf; [pose proof (depth_lt d T v (ex_intro _ _ Hv)); lia|].
  cbn [vdev_dtl_reassess]. rewrite (ptr_ok _ _ _ Hv). run. destruct (vdev_child vd) as [|c0 cs0] eqn:Hl.
  - destruct (reassess_leaf_spec p L V v vd Hv Hl Hok HL) as (p' & L' & V' & -> & He & Hfr). exists p', L', V'.
    assert (forall u, u = v <-> anc u v) as Eu.
    { intros u. rewrite (below_cases d T v vd u Hv), Hl. split; [by left|]. by intros [?|(c & []%not_elem_of_nil & _)]. }
    split; [done|]. split; [exact (effect_ext _ _ _ _ _ _ _ Eu He)|]. intros u Hu. apply Hfr. by rewrite Eu.
  - destruct (proj2 (vo_dom _ Hok v) (ex_intro _ _ Hv)) as [x Hx]. rewrite (ptr_ok _ _ _ Hx). run.
    destruct (dtl_vacate_spec _ (vo_logs _ Hok v x false Hx)) as (map & Em & Km & Sm). cbn [log_at] in Em. rewrite Em. run.
    destruct (dtl_vacate_spec _ (vo_logs _ Hok v x true Hx)) as (scrub & Es & Ks & Ss). cbn [log_at] in Es. rewrite Es. run.
    set (x' := Dtls map scrub _ _). rewrite <- Hl. set (p0 := set_vd p v x').
    assert (vds_ok (vds p0)) as Hok0 by (apply vds_ok_insert; [done|eauto|by intros []]).
    destruct (children_spec (vdev_dtl_reassess fuel txg scrub_txg scrub_done) v vd p0 L Hv) with (cs := vdev_child vd) (dn := @nil Z) (p := p0) (L := L) (V := V)
      as (p' & L' & V' & -> & He & Hfr & Hs); [|done|by apply (t_nodup _ T v)| |done| |].
    + intros c q Lq Vq Hc Hoq HLq. apply (IH c q Lq Vq); [destruct Hc as (? & ? & _); eauto|done|done|]. rewrite (up_d d T c v Hc). lia.
    + split; try done; [by apply (lists_vds E p)|by intros ? ? ? ? (? & []%not_elem_of_nil & _)..|].
      intros t s u. split; [by left|]. by intros [?|(_ & _ & (? & []%not_elem_of_nil & _) & _)].
    + intros b y. cbn. rewrite logs_insert. split; [|by intros (? & []%not_elem_of_nil & _)]. destruct b; cbn [log_at x' vdev_dtl_map vdev_dtl_scrub]; rewrite ?Sm, ?Ss; intros []%member_nil.
    + exists p', L', V'. split; [done|]. assert (forall u, under (vdev_child vd) u \/ u = v <-> anc u v) as Eu.
      { intros u. rewrite (below_cases d T v vd u Hv). unfold under. tauto. }
      split; [|intros u Hu; rewrite Hfr by (by rewrite Eu); unfold p0; cbn; by rewrite lookup_insert_ne by (intros ->; apply Hu, rtc_refl)].
      eapply effect_ext; [exact Eu|]. apply (effect_root v vd p L p0 x x' p' L' V'); [done|by rewrite Hl|done..].
Qed.
End Reassess.

(** ** The logs on disk *)

Definition dtl0 : space_map := space_map_create 0 (2 ^ 64 - 1) 0.

Lemma dtl0_ok : dtl_ok dtl0 /\ segs dtl0 = [].
Proof.
  assert (segs dtl0 = []) as E by (unfold segs; apply ot_empty_spec). split; [|done].
  split; [by apply create_ok; lia|done|done|done|]. rewrite E. intros x []%member_nil.
Qed.

Lemma dtl_ends sm : dtl_ok sm -> List.Forall (fun s => ss_end s <= 2 ^ 47) (segs sm).
Proof.
  intros Hs. apply List.Forall_forall. intros s Hin. destruct (ok_wf _ (do_ok _ Hs)) as [_ Hne]. rewrite List.Forall_forall in Hne. specialize (Hne s Hin). cbn in Hne.
  assert (ss_end s - 1 < 2 ^ 47); [|lia]. apply (do_small _ Hs). exists s. split; [done|lia].
Qed.

Lemma dtl_addressable sm : dtl_ok sm -> region_ok sm /\ 0 <= sm_space sm <= 2 ^ 47.
Proof.
  intros Hs. pose proof (dtl_ends sm Hs) as He. pose proof (do_ok _ Hs) as Hok. split.
  - split_and!; [done|unfold aligned; by rewrite (do_shift _ Hs), Z.mod_1_r|]. rewrite (do_start _ Hs), (do_shift _ Hs). eapply List.Forall_impl; [|exact He]. cbn. intros. lia.
  - rewrite (ok_space _ Hok). replace (2 ^ 47) with (2 ^ 47 - 0) by lia. pose proof (total_bound (segs sm) 0 (2 ^ 47) (ok_wf _ Hok)) as H.
    enough (0 <= total (segs sm) <= 2 ^ 47 - 0) by lia. apply H; [lia|]. rewrite List.Forall_forall in He |- *. intros s Hin. split; [|by apply He].
    pose proof (ok_bounds _ Hok) as Hb. rewrite List.Forall_forall in Hb. destruct (Hb s Hin). rewrite (do_start _ Hs) in *. lia.
Qed.

(** Only object [obj] has changed. *)
Definition only (os os' : objset) (obj : Z) : Prop :=
  forall o, o <> obj -> (dmu_exists os' o <-> dmu_exists os o) /\ dmu_words os' o = dmu_words os o /\ dmu_bonus os' o = dmu_bonus os o.

Lemma only_trans a b c obj : only a b obj -> only b c obj -> only a c obj.
Proof. intros H1 H2 o Ho. destruct (H1 o Ho) as (A1 & <- & <-), (H2 o Ho) as (B1 & -> & ->). by rewrite B1, A1. Qed.

(** The object of [smo] has a header that says that its log is [A]. *)
Definition header (os : objset) (smo : space_map_obj) (A : Z -> Prop) : Prop :=
  (exists rest, dmu_bonus os (smo_object smo) = Some (MetaslabTxg.smo_words smo ++ rest)) /\ smo_objsize smo < 2 ^ 63 /\ log_of os smo dtl0 A.

Definition holdable (os : objset) (obj : Z) : Prop := dmu_exists os obj /\ exists db, dmu_bonus os obj = Some db /\ (3 <= length db)%nat.

Lemma copy_spec sm :
  dtl_ok sm ->
  exists sm', space_map_walk sm (space_map_add zfs_recover) (space_map_create (sm_start sm) (sm_size sm) (sm_shift sm)) = Ok sm' /\
    dtl_ok sm' /\ same_region dtl0 sm' /\ forall y, member (segs sm') y <-> member (segs sm) y.
Proof.
  intros Hs. rewrite (do_start _ Hs), (do_size _ Hs), (do_shift _ Hs). fold dtl0. destruct dtl0_ok as [K0 S0].
  rewrite walk_for_segs by apply Hs. destruct (add_all zfs_recover sm dtl0 (segs sm)) as (sm' & -> & K & R & _ & M);
    [apply Hs|apply K0|by apply dtl_compatible|done|rewrite S0; intros x _ []%member_nil|].
  assert (forall y, member (segs sm') y <-> member (segs sm) y) as M'.
  { intros y. rewrite M, S0. pose proof (member_nil y). tauto. }
  exists sm'. split_and!; [done| |done|done]. eapply dtl_region; [exact K0|done|done|]. intros x Hx%M'. by apply (do_small _ Hs).
Qed.

Lemma destroy_empty sm : sm_ok sm -> segs sm = [] -> sm_loaded sm = false -> sm_loading sm = false -> space_map_destroy sm = Ok tt.
Proof.
  intros Hok E E1 E2. unfold space_map_destroy. rewrite E1, E2, (ok_space _ Hok), E. cbn. rewrite ot_numnodes_spec by apply Hok.
  unfold segs in E. by rewrite E.
Qed.

Lemma dtl_write_spec sm smo os pass txg :
  dtl_ok sm -> holdable os (smo_object smo) ->
  exists smo' os', dtl_write sm smo os pass txg = Ok (smo', os') /\ smo_object smo' = smo_object smo /\
    header os' smo' (member (segs sm)) /\ holdable os' (smo_object smo) /\ only os os' (smo_object smo).
Proof.
  intros Hs [Hex (db & Hdb & Hlen)]. unfold dtl_write. destruct (copy_spec sm Hs) as (sm1 & -> & K1 & R1 & M1). run.
  unfold space_map_truncate. destruct (dmu_free_range_spec os (smo_object smo)) as (os1 & Ef & F1 & F2). rewrite Ef. run.
  set (obj := smo_object smo) in *. destruct (dtl_addressable sm1 K1) as [Hreg Hsp].
  destruct (sync_spec zfs_recover sm1 SM_ALLOC (Smo obj 0 0) os1 pass txg (fun _ => False)) as (sm2 & smo2 & os2 & E2 & K2 & S2 & R2 & O2 & L2 & W2 & _ & B2);
    [done|by left|exists 0%nat; split_and!; [done|lia|apply rp_nil; by intros ? []]|by intros x _ []|cbn; lia|]. rewrite E2. run.
  pose proof R1 as (_ & _ & _ & R14 & R15 & _). pose proof R2 as (_ & _ & _ & R24 & R25 & _).
  rewrite destroy_empty by (done || by rewrite ?R24, ?R25, ?R14, ?R15). run. cbn [smo_object] in O2, W2. rewrite O2.
  assert (forall o, dmu_bonus os2 o = dmu_bonus os o /\ (dmu_exists os2 o <-> dmu_exists os o)) as Hsame.
  { intros o. eapply (sync_frame obj (fun w => dmu_bonus w o = dmu_bonus os o /\ (dmu_exists w o <-> dmu_exists os o))); [| |exact E2|]; [|done|].
    - intros w off sz buf [<- <-]. destruct (dmu_write_exists w obj off sz buf o) as [? ?]. by split.
    - destruct (dmu_free_exists os obj 0 (2 ^ 64 - 1) os1 o Ef) as [? ?]. by split. }
  rewrite (proj1 (Hsame obj)), Hdb. replace (24 <=? 8 * zlen db) with true by (symmetry; apply Z.leb_le; lia). cbn [verify]. run.
  eexists smo2, _. split; [done|]. split; [done|]. assert (dmu_bonus os2 obj = Some db) as Hdb2 by by rewrite (proj1 (Hsame obj)).
  pose proof (dmu_bonus_write_spec os2 obj (MetaslabTxg.smo_words smo2) db Hdb2) as Hb. cbn [length MetaslabTxg.smo_words] in Hb. specialize (Hb Hlen).
  split; [|split].
  - split_and!; [eexists; rewrite O2; exact Hb|cbn in B2; lia|]. destruct L2 as (n & N1 & N2 & N3). exists n.
    rewrite O2 in *. destruct (dmu_bonus_write_frame os2 obj (MetaslabTxg.smo_words smo2) obj) as (_ & -> & _). split_and!; [done|done|].
    eapply replays_ext; [eapply replays_region; [|exact N3]; by apply dtl_compatible, dtl0_ok|]. intros x. unfold after. cbn. rewrite M1. tauto.
  - split; [apply dmu_bonus_write_frame; by apply Hsame|]. eexists. split; [exact Hb|]. cbn. lia.
  - intros o Ho. destruct (dmu_bonus_write_frame os2 obj (MetaslabTxg.smo_words smo2) o) as (X1 & -> & X2 & _). rewrite X1, (X2 Ho). destruct (Hsame o) as [-> ->].
    split_and!; [done| |done]. by rewrite W2, F2.
Qed.

(** The log of [x] on disk is the one in memory. *)
Definition saved (os : objset) (x : dtls) : Prop :=
  let obj := smo_object (vdev_dtl x) in
  if obj =? 0 then forall y, ~ member (segs (vdev_dtl_map x)) y
  else exists objsize alloc, header os (Smo obj objsize alloc) (member (segs (vdev_dtl_map x))).

Lemma header_ext os smo (A A' : Z -> Prop) : (forall y, A y <-> A' y) -> header os smo A -> header os smo A'.
Proof. intros E (H1 & H2 & n & N1 & N2 & N3). split_and!; [done|done|]. exists n. split_and!; [done|done|by eapply replays_ext]. Qed.
Lemma saved_ext os x x' :
  vdev_dtl x' = vdev_dtl x -> (forall y, member (segs (vdev_dtl_map x)) y <-> member (segs (vdev_dtl_map x')) y) -> saved os x -> saved os x'.
Proof.
  intros E M. unfold saved. rewrite E. destruct (_ =? 0); [intros H y; by rewrite <- M|]. intros (a & b & H). exists a, b. by eapply header_ext.
Qed.
Lemma saved_only os os' obj x : only os os' obj -> smo_object (vdev_dtl x) <> obj -> saved os x -> saved os' x.
Proof.
  intros Ho Hne. unfold saved. destruct (_ =? 0); [done|]. destruct (Ho _ Hne) as (_ & Ew & Eb). intros (a & b & (rest & Hb) & Hz & n & N1 & N2 & N3).
  exists a, b. cbn [smo_object] in *. split_and!; [exists rest; cbn [smo_object]; by rewrite Eb|done|]. exists n. cbn [smo_object]. rewrite Ew. done.
Qed.

(** The objects of the leaves' logs: there, with room for a header, one for each leaf. *)
Definition is_leaf (v : Z) : Prop := exists vd, cfg !! v = Some vd /\ vdev_child vd = [].
Record objs_ok (m : gmap Z dtls) (os : objset) : Prop := {
  oo_hold v x : is_leaf v -> m !! v = Some x -> smo_object (vdev_dtl x) <> 0 -> holdable os (smo_object (vdev_dtl x));
  oo_new v vd x : cfg !! v = Some vd -> vdev_child vd = [] -> vdev_detached vd = false -> m !! v = Some x -> smo_object (vdev_dtl x) = 0 ->
    smo_objsize (vdev_dtl x) = 0 /\ smo_alloc (vdev_dtl x) = 0;
  oo_distinct u v x y : is_leaf u -> is_leaf v -> m !! u = Some x -> m !! v = Some y ->
    smo_object (vdev_dtl x) <> 0 -> smo_object (vdev_dtl x) = smo_object (vdev_dtl y) -> u = v
}.

(** An object that no other leaf uses. *)
Definition own (m : gmap Z dtls) (v obj : Z) : Prop :=
  forall u y, u <> v -> is_leaf u -> m !! u = Some y -> smo_object (vdev_dtl y) <> 0 -> smo_object (vdev_dtl y) <> obj.

Lemma own_old m os v x : objs_ok m os -> is_leaf v -> m !! v = Some x -> own m v (smo_object (vdev_dtl x)).
Proof. intros Ho Hv Hx u y Huv Hu Hy H0 E. by destruct Huv; eapply (oo_distinct _ _ Ho u v y x). Qed.
Lemma own_new m os v obj : objs_ok m os -> ~ dmu_exists os obj -> own m v obj.
Proof. intros Ho Hn u y Huv Hu Hy H0 <-. by apply Hn, (oo_hold _ _ Ho u y). Qed.

(** After a change to one leaf's object and header. *)
Lemma objs_set m os os' v vd x smo obj :
  objs_ok m os -> cfg !! v = Some vd -> vdev_child vd = [] -> m !! v = Some x -> only os os' obj -> own m v obj ->
  (smo_object smo <> 0 -> smo_object smo = obj /\ holdable os' obj) -> (smo_object smo = 0 -> vdev_detached vd = true) ->
  objs_ok (<[v := set_smo x smo]> m) os'.
Proof.
  intros Ho Hv Hl Hx Hon Hown Hsmo Hdet. assert (is_leaf v) as Hlv by by exists vd. split.
  - intros u y Hu Hy H0. destruct (decide (u = v)) as [->|Huv]; [rewrite lookup_insert_eq in Hy; injection Hy as <-; cbn in *; by destruct (Hsmo H0) as [-> ?]|].
    rewrite lookup_insert_ne in Hy by done. destruct (oo_hold _ _ Ho u y Hu Hy H0) as (H1 & db & H2 & H3). destruct (Hon _ (Hown u y Huv Hu Hy H0)) as (E1 & _ & E3).
    split; [by apply E1|]. exists db. by rewrite E3.
  - intros u uvd y Hu Hul Hd Hy H0. destruct (decide (u = v)) as [->|Huv]; [rewrite lookup_insert_eq in Hy; injection Hy as <-; cbn in *; specialize (Hdet H0); congruence|].
    rewrite lookup_insert_ne in Hy by done. by eapply (oo_new _ _ Ho u).
  - intros u w y z Hu Hw Hy Hz H0 E. destruct (decide (u = v)) as [->|Huv], (decide (w = v)) as [->|Hwv]; [done|..].
    + rewrite lookup_insert_eq in Hy. injection Hy as <-. rewrite lookup_insert_ne in Hz by done. cbn in *. destruct (Hsmo H0) as [Eo _].
      destruct (Hown w z Hwv Hw Hz); congruence.
    + rewrite lookup_insert_eq in Hz. injection Hz as <-. rewrite lookup_insert_ne in Hy by done. cbn in *. destruct Hsmo as [Eo _]; [congruence|].
      destruct (Hown u y Huv Hu Hy); congruence.
    + rewrite lookup_insert_ne in Hy, Hz by done. by eapply (oo_distinct _ _ Ho u w y z).
Qed.

Definition same_lists (p p' : pool) : Prop :=
  dtl_lists p' = dtl_lists p /\ spa_vdev_txg_list p' = spa_vdev_txg_list p /\ vdev_txg_nodes p' = vdev_txg_nodes p.

Lemma dtl_object_spec p v vd x (d : Z -> nat) :
  tree d -> cfg !! v = Some vd -> vdev_child vd = [] -> vdev_detached vd = false -> vds p !! v = Some x -> objs_ok (vds p) (spa_meta_objset p) ->
  exists p1 smo1, dtl_object p vd (vdev_dtl x) = Ok (p1, smo1) /\ vds p1 = vds p /\ same_lists p p1 /\ smo_object smo1 <> 0 /\
    holdable (spa_meta_objset p1) (smo_object smo1) /\ own (vds p) v (smo_object smo1) /\ only (spa_meta_objset p) (spa_meta_objset p1) (smo_object smo1) /\
    (smo_object smo1 = smo_object (vdev_dtl x) \/ ~ dmu_exists (spa_meta_objset p) (smo_object smo1)).
Proof.
  intros T Hv Hl Hd Hx Ho. unfold dtl_object. assert (is_leaf v) as Hlv by by exists vd. destruct (Z.eqb_spec (smo_object (vdev_dtl x)) 0) as [E|E].
  - destruct (oo_new _ _ Ho v vd x Hv Hl Hd Hx E) as [-> ->]. cbn [Z.eqb verify]. run.
    destruct (dmu_object_alloc (spa_meta_objset p) 24) as [obj os] eqn:Ea. destruct (dmu_object_alloc_spec _ _ _ _ Ea) as (O1 & O2 & O3 & O4 & O5 & _ & O7).
    rewrite (proj2 (Z.eqb_neq obj 0)) by lia. cbn [negb verify]. run. destruct (t_top _ T v vd Hv Hl) as (t & tvd & -> & Ht & Htt). cbn [nonnull]. run.
    unfold vdev_config_dirty. rewrite (ptr_ok _ _ _ Ht). run. rewrite (bool_decide_true (vdev_top tvd = Some t)) by done. cbn [verify]. run. eexists _, _. split; [done|].
    assert (forall w : pool, vds w = vds p -> same_lists p w -> spa_meta_objset w = os ->
      vds w = vds p /\ same_lists p w /\ obj <> 0 /\ holdable (spa_meta_objset w) obj /\ own (vds p) v obj /\ only (spa_meta_objset p) (spa_meta_objset w) obj /\
      (obj = smo_object (vdev_dtl x) \/ ~ dmu_exists (spa_meta_objset p) obj)) as K.
    { intros w E1 E2 E3. rewrite E3. refine (conj E1 (conj E2 (conj _ (conj (conj O3 _) (conj _ (conj _ (or_intror O2))))))); [lia|exists (replicate 3 0); by rewrite O5|by eapply own_new|]. intros o Hne. destruct (O7 o Hne) as (? & ? & ? & _). done. }
    cbn [smo_object]. case_bool_decide; by apply K.
  - exists p, (vdev_dtl x). refine (conj eq_refl (conj eq_refl (conj _ (conj E (conj (oo_hold _ _ Ho v x Hlv Hx E) (conj _ (conj _ (or_introl eq_refl)))))))); [done|by eapply own_old|done].
Qed.

(** Objects that are no leaf's log stay as they are. *)
Definition foreign (m : gmap Z dtls) (o : Z) : Prop := o <> 0 /\ forall v x, is_leaf v -> m !! v = Some x -> smo_object (vdev_dtl x) <> o.
Definition foreign_same (p p' : pool) : Prop :=
  forall o, dmu_exists (spa_meta_objset p) o -> foreign (vds p) o ->
    foreign (vds p') o /\ dmu_exists (spa_meta_objset p') o /\
    dmu_words (spa_meta_objset p') o = dmu_words (spa_meta_objset p) o /\ dmu_bonus (spa_meta_objset p') o = dmu_bonus (spa_meta_objset p) o.

Lemma foreign_trans p q r : foreign_same p q -> foreign_same q r -> foreign_same p r.
Proof. intros H1 H2 o He Hf. destruct (H1 o He Hf) as (F1 & E1 & <- & <-). by apply H2. Qed.

(** What syncing one leaf's log does. *)
Record synced (p : pool) (v : Z) (x : dtls) (smo : space_map_obj) (p' : pool) : Prop := {
  sy_vds : vds p' = <[v := set_smo x smo]> (vds p);
  sy_lists : same_lists p p';
  sy_objs : objs_ok (vds p') (spa_meta_objset p');
  sy_saved vd : cfg !! v = Some vd -> vdev_detached vd = false -> saved (spa_meta_objset p') (set_smo x smo);
  sy_other u y : u <> v -> is_leaf u -> vds p !! u = Some y -> saved (spa_meta_objset p) y -> saved (spa_meta_objset p') y;
  sy_foreign : foreign_same p p'
}.

(** Any change to one object that [v] owns. *)
Lemma synced_intro p v vd x smo p' obj :
  cfg !! v = Some vd -> vdev_child vd = [] -> vds p !! v = Some x -> objs_ok (vds p) (spa_meta_objset p) ->
  vds p' = <[v := set_smo x smo]> (vds p) -> same_lists p p' -> obj <> 0 ->
  only (spa_meta_objset p) (spa_meta_objset p') obj -> own (vds p) v obj -> (obj = smo_object (vdev_dtl x) \/ ~ dmu_exists (spa_meta_objset p) obj) ->
  (smo_object smo <> 0 -> smo_object smo = obj /\ holdable (spa_meta_objset p') obj) -> (smo_object smo = 0 -> vdev_detached vd = true) ->
  (vdev_detached vd = false -> saved (spa_meta_objset p') (set_smo x smo)) ->
  synced p v x smo p'.
Proof.
  intros Hv Hl Hx Ho Ev El H0 Hon Hown Hobj Hsmo Hdet Hsv. assert (is_leaf v) as Hlv by by exists vd. split; [done|done| | | |].
  - rewrite Ev. by eapply objs_set.
  - intros vd' Hv'. by replace vd' with vd by congruence.
  - intros u y Huv Hu Hy Hs. destruct (Z.eqb_spec (smo_object (vdev_dtl y)) 0) as [E|E].
    + unfold saved in *. by rewrite E in *.
    + eapply saved_only; [done| |done]. by apply (Hown u y).
  - intros o Hex [Hoz Hf]. assert (o <> obj) as Hne by (intros ->; destruct Hobj as [->|?]; [by apply (Hf v x)|done]). destruct (Hon o Hne) as (E1 & E2 & E3).
    refine (conj (conj Hoz _) (conj (proj2 E1 Hex) (conj E2 E3))). intros u y Hu Hy. rewrite Ev in Hy. destruct (decide (u = v)) as [->|Huv];
      [rewrite lookup_insert_eq in Hy; injection Hy as <-; cbn|rewrite lookup_insert_ne in Hy by done; by eapply Hf].
    intros Eo. destruct (Z.eqb_spec (smo_object smo) 0) as [Ez|Ez]; [congruence|by destruct (Hsmo Ez); congruence].
Qed.

Lemma synced_refl p v vd x :
  cfg !! v = Some vd -> vdev_detached vd = true -> vds p !! v = Some x -> objs_ok (vds p) (spa_meta_objset p) -> synced p v x (vdev_dtl x) p.
Proof.
  intros Hv Hd Hx Ho. split; [|done|done|intros; congruence|done|done]. rewrite insert_id; [done|]. rewrite Hx. by destruct x.
Qed.

Lemma vdev_dtl_sync_spec (d : Z -> nat) p v x txg pass :
  tree d -> is_leaf v -> vds p !! v = Some x -> vds_ok (vds p) -> objs_ok (vds p) (spa_meta_objset p) ->
  exists p' smo, vdev_dtl_sync p v txg pass = Ok p' /\ synced p v x smo p'.
Proof.
  intros T (vd & Hv & Hl) Hx Hok Ho. unfold vdev_dtl_sync. rewrite (ptr_ok _ _ _ Hv), (ptr_ok _ _ _ Hx). run. assert (is_leaf v) as Hlv by by exists vd.
  destruct (vdev_detached vd) eqn:Hd.
  - destruct (Z.eqb_spec (smo_object (vdev_dtl x)) 0) as [E|E]; [exists p, (vdev_dtl x); split; [done|by eapply synced_refl]|].
    destruct (dmu_object_free_spec _ _ (proj1 (oo_hold _ _ Ho v x Hlv Hx E))) as (os & -> & _ & Hon). eexists _, _. split; [done|].
    apply (synced_intro p v vd x _ _ (smo_object (vdev_dtl x))); try done; [by eapply own_old|by left|congruence].
  - destruct (dtl_object_spec p v vd x d T Hv Hl Hd Hx Ho) as (p1 & smo1 & -> & E1 & El & H0 & Hh & Hown & Hon & Hold). run.
    destruct (dtl_write_spec (vdev_dtl_map x) smo1 (spa_meta_objset p1) pass txg (vo_logs _ Hok v x false Hx) Hh) as (smo & os & -> & Eo & Hhd & Hh' & Hon'). run.
    exists (set_vd (set_mos p1 os) v (set_smo x smo)), smo. split; [done|].
    apply (synced_intro p v vd x smo _ (smo_object smo1) Hv Hl Hx Ho); [cbn; by rewrite E1|done|done|by eapply only_trans|done|done|by split|congruence|].
    intros _. unfold saved. cbn. rewrite Eo, (proj2 (Z.eqb_neq _ _)) by done. exists (smo_objsize smo), (smo_alloc smo). rewrite <- Eo. by destruct smo.
Qed.

(** A log that is loaded into an empty map is the one on disk. *)
Lemma vdev_dtl_load_spec p v x x0 :
  is_leaf v -> vds p !! v = Some x -> vdev_dtl_map x = dtl0 -> dtl_ok (vdev_dtl_map x0) -> smo_object (vdev_dtl x0) = smo_object (vdev_dtl x) ->
  saved (spa_meta_objset p) x0 ->
  exists x', vdev_dtl_load p v = Ok (set_vd p v x', true) /\ dtl_ok (vdev_dtl_map x') /\
    forall y, member (segs (vdev_dtl_map x')) y <-> member (segs (vdev_dtl_map x0)) y.
Proof.
  intros (vd & Hv & Hl) Hx Hm K0 Eo Hs. unfold vdev_dtl_load. rewrite (ptr_ok _ _ _ Hv), (ptr_ok _ _ _ Hx). run. rewrite bool_decide_true by done. cbn [verify]. run.
  destruct dtl0_ok as [Kd Sd]. unfold saved in Hs. rewrite Eo in Hs. destruct (Z.eqb_spec (smo_object (vdev_dtl x)) 0) as [E|E].
  - exists x. split_and!; [|by rewrite Hm|rewrite Hm, Sd; intros y; split; [intros []%member_nil|by intros ?%Hs]].
    f_equal. f_equal. unfold set_vd. rewrite insert_id by done. by destruct p.
  - destruct Hs as (objsize & alloc & (rest & Hb) & Hz & Hlog). cbn [smo_object smo_objsize smo_alloc MetaslabTxg.smo_words app] in Hb. rewrite Hb.
    replace (24 <=? 8 * zlen _) with true by (symmetry; apply Z.leb_le; cbn [length]; lia). cbn [verify]. run. rewrite Hm.
    set (smo := Smo _ objsize alloc) in *.
    destruct (load_spec zfs_recover (fun _ => None) dtl0 None SM_ALLOC smo (spa_meta_objset p) (member (segs (vdev_dtl_map x0)))) as (sm & K & [_ M] & C & _ & _ & _ & _ & ->);
      [|by left|done|done|].
    { refine (conj (proj1 (dtl_addressable _ Kd)) _). split_and!; try done. }
    run. eexists. split; [done|]. cbn. split; [|done]. destruct C as (C1 & C2 & C3). split; [done|by rewrite <- C1|by rewrite <- C2|by rewrite <- C3|]. intros y Hy%M. by apply (do_small _ K0).
Qed.

(** ** The invariant *)

Definition stats_ok (m : gmap Z dtls) : Prop :=
  forall v x, m !! v = Some x -> zlen (vs_ops (vdev_stats x)) = ZIO_TYPES /\ zlen (vs_bytes (vdev_stats x)) = ZIO_TYPES.

(** [E] are the exceptions of [lists_ok].  A leaf whose log is on no list has its log on disk. *)
Record good (E : Z -> nat -> Prop) (p : pool) (L : Z -> nat -> list Z) (V : nat -> list Z) : Prop := {
  gd_vds : vds_ok (vds p);
  gd_lists : lists_ok E p L V;
  gd_objs : objs_ok (vds p) (spa_meta_objset p);
  gd_sum : summed (vds p);
  gd_stats : stats_ok (vds p);
  gd_disk v vd t x : cfg !! v = Some vd -> vdev_child vd = [] -> vdev_detached vd = false -> vdev_top vd = Some t -> vds p !! v = Some x ->
    (exists s, (s < 4)%nat /\ v ∈ L t s) \/ saved (spa_meta_objset p) x
}.

Definition same_logs (m m' : gmap Z dtls) : Prop := forall b v y, logs m' b v y <-> logs m b v y.

Lemma set_smo_logs m v x smo : m !! v = Some x -> same_logs m (<[v := set_smo x smo]> m).
Proof.
  intros Hx b u y. destruct (decide (u = v)) as [->|]; [|by rewrite logs_insert_ne]. rewrite logs_insert, (logs_at _ _ _ _ _ Hx). by destruct b.
Qed.
Lemma summed_same m m' : same_logs m m' -> summed m -> summed m'.
Proof. intros H Hs v vd b y Hv Hl. rewrite (H b v y), (Hs v vd b y Hv Hl). by setoid_rewrite (H b _ y). Qed.

(** Taking the first leaf off the list of [t] and syncing its log. *)
Lemma good_sync_one E p L V t s v l tl st x smo p' :
  good E p L V -> (s < 4)%nat -> L t s = v :: l -> is_leaf v -> vds p !! v = Some x ->
  (forall u, leaf_of t u -> is_Some (st !! (u + tl_offset tl))) -> rep tl st (upd (L t) s l) ->
  synced (set_dtl_list p t (tl, st)) v x smo p' ->
  good E p' (fun t' => if decide (t' = t) then upd (L t) s l else L t') V.
Proof.
  intros [G1 [L1 L2 L3 L4 L5 L6] G3 G4 G6 G5] Hs EL Hlv Hx Hn R [S1 (S2a & S2b & S2c) S3 S4 S5 _]. cbn [vds set_dtl_list dtl_lists spa_vdev_txg_list vdev_txg_nodes spa_meta_objset] in *.
  set (L' := fun t' => _). assert (forall t' s' u, u ∈ L' t' s' -> u ∈ L t' s') as Hsub.
  { intros t' s' u. unfold L'. destruct (decide (t' = t)) as [->|]; [|done]. unfold upd. destruct (decide (s' = s)) as [->|]; [|done]. rewrite EL. apply list_elem_of_further. }
  assert (forall t' s' u, u ∈ L t' s' -> u ∈ L' t' s' \/ u = v) as Hsup.
  { intros t' s' u. unfold L'. destruct (decide (t' = t)) as [->|]; [|tauto]. unfold upd. destruct (decide (s' = s)) as [->|]; [|tauto]. rewrite EL, elem_of_cons. tauto. }
  split; [|split|done| | |].
  - rewrite S1. apply vds_ok_insert; [done|eauto|]. intros b. pose proof (vo_logs _ G1 v x b Hx). by destruct b.
  - intros t' Ht'. rewrite S2a. unfold L'. destruct (decide (t' = t)) as [->|Hne]; [rewrite lookup_insert_eq; by exists tl, st|].
    rewrite lookup_insert_ne by done. by apply L1.
  - rewrite S2b, S2c. done.
  - by rewrite S2b, S2c.
  - intros t' s' u Hs' Hu. eapply L4; [done|by apply Hsub].
  - done.
  - intros t' s' Hs' Hne. apply L6; [done|]. destruct (L' t' s') as [|u l'] eqn:El; [done|]. specialize (Hsub t' s' u). rewrite El in Hsub. intros E0. rewrite E0 in Hsub.
    by destruct (not_elem_of_nil u (Hsub (list_elem_of_here _ _))).
  - eapply summed_same; [|exact G4]. rewrite S1. by apply set_smo_logs.
  - intros u y Hy. rewrite S1 in Hy. destruct (decide (u = v)) as [->|Huv]; [|rewrite lookup_insert_ne in Hy by done; by eapply G6].
    rewrite lookup_insert_eq in Hy. injection Hy as <-. by apply (G6 v x).
  - intros u uvd tu y Hu Hul Hd Ht Hy. rewrite S1 in Hy. destruct (decide (u = v)) as [->|Huv].
    + rewrite lookup_insert_eq in Hy. injection Hy as <-. right. by eapply S4.
    + rewrite lookup_insert_ne in Hy by done. destruct (G5 u uvd tu y Hu Hul Hd Ht Hy) as [(s' & Hs' & Hin)|Hsv].
      * left. exists s'. split; [done|]. by destruct (Hsup _ _ _ Hin).
      * right. apply (S5 u y); [done|by exists uvd|done|done].
Qed.

(** ** Syncing *)

Section Sync.
Context (d : Z -> nat) (T : tree d) (txg pass : Z).
Local Abbreviation s0 := (slot txg).

(** What syncing leaves alone. *)
Record still (p p' : pool) : Prop := {
  st_logs : same_logs (vds p) (vds p');
  st_foreign : foreign_same p p';
  st_list : spa_vdev_txg_list p' = spa_vdev_txg_list p;
  st_nodes : vdev_txg_nodes p' = vdev_txg_nodes p
}.

Lemma still_trans a b c : still a b -> still b c -> still a c.
Proof. intros [A1 A2 A3 A4] [B1 B2 B3 B4]. split; [intros z v y; by rewrite (B1 z v y), (A1 z v y)|by eapply foreign_trans|congruence|congruence]. Qed.

Lemma rep_ext tl st (L L' : nat -> list Z) : (forall u, L u = L' u) -> rep tl st L -> rep tl st L'.
Proof. intros E [R1 R2 R3 R4]. split; [done|..]; intros u; rewrite <- E; auto. Qed.

Lemma leaf_is t v : leaf_of t v -> is_leaf v.
Proof. intros (vd & ? & ? & _). by exists vd. Qed.

Lemma sync_dtl_round_spec E p L V t :
  good E p L V -> is_top t ->
  exists r, sync_dtl_round t txg pass p = Ok r /\
    match L t s0 with
    | [] => exists p', r = inr p' /\ good E p' L V /\ still p p'
    | _ :: l => exists p', r = inl p' /\ good E p' (fun t' => if decide (t' = t) then upd (L t) s0 l else L t') V /\ still p p'
    end.
Proof.
  intros G Ht. pose proof (slot_lt txg) as Hs. pose proof (gd_lists _ _ _ _ G) as HL. destruct (lo_top _ _ _ _ HL t Ht) as (tl & st & El & R & Hn).
  unfold sync_dtl_round. rewrite (ptr_ok _ _ _ El). run. destruct (list_remove_spec tl st (L t) txg R) as (tl' & st' & -> & R' & Eo & Ed). run.
  assert (forall u, leaf_of t u -> is_Some (st' !! (u + tl_offset tl'))) as Hn'.
  { intros u Hu. rewrite Eo. apply elem_of_dom. rewrite Ed. by apply elem_of_dom, Hn. }
  destruct (L t s0) as [|v l] eqn:ELs; cbn [head tail] in *.
  - eexists. split; [done|]. eexists. split; [done|]. split; [|done]. destruct G as [G1 [L1 L2 L3 L4 L5 L6] G3 G4 G6 G5]. split; [done|split|done|done|done|done]; try done.
    intros u Hu. cbn. destruct (decide (u = t)) as [->|Hne]; [rewrite lookup_insert_eq|rewrite lookup_insert_ne by done; by apply L1].
    exists tl', st'. split_and!; [done| |done]. eapply rep_ext; [|exact R']. intros u. unfold upd. destruct (decide (u = s0)) as [->|]; [|done]. done.
  - assert (leaf_of t v) as Hv by (apply (lo_leaf _ _ _ _ HL t s0); [done|rewrite ELs; apply list_elem_of_here]).
    pose proof (leaf_is t v Hv) as Hlv. destruct (proj2 (vo_dom _ (gd_vds _ _ _ _ G) v)) as [x Hx]; [destruct Hlv as (? & ? & _); eauto|].
    destruct (vdev_dtl_sync_spec d (set_dtl_list p t (tl', st')) v x txg pass T Hlv Hx) as (p' & smo & -> & Sy); [apply G|apply G|]. run.
    eexists. split; [done|]. exists p'. split; [done|]. split; [by eapply good_sync_one|]. destruct Sy as [S1 (_ & S2 & S3) _ _ _ S4].
    split; [rewrite S1; by apply set_smo_logs|exact S4|done|done].
Qed.

Lemma sync_dtl_loop_spec E V t (Ht : is_top t) f : forall p L,
  good E p L V -> (length (L t s0) < f)%nat ->
  exists p' L', iter f (sync_dtl_round t txg pass) p = Ok p' /\ good E p' L' V /\ still p p' /\ L' t s0 = [] /\
    forall t' s, t' <> t \/ s <> s0 -> L' t' s = L t' s.
Proof.
  induction f as [|f IH]; intros p L G Hf; [lia|]. rewrite iter_S. destruct (sync_dtl_round_spec E p L V t G Ht) as (r & -> & Hr).
  destruct (L t s0) as [|v l] eqn:EL.
  - destruct Hr as (p' & -> & G' & S'). by exists p', L.
  - destruct Hr as (p1 & -> & G1 & S1). destruct (IH p1 _ G1) as (p' & L' & -> & G' & S' & E' & F').
    + rewrite decide_True, upd_eq by done. cbn in Hf. lia.
    + exists p', L'. split_and!; [done|done|by eapply still_trans|done|]. intros t' s Hne. rewrite (F' t' s Hne).
      destruct (decide (t' = t)) as [->|]; [|done]. apply upd_ne. by destruct Hne.
Qed.

Definition none (t : Z) (s : nat) : Prop := False.
Definition being (t t' : Z) (s : nat) : Prop := t' = t /\ s = s0.

Lemma good_lists E E' p p' L V V' :
  good E p L V -> lists_ok E' p' L V' -> vds p' = vds p -> spa_meta_objset p' = spa_meta_objset p -> good E' p' L V'.
Proof. intros [G1 _ G3 G4 G6 G5] HL E1 E2. split; rewrite ?E1, ?E2; done. Qed.

Lemma clean_slot : slot (TXG_CLEAN txg) <> s0.
Proof. unfold TXG_CLEAN. rewrite MetaslabTxg.slot_u64, MetaslabTxg.slot_eq. replace (txg - 1 - txg) with (-1) by lia. done. Qed.

(** The end of [vdev_sync]: no log of [t] is dirty any more in this group. *)
Lemma vdev_sync_dtls_spec p L V t :
  good (being t) p L V -> is_top t ->
  exists p' L' V', vdev_sync_dtls p t txg pass = Ok p' /\ good none p' L' V' /\ same_logs (vds p) (vds p') /\ foreign_same p p' /\
    V' s0 = V s0 /\ forall t' s, s <> s0 -> L' t' s = L t' s.
Proof.
  intros G Ht. pose proof (gd_lists _ _ _ _ G) as HL. destruct (lo_top _ _ _ _ HL t Ht) as (tl & st & El & R & Hn). unfold vdev_sync_dtls.
  rewrite (ptr_ok _ _ _ El). run. destruct (sync_dtl_loop_spec (being t) V t Ht (S (size st)) p L G) as (p1 & L1 & -> & G1 & [S1 S2 S3 S4] & E1 & F1).
  { pose proof (rep_size _ _ _ _ R (slot_lt txg)). lia. }
  run. assert (lists_ok none p1 L1 V) as HL1.
  { destruct (gd_lists _ _ _ _ G1) as [L1' L2 L3 L4 L5 L6]. split; try done. intros t' s Hs Hne. destruct (L6 t' s Hs Hne) as [?|[-> ->]]; [by left|]. by rewrite E1 in Hne. }
  destruct (pool_add none p1 L1 V t (TXG_CLEAN txg) HL1 Ht) as (tl' & st' & V' & -> & HL2 & _ & HV). run. eexists _, L1, V'. split; [done|].
  split; [by eapply (good_lists (being t) none p1)|]. split; [exact S1|]. split; [exact S2|].
  split; [apply HV; pose proof clean_slot; congruence|]. intros t' s Hs. apply F1. by right.
Qed.

Lemma spa_sync_loop_spec f : forall p L V,
  good none p L V -> (length (V s0) < f)%nat ->
  exists p' L' V', iter f (spa_sync_round txg pass) p = Ok p' /\ good none p' L' V' /\ same_logs (vds p) (vds p') /\ foreign_same p p' /\
    (forall t, L' t s0 = []) /\ forall t s, s <> s0 -> L' t s = L t s.
Proof.
  induction f as [|f IH]; intros p L V G Hf; [lia|]. rewrite iter_S. pose proof (slot_lt txg) as Hs. pose proof (gd_lists _ _ _ _ G) as HL. pose proof HL as [L1 L2 L3 L4 L5 L6].
  unfold spa_sync_round. destruct (list_remove_spec _ _ _ txg L3) as (tl & st & -> & R & Eo & Ed). run. set (p1 := set_txg_list p tl st).
  assert (forall V1 E, rep tl st V1 -> (forall s u, (s < 4)%nat -> u ∈ V1 s -> u ∈ V s) ->
    (forall t s, (s < 4)%nat -> t ∈ V s -> t ∈ V1 s \/ E t s) -> lists_ok E p1 L V1) as K.
  { intros V1 E RV Hsub Hsup. split; try done; cbn.
    - intros t Ht. rewrite Eo. apply elem_of_dom. rewrite Ed. by apply elem_of_dom, L2.
    - intros s t Hs' Hin. by eapply L5; [|apply Hsub].
    - intros t s Hs' Hne. destruct (L6 t s Hs' Hne) as [?|[]]. by apply Hsup. }
  destruct (V s0) as [|t l] eqn:EV; cbn [head tail] in *.
  - eexists _, L, V. split; [done|]. split.
    + eapply (good_lists none none p); [done| |done|done]. apply K; [|done|by left]. eapply rep_ext; [|exact R]. intros u. unfold upd. by destruct (decide (u = s0)) as [->|].
    + split_and!; try done. intros t. destruct (L t s0) as [|v lv] eqn:El; [done|]. destruct (L6 t s0 Hs) as [Hin|[]]; [by rewrite El|]. rewrite EV in Hin. by apply not_elem_of_nil in Hin.
  - assert (good (being t) p1 L (upd V s0 l)) as G1.
    { eapply (good_lists none (being t) p); [done| |done|done]. apply K; [done| |]; unfold upd; intros s u Hs' Hin.
      - destruct (decide (s = s0)) as [->|]; [rewrite EV; by apply list_elem_of_further|done].
      - destruct (decide (u = s0)) as [->|]; [|by left]. rewrite EV in Hin. apply elem_of_cons in Hin as [->|?]; [by right|by left]. }
    destruct (vdev_sync_dtls_spec p1 L _ t G1) as (p2 & L2' & V2 & -> & G2 & S2 & F2 & E2 & K2); [apply (L5 s0 t Hs); rewrite EV; apply list_elem_of_here|]. run.
    rewrite upd_eq in E2. destruct (IH p2 L2' V2 G2) as (p3 & L3' & V3 & Ei & G3 & S3 & F3 & E3 & K3); [rewrite E2; cbn in Hf; lia|].
    exists p3, L3', V3. split_and!; [exact Ei|done| |by eapply (foreign_trans p1)|done|].
    + intros b v y. rewrite (S3 b v y). apply S2.
    + intros t' s Hne. by rewrite K3, K2.
Qed.

Lemma spa_sync_vdevs_spec p L V :
  good none p L V ->
  exists p' L' V', spa_sync_vdevs p txg pass = Ok p' /\ good none p' L' V' /\ same_logs (vds p) (vds p') /\ foreign_same p p' /\
    (forall t, L' t s0 = []) /\ forall t s, s <> s0 -> L' t s = L t s.
Proof.
  intros G. apply spa_sync_loop_spec with (V := V); [done|]. pose proof (rep_size _ _ _ _ (lo_pool _ _ _ _ (gd_lists _ _ _ _ G)) (slot_lt txg)). lia.
Qed.
End Sync.

(** ** Failed I/Os *)

Section Steps.
Context (d : Z -> nat) (T : tree d).

Lemma keeps_stats m m' : keeps m m' -> stats_ok m -> stats_ok m'.
Proof.
  intros K H v x' Hx'. specialize (K v). rewrite Hx' in K. destruct (m !! v) as [x|] eqn:Hx; cbn in K; [|done]. injection K as _ ->. by apply (H v x).
Qed.

(** The headers of the logs on disk are those of [m]. *)
Definition same_smo (m m' : gmap Z dtls) : Prop := forall u x', m' !! u = Some x' -> exists x, m !! u = Some x /\ vdev_dtl x' = vdev_dtl x.

Lemma keeps_smo m m' : keeps m m' -> same_smo m m'.
Proof. intros K u x' Hx'. specialize (K u). rewrite Hx' in K. destruct (m !! u) as [x|]; cbn in K; [|done]. injection K as E _. by exists x. Qed.
Lemma objs_same m m' os : same_smo m m' -> objs_ok m os -> objs_ok m' os.
Proof.
  intros Hb [O1 O2 O3]. split.
  - intros u x' Hu Hx'. destruct (Hb u x' Hx') as (x & Hx & ->). by eapply O1.
  - intros u uvd x' Hu Hul Hd Hx'. destruct (Hb u x' Hx') as (x & Hx & ->). by eapply O2.
  - intros u w x' y' Hu Hw Hx' Hy'. destruct (Hb u x' Hx') as (x & Hx & ->), (Hb w y' Hy') as (y & Hy & ->). by eapply O3.
Qed.
Lemma saved_same m m' os u x x' :
  same_smo m m' -> m !! u = Some x -> m' !! u = Some x' -> (forall y, logs m' false u y <-> logs m false u y) -> saved os x -> saved os x'.
Proof.
  intros Hb Hx Hx' Hm. destruct (Hb u x' Hx') as (x1 & Hx1 & E). replace x1 with x in E by congruence. apply saved_ext; [done|]. intros y.
  specialize (Hm y). rewrite (logs_at _ _ _ _ _ Hx), (logs_at _ _ _ _ _ Hx') in Hm. cbn in Hm. tauto.
Qed.

(** Entering a group in the logs above a leaf; in the log on disk it must be on a list. *)
Lemma good_mark p L V scrub v vd txg m :
  good none p L V -> cfg !! v = Some vd -> vdev_child vd = [] -> marked scrub v txg (vds p) m ->
  (scrub = false -> forall t, vdev_top vd = Some t -> exists s, (s < 4)%nat /\ v ∈ L t s) ->
  good none (with_vds p m) L V.
Proof.
  intros [G1 G2 G3 G4 G6 G5] Hv Hl Hm Hlist. pose proof Hm as (M1 & M2 & M3).
  pose proof (keeps_smo _ _ M2) as Hback. split; cbn [vds with_vds spa_meta_objset]; [done|by apply (lists_vds none p)|by eapply objs_same| |by eapply keeps_stats|].
  - by eapply (marked_summed d T scrub v vd).
  - intros u uvd t x' Hu Hul Hd Ht Hx'. destruct (Hback u x' Hx') as (x & Hx & _). destruct (G5 u uvd t x Hu Hul Hd Ht Hx) as [?|Hsv]; [by left|].
    destruct (decide (scrub = false /\ u = v)) as [[-> ->]|Hno]; [left; apply Hlist; [done|congruence]|right].
    apply (saved_same (vds p) m _ u x); try done. intros y. rewrite M3.
    split; [|tauto]. intros [?|(Eb & _ & Ha)]; [done|]. destruct Hno. split; [done|].
    apply (below_cases d T u uvd v Hu) in Ha as [->|(c & Hc & _)]; [done|]. rewrite Hul in Hc. by apply not_elem_of_nil in Hc.
Qed.

Lemma summed_up m b v u y : summed m -> anc v u -> logs m b v y -> logs m b u y.
Proof.
  intros Hs. induction 1 as [|v w u Hw _ IH]; [done|]. intros Hy. apply IH. pose proof Hw as (vd & Hv & Hp). destruct (t_parent _ T _ _ _ Hv Hp) as (wvd & Hwv & Hin & _).
  apply (Hs w wvd b y Hwv); [intros E; rewrite E in Hin; by apply not_elem_of_nil in Hin|by exists v].
Qed.

Lemma good_set_stats p L V v x s :
  good none p L V -> vds p !! v = Some x -> zlen (vs_ops s) = ZIO_TYPES -> zlen (vs_bytes s) = ZIO_TYPES ->
  good none (set_vd p v (set_stats x s)) L V /\ same_logs (vds p) (vds (set_vd p v (set_stats x s))).
Proof.
  intros [G1 G2 G3 G4 G6 G5] Hx E1 E2. set (x' := set_stats x s). assert (same_logs (vds p) (<[v := x']> (vds p))) as Hsl.
  { intros b u y. destruct (decide (u = v)) as [->|]; [|by rewrite logs_insert_ne]. rewrite logs_insert, (logs_at _ _ _ _ _ Hx). by destruct b. }
  assert (same_smo (vds p) (<[v := x']> (vds p))) as Hback.
  { intros u y' Hy'. destruct (decide (u = v)) as [->|]; [rewrite lookup_insert_eq in Hy'; injection Hy' as <-; by exists x|rewrite lookup_insert_ne in Hy' by done; by exists y']. }
  split; [|done]. split; cbn [vds set_vd spa_meta_objset].
  - apply vds_ok_insert; [done|eauto|]. intros b. pose proof (vo_logs _ G1 v x b Hx). by destruct b.
  - by apply (lists_vds none p).
  - by eapply objs_same.
  - by eapply summed_same.
  - intros u y Hy. destruct (decide (u = v)) as [->|]; [rewrite lookup_insert_eq in Hy; by injection Hy as <-|rewrite lookup_insert_ne in Hy by done; by eapply G6].
  - intros u uvd t y' Hu Hul Hd Ht Hy'. destruct (Hback u y' Hy') as (y & Hy & _). destruct (G5 u uvd t y Hu Hul Hd Ht Hy) as [?|Hs]; [by left|right].
    by apply (saved_same (vds p) (<[v := x']> (vds p)) _ u y).
Qed.

(** The logs a failed write is entered in. *)
Definition records (flags : Z) (scrub : bool) : bool := if scrub then has flags ZIO_FLAG_SCRUB_THREAD else negb (has flags ZIO_FLAG_IO_REPAIR).

(** [L'] has all that [L] has. *)
Definition grows (L L' : Z -> nat -> list Z) : Prop := forall t s u, u ∈ L t s -> u ∈ L' t s.

Lemma missed_write_spec p L V v vd t txg flags :
  good none p L V -> cfg !! v = Some vd -> vdev_child vd = [] -> vdev_top vd = Some t -> 0 <= txg < 2 ^ 47 ->
  (has flags ZIO_FLAG_SCRUB_THREAD = true -> has flags ZIO_FLAG_IO_REPAIR = true) ->
  exists p' L' V', missed_write p vd v txg flags = Ok p' /\ good none p' L' V' /\ spa_meta_objset p' = spa_meta_objset p /\ keeps (vds p) (vds p') /\ grows L L' /\
    (forall b u y, logs (vds p') b u y <-> logs (vds p) b u y \/ (records flags b = true /\ y = txg /\ anc v u)) /\
    (records flags false = true -> ~ logs (vds p) false v txg -> v ∈ L' t (slot txg)).
Proof.
  intros G Hv Hl Ht Htxg Hfl. unfold missed_write, records. destruct (has flags ZIO_FLAG_SCRUB_THREAD) eqn:Fs.
  - rewrite (Hfl eq_refl). cbn [verify negb]. run. destruct (dirty_up_spec d T true p v txg (ex_intro _ _ Hv) (gd_vds _ _ _ _ G) Htxg) as (m & -> & Hm). run.
    exists (with_vds p m), L, V. split; [done|]. split; [by eapply good_mark|]. destruct Hm as (_ & K & M). refine (conj eq_refl (conj K (conj (fun t s u H => H) (conj _ _)))); [|done]. intros b u y. cbn [vds with_vds]. rewrite M.
    destruct b; [tauto|]. split; [intros [?|(? & _)]; [by left|done]|]. by intros [?|(? & _)]; [left|].
  - run. destruct (has flags ZIO_FLAG_IO_REPAIR) eqn:Fr; cbn [negb].
    { exists p, L, V. refine (conj eq_refl (conj G (conj eq_refl (conj (fun v => eq_refl) (conj (fun t s u H => H) (conj _ _)))))); [|done]. intros b u y. split; [by left|]. intros [?|(? & _)]; [done|by destruct b]. }
    destruct (proj2 (vo_dom _ (gd_vds _ _ _ _ G) v) (ex_intro _ _ Hv)) as [x Hx]. rewrite (ptr_ok _ _ _ Hx). run.
    destruct (dtl_contains_spec (vdev_dtl_map x) txg (vo_logs _ (gd_vds _ _ _ _ G) v x false Hx) Htxg) as (c & -> & Hc). run.
    pose proof (logs_at _ false _ _ txg Hx) as Hlog. cbn [log_at] in Hlog. destruct c.
    + assert (logs (vds p) false v txg) as Hin by (apply Hlog, Hc; done). exists p, L, V. refine (conj eq_refl (conj G (conj eq_refl (conj (fun v => eq_refl) (conj (fun t s u H => H) (conj _ (fun _ H => False_ind _ (H Hin)))))))). intros b u y. split; [by left|].
      intros [?|(Hb & -> & Ha)]; [done|]. destruct b; [done|]. by eapply summed_up; [apply G|..].
    + rewrite Ht. cbn [nonnull]. run. destruct (leaf_top d T v vd Hv Hl) as (t' & Et & Htop & Hlt). replace t' with t in * by congruence.
      destruct (dtl_list_dirty_spec none p L V t v txg (gd_lists _ _ _ _ G) Htop Hlt) as (p1 & L1 & V1 & -> & HL1 & E1 & E2 & E3 & E4). run.
      assert (good none p1 L1 V1) as G1.
      { destruct G as [G1 G2 G3 G4 G6 G5]. split; rewrite ?E1, ?E2; try done. intros u uvd tu y Hu Hul Hd Htu Hy. destruct (G5 u uvd tu y Hu Hul Hd Htu Hy) as [(s & Hs & Hin)|?]; [left|by right].
        exists s. split; [done|]. apply E4. by left. }
      destruct (dirty_up_spec d T false p1 v txg (ex_intro _ _ Hv) (gd_vds _ _ _ _ G1) Htxg) as (m & -> & Hm). exists (with_vds p1 m), L1, V1. split; [done|].
      assert (v ∈ L1 t (slot txg)) as Hin by (apply E4; by right). split; [eapply good_mark; [done..|]; intros _ t2 Et2; exists (slot txg); split; [apply slot_lt|congruence]|].
      destruct Hm as (_ & K & M). rewrite E1 in K, M. refine (conj E2 (conj K (conj _ (conj _ (fun _ _ => Hin))))); [intros t1 s u Hu; apply E4; by left|]. intros b u y. cbn [vds with_vds]. rewrite M.
      destruct b; [|tauto]. split; [intros [?|(? & _)]; [by left|done]|]. by intros [?|(? & _)]; [left|].
Qed.

Definition misses (vd : vdev) (io : zio) : bool :=
  negb (io_error io =? 0) && negb (has (io_flags io) RaidzIo.ZIO_FLAG_SPECULATIVE) && (io_type io =? ZIO_TYPE_WRITE) &&
  negb (io_txg io =? 0) && bool_decide (vdev_child vd = []).

(** An I/O as the pipeline ends it: of a vdev of the pool; a scrub only writes repairs. *)
Definition io_ok (io : zio) : Prop :=
  is_Some (cfg !! io_vd io) /\ 0 <= io_txg io < 2 ^ 47 /\ 0 <= io_type io < ZIO_TYPES /\
  (io_type io = ZIO_TYPE_WRITE -> has (io_flags io) ZIO_FLAG_SCRUB_THREAD = true -> has (io_flags io) ZIO_FLAG_IO_REPAIR = true).

Lemma stat_bump_ok l type delta : zlen l = ZIO_TYPES -> 0 <= type < ZIO_TYPES -> exists l', bump l type delta = Ok l' /\ zlen l' = ZIO_TYPES.
Proof.
  intros El Ht. destruct (lookup_lt_is_Some_2 l (Z.to_nat type)) as [n Hn]; [lia|]. unfold bump. destruct (get_at _ _ _ Hn) as [-> Hp]. run. rewrite Hp.
  eexists. split; [done|]. by rewrite length_insert.
Qed.

Lemma stat_success_ok s io :
  zlen (vs_ops s) = ZIO_TYPES -> zlen (vs_bytes s) = ZIO_TYPES -> 0 <= io_type io < ZIO_TYPES ->
  exists s', stat_success s io = Ok s' /\ zlen (vs_ops s') = ZIO_TYPES /\ zlen (vs_bytes s') = ZIO_TYPES.
Proof.
  intros E1 E2 Ht. unfold stat_success. assert (exists s1, (if has (io_flags io) ZIO_FLAG_IO_BYPASS then Ok s else
    ops ← bump (vs_ops s) (io_type io) 1; bytes ← bump (vs_bytes s) (io_type io) (io_size io);
    Ok (VdevStat ops bytes (vs_read_errors s) (vs_write_errors s) (vs_checksum_errors s) (vs_self_healed s) (vs_scrub_repaired s))) = Ok s1 /\
    zlen (vs_ops s1) = ZIO_TYPES /\ zlen (vs_bytes s1) = ZIO_TYPES) as (s1 & -> & F1 & F2).
  { destruct (has _ _); [by exists s|]. destruct (stat_bump_ok _ _ 1 E1 Ht) as (l1 & -> & ?), (stat_bump_ok _ _ (io_size io) E2 Ht) as (l2 & -> & ?). run. by eexists. }
  run. eexists. split; [done|]. destruct (_ && _); [|done]. by destruct (has _ _).
Qed.

Lemma stat_failure_ok s io : vs_ops (stat_failure s io) = vs_ops s /\ vs_bytes (stat_failure s io) = vs_bytes s.
Proof. unfold stat_failure. by repeat destruct (_ =? _). Qed.

Lemma same_smo_trans a b c : same_smo a b -> same_smo b c -> same_smo a c.
Proof. intros H1 H2 u x Hx. destruct (H2 u x Hx) as (y & Hy & ->). by apply H1. Qed.

Lemma stat_update_spec p L V io vd :
  good none p L V -> io_ok io -> cfg !! io_vd io = Some vd ->
  exists p' L' V', vdev_stat_update p io = Ok p' /\ good none p' L' V' /\ spa_meta_objset p' = spa_meta_objset p /\ same_smo (vds p) (vds p') /\ grows L L' /\
    (forall b u y, logs (vds p') b u y <-> logs (vds p) b u y \/ (misses vd io = true /\ records (io_flags io) b = true /\ y = io_txg io /\ anc (io_vd io) u)) /\
    (misses vd io = true -> records (io_flags io) false = true -> ~ logs (vds p) false (io_vd io) (io_txg io) ->
     exists t, vdev_top vd = Some t /\ io_vd io ∈ L' t (slot (io_txg io))).
Proof.
  intros G (_ & Ht & Hty & Hfl) Hv. unfold vdev_stat_update, misses. rewrite (ptr_ok _ _ _ Hv). run.
  destruct (proj2 (vo_dom _ (gd_vds _ _ _ _ G) (io_vd io)) (ex_intro _ _ Hv)) as [x Hx]. rewrite (ptr_ok _ _ _ Hx). run.
  destruct (gd_stats _ _ _ _ G _ _ Hx) as [Z1 Z2].
  assert (forall s, zlen (vs_ops s) = ZIO_TYPES -> zlen (vs_bytes s) = ZIO_TYPES -> let q := set_vd p (io_vd io) (set_stats x s) in
    good none q L V /\ same_smo (vds p) (vds q) /\ same_logs (vds p) (vds q)) as Kset.
  { intros s F1 F2. destruct (good_set_stats p L V (io_vd io) x s G Hx F1 F2) as [G' Hsl]. split_and!; [done| |done]. intros u y Hy. cbn in Hy.
    destruct (decide (u = io_vd io)) as [->|]; [rewrite lookup_insert_eq in Hy; injection Hy as <-; by exists x|rewrite lookup_insert_ne in Hy by done; by exists y]. }
  assert (forall q, good none q L V -> spa_meta_objset q = spa_meta_objset p -> same_smo (vds p) (vds q) -> same_logs (vds p) (vds q) ->
    exists p' L' V', Ok q = Ok p' /\ good none p' L' V' /\ spa_meta_objset p' = spa_meta_objset p /\ same_smo (vds p) (vds p') /\ grows L L' /\
      (forall b u y, logs (vds p') b u y <-> logs (vds p) b u y \/ (false = true /\ records (io_flags io) b = true /\ y = io_txg io /\ anc (io_vd io) u)) /\
      (false = true -> records (io_flags io) false = true -> ~ logs (vds p) false (io_vd io) (io_txg io) ->
       exists t, vdev_top vd = Some t /\ io_vd io ∈ L' t (slot (io_txg io)))) as Kplain.
  { intros q Gq Em Es Hl. exists q, L, V. refine (conj eq_refl (conj Gq (conj Em (conj Es (conj (fun t s u H => H) (conj _ _)))))); [|done].
    intros b u y. rewrite (Hl b u y). split; [by left|]. by intros [?|(? & _)]. }
  destruct (Z.eqb_spec (io_error io) 0) as [Ee|Ee]; cbn [negb andb].
  { destruct (stat_success_ok (vdev_stats x) io Z1 Z2 Hty) as (s & -> & F1 & F2). run. destruct (Kset s F1 F2) as (? & ? & ?). by apply Kplain. }
  destruct (has (io_flags io) RaidzIo.ZIO_FLAG_SPECULATIVE); cbn [negb andb]; [by apply Kplain; [| |intros u y Hy; by exists y|]|].
  set (p1 := if vdev_is_dead vd then p else _). assert (good none p1 L V /\ spa_meta_objset p1 = spa_meta_objset p /\ same_smo (vds p) (vds p1) /\ same_logs (vds p) (vds p1)) as (G1 & M1 & S1 & Lg1).
  { unfold p1. destruct (vdev_is_dead vd); [split_and!; try done; intros u y Hy; by exists y|].
    destruct (stat_failure_ok (vdev_stats x) io) as [F1 F2]. destruct (Kset (stat_failure (vdev_stats x) io)) as (? & ? & ?); [by rewrite F1|by rewrite F2|]. done. }
  destruct (Z.eqb_spec (io_type io) ZIO_TYPE_WRITE) as [Ew|Ew]; cbn [andb]; [|by apply Kplain].
  destruct (Z.eqb_spec (io_txg io) 0) as [Et|Et]; cbn [negb andb orb]; [by apply Kplain|]. case_bool_decide as Hl; cbn [negb]; [|by apply Kplain].
  destruct (leaf_top d T (io_vd io) vd Hv Hl) as (t & Htop & _). 
  destruct (missed_write_spec p1 L V (io_vd io) vd t (io_txg io) (io_flags io) G1 Hv Hl Htop Ht (Hfl Ew)) as (p' & L' & V' & -> & G' & M' & K' & Gr & Lg & Hin).
  exists p', L', V'. split; [done|]. split; [done|]. split; [congruence|]. split; [by eapply same_smo_trans, keeps_smo|]. split; [done|]. split.
  - intros b u y. rewrite Lg, (Lg1 b u y). tauto.
  - intros _ Hr Hno. exists t. split; [done|]. apply Hin; [done|]. by rewrite (Lg1 _ _ _).
Qed.

(** Reassessing the whole tree. *)
Lemma reassess_good r txg scrub_txg scrub_done p L V :
  good none p L V -> is_Some (cfg !! r) -> (forall u, is_Some (cfg !! u) -> anc u r) -> 0 <= scrub_txg < 2 ^ 64 -> (txg = 0 -> scrub_txg = 0) ->
  exists p' L' V', vdev_dtl_reassess (size cfg) txg scrub_txg scrub_done p r = Ok p' /\ good none p' L' V' /\ spa_meta_objset p' = spa_meta_objset p /\
    same_smo (vds p) (vds p') /\ grows L L' /\
    forall u b y, is_leaf u -> logs (vds p') b u y <-> reassessed (vds p) scrub_txg scrub_done b u y.
Proof.
  intros [G1 G2 G3 G4 G6 G5] Hr Hroot Hs Hz. destruct (reassess_spec none d T txg scrub_txg scrub_done Hs (size cfg) r p L V Hr G1 G2) as (p' & L' & V' & -> & [A1 A2 A3 A4 A5 A6 A7 A8] & _); [lia|].
  pose proof (keeps_smo _ _ A5) as Hsm. exists p', L', V'. split; [done|]. split.
  - split; [done|done|rewrite A3; by eapply objs_same| |by eapply keeps_stats|].
    + intros v vd b y Hv Hne. apply (A7 v vd b y); [by apply Hroot; eauto|done|done].
    + intros v vd t x' Hv Hl Hd Ht Hx'. destruct (Hsm v x' Hx') as (x & Hx & _). destruct (Z.eq_dec txg 0) as [E|E].
      * rewrite A3. destruct (G5 v vd t x Hv Hl Hd Ht Hx) as [(s & Hs' & Hin)|Hsv]; [left; exists s; split; [done|]; apply A8; by left|right].
        apply (saved_same (vds p) (vds p') _ v x); try done. intros y. rewrite (A6 v vd false y) by (eauto || done). unfold reassessed. by rewrite (Hz E).
      * left. exists (slot txg). split; [apply slot_lt|]. apply A8. right. split_and!; [done|done|apply Hroot; eauto|by exists vd].
  - split; [done|]. split; [done|]. split; [intros t s u Hu; apply A8; by left|]. intros u b y (uvd & Hu & Hl). apply (A6 u uvd b y); [apply Hroot; eauto|done|done].
Qed.
End Steps.

(** ** Histories *)

Inductive op :=
  | Io (io : zio)
  | Reassess (txg scrub_txg : Z) (scrub_done : bool)
  | Sync (txg syncpass : Z).

(** [root] is [spa_root_vdev]. *)
Definition run_op (root : Z) (p : pool) (o : op) : outcome pool :=
  match o with
  | Io io => vdev_stat_update p io
  | Reassess txg scrub_txg scrub_done => vdev_dtl_reassess (size cfg) txg scrub_txg scrub_done p root
  | Sync txg syncpass => spa_sync_vdevs p txg syncpass
  end.
Fixpoint run_ops (root : Z) (p : pool) (l : list op) : outcome pool :=
  match l with
  | [] => Ok p
  | o :: l' => p ← run_op root p o; run_ops root p l'
  end.

(** A reassessment that changes the logs of leaves has a group to write them in. *)
Definition op_ok (o : op) : Prop :=
  match o with
  | Io io => io_ok io
  | Reassess txg scrub_txg _ => 0 <= scrub_txg < 2 ^ 64 /\ (txg = 0 -> scrub_txg = 0)
  | Sync _ _ => True
  end.
(** One that does not end a scrub. *)
Definition no_scrub (o : op) : Prop := match o with Reassess _ scrub_txg _ => scrub_txg = 0 | _ => True end.

(** The tree, with its root. *)
Definition rooted (root : Z) : Prop := exists d, tree d /\ is_Some (cfg !! root) /\ forall u, is_Some (cfg !! u) -> anc u root.

Lemma foreign_smo p p' : same_smo (vds p) (vds p') -> spa_meta_objset p' = spa_meta_objset p -> foreign_same p p'.
Proof.
  intros Hs E o He [H0 Hf]. rewrite E. refine (conj (conj H0 _) (conj He (conj eq_refl eq_refl))). intros v x Hv Hx. destruct (Hs v x Hx) as (y & Hy & ->). by eapply Hf.
Qed.

Lemma run_op_spec root p L V o :
  rooted root -> good none p L V -> op_ok o ->
  exists p' L' V', run_op root p o = Ok p' /\ good none p' L' V' /\ foreign_same p p' /\
    (no_scrub o -> forall v y, is_leaf v -> logs (vds p) false v y -> logs (vds p') false v y).
Proof.
  intros (d & T & Hr & Hroot) G Ho. destruct o as [io|txg scrub_txg done|txg pass]; cbn [run_op op_ok no_scrub] in *.
  - destruct (proj1 Ho) as [vd Hv]. destruct (stat_update_spec d T p L V io vd G Ho Hv) as (p' & L' & V' & -> & G' & M & S & _ & Lg & _).
    exists p', L', V'. split; [done|]. split; [done|]. split; [by apply foreign_smo|]. intros _ v y _ Hy. apply Lg. by left.
  - destruct Ho as [Hs Hz]. destruct (reassess_good d T root txg scrub_txg done p L V G Hr Hroot Hs Hz) as (p' & L' & V' & -> & G' & M & S & _ & Lg).
    exists p', L', V'. split; [done|]. split; [done|]. split; [by apply foreign_smo|]. intros -> v y Hv Hy. by apply Lg.
  - destruct (spa_sync_vdevs_spec d T txg pass p L V G) as (p' & L' & V' & -> & G' & S & F & _). exists p', L', V'. split_and!; [done|done|done|].
    intros _ v y _ Hy. by apply S.
Qed.

Lemma run_ops_spec root l : forall p L V,
  rooted root -> good none p L V -> List.Forall op_ok l ->
  exists p' L' V', run_ops root p l = Ok p' /\ good none p' L' V' /\ foreign_same p p' /\
    (List.Forall no_scrub l -> forall v y, is_leaf v -> logs (vds p) false v y -> logs (vds p') false v y).
Proof.
  induction l as [|o l IH]; intros p L V R G Ho; cbn.
  - by exists p, L, V.
  - apply List.Forall_cons_iff in Ho as [Ho Hl]. destruct (run_op_spec root p L V o R G Ho) as (p1 & L1 & V1 & -> & G1 & F1 & N1). run.
    destruct (IH p1 L1 V1 R G1 Hl) as (p' & L' & V' & -> & G' & F' & N'). exists p', L', V'. split_and!; [done|done|by eapply foreign_trans|].
    intros Hn v y Hv Hy. apply List.Forall_cons_iff in Hn as [Hn Hn']. auto.
Qed.

(** The invariant, whatever is on the lists. *)
Definition dtl_good (p : pool) : Prop := exists L V, good none p L V.

(** One more pass for each group in flight: the syncs of four groups in a row. *)
Definition sync_four (txg pass : Z) : list op := [Sync txg pass; Sync (txg + 1) pass; Sync (txg + 2) pass; Sync (txg + 3) pass].

Lemma run_ops_app root p l1 l2 : run_ops root p (l1 ++ l2) = (p ← run_ops root p l1; run_ops root p l2).
Proof. revert p. induction l1 as [|o l1 IH]; intros p; cbn; [done|]. destruct (run_op root p o); run; [apply IH|done]. Qed.

Lemma slot_cover (txg : Z) (s : nat) : (s < 4)%nat -> exists k, In k [0; 1; 2; 3] /\ s = slot (txg + k).
Proof.
  intros Hs. exists ((Z.of_nat s - txg) `mod` 4). pose proof (Z.mod_pos_bound (Z.of_nat s - txg) 4). split; [cbn; lia|].
  rewrite slot_mod, Zplus_mod_idemp_r. replace (txg + (Z.of_nat s - txg)) with (Z.of_nat s) by lia. rewrite Z.mod_small; lia.
Qed.

Lemma sync_list_spec root (d : Z -> nat) (T : tree d) pass ks : forall p L V,
  good none p L V ->
  exists p' L' V', run_ops root p (map (fun k => Sync k pass) ks) = Ok p' /\ good none p' L' V' /\ same_logs (vds p) (vds p') /\ foreign_same p p' /\
    (forall t k, In k ks -> L' t (slot k) = []) /\ forall t s, L t s = [] -> L' t s = [].
Proof.
  induction ks as [|k ks IH]; intros p L V G; cbn [map run_ops].
  - exists p, L, V. by split_and!.
  - cbn [run_op]. destruct (spa_sync_vdevs_spec d T k pass p L V G) as (p1 & L1 & V1 & -> & G1 & S1 & F1 & E1 & K1). run.
    destruct (IH p1 L1 V1 G1) as (p' & L' & V' & -> & G' & S' & F' & E' & K'). exists p', L', V'.
    split; [done|]. split; [done|]. split; [intros b v y; rewrite (S' b v y); apply S1|]. split; [by eapply foreign_trans|]. split.
    + intros t j [<-|Hj]; [apply K', E1|by apply E'].
    + intros t s Hs. apply K'. destruct (decide (s = slot k)) as [->|]; [apply E1|by rewrite K1].
Qed.

Lemma sync_four_spec root p L V txg pass :
  rooted root -> good none p L V ->
  exists p' L' V', run_ops root p (sync_four txg pass) = Ok p' /\ good none p' L' V' /\ same_logs (vds p) (vds p') /\ foreign_same p p' /\
    forall t s, (s < 4)%nat -> L' t s = [].
Proof.
  intros (d & T & _) G. destruct (sync_list_spec root d T pass [txg; txg + 1; txg + 2; txg + 3] p L V G) as (p' & L' & V' & E & G' & S & F & Hk & _).
  exists p', L', V'. split; [exact E|]. split_and!; [done|done|done|]. intros t s Hs. destruct (slot_cover txg s Hs) as (k & Hin & ->).
  apply Hk. cbn in Hin |- *. destruct Hin as [<-|[<-|[<-|[<-|[]]]]]; rewrite ?Z.add_0_r; tauto.
Qed.

(** After that the log of a leaf can be loaded. *)
Lemma dtl_load_after root txg pass p L V v vd :
  rooted root -> good none p L V -> cfg !! v = Some vd -> vdev_child vd = [] -> vdev_detached vd = false ->
  exists p', run_ops root p (sync_four txg pass) = Ok p' /\ same_logs (vds p) (vds p') /\
    forall x q xq, vds p' !! v = Some x -> spa_meta_objset q = spa_meta_objset p' -> vds q !! v = Some xq -> vdev_dtl_map xq = dtl0 ->
      smo_object (vdev_dtl xq) = smo_object (vdev_dtl x) ->
      exists x', vdev_dtl_load q v = Ok (set_vd q v x', true) /\ forall y, member (segs (vdev_dtl_map x')) y <-> logs (vds p) false v y.
Proof.
  intros R G Hv Hlf Hd. destruct (sync_four_spec root p L V txg pass R G) as (p2 & L2 & V2 & E2 & G2 & S2 & F2 & K2). exists p2. split; [done|]. split; [exact S2|].
  intros x q xq Hx Em Hxq Hm0 Eo. destruct R as (d & T & _). destruct (leaf_top d T v vd Hv Hlf) as (t & Ht & _).
  destruct (vdev_dtl_load_spec q v xq x) as (x' & El & _ & Mx); [by exists vd|done|done|apply (vo_logs _ (gd_vds _ _ _ _ G2) v x false Hx)|done| |].
  { rewrite Em. destruct (gd_disk _ _ _ _ G2 v vd t x Hv Hlf Hd Ht Hx) as [(s & Hs & Hin)|?]; [|done]. rewrite (K2 t s Hs) in Hin. by apply not_elem_of_nil in Hin. }
  exists x'. split; [done|]. intros y. rewrite Mx, <- (S2 false v y). by rewrite (logs_at _ _ _ _ _ Hx).
Qed.

(** ** Properties *)

(** C9: Along every history of finished I/Os, reassessments and syncs nothing fails an
    assertion or follows a bad pointer, and afterwards every interior vdev misses
    exactly the groups its children miss, in both logs.  Once the groups in flight have been synced, loading the log of any
    leaf that is not detached, into an empty map and from the object it has, finds
    exactly the log in memory.  Objects that hold no log are left alone throughout. *)
Theorem dtl_histories (root txg pass : Z) (p : pool) (l : list op) :
  rooted root -> dtl_good p -> List.Forall op_ok l ->
  exists p1 p2, run_ops root p l = Ok p1 /\ run_ops root p1 (sync_four txg pass) = Ok p2 /\ dtl_good p2 /\ foreign_same p p2 /\
    (forall v vd b y, cfg !! v = Some vd -> vdev_child vd <> [] ->
       logs (vds p1) b v y <-> exists c, c ∈ vdev_child vd /\ logs (vds p1) b c y) /\
    (forall b v y, logs (vds p2) b v y <-> logs (vds p1) b v y) /\
    forall v vd x q xq, cfg !! v = Some vd -> vdev_child vd = [] -> vdev_detached vd = false -> vds p2 !! v = Some x ->
      spa_meta_objset q = spa_meta_objset p2 -> vds q !! v = Some xq -> vdev_dtl_map xq = dtl0 ->
      smo_object (vdev_dtl xq) = smo_object (vdev_dtl x) ->
      exists x', vdev_dtl_load q v = Ok (set_vd q v x', true) /\
        forall y, member (segs (vdev_dtl_map x')) y <-> logs (vds p1) false v y.
Proof.
  intros R (L & V & G) Hl. destruct (run_ops_spec root l p L V R G Hl) as (p1 & L1 & V1 & E1 & G1 & F1 & _).
  destruct (sync_four_spec root p1 L1 V1 txg pass R G1) as (p2 & L2 & V2 & E2 & G2 & S2 & F2 & K2). exists p1, p2.
  split; [done|]. split; [done|]. split; [by exists L2, V2|]. split; [by eapply foreign_trans|]. split; [apply G1|]. split; [exact S2|].
  intros v vd x q xq Hv Hlf Hd Hx. destruct (dtl_load_after root txg pass p1 L1 V1 v vd R G1 Hv Hlf Hd) as (p2' & E2' & _ & Hload).
  replace p2' with p2 in * by congruence. by apply Hload.
Qed.

(** C8: A missed write is not forgotten.  After a write of a group has failed on a leaf,
    the group is in the log of the leaf and of every vdev above it, and it stays there
    through every history in which no scrub completes; once the groups in flight have
    been synced, the log on disk has it too. *)
Theorem missed_write_survives (root txg pass : Z) (p : pool) (io : zio) (vd : vdev) (l : list op) :
  rooted root -> dtl_good p -> io_ok io -> cfg !! io_vd io = Some vd -> misses vd io = true -> has (io_flags io) ZIO_FLAG_IO_REPAIR = false ->
  vdev_detached vd = false -> List.Forall op_ok l -> List.Forall no_scrub l ->
  exists p1 p2, run_ops root p (Io io :: l) = Ok p1 /\ run_ops root p1 (sync_four txg pass) = Ok p2 /\
    (forall u, anc (io_vd io) u -> logs (vds p1) false u (io_txg io)) /\
    forall x q xq, vds p2 !! io_vd io = Some x -> spa_meta_objset q = spa_meta_objset p2 -> vds q !! io_vd io = Some xq -> vdev_dtl_map xq = dtl0 ->
      smo_object (vdev_dtl xq) = smo_object (vdev_dtl x) ->
      exists x', vdev_dtl_load q (io_vd io) = Ok (set_vd q (io_vd io) x', true) /\ member (segs (vdev_dtl_map x')) (io_txg io).
Proof.
  intros R (L & V & G) Hio Hv Hm Hf Hd Hl Hn. pose proof R as (d & T & _). assert (vdev_child vd = []) as Hlf by (unfold misses in Hm; b2p; by case_bool_decide).
  destruct (stat_update_spec d T p L V io vd G Hio Hv) as (p0 & L0 & V0 & E0 & G0 & _ & _ & _ & Lg & _).
  destruct (run_ops_spec root l p0 L0 V0 R G0 Hl) as (p1 & L1 & V1 & E1 & G1 & _ & N1).
  assert (logs (vds p1) false (io_vd io) (io_txg io)) as Hin.
  { apply N1; [done|by exists vd|]. apply Lg. right. unfold records. by rewrite Hf. }
  destruct (dtl_load_after root txg pass p1 L1 V1 (io_vd io) vd R G1 Hv Hlf Hd) as (p2 & E2 & S2 & Hload). exists p1, p2.
  split; [cbn [run_ops run_op]; by rewrite E0|]. split; [done|]. split; [intros u Hu; eapply (summed_up d T); [apply G1|done..]|].
  intros x q xq Hx Em Hxq Hm0 Eo. destruct (Hload x q xq Hx Em Hxq Hm0 Eo) as (x' & El & Mx). exists x'. split; [done|]. by apply Mx.
Qed.

(** C30: [vdev_dtl_reassess] of the root ends, keeps the invariant of the logs, and gives
    every leaf exactly this log: after a scrub up to group [scrub_txg], what it missed
    from that group on and what the scrub failed to repair, so that older groups are
    forgotten and no other is; without a scrub its log is as it was.  The log of the
    scrub itself is kept until the scrub is done and empty then.  A scrub is only
    excised in a transaction group, which makes the new logs dirty. *)
Theorem dtl_reassess_leaves (root txg scrub_txg : Z) (scrub_done : bool) (p : pool) :
  rooted root -> dtl_good p -> 0 <= scrub_txg < 2 ^ 64 -> (txg = 0 -> scrub_txg = 0) ->
  exists p', vdev_dtl_reassess (size cfg) txg scrub_txg scrub_done p root = Ok p' /\ dtl_good p' /\
    forall v y, is_leaf v ->
      (logs (vds p') false v y <->
         if scrub_txg =? 0 then logs (vds p) false v y else (logs (vds p) false v y /\ ~ y < scrub_txg) \/ logs (vds p) true v y) /\
      (logs (vds p') true v y <-> scrub_done = false /\ logs (vds p) true v y).
Proof.
  intros (d & T & Hr & Hroot) (L & V & G) Hs Hz. destruct (reassess_good d T root txg scrub_txg scrub_done p L V G Hr Hroot Hs Hz) as (p' & L' & V' & -> & G' & _ & _ & _ & Lg).
  exists p'. split; [done|]. split; [by exists L', V'|]. intros v y Hv. split; [apply (Lg v false y Hv)|apply (Lg v true y Hv)].
Qed.

(** ** A new pool *)

Definition new_dtls : dtls :=
  Dtls dtl0 dtl0 (Smo 0 0 0) (VdevStat (replicate (Z.to_nat ZIO_TYPES) 0) (replicate (Z.to_nat ZIO_TYPES) 0) 0 0 0 0 0).
Definition new_pool (os : objset) : pool :=
  let nodes := (fun _ => MetaslabTxg.zero_node) <$> cfg in
  Pool ((fun _ => new_dtls) <$> cfg) ((fun _ => (txg_list_create 0, nodes)) <$> cfg) (txg_list_create 0) nodes [] os.

Lemma new_pool_good os (d : Z -> nat) : tree d -> dtl_good (new_pool os).
Proof.
  intros T. destruct dtl0_ok as [K0 S0]. exists (fun _ _ => []), (fun _ => []).
  assert (rep (txg_list_create 0) ((fun _ => MetaslabTxg.zero_node) <$> cfg) (fun _ => [])) as R.
  { apply rep_create. intros a n Ha. apply lookup_fmap_Some in Ha as (? & <- & _). done. }
  assert (forall v x, vds (new_pool os) !! v = Some x -> x = new_dtls) as Hx.
  { intros v x Ha. by apply lookup_fmap_Some in Ha as (? & <- & _). }
  assert (forall b v y, ~ logs (vds (new_pool os)) b v y) as Hno.
  { intros b v y (x & ->%Hx & Hm). replace (segs (log_at b new_dtls)) with (@nil space_seg) in Hm by (by destruct b). by apply member_nil in Hm. }
  split; [split|split|split| | |].
  - intros v. cbn. by rewrite lookup_fmap, fmap_is_Some.
  - intros v x b ->%Hx. by destruct b.
  - intros t (tvd & Ht & _). exists (txg_list_create 0), ((fun _ => MetaslabTxg.zero_node) <$> cfg). cbn. rewrite lookup_fmap, Ht. split_and!; [done|done|].
    intros v (vd & Hv & _). rewrite Z.add_0_r, lookup_fmap, Hv. by eexists.
  - intros t (tvd & Ht & _). cbn. rewrite Z.add_0_r, lookup_fmap, Ht. by eexists.
  - done.
  - by intros t s v _ []%not_elem_of_nil.
  - by intros s t _ []%not_elem_of_nil.
  - done.
  - by intros v x _ ->%Hx.
  - by intros v vd x _ _ _ ->%Hx.
  - by intros u v x y _ _ ->%Hx.
  - intros v vd b y Hv Hne. split; [by intros []%Hno|]. by intros (c & _ & []%Hno).
  - by intros v x ->%Hx.
  - intros v vd t x _ _ _ _ ->%Hx. right. intros y. cbn. rewrite S0. apply member_nil.
Qed.
End VdevDtl.

(** ** A mirror of two disks *)

Import Avl.

Definition ex_cfg : gmap Z vdev :=
  <[1 := Vdev None None [2] 7 false]> (<[2 := Vdev (Some 2) (Some 1) [3; 4] 7 false]>
  (<[3 := Vdev (Some 2) (Some 2) [] 7 false]> (<[4 := Vdev (Some 2) (Some 2) [] 7 false]> ∅))).
Definition ex_depth (v : Z) : nat := if v =? 1 then 0%nat else if v =? 2 then 1%nat else 2%nat.

Lemma ex_cases v vd :
  ex_cfg !! v = Some vd ->
  (v = 1 /\ vd = Vdev None None [2] 7 false) \/ (v = 2 /\ vd = Vdev (Some 2) (Some 1) [3; 4] 7 false) \/
  ((v = 3 \/ v = 4) /\ vd = Vdev (Some 2) (Some 2) [] 7 false).
Proof.
  unfold ex_cfg. rewrite !lookup_insert_Some, lookup_empty. intros [[<- <-]|(_ & [[<- <-]|(_ & [[<- <-]|(_ & [[<- <-]|(_ & [=])])])])]; tauto.
Qed.

Lemma ex_rooted : rooted ex_cfg 1.
Proof.
  exists ex_depth. split; [split|split].
  - intros v vd c [[-> ->]|[[-> ->]|[Hv ->]]]%ex_cases Hc; cbn in Hc; [..|by apply not_elem_of_nil in Hc]; [apply list_elem_of_singleton in Hc as ->; by eexists|].
    apply elem_of_cons in Hc as [-> | ->%list_elem_of_singleton]; by eexists.
  - intros v vd q [[-> ->]|[[-> ->]|[[-> | ->] ->]]]%ex_cases Hq; cbn in Hq; [done|injection Hq as <-..]; eexists; (split; [reflexivity|]); (split; [set_solver|done]).
  - intros v vd [[-> ->]|[[-> ->]|[_ ->]]]%ex_cases; cbn; [apply NoDup_singleton|apply (bool_decide_unpack _); by vm_compute|constructor].
  - intros v vd [[-> ->]|[[-> ->]|[[-> | ->] ->]]]%ex_cases; done.
  - intros v vd [[-> ->]|[[-> ->]|[_ ->]]]%ex_cases Hl; [done..|]. exists 2. by eexists.
  - by eexists.
  - intros u [vd [[-> ->]|[[-> ->]|[Hu ->]]]%ex_cases]; [apply rtc_refl|apply rtc_once; by eexists|]. apply rtc_l with 2; [|apply rtc_once; by eexists].
    destruct Hu as [-> | ->]; by eexists.
Qed.

Lemma ex_anc : rtc (up ex_cfg) 3 1.
Proof. apply rtc_l with 2; [by eexists|apply rtc_once; by eexists]. Qed.

Definition ex_os : objset := RamMos.Objs ∅ ∅.
(** A write of group 100 that failed on the first disk. *)
Definition ex_io : zio := Zio 3 100 ZIO_TYPE_WRITE 0 5 4096 None.

Lemma ex_io_ok : io_ok ex_cfg ex_io.
Proof. by split_and!. Qed.

(** The write fails, another one on the other disk succeeds, and the group is synced. *)
Lemma dtl_histories_witness :
  exists p1 p2, run_ops false ex_cfg 1 (new_pool ex_cfg ex_os) [Io ex_io; Io (Zio 4 100 ZIO_TYPE_WRITE 0 0 4096 None); Sync 100 1; Reassess 0 0 false] = Ok p1 /\
    run_ops false ex_cfg 1 p1 (sync_four 101 1) = Ok p2 /\ forall y, logs (vds p1) false 2 y <-> exists c, c ∈ [3; 4] /\ logs (vds p1) false c y.
Proof.
  destruct (dtl_histories false ex_cfg 1 101 1 (new_pool ex_cfg ex_os) [Io ex_io; Io (Zio 4 100 ZIO_TYPE_WRITE 0 0 4096 None); Sync 100 1; Reassess 0 0 false])
    as (p1 & p2 & E1 & E2 & _ & _ & Hs & _); [apply ex_rooted|destruct ex_rooted as (d & T & _); by apply (new_pool_good _ _ d)| |].
  - repeat constructor; try done; by eexists.
  - exists p1, p2. split; [exact E1|]. split; [exact E2|]. intros y. by apply (Hs 2 (Vdev (Some 2) (Some 1) [3; 4] 7 false)).
Defined.

Lemma missed_write_survives_witness :
  exists p1 p2, run_ops false ex_cfg 1 (new_pool ex_cfg ex_os) [Io ex_io; Sync 100 1] = Ok p1 /\
    run_ops false ex_cfg 1 p1 (sync_four 101 1) = Ok p2 /\ logs (vds p1) false 1 100.
Proof.
  destruct (missed_write_survives false ex_cfg 1 101 1 (new_pool ex_cfg ex_os) ex_io (Vdev (Some 2) (Some 2) [] 7 false) [Sync 100 1])
    as (p1 & p2 & E1 & E2 & Hs & _); [apply ex_rooted|destruct ex_rooted as (d & T & _); by apply (new_pool_good _ _ d)|apply ex_io_ok|reflexivity..|by repeat constructor|by repeat constructor|].
  exists p1, p2. split; [exact E1|]. split; [exact E2|]. exact (Hs 1 ex_anc).
Defined.

(** The write fails, and a scrub up to group 50 ends in group 120. *)
Lemma dtl_reassess_leaves_witness :
  exists p1 p', run_ops false ex_cfg 1 (new_pool ex_cfg ex_os) [Io ex_io] = Ok p1 /\ vdev_dtl_reassess false ex_cfg (size ex_cfg) 120 50 true p1 1 = Ok p' /\
    forall y, (logs (vds p') false 3 y <-> (logs (vds p1) false 3 y /\ ~ y < 50) \/ logs (vds p1) true 3 y) /\ ~ logs (vds p') true 3 y.
Proof.
  destruct ex_rooted as (d & T & HR). destruct (new_pool_good ex_cfg ex_os d T) as (L & V & G).
  destruct (run_ops_spec false ex_cfg 1 [Io ex_io] (new_pool ex_cfg ex_os) L V) as (p1 & L1 & V1 & E1 & G1 & _).
  - by exists d.
  - exact G.
  - repeat constructor; try done; by eexists.
  - destruct (dtl_reassess_leaves false ex_cfg 1 120 50 true p1) as (p' & E & _ & H); [by exists d|by exists L1, V1|lia|done|].
    exists p1, p'. split; [exact E1|]. split; [exact E|]. intros y. destruct (H 3 y) as [H1 H2]; [by eexists|]. split; [exact H1|].
    rewrite H2. by intros [? _].
Defined.

End VdevDtl.
