(* ===== verification/Uconv.v ===== *)
(** * Conversions between UTF-8, UTF-16 and UTF-32

    Models [src/usr/src/common/unicode/uconv.c]: the byte tables, the flag and
    byte-order-mark checks, and the six conversion routines.  The caller's
    memory is explicit (the pointers may be NULL, the two lengths are read and
    written through pointers), every error is a value, and a read or write
    outside a buffer is a [Fault].  The host byte order ([_BIG_ENDIAN]) is the
    parameter [be].  Lengths are unbounded: a buffer whose length comes within
    three elements of [SIZE_MAX] does not exist.

    Each of the six routines is one decoding loop around one encoding step;
    the three loops and the three steps are written once each.  The loops are
    proved correct against the interface [Put] that an encoding step meets. *)

From Stdlib Require Import List Lia ZArith Bool.
From stdpp Require Import base option numbers list.
From S2P Require Import Prelude Checksum.
Local Open Scope Z_scope.

Module Uconv.

(** ** Constants *)

Definition UCONV_IN_BIG_ENDIAN := 0x1.
Definition UCONV_OUT_BIG_ENDIAN := 0x2.
Definition UCONV_IN_LITTLE_ENDIAN := 0x10.
Definition UCONV_OUT_LITTLE_ENDIAN := 0x20.
Definition UCONV_IGNORE_NULL := 0x40.
Definition UCONV_IN_ACCEPT_BOM := 0x80.
Definition UCONV_OUT_EMIT_BOM := 0x100.

Definition UCONV_U16_HI_MIN := 0xd800.
Definition UCONV_U16_HI_MAX := 0xdbff.
Definition UCONV_U16_LO_MIN := 0xdc00.
Definition UCONV_U16_LO_MAX := 0xdfff.
Definition UCONV_U16_BIT_SHIFT := 0x400.
Definition UCONV_U16_BIT_MASK := 0xfffff.
Definition UCONV_U16_START := 0x10000.
Definition UCONV_UNICODE_MAX := 0x10ffff.
Definition UCONV_ASCII_MAX := 0x7f.

Definition UCONV_IN_ENDIAN_MASKS := Z.lor UCONV_IN_BIG_ENDIAN UCONV_IN_LITTLE_ENDIAN.
Definition UCONV_OUT_ENDIAN_MASKS := Z.lor UCONV_OUT_BIG_ENDIAN UCONV_OUT_LITTLE_ENDIAN.

Definition UCONV_IN_NAT_ENDIAN (be : bool) :=
  if be then UCONV_IN_BIG_ENDIAN else UCONV_IN_LITTLE_ENDIAN.
Definition UCONV_IN_REV_ENDIAN (be : bool) :=
  if be then UCONV_IN_LITTLE_ENDIAN else UCONV_IN_BIG_ENDIAN.
Definition UCONV_OUT_NAT_ENDIAN (be : bool) :=
  if be then UCONV_OUT_BIG_ENDIAN else UCONV_OUT_LITTLE_ENDIAN.

Definition UCONV_BOM_NORMAL := 0xfeff.
Definition UCONV_BOM_SWAPPED := 0xfffe.
Definition UCONV_BOM_SWAPPED_32 := 0xfffe0000.

Definition UCONV_U8_ONE_BYTE := 0x7f.
Definition UCONV_U8_TWO_BYTES := 0x7ff.
Definition UCONV_U8_THREE_BYTES := 0xffff.
Definition UCONV_U8_FOUR_BYTES := 0x10ffff.
Definition UCONV_U8_BYTE_MIN := 0x80.
Definition UCONV_U8_BYTE_MAX := 0xbf.
Definition UCONV_U8_BIT_SHIFT := 6.
Definition UCONV_U8_BIT_MASK := 0x3f.

(** ** Tables, by rows of the source with equal entries *)

Definition remaining_bytes_tbl : list Z :=
  replicate 192 0 ++                        (* 00 .. BF *)
  replicate 2 0 ++ replicate 14 1 ++        (* C0 .. CF *)
  replicate 16 1 ++                         (* D0 .. DF *)
  replicate 16 2 ++                         (* E0 .. EF *)
  replicate 5 3 ++ replicate 11 0.          (* F0 .. FF *)

Definition masks_tbl : list Z := [0; 0x1f; 0x0f; 0x07; 0x03; 0x01].

Definition valid_min_2nd_byte : list Z :=
  replicate 192 0 ++
  replicate 2 0 ++ replicate 14 0x80 ++
  replicate 16 0x80 ++
  [0xa0] ++ replicate 15 0x80 ++
  [0x90] ++ replicate 4 0x80 ++ replicate 11 0.

Definition valid_max_2nd_byte : list Z :=
  replicate 192 0 ++
  replicate 2 0 ++ replicate 14 0xbf ++
  replicate 16 0xbf ++
  replicate 13 0xbf ++ [0x9f] ++ replicate 2 0xbf ++
  replicate 4 0xbf ++ [0x8f] ++ replicate 11 0.

(** ** Results *)

Inductive errno := EILSEQ | E2BIG | EBADF | EINVAL.

#[global] Instance errno_eq_dec : EqDecision errno.
Proof. solve_decision. Defined.

(** The memory the caller passes: the input and the output array and the two
    lengths, each behind a pointer that may be NULL. *)
Record mem := Mem {
  src : option (list Z);
  srclen : option Z;
  dst : option (list Z);
  dstlen : option Z
}.

(** How the body of a conversion leaves: with an error, the output array as
    written so far; or at the end of the input, with the two counts. *)
Inductive exit :=
  | Stop (e : errno) (d : list Z)
  | Finish (i o : Z) (d : list Z).

(** The NULL checks that open every routine, and what it stores at the end:
    the lengths only on success, the output array always.  [None] is the
    return value 0. *)
Definition with_args (m : mem)
    (k : list Z -> Z -> list Z -> Z -> outcome exit) : outcome (option errno * mem) :=
  match src m, srclen m with
  | Some s, Some n =>
      match dst m, dstlen m with
      | Some d, Some l =>
          x ← k s n d l;
          mret (match x with
                | Stop e d' => (Some e, Mem (Some s) (Some n) (Some d') (Some l))
                | Finish i o d' => (None, Mem (Some s) (Some i) (Some d') (Some o))
                end)
      | _, _ => mret (Some E2BIG, m)
      end
  | _, _ => mret (Some EILSEQ, m)
  end.

Section host.
Variable be : bool.

(** ** Flags and byte-order marks *)

Definition check_endian (flag : Z) : errno + Z * Z :=
  let in_ := Z.land flag UCONV_IN_ENDIAN_MASKS in
  if in_ =? UCONV_IN_ENDIAN_MASKS then inl EBADF else
  let in_ := if in_ =? 0 then UCONV_IN_NAT_ENDIAN be else in_ in
  let out := Z.land flag UCONV_OUT_ENDIAN_MASKS in
  if out =? UCONV_OUT_ENDIAN_MASKS then inl EBADF else
  let out := if out =? 0 then UCONV_OUT_NAT_ENDIAN be else out in
  inr (in_, out).

(** The new value of [*in] when there is a mark. *)
Definition check_bom (swapped : Z) (s : list Z) (l : Z) : outcome (option Z) :=
  if 0 <? l then
    w ← rd s 0;
    mret (if w =? UCONV_BOM_NORMAL then Some (UCONV_IN_NAT_ENDIAN be)
          else if w =? swapped then Some (UCONV_IN_REV_ENDIAN be)
          else None)
  else mret None.
Definition check_bom16 := check_bom UCONV_BOM_SWAPPED.
Definition check_bom32 := check_bom UCONV_BOM_SWAPPED_32.

(** [if ((flag & UCONV_IN_ACCEPT_BOM) && check_bom(..., &inendian)) l++;] *)
Definition accept_bom (check : list Z -> Z -> outcome (option Z)) (flag : Z)
    (s : list Z) (l inendian : Z) : outcome (Z * Z) :=
  if Z.land flag UCONV_IN_ACCEPT_BOM =? 0 then mret (0, inendian)
  else c ← check s l;
       mret (match c with Some e => (1, e) | None => (0, inendian) end).

(** A mark is emitted when the input and the output are not empty and the
    flag asks for it. *)
Definition emit_bom (swapped flag inlen outlen : Z) (outendian : bool) (d : list Z)
    : outcome (list Z * Z) :=
  if (0 <? inlen) && (0 <? outlen) && negb (Z.land flag UCONV_OUT_EMIT_BOM =? 0) then
    d ← wr d 0 (if outendian then UCONV_BOM_NORMAL else swapped);
    mret (d, 1)
  else mret (d, 0).

(** ** Storing one character: [inl] an error, [inr] the array and the index *)

Definition put_u8 (d : list Z) (utf8len u8l lo : Z) : outcome (errno + list Z * Z) :=
  if lo <=? UCONV_U8_ONE_BYTE then
    if utf8len <=? u8l then mret (inl E2BIG) else
    d ← wr d u8l (u8 lo);
    mret (inr (d, u8l + 1))
  else if lo <=? UCONV_U8_TWO_BYTES then
    if utf8len <=? u8l + 1 then mret (inl E2BIG) else
    d ← wr d u8l (u8 (Z.lor 0xc0 (Z.shiftr (Z.land lo 0x07c0) 6)));
    d ← wr d (u8l + 1) (u8 (Z.lor 0x80 (Z.land lo 0x003f)));
    mret (inr (d, u8l + 2))
  else if lo <=? UCONV_U8_THREE_BYTES then
    if utf8len <=? u8l + 2 then mret (inl E2BIG) else
    d ← wr d u8l (u8 (Z.lor 0xe0 (Z.shiftr (Z.land lo 0x0f000) 12)));
    d ← wr d (u8l + 1) (u8 (Z.lor 0x80 (Z.shiftr (Z.land lo 0x00fc0) 6)));
    d ← wr d (u8l + 2) (u8 (Z.lor 0x80 (Z.land lo 0x0003f)));
    mret (inr (d, u8l + 3))
  else if lo <=? UCONV_U8_FOUR_BYTES then
    if utf8len <=? u8l + 3 then mret (inl E2BIG) else
    d ← wr d u8l (u8 (Z.lor 0xf0 (Z.shiftr (Z.land lo 0x01c0000) 18)));
    d ← wr d (u8l + 1) (u8 (Z.lor 0x80 (Z.shiftr (Z.land lo 0x003f000) 12)));
    d ← wr d (u8l + 2) (u8 (Z.lor 0x80 (Z.shiftr (Z.land lo 0x0000fc0) 6)));
    d ← wr d (u8l + 3) (u8 (Z.lor 0x80 (Z.land lo 0x000003f)));
    mret (inr (d, u8l + 4))
  else mret (inl EILSEQ).

Definition put_u16 (outendian : bool) (d : list Z) (utf16len u16l hi : Z)
    : outcome (errno + list Z * Z) :=
  if UCONV_U16_START <=? hi then
    let lo := (hi - UCONV_U16_START) `mod` UCONV_U16_BIT_SHIFT + UCONV_U16_LO_MIN in
    let hi := (hi - UCONV_U16_START) / UCONV_U16_BIT_SHIFT + UCONV_U16_HI_MIN in
    if utf16len <=? u16l + 1 then mret (inl E2BIG) else
    d ← wr d u16l (if outendian then u16 hi else BSWAP_16 (u16 hi));
    d ← wr d (u16l + 1) (if outendian then u16 lo else BSWAP_16 (u16 lo));
    mret (inr (d, u16l + 2))
  else
    if utf16len <=? u16l then mret (inl E2BIG) else
    d ← wr d u16l (if outendian then u16 hi else BSWAP_16 (u16 hi));
    mret (inr (d, u16l + 1)).

(** The check that precedes it in [uconv_u32tou16] only. *)
Definition put_u16_checked (outendian : bool) (d : list Z) (utf16len u16l hi : Z)
    : outcome (errno + list Z * Z) :=
  if UCONV_UNICODE_MAX <? hi then mret (inl EILSEQ)
  else put_u16 outendian d utf16len u16l hi.

Definition put_u32 (outendian : bool) (d : list Z) (utf32len u32l hi : Z)
    : outcome (errno + list Z * Z) :=
  if utf32len <=? u32l then mret (inl E2BIG) else
  d ← wr d u32l (if outendian then hi else BSWAP_32 hi);
  mret (inr (d, u32l + 1)).

(** ** Fetching one character *)

(** A UTF-16 unit after the pending high half [hi] (0: none). *)
Inductive joined :=
  | Bad                 (* EILSEQ *)
  | Half (hi : Z)       (* a high half, to be continued *)
  | Char (lo : Z).

Definition join (hi lo : Z) : joined :=
  if (UCONV_U16_HI_MIN <=? lo) && (lo <=? UCONV_U16_HI_MAX) then
    if negb (hi =? 0) then Bad else Half lo
  else if (UCONV_U16_LO_MIN <=? lo) && (lo <=? UCONV_U16_LO_MAX) then
    if hi =? 0 then Bad
    else Char (Z.land ((hi - UCONV_U16_HI_MIN) * UCONV_U16_BIT_SHIFT + lo - UCONV_U16_LO_MIN)
                 UCONV_U16_BIT_MASK + UCONV_U16_START)
  else if negb (hi =? 0) then Bad
  else Char lo.

(** The range check on a continuation byte; the first one has its own. *)
Definition bad_byte (first_b lo : Z) : outcome bool :=
  if negb (first_b =? 0) then
    mn ← rd valid_min_2nd_byte first_b;
    mx ← rd valid_max_2nd_byte first_b;
    mret ((lo <? mn) || (mx <? lo))
  else mret ((lo <? UCONV_U8_BYTE_MIN) || (UCONV_U8_BYTE_MAX <? lo)).

(** The [for (; remaining_bytes > 0; remaining_bytes--)] loop. *)
Fixpoint get_rest (remaining : nat) (u8s : list Z) (utf8len u8l first_b hi : Z)
    : outcome (errno + Z * Z) :=
  match remaining with
  | O => mret (inr (hi, u8l))
  | S remaining =>
      if utf8len <=? u8l then mret (inl EINVAL) else
      lo ← rd u8s u8l;
      bad ← bad_byte first_b lo;
      if (bad : bool) then mret (inl EILSEQ) else
      get_rest remaining u8s utf8len (u8l + 1) 0
        (Z.lor (u32 (Z.shiftl hi UCONV_U8_BIT_SHIFT)) (Z.land lo UCONV_U8_BIT_MASK))
  end.

Definition get_u8 (u8s : list Z) (utf8len u8l : Z) : outcome (errno + Z * Z) :=
  hi ← rd u8s u8l;
  let u8l := u8l + 1 in
  if UCONV_ASCII_MAX <? hi then
    remaining_bytes ← rd remaining_bytes_tbl hi;
    if remaining_bytes =? 0 then mret (inl EILSEQ) else
    mask ← rd masks_tbl remaining_bytes;
    get_rest (Z.to_nat remaining_bytes) u8s utf8len u8l hi (Z.land hi mask)
  else mret (inr (hi, u8l)).

(** ** The three loops, around a store operation *)

Section loops.
Variable put : list Z -> Z -> Z -> Z -> outcome (errno + list Z * Z).
Variables (s : list Z) (n l : Z) (do_not_ignore_null inendian : bool).

Definition body_u16 (st : Z * Z * Z * list Z) : outcome (Z * Z * Z * list Z + exit) :=
  let '(u16l, o, hi, d) := st in
  let leave := if negb (hi =? 0) then Stop EINVAL d else Finish u16l o d in
  if n <=? u16l then mret (inr leave) else
  w ← rd s u16l;
  if (w =? 0) && do_not_ignore_null then mret (inr leave) else
  let lo := if inendian then w else BSWAP_16 w in
  match join hi lo with
  | Bad => mret (inr (Stop EILSEQ d))
  | Half hi => mret (inl (u16l + 1, o, hi, d))
  | Char lo =>
      p ← put d l o lo;
      mret (match p with
            | inl e => inr (Stop e d)
            | inr (d, o) => inl (u16l + 1, o, 0, d)
            end)
  end.

Definition body_u32 (st : Z * Z * list Z) : outcome (Z * Z * list Z + exit) :=
  let '(u32l, o, d) := st in
  if n <=? u32l then mret (inr (Finish u32l o d)) else
  w ← rd s u32l;
  if (w =? 0) && do_not_ignore_null then mret (inr (Finish u32l o d)) else
  let hi := if inendian then w else BSWAP_32 w in
  p ← put d l o hi;
  mret (match p with
        | inl e => inr (Stop e d)
        | inr (d, o) => inl (u32l + 1, o, d)
        end).

Definition body_u8 (st : Z * Z * list Z) : outcome (Z * Z * list Z + exit) :=
  let '(u8l, o, d) := st in
  if n <=? u8l then mret (inr (Finish u8l o d)) else
  w ← rd s u8l;
  if (w =? 0) && do_not_ignore_null then mret (inr (Finish u8l o d)) else
  g ← get_u8 s n u8l;
  match g with
  | inl e => mret (inr (Stop e d))
  | inr (hi, u8l) =>
      p ← put d l o hi;
      mret (match p with
            | inl e => inr (Stop e d)
            | inr (d, o) => inl (u8l, o, d)
            end)
  end.
End loops.

(** Every round consumes a unit, so this many conv_rounds are enough. *)
Definition conv_rounds (n : Z) : nat := S (S (Z.to_nat n)).

(** ** The six conversions *)

Definition not_ignoring (flag : Z) : bool := Z.land flag UCONV_IGNORE_NULL =? 0.
Definition in_native (e : Z) : bool := negb (Z.land e (UCONV_IN_NAT_ENDIAN be) =? 0).
Definition out_native (e : Z) : bool := negb (Z.land e (UCONV_OUT_NAT_ENDIAN be) =? 0).

Definition uconv_u16tou32 (m : mem) (flag : Z) : outcome (option errno * mem) :=
  with_args m (fun u16s utf16len u32s utf32len =>
    match check_endian flag with
    | inl e => mret (Stop e u32s)
    | inr (inendian, outendian) =>
        '(u16l, inendian) ← accept_bom check_bom16 flag u16s utf16len inendian;
        let inendian := in_native inendian in
        let outendian := out_native outendian in
        '(u32s, u32l) ← emit_bom UCONV_BOM_SWAPPED_32 flag utf16len utf32len outendian u32s;
        iter (conv_rounds utf16len)
          (body_u16 (put_u32 outendian) u16s utf16len utf32len (not_ignoring flag) inendian)
          (u16l, u32l, 0, u32s)
    end).

Definition uconv_u16tou8 (m : mem) (flag : Z) : outcome (option errno * mem) :=
  with_args m (fun u16s utf16len u8s utf8len =>
    match check_endian flag with
    | inl e => mret (Stop e u8s)
    | inr (inendian, _) =>
        '(u16l, inendian) ← accept_bom check_bom16 flag u16s utf16len inendian;
        let inendian := in_native inendian in
        iter (conv_rounds utf16len)
          (body_u16 put_u8 u16s utf16len utf8len (not_ignoring flag) inendian)
          (u16l, 0, 0, u8s)
    end).

Definition uconv_u32tou16 (m : mem) (flag : Z) : outcome (option errno * mem) :=
  with_args m (fun u32s utf32len u16s utf16len =>
    match check_endian flag with
    | inl e => mret (Stop e u16s)
    | inr (inendian, outendian) =>
        '(u32l, inendian) ← accept_bom check_bom32 flag u32s utf32len inendian;
        let inendian := in_native inendian in
        let outendian := out_native outendian in
        '(u16s, u16l) ← emit_bom UCONV_BOM_SWAPPED flag utf32len utf16len outendian u16s;
        iter (conv_rounds utf32len)
          (body_u32 (put_u16_checked outendian) u32s utf32len utf16len (not_ignoring flag) inendian)
          (u32l, u16l, u16s)
    end).

Definition uconv_u32tou8 (m : mem) (flag : Z) : outcome (option errno * mem) :=
  with_args m (fun u32s utf32len u8s utf8len =>
    match check_endian flag with
    | inl e => mret (Stop e u8s)
    | inr (inendian, _) =>
        '(u32l, inendian) ← accept_bom check_bom32 flag u32s utf32len inendian;
        let inendian := in_native inendian in
        iter (conv_rounds utf32len)
          (body_u32 put_u8 u32s utf32len utf8len (not_ignoring flag) inendian)
          (u32l, 0, u8s)
    end).

Definition uconv_u8tou16 (m : mem) (flag : Z) : outcome (option errno * mem) :=
  with_args m (fun u8s utf8len u16s utf16len =>
    match check_endian flag with
    | inl e => mret (Stop e u16s)
    | inr (_, outendian) =>
        let outendian := out_native outendian in
        '(u16s, u16l) ← emit_bom UCONV_BOM_SWAPPED flag utf8len utf16len outendian u16s;
        iter (conv_rounds utf8len)
          (body_u8 (put_u16 outendian) u8s utf8len utf16len (not_ignoring flag))
          (0, u16l, u16s)
    end).

Definition uconv_u8tou32 (m : mem) (flag : Z) : outcome (option errno * mem) :=
  with_args m (fun u8s utf8len u32s utf32len =>
    match check_endian flag with
    | inl e => mret (Stop e u32s)
    | inr (_, outendian) =>
        let outendian := out_native outendian in
        '(u32s, u32l) ← emit_bom UCONV_BOM_SWAPPED_32 flag utf8len utf32len outendian u32s;
        iter (conv_rounds utf8len)
          (body_u8 (put_u32 outendian) u8s utf8len utf32len (not_ignoring flag))
          (0, u32l, u32s)
    end).

End host.

(** A four-character string through all forms, in both byte orders. *)
Example uconv_runs :
  let zs k := Some (replicate k 0) in
  uconv_u8tou16 false (Mem (Some [0x41; 0xc3; 0xa9; 0xe2; 0x82; 0xac; 0xf0; 0x9f; 0x98; 0x80; 0])
                  (Some 11) (zs 6%nat) (Some 6)) 0x100
    = Ok (None, Mem (Some [0x41; 0xc3; 0xa9; 0xe2; 0x82; 0xac; 0xf0; 0x9f; 0x98; 0x80; 0])
                  (Some 10) (Some [0xfeff; 0x41; 0xe9; 0x20ac; 0xd83d; 0xde00]) (Some 6)) /\
  uconv_u16tou32 true (Mem (Some [0xfffe; 0x4100; 0x3dd8; 0x00de]) (Some 4) (zs 3%nat) (Some 3)) 0x80
    = Ok (None, Mem (Some [0xfffe; 0x4100; 0x3dd8; 0x00de]) (Some 4)
                  (Some [0x41; 0x1f600; 0]) (Some 2)) /\
  fst <$> uconv_u8tou32 true (Mem (Some [0xed; 0xa0; 0x80]) (Some 3) (zs 3%nat) (Some 3)) 0
    = Ok (Some EILSEQ).
Proof. vm_compute. auto. Qed.

(** ** The encoding forms, by arithmetic (Unicode 3.2, chapter 3.9) *)

Definition scalar (c : Z) : Prop := 0 <= c <= 0x10ffff /\ ~ (0xd800 <= c <= 0xdfff).

Definition enc8 (c : Z) : list Z :=
  if c <? 0x80 then [c]
  else if c <? 0x800 then [0xc0 + c / 64; 0x80 + c `mod` 64]
  else if c <? 0x10000 then [0xe0 + c / 4096; 0x80 + (c / 64) `mod` 64; 0x80 + c `mod` 64]
  else [0xf0 + c / 262144; 0x80 + (c / 4096) `mod` 64; 0x80 + (c / 64) `mod` 64; 0x80 + c `mod` 64].

Definition enc16 (c : Z) : list Z :=
  if c <? 0x10000 then [c]
  else [0xd800 + (c - 0x10000) / 0x400; 0xdc00 + (c - 0x10000) `mod` 0x400].

Inductive utf := U8 | U16 | U32.

#[global] Instance utf_eq_dec : EqDecision utf.
Proof. solve_decision. Defined.

(** A unit of the form in the host's byte order ([true]) or the other one. *)
Definition order (k : utf) (nat : bool) (w : Z) : Z :=
  match k with
  | U8 => w
  | U16 => if nat then w else BSWAP_16 w
  | U32 => if nat then w else BSWAP_32 w
  end.

Definition enc (k : utf) (nat : bool) (c : Z) : list Z :=
  match k with
  | U8 => enc8 c
  | U16 => order U16 nat <$> enc16 c
  | U32 => [order U32 nat c]
  end.

Definition text (k : utf) (nat : bool) (cs : list Z) : list Z := flat_map (enc k nat) cs.

Definition unit_max (k : utf) : Z :=
  match k with U8 => 2 ^ 8 | U16 => 2 ^ 16 | U32 => 2 ^ 32 end.

(** ** Storing *)

(** The array after [out] has been stored from its start. *)
Definition filled (d0 out : list Z) : list Z := out ++ drop (length out) d0.

Lemma filled_nil d0 : filled d0 [] = d0.
Proof. done. Qed.

Lemma filled_len d0 out : zlen out <= zlen d0 -> length (filled d0 out) = length d0.
Proof. intros. unfold filled. rewrite length_app, length_drop. lia. Qed.

Lemma wr_filled d0 out i v :
  i = zlen out -> zlen out < zlen d0 ->
  wr (filled d0 out) i v = Ok (filled d0 (out ++ [v])).
Proof.
  intros -> H. rewrite wr_in by (rewrite filled_len; lia). f_equal. unfold filled.
  rewrite Nat2Z.id, length_app, <- app_assoc, Nat.add_1_r. cbn [length app].
  destruct (lookup_lt_is_Some_2 d0 (length out)) as [x Hx]; [lia|].
  rewrite (drop_S _ _ _ Hx), insert_app_r_alt, Nat.sub_diag by done. done.
Qed.

(** What the loops rely on: storing a character appends its encoding, or
    reports that it does not fit and stores nothing. *)
Class Put (put : list Z -> Z -> Z -> Z -> outcome (errno + list Z * Z))
    (e : Z -> list Z) : Prop :=
  put_char d0 out l c :
    0 <= c <= 0x10ffff -> zlen out <= l -> l <= zlen d0 ->
    put (filled d0 out) l (zlen out) c
    = Ok (if zlen (out ++ e c) <=? l
          then inr (filled d0 (out ++ e c), zlen (out ++ e c)) else inl E2BIG).

(** [lia] with quotients and remainders by constants. *)
Ltac dlia := Z.to_euclidean_division_equations; lia.

(** Bits [k, k + n) of [c], moved below a prefix that starts at bit [n]. *)
Lemma field c m k n :
  0 <= k -> 0 <= n -> m = Z.shiftl (Z.ones n) k ->
  Z.shiftr (Z.land c m) k = (c / 2 ^ k) `mod` 2 ^ n.
Proof.
  intros Hk Hn ->. rewrite Z.shiftr_land, Z.shiftr_shiftl_l, Z.sub_diag, Z.shiftl_0_r by lia.
  rewrite Z.land_ones, Z.shiftr_div_pow2 by lia. done.
Qed.

Lemma prefix_byte p a n x :
  0 <= n <= 8 -> p = a * 2 ^ n -> 0 <= p <= 256 - 2 ^ n -> 0 <= x < 2 ^ n ->
  u8 (Z.lor p x) = p + x.
Proof.
  intros Hn -> Hp Hx. rewrite <- Z.shiftl_mul_pow2 by lia.
  rewrite lor_shiftl_add, Z.shiftl_mul_pow2 by lia. apply wrap_small. lia.
Qed.

Lemma byte_field p a n k c m :
  0 <= k -> 0 <= n <= 8 -> p = a * 2 ^ n -> 0 <= p <= 256 - 2 ^ n ->
  m = Z.shiftl (Z.ones n) k ->
  u8 (Z.lor p (Z.shiftr (Z.land c m) k)) = p + (c / 2 ^ k) `mod` 2 ^ n.
Proof.
  intros Hk Hn Hp Hr Hm. rewrite (field c m k n) by (done || lia).
  apply (prefix_byte p a n); try done. apply Z.mod_pos_bound. lia.
Qed.

Lemma tail_field c : u8 (Z.lor 0x80 (Z.land c 0x3f)) = 0x80 + c `mod` 64.
Proof.
  change (Z.land c 0x3f) with (Z.land c (Z.ones 6)). rewrite Z.land_ones by lia.
  apply (prefix_byte 0x80 2 6); try lia. apply Z.mod_pos_bound. lia.
Qed.

Lemma enc8_len c : 1 <= zlen (enc8 c) <= 4.
Proof. unfold enc8. repeat step_if; cbn; lia. Qed.

Ltac store :=
  repeat (rewrite wr_filled by (rewrite ?length_app; cbn [length]; lia); run);
  rewrite <- ?app_assoc; cbn [app].

#[global] Instance put_u8_ok : Put put_u8 enc8.
Proof.
  intros d0 out l c Hc Ho Hl. unfold put_u8, enc8.
  unfold UCONV_U8_ONE_BYTE, UCONV_U8_TWO_BYTES, UCONV_U8_THREE_BYTES, UCONV_U8_FOUR_BYTES.
  rewrite length_app.
  destruct (c <? 0x80) eqn:E1; b2p; [|destruct (c <? 0x800) eqn:E2; b2p;
    [|destruct (c <? 0x10000) eqn:E3; b2p]].
  - rewrite (proj2 (Z.leb_le c _)) by lia. cbn [length].
    destruct (l <=? zlen out) eqn:E; b2p.
    + rewrite (proj2 (Z.leb_gt _ l)) by lia. done.
    + rewrite (proj2 (Z.leb_le _ l)) by lia. store. rewrite wrap_small by lia.
      do 3 f_equal. lia.
  - rewrite (proj2 (Z.leb_gt c 0x7f)), (proj2 (Z.leb_le c 0x7ff)) by lia. cbn [length].
    destruct (l <=? zlen out + 1) eqn:E; b2p.
    + rewrite (proj2 (Z.leb_gt _ l)) by lia. done.
    + rewrite (proj2 (Z.leb_le _ l)) by lia. store.
      rewrite (byte_field 0xc0 6 5 6), tail_field by (done || lia).
      change (2 ^ 6) with 64. rewrite (Z.mod_small (c / 64)) by dlia.
      do 3 f_equal. lia.
  - rewrite (proj2 (Z.leb_gt c 0x7f)), (proj2 (Z.leb_gt c 0x7ff)),
      (proj2 (Z.leb_le c 0xffff)) by lia. cbn [length].
    destruct (l <=? zlen out + 2) eqn:E; b2p.
    + rewrite (proj2 (Z.leb_gt _ l)) by lia. done.
    + rewrite (proj2 (Z.leb_le _ l)) by lia. store.
      rewrite (byte_field 0xe0 14 4 12), (byte_field 0x80 2 6 6), tail_field by (done || lia).
      change (2 ^ 12) with 4096. change (2 ^ 6) with 64.
      rewrite (Z.mod_small (c / 4096)) by dlia.
      do 3 f_equal. lia.
  - rewrite (proj2 (Z.leb_gt c 0x7f)), (proj2 (Z.leb_gt c 0x7ff)),
      (proj2 (Z.leb_gt c 0xffff)), (proj2 (Z.leb_le c 0x10ffff)) by lia. cbn [length].
    destruct (l <=? zlen out + 3) eqn:E; b2p.
    + rewrite (proj2 (Z.leb_gt _ l)) by lia. done.
    + rewrite (proj2 (Z.leb_le _ l)) by lia. store.
      rewrite (byte_field 0xf0 30 3 18), (byte_field 0x80 2 6 12), (byte_field 0x80 2 6 6),
        tail_field by (done || lia).
      change (2 ^ 18) with 262144. change (2 ^ 12) with 4096. change (2 ^ 6) with 64.
      rewrite (Z.mod_small (c / 262144)) by dlia.
      do 3 f_equal. lia.
Qed.

Lemma put_u8_high d l o c : 0x10ffff < c -> put_u8 d l o c = Ok (inl EILSEQ).
Proof.
  intros. unfold put_u8. unfold UCONV_U8_ONE_BYTE, UCONV_U8_TWO_BYTES,
    UCONV_U8_THREE_BYTES, UCONV_U8_FOUR_BYTES.
  rewrite !(proj2 (Z.leb_gt c _)) by lia. done.
Qed.

#[global] Instance put_u16_ok nat : Put (put_u16 nat) (enc U16 nat).
Proof.
  intros d0 out l c Hc Ho Hl. unfold put_u16, enc, enc16, order. rewrite length_app.
  unfold UCONV_U16_START, UCONV_U16_LO_MIN, UCONV_U16_HI_MIN, UCONV_U16_BIT_SHIFT.
  destruct (c <? 0x10000) eqn:E1; b2p; cbn [fmap list_fmap length].
  - rewrite (proj2 (Z.leb_gt _ c)) by lia. destruct (l <=? zlen out) eqn:E; b2p.
    + rewrite (proj2 (Z.leb_gt _ l)) by lia. done.
    + rewrite (proj2 (Z.leb_le _ l)) by lia. store. rewrite wrap_small by lia.
      do 3 f_equal. lia.
  - rewrite (proj2 (Z.leb_le _ c)) by lia. destruct (l <=? zlen out + 1) eqn:E; b2p.
    + rewrite (proj2 (Z.leb_gt _ l)) by lia. done.
    + rewrite (proj2 (Z.leb_le _ l)) by lia. store.
      assert (0 <= (c - 65536) `mod` 1024 < 1024) by (apply Z.mod_pos_bound; lia).
      rewrite !(wrap_small 16) by dlia. rewrite (Z.add_comm _ 0xdc00), (Z.add_comm _ 0xd800).
      do 3 f_equal. lia.
Qed.

#[global] Instance put_u16_checked_ok nat : Put (put_u16_checked nat) (enc U16 nat).
Proof.
  intros d0 out l c Hc Ho Hl. unfold put_u16_checked, UCONV_UNICODE_MAX.
  rewrite (proj2 (Z.ltb_ge _ c)) by lia. by apply put_u16_ok.
Qed.

#[global] Instance put_u32_ok nat : Put (put_u32 nat) (enc U32 nat).
Proof.
  intros d0 out l c Hc Ho Hl. unfold put_u32, enc, order. rewrite length_app. cbn [length].
  destruct (l <=? zlen out) eqn:E; b2p.
  - rewrite (proj2 (Z.leb_gt _ l)) by lia. done.
  - rewrite (proj2 (Z.leb_le _ l)) by lia. store. do 3 f_equal. lia.
Qed.

(** ** Fetching a UTF-8 character *)

Lemma table_at (T : list Z) (f : Z -> Z) :
  forallb (fun i => match rd T (Z.of_nat i) with Ok v => v =? f (Z.of_nat i) | _ => false end)
    (List.seq 0 256) = true ->
  forall b, is_byte b -> rd T b = Ok (f b).
Proof.
  intros H b Hb. rewrite List.forallb_forall in H. specialize (H (Z.to_nat b)).
  unfold is_byte in Hb. rewrite List.in_seq, Z2Nat.id in H by lia.
  destruct (rd T b); [|specialize (H ltac:(lia)); done].
  specialize (H ltac:(lia)). b2p. by subst.
Qed.

Lemma remaining_at b : is_byte b ->
  rd remaining_bytes_tbl b = Ok (if b <? 0xc2 then 0 else if b <? 0xe0 then 1
    else if b <? 0xf0 then 2 else if b <? 0xf5 then 3 else 0).
Proof.
  apply (table_at remaining_bytes_tbl (fun b => if b <? 0xc2 then 0 else if b <? 0xe0 then 1
    else if b <? 0xf0 then 2 else if b <? 0xf5 then 3 else 0)). by vm_compute.
Qed.

Lemma min_2nd_at b : is_byte b ->
  rd valid_min_2nd_byte b = Ok (if b <? 0xc2 then 0 else if b =? 0xe0 then 0xa0
    else if b =? 0xf0 then 0x90 else if b <? 0xf5 then 0x80 else 0).
Proof.
  apply (table_at valid_min_2nd_byte (fun b => if b <? 0xc2 then 0 else if b =? 0xe0 then 0xa0
    else if b =? 0xf0 then 0x90 else if b <? 0xf5 then 0x80 else 0)). by vm_compute.
Qed.

Lemma max_2nd_at b : is_byte b ->
  rd valid_max_2nd_byte b = Ok (if b <? 0xc2 then 0 else if b =? 0xed then 0x9f
    else if b =? 0xf4 then 0x8f else if b <? 0xf5 then 0xbf else 0).
Proof.
  apply (table_at valid_max_2nd_byte (fun b => if b <? 0xc2 then 0 else if b =? 0xed then 0x9f
    else if b =? 0xf4 then 0x8f else if b <? 0xf5 then 0xbf else 0)). by vm_compute.
Qed.

(** The legal second bytes after a lead byte (table 3-6 of the standard). *)
Definition second_ok (b0 b1 : Z) : Prop :=
  0x80 <= b1 <= 0xbf /\ (b0 = 0xe0 -> 0xa0 <= b1) /\ (b0 = 0xed -> b1 <= 0x9f) /\
  (b0 = 0xf0 -> 0x90 <= b1) /\ (b0 = 0xf4 -> b1 <= 0x8f).

Lemma bad_byte_2nd b0 b1 : 0xc2 <= b0 < 0xf5 ->
  exists b, bad_byte b0 b1 = Ok b /\ (b = false <-> second_ok b0 b1).
Proof.
  intros H0. unfold bad_byte. rewrite (proj2 (Z.eqb_neq b0 0)) by lia. cbn [negb].
  rewrite min_2nd_at, max_2nd_at by (unfold is_byte; lia). run.
  eexists. split; [done|]. rewrite orb_false_iff, !Z.ltb_ge. unfold second_ok.
  rewrite (proj2 (Z.ltb_ge b0 0xc2)), (proj2 (Z.ltb_lt b0 0xf5)) by lia.
  repeat step_if; b2p; lia.
Qed.

Lemma bad_byte_rest b : bad_byte 0 b = Ok ((b <? 0x80) || (0xbf <? b)).
Proof. done. Qed.

(** Reading behind a prefix. *)
Lemma rd_app pre l i k : 0 <= k -> i = zlen pre + k -> rd (pre ++ l) i = rd l k.
Proof.
  intros Hk ->. unfold rd. rewrite (proj2 (Z.ltb_ge _ 0)), (proj2 (Z.ltb_ge k 0)) by lia.
  rewrite lookup_app_r by lia. do 2 f_equal. replace (_ - _)%nat with (Z.to_nat k) by lia. done.
Qed.

Lemma merge hi lo : 0 <= hi < 2 ^ 26 ->
  Z.lor (u32 (Z.shiftl hi UCONV_U8_BIT_SHIFT)) (Z.land lo UCONV_U8_BIT_MASK)
  = hi * 64 + lo `mod` 64.
Proof.
  intros H. unfold UCONV_U8_BIT_SHIFT, UCONV_U8_BIT_MASK.
  change 0x3f with (Z.ones 6). rewrite Z.land_ones by lia.
  rewrite wrap_small by (rewrite Z.shiftl_mul_pow2 by lia; lia).
  rewrite lor_shiftl_add by (try apply Z.mod_pos_bound; lia). done.
Qed.

(** One continuation byte. *)
Lemma get_rest_step r s n i fb hi lo b :
  i < n -> rd s i = Ok lo -> bad_byte fb lo = Ok b -> 0 <= hi < 2 ^ 26 ->
  get_rest (S r) s n i fb hi
  = if b then Ok (inl EILSEQ) else get_rest r s n (i + 1) 0 (hi * 64 + lo `mod` 64).
Proof.
  intros Hi Hr Hb Hh. cbn [get_rest]. rewrite (proj2 (Z.leb_gt n i)), Hr by lia. run.
  rewrite Hb. run. rewrite merge by done. done.
Qed.

Lemma get_rest_end r s n i fb hi : n <= i -> get_rest (S r) s n i fb hi = Ok (inl EINVAL).
Proof. intros. cbn [get_rest]. rewrite (proj2 (Z.leb_le n i)) by lia. done. Qed.

(** The lead byte of a multibyte character. *)
Lemma get_u8_lead s n i b r :
  rd s i = Ok b -> 0x80 <= b < 256 ->
  r = (if b <? 0xc2 then 0 else if b <? 0xe0 then 1
       else if b <? 0xf0 then 2 else if b <? 0xf5 then 3 else 0) ->
  get_u8 s n i = if r =? 0 then Ok (inl EILSEQ)
                 else get_rest (Z.to_nat r) s n (i + 1) b (b `mod` 2 ^ (6 - r)).
Proof.
  intros Hb Hr ->. unfold get_u8. rewrite Hb. run. unfold UCONV_ASCII_MAX.
  rewrite (proj2 (Z.ltb_lt _ b)), remaining_at by (unfold is_byte; lia). run.
  assert (forall m k, 0 <= k -> m = Z.ones k -> Z.land b m = b `mod` 2 ^ k) as Hm
    by (intros m k ? ->; by apply Z.land_ones).
  repeat step_if; try done;
    match goal with |- context [rd masks_tbl ?r] =>
      let v := eval vm_compute in (rd masks_tbl r) in change (rd masks_tbl r) with v end; run.
  - by rewrite (Hm _ 5).
  - by rewrite (Hm _ 4).
  - by rewrite (Hm _ 3).
Qed.

(** Bytes that pass the checks are the encoding of the scalar they denote. *)
Lemma enc8_two b0 b1 c : 0xc2 <= b0 < 0xe0 -> 0x80 <= b1 <= 0xbf ->
  c = (b0 `mod` 32) * 64 + b1 `mod` 64 -> scalar c /\ enc8 c = [b0; b1].
Proof.
  intros H0 H1 Hc. assert (c = (b0 - 0xc0) * 64 + (b1 - 0x80)) as -> by dlia. clear Hc.
  split; [unfold scalar; lia|]. unfold enc8.
  rewrite (proj2 (Z.ltb_ge _ 0x80)), (proj2 (Z.ltb_lt _ 0x800)) by lia.
  repeat f_equal; dlia.
Qed.

Lemma enc8_three b0 b1 b2 c : 0xe0 <= b0 < 0xf0 -> second_ok b0 b1 -> 0x80 <= b2 <= 0xbf ->
  c = ((b0 `mod` 16) * 64 + b1 `mod` 64) * 64 + b2 `mod` 64 ->
  scalar c /\ enc8 c = [b0; b1; b2].
Proof.
  unfold second_ok. intros H0 H1 H2 Hc.
  assert (c = (b0 - 0xe0) * 4096 + (b1 - 0x80) * 64 + (b2 - 0x80)) as -> by dlia. clear Hc.
  split; [unfold scalar; lia|]. unfold enc8.
  rewrite (proj2 (Z.ltb_ge _ 0x80)), (proj2 (Z.ltb_ge _ 0x800)),
    (proj2 (Z.ltb_lt _ 0x10000)) by lia.
  repeat f_equal; dlia.
Qed.

Lemma enc8_four b0 b1 b2 b3 c : 0xf0 <= b0 < 0xf5 -> second_ok b0 b1 -> 0x80 <= b2 <= 0xbf ->
  0x80 <= b3 <= 0xbf ->
  c = (((b0 `mod` 8) * 64 + b1 `mod` 64) * 64 + b2 `mod` 64) * 64 + b3 `mod` 64 ->
  scalar c /\ enc8 c = [b0; b1; b2; b3].
Proof.
  unfold second_ok. intros H0 H1 H2 H3 Hc.
  assert (c = (b0 - 0xf0) * 262144 + (b1 - 0x80) * 4096 + (b2 - 0x80) * 64 + (b3 - 0x80))
    as -> by dlia. clear Hc.
  split; [unfold scalar; lia|]. unfold enc8.
  rewrite (proj2 (Z.ltb_ge _ 0x80)), (proj2 (Z.ltb_ge _ 0x800)),
    (proj2 (Z.ltb_ge _ 0x10000)) by lia.
  repeat f_equal; dlia.
Qed.

Definition cont_ok (fb b : Z) : Prop :=
  if fb =? 0 then 0x80 <= b <= 0xbf else second_ok fb b.

Lemma bad_byte_cont fb b : fb = 0 \/ 0xc2 <= fb < 0xf5 ->
  exists x, bad_byte fb b = Ok x /\ (x = false <-> cont_ok fb b).
Proof.
  unfold cont_ok. intros [->|H].
  - rewrite bad_byte_rest. eexists. split; [done|]. cbn. rewrite orb_false_iff, !Z.ltb_ge. lia.
  - rewrite (proj2 (Z.eqb_neq fb 0)) by lia. by apply bad_byte_2nd.
Qed.

(** A legal continuation byte is taken. *)
Lemma get_rest_ok r pre b rest n i fb hi :
  i = zlen pre -> i < n -> fb = 0 \/ 0xc2 <= fb < 0xf5 -> cont_ok fb b -> 0 <= hi < 2 ^ 26 ->
  get_rest (S r) (pre ++ b :: rest) n i fb hi
  = get_rest r ((pre ++ [b]) ++ rest) n (zlen (pre ++ [b])) 0 (hi * 64 + b `mod` 64).
Proof.
  intros -> Hi Hf Hb Hh. destruct (bad_byte_cont fb b Hf) as (x & Hx & Hxb).
  rewrite (proj2 Hxb Hb) in Hx.
  rewrite (get_rest_step r _ n (zlen pre) fb hi b false); try done.
  - rewrite <- app_assoc, length_app. cbn [app length]. f_equal. lia.
  - by rewrite (rd_app pre _ _ 0) by lia.
Qed.

(** A run of legal continuation bytes and the value it gives. *)
Fixpoint tail_ok (fb : Z) (bs : list Z) : Prop :=
  match bs with [] => True | b :: bs => cont_ok fb b /\ tail_ok 0 bs end.
Fixpoint value (hi : Z) (bs : list Z) : Z :=
  match bs with [] => hi | b :: bs => value (hi * 64 + b `mod` 64) bs end.

Lemma value_room hi b r : 0 <= hi < 2 ^ (32 - 6 * (r + 1)) -> 0 <= r <= 4 ->
  0 <= hi < 2 ^ 26 /\ 0 <= hi * 64 + b `mod` 64 < 2 ^ (32 - 6 * r).
Proof.
  intros Hh Hr. assert (0 <= b `mod` 64 < 64) by (apply Z.mod_pos_bound; lia).
  assert (2 ^ (32 - 6 * r) = 2 ^ (32 - 6 * (r + 1)) * 64) as ->
    by (change 64 with (2 ^ 6); rewrite <- Z.pow_add_r by lia; f_equal; lia).
  assert (2 ^ (32 - 6 * (r + 1)) <= 2 ^ 26) by (apply Z.pow_le_mono_r; lia). lia.
Qed.

Lemma get_tail_ok bs : forall pre rest n i fb hi,
  i = zlen pre -> zlen (pre ++ bs) <= n -> fb = 0 \/ 0xc2 <= fb < 0xf5 -> tail_ok fb bs ->
  zlen bs <= 4 -> 0 <= hi < 2 ^ (32 - 6 * zlen bs) ->
  get_rest (length bs) (pre ++ bs ++ rest) n i fb hi = Ok (inr (value hi bs, zlen (pre ++ bs))).
Proof.
  induction bs as [|b bs IH]; intros pre rest n i fb hi -> Hn Hf Ht Hl Hh;
    [by rewrite app_nil_r|].
  destruct Ht as [Hb Ht]. cbn [length value app] in *. rewrite length_app in Hn. cbn [length] in Hn.
  destruct (value_room hi b (zlen bs)) as [H1 H2]; [by replace (zlen bs + 1) with (Z.of_nat (S (length bs))) by lia|lia|].
  rewrite get_rest_ok by (done || lia).
  rewrite IH; rewrite ?length_app; cbn [length]; try done; try lia.
  do 3 f_equal. lia.
Qed.

Lemma get_tail_total r : forall pre rest n i fb hi,
  i = zlen pre -> n <= zlen (pre ++ rest) -> zlen pre <= n -> fb = 0 \/ 0xc2 <= fb < 0xf5 ->
  Z.of_nat r <= 4 -> 0 <= hi < 2 ^ (32 - 6 * Z.of_nat r) ->
  (exists e, get_rest r (pre ++ rest) n i fb hi = Ok (inl e)) \/
  (exists bs rest', rest = bs ++ rest' /\ length bs = r /\ tail_ok fb bs /\ zlen (pre ++ bs) <= n /\
     get_rest r (pre ++ rest) n i fb hi = Ok (inr (value hi bs, zlen (pre ++ bs)))).
Proof.
  induction r as [|r IH]; intros pre rest n i fb hi -> Hn Hp Hf Hr Hh.
  { right. exists [], rest. rewrite app_nil_r. by cbn. }
  destruct (decide (zlen pre < n)) as [Hi|Hi]; [|left; eexists; apply get_rest_end; lia].
  rewrite length_app in Hn. destruct rest as [|b rest]; [cbn in Hn; lia|].
  destruct (value_room hi b (Z.of_nat r)) as [H1 H2];
    [by replace (Z.of_nat r + 1) with (Z.of_nat (S r)) by lia|lia|].
  destruct (bad_byte_cont fb b Hf) as ([] & Hx & Hxb).
  { left. eexists. rewrite (get_rest_step r _ n (zlen pre) fb hi b true); try done.
    by rewrite (rd_app pre _ _ 0) by lia. }
  apply proj1 in Hxb. specialize (Hxb eq_refl).
  rewrite get_rest_ok by done.
  destruct (IH (pre ++ [b]) rest n _ 0 (hi * 64 + b `mod` 64) eq_refl) as [?|(bs & rest' & -> & Hl & Ht & Hle & ->)];
    rewrite ?length_app in *; cbn [length] in *; try lia; try done; [by left|].
  right. exists (b :: bs), rest'. cbn [length app value tail_ok]. rewrite !length_app. cbn [length].
  split_and!; try done; try lia. do 4 f_equal. lia.
Qed.

(** Bytes that pass the checks are the encoding of the scalar they denote, and
    every encoding passes them. *)
Definition lead (b0 : Z) : nat :=
  if b0 <? 0xc2 then 0 else if b0 <? 0xe0 then 1
  else if b0 <? 0xf0 then 2 else if b0 <? 0xf5 then 3 else 0.

Lemma list_one (l : list Z) : length l = 1%nat -> exists a, l = [a].
Proof. destruct l as [|? [|]]; try done. eauto. Qed.
Lemma list_two (l : list Z) : length l = 2%nat -> exists a b, l = [a; b].
Proof. destruct l as [|? [|? [|]]]; try done. eauto. Qed.
Lemma list_three (l : list Z) : length l = 3%nat -> exists a b c, l = [a; b; c].
Proof. destruct l as [|? [|? [|? [|]]]]; try done. eauto. Qed.

Lemma checked_enc8 b0 bs : is_byte b0 -> length bs = lead b0 -> bs <> [] -> tail_ok b0 bs ->
  scalar (value (b0 `mod` 2 ^ (6 - zlen bs)) bs) /\
  enc8 (value (b0 `mod` 2 ^ (6 - zlen bs)) bs) = b0 :: bs.
Proof.
  unfold is_byte, lead. intros H0 Hl Hne Ht. rewrite Hl.
  repeat step_if_in Hl; b2p; try (by destruct bs).
  - destruct (list_one _ Hl) as [b1 ->]. cbn [tail_ok value] in *. unfold cont_ok in Ht.
    rewrite (proj2 (Z.eqb_neq b0 0)) in Ht by lia. apply enc8_two; unfold second_ok in *; naive_solver lia.
  - destruct (list_two _ Hl) as (b1 & b2 & ->). cbn [tail_ok value] in *. unfold cont_ok in Ht.
    rewrite (proj2 (Z.eqb_neq b0 0)) in Ht by lia. apply enc8_three; naive_solver lia.
  - destruct (list_three _ Hl) as (b1 & b2 & b3 & ->). cbn [tail_ok value] in *. unfold cont_ok in Ht.
    rewrite (proj2 (Z.eqb_neq b0 0)) in Ht by lia. apply enc8_four; naive_solver lia.
Qed.

Lemma enc8_checked c : scalar c -> 0x80 <= c ->
  exists b0 bs, enc8 c = b0 :: bs /\ 0xc2 <= b0 < 0xf5 /\ length bs = lead b0 /\ bs <> [] /\
    tail_ok b0 bs /\ value (b0 `mod` 2 ^ (6 - zlen bs)) bs = c.
Proof.
  unfold scalar, enc8, lead. intros [Hc Hs] Hm. rewrite (proj2 (Z.ltb_ge c 0x80)) by lia.
  destruct (c <? 0x800) eqn:E1; b2p; [|destruct (c <? 0x10000) eqn:E2; b2p];
    eexists _, _; split_and!; try reflexivity; try dlia; try done;
    repeat match goal with
    | |- context [?a <? ?b] => first [rewrite (proj2 (Z.ltb_lt a b)) by dlia
                                    | rewrite (proj2 (Z.ltb_ge a b)) by dlia]
    end; try done; cbn [tail_ok value length]; unfold cont_ok;
    try rewrite (proj2 (Z.eqb_neq _ 0)) by dlia; unfold second_ok; cbn [Z.eqb];
    change (2 ^ (6 - Z.of_nat 1)) with 32; change (2 ^ (6 - Z.of_nat 2)) with 16;
    change (2 ^ (6 - Z.of_nat 3)) with 8; split_and?; dlia.
Qed.

Lemma get_u8_ascii pre b rest n : 0 <= b < 0x80 ->
  get_u8 (pre ++ b :: rest) n (zlen pre) = Ok (inr (b, zlen (pre ++ enc8 b))).
Proof.
  intros Hb. unfold get_u8, enc8. rewrite (rd_app pre _ _ 0) by lia.
  change (rd (b :: rest) 0) with (Ok b). run. unfold UCONV_ASCII_MAX.
  rewrite (proj2 (Z.ltb_ge _ b)), (proj2 (Z.ltb_lt b 0x80)), length_app by lia.
  cbn [length]. do 3 f_equal. lia.
Qed.

Lemma get_u8_multi pre b rest n : 0x80 <= b < 256 ->
  get_u8 (pre ++ b :: rest) n (zlen pre)
  = if decide (lead b = 0%nat) then Ok (inl EILSEQ)
    else get_rest (lead b) ((pre ++ [b]) ++ rest) n (zlen (pre ++ [b])) b
           (b `mod` 2 ^ (6 - Z.of_nat (lead b))).
Proof.
  intros Hb. rewrite (get_u8_lead _ n _ b (Z.of_nat (lead b)));
    [|by rewrite (rd_app pre _ _ 0) by lia|done|unfold lead; repeat step_if; done].
  rewrite Nat2Z.id, <- app_assoc, length_app. cbn [app length].
  replace (Z.of_nat (length pre + 1)) with (zlen pre + 1) by lia.
  destruct (decide (lead b = 0%nat)) as [->|?]; [done|].
  rewrite (proj2 (Z.eqb_neq _ 0)) by lia. done.
Qed.

Lemma lead_range b : lead b <> 0%nat -> 0xc2 <= b < 0xf5 /\ (lead b <= 3)%nat.
Proof. unfold lead. repeat step_if; b2p; lia. Qed.

Lemma lead_room b k : 1 <= k <= 3 -> 0 <= b `mod` 2 ^ (6 - k) < 2 ^ (32 - 6 * k).
Proof.
  intros Hk. assert (0 <= b `mod` 2 ^ (6 - k) < 2 ^ (6 - k)) by (apply Z.mod_pos_bound; lia).
  assert (2 ^ (6 - k) <= 2 ^ (32 - 6 * k)) by (apply Z.pow_le_mono_r; lia). lia.
Qed.

(** Fetching from a valid position: an error, or the one scalar whose encoding
    stands there. *)
Lemma get_u8_total pre rest n :
  Forall is_byte rest -> zlen pre < n -> n <= zlen (pre ++ rest) ->
  (exists e, get_u8 (pre ++ rest) n (zlen pre) = Ok (inl e)) \/
  (exists c rest', scalar c /\ rest = enc8 c ++ rest' /\ zlen (pre ++ enc8 c) <= n /\
     get_u8 (pre ++ rest) n (zlen pre) = Ok (inr (c, zlen (pre ++ enc8 c)))).
Proof.
  intros Hb Hp Hn. destruct rest as [|b rest]; [rewrite app_nil_r in Hn; lia|].
  assert (is_byte b) as H0 by (by inversion Hb). unfold is_byte in H0.
  destruct (decide (b < 0x80)) as [Ha|Ha].
  { right. exists b, rest. rewrite get_u8_ascii by lia. unfold enc8.
    rewrite (proj2 (Z.ltb_lt b 0x80)), length_app by lia. cbn [length].
    split_and!; try done; unfold scalar; lia. }
  rewrite get_u8_multi by lia. destruct (decide _) as [?|Hl]; [left; eauto|].
  destruct (lead_range b Hl) as [Hr Hl3].
  destruct (get_tail_total (lead b) (pre ++ [b]) rest n _ b
    (b `mod` 2 ^ (6 - Z.of_nat (lead b))) eq_refl) as [?|(bs & rest' & -> & Hbs & Ht & Hle & ->)];
    try lia; [by rewrite <- app_assoc|rewrite length_app; cbn; lia|apply lead_room; lia|by left|].
  destruct (checked_enc8 b bs) as [Hs He]; [done|done|by intros ->|done|].
  rewrite <- Hbs in *. right. eexists _, rest'. rewrite He.
  rewrite <- app_assoc in Hle |- *. done.
Qed.

Lemma get_u8_enc pre c rest n :
  scalar c -> zlen (pre ++ enc8 c) <= n ->
  get_u8 (pre ++ enc8 c ++ rest) n (zlen pre) = Ok (inr (c, zlen (pre ++ enc8 c))).
Proof.
  intros Hs Hn. destruct (decide (c < 0x80)) as [Ha|Ha].
  { unfold enc8 at 1. rewrite (proj2 (Z.ltb_lt c 0x80)) by lia.
    apply get_u8_ascii. unfold scalar in Hs. lia. }
  destruct (enc8_checked c Hs ltac:(lia)) as (b & bs & He & Hb & Hl & Hne & Ht & Hv).
  rewrite He in *. cbn [app]. rewrite get_u8_multi by lia.
  rewrite decide_False by (rewrite <- Hl; by destruct bs).
  assert (1 <= zlen bs) by (destruct bs; [done|cbn; lia]).
  assert (lead b <= 3)%nat by (unfold lead; repeat step_if; lia).
  rewrite <- Hl in *. rewrite get_tail_ok; try done; try lia.
  - rewrite Hv, <- app_assoc. done.
  - by rewrite <- app_assoc.
  - apply lead_room. lia.
Qed.

Lemma get_rest_err r : forall s n i fb hi e, get_rest r s n i fb hi = Ok (inl e) -> e <> EBADF.
Proof.
  induction r as [|r IH]; intros s n i fb hi e H; cbn [get_rest] in H; [done|].
  step_if_in H; [by injection H as <-|]. inv_bind H. step_if_in H; [by injection H as <-|]. eauto.
Qed.

Lemma get_u8_err s n i e : get_u8 s n i = Ok (inl e) -> e <> EBADF.
Proof.
  unfold get_u8. intros H. inv_bind H. step_if_in H; [|done]. inv_bind H.
  step_if_in H; [by injection H as <-|]. inv_bind H. by apply get_rest_err in H.
Qed.

(** ** Fetching a UTF-16 character *)

Lemma BSWAP_16_invol w : 0 <= w < 2 ^ 16 -> BSWAP_16 (BSWAP_16 w) = w.
Proof.
  intros Hw. rewrite (proj1 (BSWAP_16_eq (BSWAP_16 w))), !(proj1 (BSWAP_16_eq w)). dlia.
Qed.

Lemma BSWAP_32_invol w : 0 <= w < 2 ^ 32 -> BSWAP_32 (BSWAP_32 w) = w.
Proof.
  intros Hw. rewrite (proj1 (BSWAP_32_eq (BSWAP_32 w))), !(proj1 (BSWAP_32_eq w)).
  destruct (BSWAP_16_eq w) as [E1 H1], (BSWAP_16_eq (w / 65536)) as [E2 H2].
  replace ((BSWAP_16 w * 65536 + BSWAP_16 (w / 65536)) / 65536) with (BSWAP_16 w) by dlia.
  rewrite (proj1 (BSWAP_16_eq (_ + _))), (proj1 (BSWAP_16_eq (BSWAP_16 w))), E1, E2. dlia.
Qed.

Lemma order_range k nat w : 0 <= w < unit_max k -> 0 <= order k nat w < unit_max k.
Proof.
  unfold order, unit_max. destruct k, nat; try lia; intros _;
    [apply BSWAP_16_eq|apply BSWAP_32_eq].
Qed.

Lemma order_invol k nat w : 0 <= w < unit_max k -> order k nat (order k nat w) = w.
Proof.
  unfold order, unit_max. destruct k, nat; try done;
    [apply BSWAP_16_invol|apply BSWAP_32_invol].
Qed.

Lemma order_zero k nat w : 0 <= w < unit_max k -> order k nat w = 0 -> w = 0.
Proof.
  intros Hw H. rewrite <- (order_invol k nat w Hw), H. by destruct k, nat.
Qed.

Definition high (h : Z) : Prop := 0xd800 <= h <= 0xdbff.

Lemma pair_value h w : high h -> 0xdc00 <= w <= 0xdfff ->
  Z.land ((h - 0xd800) * 0x400 + w - 0xdc00) 0xfffff + 0x10000
  = (h - 0xd800) * 0x400 + (w - 0xdc00) + 0x10000.
Proof.
  unfold high. intros Hh Hw. change 0xfffff with (Z.ones 20). rewrite Z.land_ones by lia.
  rewrite Z.mod_small by lia. lia.
Qed.

(** What stands in memory of a character whose high half is pending. *)
Definition pending (h : Z) : list Z := if h =? 0 then [] else [h].

Lemma join_total h w : h = 0 \/ high h -> 0 <= w < 2 ^ 16 ->
  join h w = Bad \/ (h = 0 /\ high w /\ join h w = Half w) \/
  (exists c, scalar c /\ enc16 c = pending h ++ [w] /\ join h w = Char c).
Proof.
  unfold join, pending. intros Hh Hw.
  unfold UCONV_U16_HI_MIN, UCONV_U16_HI_MAX, UCONV_U16_LO_MIN, UCONV_U16_LO_MAX,
    UCONV_U16_BIT_SHIFT, UCONV_U16_BIT_MASK, UCONV_U16_START.
  destruct (h =? 0) eqn:E0; cbn [negb app]; b2p; repeat step_if; b2p; try (by left); right.
  - left. unfold high. by split_and!.
  - right. exists w. split_and!; [|unfold enc16; rewrite (proj2 (Z.ltb_lt w _)) by lia; done|done].
    apply andb_false_iff in E, E1. rewrite !Z.leb_gt in *. unfold scalar. lia.
  - right. destruct Hh as [?|Hh]; [done|]. eexists. split_and!; [| |done].
    + rewrite pair_value by done. unfold scalar, high in *. lia.
    + rewrite pair_value by done. unfold enc16, high in *. rewrite (proj2 (Z.ltb_ge _ _)) by lia.
      repeat f_equal; dlia.
Qed.

Lemma enc16_join c : scalar c ->
  (enc16 c = [c] /\ join 0 c = Char c) \/
  (exists h w, enc16 c = [h; w] /\ high h /\ 0xdc00 <= w <= 0xdfff /\
     join 0 h = Half h /\ join h w = Char c).
Proof.
  unfold scalar, enc16, join. intros [Hc Hs].
  unfold UCONV_U16_HI_MIN, UCONV_U16_HI_MAX, UCONV_U16_LO_MIN, UCONV_U16_LO_MAX,
    UCONV_U16_BIT_SHIFT, UCONV_U16_BIT_MASK, UCONV_U16_START.
  destruct (c <? 0x10000) eqn:E; b2p.
  - left. split; [done|]. repeat step_if; b2p; try done; lia.
  - right. eexists _, _. split; [done|].
    set (h := 0xd800 + _). set (w := 0xdc00 + _).
    assert (high h) as Hh by (unfold high, h; dlia).
    assert (0xdc00 <= w <= 0xdfff) as Hw by (unfold w; dlia).
    split_and!; try done; try lia; unfold high in Hh.
    + rewrite (proj2 (Z.leb_le _ h)), (proj2 (Z.leb_le h _)) by lia. done.
    + rewrite (proj2 (Z.leb_gt w 0xdbff)), andb_false_r by lia.
      rewrite (proj2 (Z.leb_le _ w)), (proj2 (Z.leb_le w _)), (proj2 (Z.eqb_neq h 0)) by lia.
      cbn [andb]. rewrite pair_value by done. f_equal. unfold h, w. dlia.
Qed.

Lemma enc16_units c : 0 <= c <= 0x10ffff -> Forall (fun w => 0 <= w < 2 ^ 16) (enc16 c).
Proof. intros. unfold enc16. step_if; b2p; repeat constructor; dlia. Qed.

(** ** The loops transcode *)

(** Characters each form can carry: the UTF-32 routines do not reject
    surrogates in their input. *)
Definition valid (k : utf) (c : Z) : Prop :=
  match k with U32 => 0 <= c <= 0x10ffff | _ => scalar c end.

Lemma valid_range k c : valid k c -> 0 <= c <= 0x10ffff.
Proof. destruct k; [intros []..|]; done. Qed.

Section transcode.
Context (put : list Z -> Z -> Z -> Z -> outcome (errno + list Z * Z)) (e : Z -> list Z) `{!Put put e}.
Context (s : list Z) (n l : Z) (dn nat : bool) (d0 out0 pre0 : list Z).
Hypothesis Hn : n <= zlen s.
Hypothesis Hl : l <= zlen d0.

(** The characters [cs] have been read behind [pre0] and stored behind [out0]. *)
Definition moved (k : utf) (cs : list Z) : Prop :=
  Forall (valid k) cs /\ (dn = true -> Forall (fun c => c <> 0) cs) /\
  zlen (out0 ++ flat_map e cs) <= l.

Definition stops (rest : list Z) (i : Z) : Prop :=
  i = n \/ (dn = true /\ exists rest', rest = 0 :: rest').

Definition post (k : utf) (x : exit) : Prop :=
  match x with
  | Stop err d => err <> EBADF /\ exists cs, moved k cs /\ d = filled d0 (out0 ++ flat_map e cs)
  | Finish i o d => exists cs rest, moved k cs /\
      s = pre0 ++ text k nat cs ++ rest /\ i = zlen (pre0 ++ text k nat cs) /\ i <= n /\
      stops rest i /\ o = zlen (out0 ++ flat_map e cs) /\ d = filled d0 (out0 ++ flat_map e cs)
  end.

Lemma moved_snoc k cs c : moved k cs -> valid k c -> (dn = true -> c <> 0) ->
  zlen ((out0 ++ flat_map e cs) ++ e c) <= l -> moved k (cs ++ [c]).
Proof.
  intros (H1 & H2 & H3) Hc Hz Hle. unfold moved. rewrite flat_map_app. cbn [flat_map].
  rewrite app_nil_r, app_assoc. split_and!; [|intros Hd|done]; apply List.Forall_app; split; auto.
Qed.

(** Storing the next character after [cs]. *)
Lemma put_next k cs c : moved k cs -> valid k c -> (dn = true -> c <> 0) ->
  put (filled d0 (out0 ++ flat_map e cs)) l (zlen (out0 ++ flat_map e cs)) c = Ok (inl E2BIG) \/
  (moved k (cs ++ [c]) /\
   put (filled d0 (out0 ++ flat_map e cs)) l (zlen (out0 ++ flat_map e cs)) c
   = Ok (inr (filled d0 (out0 ++ flat_map e (cs ++ [c])), zlen (out0 ++ flat_map e (cs ++ [c]))))).
Proof.
  intros Hm Hc Hz. pose proof Hm as (_ & _ & H3).
  rewrite put_char by (try done; eapply valid_range, Hc).
  step_if; b2p; [right|by left]. split; [by apply moved_snoc|].
  rewrite flat_map_app. cbn [flat_map]. rewrite app_nil_r, app_assoc. done.
Qed.

Lemma text_snoc k cs c : text k nat (cs ++ [c]) = text k nat cs ++ enc k nat c.
Proof. unfold text. rewrite flat_map_app. cbn [flat_map]. by rewrite app_nil_r. Qed.

Lemma head_at pre rest i : s = pre ++ rest -> i = zlen pre -> i < n ->
  exists w rest', rest = w :: rest' /\ rd s i = Ok w.
Proof.
  intros -> -> Hi. rewrite length_app in Hn. destruct rest as [|w rest]; [cbn in Hn; lia|].
  exists w, rest. split; [done|]. by rewrite (rd_app pre _ _ 0) by lia.
Qed.

(** The state between two characters. *)
Definition between (k : utf) (i o : Z) (d : list Z) : Prop :=
  exists cs rest, moved k cs /\ s = pre0 ++ text k nat cs ++ rest /\
    i = zlen (pre0 ++ text k nat cs) /\ i <= n /\ o = zlen (out0 ++ flat_map e cs) /\
    d = filled d0 (out0 ++ flat_map e cs).

Lemma between_post k i o d cs rest : moved k cs -> s = pre0 ++ text k nat cs ++ rest ->
  i = zlen (pre0 ++ text k nat cs) -> i <= n -> stops rest i ->
  o = zlen (out0 ++ flat_map e cs) -> d = filled d0 (out0 ++ flat_map e cs) ->
  post k (Finish i o d).
Proof. intros. exists cs, rest. done. Qed.

Lemma loop_u8 :
  Forall is_byte s ->
  forall fuel i o d, between U8 i o d -> (Z.to_nat (n - i) < fuel)%nat ->
  exists x, iter fuel (body_u8 put s n l dn) (i, o, d) = Ok x /\ post U8 x.
Proof.
  intros Hs fuel i o d Hb Hf.
  apply (iter_total (fun '(i, o, d) => between U8 i o d) (post U8)
           (fun '(i, o, d) => Z.to_nat (n - i))); [clear i o d Hb Hf fuel|done|done].
  intros [[i o] d] (cs & rest & Hm & Es & Ei & Hi & Eo & Ed). cbn [body_u8].
  destruct (n <=? i) eqn:E; b2p; [apply (between_post U8 i o d cs rest); try done; left; lia|].
  rewrite app_assoc in Es. destruct (head_at _ rest i Es Ei E) as (w & rest' & -> & Hw).
  rewrite Hw. run. destruct ((w =? 0) && dn) eqn:Ez.
  { b2p. apply (between_post U8 i o d cs (w :: rest')); try done; [by rewrite Es, app_assoc|].
    right. split; [done|]. subst w. eauto. }
  assert (Forall is_byte (w :: rest')) as Hr by (rewrite Es in Hs; by apply List.Forall_app, proj2 in Hs).
  subst i. destruct (get_u8_total (pre0 ++ text U8 nat cs) (w :: rest') n Hr E)
    as [[er Hg]|(c & r2 & Hc & Er & Hle & Hg)]; [by rewrite <- Es|..]; rewrite <- Es in Hg; rewrite Hg; run.
  { split; [|eauto]. intros ->. by apply get_u8_err in Hg. }
  assert (dn = true -> c <> 0) as Hz.
  { intros -> ->. unfold enc8 in Er. cbn in Er. injection Er as -> ->. done. }
  rewrite Ed, Eo. destruct (put_next U8 cs c Hm Hc Hz) as [->|[Hm' ->]]; run.
  { split; [done|eauto]. }
  split.
  - exists (cs ++ [c]), r2. rewrite text_snoc. cbn [enc].
    split_and!; try done; rewrite ?app_assoc in *; try done. by rewrite Es, Er, !app_assoc.
  - pose proof (enc8_len c). rewrite !length_app in *. lia.
Qed.

Lemma loop_u32 :
  Forall is_u32 s ->
  (forall d o c, 0x10ffff < c -> put d l o c = Ok (inl EILSEQ)) ->
  forall fuel i o d, between U32 i o d -> (Z.to_nat (n - i) < fuel)%nat ->
  exists x, iter fuel (body_u32 put s n l dn nat) (i, o, d) = Ok x /\ post U32 x.
Proof.
  intros Hs Hhigh fuel i o d Hb Hf.
  apply (iter_total (fun '(i, o, d) => between U32 i o d) (post U32)
           (fun '(i, o, d) => Z.to_nat (n - i))); [clear i o d Hb Hf fuel|done|done].
  intros [[i o] d] (cs & rest & Hm & Es & Ei & Hi & Eo & Ed). cbn [body_u32].
  destruct (n <=? i) eqn:E; b2p; [apply (between_post U32 i o d cs rest); try done; left; lia|].
  rewrite app_assoc in Es. destruct (head_at _ rest i Es Ei E) as (w & rest' & -> & Hw).
  rewrite Hw. run. destruct ((w =? 0) && dn) eqn:Ez.
  { b2p. apply (between_post U32 i o d cs (w :: rest')); try done; [by rewrite Es, app_assoc|].
    right. split; [done|]. subst w. eauto. }
  assert (is_u32 w) as Hwr
    by (rewrite Es in Hs; apply List.Forall_app, proj2 in Hs; by inversion Hs).
  change (if nat then w else BSWAP_32 w) with (order U32 nat w).
  pose proof (order_range U32 nat w Hwr) as Hor. set (c := order U32 nat w) in *.
  destruct (decide (0x10ffff < c)) as [Hbig|Hsm].
  { rewrite Hhigh by done. run. split; [done|]. eauto. }
  assert (valid U32 c) as Hc by (unfold valid; lia).
  assert (dn = true -> c <> 0) as Hz.
  { intros -> Hc0. apply (order_zero U32 nat w Hwr) in Hc0. by subst w. }
  rewrite Ed, Eo. destruct (put_next U32 cs c Hm Hc Hz) as [->|[Hm' ->]]; run; [by split; [done|eauto]|].
  split.
  - exists (cs ++ [c]), rest'. rewrite text_snoc. cbn [enc]. unfold c at 2 4.
    rewrite (order_invol U32 nat w Hwr). rewrite Ei, !length_app in *. cbn [length].
    split_and!; try done; try lia. by rewrite Es, <- !app_assoc.
  - lia.
Qed.

(** Between two units: a high half may have been read. *)
Definition between16 (i o h : Z) (d : list Z) : Prop :=
  (h = 0 \/ high h) /\
  exists cs rest, moved U16 cs /\
    s = (pre0 ++ text U16 nat cs ++ (order U16 nat <$> pending h)) ++ rest /\
    i = zlen (pre0 ++ text U16 nat cs ++ (order U16 nat <$> pending h)) /\ i <= n /\
    o = zlen (out0 ++ flat_map e cs) /\ d = filled d0 (out0 ++ flat_map e cs).

Lemma between16_post i o h d cs rest : moved U16 cs -> h = 0 \/ high h ->
  s = (pre0 ++ text U16 nat cs ++ (order U16 nat <$> pending h)) ++ rest ->
  i = zlen (pre0 ++ text U16 nat cs ++ (order U16 nat <$> pending h)) -> i <= n ->
  stops rest i -> o = zlen (out0 ++ flat_map e cs) -> d = filled d0 (out0 ++ flat_map e cs) ->
  post U16 (if negb (h =? 0) then Stop EINVAL d else Finish i o d).
Proof.
  intros Hm Hh Es Ei Hi Hst Eo Ed. unfold pending in *. destruct (h =? 0) eqn:E; cbn [negb].
  - change (order U16 nat <$> []) with (@nil Z) in *. rewrite app_nil_r in *.
    apply (between_post U16 i o d cs rest); try done. by rewrite app_assoc.
  - split; [done|eauto].
Qed.

Lemma loop_u16 :
  Forall (fun w => 0 <= w < 2 ^ 16) s ->
  forall fuel i o d, between16 i o 0 d -> (Z.to_nat (n - i) < fuel)%nat ->
  exists x, iter fuel (body_u16 put s n l dn nat) (i, o, 0, d) = Ok x /\ post U16 x.
Proof.
  intros Hs fuel i o d Hb Hf.
  apply (iter_total (fun '(i, o, h, d) => between16 i o h d) (post U16)
           (fun '(i, o, h, d) => Z.to_nat (n - i))); [clear i o d Hb Hf fuel|done|done].
  intros [[[i o] h] d] (Hh & cs & rest & Hm & Es & Ei & Hi & Eo & Ed). cbn [body_u16].
  destruct (n <=? i) eqn:E; b2p; [apply (between16_post i o h d cs rest); try done; left; lia|].
  destruct (head_at _ rest i Es Ei E) as (w & rest' & -> & Hw).
  rewrite Hw. run. destruct ((w =? 0) && dn) eqn:Ez.
  { b2p. apply (between16_post i o h d cs (w :: rest')); try done.
    right. split; [done|]. subst w. eauto. }
  assert (0 <= w < unit_max U16) as Hwr
    by (rewrite Es in Hs; apply List.Forall_app, proj2 in Hs; by inversion Hs).
  change (if nat then w else BSWAP_16 w) with (order U16 nat w).
  pose proof (order_range U16 nat w Hwr) as Hor. pose proof (order_invol U16 nat w Hwr) as Hinv.
  set (v := order U16 nat w) in *.
  destruct (join_total h v Hh Hor) as [->|[(-> & Hhv & ->)|(c & Hc & Hec & ->)]]; run.
  - split; [done|]. eauto.
  - split; [|lia]. split; [by right|]. exists cs, rest'.
    unfold pending in *. rewrite (proj2 (Z.eqb_neq v 0)) by (unfold high in Hhv; lia).
    cbn [Z.eqb fmap list_fmap] in *. rewrite Hinv. rewrite app_nil_r in Es, Ei.
    rewrite Ei, !length_app in *. cbn [length].
    split_and!; try done; try lia. by rewrite Es, <- !app_assoc.
  - assert (dn = true -> c <> 0) as Hz.
    { intros -> ->. unfold pending in Hec. destruct (h =? 0); [|done].
      change (enc16 0) with [0] in Hec. injection Hec as Hv. symmetry in Hv.
      apply (order_zero U16 nat w Hwr) in Hv. rewrite Hv in Ez. done. }
    rewrite Ed, Eo. destruct (put_next U16 cs c Hm Hc Hz) as [->|[Hm' ->]]; run; [by split; [done|eauto]|].
    split; [|lia]. split; [by left|]. exists (cs ++ [c]), rest'. rewrite text_snoc.
    cbn [enc]. rewrite Hec, fmap_app. cbn [fmap list_fmap]. rewrite Hinv.
    change (order U16 nat <$> pending 0) with (@nil Z). rewrite app_nil_r.
    rewrite Ei, !length_app in *. cbn [length] in *.
    split_and!; try done; try lia. by rewrite Es, <- !app_assoc.
Qed.

(** ** The loops accept every text that fits *)

Lemma put_fits out c : 0 <= c <= 0x10ffff -> zlen (out ++ e c) <= l ->
  put (filled d0 out) l (zlen out) c = Ok (inr (filled d0 (out ++ e c), zlen (out ++ e c))).
Proof.
  intros Hc Hle. rewrite put_char; [|done| |done].
  - by rewrite (proj2 (Z.leb_le _ l) Hle).
  - rewrite length_app in Hle. lia.
Qed.

Lemma stops_at pre rest i : s = pre ++ rest -> i = zlen pre -> stops rest i ->
  n <= i \/ (dn = true /\ rd s i = Ok 0).
Proof.
  intros -> -> [H|(Hd & r & ->)]; [left; lia|right]. split; [done|].
  by rewrite (rd_app pre _ _ 0) by lia.
Qed.

Lemma enc_cons k c : 0 <= c <= 0x10ffff -> c <> 0 ->
  exists w ws, enc k nat c = w :: ws /\ w <> 0.
Proof.
  clear Hn Hl. intros Hc Hz. destruct k; cbn [enc].
  - unfold enc8. repeat step_if; b2p; eexists _, _; (split; [done|]); dlia.
  - pose proof (enc16_units c Hc) as Hu. unfold enc16 in *.
    step_if; b2p; eexists _, _; (split; [done|]); inversion_clear Hu; intros Ez;
      apply order_zero in Ez; try done; dlia.
  - eexists _, _. split; [done|]. intros H0. apply order_zero in H0; [done|unfold unit_max; lia].
Qed.

(** The first unit of the next character, which does not end the text. *)
Lemma next_unit k pre c rest i : s = pre ++ enc k nat c ++ rest -> i = zlen pre ->
  zlen (pre ++ enc k nat c) <= n -> 0 <= c <= 0x10ffff -> (dn = true -> c <> 0) ->
  exists w, rd s i = Ok w /\ (w =? 0) && dn = false /\ i < n /\ head (enc k nat c) = Some w.
Proof.
  intros -> -> Hle Hc Hz. rewrite length_app in Hle.
  destruct (decide (c = 0)) as [->|Hne].
  - assert (dn = false) as Hdn by (destruct dn; [by destruct Hz|done]).
    destruct (enc k nat 0) as [|w ws] eqn:E0; [destruct k; [done|destruct nat; done|done]|].
    exists w. rewrite (rd_app pre _ _ 0) by lia. rewrite Hdn, andb_false_r. cbn [length] in Hle.
    split_and!; try done. lia.
  - destruct (enc_cons k c Hc Hne) as (w & ws & E0 & Hw). rewrite E0 in *. cbn [length] in Hle.
    exists w. rewrite (rd_app pre _ _ 0) by lia. rewrite (proj2 (Z.eqb_neq w 0)) by done.
    split_and!; try done. lia.
Qed.

Definition fits (k : utf) (pre out cs rest : list Z) : Prop :=
  s = pre ++ text k nat cs ++ rest /\ zlen (pre ++ text k nat cs) <= n /\
  stops rest (zlen (pre ++ text k nat cs)) /\ Forall (valid k) cs /\
  (dn = true -> Forall (fun c => c <> 0) cs) /\ zlen (out ++ flat_map e cs) <= l.

Definition finished (k : utf) (pre out cs : list Z) : exit :=
  Finish (zlen (pre ++ text k nat cs)) (zlen (out ++ flat_map e cs)) (filled d0 (out ++ flat_map e cs)).

Lemma fits_cons k pre out c cs rest : fits k pre out (c :: cs) rest ->
  valid k c /\ s = pre ++ enc k nat c ++ text k nat cs ++ rest /\
  zlen (pre ++ enc k nat c) <= n /\ zlen (out ++ e c) <= l /\ (dn = true -> c <> 0) /\
  fits k (pre ++ enc k nat c) (out ++ e c) cs rest.
Proof.
  intros (Es & Hle & Hst & Hv & Hz & Ho). unfold fits. cbn [text flat_map] in *.
  fold (text k nat cs) in *. rewrite <- ?app_assoc in *.
  apply List.Forall_cons_iff in Hv as [Hc Hv]. rewrite !length_app in *.
  split_and!; try done; try lia; intros Hd; specialize (Hz Hd);
    by apply List.Forall_cons_iff in Hz as [??].
Qed.

Lemma finished_cons k pre out c cs :
  finished k pre out (c :: cs) = finished k (pre ++ enc k nat c) (out ++ e c) cs.
Proof. unfold finished. cbn [text flat_map]. by rewrite <- !app_assoc. Qed.

Lemma run_u8 cs : forall fuel pre out rest, fits U8 pre out cs rest -> (length cs < fuel)%nat ->
  iter fuel (body_u8 put s n l dn) (zlen pre, zlen out, filled d0 out) = Ok (finished U8 pre out cs).
Proof.
  induction cs as [|c cs IH]; intros [|fuel] pre out rest Hf Hlt; try (cbn in Hlt; lia);
    rewrite iter_S; cbn [body_u8].
  - unfold finished. cbn [text flat_map]. destruct Hf as (Es & _ & Hst & _). cbn [text flat_map] in *.
    rewrite !app_nil_r in *.
    destruct (stops_at pre rest _ Es eq_refl Hst) as [H|[-> H]];
      [by rewrite (proj2 (Z.leb_le n _) H)|]. rewrite H. run. step_if; done.
  - destruct (fits_cons _ _ _ _ _ _ Hf) as (Hc & Es & Hle & Ho & Hz & Hf').
    destruct (next_unit U8 pre c _ _ Es eq_refl Hle (valid_range U8 c Hc) Hz) as (w & Hw & Hw0 & Hi & _).
    rewrite (proj2 (Z.leb_gt n _) Hi), Hw. run. rewrite Hw0.
    assert (get_u8 s n (zlen pre) = Ok (inr (c, zlen (pre ++ enc8 c)))) as ->
      by (rewrite Es; by apply get_u8_enc). run.
    rewrite put_fits by (try done; apply (valid_range U8 c Hc)). run.
    rewrite finished_cons. apply (IH _ _ _ rest Hf'). cbn in Hlt. lia.
Qed.

Lemma run_u32 cs : forall fuel pre out rest, fits U32 pre out cs rest -> (length cs < fuel)%nat ->
  iter fuel (body_u32 put s n l dn nat) (zlen pre, zlen out, filled d0 out)
  = Ok (finished U32 pre out cs).
Proof.
  induction cs as [|c cs IH]; intros [|fuel] pre out rest Hf Hlt; try (cbn in Hlt; lia);
    rewrite iter_S; cbn [body_u32].
  - unfold finished. cbn [text flat_map]. destruct Hf as (Es & _ & Hst & _). cbn [text flat_map] in *.
    rewrite !app_nil_r in *.
    destruct (stops_at pre rest _ Es eq_refl Hst) as [H|[-> H]];
      [by rewrite (proj2 (Z.leb_le n _) H)|]. rewrite H. run. step_if; done.
  - destruct (fits_cons _ _ _ _ _ _ Hf) as (Hc & Es & Hle & Ho & Hz & Hf').
    destruct (next_unit U32 pre c _ _ Es eq_refl Hle (valid_range U32 c Hc) Hz)
      as (w & Hw & Hw0 & Hi & Hhd).
    rewrite (proj2 (Z.leb_gt n _) Hi), Hw. run. rewrite Hw0.
    change (if nat then w else BSWAP_32 w) with (order U32 nat w).
    assert (w = order U32 nat c) as -> by (cbn [enc head] in Hhd; congruence).
    rewrite order_invol by (cbn in Hc; unfold unit_max; lia).
    rewrite put_fits by (try done; apply (valid_range U32 c Hc)). run.
    rewrite finished_cons, <- (IH fuel _ _ rest Hf') by (cbn in Hlt; lia).
    do 3 f_equal. rewrite length_app. cbn [enc length]. lia.
Qed.

Lemma run_u16 cs : forall fuel pre out rest, fits U16 pre out cs rest ->
  (length (text U16 nat cs) < fuel)%nat ->
  iter fuel (body_u16 put s n l dn nat) (zlen pre, zlen out, 0, filled d0 out)
  = Ok (finished U16 pre out cs).
Proof.
  induction cs as [|c cs IH]; intros [|fuel] pre out rest Hf Hlt; try (cbn in Hlt; lia);
    rewrite iter_S; cbn [body_u16].
  - unfold finished. cbn [text flat_map]. destruct Hf as (Es & _ & Hst & _). cbn [text flat_map] in *.
    rewrite !app_nil_r in *.
    destruct (stops_at pre rest _ Es eq_refl Hst) as [H|[-> H]];
      [by rewrite (proj2 (Z.leb_le n _) H)|]. rewrite H. run. step_if; done.
  - destruct (fits_cons _ _ _ _ _ _ Hf) as (Hc & Es & Hle & Ho & Hz & Hf').
    destruct (next_unit U16 pre c _ _ Es eq_refl Hle (valid_range U16 c Hc) Hz)
      as (w & Hw & Hw0 & Hi & Hhd).
    rewrite (proj2 (Z.leb_gt n _) Hi), Hw. run. rewrite Hw0.
    change (if nat then w else BSWAP_16 w) with (order U16 nat w).
    pose proof (enc16_units c (valid_range U16 c Hc)) as Hu.
    pose proof (put_fits out c (valid_range U16 c Hc) Ho) as Hput.
    rewrite finished_cons. cbn [text flat_map] in Hlt. fold (text U16 nat cs) in Hlt.
    rewrite length_app in Hlt. cbn [enc] in *.
    destruct (enc16_join c Hc) as [[Ee Hj]|(h & v & Ee & Hh & Hv & Hj1 & Hj2)];
      rewrite Ee in *; cbn [fmap list_fmap head length] in *.
    + assert (w = order U16 nat c) as -> by congruence. inversion_clear Hu.
      rewrite order_invol, Hj, Hput by done. run.
      rewrite <- (IH fuel _ _ rest Hf') by lia.
      do 4 f_equal. rewrite length_app. cbn [length]. lia.
    + assert (w = order U16 nat h) as -> by congruence.
      unfold high in Hh. rewrite order_invol, Hj1 by (unfold unit_max; lia). run.
      destruct fuel as [|fuel]; [lia|]. rewrite iter_S. cbn [body_u16].
      rewrite length_app in Hle. cbn [length] in Hle.
      rewrite (proj2 (Z.leb_gt n _)) by lia.
      assert (rd s (zlen pre + 1) = Ok (order U16 nat v)) as -> by (by rewrite Es, (rd_app pre _ _ 1) by lia).
      run. destruct (order U16 nat v =? 0) eqn:E0.
      { b2p. apply order_zero in E0; unfold unit_max; lia. }
      cbn [andb]. change (if nat then ?a else BSWAP_16 ?a) with (order U16 nat a).
      rewrite order_invol, Hj2, Hput by (unfold unit_max; lia). run.
      rewrite <- (IH fuel _ _ rest Hf') by lia.
      do 4 f_equal. rewrite length_app. cbn [length]. lia.
Qed.

End transcode.

(** ** Flags and marks *)

(** The byte order a flag asks for: big, little, or the host's. *)
Definition asked (be : bool) (flag big little : Z) : bool :=
  if Z.testbit flag big then be else if Z.testbit flag little then negb be else true.
Definition in_order (be : bool) (flag : Z) : bool := asked be flag 0 4.
Definition out_order (be : bool) (flag : Z) : bool := asked be flag 1 5.
Definition flag_ok (flag : Z) : bool :=
  negb (Z.testbit flag 0 && Z.testbit flag 4) && negb (Z.testbit flag 1 && Z.testbit flag 5).
Definition accepts_mark (flag : Z) : bool := Z.testbit flag 7.
Definition emits_mark (flag : Z) : bool := Z.testbit flag 8.

Lemma land_bit f k : 0 <= k -> Z.land f (2 ^ k) = if Z.testbit f k then 2 ^ k else 0.
Proof.
  intros Hk. apply Z.bits_inj'. intros i Hi. rewrite Z.land_spec, Z.pow2_bits_eqb by done.
  destruct (k =? i) eqn:E; b2p.
  - subst i. destruct (Z.testbit f k); rewrite ?Z.pow2_bits_true, ?Z.bits_0 by done; done.
  - rewrite andb_false_r. destruct (Z.testbit f k); [|by rewrite Z.bits_0].
    by rewrite Z.pow2_bits_false by done.
Qed.

Lemma land_bit0 f k : 0 <= k -> (Z.land f (2 ^ k) =? 0) = negb (Z.testbit f k).
Proof.
  intros Hk. rewrite land_bit by done. destruct (Z.testbit f k); cbn [negb]; [|done].
  apply Z.eqb_neq. lia.
Qed.

Lemma check_endian_ok be flag :
  match check_endian be flag with
  | inl err => flag_ok flag = false /\ err = EBADF
  | inr (i, o) => flag_ok flag = true /\ in_native be i = in_order be flag /\
                  out_native be o = out_order be flag
  end.
Proof.
  unfold check_endian, flag_ok, in_order, out_order, asked.
  unfold UCONV_IN_ENDIAN_MASKS, UCONV_OUT_ENDIAN_MASKS. rewrite !Z.land_lor_distr_r.
  change UCONV_IN_BIG_ENDIAN with (2 ^ 0). change UCONV_IN_LITTLE_ENDIAN with (2 ^ 4).
  change UCONV_OUT_BIG_ENDIAN with (2 ^ 1). change UCONV_OUT_LITTLE_ENDIAN with (2 ^ 5).
  rewrite !land_bit by done.
  destruct (Z.testbit flag 0), (Z.testbit flag 4), (Z.testbit flag 1), (Z.testbit flag 5), be;
    vm_compute; auto.
Qed.

Definition mark (k : utf) (nat : bool) : Z := order k nat 0xfeff.

(** How the input opens: the byte order it is read in and the mark skipped. *)
Inductive opening (be : bool) (flag : Z) (s : list Z) (n : Z) : utf -> bool -> list Z -> Prop :=
  | unmarked k :
      k = U8 \/ accepts_mark flag = false \/ n = 0 \/ (forall o, head s <> Some (mark k o)) ->
      opening be flag s n k (in_order be flag) []
  | marked k o : k <> U8 -> accepts_mark flag = true -> 0 < n -> head s = Some (mark k o) ->
      opening be flag s n k o [mark k o].

(** The mark that opens the output. *)
Definition emitted (be : bool) (flag : Z) (k : utf) (n l : Z) : list Z :=
  if negb (bool_decide (k = U8)) && emits_mark flag && (0 <? n) && (0 <? l)
  then [mark k (out_order be flag)] else [].

Definition swapped (k : utf) : Z :=
  match k with U32 => UCONV_BOM_SWAPPED_32 | _ => UCONV_BOM_SWAPPED end.

Lemma mark_cases k (o : bool) : k <> U8 -> mark k o = if o then UCONV_BOM_NORMAL else swapped k.
Proof. by destruct k, o. Qed.

Lemma marks_differ k : k <> U8 -> swapped k <> UCONV_BOM_NORMAL.
Proof. by destruct k. Qed.

Lemma order_of_native be (o : bool) :
  in_native be (if o then UCONV_IN_NAT_ENDIAN be else UCONV_IN_REV_ENDIAN be) = o.
Proof. by destruct be, o. Qed.

Lemma accept_bom_ok be flag s n k o pre e :
  k <> U8 -> 0 <= n <= zlen s -> opening be flag s n k o pre -> in_native be e = in_order be flag ->
  exists e', accept_bom (check_bom be (swapped k)) flag s n e = Ok (zlen pre, e') /\
    in_native be e' = o.
Proof.
  intros Hk Hn Ho He. unfold accept_bom. change UCONV_IN_ACCEPT_BOM with (2 ^ 7).
  rewrite land_bit0 by done. fold (accepts_mark flag).
  destruct (accepts_mark flag) eqn:Ea; cbn [negb]; cycle 1.
  { exists e. destruct Ho; [done|congruence]. }
  unfold check_bom. inversion Ho as [k' H E1 E2 E3|k' o' H1 H2 H3 H4 E1 E2 E3]; subst.
  - destruct (0 <? n) eqn:E; b2p; run; [|eauto].
    destruct H as [?|[?|[?|H]]]; [done|congruence|lia|].
    destruct s as [|w s]; [cbn in Hn; lia|]. change (rd (w :: s) 0) with (Ok w). run.
    pose proof (H true) as Ht. pose proof (H false) as Hf. rewrite !mark_cases in Ht, Hf by done.
    cbn [head] in *. rewrite (proj2 (Z.eqb_neq w _)), (proj2 (Z.eqb_neq w _)) by congruence. eauto.
  - rewrite (proj2 (Z.ltb_lt 0 n)) by done. destruct s as [|w s]; [done|].
    change (rd (w :: s) 0) with (Ok w). run. cbn [head] in H4.
    assert (w = mark k o) as -> by congruence.
    exists (if o then UCONV_IN_NAT_ENDIAN be else UCONV_IN_REV_ENDIAN be).
    rewrite order_of_native, mark_cases by done. split; [|done].
    pose proof (marks_differ k Hk). destruct o; rewrite ?Z.eqb_refl; [done|].
    rewrite (proj2 (Z.eqb_neq _ _)) by done. done.
Qed.

Lemma emit_bom_ok be flag k n l d : k <> U8 -> l <= zlen d ->
  emit_bom (swapped k) flag n l (out_order be flag) d
  = Ok (filled d (emitted be flag k n l), zlen (emitted be flag k n l)).
Proof.
  intros Hk Hl. unfold emit_bom, emitted. rewrite bool_decide_false by done. cbn [negb andb].
  change UCONV_OUT_EMIT_BOM with (2 ^ 8). rewrite land_bit0, negb_involutive by done.
  fold (emits_mark flag). rewrite mark_cases by done.
  destruct (emits_mark flag), (0 <? n) eqn:E1, (0 <? l) eqn:E2; b2p; cbn [andb]; try done.
  rewrite <- (filled_nil d) at 1. rewrite wr_filled by (cbn; lia). done.
Qed.

(** ** The routines as loops *)

(** The routine between two different forms. *)
Definition conv (be : bool) (a b : utf) : mem -> Z -> outcome (option errno * mem) :=
  match a, b with
  | U16, U8 => uconv_u16tou8 be | U16, _ => uconv_u16tou32 be
  | U32, U8 => uconv_u32tou8 be | U32, _ => uconv_u32tou16 be
  | U8, U16 => uconv_u8tou16 be | U8, _ => uconv_u8tou32 be
  end.

Definition put_of (a b : utf) (o : bool) : list Z -> Z -> Z -> Z -> outcome (errno + list Z * Z) :=
  match b with
  | U8 => put_u8
  | U16 => match a with U32 => put_u16_checked o | _ => put_u16 o end
  | U32 => put_u32 o
  end.

#[global] Instance put_of_ok a b o : Put (put_of a b o) (enc b o).
Proof. destruct a, b; apply _. Qed.

Definition loop (a : utf) put s n l dn o i j d : outcome exit :=
  match a with
  | U8 => iter (conv_rounds n) (body_u8 put s n l dn) (i, j, d)
  | U16 => iter (conv_rounds n) (body_u16 put s n l dn o) (i, j, 0, d)
  | U32 => iter (conv_rounds n) (body_u32 put s n l dn o) (i, j, d)
  end.

Definition leave (s d : list Z) (n l : Z) (x : exit) : option errno * mem :=
  match x with
  | Stop e d' => (Some e, Mem (Some s) (Some n) (Some d') (Some l))
  | Finish i o d' => (None, Mem (Some s) (Some i) (Some d') (Some o))
  end.

Lemma conv_bad be a b flag s n d l : flag_ok flag = false ->
  conv be a b (Mem (Some s) (Some n) (Some d) (Some l)) flag
  = Ok (Some EBADF, Mem (Some s) (Some n) (Some d) (Some l)).
Proof.
  intros Hf. pose proof (check_endian_ok be flag) as Hc.
  destruct (check_endian be flag) as [e|[? ?]] eqn:E; [|destruct Hc; congruence].
  destruct Hc as [_ ->]. destruct a, b; cbn [conv];
  unfold uconv_u16tou8, uconv_u16tou32, uconv_u32tou8, uconv_u32tou16, uconv_u8tou16, uconv_u8tou32,
    with_args; cbn [src srclen dst dstlen]; rewrite E; run; done.
Qed.

Lemma conv_enter be a b flag s n d l o pre :
  a <> b -> flag_ok flag = true -> 0 <= n <= zlen s -> 0 <= l <= zlen d ->
  opening be flag s n a o pre ->
  let out0 := emitted be flag b n l in
  conv be a b (Mem (Some s) (Some n) (Some d) (Some l)) flag
  = leave s d n l <$> loop a (put_of a b (out_order be flag)) s n l (not_ignoring flag) o
                        (zlen pre) (zlen out0) (filled d out0).
Proof.
  intros Hab Hf Hn Hl Ho out0. pose proof (check_endian_ok be flag) as Hc.
  destruct (check_endian be flag) as [e|[ei eo]] eqn:E; [destruct Hc; congruence|].
  destruct Hc as (_ & Hi & Hou).
  assert (b = U8 -> out0 = []) as Hb8 by (by intros ->).
  assert (a = U8 -> pre = []) as Ha8 by (intros ->; by inversion Ho).
  assert (forall m : outcome exit,
    m ≫= (fun x => mret (leave s d n l x)) = leave s d n l <$> m) as Hm by (by intros []).
  destruct a, b; try done; cbn [conv];
    unfold uconv_u16tou8, uconv_u16tou32, uconv_u32tou8, uconv_u32tou16, uconv_u8tou16,
      uconv_u8tou32, with_args; cbn [src srclen dst dstlen]; rewrite E, ?Hou;
    rewrite <- Hm; unfold leave; f_equal; cbn [loop put_of].
  - rewrite (Ha8 eq_refl). change UCONV_BOM_SWAPPED with (swapped U16).
    rewrite emit_bom_ok by (done || lia). done.
  - rewrite (Ha8 eq_refl). change UCONV_BOM_SWAPPED_32 with (swapped U32).
    rewrite emit_bom_ok by (done || lia). done.
  - destruct (accept_bom_ok be flag s n U16 o pre ei) as (e' & He & Hin); try done.
    unfold check_bom16. change UCONV_BOM_SWAPPED with (swapped U16).
    rewrite He. run. rewrite Hin, (Hb8 eq_refl). done.
  - destruct (accept_bom_ok be flag s n U16 o pre ei) as (e' & He & Hin); try done.
    unfold check_bom16. change UCONV_BOM_SWAPPED with (swapped U16).
    change UCONV_BOM_SWAPPED_32 with (swapped U32).
    rewrite He. run. rewrite emit_bom_ok by (done || lia). run. rewrite Hin. done.
  - destruct (accept_bom_ok be flag s n U32 o pre ei) as (e' & He & Hin); try done.
    unfold check_bom32. change UCONV_BOM_SWAPPED_32 with (swapped U32).
    rewrite He. run. rewrite Hin, (Hb8 eq_refl). done.
  - destruct (accept_bom_ok be flag s n U32 o pre ei) as (e' & He & Hin); try done.
    unfold check_bom32. change UCONV_BOM_SWAPPED with (swapped U16).
    change UCONV_BOM_SWAPPED_32 with (swapped U32).
    rewrite He. run. rewrite emit_bom_ok by (done || lia). run. rewrite Hin. done.
Qed.

Lemma put_of_high a b o d l j c : a = U32 -> b <> a -> 0x10ffff < c ->
  put_of a b o d l j c = Ok (inl EILSEQ).
Proof.
  intros -> Hb Hc. destruct b; [|cbn|done]; [by apply put_u8_high|].
  unfold put_u16_checked, UCONV_UNICODE_MAX. rewrite (proj2 (Z.ltb_lt _ c)) by done. done.
Qed.

Lemma loop_total a b oo s n l dn o d0 out0 pre rest :
  a <> b -> Forall (fun w => 0 <= w < unit_max a) s -> n <= zlen s -> l <= zlen d0 ->
  s = pre ++ rest -> zlen pre <= n -> zlen out0 <= l ->
  exists x, loop a (put_of a b oo) s n l dn o (zlen pre) (zlen out0) (filled d0 out0) = Ok x /\
    post (enc b oo) s n l dn o d0 out0 pre a x.
Proof.
  intros Hab Hu Hn Hl Es Hp Ho.
  assert (moved (enc b oo) l dn out0 a []) as Hm.
  { unfold moved. cbn [flat_map]. rewrite app_nil_r. done. }
  assert (between (enc b oo) s n l dn o d0 out0 pre a (zlen pre) (zlen out0) (filled d0 out0)) as Hb.
  { exists [], rest. cbn [text flat_map]. rewrite !app_nil_r. done. }
  assert (Z.to_nat (n - zlen pre) < conv_rounds n)%nat as Hr by (unfold conv_rounds; lia).
  destruct a; cbn [loop].
  - apply loop_u8; try done; apply _.
  - apply loop_u16; try done; [apply _|]. split; [by left|]. destruct Hb as (cs & r & H1 & E & H2).
    exists cs, r. change (order U16 o <$> pending 0) with (@nil Z). rewrite app_nil_r, <- app_assoc. done.
  - apply loop_u32; try done; [apply _|]. intros. by apply put_of_high.
Qed.

Lemma emitted_fits be flag k n l : 0 <= l -> zlen (emitted be flag k n l) <= l.
Proof.
  intros. unfold emitted. step_if; cbn; [|lia]. b2p. lia.
Qed.

Lemma opening_ex be flag s n k : 0 <= n <= zlen s ->
  exists o pre rest, opening be flag s n k o pre /\ s = pre ++ rest /\ zlen pre <= n.
Proof.
  intros Hn.
  destruct (decide (k = U8 \/ accepts_mark flag = false \/ n = 0)) as [Hd|Hd].
  { exists (in_order be flag), [], s. split_and!; [|done|cbn; lia]. constructor. naive_solver. }
  assert (k <> U8 /\ accepts_mark flag = true /\ 0 < n) as (H1 & H2 & H3).
  { destruct (accepts_mark flag); naive_solver lia. }
  destruct s as [|w s]; [cbn in Hn; lia|].
  destruct (decide (w = mark k true)) as [->|Ht]; [|destruct (decide (w = mark k false)) as [->|Hf]].
  1,2: eexists _, [_], s; split_and!; [by constructor|done|cbn; lia].
  exists (in_order be flag), [], (w :: s). split_and!; [|done|cbn; lia].
  constructor. do 3 right. intros []; cbn; congruence.
Qed.

(** C31: every one of the six conversions, on buffers of the stated lengths,
    returns without reading or writing outside them.  On an error the two
    lengths are unchanged, and only cells below the output length were
    written; EBADF is returned exactly when a flag asks for two byte orders.
    On success the consumed input is an optional byte-order mark followed by
    the well-formed encoding of a sequence of characters (scalar values, when
    the input is UTF-8 or UTF-16), it ends at the end of the input or, unless
    nulls are to be ignored, at a null; the output is the requested mark
    followed by the encoding of the same characters, in the requested order,
    and the two counts stored are exactly those of the input consumed and of
    the output produced. *)
Theorem uconv_transcodes be a b flag s n d l :
  a <> b -> Forall (fun w => 0 <= w < unit_max a) s -> 0 <= n <= zlen s -> 0 <= l <= zlen d ->
  exists r m', conv be a b (Mem (Some s) (Some n) (Some d) (Some l)) flag = Ok (r, m') /\
  match r with
  | Some err =>
      (err = EBADF <-> flag_ok flag = false) /\
      exists out, zlen out <= l /\ m' = Mem (Some s) (Some n) (Some (filled d out)) (Some l)
  | None =>
      flag_ok flag = true /\
      exists o pre cs rest,
        opening be flag s n a o pre /\ Forall (valid a) cs /\
        s = pre ++ text a o cs ++ rest /\
        let i := zlen (pre ++ text a o cs) in
        let out := emitted be flag b n l ++ text b (out_order be flag) cs in
        i <= n /\ stops n (not_ignoring flag) rest i /\ zlen out <= l /\
        m' = Mem (Some s) (Some i) (Some (filled d out)) (Some (zlen out))
  end.
Proof.
  intros Hab Hu Hn Hl. destruct (flag_ok flag) eqn:Hf; cycle 1.
  { rewrite conv_bad by done. eexists _, _. split; [done|]. cbn. split; [done|].
    exists []. split; [cbn; lia|done]. }
  destruct (opening_ex be flag s n a Hn) as (o & pre & rest & Ho & Es & Hp).
  rewrite (conv_enter be a b flag s n d l o pre) by done. cbv zeta.
  destruct (loop_total a b (out_order be flag) s n l (not_ignoring flag) o d
    (emitted be flag b n l) pre rest) as (x & -> & Hx); try done; try lia; [apply emitted_fits; lia|].
  run. destruct x as [err d'|i j d']; cbn [leave post] in *; eexists _, _; (split; [done|]); cbn.
  - destruct Hx as (He & cs & (_ & _ & Hle) & ->). split; [naive_solver|]. eauto.
  - destruct Hx as (cs & r & (Hv & _ & Hle) & E2 & -> & Hi & Hst & -> & ->).
    split; [done|]. exists o, pre, cs, r. done.
Qed.

Lemma conv_fits be a b flag s n d l o pre cs rest :
  a <> b -> flag_ok flag = true -> opening be flag s n a o pre -> 0 <= l <= zlen d -> n <= zlen s ->
  fits (enc b (out_order be flag)) s n l (not_ignoring flag) o a pre (emitted be flag b n l) cs rest ->
  let out := emitted be flag b n l ++ text b (out_order be flag) cs in
  conv be a b (Mem (Some s) (Some n) (Some d) (Some l)) flag
  = Ok (None, Mem (Some s) (Some (zlen (pre ++ text a o cs))) (Some (filled d out)) (Some (zlen out))).
Proof.
  intros Hab Hf Ho Hl Hn Hfit out. pose proof Hfit as (Es & Hle & _ & Hv & _).
  assert (0 <= n) by lia.
  rewrite (conv_enter be a b flag s n d l o pre) by done. cbv zeta.
  set (out0 := emitted be flag b n l) in *.
  assert (length (text a o cs) < conv_rounds n)%nat as Hr.
  { unfold conv_rounds. rewrite length_app in Hle. lia. }
  assert (length cs <= length (text a o cs))%nat as Hc.
  { clear -Hv. induction Hv as [|c cs Hc _ IH]; [cbn; lia|]. cbn [text flat_map length].
    fold (text a o cs). rewrite length_app.
    assert (1 <= length (enc a o c))%nat; [|lia].
    destruct a; cbn [enc length]; [pose proof (enc8_len c); lia| |lia].
    unfold enc16. step_if; cbn; lia. }
  assert (loop a (put_of a b (out_order be flag)) s n l (not_ignoring flag) o
            (zlen pre) (zlen out0) (filled d out0)
          = Ok (finished (enc b (out_order be flag)) o d a pre out0 cs)) as ->.
  { destruct a; cbn [loop]; [eapply run_u8|eapply run_u16|eapply run_u32];
      try apply _; try done; try lia. }
  done.
Qed.

Lemma uconv_transcodes_witness :
  exists r m', conv true U16 U8 (Mem (Some [0xfffe; 0x4100; 0x3dd8; 0x00de; 0]) (Some 5)
                 (Some (replicate 8 0x55)) (Some 6)) 0x80 = Ok (r, m') /\ r = None.
Proof.
  destruct (uconv_transcodes true U16 U8 0x80 [0xfffe; 0x4100; 0x3dd8; 0x00de; 0] 5
    (replicate 8 0x55) 6) as (r & m' & H & _).
  - done.
  - repeat constructor; cbn; lia.
  - cbn. lia.
  - cbn. lia.
  - exists r, m'. split; [exact H|]. vm_compute in H. congruence.
Defined.

Lemma scalar_valid k cs : Forall scalar cs -> Forall (valid k) cs.
Proof.
  intros H. apply (List.Forall_impl _) with (2 := H). intros c Hc. destruct k; try done.
  cbn. by destruct Hc.
Qed.

Lemma text_u8 o o' cs : text U8 o cs = text U8 o' cs.
Proof. done. Qed.

Lemma emitted_none be flag k n l : k = U8 \/ emits_mark flag = false \/ n = 0 ->
  emitted be flag k n l = [].
Proof.
  unfold emitted. intros [->|[->| ->]]; cbn; rewrite ?andb_false_r; done.
Qed.

Lemma text_pos k o cs : Forall scalar cs -> cs <> [] -> 0 < zlen (text k o cs).
Proof.
  intros Hs Hne. destruct cs as [|c cs]; [done|]. cbn [text flat_map]. rewrite length_app.
  assert (1 <= length (enc k o c))%nat; [|lia].
  destruct k; cbn [enc]; [pose proof (enc8_len c); lia| |cbn; lia].
  unfold enc16. step_if; cbn; lia.
Qed.

(** The second conversion opens the first one's output where its text starts. *)
Lemma reopen be b f1 f2 cs n l d :
  (b <> U8 -> if emits_mark f1 then accepts_mark f2 = true
              else accepts_mark f2 = false /\ in_order be f2 = out_order be f1) ->
  (cs <> [] -> 0 < n) -> 0 <= l ->
  (cs = [] -> n = 0) ->
  let out := emitted be f1 b n l ++ text b (out_order be f1) cs in
  zlen out <= l ->
  exists o, opening be f2 (filled d out) (zlen out) b o (emitted be f1 b n l) /\
    text b o cs = text b (out_order be f1) cs.
Proof.
  intros Hc Hn Hl0 Hn0 out Hl. destruct (decide (b = U8)) as [->|Hb].
  { rewrite emitted_none by auto. exists (in_order be f2). split; [|done]. constructor. auto. }
  specialize (Hc Hb). destruct (decide (cs = [])) as [->|Hcs].
  { unfold out. rewrite emitted_none by auto. exists (in_order be f2).
    split; [|done]. constructor. auto. }
  destruct (emits_mark f1) eqn:E1.
  - assert (emitted be f1 b n l = [mark b (out_order be f1)] \/ l = 0) as [E|E].
    { unfold emitted. rewrite E1, bool_decide_false by done. cbn [negb andb].
      rewrite (proj2 (Z.ltb_lt 0 n)) by auto. destruct (0 <? l) eqn:El; b2p; [by left|right; lia]. }
    + exists (out_order be f1). split; [|done]. unfold out. rewrite E.
      constructor; try done.
    + exists (out_order be f1). split; [|done]. subst l.
      destruct out as [|x out'] eqn:Eo; [|cbn in Hl; lia].
      destruct cs as [|c cs]; [done|]. exfalso. clear -Eo Hb. subst out.
      apply app_eq_nil in Eo as [_ Eo]. cbn [text flat_map] in Eo. apply app_eq_nil in Eo as [Eo _].
      destruct b; [done| |done]. cbn [enc] in Eo. unfold enc16 in Eo. by destruct (c <? 0x10000).
  - destruct Hc as [Ha Ho]. rewrite emitted_none by auto. exists (in_order be f2).
    split; [|by rewrite Ho]. constructor. auto.
Qed.

(** C32: converting a text from any encoding form to any other and back
    returns the original units and the original length, in every combination
    of byte orders, with or without a byte-order mark on the intermediate
    form: both calls succeed whenever their output buffers are large enough,
    provided the second call is told the order the first one wrote in or is
    asked to read the mark the first one emitted. *)
Theorem uconv_roundtrip be a b f1 f2 cs d l d2 l2 :
  a <> b -> flag_ok f1 = true -> flag_ok f2 = true ->
  accepts_mark f1 = false -> emits_mark f2 = false -> in_order be f1 = out_order be f2 ->
  (b <> U8 -> if emits_mark f1 then accepts_mark f2 = true
              else accepts_mark f2 = false /\ in_order be f2 = out_order be f1) ->
  Forall scalar cs -> (not_ignoring f1 || not_ignoring f2 = true -> Forall (fun c => c <> 0) cs) ->
  let s := text a (in_order be f1) cs in
  let out := emitted be f1 b (zlen s) l ++ text b (out_order be f1) cs in
  zlen out <= l <= zlen d -> zlen s <= l2 <= zlen d2 ->
  conv be a b (Mem (Some s) (Some (zlen s)) (Some d) (Some l)) f1
  = Ok (None, Mem (Some s) (Some (zlen s)) (Some (filled d out)) (Some (zlen out))) /\
  conv be b a (Mem (Some (filled d out)) (Some (zlen out)) (Some d2) (Some l2)) f2
  = Ok (None, Mem (Some (filled d out)) (Some (zlen out)) (Some (filled d2 s)) (Some (zlen s))).
Proof.
  intros Hab Hf1 Hf2 Ha1 He2 Ho Hc Hs Hz s out Hl Hl2. split.
  - rewrite (conv_fits be a b f1 s (zlen s) d l (in_order be f1) [] cs []); try done; try lia.
    + constructor. auto.
    + unfold fits. rewrite !app_nil_r. cbn [app]. fold s.
      split_and!; try done; [by left|by apply scalar_valid| |apply Hl].
      intros Hd. apply Hz. by rewrite Hd.
  - destruct (reopen be b f1 f2 cs (zlen s) l d Hc) as (o & Hop & Et);
      [by intros; apply text_pos|lia|by unfold s; intros ->|apply Hl|]. fold out in Hop.
    assert (emitted be f2 a (zlen out) l2 = []) as Ee by (apply emitted_none; auto).
    rewrite (conv_fits be b a f2 (filled d out) (zlen out) d2 l2 o (emitted be f1 b (zlen s) l) cs
      (drop (length out) d)); try done; try lia; rewrite ?Ee, ?Et.
    + cbn [app]. fold out. rewrite <- Ho. done.
    + unfold filled. rewrite length_app. lia.
    + unfold fits. rewrite Et. fold out. unfold filled. rewrite app_assoc. fold out. cbn [app].
      rewrite <- Ho. fold (text a (in_order be f1) cs). fold s.
      split_and!; try done; [by left|by apply scalar_valid| |apply Hl2].
      intros Hd. apply Hz. by rewrite Hd, orb_true_r.
Qed.

Lemma uconv_roundtrip_witness :
  conv false U8 U16 (Mem (Some [0x41; 0xe2; 0x82; 0xac; 0xf0; 0x9f; 0x98; 0x80]) (Some 8)
    (Some (replicate 6 0)) (Some 6)) 0x102
  = Ok (None, Mem (Some [0x41; 0xe2; 0x82; 0xac; 0xf0; 0x9f; 0x98; 0x80]) (Some 8)
         (Some [0xfffe; 0x4100; 0xac20; 0x3dd8; 0x00de; 0]) (Some 5)) /\
  conv false U16 U8 (Mem (Some [0xfffe; 0x4100; 0xac20; 0x3dd8; 0x00de; 0]) (Some 5)
    (Some (replicate 8 0)) (Some 8)) 0x80
  = Ok (None, Mem (Some [0xfffe; 0x4100; 0xac20; 0x3dd8; 0x00de; 0]) (Some 5)
         (Some [0x41; 0xe2; 0x82; 0xac; 0xf0; 0x9f; 0x98; 0x80]) (Some 8)).
Proof.
  apply (uconv_roundtrip false U8 U16 0x102 0x80 [0x41; 0x20ac; 0x1f600] (replicate 6 0) 6
    (replicate 8 0) 8); try done.
  - repeat constructor; cbn; lia.
  - repeat constructor; cbn; lia.
Defined.

End Uconv.
