(* ===== verification/Namecheck.v ===== *)
(** * Name checks: common/zfs/zfs_namecheck.c and zpool_name_valid of libzfs

    The checks of pool, dataset, snapshot, permission-set and mount-point names that
    the commands and the kernel share.  A C string is the list of its characters,
    without the zero byte; [mem] is the memory it lies in, with it, and a pointer into
    it is an index.  A check returns [None] for 0 and [Some] of the reason, and of the
    character where the code stores one, for -1; a caller that passes no [why] gets
    the same answer without the reason.

    The theorem compares every check with the grammar of its names; a second one
    shows where the manual pages and a comment describe other grammars. *)

From stdpp Require Import base option numbers sets list strings.
From S2P Require Import Prelude.
Local Open Scope Z_scope.

Module Namecheck.

Inductive namecheck_err :=
  | NAME_ERR_LEADING_SLASH
  | NAME_ERR_EMPTY_COMPONENT
  | NAME_ERR_TRAILING_SLASH
  | NAME_ERR_INVALCHAR
  | NAME_ERR_MULTIPLE_AT
  | NAME_ERR_NOLETTER
  | NAME_ERR_RESERVED
  | NAME_ERR_DISKLIKE
  | NAME_ERR_TOOLONG
  | NAME_ERR_NO_AT.

Definition MAXNAMELEN : Z := 256.
Definition ZFS_PERMSET_MAXLEN : Z := 64.

(** The characters the code names, in ASCII. *)
Definition slash : Z := 47.
Definition at_sign : Z := 64.
Definition dollar : Z := 36.
Definition between (lo hi c : Z) : bool := (lo <=? c) && (c <=? hi).
Definition lower (c : Z) : bool := between 97 122 c.
Definition upper (c : Z) : bool := between 65 90 c.
Definition digit (c : Z) : bool := between 48 57 c.
Definition mirror : list Z := [109; 105; 114; 114; 111; 114].
Definition raidz : list Z := [114; 97; 105; 100; 122].
Definition spare : list Z := [115; 112; 97; 114; 101].
Definition log : list Z := [108; 111; 103].

Definition reason : Type := namecheck_err * option Z.
Definition no (e : namecheck_err) : option reason := Some (e, None).

(** ** The standard library's string functions, and loops over characters *)

(** Where the first character from [i] on lies that [stop] tells. *)
Definition scan (stop : Z -> bool) (mem : list Z) (i : Z) : outcome Z :=
  iter (S (length mem)) (fun i => c ← rd mem i; if (stop c : bool) then Ok (inr i) else Ok (inl (i + 1))) i.
Definition strlen (mem : list Z) : outcome Z := scan (fun c => c =? 0) mem 0.

(** [strcmp(s, t) == 0], for a [t] given by its characters. *)
Fixpoint str_eq (mem : list Z) (i : Z) (t : list Z) : outcome bool :=
  c ← rd mem i;
  match t with
  | [] => Ok (c =? 0)
  | d :: t' => if c =? d then str_eq mem (i + 1) t' else Ok false
  end.

(** [strncmp(s, t, strlen(t)) == 0], likewise. *)
Fixpoint str_prefix (mem : list Z) (i : Z) (t : list Z) : outcome bool :=
  match t with
  | [] => Ok true
  | d :: t' => c ← rd mem i; if c =? d then str_prefix mem (i + 1) t' else Ok false
  end.

Definition valid_char (c : Z) : bool :=
  lower c || upper c || digit c || (c =? 45) || (c =? 95) || (c =? 46) || (c =? 58).

(** The first invalid character of [loc .. stop), where [stop] is an index. *)
Definition check_to (mem : list Z) (stop : Z) (loc : Z) : outcome (option Z) :=
  iter (S (length mem)) (fun loc =>
    if loc =? stop then Ok (inr None)
    else c ← rd mem loc; if negb (valid_char c) then Ok (inr (Some c)) else Ok (inl (loc + 1))) loc.

(** The first invalid character before the end of the string. *)
Definition check_all (mem : list Z) (loc : Z) : outcome (option Z) :=
  iter (S (length mem)) (fun loc =>
    c ← rd mem loc;
    if c =? 0 then Ok (inr None) else if negb (valid_char c) then Ok (inr (Some c)) else Ok (inl (loc + 1))) loc.

(** ** The checks *)

Definition snapshot_namecheck (mem : list Z) : outcome (option reason) :=
  len ← strlen mem;
  if MAXNAMELEN <=? len then Ok (no NAME_ERR_TOOLONG)
  else
    c ← rd mem 0;
    if c =? 0 then Ok (no NAME_ERR_EMPTY_COMPONENT)
    else
      bad ← check_all mem 0;
      match bad with Some c => Ok (Some (NAME_ERR_INVALCHAR, Some c)) | None => Ok None end.

Definition permset_namecheck (mem : list Z) : outcome (option reason) :=
  len ← strlen mem;
  if ZFS_PERMSET_MAXLEN <=? len then Ok (no NAME_ERR_TOOLONG)
  else
    c ← rd mem 0;
    if negb (c =? at_sign) then Ok (Some (NAME_ERR_NO_AT, Some c))
    else snapshot_namecheck (drop 1 mem).

Definition component_end (c : Z) : bool := (c =? slash) || (c =? at_sign) || (c =? 0).

(** The body of the loop over components. *)
Definition dataset_round (mem : list Z) (st : Z * bool) : outcome (Z * bool + option reason) :=
  let '(loc, found_snapshot) := st in
  stop ← scan component_end mem loc;
  c ← rd mem stop;
  trailing ← (if c =? 0 then b ← rd mem (stop - 1); Ok (b =? slash) else Ok false);
  if (trailing : bool) then Ok (inr (no NAME_ERR_TRAILING_SLASH))
  else if loc =? stop then
    Ok (inr (no (if (c =? at_sign) && found_snapshot then NAME_ERR_MULTIPLE_AT else NAME_ERR_EMPTY_COMPONENT)))
  else
    bad ← check_to mem stop loc;
    match bad with
    | Some b => Ok (inr (Some (NAME_ERR_INVALCHAR, Some b)))
    | None =>
        if c =? 0 then Ok (inr None)
        else if (c =? at_sign) && found_snapshot then Ok (inr (no NAME_ERR_MULTIPLE_AT))
        else
          let found_snapshot := found_snapshot || (c =? at_sign) in
          if (c =? slash) && found_snapshot then Ok (inr (no NAME_ERR_TRAILING_SLASH))
          else Ok (inl (stop + 1, found_snapshot))
    end.

Definition dataset_namecheck (mem : list Z) : outcome (option reason) :=
  len ← strlen mem;
  if MAXNAMELEN <=? len then Ok (no NAME_ERR_TOOLONG)
  else
    c ← rd mem 0;
    if c =? slash then Ok (no NAME_ERR_LEADING_SLASH)
    else if c =? 0 then Ok (no NAME_ERR_EMPTY_COMPONENT)
    else iter (S (length mem)) (dataset_round mem) (0, false).

Definition mount_round (mem : list Z) (start : Z) : outcome (Z + option reason) :=
  stop ← scan (fun c => (c =? slash) || (c =? 0)) mem start;
  if MAXNAMELEN <=? stop - start then Ok (inr (no NAME_ERR_TOOLONG))
  else
    c ← rd mem stop;
    if negb (c =? 0) then Ok (inl (stop + 1)) else Ok (inr None).

(** [None] is the null pointer. *)
Definition mountpoint_namecheck (path : option (list Z)) : outcome (option reason) :=
  match path with
  | None => Ok (no NAME_ERR_LEADING_SLASH)
  | Some mem =>
      c ← rd mem 0;
      if negb (c =? slash) then Ok (no NAME_ERR_LEADING_SLASH)
      else iter (S (length mem)) (mount_round mem) 1
  end.

Definition pool_namecheck (mem : list Z) : outcome (option reason) :=
  len ← strlen mem;
  if MAXNAMELEN <=? len then Ok (no NAME_ERR_TOOLONG)
  else
    bad ← check_all mem 0;
    match bad with
    | Some b => Ok (Some (NAME_ERR_INVALCHAR, Some b))
    | None =>
        c ← rd mem 0;
        if negb (lower c) && negb (upper c) then Ok (no NAME_ERR_NOLETTER)
        else
          m ← str_eq mem 0 mirror;
          r ← (if (m : bool) then Ok true else str_eq mem 0 raidz);
          if (r : bool) then Ok (no NAME_ERR_RESERVED)
          else
            disk ← (if c =? 99 then d ← rd mem 1; Ok (digit d) else Ok false);
            if (disk : bool) then Ok (no NAME_ERR_DISKLIKE) else Ok None
    end.

(** What libzfs tells the user of a reason, before translation; the character of
    [NAME_ERR_INVALCHAR] is its argument. *)
Definition pool_error_aux (why : namecheck_err) : option string :=
  match why with
  | NAME_ERR_TOOLONG => Some "name is too long"
  | NAME_ERR_INVALCHAR => Some "invalid character '%c' in pool name"
  | NAME_ERR_NOLETTER => Some "name must begin with a letter"
  | NAME_ERR_RESERVED => Some "name is reserved"
  | NAME_ERR_DISKLIKE => Some "pool name is reserved"
  | NAME_ERR_LEADING_SLASH => Some "leading slash in name"
  | NAME_ERR_EMPTY_COMPONENT => Some "empty component in name"
  | NAME_ERR_TRAILING_SLASH => Some "trailing slash in name"
  | NAME_ERR_MULTIPLE_AT => Some "multiple '@' delimiters in name"
  | NAME_ERR_NO_AT => None
  end%string.

(** The answer, and what [zfs_error_aux] is given; every caller has a handle. *)
Definition zpool_name_valid (isopen : bool) (mem : list Z) : outcome (bool * option (string * option Z)) :=
  ret ← pool_namecheck mem;
  match ret with
  | Some (why, what) => Ok (false, (fun m => (m, what)) <$> pool_error_aux why)
  | None =>
      reserved ←
        (if isopen then Ok false
         else
           m ← str_prefix mem 0 mirror;
           r ← (if (m : bool) then Ok true else str_prefix mem 0 raidz);
           s ← (if (r : bool) then Ok true else str_prefix mem 0 spare);
           if (s : bool) then Ok true else str_eq mem 0 log);
      if (reserved : bool) then Ok (false, Some ("name is reserved"%string, None)) else Ok (true, None)
  end.

(** [strchr(name, '$')] stops at the end of the string. *)
Definition dataset_name_hidden (mem : list Z) : outcome bool :=
  i ← scan (fun c => (c =? dollar) || (c =? 0)) mem 0;
  c ← rd mem i;
  Ok (c =? dollar).

(** ** Loops over characters *)

Definition nonzero (s : list Z) : Prop := Forall (fun c => c <> 0) s.
Definition valid (w : list Z) : Prop := Forall (fun c => valid_char c = true) w.
Definition bad_char (w : list Z) : option Z := List.find (fun c => negb (valid_char c)) w.

Lemma rd_mid (pre : list Z) c post : rd (pre ++ c :: post) (zlen pre) = Ok c.
Proof. apply rd_ok. split; [lia|]. rewrite Nat2Z.id. by apply list_lookup_middle. Qed.

(** A loop that passes the characters of [w] one by one. *)
Lemma iter_chars {R} (body : Z -> outcome (Z + R)) (mem pre w : list Z) r :
  (forall p1 d p2, w = p1 ++ d :: p2 -> body (zlen pre + zlen p1) = Ok (inl (zlen pre + zlen p1 + 1))) ->
  body (zlen pre + zlen w) = Ok (inr r) -> (length w <= length mem)%nat -> iter (S (length mem)) body (zlen pre) = Ok r.
Proof.
  intros Hw Hr Hlen. assert (forall p1 p2 f, w = p1 ++ p2 -> (length p2 < f)%nat -> iter f body (zlen pre + zlen p1) = Ok r) as K.
  { intros p1 p2. revert p1. induction p2 as [|d p2 IH]; intros p1 f E Hf; (destruct f as [|f]; [lia|]); rewrite iter_S.
    - rewrite app_nil_r in E. subst p1. by rewrite Hr.
    - rewrite (Hw p1 d p2 E). specialize (IH (p1 ++ [d]) f). rewrite length_app in IH. cbn [length] in *.
      replace (zlen pre + zlen p1 + 1) with (zlen pre + Z.of_nat (length p1 + 1)) by lia. apply IH; [by rewrite <- app_assoc|lia]. }
  specialize (K [] w (S (length mem)) eq_refl). cbn [length] in K. rewrite Z.add_0_r in K. apply K. lia.
Qed.

Lemma rd_inside (pre p1 : list Z) d p2 post : rd (pre ++ (p1 ++ d :: p2) ++ post) (zlen pre + zlen p1) = Ok d.
Proof. rewrite <- app_assoc, app_assoc. cbn [app]. rewrite <- Nat2Z.inj_add, <- length_app. apply rd_mid. Qed.
Lemma rd_after (pre w : list Z) c post : rd (pre ++ w ++ c :: post) (zlen pre + zlen w) = Ok c.
Proof. rewrite app_assoc, <- Nat2Z.inj_add, <- length_app. apply rd_mid. Qed.

Lemma scan_spec stop pre w c post :
  Forall (fun d => stop d = false) w -> stop c = true -> scan stop (pre ++ w ++ c :: post) (zlen pre) = Ok (zlen pre + zlen w).
Proof.
  intros Hw Hc. apply (iter_chars _ _ _ w); [|by rewrite rd_after; run; rewrite Hc|rewrite !length_app; lia].
  intros p1 d p2 ->. rewrite rd_inside. run. apply Forall_app in Hw as [_ [Hd _]%Forall_cons]. by rewrite Hd.
Qed.

Lemma strlen_spec s post : nonzero s -> strlen (s ++ 0 :: post) = Ok (zlen s).
Proof.
  intros Hs. unfold strlen. rewrite (scan_spec _ [] s 0 post); [done| |done]. eapply Forall_impl; [exact Hs|]. intros c. cbn. apply Z.eqb_neq.
Qed.

(** The first bad character, if there is one. *)
Lemma bad_char_cases w :
  (bad_char w = None /\ valid w) \/ exists w1 c w2, w = w1 ++ c :: w2 /\ bad_char w = Some c /\ valid w1 /\ valid_char c = false.
Proof.
  induction w as [|d w IH]; [left; by split; [|constructor]|]. unfold bad_char in *. cbn [List.find]. destruct (valid_char d) eqn:E; cbn [negb].
  - destruct IH as [[? ?]|(w1 & c & w2 & -> & ? & ? & ?)]; [left; split; [done|by constructor]|right].
    exists (d :: w1), c, w2. split_and!; try done. by constructor.
  - right. exists [], d, w. split_and!; try done. constructor.
Qed.
Lemma bad_char_none w : bad_char w = None <-> valid w.
Proof.
  destruct (bad_char_cases w) as [[-> H]|(w1 & c & w2 & -> & -> & _ & Hc)]; [done|]. split; [done|].
  intros [_ [Hc' _]%Forall_cons]%Forall_app. congruence.
Qed.

Lemma check_to_spec pre w post : check_to (pre ++ w ++ post) (zlen pre + zlen w) (zlen pre) = Ok (bad_char w).
Proof.
  destruct (bad_char_cases w) as [[-> H]|(w1 & c & w2 & -> & -> & H & Hc)].
  - apply (iter_chars _ _ _ w); [|by rewrite Z.eqb_refl|rewrite !length_app; lia]. intros p1 d p2 ->. apply Forall_app in H as [_ [Hd _]%Forall_cons].
    rewrite (proj2 (Z.eqb_neq _ _)) by (rewrite length_app; cbn; lia). rewrite rd_inside. run. by rewrite Hd.
  - apply (iter_chars _ _ _ w1); [|rewrite (proj2 (Z.eqb_neq _ _)) by (rewrite length_app; cbn; lia); rewrite rd_inside; run; by rewrite Hc|rewrite !length_app; lia].
    intros p1 d p2 ->. apply Forall_app in H as [_ [Hd _]%Forall_cons]. rewrite (proj2 (Z.eqb_neq _ _)) by (rewrite !length_app; cbn; lia).
    rewrite <- app_assoc. cbn [app]. rewrite rd_inside. run. by rewrite Hd.
Qed.

Lemma check_all_spec s post : nonzero s -> check_all (s ++ 0 :: post) 0 = Ok (bad_char s).
Proof.
  intros Hs. destruct (bad_char_cases s) as [[-> H]|(w1 & c & w2 & -> & -> & H & Hc)].
  - change (s ++ 0 :: post) with ([] ++ s ++ 0 :: post). apply (iter_chars _ _ [] s); [|by rewrite (rd_after [] s)|rewrite !length_app; cbn; lia]. intros p1 d p2 ->.
    apply Forall_app in H as [_ [Hd _]%Forall_cons]. apply Forall_app in Hs as [_ [Hz _]%Forall_cons].
    rewrite (rd_inside [] p1). run. rewrite (proj2 (Z.eqb_neq _ _)) by done. by rewrite Hd.
  - pose proof Hs as [_ [Hcz _]%Forall_cons]%Forall_app. change ((w1 ++ c :: w2) ++ 0 :: post) with ([] ++ (w1 ++ c :: w2) ++ 0 :: post).
    apply (iter_chars _ _ [] w1); [|rewrite (rd_inside [] w1); run; rewrite (proj2 (Z.eqb_neq _ _)) by done; by rewrite Hc|rewrite !length_app; cbn; lia].
    intros p1 d p2 ->. apply Forall_app in H as [_ [Hd _]%Forall_cons]. apply Forall_app in Hs as [[_ [Hz _]%Forall_cons]%Forall_app _].
    replace ((p1 ++ d :: p2) ++ c :: w2) with (p1 ++ d :: (p2 ++ c :: w2)) by by rewrite <- app_assoc.
    rewrite (rd_inside [] p1). run. rewrite (proj2 (Z.eqb_neq _ _)) by done. by rewrite Hd.
Qed.

(** ** The grammar of names *)

(** A component: at least one character, all of them valid. *)
Definition word (w : list Z) : Prop := w <> [] /\ valid w.

(** A dataset: components with slashes between them, the last one perhaps with a
    snapshot. *)
Inductive dataset : list Z -> Prop :=
  | d_word w : word w -> dataset w
  | d_snapshot w v : word w -> word v -> dataset (w ++ at_sign :: v)
  | d_child w t : word w -> dataset t -> dataset (w ++ slash :: t).

Definition free (w : list Z) : Prop := Forall (fun c => component_end c = false) w.

Lemma valid_free w : valid w -> free w.
Proof.
  intros H. eapply Forall_impl; [exact H|]. intros c Hc. cbn in Hc. unfold component_end, slash, at_sign.
  destruct (Z.eqb_spec c 47) as [->|]; [done|]. destruct (Z.eqb_spec c 64) as [->|]; [done|]. destruct (Z.eqb_spec c 0) as [->|]; done.
Qed.

Lemma free_split t : nonzero t -> exists w r, t = w ++ r /\ free w /\ (r = [] \/ exists c r', r = c :: r' /\ (c = slash \/ c = at_sign)).
Proof.
  intros Ht. induction Ht as [|c t Hc Ht IH]; [by exists [], []; split_and!; [|constructor|left]|].
  destruct (component_end c) eqn:E.
  - exists [], (c :: t). split_and!; [done|constructor|]. right. exists c, t. split; [done|]. unfold component_end in E.
    destruct (Z.eqb_spec c slash); [by left|]. destruct (Z.eqb_spec c at_sign); [by right|]. destruct (Z.eqb_spec c 0); done.
  - destruct IH as (w & r & -> & Hw & Hr). exists (c :: w), r. split_and!; [done|by constructor|done].
Qed.

Lemma free_unique w w' c c' r r' :
  free w -> free w' -> component_end c = true -> component_end c' = true -> w ++ c :: r = w' ++ c' :: r' -> w = w' /\ c = c' /\ r = r'.
Proof.
  revert w'. induction w as [|d w IH]; intros [|d' w'] Hw Hw' Hc Hc' E; cbn in E.
  - by injection E.
  - injection E as -> _. apply Forall_cons in Hw' as [? _]. congruence.
  - injection E as <- _. apply Forall_cons in Hw as [? _]. congruence.
  - injection E as -> E. apply Forall_cons in Hw as [_ Hw], Hw' as [_ Hw']. destruct (IH w' Hw Hw' Hc Hc' E) as (-> & -> & ->). done.
Qed.
Lemma free_no_stop w w' c r : free w -> component_end c = true -> w <> w' ++ c :: r.
Proof. intros Hw Hc ->. apply Forall_app in Hw as [_ [H _]%Forall_cons]. congruence. Qed.

Lemma dataset_last w : free w -> dataset w <-> word w.
Proof.
  intros Hw. split; [|apply d_word]. intros H. destruct H as [w H|w v _ _|w t _ _]; [done|by destruct (free_no_stop _ w at_sign v Hw)|by destruct (free_no_stop _ w slash t Hw)].
Qed.
Lemma dataset_slash w t : free w -> dataset (w ++ slash :: t) <-> word w /\ dataset t.
Proof.
  intros Hw. split; [|intros [? ?]; by apply d_child]. intros H. remember (w ++ slash :: t) as s eqn:E. destruct H as [u H|u v H _|u v H Hv].
  - destruct H as [_ H]. by destruct (free_no_stop _ w slash t (valid_free _ H)).
  - by destruct (free_unique u w at_sign slash v t (valid_free _ (proj2 H)) Hw eq_refl eq_refl E) as (_ & ? & _).
  - by destruct (free_unique u w slash slash v t (valid_free _ (proj2 H)) Hw eq_refl eq_refl E) as (-> & _ & ->).
Qed.
Lemma dataset_at w v : free w -> dataset (w ++ at_sign :: v) <-> word w /\ word v.
Proof.
  intros Hw. split; [|intros [? ?]; by apply d_snapshot]. intros H. remember (w ++ at_sign :: v) as s eqn:E. destruct H as [u H|u x H Hx|u x H _].
  - destruct H as [_ H]. by destruct (free_no_stop _ w at_sign v (valid_free _ H)).
  - by destruct (free_unique u w at_sign at_sign x v (valid_free _ (proj2 H)) Hw eq_refl eq_refl E) as (-> & _ & ->).
  - by destruct (free_unique u w slash at_sign x v (valid_free _ (proj2 H)) Hw eq_refl eq_refl E) as (_ & ? & _).
Qed.
Lemma word_stop w c r : component_end c = true -> ~ word (w ++ c :: r).
Proof. intros Hc [_ H]. by destruct (free_no_stop _ w c r (valid_free _ H) Hc). Qed.

(** ** The loop over the components of a dataset name *)

#[global] Instance word_dec w : Decision (word w).
Proof. unfold word, valid. apply _. Qed.

Lemma rd_before (x post : list Z) : x <> [] -> exists b, rd (x ++ post) (zlen x - 1) = Ok b /\ last x = Some b.
Proof.
  intros Hx. destruct (List.exists_last Hx) as (y & b & ->). exists b. split; [|apply last_snoc].
  rewrite <- app_assoc, length_app. cbn [length app]. replace (Z.of_nat (length y + 1) - 1) with (zlen y) by lia. apply rd_mid.
Qed.

(** The test for a trailing slash reads inside the string, and fires only for an
    empty component. *)
Lemma trailing_ok (pre w post : list Z) c :
  (c = 0 -> pre ++ w <> []) -> free w ->
  exists tr : bool, (if c =? 0 then b ← rd (pre ++ w ++ c :: post) (zlen pre + zlen w - 1); Ok (b =? slash) else Ok false) = Ok tr /\ (w <> [] -> tr = false).
Proof.
  intros Hne Hw. destruct (Z.eqb_spec c 0) as [E|_]; [|by exists false]. destruct (rd_before (pre ++ w) (c :: post) (Hne E)) as (b & Hb & Hl).
  rewrite app_assoc, <- Nat2Z.inj_add, <- length_app, Hb. run. exists (b =? slash). split; [done|]. intros Hw0.
  destruct (List.exists_last Hw0) as (y & b' & ->). rewrite app_assoc, last_snoc in Hl. injection Hl as ->.
  apply Forall_app in Hw as [_ [Hb' _]%Forall_cons]. unfold component_end in Hb'. by destruct (b =? slash).
Qed.

Lemma round_reject (pre w post : list Z) c found :
  (c = 0 -> pre ++ w <> []) -> free w -> component_end c = true -> ~ word w ->
  exists e, dataset_round (pre ++ w ++ c :: post) (zlen pre, found) = Ok (inr (Some e)).
Proof.
  intros Hne Hw Hc Hnw. unfold dataset_round. rewrite (scan_spec component_end pre w c post Hw Hc). run. rewrite rd_after. run.
  destruct (trailing_ok pre w post c Hne Hw) as (tr & -> & _). run. destruct tr; [by eexists|]. destruct (Z.eqb_spec (zlen pre) (zlen pre + zlen w)) as [E|E]; [by eexists|].
  rewrite check_to_spec. run. destruct (bad_char w) eqn:Eb; [by eexists|]. destruct Hnw. split; [|by apply bad_char_none]. intros ->. cbn in E. lia.
Qed.

Lemma round_accept (pre w post : list Z) c found :
  component_end c = true -> word w ->
  dataset_round (pre ++ w ++ c :: post) (zlen pre, found) =
    Ok (if c =? 0 then inr None
        else if found then inr (no (if c =? at_sign then NAME_ERR_MULTIPLE_AT else NAME_ERR_TRAILING_SLASH))
        else inl (zlen pre + zlen w + 1, c =? at_sign)).
Proof.
  intros Hc [Hw0 Hw]. pose proof (valid_free w Hw) as Hf. unfold dataset_round. rewrite (scan_spec component_end pre w c post Hf Hc). run. rewrite rd_after. run.
  destruct (trailing_ok pre w post c) as (tr & -> & Htr); [by destruct pre|done|]. run. rewrite (Htr Hw0).
  rewrite (proj2 (Z.eqb_neq _ _)) by (destruct w; [done|cbn; lia]). rewrite check_to_spec, (proj2 (bad_char_none w) Hw). run.
  unfold component_end in Hc. destruct (Z.eqb_spec c 0) as [->|]; [done|]. destruct (Z.eqb_spec c at_sign) as [->|], found; try done.
  all: destruct (Z.eqb_spec c slash); [done|cbn in Hc; done].
Qed.

Lemma dataset_loop f t : forall pre found, (length t < f)%nat -> pre ++ t <> [] -> nonzero t ->
  exists r, iter f (dataset_round (pre ++ t ++ [0])) (zlen pre, found) = Ok r /\ (r = None <-> if (found : bool) then word t else dataset t).
Proof.
  revert t. induction f as [|f IH]; intros t pre found Hf Hne Ht; [lia|]. rewrite iter_S.
  destruct (free_split t Ht) as (w & r & -> & Hw & Hr). rewrite length_app in Hf. destruct Hr as [->|(c & t' & -> & Hc)].
  - rewrite !app_nil_r in *. replace (if found then word w else dataset w) with (if found then word w else dataset w) by done.
    assert ((if found then word w else dataset w) <-> word w) as Hiff by (destruct found; [done|by apply dataset_last]).
    destruct (decide (word w)) as [Hok|Hno].
    + rewrite round_accept by done. exists None. by rewrite Hiff.
    + destruct (round_reject pre w [] 0 found (fun _ => Hne) Hw eq_refl Hno) as [e ->]. exists (Some e). by rewrite Hiff.
  - rewrite <- app_assoc. cbn [app length] in *. assert (component_end c = true) as Hce by by destruct Hc as [-> | ->].
    apply Forall_app in Ht as [_ [Hc0 Ht']%Forall_cons].
    destruct (decide (word w)) as [Hok|Hno].
    + rewrite round_accept, (proj2 (Z.eqb_neq c 0)) by done. destruct found.
      * eexists. split; [done|]. split; [done|]. intros []%word_stop; done.
      * replace (zlen pre + zlen w + 1) with (zlen (pre ++ w ++ [c])) by (rewrite !length_app; cbn; lia).
        replace (pre ++ w ++ c :: t' ++ [0]) with ((pre ++ w ++ [c]) ++ t' ++ [0]) by by rewrite <- !app_assoc.
        destruct (IH t' (pre ++ w ++ [c]) (c =? at_sign)) as (r & -> & Hr); [lia|by destruct pre, w|done|].
        exists r. split; [done|]. rewrite Hr. destruct Hc as [-> | ->]; cbn; [rewrite dataset_slash by done|rewrite dataset_at by done]; tauto.
    + destruct (round_reject pre w (t' ++ [0]) c found) as [e ->]; [by intros ->|done..|]. exists (Some e). split; [done|]. split; [done|].
      destruct found; [by intros []%word_stop|]. destruct Hc as [-> | ->]; [rewrite dataset_slash by done|rewrite dataset_at by done]; tauto.
Qed.

(** ** The loop over the components of a mount point *)

(** No stretch between slashes is too long. *)
Definition short (t : list Z) : Prop := forall a w b, t = a ++ w ++ b -> slash ∉ w -> zlen w < MAXNAMELEN.

Lemma short_last w : slash ∉ w -> short w <-> zlen w < MAXNAMELEN.
Proof.
  intros Hw. split; [intros H; by apply (H [] w []); rewrite ?app_nil_r|]. intros H a v b -> _. rewrite !length_app in H. lia.
Qed.
Lemma short_slash w t : slash ∉ w -> short (w ++ slash :: t) <-> zlen w < MAXNAMELEN /\ short t.
Proof.
  intros Hw. split.
  - intros H. split; [by apply (H [] w (slash :: t))|]. intros a v b ->. apply (H (w ++ slash :: a) v b). by rewrite <- app_assoc.
  - intros [Hlen Ht] a v b E Hv. apply app_eq_app in E as [k [[-> E]|[-> E]]].
    + apply app_eq_app in E as [j [[-> E]|[-> E]]]; [|rewrite !length_app in Hlen; lia]. destruct j as [|d j]; [rewrite !length_app in *; cbn; lia|].
      injection E as <- _. set_solver.
    + destruct k as [|d k]; [|injection E as _ ->; by apply (Ht k v b)]. destruct v as [|d v]; [done|]. injection E as <- _. set_solver.
Qed.

Lemma slash_split (t : list Z) : slash ∉ t \/ exists w t', t = w ++ slash :: t' /\ slash ∉ w.
Proof.
  destruct (decide (slash ∈ t)) as [H|H]; [right|by left]. apply list_elem_of_split_l in H as (w & t' & -> & Hw). by exists w, t'.
Qed.

Lemma mount_round_spec (pre w post : list Z) c :
  nonzero w -> slash ∉ w -> c = slash \/ c = 0 ->
  mount_round (pre ++ w ++ c :: post) (zlen pre) =
    Ok (if MAXNAMELEN <=? zlen w then inr (no NAME_ERR_TOOLONG) else if c =? 0 then inr None else inl (zlen pre + zlen w + 1)).
Proof.
  intros Hz Hw Hc. unfold mount_round. rewrite (scan_spec _ pre w c post).
  - run. replace (zlen pre + zlen w - zlen pre) with (zlen w) by lia. destruct (MAXNAMELEN <=? zlen w); [done|]. rewrite rd_after. run. by destruct (c =? 0).
  - apply Forall_forall. intros d Hd. rewrite (proj2 (Z.eqb_neq d slash)) by (intros ->; done). apply Z.eqb_neq. by apply (proj1 (Forall_forall _ _) Hz).
  - by destruct Hc as [-> | ->].
Qed.

Lemma mount_loop f t : forall pre, (length t < f)%nat -> nonzero t ->
  exists r, iter f (mount_round (pre ++ t ++ [0])) (zlen pre) = Ok r /\ (r = None <-> short t).
Proof.
  revert t. induction f as [|f IH]; intros t pre Hf Ht; [lia|]. rewrite iter_S. destruct (slash_split t) as [Hs|(w & t' & -> & Hs)].
  - rewrite mount_round_spec by auto. destruct (Z.leb_spec MAXNAMELEN (zlen t)); (eexists; split; [done|]); rewrite short_last by done; split; done || lia.
  - apply Forall_app in Ht as [Hw [_ Ht']%Forall_cons]. rewrite length_app in Hf. cbn [length] in Hf. rewrite <- app_assoc. cbn [app]. rewrite mount_round_spec by auto.
    destruct (Z.leb_spec MAXNAMELEN (zlen w)); [eexists; split; [done|]; rewrite short_slash by done; split; [done|lia]|]. cbn [Z.eqb slash].
    replace (zlen pre + zlen w + 1) with (zlen (pre ++ w ++ [slash])) by (rewrite !length_app; cbn; lia).
    replace (pre ++ w ++ slash :: t' ++ [0]) with ((pre ++ w ++ [slash]) ++ t' ++ [0]) by by rewrite <- !app_assoc.
    destruct (IH t' (pre ++ w ++ [slash])) as (r & -> & Hr); [lia|done|]. exists r. split; [done|]. rewrite short_slash, Hr by done. tauto.
Qed.

(** ** Each check against its names *)

Lemma str_eq_spec t : forall pre s, nonzero s -> nonzero t -> str_eq (pre ++ s ++ [0]) (zlen pre) t = Ok (bool_decide (s = t)).
Proof.
  induction t as [|d t IH]; intros pre [|c s] Hs Ht; cbn [str_eq app]; rewrite rd_mid; run; try done.
  - apply Forall_cons in Hs as [Hc _]. by rewrite (proj2 (Z.eqb_neq c 0)).
  - apply Forall_cons in Ht as [Hd _]. by rewrite (proj2 (Z.eqb_neq 0 d)).
  - apply Forall_cons in Hs as [_ Hs], Ht as [_ Ht]. destruct (Z.eqb_spec c d) as [->|Hne]; [|by rewrite bool_decide_eq_false_2 by congruence].
    replace (zlen pre + 1) with (zlen (pre ++ [d])) by (rewrite length_app; cbn; lia). change (d :: s ++ [0]) with ([d] ++ s ++ [0]).
    rewrite app_assoc, IH by done. f_equal. apply bool_decide_ext. split; congruence.
Qed.

Lemma str_eq_head s t : nonzero s -> nonzero t -> str_eq (s ++ [0]) 0 t = Ok (bool_decide (s = t)).
Proof. exact (str_eq_spec t [] s). Qed.

(** [f] ends without fault on a string and returns 0 exactly for the names of [P]. *)
Definition accepts (f : list Z -> outcome (option reason)) (P : list Z -> Prop) : Prop :=
  forall s, nonzero s -> exists r, f (s ++ [0]) = Ok r /\ (r = None <-> P s).

Lemma rd_first c (s : list Z) : rd (c :: s) 0 = Ok c.
Proof. exact (rd_mid [] c s). Qed.

Lemma snapshot_ok : accepts snapshot_namecheck (fun s => word s /\ zlen s < MAXNAMELEN).
Proof.
  intros s Hs. unfold snapshot_namecheck. rewrite strlen_spec by done. run.
  destruct (Z.leb_spec MAXNAMELEN (zlen s)); [eexists; split; [done|]; split; [done|lia]|].
  destruct s as [|c s']; [eexists; split; [done|]; split; [done|by intros [[? _] _]]|]. set (s := c :: s') in *.
  replace (rd (s ++ [0]) 0) with (Ok c) by (symmetry; apply rd_first). run. pose proof Hs as [Hc _]%Forall_cons. rewrite (proj2 (Z.eqb_neq c 0)) by done.
  rewrite check_all_spec by done. run. destruct (bad_char s) eqn:E; (eexists; split; [done|]).
  - split; [done|]. intros [[_ Hv%bad_char_none] _]. congruence.
  - split; [|done]. intros _. split; [|done]. split; [done|by apply bad_char_none].
Qed.

Definition permset (s : list Z) : Prop := exists w, s = at_sign :: w /\ word w /\ zlen s < ZFS_PERMSET_MAXLEN.

Lemma permset_ok : accepts permset_namecheck permset.
Proof.
  intros s Hs. unfold permset_namecheck, permset. rewrite strlen_spec by done. run.
  destruct (Z.leb_spec ZFS_PERMSET_MAXLEN (zlen s)); [eexists; split; [done|]; split; [done|intros (? & _ & _ & ?); lia]|].
  destruct s as [|c w]; [eexists; split; [done|]; split; [done|by intros (? & ? & _)]|]. cbn [app]. rewrite rd_first. run. cbn [negb].
  destruct (Z.eqb_spec c at_sign) as [->|Hc]; cbn [negb]; [|eexists; split; [done|]; split; [done|intros (? & [= ? _] & _); done]].
  apply Forall_cons in Hs as [_ Hw]. destruct (snapshot_ok w Hw) as (r & Hr & Hiff). exists r. split; [exact Hr|]. rewrite Hiff. split.
  - intros [? _]. by exists w.
  - intros (v & [= ->] & ? & Hlen). split; [done|]. unfold ZFS_PERMSET_MAXLEN, MAXNAMELEN in *. cbn in Hlen. lia.
Qed.

Lemma dataset_word_head s : dataset s -> exists c t, s = c :: t /\ valid_char c = true.
Proof.
  assert (forall w t, word w -> exists c u, w ++ t = c :: u /\ valid_char c = true) as K.
  { intros [|c w] t [Hw0 Hw]; [done|]. apply Forall_cons in Hw as [Hc _]. by exists c, (w ++ t). }
  intros [w Hw|w v Hw _|w t Hw _]; [destruct (K w [] Hw) as (c & u & E & ?); rewrite app_nil_r in E; by exists c, u|by apply K..].
Qed.

Lemma dataset_ok : accepts dataset_namecheck (fun s => dataset s /\ zlen s < MAXNAMELEN).
Proof.
  intros s Hs. unfold dataset_namecheck. rewrite strlen_spec by done. run.
  destruct (Z.leb_spec MAXNAMELEN (zlen s)); [eexists; split; [done|]; split; [done|lia]|].
  assert (forall e : option reason, e <> None -> (forall c t, s = c :: t -> valid_char c = false) -> exists r, Ok e = Ok r /\ (r = None <-> dataset s /\ zlen s < MAXNAMELEN)) as K.
  { intros e He Hh. exists e. split; [done|]. split; [done|]. intros [(c & t & E & Hv)%dataset_word_head _]. specialize (Hh c t E). congruence. }
  destruct s as [|c s']; [by apply K|]. cbn [app]. rewrite rd_first. run. pose proof Hs as [Hc _]%Forall_cons.
  destruct (Z.eqb_spec c slash) as [->|]; [apply K; [done|by intros ? ? [= <- _]]|]. rewrite (proj2 (Z.eqb_neq c 0)) by done.
  destruct (dataset_loop (S (length (c :: s' ++ [0]))) (c :: s') [] false) as (r & Hr & Hiff); [cbn; rewrite length_app; lia|done|done|].
  exists r. split; [exact Hr|]. rewrite Hiff. split; [by intros ?|by intros [? _]].
Qed.

Lemma mountpoint_ok : accepts (fun mem => mountpoint_namecheck (Some mem)) (fun s => exists t, s = slash :: t /\ short t).
Proof.
  intros s Hs. unfold mountpoint_namecheck. destruct s as [|c t]; [eexists; split; [done|]; split; [done|by intros (? & ? & _)]|].
  cbn [app]. rewrite rd_first. run. destruct (Z.eqb_spec c slash) as [->|Hc]; cbn [negb]; [|eexists; split; [done|]; split; [done|by intros (? & [= ? _] & _)]].
  apply Forall_cons in Hs as [_ Ht]. destruct (mount_loop (S (length (slash :: t ++ [0]))) t [slash]) as (r & Hr & Hiff); [cbn; rewrite length_app; lia|done|].
  exists r. split; [exact Hr|]. rewrite Hiff. split; [by exists t|by intros (? & [= ->] & ?)].
Qed.

Definition letter (c : Z) : Prop := lower c = true \/ upper c = true.
Definition pool_name (s : list Z) : Prop :=
  valid s /\ zlen s < MAXNAMELEN /\ (exists c t, s = c :: t /\ letter c) /\ s <> mirror /\ s <> raidz /\
  ~ exists d t, s = 99 :: d :: t /\ digit d = true.

Lemma disk_like c t :
  exists b : bool, (if c =? 99 then d ← rd (c :: t ++ [0]) 1; Ok (digit d) else Ok false) = Ok b /\
    (b = true <-> exists d t', c :: t = 99 :: d :: t' /\ digit d = true).
Proof.
  destruct (Z.eqb_spec c 99) as [->|Hc]; [|exists false; split; [done|]; split; [done|by intros (? & ? & [= ? _] & _)]].
  destruct t as [|d t]; [exists false; split; [done|]; split; [done|by intros (? & ? & ? & _)]|].
  exists (digit d). cbn [app]. change (rd _ 1) with (rd ([99] ++ d :: t ++ [0]) (zlen [99])). rewrite rd_mid. run. split; [done|]. split; [by exists d, t|by intros (? & ? & [= -> ->] & ?)].
Qed.

Lemma pool_ok : accepts pool_namecheck pool_name.
Proof.
  intros s Hs. unfold pool_namecheck, pool_name. rewrite strlen_spec by done. run.
  destruct (Z.leb_spec MAXNAMELEN (zlen s)); [eexists; split; [done|]; split; [done|lia]|].
  rewrite check_all_spec by done. run. destruct (bad_char s) eqn:E; [eexists; split; [done|]; split; [done|intros [Hv%bad_char_none _]; congruence]|].
  apply bad_char_none in E. destruct s as [|c t]; [eexists; split; [done|]; split; [done|by intros (_ & _ & (? & ? & ? & _) & _)]|].
  rewrite !str_eq_head by (done || by repeat constructor). cbn [app]. rewrite rd_first. run.
  destruct (negb (lower c) && negb (upper c)) eqn:El.
  { eexists. split; [done|]. split; [done|]. intros (_ & _ & (? & ? & [= <- <-] & [Hl|Hl]) & _); rewrite Hl in El; [done|by rewrite andb_comm in El]. }
  assert (letter c) as Hl by (unfold letter; destruct (lower c), (upper c); auto).
  destruct (disk_like c t) as (b & -> & Hb). run. case_bool_decide as Hm; run.
  { eexists. split; [done|]. split; [done|]. by intros (_ & _ & _ & ? & _). }
  case_bool_decide as Hr; [eexists; split; [done|]; split; [done|by intros (_ & _ & _ & _ & ? & _)]|]. destruct b.
  - eexists. split; [done|]. split; [done|]. intros (_ & _ & _ & _ & _ & Hd). destruct Hd. by apply Hb.
  - eexists. split; [done|]. split; [|done]. intros _. split_and!; try done; [by exists c, t|]. intros Hd%Hb. done.
Qed.

(** The names that creating or importing a pool refuses besides. *)
Definition reserved_name (s : list Z) : Prop :=
  mirror `prefix_of` s \/ raidz `prefix_of` s \/ spare `prefix_of` s \/ s = log.

Lemma str_prefix_spec t : forall pre s, nonzero s -> nonzero t -> str_prefix (pre ++ s ++ [0]) (zlen pre) t = Ok (bool_decide (t `prefix_of` s)).
Proof.
  induction t as [|d t IH]; intros pre s Hs Ht; cbn [str_prefix].
  { by rewrite bool_decide_true by apply prefix_nil. }
  apply Forall_cons in Ht as [Hd Ht]. destruct s as [|c s]; cbn [app]; rewrite rd_mid; run.
  { rewrite (proj2 (Z.eqb_neq 0 d)) by done. by rewrite bool_decide_false by apply prefix_nil_not. }
  apply Forall_cons in Hs as [_ Hs]. destruct (Z.eqb_spec c d) as [->|Hne].
  - replace (zlen pre + 1) with (zlen (pre ++ [d])) by (rewrite length_app; cbn; lia). change (d :: s ++ [0]) with ([d] ++ s ++ [0]).
    rewrite app_assoc, IH by done. f_equal. apply bool_decide_ext. split; [apply prefix_cons|apply prefix_cons_inv_2].
  - rewrite bool_decide_false; [done|]. intros H%prefix_cons_inv_1. congruence.
Qed.

Lemma str_prefix_head s t : nonzero s -> nonzero t -> str_prefix (s ++ [0]) 0 t = Ok (bool_decide (t `prefix_of` s)).
Proof. exact (str_prefix_spec t [] s). Qed.

(** Every reason [pool_namecheck] gives has a text. *)
Lemma pool_reason_text mem e what : pool_namecheck mem = Ok (Some (e, what)) -> is_Some (pool_error_aux e).
Proof.
  unfold pool_namecheck. intros H. repeat (apply bind_ok in H as (? & _ & H) || (case_match; simplify_eq/=)); by eexists.
Qed.

Lemma name_valid_ok isopen s :
  nonzero s -> exists b m, zpool_name_valid isopen (s ++ [0]) = Ok (b, m) /\ (b = true <-> pool_name s /\ (isopen = false -> ~ reserved_name s)) /\
    (m = None <-> b = true).
Proof.
  intros Hs. destruct (pool_ok s Hs) as (r & Hr & Hiff). unfold zpool_name_valid. rewrite Hr. run. destruct r as [[e what]|].
  - destruct (pool_reason_text _ _ _ Hr) as [m ->]. eexists _, _. split; [done|]. split; [|done]. split; [done|]. intros [H%Hiff _]. done.
  - pose proof (proj1 Hiff eq_refl) as Hp. destruct isopen; run; [by eexists _, _|].
    rewrite !str_prefix_head, str_eq_head by (done || by repeat constructor). run. unfold reserved_name.
    repeat (case_bool_decide; run); (eexists _, _; split; [done|]; split; [|done]); (split; [try done|]); tauto.
Qed.

Lemma hidden_ok s : nonzero s -> dataset_name_hidden (s ++ [0]) = Ok (bool_decide (dollar ∈ s)).
Proof.
  intros Hs. unfold dataset_name_hidden. case_bool_decide as Hd.
  - apply list_elem_of_split_l in Hd as (w & t & -> & Hw). apply Forall_app in Hs as [Hz _]. rewrite <- app_assoc. cbn [app].
    rewrite (scan_spec _ [] w dollar (t ++ [0])); [|apply Forall_forall; intros d Hd|done]; [run; change (zlen [] + zlen w) with (zlen w); by rewrite rd_mid|].
    rewrite (proj2 (Z.eqb_neq d dollar)) by (intros ->; done). apply Z.eqb_neq. by apply (proj1 (Forall_forall _ _) Hz).
  - rewrite (scan_spec _ [] s 0 []); [|apply Forall_forall; intros d Hd'|done]; [run; change (zlen [] + zlen s) with (zlen s); by rewrite rd_mid|].
    rewrite (proj2 (Z.eqb_neq d dollar)) by (intros ->; done). apply Z.eqb_neq. by apply (proj1 (Forall_forall _ _) Hs).
Qed.

(** C40: On every string, each name check ends and touches no memory outside the
    string, and it returns 0 exactly for the names of its grammar: a snapshot is one
    component of fewer than 256 characters; a permission set is '@' and a component,
    fewer than 64 characters in all; a dataset is components with single slashes
    between them, the last perhaps followed by '@' and a component, with fewer than
    256 characters; a mount point starts with a slash and has no stretch of 256
    characters without one; a pool name has valid characters only, starts with a
    letter, is neither "mirror" nor "raidz" and not 'c' followed by a digit.  The
    check of the zpool command opens exactly the pool names, and creates or imports
    only those that are not "log" and do not begin with "mirror", "raidz" or "spare";
    it has a message for exactly the names it refuses.  A name is hidden exactly when
    it has a '$'.

    These are the grammars of the code.  The manual pages and the comment above
    [permset_namecheck] describe others in the cases of [namecheck_documented]. *)
Theorem namecheck_grammars :
  accepts snapshot_namecheck (fun s => word s /\ zlen s < MAXNAMELEN) /\ accepts permset_namecheck permset /\
  accepts dataset_namecheck (fun s => dataset s /\ zlen s < MAXNAMELEN) /\
  accepts (fun mem => mountpoint_namecheck (Some mem)) (fun s => exists t, s = slash :: t /\ short t) /\
  accepts pool_namecheck pool_name /\
  (forall isopen s, nonzero s -> exists b m, zpool_name_valid isopen (s ++ [0]) = Ok (b, m) /\
     (b = true <-> pool_name s /\ (isopen = false -> ~ reserved_name s)) /\ (m = None <-> b = true)) /\
  forall s, nonzero s -> dataset_name_hidden (s ++ [0]) = Ok (bool_decide (dollar ∈ s)).
Proof. exact (conj snapshot_ok (conj permset_ok (conj dataset_ok (conj mountpoint_ok (conj pool_ok (conj name_valid_ok hidden_ok)))))). Qed.

(** Where the documents describe other names.  zpool(8) lets a pool name contain
    letters, digits, '_', '-' and '.', and reserves the names "mirror", "raidz",
    "spare" and "log": the code creates a pool "a:b"; it opens pools called "spare" and
    "log", which only their creation and import refuse; and it refuses to create
    "mirrored" and "spare1", whose names only begin with a reserved one.  zfs(8) and the
    comment above [permset_namecheck] allow a permission set 64 characters: the code
    refuses the 64th. *)
Theorem namecheck_documented :
  zpool_name_valid false [97; 58; 98; 0] = Ok (true, None) /\
  zpool_name_valid true (spare ++ [0]) = Ok (true, None) /\ zpool_name_valid true (log ++ [0]) = Ok (true, None) /\
  pool_namecheck (spare ++ [0]) = Ok None /\ pool_namecheck (log ++ [0]) = Ok None /\
  zpool_name_valid false (mirror ++ [101; 100; 0]) = Ok (false, Some ("name is reserved"%string, None)) /\
  zpool_name_valid false (spare ++ [49; 0]) = Ok (false, Some ("name is reserved"%string, None)) /\
  permset_namecheck (at_sign :: replicate 62 97 ++ [0]) = Ok None /\
  permset_namecheck (at_sign :: replicate 63 97 ++ [0]) = Ok (no NAME_ERR_TOOLONG).
Proof. by vm_compute. Qed.

(** On "a/b@c" and on "a@b/c". *)
Lemma namecheck_grammars_witness :
  dataset_namecheck [97; 47; 98; 64; 99; 0] = Ok None /\ dataset [97; 47; 98; 64; 99] /\
  dataset_namecheck [97; 64; 98; 47; 99; 0] = Ok (no NAME_ERR_TRAILING_SLASH) /\ ~ dataset [97; 64; 98; 47; 99].
Proof.
  destruct namecheck_grammars as (_ & _ & H & _).
  assert (nonzero [97; 47; 98; 64; 99]) as N1 by by repeat constructor. assert (nonzero [97; 64; 98; 47; 99]) as N2 by by repeat constructor.
  destruct (H _ N1) as (r & Hr & Hd), (H _ N2) as (q & Hq & Hn).
  vm_compute in Hr. vm_compute in Hq. injection Hr as <-. injection Hq as <-.
  split_and!; [reflexivity|by apply Hd|reflexivity|]. intros Hx. discriminate (proj2 Hn (conj Hx eq_refl)).
Defined.

(** A pool's name is the name of its root dataset. *)
Theorem pool_name_dataset s : pool_name s -> dataset s /\ zlen s < MAXNAMELEN.
Proof. intros (Hv & Hlen & (c & t & -> & _) & _). split; [|done]. by apply d_word. Qed.

End Namecheck.
