(* ===== verification/ZfsRlock.v ===== *)
(** * File range locks: fs/zfs/zfs_rlock.c

    One table of range locks (the [z_range_avl] and [z_range_lock] of a znode).
    The [rl_t] structures live in a heap and the tree holds their addresses, so
    the callers' handles, the proxies that replace them and the nodes of the
    tree are the same objects as in the code.  The tree is any implementation of
    [OrdTree].  A failed [ASSERT] is [Err Panic] and a dangling pointer
    [Err Fault]; the theorems show that neither happens.

    Every entry into the code runs under [z_range_lock] up to its return or to
    a [cv_wait]; each definition below is such a piece, and returns the condition
    variable slept on or the broadcasts made.  RlockThreads.v puts them together.
    Reference counts are unbounded; the code keeps one per held lock in 32 bits. *)

From Stdlib Require Import List Lia ZArith Bool.
From stdpp Require Import base option numbers list gmap.
From S2P Require Import Prelude OrdTree Avl.
Local Open Scope Z_scope.

Module ZfsRlock.

Inductive rl_type := RL_READER | RL_WRITER | RL_APPEND.

#[global] Instance rl_type_eq_dec : EqDecision rl_type.
Proof. solve_decision. Defined.

Record rl := Rl {
  r_off : Z;
  r_len : Z;
  r_cnt : Z;
  r_type : rl_type;
  r_proxy : bool;
  r_write_wanted : bool;
  r_read_wanted : bool
}.

Definition set_range (r : rl) (off len : Z) : rl :=
  Rl off len (r_cnt r) (r_type r) (r_proxy r) (r_write_wanted r) (r_read_wanted r).
Definition set_cnt (r : rl) (cnt : Z) : rl :=
  Rl (r_off r) (r_len r) cnt (r_type r) (r_proxy r) (r_write_wanted r) (r_read_wanted r).
Definition set_type (r : rl) (ty : rl_type) : rl :=
  Rl (r_off r) (r_len r) (r_cnt r) ty (r_proxy r) (r_write_wanted r) (r_read_wanted r).
Definition want_write (r : rl) : rl :=
  Rl (r_off r) (r_len r) (r_cnt r) (r_type r) (r_proxy r) true (r_read_wanted r).
Definition want_read (r : rl) : rl :=
  Rl (r_off r) (r_len r) (r_cnt r) (r_type r) (r_proxy r) (r_write_wanted r) true.

(** [r_off + r_len], in 64 bits. *)
Definition r_end (r : rl) : Z := u64 (r_off r + r_len r).

(** What [zfs_range_lock_writer] reads of the znode. *)
Record znode := Znode {
  z_vnode : bool;
  zp_size : Z;
  z_blksz : Z;
  z_max_blksz : Z
}.

Definition ISP2 (x : Z) : bool := Z.land x (x - 1) =? 0.

(** A condition variable of the lock at an address. *)
Inductive cv := WrCv (p : nat) | RdCv (p : nat).

#[global] Instance cv_eq_dec : EqDecision cv.
Proof. solve_decision. Defined.

(** A node of the tree and the lock it points to. *)
Abbreviation ent := (nat * rl)%type.

Section Rlock.
Context {OT : OrdTree nat}.

Record table := Table {
  z_range_avl : ot nat;
  heap : gmap nat rl;
  next_addr : nat
}.

Definition set_tree (s : table) (t : ot nat) : table := Table t (heap s) (next_addr s).
Definition store (s : table) (p : nat) (r : rl) : table :=
  Table (z_range_avl s) (<[p := r]> (heap s)) (next_addr s).

Definition deref (s : table) (p : nat) : outcome rl :=
  match heap s !! p with Some r => Ok r | None => Err Fault end.

Definition kmem_alloc (s : table) (r : rl) : table * nat :=
  (Table (z_range_avl s) (<[next_addr s := r]> (heap s)) (S (next_addr s)), next_addr s).
Definition kmem_free (s : table) (p : nat) : table :=
  Table (z_range_avl s) (delete p (heap s)) (next_addr s).

Definition zfs_range_compare (rl1 rl2 : rl) : comparison :=
  if r_off rl2 <? r_off rl1 then Gt else if r_off rl1 <? r_off rl2 then Lt else Eq.

(** The tree compares the locks its nodes point to. *)
Definition cmp_at (s : table) (r : rl) (p : nat) : comparison :=
  match heap s !! p with Some r' => zfs_range_compare r r' | None => Lt end.

(** [avl_add] of the lock at an address. *)
Definition tree_add (s : table) (p : nat) : outcome table :=
  r ← deref s p;
  match ot_find (cmp_at s r) (z_range_avl s) with
  | inl _ => Err Panic
  | inr wher => t ← ot_insert (z_range_avl s) p wher; Ok (set_tree s t)
  end.

Definition tree_remove (s : table) (p : nat) : outcome table :=
  t ← ot_remove (z_range_avl s) p; Ok (set_tree s t).

(** ** Proxies *)

Definition zfs_range_proxify (s : table) (p : nat) : outcome (table * nat) :=
  r ← deref s p;
  if r_proxy r then Ok (s, p) else
  _ ← verify (r_cnt r =? 1);
  _ ← verify (negb (r_write_wanted r));
  _ ← verify (negb (r_read_wanted r));
  s ← tree_remove s p;
  let s := store s p (set_cnt r 0) in
  let '(s, proxy) := kmem_alloc s (Rl (r_off r) (r_len r) 1 RL_READER true false false) in
  s ← tree_add s proxy;
  Ok (s, proxy).

Definition zfs_range_split (s : table) (p : nat) (off : Z) : outcome (table * nat) :=
  r ← deref s p;
  _ ← verify (1 <? r_len r);
  _ ← verify (r_off r <? off);
  _ ← verify (off <? r_end r);
  _ ← verify (negb (r_write_wanted r));
  _ ← verify (negb (r_read_wanted r));
  let '(s, rear) :=
    kmem_alloc s (Rl off (u64 (r_off r + r_len r - off)) (r_cnt r) RL_READER true false false) in
  '(s, front) ← zfs_range_proxify s p;
  fr ← deref s front;
  let s := store s front (set_range fr (r_off fr) (u64 (off - r_off r))) in
  t ← ot_insert_here (z_range_avl s) rear front true;
  Ok (set_tree s t, front).

Definition zfs_range_new_proxy (s : table) (off len : Z) : outcome table :=
  _ ← verify (negb (len =? 0));
  let '(s, p) := kmem_alloc s (Rl off len 1 RL_READER true false false) in
  tree_add s p.

(** ** Adding a reader *)

Definition bump (s : table) (p : nat) : outcome table :=
  r ← deref s p; Ok (store s p (set_cnt r (r_cnt r + 1))).

(** One round of the search forward: [prev] and [next] are the loop's. *)
Definition add_round (off len : Z) (st : table * option nat * option nat)
    : outcome ((table * option nat * option nat) + table) :=
  let '(s, prev, next) := st in
  let fin :=
    match prev with
    | None => Ok (inr s)
    | Some p =>
        rp ← deref s p;
        s ← zfs_range_new_proxy s (r_end rp) (u64 (u64 (off + len) - r_end rp));
        Ok (inr s)
    end in
  match next with
  | None => fin
  | Some q =>
      rq ← deref s q;
      if u64 (off + len) <=? r_off rq then fin else
      s ← match prev with
          | None => Ok s
          | Some p =>
              rp ← deref s p;
              if r_end rp <? r_off rq
              then zfs_range_new_proxy s (r_end rp) (u64 (r_off rq - r_end rp)) else Ok s
          end;
      if u64 (off + len) =? r_end rq then
        '(s, q) ← zfs_range_proxify s q;
        s ← bump s q;
        Ok (inr s)
      else if u64 (off + len) <? r_end rq then
        '(s, q) ← zfs_range_split s q (u64 (off + len));
        s ← bump s q;
        Ok (inr s)
      else
        '(s, q) ← zfs_range_proxify s q;
        s ← bump s q;
        Ok (inl (s, Some q, ot_walk (z_range_avl s) q true))
  end.

Definition zfs_range_add_reader (s : table) (new : nat) (prev : option nat)
    (wher : option (ot_index nat)) : outcome table :=
  rn ← deref s new;
  let off := r_off rn in
  let len := r_len rn in
  '(s, prev) ←
    match prev with
    | None => Ok (s, None)
    | Some p =>
        rp ← deref s p;
        if r_end rp <=? off then Ok (s, None)
        else if negb (r_off rp =? off) then
          '(s, front) ← zfs_range_split s p off;
          Ok (s, ot_walk (z_range_avl s) front true)
        else Ok (s, Some p)
    end;
  _ ← match prev with
      | None => Ok tt
      | Some p => rp ← deref s p; verify (r_off rp =? off)
      end;
  let next :=
    match prev, wher with
    | Some p, _ => Some p
    | None, Some w => ot_nearest (z_range_avl s) w true
    | None, None => None
    end in
  free ← match next with
         | None => Ok true
         | Some q => rq ← deref s q; Ok (u64 (off + len) <=? r_off rq)
         end;
  if (free : bool) then
    match wher with
    | Some w => t ← ot_insert (z_range_avl s) new w; Ok (set_tree s t)
    | None => Err Fault
    end
  else
    s ← match next with
        | None => Ok s
        | Some q =>
            rq ← deref s q;
            if off <? r_off rq then zfs_range_new_proxy s off (u64 (r_off rq - off)) else Ok s
        end;
    let s := store s new (set_cnt rn 0) in
    iter (S (Z.to_nat (ot_numnodes (z_range_avl s)))) (add_round off len) (s, None, next).

(** ** Locking: a pass either gets the lock or goes to sleep on a variable *)

Inductive attempt :=
  | Got (s : table)
  | Wait (s : table) (on : cv).

Definition sleep_write (s : table) (p : nat) : outcome attempt :=
  r ← deref s p; Ok (Wait (store s p (want_write r)) (WrCv p)).
Definition sleep_read (s : table) (p : nat) : outcome attempt :=
  r ← deref s p; Ok (Wait (store s p (want_read r)) (RdCv p)).

(** The range a writer asks for: the end of the file for an append, the whole
    file when the block size has to grow. *)
Definition writer_range (zp : znode) (r : rl) (len : Z) : rl :=
  if z_vnode zp then
    let r := if decide (r_type r = RL_APPEND) then set_range r (zp_size zp) (r_len r) else r in
    let end_size := Z.max (zp_size zp) (u64 (r_off r + len)) in
    if (z_blksz zp <? end_size) &&
       (negb (ISP2 (z_blksz zp)) || (z_blksz zp <? z_max_blksz zp))
    then set_range r 0 (2 ^ 64 - 1) else r
  else r.

(** One round of the loop of [zfs_range_lock_writer]. *)
Definition zfs_range_lock_writer (zp : znode) (s : table) (new : nat) (len : Z) : outcome attempt :=
  r ← deref s new;
  let r := writer_range zp r len in
  let s := store s new r in
  let take := store s new (set_type r RL_WRITER) in
  if ot_numnodes (z_range_avl s) =? 0 then s ← tree_add take new; Ok (Got s)
  else
    match ot_find (cmp_at s r) (z_range_avl s) with
    | inl p => sleep_write s p
    | inr wher =>
        let before :=
          match ot_nearest (z_range_avl s) wher false with
          | Some p =>
              rp ← deref s p;
              if r_off r <? r_end rp then sleep_write s p
              else t ← ot_insert (z_range_avl s) new wher; Ok (Got (set_tree take t))
          | None => t ← ot_insert (z_range_avl s) new wher; Ok (Got (set_tree take t))
          end in
        match ot_nearest (z_range_avl s) wher true with
        | Some p =>
            rp ← deref s p;
            if r_off rp <? r_end r then sleep_write s p else before
        | None => before
        end
    end.

(** [new->r_off = off; new->r_len = len;] after a wait. *)
Definition writer_reset (s : table) (new : nat) (off len : Z) : outcome table :=
  r ← deref s new; Ok (store s new (set_range r off len)).

(** The search forward of [zfs_range_lock_reader]: [Some p] is a lock to wait for. *)
Definition read_round (s : table) (en : Z) (next : option nat)
    : outcome (option nat + option nat) :=
  match next with
  | None => Ok (inr None)
  | Some q =>
      rq ← deref s q;
      if en <=? r_off rq then Ok (inr None)
      else if bool_decide (r_type rq = RL_WRITER) || r_write_wanted rq then Ok (inr (Some q))
      else if en <=? r_end rq then Ok (inr None)
      else Ok (inl (ot_walk (z_range_avl s) q true))
  end.

Definition zfs_range_lock_reader (s : table) (new : nat) : outcome attempt :=
  rn ← deref s new;
  let off := r_off rn in
  let en := u64 (off + r_len rn) in
  let '(prev, wher) :=
    match ot_find (cmp_at s rn) (z_range_avl s) with
    | inl p => (Some p, None)
    | inr w => (ot_nearest (z_range_avl s) w false, Some w)
    end in
  let got := s ← zfs_range_add_reader s new prev wher; Ok (Got s) in
  let search :=
    let next :=
      match prev, wher with
      | Some p, _ => ot_walk (z_range_avl s) p true
      | None, Some w => ot_nearest (z_range_avl s) w true
      | None, None => None
      end in
    blocked ← iter (S (Z.to_nat (ot_numnodes (z_range_avl s)))) (read_round s en) next;
    match blocked with
    | Some q => sleep_read s q
    | None => got
    end in
  match prev with
  | None => search
  | Some p =>
      rp ← deref s p;
      if off <? r_end rp then
        if bool_decide (r_type rp = RL_WRITER) || r_write_wanted rp then sleep_read s p
        else if en <? r_end rp then got
        else search
      else search
  end.

(** [zfs_range_lock] up to its return or its first sleep; the address of the new
    lock is the caller's handle. *)
Definition zfs_range_lock (zp : znode) (s : table) (off len : Z) (ty : rl_type)
    : outcome (nat * attempt) :=
  let '(s, new) := kmem_alloc s (Rl off len 1 ty false false false) in
  a ← match ty with
      | RL_READER =>
          if ot_numnodes (z_range_avl s) =? 0 then s ← tree_add s new; Ok (Got s)
          else zfs_range_lock_reader s new
      | _ => zfs_range_lock_writer zp s new len
      end;
  Ok (new, a).

(** What a woken thread goes on with. *)
Definition zfs_range_retry (zp : znode) (s : table) (new : nat) (off len : Z) (ty : rl_type)
    : outcome attempt :=
  match ty with
  | RL_READER => zfs_range_lock_reader s new
  | _ => s ← writer_reset s new off len; zfs_range_lock_writer zp s new len
  end.

(** ** Unlocking: the broadcasts come with the new state *)

Definition wakeups (p : nat) (r : rl) : list cv :=
  (if r_write_wanted r then [WrCv p] else []) ++ (if r_read_wanted r then [RdCv p] else []).

(** One round over the proxies of the range; [rl] is [None] for a NULL pointer. *)
Definition unlock_round (st : table * Z * option nat * list cv)
    : outcome ((table * Z * option nat * list cv) + (table * list cv)) :=
  let '(s, len, p, evs) := st in
  if len =? 0 then Ok (inr (s, evs)) else
  match p with
  | None => Err Fault
  | Some p =>
      r ← deref s p;
      let len := u64 (len - r_len r) in
      next ← (if negb (len =? 0) then
                match ot_walk (z_range_avl s) p true with
                | None => Err Panic
                | Some q =>
                    rq ← deref s q;
                    _ ← verify (r_end r =? r_off rq);
                    _ ← verify (negb (r_cnt rq =? 0));
                    _ ← verify (bool_decide (r_type rq = RL_READER));
                    Ok (Some q)
                end
              else Ok None);
      let r := set_cnt r (r_cnt r - 1) in
      let s := store s p r in
      if r_cnt r =? 0 then
        s ← tree_remove s p;
        Ok (inl (kmem_free s p, len, next, evs ++ wakeups p r))
      else Ok (inl (s, len, next, evs))
  end.

Definition zfs_range_unlock_reader (s : table) (remove : nat) : outcome (table * list cv) :=
  r ← deref s remove;
  if r_cnt r =? 1 then
    s ← tree_remove s remove;
    Ok (kmem_free s remove, wakeups remove r)
  else
    _ ← verify (r_cnt r =? 0);
    _ ← verify (negb (r_write_wanted r));
    _ ← verify (negb (r_read_wanted r));
    match ot_find (cmp_at s r) (z_range_avl s) with
    | inr _ => Err Panic
    | inl p =>
        rp ← deref s p;
        _ ← verify (negb (r_cnt rp =? 0));
        _ ← verify (bool_decide (r_type rp = RL_READER));
        '(s, evs) ← iter (S (S (Z.to_nat (ot_numnodes (z_range_avl s))))) unlock_round
                      (s, r_len r, Some p, []);
        Ok (kmem_free s remove, evs)
    end.

Definition zfs_range_unlock (s : table) (p : nat) : outcome (table * list cv) :=
  r ← deref s p;
  _ ← verify (bool_decide (r_type r = RL_WRITER) || bool_decide (r_type r = RL_READER));
  _ ← verify ((r_cnt r =? 1) || (r_cnt r =? 0));
  _ ← verify (negb (r_proxy r));
  if bool_decide (r_type r = RL_WRITER) then
    s ← tree_remove s p;
    Ok (kmem_free s p, wakeups p r)
  else zfs_range_unlock_reader s p.

Definition zfs_range_reduce (s : table) (p : nat) (off len : Z) : outcome (table * list cv) :=
  r ← deref s p;
  _ ← verify (ot_numnodes (z_range_avl s) =? 1);
  _ ← verify (r_off r =? 0);
  _ ← verify (bool_decide (r_type r = RL_WRITER));
  _ ← verify (negb (r_proxy r));
  _ ← verify (r_len r =? 2 ^ 64 - 1);
  _ ← verify (r_cnt r =? 1);
  Ok (store s p (set_range r off len), wakeups p r).

(** ** The table as a sequence of locks *)

(** [l] is what the tree holds, in order, with the locks its nodes point to. *)
Definition view (s : table) (l : list ent) : Prop :=
  ot_ok (z_range_avl s) /\ ot_elems (z_range_avl s) = l.*1 /\
  (forall e, In e l -> heap s !! e.1 = Some e.2) /\ List.NoDup l.*1 /\
  (forall p, is_Some (heap s !! p) -> (p < next_addr s)%nat).

Definition rl_ok (r : rl) : Prop :=
  0 <= r_off r /\ 0 < r_len r /\ r_off r + r_len r < 2 ^ 64.

(** In order, not overlapping. *)
Fixpoint sorted (l : list ent) : Prop :=
  match l with
  | [] => True
  | e :: l => rl_ok e.2 /\ (forall e', In e' l -> r_off e.2 + r_len e.2 <= r_off e'.2) /\ sorted l
  end.

Lemma r_end_ok r : rl_ok r -> r_end r = r_off r + r_len r.
Proof. intros (? & ? & ?). apply wrap_small. lia. Qed.

Lemma sorted_app l1 l2 :
  sorted (l1 ++ l2) <-> sorted l1 /\ sorted l2 /\
    (forall a b, In a l1 -> In b l2 -> r_off a.2 + r_len a.2 <= r_off b.2).
Proof.
  induction l1 as [|e l1 IH]; cbn [sorted app]; [naive_solver|].
  rewrite IH. setoid_rewrite in_app_iff. cbn [In]. naive_solver.
Qed.

Lemma sorted_in l e : sorted l -> In e l -> rl_ok e.2.
Proof. induction l; cbn; naive_solver. Qed.

Lemma in_fst (l : list ent) e : In e l -> In e.1 l.*1.
Proof. intros H. apply in_map_iff. eauto. Qed.

Lemma fst_in (l : list ent) p : In p l.*1 -> exists r, In (p, r) l.
Proof. intros ([? r] & <- & H)%in_map_iff. eauto. Qed.

Lemma view_heap s l p r : view s l -> In (p, r) l -> heap s !! p = Some r.
Proof. intros (_ & _ & H & _) Hin. apply (H _ Hin). Qed.

Lemma view_deref s l p r : view s l -> In (p, r) l -> deref s p = Ok r.
Proof. intros Hv Hin. unfold deref. by rewrite (view_heap s l p r). Qed.

Lemma deref_heap s p r : heap s !! p = Some r -> deref s p = Ok r.
Proof. unfold deref. by intros ->. Qed.

Lemma view_lt s l p : view s l -> is_Some (heap s !! p) -> (p < next_addr s)%nat.
Proof. intros (_ & _ & _ & _ & H). apply H. Qed.

Lemma view_fresh s l : view s l -> heap s !! next_addr s = None.
Proof.
  intros Hv. destruct (heap s !! next_addr s) eqn:E; [|done].
  pose proof (view_lt s l _ Hv (mk_is_Some _ _ E)). lia.
Qed.

Lemma view_nodup s l : view s l -> List.NoDup l.*1.
Proof. intros (_ & _ & _ & H & _). done. Qed.

Lemma view_numnodes s l : view s l -> ot_numnodes (z_range_avl s) = zlen l.
Proof.
  intros (Hok & He & _). rewrite ot_numnodes_spec, He by done. by rewrite length_fmap.
Qed.

Lemma nodup_mid (l1 l2 : list ent) p r :
  List.NoDup (l1 ++ (p, r) :: l2).*1 -> ~ In p (l1 ++ l2).*1.
Proof. rewrite fmap_app. cbn. intros H%NoDup_remove_2. by rewrite fmap_app. Qed.

Lemma view_walk s l1 p r l2 : view s (l1 ++ (p, r) :: l2) ->
  ot_walk (z_range_avl s) p true = fst <$> head l2.
Proof.
  intros (_ & He & _ & Hn & _). rewrite fmap_app in He, Hn. cbn in He, Hn.
  destruct (ot_walk_spec _ p l1.*1 l2.*1 He Hn) as [_ ->]. by destruct l2.
Qed.

(** *** Searching *)

Lemma cmp_split_at s l1 l2 r : view s (l1 ++ l2) ->
  (forall e, In e l1 -> r_off e.2 < r_off r) -> (forall e, In e l2 -> r_off r < r_off e.2) ->
  cmp_split (cmp_at s r) l1.*1 [] l2.*1.
Proof.
  intros Hv H1 H2. unfold cmp_split.
  split_and!; [|done|]; apply List.Forall_forall; intros p ([q rq] & <- & Hin)%in_map_iff;
    unfold cmp_at, zfs_range_compare; cbn [fst].
  - rewrite (view_heap _ _ q rq Hv) by (apply in_app_iff; auto). specialize (H1 _ Hin). cbn in *.
    rewrite (proj2 (Z.ltb_lt _ _)) by lia. done.
  - rewrite (view_heap _ _ q rq Hv) by (apply in_app_iff; auto). specialize (H2 _ Hin). cbn in *.
    rewrite (proj2 (Z.ltb_ge _ _)), (proj2 (Z.ltb_lt _ _)) by lia. done.
Qed.

Lemma find_at s l1 p rp l2 r : view s (l1 ++ (p, rp) :: l2) -> sorted (l1 ++ (p, rp) :: l2) ->
  r_off rp = r_off r -> ot_find (cmp_at s r) (z_range_avl s) = inl p.
Proof.
  intros Hv Hs Hr. pose proof Hv as (Hok & He & Hh & _).
  apply sorted_app in Hs as (S1 & S2 & S3). cbn in S2. destruct S2 as (Hp & Hl2 & S2).
  destruct (ot_find_some (z_range_avl s) (cmp_at s r) l1.*1 [p] l2.*1) as (x & Hf & Hx); try done.
  - rewrite He, fmap_app. done.
  - unfold cmp_split. split_and!; apply List.Forall_forall.
    + intros q ([q' rq] & <- & Hin)%in_map_iff. unfold cmp_at, zfs_range_compare. cbn [fst].
      rewrite (view_heap _ _ q' rq Hv) by (apply in_app_iff; auto).
      specialize (S3 _ (p, rp) Hin (or_introl eq_refl)). pose proof (sorted_in _ _ S1 Hin) as (?&?&?).
      cbn in *. rewrite (proj2 (Z.ltb_lt _ _)) by lia. done.
    + intros q [<-|[]]. unfold cmp_at, zfs_range_compare.
      rewrite (view_heap _ _ p rp Hv) by (apply in_app_iff; cbn; auto). cbn.
      rewrite !(proj2 (Z.ltb_ge _ _)) by lia. done.
    + intros q ([q' rq] & <- & Hin)%in_map_iff. unfold cmp_at, zfs_range_compare. cbn [fst].
      rewrite (view_heap _ _ q' rq Hv) by (apply in_app_iff; cbn; auto).
      specialize (Hl2 _ Hin). destruct Hp as (?&?&?). cbn in *.
      rewrite (proj2 (Z.ltb_ge _ _)), (proj2 (Z.ltb_lt _ _)) by lia. done.
  - destruct Hx as [<-|[]]. done.
Qed.

(** Where an offset falls among the locks. *)
Lemma split_at_off l off : sorted l ->
  (exists l1 p rp l2, l = l1 ++ (p, rp) :: l2 /\ r_off rp = off) \/
  (exists l1 l2, l = l1 ++ l2 /\ (forall e, In e l1 -> r_off e.2 < off) /\
     (forall e, In e l2 -> off < r_off e.2)).
Proof.
  induction l as [|[p rp] l IH]; intros Hs.
  { right. exists [], []. split_and!; done. }
  destruct Hs as (Hp & Hl & Hs). cbn in Hp, Hl.
  destruct (decide (r_off rp = off)) as [He|Hne]; [left; exists [], p, rp, l; done|].
  destruct (decide (r_off rp < off)) as [Hlt|Hge].
  - destruct (IH Hs) as [(l1 & q & rq & l2 & -> & Hq)|(l1 & l2 & -> & H1 & H2)].
    + left. exists ((p, rp) :: l1), q, rq, l2. done.
    + right. exists ((p, rp) :: l1), l2. split_and!; try done. intros e [<-|He]; [done|auto].
  - right. exists [], ((p, rp) :: l). split_and!; try done. destruct Hp as (?&?&?).
    intros e [<-|He]; cbn; [lia|]. specialize (Hl e He). lia.
Qed.

Lemma rl_find_free s l1 l2 r : view s (l1 ++ l2) ->
  (forall e, In e l1 -> r_off e.2 < r_off r) -> (forall e, In e l2 -> r_off r < r_off e.2) ->
  exists i, ot_find (cmp_at s r) (z_range_avl s) = inr i /\
    ot_nearest (z_range_avl s) i false = fst <$> last l1 /\
    ot_nearest (z_range_avl s) i true = fst <$> head l2 /\
    forall x rx s', heap s' !! x = Some rx -> z_range_avl s' = z_range_avl s ->
      view s' (l1 ++ l2) -> ~ In x (l1 ++ l2).*1 ->
      exists t, ot_insert (z_range_avl s) x i = Ok t /\ view (set_tree s' t) (l1 ++ (x, rx) :: l2).
Proof.
  intros Hv H1 H2. pose proof Hv as (Hok & He & _). rewrite fmap_app in He.
  destruct (ot_find_none _ _ _ _ Hok He (cmp_split_at s l1 l2 r Hv H1 H2)) as (i & Hf & Hb & Ha & Hi).
  exists i. rewrite Hb, Ha. split_and!; [done|by rewrite fmap_last|by destruct l2|].
  intros x rx s' Hx Ht (_ & _ & Hh & Hn & Hlt) Hni. destruct (Hi x) as (t & Hins & Hok' & He').
  exists t. split; [done|]. unfold view, set_tree. cbn. rewrite fmap_app. cbn.
  split_and!; try done.
  - intros e [He1|[<-|He2]]%in_app_iff; [|done|]; apply Hh; apply in_app_iff; auto.
  - rewrite fmap_app in Hn, Hni. apply NoDup_Add with (a := x) (l := l1.*1 ++ l2.*1);
      [apply Add_app|done].
Qed.

(** *** Changing *)

Lemma in_mid {A} (l1 l2 : list A) x e : In e (l1 ++ x :: l2) <-> e = x \/ In e (l1 ++ l2).
Proof. rewrite !in_app_iff. cbn. naive_solver. Qed.

Lemma view_alloc s l r : view s l ->
  view (kmem_alloc s r).1 l /\ ~ In (next_addr s) l.*1 /\
  heap (kmem_alloc s r).1 !! next_addr s = Some r.
Proof.
  intros Hv. pose proof (view_fresh s l Hv) as Hf. destruct Hv as (H1 & H2 & H3 & H4 & H5).
  assert (~ In (next_addr s) l.*1) as Hni.
  { intros (e & Ee & Hin)%in_map_iff. specialize (H3 e Hin). rewrite Ee in H3. congruence. }
  unfold view, kmem_alloc. cbn. rewrite lookup_insert_eq. split_and!; try done.
  - intros e Hin. rewrite lookup_insert_ne; [auto|]. intros E. apply Hni. rewrite E. by apply in_fst.
  - intros p Hp. destruct (decide (p = next_addr s)) as [->|Hne]; [lia|].
    rewrite lookup_insert_ne in Hp by done. specialize (H5 p Hp). lia.
Qed.

Lemma alloc_ok s l r : view s l ->
  exists s', kmem_alloc s r = (s', next_addr s) /\ view s' l /\ ~ In (next_addr s) l.*1 /\
    heap s' !! next_addr s = Some r /\ next_addr s' = S (next_addr s) /\
    (forall k, k <> next_addr s -> heap s' !! k = heap s !! k).
Proof.
  intros Hv. destruct (view_alloc s l r Hv) as (H1 & H2 & H3).
  eexists. split_and!; try done. intros k Hk. cbn. by rewrite lookup_insert_ne.
Qed.

Lemma view_store s l1 p r r' l2 : view s (l1 ++ (p, r) :: l2) ->
  view (store s p r') (l1 ++ (p, r') :: l2).
Proof.
  intros Hv. pose proof (nodup_mid _ _ _ _ (view_nodup _ _ Hv)) as Hni.
  pose proof (view_heap s _ p r Hv) as Hp. destruct Hv as (H1 & H2 & H3 & H4 & H5).
  unfold view, store. cbn. rewrite !fmap_app in *. cbn in *. split_and!; try done.
  - intros e [->|Hin]%in_mid; cbn; [by rewrite lookup_insert_eq|].
    rewrite lookup_insert_ne; [apply H3, in_mid; auto|]. intros E. apply Hni. rewrite E.
    rewrite <- fmap_app. by apply in_fst.
  - intros q Hq. destruct (decide (q = p)) as [->|Hne].
    + apply H5. rewrite Hp; [done|]. apply in_mid. auto.
    + rewrite lookup_insert_ne in Hq by done. auto.
Qed.

Lemma view_store_out s l p r r' : view s l -> heap s !! p = Some r -> ~ In p l.*1 ->
  view (store s p r') l.
Proof.
  intros (H1 & H2 & H3 & H4 & H5) Hp Hni. unfold view, store. cbn. split_and!; try done.
  - intros e Hin. rewrite lookup_insert_ne; [auto|]. intros E. apply Hni. rewrite E. by apply in_fst.
  - intros q Hq. destruct (decide (q = p)) as [->|Hne]; [apply H5; eauto|].
    rewrite lookup_insert_ne in Hq by done. auto.
Qed.

Lemma view_free s l p : view s l -> ~ In p l.*1 -> view (kmem_free s p) l.
Proof.
  intros (H1 & H2 & H3 & H4 & H5) Hni. unfold view, kmem_free. cbn. split_and!; try done.
  - intros e Hin. rewrite lookup_delete_ne; [auto|]. intros E. apply Hni. rewrite E. by apply in_fst.
  - intros q Hq. apply H5. destruct (decide (q = p)) as [->|Hne].
    + rewrite lookup_delete_eq in Hq. by destruct Hq.
    + by rewrite lookup_delete_ne in Hq.
Qed.

Lemma tree_add_ok s l1 l2 p r : view s (l1 ++ l2) -> heap s !! p = Some r -> ~ In p (l1 ++ l2).*1 ->
  (forall e, In e l1 -> r_off e.2 < r_off r) -> (forall e, In e l2 -> r_off r < r_off e.2) ->
  exists s', tree_add s p = Ok s' /\ view s' (l1 ++ (p, r) :: l2) /\ heap s' = heap s /\
    next_addr s' = next_addr s.
Proof.
  intros Hv Hp Hni H1 H2. unfold tree_add, deref. rewrite Hp. run.
  destruct (rl_find_free s l1 l2 r Hv H1 H2) as (i & -> & _ & _ & Hi).
  destruct (Hi p r s Hp eq_refl Hv Hni) as (t & -> & Hv'). run. eauto.
Qed.

Lemma tree_remove_ok s l1 p r l2 : view s (l1 ++ (p, r) :: l2) ->
  exists s', tree_remove s p = Ok s' /\ view s' (l1 ++ l2) /\ heap s' = heap s /\
    next_addr s' = next_addr s.
Proof.
  intros (H1 & H2 & H3 & H4 & H5). unfold tree_remove.
  rewrite fmap_app in H2, H4. cbn in H2, H4.
  destruct (ot_remove_spec _ p l1.*1 l2.*1 H1 H2 H4) as (t & -> & Ht & He). run.
  eexists. split; [done|]. split; [|done]. unfold view, set_tree. cbn. rewrite fmap_app.
  split_and!; try done; [|by apply NoDup_remove_1 in H4].
  intros e Hin. apply H3, in_mid. auto.
Qed.

(** ** Counting *)

Definition inside (r : rl) (x : Z) : bool := (r_off r <=? x) && (x <? r_off r + r_len r).

(** The reference count at an offset. *)
Fixpoint cnt_at (l : list ent) (x : Z) : Z :=
  match l with
  | [] => 0
  | e :: l => (if inside e.2 x then r_cnt e.2 else 0) + cnt_at l x
  end.

(** No lock straddles the offset. *)
Definition cuts (l : list ent) (b : Z) : Prop :=
  forall e, In e l -> b <= r_off e.2 \/ r_off e.2 + r_len e.2 <= b.

Lemma cnt_at_app l1 l2 x : cnt_at (l1 ++ l2) x = cnt_at l1 x + cnt_at l2 x.
Proof. induction l1; cbn; lia. Qed.

Lemma cuts_mid l1 l2 e b : cuts (l1 ++ e :: l2) b <->
  (b <= r_off e.2 \/ r_off e.2 + r_len e.2 <= b) /\ cuts (l1 ++ l2) b.
Proof. unfold cuts. setoid_rewrite in_mid. naive_solver. Qed.

Definition ent_ok (e : ent) : Prop :=
  let r := e.2 in
  1 <= r_cnt r /\ r_type r <> RL_APPEND /\
  (r_proxy r = true -> r_type r = RL_READER) /\ (r_proxy r = false -> r_cnt r = 1) /\
  (r_read_wanted r = true -> r_type r = RL_WRITER \/ r_write_wanted r = true).

(** A lock that a reader may share. *)
Definition sharable (r : rl) : Prop := r_type r = RL_READER /\ r_write_wanted r = false.

Lemma sharable_quiet e : ent_ok e -> sharable e.2 -> r_read_wanted e.2 = false.
Proof.
  intros (_ & _ & _ & _ & H) [H1 H2]. destruct (r_read_wanted e.2); [|done].
  destruct (H eq_refl); congruence.
Qed.

(** What a change of the table leaves alone: locks that are not in the tree,
    writers and locks somebody waits for; a handle that leaves the tree keeps
    its range; what enters the tree is a new proxy. *)
Definition frame (s : table) (l : list ent) (s' : table) (l' : list ent) : Prop :=
  (next_addr s <= next_addr s')%nat /\
  (forall k r, heap s !! k = Some r -> ~ In k l.*1 -> heap s' !! k = Some r /\ ~ In k l'.*1) /\
  (forall e, In e l -> ~ sharable e.2 -> In e l') /\
  (forall k r, In (k, r) l -> r_proxy r = false -> sharable r ->
     In (k, r) l' \/ (~ In k l'.*1 /\ heap s' !! k = Some (set_cnt r 0))) /\
  (forall e, In e l' -> r_proxy e.2 = false -> In e l) /\
  (forall e, In e l' -> r_proxy e.2 = true ->
     (next_addr s <= e.1)%nat \/ exists r, In (e.1, r) l /\ r_proxy r = true).

(** The end of something that is locked. *)
Definition edge (l : list ent) (c : Z) : Prop :=
  cuts l c /\ (0 < cnt_at l c \/ 0 < cnt_at l (c - 1)).

(** A change of the table that adds [delta x] to the count at [x]. *)
Definition changed (s : table) (l : list ent) (s' : table) (l' : list ent) (delta : Z -> Z) : Prop :=
  view s' l' /\ sorted l' /\ Forall ent_ok l' /\ frame s l s' l' /\
  (forall x, cnt_at l' x = cnt_at l x + delta x) /\ (forall c, edge l c -> cuts l' c) /\
  (forall x, 0 <= delta x).

Definition span (a b x : Z) : Z := if (a <=? x) && (x <? b) then 1 else 0.

Lemma span_join a b c x : a <= b <= c -> span a b x + span b c x = span a c x.
Proof. intros. unfold span. repeat step_if; try done; lia. Qed.

Lemma frame_refl s l s' : view s l -> (next_addr s <= next_addr s')%nat ->
  (forall k r, heap s !! k = Some r -> ~ In k l.*1 -> heap s' !! k = Some r) -> frame s l s' l.
Proof.
  intros Hv Hn Hk. unfold frame. split_and!; try done; eauto.
  intros [k r] Hin Hp. right. eauto.
Qed.

Lemma frame_trans s1 l1 s2 l2 s3 l3 :
  frame s1 l1 s2 l2 -> frame s2 l2 s3 l3 -> frame s1 l1 s3 l3.
Proof.
  intros (A1 & A2 & A3 & A4 & A5 & A6) (B1 & B2 & B3 & B4 & B5 & B6).
  unfold frame. split_and!; [lia| | | | |].
  - intros k r Hk Hn. destruct (A2 k r Hk Hn). eauto.
  - eauto.
  - intros k r Hin Hp Hs. destruct (A4 k r Hin Hp Hs) as [?|[? ?]]; [eauto|]. right. naive_solver.
  - eauto.
  - intros e Hin Hp. destruct (B6 e Hin Hp) as [?|(r & Hr & Hrp)]; [left; lia|].
    apply (A6 (e.1, r) Hr Hrp).
Qed.

Lemma changed_trans s1 l1 s2 l2 s3 l3 d1 d2 d :
  changed s1 l1 s2 l2 d1 -> changed s2 l2 s3 l3 d2 -> (forall x, d1 x + d2 x = d x) ->
  changed s1 l1 s3 l3 d.
Proof.
  intros (A1 & A2 & A3 & A4 & A5 & A6 & A7) (B1 & B2 & B3 & B4 & B5 & B6 & B7) Hd.
  unfold changed. split_and!; try done; [by eapply frame_trans| | |].
  - intros x. rewrite B5, A5, <- Hd. lia.
  - intros c Hc. apply B6. split; [by apply A6|]. rewrite !A5. destruct Hc as [_ Hc].
    pose proof (A7 c). pose proof (A7 (c - 1)). lia.
  - intros x. specialize (A7 x). specialize (B7 x). rewrite <- Hd. lia.
Qed.

(** A new proxy enters the tree. *)
Lemma frame_add_proxy s l s2 l1 l2 s3 q rq :
  frame s l s2 (l1 ++ l2) -> view s l -> (next_addr s2 <= next_addr s3)%nat ->
  (forall k, k <> q -> heap s3 !! k = heap s2 !! k) -> (next_addr s <= q)%nat ->
  r_proxy rq = true -> frame s l s3 (l1 ++ (q, rq) :: l2).
Proof.
  intros (A1 & A2 & A3 & A4 & A5 & A6) Hv Hn Hh Hq Hp.
  assert (forall k r, heap s !! k = Some r -> k <> q) as Hne.
  { intros k r Hk ->. pose proof (view_lt s l q Hv (mk_is_Some _ _ Hk)). lia. }
  assert (forall k, k <> q -> ~ In k (l1 ++ l2).*1 -> ~ In k (l1 ++ (q, rq) :: l2).*1) as Hni.
  { intros k Hk Hi. rewrite !fmap_app in *. cbn. rewrite in_app_iff in *. cbn. naive_solver. }
  unfold frame. split_and!; [lia| | | | |].
  - intros k r Hk Hin. destruct (A2 k r Hk Hin). rewrite Hh by eauto. eauto.
  - intros e Hin Hs. apply in_mid. eauto.
  - intros k r Hin Hrp Hs. assert (k <> q) by (eapply Hne, view_heap; eauto). rewrite Hh by done.
    destruct (A4 k r Hin Hrp Hs) as [?|[? ?]]; [left; apply in_mid; auto|right; auto].
  - intros e [->|Hin]%in_mid Hep; [cbn in Hep; congruence|auto].
  - intros e [->|Hin]%in_mid Hep; [by left|auto].
Qed.

(** A handle leaves the tree. *)
Lemma frame_drop s l1 p r l2 s' :
  view s (l1 ++ (p, r) :: l2) -> r_proxy r = false -> sharable r ->
  (next_addr s <= next_addr s')%nat ->
  (forall k, k <> p -> heap s' !! k = heap s !! k) -> heap s' !! p = Some (set_cnt r 0) ->
  frame s (l1 ++ (p, r) :: l2) s' (l1 ++ l2).
Proof.
  intros Hv Hp Hsh Hn Hh Hpk. pose proof (nodup_mid _ _ _ _ (view_nodup _ _ Hv)) as Hni.
  assert (forall k, In k (l1 ++ l2).*1 -> In k (l1 ++ (p, r) :: l2).*1) as Hsub.
  { intros k. rewrite !fmap_app. cbn. rewrite !in_app_iff. cbn. tauto. }
  unfold frame. split_and!; [lia| | | | |].
  - intros k rk Hk Hin. split; [|auto]. rewrite Hh; [done|]. intros ->. apply Hin.
    rewrite fmap_app. apply in_app_iff. cbn. auto.
  - intros e [->|Hin]%in_mid Hs; [done|done].
  - intros k rk [[= -> ->]|Hin]%in_mid Hrp Hs; auto.
  - intros e Hin _. apply in_mid. auto.
  - intros [k rk] Hin Hep. right. exists rk. split; [apply in_mid; auto|done].
Qed.

(** A proxy changes in place. *)
Lemma frame_update s l1 q r r' l2 :
  view s (l1 ++ (q, r) :: l2) -> r_proxy r = true -> r_proxy r' = true -> sharable r ->
  frame s (l1 ++ (q, r) :: l2) (store s q r') (l1 ++ (q, r') :: l2).
Proof.
  intros Hv Hp Hp' Hsh. unfold frame. cbn. split_and!; [lia| | | | |].
  - intros k rk Hk Hin. rewrite !fmap_app in *. cbn in *. split; [|done].
    rewrite lookup_insert_ne; [done|]. intros ->. apply Hin, in_app_iff. cbn. auto.
  - intros e [->|Hin]%in_mid Hs; [done|]. apply in_mid. auto.
  - intros k rk [[= -> ->]|Hin]%in_mid Hrp Hs; [congruence|]. left. apply in_mid. auto.
  - intros e [->|Hin]%in_mid Hep; [cbn in Hep; congruence|]. apply in_mid. auto.
  - intros [k rk] [[= -> ->]|Hin]%in_mid Hep; right; [exists r|exists rk]; split; try done;
      apply in_mid; auto.
Qed.

(** ** Proxies, as changes of the table *)

Lemma sorted_swap l1 e e' l2 : sorted (l1 ++ e :: l2) ->
  r_off e'.2 = r_off e.2 -> r_len e'.2 = r_len e.2 -> sorted (l1 ++ e' :: l2).
Proof.
  intros (H1 & H2 & H3)%sorted_app Ho Hl. cbn in H2. apply sorted_app. cbn. unfold rl_ok in *.
  rewrite Ho, Hl. split_and!; try apply H1; try apply H2.
  intros a b Ha [<-|Hb]; [rewrite Ho; apply H3; cbn; auto|apply H3; cbn; auto].
Qed.

Lemma forall_mid {A} (P : A -> Prop) l1 x l2 :
  Forall P (l1 ++ x :: l2) <-> P x /\ Forall P (l1 ++ l2).
Proof. rewrite !List.Forall_app, List.Forall_cons_iff. tauto. Qed.

Lemma cnt_at_mid l1 e l2 x :
  cnt_at (l1 ++ e :: l2) x = (if inside e.2 x then r_cnt e.2 else 0) + cnt_at (l1 ++ l2) x.
Proof. rewrite !cnt_at_app. cbn. lia. Qed.

Lemma cnt_at_out l x : (forall e, In e l -> inside e.2 x = false) -> cnt_at l x = 0.
Proof.
  induction l as [|e l IH]; intros H; cbn; [done|]. rewrite (H e (or_introl eq_refl)), IH; [lia|].
  intros e' He. apply H. by right.
Qed.

Lemma cnt_at_gap l1 l2 a b x : (forall e, In e l1 -> r_off e.2 + r_len e.2 <= a) ->
  (forall e, In e l2 -> b <= r_off e.2) -> a <= x < b -> cnt_at (l1 ++ l2) x = 0.
Proof.
  intros H1 H2 Hx. apply cnt_at_out. intros e [Hin|Hin]%in_app_iff; unfold inside.
  - specialize (H1 e Hin). rewrite (proj2 (Z.ltb_ge x _)), andb_false_r by lia. done.
  - specialize (H2 e Hin). rewrite (proj2 (Z.leb_gt _ x)) by lia. done.
Qed.

Lemma new_proxy_ok s l1 l2 a b :
  view s (l1 ++ l2) -> sorted (l1 ++ l2) -> Forall ent_ok (l1 ++ l2) -> 0 <= a < b -> b < 2 ^ 64 ->
  (forall e, In e l1 -> r_off e.2 + r_len e.2 <= a) -> (forall e, In e l2 -> b <= r_off e.2) ->
  exists s' p rp, zfs_range_new_proxy s a (u64 (b - a)) = Ok s' /\
    r_off rp = a /\ r_len rp = b - a /\ sharable rp /\
    changed s (l1 ++ l2) s' (l1 ++ (p, rp) :: l2) (span a b).
Proof.
  intros Hv Hs Hok Hab Hb H1 H2. unfold zfs_range_new_proxy. rewrite wrap_small by lia.
  rewrite (proj2 (Z.eqb_neq (b - a) 0)) by lia. cbn [negb verify]. run.
  set (r := Rl a (b - a) 1 RL_READER true false false).
  destruct (view_alloc s _ r Hv) as (Hv1 & Hni & Hh).
  pose proof (proj1 (sorted_app _ _) Hs) as (S1 & S2 & S3).
  destruct (tree_add_ok (kmem_alloc s r).1 l1 l2 (next_addr s) r Hv1 Hh Hni)
    as (s' & Hadd & Hv' & Hh' & Hn').
  { intros e Hin. specialize (H1 e Hin). destruct (sorted_in _ _ S1 Hin) as (?&?&?). cbn. lia. }
  { intros e Hin. specialize (H2 e Hin). cbn. lia. }
  exists s', (next_addr s), r. split_and!; try done. unfold changed. split_and!; try done.
  - apply sorted_app. cbn. unfold rl_ok. cbn. split_and!; try done; try lia.
    + intros e Hin. specialize (H2 e Hin). lia.
    + intros c d Hc [<-|Hd]; cbn; [auto|]. specialize (S3 c d Hc Hd). lia.
  - apply forall_mid. split; [|done]. by unfold ent_ok.
  - apply (frame_add_proxy s _ (kmem_alloc s r).1 l1 l2); try done.
    + apply frame_refl; [done|cbn; lia|]. intros k rk Hk _. cbn.
      rewrite lookup_insert_ne; [done|]. intros E. rewrite <- E, (view_fresh s _ Hv) in Hk. done.
    + rewrite Hn'. done.
    + intros k _. by rewrite Hh'.
  - intros x. rewrite cnt_at_mid. cbn. unfold inside, span. cbn.
    replace (a + (b - a)) with b by lia. step_if; lia.
  - intros c [Hc Hpos]. apply cuts_mid. cbn. split; [|done].
    destruct (decide (c <= a)); [by left|]. destruct (decide (b <= c)); [right; lia|].
    rewrite !(cnt_at_gap l1 l2 a b) in Hpos by (done || lia). lia.
  - intros x. unfold span. step_if; lia.
Qed.

Lemma changed_refl s l : view s l -> sorted l -> Forall ent_ok l -> changed s l s l (fun _ => 0).
Proof.
  intros Hv Hs Hok. unfold changed. split_and!; try done; [by apply frame_refl| |].
  - intros. lia.
  - by intros c [].
Qed.

Lemma changed_nil s l a b : view s l -> sorted l -> Forall ent_ok l -> b <= a ->
  changed s l s l (span a b).
Proof.
  intros Hv Hs Hok Hab. assert (forall x, span a b x = 0) as Hz.
  { intros x. unfold span. step_if; [b2p; lia|done]. }
  destruct (changed_refl s _ Hv Hs Hok) as (C1 & C2 & C3 & C4 & C5 & C6 & C7).
  unfold changed. split_and!; try done; intros x; rewrite Hz; [lia|done].
Qed.

Definition proxied (r : rl) : rl :=
  Rl (r_off r) (r_len r) (r_cnt r) RL_READER true (r_write_wanted r) (r_read_wanted r).

Lemma proxied_sharable r : sharable r -> sharable (proxied r).
Proof. by intros []. Qed.

Lemma proxied_same r : r_type r = RL_READER -> r_proxy r = true -> proxied r = r.
Proof. destruct r. unfold proxied. cbn. by intros -> ->. Qed.

Lemma cuts_swap l1 e e' l2 c : r_off e'.2 = r_off e.2 -> r_len e'.2 = r_len e.2 ->
  cuts (l1 ++ e :: l2) c -> cuts (l1 ++ e' :: l2) c.
Proof. intros Ho Hl. rewrite !cuts_mid, Ho, Hl. done. Qed.

Lemma proxify_ok s l1 p r l2 :
  view s (l1 ++ (p, r) :: l2) -> sorted (l1 ++ (p, r) :: l2) -> Forall ent_ok (l1 ++ (p, r) :: l2) ->
  sharable r ->
  exists s' q, zfs_range_proxify s p = Ok (s', q) /\
    changed s (l1 ++ (p, r) :: l2) s' (l1 ++ (q, proxied r) :: l2) (fun _ => 0).
Proof.
  intros Hv Hs Hok Hsh. unfold zfs_range_proxify.
  rewrite (view_deref _ _ p r Hv) by (apply in_mid; auto). run.
  pose proof (proj1 (forall_mid _ _ _ _) Hok) as [He Hoks].
  pose proof (sharable_quiet _ He Hsh) as Hrw. cbn in Hrw.
  destruct (r_proxy r) eqn:Hp.
  { exists s, p. split; [done|]. rewrite proxied_same by (done || apply Hsh). by apply changed_refl. }
  pose proof He as (_ & _ & _ & Hc & _). specialize (Hc Hp). cbn in Hc.
  rewrite (proj2 Hsh), Hc, Hrw. cbn [negb Z.eqb verify]. run.
  destruct (tree_remove_ok s l1 p r l2 Hv) as (s1 & -> & Hv1 & Hh1 & Hn1). run.
  pose proof (nodup_mid _ _ _ _ (view_nodup _ _ Hv)) as Hni.
  assert (heap s1 !! p = Some r) as Hp1 by (rewrite Hh1; eapply view_heap; [done|apply in_mid; auto]).
  pose proof (view_store_out s1 _ p r (set_cnt r 0) Hv1 Hp1 Hni) as Hv2.
  set (s2 := store s1 p (set_cnt r 0)) in *.
  set (r' := Rl (r_off r) (r_len r) 1 RL_READER true false false).
  destruct (alloc_ok s2 _ r' Hv2) as (s3 & -> & Hv3 & Hni3 & Hh3 & Hn3 & Hf3).
  pose proof (proj1 (sorted_app _ _) Hs) as (S1 & S2 & S3). cbn in S2. destruct S2 as (Hr & Hl2 & S2).
  destruct (tree_add_ok s3 l1 l2 (next_addr s2) r' Hv3 Hh3 Hni3) as (s' & -> & Hv' & Hh' & Hn').
  { intros e Hin. specialize (S3 e (p, r) Hin (or_introl eq_refl)).
    destruct (sorted_in _ _ S1 Hin) as (?&?&?). cbn in *. lia. }
  { intros e Hin. specialize (Hl2 e Hin). destruct Hr as (?&?&?). cbn in *. lia. }
  run. exists s', (next_addr s2). split; [done|].
  assert (proxied r = r') as -> by (unfold proxied, r'; by rewrite Hc, (proj2 Hsh), Hrw).
  unfold changed. split_and!; try done.
  - by eapply sorted_swap.
  - apply forall_mid. split; [|done]. by unfold ent_ok.
  - apply (frame_add_proxy s _ s2 l1 l2); try done.
    + apply frame_drop; try done; cbn; [lia| |by rewrite lookup_insert_eq].
      intros k Hk. by rewrite lookup_insert_ne, Hh1.
    + lia.
    + intros k Hk. by rewrite Hh', Hf3.
    + cbn. lia.
  - intros x. rewrite !cnt_at_mid. unfold inside. cbn. rewrite Hc. step_if; lia.
  - intros c [Hcut _]. by apply (cuts_swap l1 (p, r)).
Qed.

(** The count of a proxy goes up. *)
Lemma bump_ok s l1 q r l2 :
  view s (l1 ++ (q, r) :: l2) -> sorted (l1 ++ (q, r) :: l2) -> Forall ent_ok (l1 ++ (q, r) :: l2) ->
  sharable r -> r_proxy r = true ->
  exists s', bump s q = Ok s' /\
    changed s (l1 ++ (q, r) :: l2) s' (l1 ++ (q, set_cnt r (r_cnt r + 1)) :: l2)
      (span (r_off r) (r_off r + r_len r)).
Proof.
  intros Hv Hs Hok Hsh Hp. unfold bump.
  rewrite (view_deref _ _ q r Hv) by (apply in_mid; auto). run. eexists. split; [done|].
  unfold changed. split_and!; [by eapply view_store|by eapply sorted_swap| | | | |].
  - apply forall_mid in Hok as [(H1 & H2 & H3 & H4 & H5) Hok]. apply forall_mid. split; [|done].
    unfold ent_ok in *. cbn in *. split_and!; try done; [lia|congruence].
  - by apply frame_update.
  - intros x. rewrite !cnt_at_mid. unfold inside, span. cbn. step_if; lia.
  - intros c [Hcut _]. by apply (cuts_swap l1 (q, r)).
  - intros x. unfold span. step_if; lia.
Qed.

(** A lock is cut in two. *)
Definition cut_front (r : rl) (off : Z) : rl := set_range (proxied r) (r_off r) (off - r_off r).
Definition cut_rear (r : rl) (off : Z) : rl :=
  Rl off (r_off r + r_len r - off) (r_cnt r) RL_READER true false false.

Lemma cut_cnt l1 q q' q2 r l2 off x : r_off r < off < r_off r + r_len r ->
  cnt_at (l1 ++ (q', cut_front r off) :: (q2, cut_rear r off) :: l2) x = cnt_at (l1 ++ (q, r) :: l2) x.
Proof.
  intros Ho. rewrite !cnt_at_app. cbn [cnt_at snd]. unfold inside, cut_front, cut_rear. cbn.
  repeat step_if; b2p; lia.
Qed.

Lemma cut_sorted l1 q q' q2 r l2 off : r_off r < off < r_off r + r_len r ->
  sorted (l1 ++ (q, r) :: l2) -> sorted (l1 ++ (q', cut_front r off) :: (q2, cut_rear r off) :: l2).
Proof.
  intros Ho (S1 & S2 & S3)%sorted_app. cbn in S2. destruct S2 as ((?&?&?) & Hl & S2).
  apply sorted_app. cbn. unfold rl_ok, cut_front, cut_rear. cbn. split_and!; try done; try lia.
  - intros e [<-|Hin]; cbn; [lia|]. specialize (Hl e Hin). lia.
  - intros e Hin. specialize (Hl e Hin). lia.
  - intros a b Ha Hb. specialize (S3 a (q, r) Ha (or_introl eq_refl)) as S4. cbn in S4.
    destruct Hb as [<-|[<-|Hb]]; cbn; [lia|lia|]. apply S3; cbn; auto.
Qed.

Lemma split_ok s l1 p r l2 off :
  view s (l1 ++ (p, r) :: l2) -> sorted (l1 ++ (p, r) :: l2) -> Forall ent_ok (l1 ++ (p, r) :: l2) ->
  sharable r -> r_off r < off < r_off r + r_len r ->
  exists s' q q2, zfs_range_split s p off = Ok (s', q) /\
    changed s (l1 ++ (p, r) :: l2) s'
      (l1 ++ (q, cut_front r off) :: (q2, cut_rear r off) :: l2) (fun _ => 0).
Proof.
  intros Hv Hs Hok Hsh Ho. unfold zfs_range_split.
  rewrite (view_deref _ _ p r Hv) by (apply in_mid; auto). run.
  pose proof (proj1 (forall_mid _ _ _ _) Hok) as [He Hoks].
  pose proof (sharable_quiet _ He Hsh) as Hrw. cbn in Hrw.
  assert (rl_ok r) as Hr by (apply (sorted_in _ (p, r) Hs), in_mid; auto).
  rewrite r_end_ok by done. destruct Hr as (Hr1 & Hr2 & Hr3).
  rewrite (proj2 (Z.ltb_lt 1 _)), (proj2 (Z.ltb_lt _ off)), (proj2 (Z.ltb_lt off _)),
    (proj2 Hsh), Hrw by lia. cbn [negb verify]. run. rewrite (wrap_small 64) by lia.
  fold (cut_rear r off).
  destruct (alloc_ok s _ (cut_rear r off) Hv) as (s1 & -> & Hv1 & Hni1 & Hh1 & Hn1 & Hf1).
  destruct (proxify_ok s1 l1 p r l2 Hv1 Hs Hok Hsh) as (s2 & q & -> & Hv2 & Hs2 & Hok2 & Hfr2 & Hc2 & _). run.
  rewrite (view_deref _ _ q (proxied r) Hv2) by (apply in_mid; auto). run.
  rewrite (wrap_small 64) by lia. fold (cut_front r off).
  change (set_range (proxied r) (r_off (proxied r)) (off - r_off r)) with (cut_front r off).
  pose proof (view_store s2 l1 q _ (cut_front r off) l2 Hv2) as Hv3.
  set (s3 := store s2 q (cut_front r off)) in *.
  pose proof Hfr2 as (_ & F2 & _). destruct (F2 _ _ Hh1 Hni1) as [Hh2 Hni2].
  pose proof Hv3 as (Hok3 & He3 & Hh3 & Hnd3 & Hlt3). rewrite fmap_app in He3, Hnd3. cbn in He3, Hnd3.
  destruct (ot_insert_here_after _ q (next_addr s) l1.*1 l2.*1 Hok3 He3 Hnd3) as (t & -> & Hokt & Het).
  run. eexists _, q, (next_addr s). split; [done|].
  assert (next_addr s <> q) as Hne.
  { intros E. apply Hni2. rewrite E, fmap_app. apply in_app_iff. cbn. auto. }
  assert (heap s3 !! next_addr s = Some (cut_rear r off)) as Hrear
    by (unfold s3; cbn; by rewrite lookup_insert_ne).
  unfold changed. split_and!.
  - unfold view, set_tree. cbn. rewrite fmap_app. cbn. split_and!; try done.
    + intros e Hin. rewrite in_app_iff in Hin. cbn in Hin.
      destruct Hin as [Hin|[<-|[<-|Hin]]]; try done; apply Hh3, in_app_iff; cbn; auto.
    + apply NoDup_Add with (a := next_addr s) (l := l1.*1 ++ q :: l2.*1); [|split; [done|]].
      * change (q :: next_addr s :: l2.*1) with ([q] ++ next_addr s :: l2.*1).
        change (q :: l2.*1) with ([q] ++ l2.*1). rewrite !app_assoc. apply Add_app.
      * intros Hin. apply Hni2. rewrite fmap_app. done.
  - by eapply cut_sorted.
  - apply forall_mid. split; [|apply forall_mid; split; [|done]].
    + destruct He as (H1 & _). unfold ent_ok. cbn in *. rewrite (proj2 Hsh), Hrw. done.
    + destruct He as (H1 & _). unfold ent_ok. cbn in *. done.
  - assert (frame s (l1 ++ (p, r) :: l2) s3 ((l1 ++ [(q, cut_front r off)]) ++ l2)) as F.
    { rewrite <- app_assoc. eapply frame_trans; [|eapply frame_trans]; [|exact Hfr2|].
      - apply frame_refl; [done|lia|]. intros k rk Hk _. rewrite Hf1; [done|].
        intros ->. rewrite (view_fresh s _ Hv) in Hk. done.
      - apply frame_update; try done. by apply proxied_sharable. }
    apply (frame_add_proxy _ _ s3 (l1 ++ [(q, cut_front r off)]) l2 (set_tree s3 t)
      (next_addr s) (cut_rear r off)) in F; try done. by rewrite <- app_assoc in F.
  - intros x. rewrite (cut_cnt l1 p) by done. lia.
  - intros c [Hcut _]. apply cuts_mid. rewrite cuts_mid in *. cbn in *. unfold cut_front, cut_rear. cbn.
    destruct Hcut as [Hcut Hrest]. split_and!; [lia|lia|done].
  - done.
Qed.

(** ** Adding a reader, as a change of the table *)

Lemma cuts_end l1 e l2 b : sorted (l1 ++ e :: l2) -> b = r_off e.2 + r_len e.2 ->
  cuts (l1 ++ e :: l2) b.
Proof.
  intros (S1 & S2 & S3)%sorted_app ->. cbn in S2. destruct S2 as ((?&?&?) & Hl & S2).
  apply cuts_mid. split; [by right|]. intros e' [Hin|Hin]%in_app_iff.
  - right. specialize (S3 e' e Hin (or_introl eq_refl)). lia.
  - left. by apply Hl.
Qed.

Lemma cuts_start l1 e l2 b : sorted (l1 ++ e :: l2) -> b = r_off e.2 -> cuts (l1 ++ e :: l2) b.
Proof.
  intros (S1 & S2 & S3)%sorted_app ->. cbn in S2. destruct S2 as ((?&?&?) & Hl & S2).
  apply cuts_mid. split; [by left|]. intros e' [Hin|Hin]%in_app_iff.
  - right. apply (S3 e' e Hin (or_introl eq_refl)).
  - left. specialize (Hl e' Hin). lia.
Qed.

Lemma before_end done p rp todo e : sorted ((done ++ [(p, rp)]) ++ todo) ->
  In e (done ++ [(p, rp)]) -> r_off e.2 + r_len e.2 <= r_off rp + r_len rp.
Proof.
  intros (S1 & _ & _)%sorted_app Hin. apply sorted_app in S1 as (S1 & S2 & S3).
  apply in_app_iff in Hin as [Hin|[<-|[]]]; [|done].
  specialize (S3 e (p, rp) Hin (or_introl eq_refl)). destruct S2 as ((?&?&?) & _). cbn in *. lia.
Qed.

(** The remaining end range. *)
Lemma add_fin s done todo p rp en :
  view s ((done ++ [(p, rp)]) ++ todo) -> sorted ((done ++ [(p, rp)]) ++ todo) ->
  Forall ent_ok ((done ++ [(p, rp)]) ++ todo) ->
  r_off rp + r_len rp < en -> en < 2 ^ 64 -> (forall e, In e todo -> en <= r_off e.2) ->
  exists s' l', zfs_range_new_proxy s (r_off rp + r_len rp) (u64 (en - (r_off rp + r_len rp))) = Ok s' /\
    changed s ((done ++ [(p, rp)]) ++ todo) s' l' (span (r_off rp + r_len rp) en) /\ cuts l' en.
Proof.
  intros Hv Hs Hok Hlt Hen Htodo.
  assert (rl_ok rp) as (?&?&?).
  { apply (sorted_in _ (p, rp) Hs). rewrite !in_app_iff. cbn. auto. }
  destruct (new_proxy_ok s (done ++ [(p, rp)]) todo (r_off rp + r_len rp) en)
    as (s' & q & rq & Hn & Hq1 & Hq2 & _ & Hc); try done; try lia.
  { intros e Hin. by eapply before_end. }
  exists s', ((done ++ [(p, rp)]) ++ (q, rq) :: todo). split_and!; try done.
  apply cuts_end; [apply Hc|]. cbn. lia.
Qed.

(** The gap before the next lock. *)
Lemma add_gap s done p rp q rq todo :
  view s ((done ++ [(p, rp)]) ++ (q, rq) :: todo) -> sorted ((done ++ [(p, rp)]) ++ (q, rq) :: todo) ->
  Forall ent_ok ((done ++ [(p, rp)]) ++ (q, rq) :: todo) ->
  exists s1 done1,
    (if r_end rp <? r_off rq
     then zfs_range_new_proxy s (r_end rp) (u64 (r_off rq - r_end rp)) else Ok s) = Ok s1 /\
    changed s ((done ++ [(p, rp)]) ++ (q, rq) :: todo) s1 (done1 ++ (q, rq) :: todo)
      (span (r_off rp + r_len rp) (r_off rq)).
Proof.
  intros Hv Hs Hok.
  assert (rl_ok rp) as Hrp by (apply (sorted_in _ (p, rp) Hs); rewrite !in_app_iff; cbn; auto).
  assert (rl_ok rq) as Hrq by (apply (sorted_in _ (q, rq) Hs); rewrite !in_app_iff; cbn; auto).
  rewrite r_end_ok by done. destruct Hrp as (?&?&?), Hrq as (?&?&?).
  pose proof (proj1 (sorted_app _ _) Hs) as (_ & S2 & S3). cbn in S2.
  assert (r_off rp + r_len rp <= r_off rq) as Hle.
  { apply (S3 (p, rp) (q, rq)); [apply in_app_iff; cbn; auto|by left]. }
  destruct (r_off rp + r_len rp <? r_off rq) eqn:E; b2p.
  - destruct (new_proxy_ok s (done ++ [(p, rp)]) ((q, rq) :: todo) (r_off rp + r_len rp) (r_off rq))
      as (s' & g & rg & Hn & _ & _ & _ & Hc); try done; try lia.
    { intros e Hin. by eapply before_end. }
    { intros e [<-|Hin]; cbn; [lia|]. destruct S2 as (_ & S2 & _). specialize (S2 e Hin). lia. }
    exists s', ((done ++ [(p, rp)]) ++ [(g, rg)]). split; [done|]. by rewrite <- (app_assoc (done ++ [(p, rp)]) [(g, rg)]).
  - exists s, (done ++ [(p, rp)]). split; [done|]. apply changed_nil; (done || lia).
Qed.

Lemma proxify_bump_ok s l1 q r l2 :
  view s (l1 ++ (q, r) :: l2) -> sorted (l1 ++ (q, r) :: l2) -> Forall ent_ok (l1 ++ (q, r) :: l2) ->
  sharable r ->
  exists s1 q1 s2 r', zfs_range_proxify s q = Ok (s1, q1) /\ bump s1 q1 = Ok s2 /\
    r_off r' = r_off r /\ r_len r' = r_len r /\
    changed s (l1 ++ (q, r) :: l2) s2 (l1 ++ (q1, r') :: l2) (span (r_off r) (r_off r + r_len r)).
Proof.
  intros Hv Hs Hok Hsh.
  destruct (proxify_ok s l1 q r l2) as (s1 & q1 & Hp & Hc1); try done.
  destruct (bump_ok s1 l1 q1 (proxied r) l2) as (s2 & Hb & Hc2); try apply Hc1; try done.
  { by apply proxied_sharable. }
  exists s1, q1, s2, (set_cnt (proxied r) (r_cnt (proxied r) + 1)). split_and!; try done.
  eapply changed_trans; [done|done|]. done.
Qed.

Lemma split_bump_ok s l1 q r l2 off :
  view s (l1 ++ (q, r) :: l2) -> sorted (l1 ++ (q, r) :: l2) -> Forall ent_ok (l1 ++ (q, r) :: l2) ->
  sharable r -> r_off r < off < r_off r + r_len r ->
  exists s1 q1 s2 l', zfs_range_split s q off = Ok (s1, q1) /\ bump s1 q1 = Ok s2 /\
    changed s (l1 ++ (q, r) :: l2) s2 l' (span (r_off r) off) /\ cuts l' off.
Proof.
  intros Hv Hs Hok Hsh Ho.
  destruct (split_ok s l1 q r l2 off) as (s1 & q1 & q2 & Hp & Hc1); try done.
  destruct (bump_ok s1 l1 q1 (cut_front r off) ((q2, cut_rear r off) :: l2)) as (s2 & Hb & Hc2);
    try apply Hc1; try done.
  { split; [done|]. apply Hsh. }
  eexists s1, q1, s2, _. split_and!; try done.
  - eapply changed_trans; [done|done|]. intros x. unfold cut_front, set_range. cbn.
    replace (r_off r + (off - r_off r)) with off by lia. lia.
  - apply cuts_end; [apply Hc2|]. unfold cut_front, set_range. cbn. lia.
Qed.

(** The position the search has reached. *)
Definition reached (done todo : list ent) (prev : option nat) (pos : Z) : Prop :=
  match prev with
  | None => exists e todo', todo = e :: todo' /\ pos = r_off e.2
  | Some p => exists d rp, done = d ++ [(p, rp)] /\ pos = r_off rp + r_len rp
  end.

Lemma add_loop off len en : u64 (off + len) = en -> en < 2 ^ 64 ->
  forall todo done s prev pos fuel,
  view s (done ++ todo) -> sorted (done ++ todo) -> Forall ent_ok (done ++ todo) ->
  (forall e, In e todo -> r_off e.2 < en -> sharable e.2) ->
  reached done todo prev pos -> pos < en -> (length todo < fuel)%nat ->
  exists s' l', iter fuel (add_round off len) (s, prev, fst <$> head todo) = Ok s' /\
    changed s (done ++ todo) s' l' (span pos en) /\ cuts l' en.
Proof.
  intros Hen Hmax. induction todo as [|[q rq] todo IH];
    intros done s prev pos [|fuel] Hv Hs Hok Hsh Hre Hpos Hf; try (cbn in Hf; lia);
    rewrite iter_S; cbn [add_round head fmap option_fmap option_map fst]; rewrite Hen.
  - destruct prev as [p|]; [|by destruct Hre as (? & ? & ? & _)].
    destruct Hre as (d & rp & -> & ->).
    rewrite (view_deref _ _ p rp Hv) by (rewrite !in_app_iff; cbn; auto). run.
    rewrite r_end_ok by (apply (sorted_in _ (p, rp) Hs); rewrite !in_app_iff; cbn; auto).
    destruct (add_fin s d [] p rp en) as (s' & l' & -> & Hc & Hcut); try done. run. eauto.
  - rewrite (view_deref _ _ q rq Hv) by (rewrite !in_app_iff; cbn; auto). run.
    assert (rl_ok rq) as Hrq by (apply (sorted_in _ (q, rq) Hs); rewrite !in_app_iff; cbn; auto).
    pose proof (proj1 (sorted_app _ _) Hs) as (_ & S2 & _). cbn in S2. destruct S2 as (_ & Hafter & _).
    destruct (en <=? r_off rq) eqn:E; b2p.
    + destruct prev as [p|]; [|destruct Hre as (? & ? & [= <- <-] & ->); cbn in Hpos; lia].
      destruct Hre as (d & rp & -> & ->).
      rewrite (view_deref _ _ p rp Hv) by (rewrite !in_app_iff; cbn; auto). run.
      rewrite r_end_ok by (apply (sorted_in _ (p, rp) Hs); rewrite !in_app_iff; cbn; auto).
      destruct (add_fin s d ((q, rq) :: todo) p rp en) as (s' & l' & -> & Hc & Hcut); try done;
        [|run; eauto].
      destruct Hrq as (?&?&?). intros e [<-|Hin]; cbn; [lia|]. specialize (Hafter e Hin). lia.
    + assert (sharable rq) as Hq by (apply (Hsh (q, rq)); [by left|done]).
      assert (exists s1 done1,
        match prev with
        | None => Ok s
        | Some p => rp ← deref s p;
            if r_end rp <? r_off rq
            then zfs_range_new_proxy s (r_end rp) (u64 (r_off rq - r_end rp)) else Ok s
        end = Ok s1 /\ pos <= r_off rq /\
        changed s (done ++ (q, rq) :: todo) s1 (done1 ++ (q, rq) :: todo) (span pos (r_off rq)))
        as (s1 & done1 & -> & Hle & Hc1).
      { destruct prev as [p|].
        - destruct Hre as (d & rp & -> & ->).
          rewrite (view_deref _ _ p rp Hv) by (rewrite !in_app_iff; cbn; auto). run.
          destruct (add_gap s d p rp q rq todo) as (s1 & done1 & -> & Hc); try done.
          exists s1, done1. split_and!; try done.
          pose proof (proj1 (sorted_app _ _) Hs) as (_ & _ & S3).
          apply (S3 (p, rp) (q, rq)); [apply in_app_iff; cbn; auto|by left].
        - destruct Hre as (? & ? & [= <- <-] & ->). exists s, done. split_and!; [done|done|].
          by apply changed_nil. }
      run. rewrite r_end_ok by done. destruct Hrq as (Hq1&Hq2&Hq3).
      pose proof Hc1 as (Hv1 & Hs1 & Hok1 & _).
      destruct (en =? r_off rq + r_len rq) eqn:E1; [|destruct (en <? r_off rq + r_len rq) eqn:E2]; b2p.
      * destruct (proxify_bump_ok s1 done1 q rq todo) as (s2 & q1 & s3 & r' & -> & Hb & Ho & Hl & Hc2);
          try done. run. rewrite Hb. run. eexists _, _. split; [done|]. split.
        -- eapply changed_trans; [done|done|]. intros x. rewrite <- E1. apply span_join. lia.
        -- apply cuts_end; [apply Hc2|]. cbn. lia.
      * destruct (split_bump_ok s1 done1 q rq todo en) as (s2 & q1 & s3 & l' & -> & Hb & Hc2 & Hcut);
          try done; try lia. run. rewrite Hb. run. eexists _, _. split; [done|]. split; [|done].
        eapply changed_trans; [done|done|]. intros x. apply span_join. lia.
      * destruct (proxify_bump_ok s1 done1 q rq todo) as (s2 & q1 & s3 & r' & -> & Hb & Ho & Hl & Hc2);
          try done. run. rewrite Hb. run. pose proof Hc2 as (Hv3 & Hs3 & Hok3 & _).
        rewrite (view_walk s3 done1 q1 r' todo Hv3).
        assert (forall A B : list ent, (A ++ [(q1, r')]) ++ B = A ++ (q1, r') :: B) as Happ
          by (intros; by rewrite <- app_assoc).
        destruct (IH (done1 ++ [(q1, r')]) s3 (Some q1) (r_off rq + r_len rq) fuel)
          as (s' & l' & Hi & Hc3 & Hcut); rewrite ?Happ; try done; try lia; try (cbn in Hf; lia).
        { intros e Hin. apply Hsh. by right. }
        { exists done1, r'. split; [done|]. lia. }
        exists s', l'. split; [done|]. split; [|done]. rewrite Happ in Hc3.
        eapply changed_trans; [done|eapply changed_trans; [done|done|]|].
        -- intros x. apply span_join. lia.
        -- intros x. apply span_join. lia.
Qed.

Lemma cnt_at_nonneg l x : Forall ent_ok l -> 0 <= cnt_at l x.
Proof.
  induction 1 as [|e l (He & _) _ IH]; cbn; [lia|]. step_if; lia.
Qed.

Lemma edge_start l1 e l2 : sorted (l1 ++ e :: l2) -> Forall ent_ok (l1 ++ e :: l2) ->
  edge (l1 ++ e :: l2) (r_off e.2).
Proof.
  intros Hs Hok. split; [by apply cuts_start|]. left. rewrite cnt_at_mid.
  apply forall_mid in Hok as [(Hc & _) Hok]. pose proof (cnt_at_nonneg _ (r_off e.2) Hok).
  assert (rl_ok e.2) as (?&?&?) by (apply (sorted_in _ e Hs), in_mid; auto).
  assert (inside e.2 (r_off e.2) = true) as ->; [|lia].
  unfold inside. rewrite (proj2 (Z.leb_le _ _)), (proj2 (Z.ltb_lt _ _)) by lia. done.
Qed.

(** A lock outside the tree can be written before or after a change. *)
Lemma changed_store s l s1 l1 d p r r' : changed s l s1 l1 d -> view s l ->
  heap s !! p = Some r -> ~ In p l.*1 -> changed (store s p r') l (store s1 p r') l1 d.
Proof.
  intros (C1 & C2 & C3 & (F1 & F2 & F3 & F4 & F5 & F6) & C5 & C6 & C7) Hv Hp Hni.
  destruct (F2 p r Hp Hni) as [Hp1 Hni1].
  unfold changed. split_and!; try done; [by eapply view_store_out|].
  unfold frame. cbn. split_and!; try done.
  - intros k rk Hk Hn. destruct (decide (k = p)) as [->|Hne].
    + rewrite lookup_insert_eq in *. done.
    + rewrite lookup_insert_ne in * by done. by apply F2.
  - intros k rk Hin Hrp Hsh. rewrite lookup_insert_ne; [by apply F4|].
    intros ->. apply Hni. apply (in_fst l (k, rk) Hin).
Qed.

(** The two outcomes of adding a reader: its own lock in the tree, or shares in
    the proxies of its range. *)
Definition reader_added (s : table) (l : list ent) (new : nat) (rn : rl) (s' : table) (l' : list ent)
    : Prop :=
  let off := r_off rn in
  let en := r_off rn + r_len rn in
  (exists l1 l2, l = l1 ++ l2 /\ l' = l1 ++ (new, rn) :: l2 /\ view s' l' /\ sorted l' /\
     heap s' = heap s /\ next_addr s' = next_addr s) \/
  (changed (store s new (set_cnt rn 0)) l s' l' (span off en) /\ cuts l' off /\ cuts l' en).

Lemma add_from s l s1 done todo new rn :
  let off := r_off rn in let en := r_off rn + r_len rn in
  rl_ok rn -> view s l -> heap s !! new = Some rn -> ~ In new l.*1 ->
  (exists e todo', todo = e :: todo' /\ off <= r_off e.2 < en /\
     changed s l s1 (done ++ todo) (span off (r_off e.2))) ->
  (forall e, In e todo -> r_off e.2 < en -> sharable e.2) ->
  edge (done ++ todo) off ->
  exists s' l',
    iter (S (Z.to_nat (ot_numnodes (z_range_avl s1)))) (add_round off (r_len rn))
      (store s1 new (set_cnt rn 0), None, fst <$> head todo) = Ok s' /\
    reader_added s l new rn s' l'.
Proof.
  intros off en Hrn Hv Hnew Hni (e & todo' & -> & He & Hc) Hsh Hedge.
  pose proof Hc as (Hv1 & Hs1 & Hok1 & Hf & _). pose proof Hf as (_ & F2 & _).
  destruct (F2 new rn Hnew Hni) as [Hnew1 Hni1]. destruct Hrn as (?&?&?).
  destruct (add_loop off (r_len rn) en ltac:(unfold off, en; apply wrap_small; lia) ltac:(lia)
    (e :: todo') done (store s1 new (set_cnt rn 0)) None (r_off e.2)
    (S (Z.to_nat (ot_numnodes (z_range_avl s1))))) as (s' & l' & Hi & Hc2 & Hcut); try done; try lia.
  { by eapply view_store_out. }
  { by exists e, todo'. }
  { rewrite (view_numnodes s1 _ Hv1), length_app. lia. }
  exists s', l'. split; [done|]. right. fold off en.
  pose proof (changed_store _ _ _ _ _ new rn (set_cnt rn 0) Hc Hv Hnew Hni) as Hc0.
  split_and!; [|apply Hc2, Hedge|done].
  eapply changed_trans; [done|done|]. intros x. apply span_join. lia.
Qed.

Lemma add_reader_found s l1 p rp l2 new rn :
  let l := l1 ++ (p, rp) :: l2 in
  view s l -> sorted l -> Forall ent_ok l -> rl_ok rn ->
  heap s !! new = Some rn -> ~ In new l.*1 -> r_off rp = r_off rn ->
  (forall e, In e l -> r_off e.2 < r_off rn + r_len rn -> r_off rn < r_off e.2 + r_len e.2 -> sharable e.2) ->
  exists s' l', zfs_range_add_reader s new (Some p) None = Ok s' /\ reader_added s l new rn s' l'.
Proof.
  intros l Hv Hs Hok Hrn Hnew Hni Ho Hsh. unfold zfs_range_add_reader. rewrite (deref_heap _ _ _ Hnew). run.
  assert (In (p, rp) l) as Hin by (apply in_mid; auto).
  pose proof (sorted_in _ _ Hs Hin) as Hrp. cbn in Hrp.
  rewrite (view_deref _ _ p rp Hv Hin). run. rewrite r_end_ok by done.
  destruct Hrp as (?&?&?), Hrn as (?&?&?).
  rewrite (proj2 (Z.leb_gt _ (r_off rn))), Ho, Z.eqb_refl by lia. cbn [negb]. run.
  rewrite ?(view_deref _ _ p rp Hv Hin). run. rewrite ?Ho, ?Z.eqb_refl. cbn [verify]. run.
  rewrite ?(view_deref _ _ p rp Hv Hin). run. rewrite ?Ho, wrap_small by lia.
  rewrite (proj2 (Z.leb_gt _ (r_off rn))), Z.ltb_irrefl by lia. run.
  pose proof (proj1 (sorted_app _ _) Hs) as (_ & S2 & _). cbn in S2. destruct S2 as (_ & Hafter & _).
  apply (add_from s l s l1 ((p, rp) :: l2) new rn); try done.
  - exists (p, rp), l2. split_and!; [done|cbn; lia|cbn; lia|]. cbn. rewrite Ho.
    apply changed_nil; (done || lia).
  - intros e [<-|Hl2] He; cbn in *; (apply Hsh || apply (Hsh (p, rp))); try done; cbn; try lia.
    + apply in_mid. right. apply in_app_iff. auto.
    + specialize (Hafter e Hl2). assert (rl_ok e.2) as (?&?&?); [|lia].
      apply (sorted_in _ _ Hs), in_mid. right. apply in_app_iff. auto.
  - rewrite <- Ho. by apply (edge_start l1 (p, rp)).
Qed.

Lemma after_sharable l rn : sorted l ->
  (forall e, In e l -> r_off e.2 < r_off rn + r_len rn -> r_off rn < r_off e.2 + r_len e.2 -> sharable e.2) ->
  forall e, In e l -> r_off rn <= r_off e.2 -> r_off e.2 < r_off rn + r_len rn -> sharable e.2.
Proof.
  intros Hs H e Hin Hle Hlt. destruct (sorted_in _ _ Hs Hin) as (?&?&?). apply H; [done|done|lia].
Qed.

(** No lock reaches over the start of the range. *)
Lemma add_reader_clear s l1 l2 new rn i :
  let l := l1 ++ l2 in
  view s l -> sorted l -> Forall ent_ok l -> rl_ok rn ->
  heap s !! new = Some rn -> ~ In new l.*1 ->
  (forall e, In e l1 -> r_off e.2 < r_off rn) ->
  (forall e, In e l2 -> r_off rn < r_off e.2) ->
  ot_find (cmp_at s rn) (z_range_avl s) = inr i ->
  (forall e, In e l1 -> r_off e.2 + r_len e.2 <= r_off rn) ->
  (forall e, In e l -> r_off e.2 < r_off rn + r_len rn -> r_off rn < r_off e.2 + r_len e.2 -> sharable e.2) ->
  exists s' l', zfs_range_add_reader s new (fst <$> last l1) (Some i) = Ok s' /\
    reader_added s l new rn s' l'.
Proof.
  intros l Hv Hs Hok Hrn Hnew Hni H1 H2 Hfind Hend Hsh.
  unfold zfs_range_add_reader. rewrite (deref_heap _ _ _ Hnew). run.
  destruct (rl_find_free s l1 l2 rn Hv H1 H2) as (i' & Hf & _ & Ha & Hins).
  assert (i' = i) as -> by congruence.
  pose proof (proj1 (sorted_app _ _) Hs) as (S1 & S2 & _). pose proof Hrn as (?&?&?).
  assert (match fst <$> last l1 with
          | Some p => rp ← deref s p;
              if r_end rp <=? r_off rn then Ok (s, None)
              else if negb (r_off rp =? r_off rn)
                   then '(s, front) ← zfs_range_split s p (r_off rn);
                        Ok (s, ot_walk (z_range_avl s) front true)
                   else Ok (s, Some p)
          | None => Ok (s, None)
          end = Ok (s, None)) as ->.
  { destruct l1 as [|[p rp] l1' _] using rev_ind; [done|]. rewrite last_snoc. cbn [fmap option_fmap option_map fst].
    assert (In (p, rp) (l1' ++ [(p, rp)])) as Hin by (apply in_app_iff; cbn; auto).
    rewrite (view_deref _ _ p rp Hv) by (apply in_app_iff; auto). run.
    rewrite r_end_ok by (apply (sorted_in _ _ S1 Hin)).
    specialize (Hend _ Hin). cbn in Hend. rewrite (proj2 (Z.leb_le _ (r_off rn)) Hend). done. }
  run. rewrite Ha, wrap_small by lia.
  destruct l2 as [|[q rq] l2']; cbn [head fmap option_fmap option_map fst]; run.
  { destruct (Hins new rn s Hnew eq_refl Hv Hni) as (t & -> & Hvt). run.
    eexists _, _. split; [done|]. left. exists l1, []. split_and!; try done.
    apply sorted_app. cbn. split_and!; try done. intros a b Hin [<-|[]]. auto. }
  rewrite (view_deref _ _ q rq Hv) by (apply in_app_iff; cbn; auto). run.
  assert (r_off rn < r_off rq) as Hlt by (apply (H2 (q, rq)); by left).
  destruct (r_off rn + r_len rn <=? r_off rq) eqn:E; b2p.
  { destruct (Hins new rn s Hnew eq_refl Hv Hni) as (t & -> & Hvt). run.
    eexists _, _. split; [done|]. left. exists l1, ((q, rq) :: l2'). split_and!; try done.
    cbn in S2. destruct S2 as (Hrq & Hl & S2). destruct Hrq as (?&?&?).
    apply sorted_app. cbn. split_and!; try done.
    - intros e [<-|Hin]; cbn; [lia|]. specialize (Hl e Hin). lia.
    - intros a b Hina [<-|[<-|Hinb]]; cbn; [auto|specialize (Hend a Hina); lia|].
      specialize (Hend a Hina). specialize (Hl b Hinb). lia. }
  rewrite ?(proj2 (Z.ltb_lt (r_off rn) _)) by done.
  cbn in S2. destruct S2 as (Hrq & Hl & S2). pose proof Hrq as (?&?&?).
  destruct (new_proxy_ok s l1 ((q, rq) :: l2') (r_off rn) (r_off rq))
    as (s1 & g & rg & Hnp & Hg1 & Hg2 & _ & Hc); try done; try lia.
  { intros e [<-|Hin]; cbn; [lia|]. specialize (Hl e Hin). lia. }
  rewrite Hnp. run.
  assert (l1 ++ (g, rg) :: (q, rq) :: l2' = (l1 ++ [(g, rg)]) ++ (q, rq) :: l2') as Eapp
    by (by rewrite <- app_assoc).
  apply (add_from s l s1 (l1 ++ [(g, rg)]) ((q, rq) :: l2') new rn); try done.
  - exists (q, rq), l2'. rewrite <- Eapp. split_and!; try done; cbn; lia.
  - intros e Hin He. apply (after_sharable l rn); try done; [apply in_app_iff; auto|].
    destruct Hin as [<-|Hin]; cbn; [lia|]. specialize (Hl e Hin). lia.
  - rewrite <- Eapp, <- Hg1. apply (edge_start l1 (g, rg)); apply Hc.
Qed.

(** The lock before the range reaches into it. *)
Lemma add_reader_split s l1 p rp l2 new rn w :
  let l := l1 ++ (p, rp) :: l2 in
  view s l -> sorted l -> Forall ent_ok l -> rl_ok rn ->
  heap s !! new = Some rn -> ~ In new l.*1 ->
  r_off rp < r_off rn < r_off rp + r_len rp ->
  (forall e, In e l -> r_off e.2 < r_off rn + r_len rn -> r_off rn < r_off e.2 + r_len e.2 -> sharable e.2) ->
  exists s' l', zfs_range_add_reader s new (Some p) w = Ok s' /\ reader_added s l new rn s' l'.
Proof.
  intros l Hv Hs Hok Hrn Hnew Hni Ho Hsh.
  unfold zfs_range_add_reader. rewrite (deref_heap _ _ _ Hnew). run.
  assert (In (p, rp) l) as Hin by (apply in_mid; auto).
  pose proof (sorted_in _ _ Hs Hin) as Hrp. cbn in Hrp. pose proof Hrn as (?&?&?).
  rewrite (view_deref _ _ p rp Hv Hin). run. rewrite r_end_ok by done.
  rewrite (proj2 (Z.leb_gt _ (r_off rn))), (proj2 (Z.eqb_neq _ _)) by lia. cbn [negb].
  destruct (split_ok s l1 p rp l2 (r_off rn)) as (s1 & q & q2 & Hsp & Hc); try done.
  { apply (Hsh (p, rp) Hin); cbn; lia. }
  rewrite Hsp. run. pose proof Hc as (Hv1 & Hs1 & Hok1 & _).
  rewrite (view_walk s1 l1 q _ _ Hv1). cbn [head fmap option_fmap option_map fst].
  assert (In (q2, cut_rear rp (r_off rn)) (l1 ++ (q, cut_front rp (r_off rn)) :: (q2, cut_rear rp (r_off rn)) :: l2))
    as Hin2 by (apply in_app_iff; cbn; auto).
  rewrite ?(view_deref _ _ _ _ Hv1 Hin2). run. cbn [cut_rear r_off]. rewrite Z.eqb_refl. cbn [verify]. run.
  rewrite ?(view_deref _ _ _ _ Hv1 Hin2). run. cbn [cut_rear r_off].
  rewrite wrap_small, (proj2 (Z.leb_gt _ (r_off rn))), Z.ltb_irrefl by lia. run.
  assert (forall B, l1 ++ (q, cut_front rp (r_off rn)) :: B = (l1 ++ [(q, cut_front rp (r_off rn))]) ++ B) as Eapp
    by (intros; by rewrite <- app_assoc).
  pose proof (proj1 (sorted_app _ _) Hs) as (_ & S2 & _). cbn in S2. destruct S2 as (_ & Hafter & _).
  apply (add_from s l s1 (l1 ++ [(q, cut_front rp (r_off rn))]) ((q2, cut_rear rp (r_off rn)) :: l2) new rn);
    try done.
  - exists (q2, cut_rear rp (r_off rn)), l2. rewrite <- Eapp. split_and!; try done; cbn; try lia.
    eapply changed_trans; [exact Hc|by apply (changed_nil _ _ (r_off rn) (r_off rn)); try apply Hc|].
    done.
  - intros e [<-|Hl2] He; cbn.
    + split; done.
    + assert (In e l) by (apply in_app_iff; cbn; auto). apply Hsh; try done.
      specialize (Hafter e Hl2). assert (rl_ok e.2) as (?&?&?) by (by apply (sorted_in l)). lia.
  - rewrite <- Eapp. 
    change (r_off rn) with (r_off (snd (q2, cut_rear rp (r_off rn)))) at 3.
    pose proof (edge_start (l1 ++ [(q, cut_front rp (r_off rn))]) (q2, cut_rear rp (r_off rn)) l2) as He.
    rewrite <- !Eapp in He. by apply He.
Qed.

(** ** One pass of a reader *)

Definition blocks (r : rl) : bool := bool_decide (r_type r = RL_WRITER) || r_write_wanted r.

Lemma blocks_sharable e : ent_ok e ->
  if blocks e.2 then ~ sharable e.2 else sharable e.2.
Proof.
  intros (_ & Ha & _). unfold blocks, sharable.
  destruct (bool_decide _) eqn:E1; cbn [orb].
  - apply bool_decide_eq_true in E1. intros [? _]. congruence.
  - apply bool_decide_eq_false in E1. destruct (r_write_wanted e.2); [by intros []|].
    split; [|done]. by destruct (r_type e.2).
Qed.

Lemma read_loop s en : forall todo pre fuel,
  view s (pre ++ todo) -> sorted (pre ++ todo) -> Forall ent_ok (pre ++ todo) ->
  (length todo < fuel)%nat ->
  exists b, iter fuel (read_round s en) (fst <$> head todo) = Ok b /\
    match b with
    | None => forall e, In e todo -> r_off e.2 < en -> sharable e.2
    | Some q => exists t1 rq t2, todo = t1 ++ (q, rq) :: t2 /\ r_off rq < en /\ ~ sharable rq
    end.
Proof.
  induction todo as [|[q rq] todo IH]; intros pre [|fuel] Hv Hs Hok Hf; try (cbn in Hf; lia);
    rewrite iter_S; cbn [read_round head fmap option_fmap option_map fst]; [eexists; done|].
  assert (In (q, rq) (pre ++ (q, rq) :: todo)) as Hin by (apply in_app_iff; cbn; auto).
  rewrite (view_deref _ _ q rq Hv Hin). run. pose proof (sorted_in _ _ Hs Hin) as Hrq. cbn in Hrq.
  pose proof (proj1 (sorted_app _ _) Hs) as (_ & S2 & _). cbn in S2. destruct S2 as (_ & Hafter & _).
  pose proof Hrq as (?&?&?). rewrite r_end_ok by done.
  destruct (en <=? r_off rq) eqn:E; b2p; run.
  { eexists. split; [done|]. intros e [<-|He] Hlt; cbn in *; [lia|]. specialize (Hafter e He). lia. }
  fold (blocks rq). pose proof (proj1 (forall_mid _ _ _ _) Hok) as [He _].
  pose proof (blocks_sharable _ He) as Hb. cbn in Hb. destruct (blocks rq); run.
  { eexists. split; [done|]. by exists [], rq, todo. }
  destruct (en <=? r_off rq + r_len rq) eqn:E2; b2p; run.
  { eexists. split; [done|]. intros e [<-|Hin'] Hlt; [done|]. specialize (Hafter e Hin'). lia. }
  rewrite (view_walk s pre q rq todo Hv).
  assert (pre ++ (q, rq) :: todo = (pre ++ [(q, rq)]) ++ todo) as Eapp by (by rewrite <- app_assoc).
  destruct (IH (pre ++ [(q, rq)]) fuel) as (b & -> & Hres); rewrite <- ?Eapp; try done;
    [cbn in Hf; lia|].
  exists b. split; [done|]. destruct b as [q'|].
  - destruct Hres as (t1 & rq' & t2 & -> & H2 & H3). by exists ((q, rq) :: t1), rq', t2.
  - intros e [<-|Hin'] Hlt; [done|]. by apply Hres.
Qed.

Definition reader_pass (s : table) (l : list ent) (new : nat) (rn : rl) (a : attempt) : Prop :=
  match a with
  | Got s' => exists l', reader_added s l new rn s' l'
  | Wait s' (RdCv p) => exists l1 rp l2, l = l1 ++ (p, rp) :: l2 /\
      r_off rp < r_off rn + r_len rn /\ r_off rn < r_off rp + r_len rp /\
      ~ sharable rp /\ s' = store s p (want_read rp)
  | Wait _ (WrCv _) => False
  end.

Lemma sleep_read_ok s l1 p rp l2 new rn : view s (l1 ++ (p, rp) :: l2) ->
  r_off rp < r_off rn + r_len rn -> r_off rn < r_off rp + r_len rp -> ~ sharable rp ->
  exists a, sleep_read s p = Ok a /\ reader_pass s (l1 ++ (p, rp) :: l2) new rn a.
Proof.
  intros Hv H1 H2 H3. unfold sleep_read. rewrite (view_deref _ _ p rp Hv) by (apply in_mid; auto).
  run. eexists. split; [done|]. cbn. by exists l1, rp, l2.
Qed.

(** The search forward and what follows it, from the lock before the range. *)
Lemma read_search s done todo new rn prev wher :
  let l := done ++ todo in
  view s l -> sorted l -> Forall ent_ok l -> rl_ok rn ->
  (forall e, In e done -> r_off rn < r_off e.2 + r_len e.2 -> sharable e.2) ->
  (forall e, In e todo -> r_off rn <= r_off e.2) ->
  ((forall e, In e l -> r_off e.2 < r_off rn + r_len rn -> r_off rn < r_off e.2 + r_len e.2 -> sharable e.2) ->
     exists s' l', zfs_range_add_reader s new prev wher = Ok s' /\ reader_added s l new rn s' l') ->
  exists a,
    (blocked ← iter (S (Z.to_nat (ot_numnodes (z_range_avl s)))) (read_round s (r_off rn + r_len rn))
                 (fst <$> head todo);
     match blocked with
     | Some q => sleep_read s q
     | None => s ← zfs_range_add_reader s new prev wher; Ok (Got s)
     end) = Ok a /\ reader_pass s l new rn a.
Proof.
  intros l Hv Hs Hok Hrn Hdone Htodo Hgot.
  destruct (read_loop s (r_off rn + r_len rn) todo done (S (Z.to_nat (ot_numnodes (z_range_avl s)))))
    as ([q|] & -> & Hb); try done.
  { rewrite (view_numnodes s l Hv). unfold l. rewrite length_app. lia. }
  - run. destruct Hb as (t1 & rq & t2 & -> & H1 & H2).
    assert (l = (done ++ t1) ++ (q, rq) :: t2) as El by (unfold l; by rewrite <- app_assoc).
    rewrite El in *. assert (rl_ok rq) as (?&?&?) by (apply (sorted_in _ (q, rq) Hs), in_mid; auto).
    specialize (Htodo (q, rq)). rewrite in_mid in Htodo. specialize (Htodo (or_introl eq_refl)). cbn in Htodo.
    apply sleep_read_ok; try done. lia.
  - run. destruct Hgot as (s' & l' & -> & Hadd).
    { intros e [Hin|Hin]%in_app_iff He1 He2; auto. }
    run. eexists. split; [done|]. by exists l'.
Qed.

Lemma lock_reader_ok s l new rn :
  view s l -> sorted l -> Forall ent_ok l -> rl_ok rn -> heap s !! new = Some rn -> ~ In new l.*1 ->
  exists a, zfs_range_lock_reader s new = Ok a /\ reader_pass s l new rn a.
Proof.
  intros Hv Hs Hok Hrn Hnew Hni. unfold zfs_range_lock_reader.
  rewrite (deref_heap _ _ _ Hnew). run. pose proof Hrn as (Hn1 & Hn2 & Hn3).
  rewrite wrap_small by lia.
  destruct (split_at_off l (r_off rn) Hs) as [(l1 & p & rp & l2 & -> & Ho)|(l1 & l2 & -> & H1 & H2)].
  - rewrite (find_at s l1 p rp l2 rn) by done.
    assert (In (p, rp) (l1 ++ (p, rp) :: l2)) as Hin by (apply in_mid; auto).
    pose proof (sorted_in _ _ Hs Hin) as Hrp. cbn in Hrp.
    rewrite (view_deref _ _ p rp Hv Hin). run. rewrite r_end_ok by done. destruct Hrp as (?&?&?).
    rewrite (proj2 (Z.ltb_lt (r_off rn) _)) by lia. fold (blocks rp).
    pose proof (proj1 (forall_mid _ _ _ _) Hok) as [He _].
    pose proof (blocks_sharable _ He) as Hb. cbn in Hb. destruct (blocks rp).
    { apply sleep_read_ok; try done; lia. }
    pose proof (proj1 (sorted_app _ _) Hs) as (S1 & S2 & S3). cbn in S2. destruct S2 as (_ & Hafter & S2).
    assert (forall e, In e l1 -> r_off e.2 + r_len e.2 <= r_off rn) as Hbefore.
    { intros e Hin1. specialize (S3 e (p, rp) Hin1 (or_introl eq_refl)). cbn in S3. lia. }
    destruct (r_off rn + r_len rn <? r_off rp + r_len rp) eqn:E; b2p.
    + destruct (add_reader_found s l1 p rp l2 new rn) as (s' & l' & -> & Hadd); try done.
      { intros e [->|[Hin'|Hin']%in_app_iff]%in_mid He1 He2; [done| |].
        - specialize (Hbefore e Hin'). lia.
        - specialize (Hafter e Hin'). cbn in Hafter. lia. }
      run. eexists. split; [done|]. by exists l'.
    + rewrite (view_walk s l1 p rp l2 Hv).
      assert (l1 ++ (p, rp) :: l2 = (l1 ++ [(p, rp)]) ++ l2) as Eapp by (by rewrite <- app_assoc).
      pose proof (read_search s (l1 ++ [(p, rp)]) l2 new rn (Some p) None) as HR.
      rewrite <- Eapp in HR. apply HR; try done; clear HR.
      * intros e [Hin'|[<-|[]]]%in_app_iff Hlt; [|done]. specialize (Hbefore e Hin'). lia.
      * intros e Hin'. specialize (Hafter e Hin'). cbn in Hafter. lia.
      * intros Hsh. by apply add_reader_found.
  - destruct (rl_find_free s l1 l2 rn Hv H1 H2) as (i & Hf & Hb & Ha & _). rewrite Hf, Hb, Ha.
    destruct l1 as [|[p rp] l1' _] using rev_ind; cbn [last].
    + apply (read_search s [] l2 new rn None (Some i)); try done.
      * intros e Hin. specialize (H2 e Hin). lia.
      * intros Hsh. apply (add_reader_clear s [] l2 new rn i); try done.
    + rewrite last_snoc. cbn [fmap option_fmap option_map fst].
      assert (In (p, rp) ((l1' ++ [(p, rp)]) ++ l2)) as Hin by (rewrite !in_app_iff; cbn; auto).
      pose proof (sorted_in _ _ Hs Hin) as Hrp. cbn in Hrp.
      assert (r_off rp < r_off rn) as Hlt by (apply (H1 (p, rp)), in_app_iff; cbn; auto).
      rewrite (view_deref _ _ p rp Hv Hin). run. rewrite r_end_ok by done.
      assert ((l1' ++ [(p, rp)]) ++ l2 = l1' ++ (p, rp) :: l2) as Eapp by (by rewrite <- app_assoc).
      assert (ot_walk (z_range_avl s) p true = fst <$> head l2) as Hwalk
        by (rewrite Eapp in Hv; by apply (view_walk s l1' p rp l2)).
      pose proof (proj1 (sorted_app _ _) Hs) as (S1 & _ & S3).
      assert (forall e, In e l1' -> r_off e.2 + r_len e.2 <= r_off rp) as Hbefore.
      { apply sorted_app in S1 as (_ & _ & S1). intros e Hin'. apply (S1 e (p, rp)); cbn; auto. }
      pose proof Hrp as (?&?&?).
      destruct (r_off rn <? r_off rp + r_len rp) eqn:E; b2p; rewrite Hwalk.
      * rewrite Eapp in *. fold (blocks rp). pose proof (proj1 (forall_mid _ _ _ _) Hok) as [He _].
        pose proof (blocks_sharable _ He) as Hbl. cbn in Hbl. destruct (blocks rp).
        { apply sleep_read_ok; try done; lia. }
        destruct (r_off rn + r_len rn <? r_off rp + r_len rp) eqn:E2; b2p.
        -- destruct (add_reader_split s l1' p rp l2 new rn (Some i)) as (s' & l' & -> & Hadd); try done.
           { intros e [->|[Hin'|Hin']%in_app_iff]%in_mid He1 He2; [done| |].
             - specialize (Hbefore e Hin'). lia.
             - specialize (S3 (p, rp) e). cbn in S3.
               assert (r_off rp + r_len rp <= r_off e.2); [|lia]. apply S3; [|done].
               apply in_app_iff. cbn. auto. }
           run. eexists. split; [done|]. by exists l'.
        -- pose proof (read_search s (l1' ++ [(p, rp)]) l2 new rn (Some p) (Some i)) as HR.
           rewrite Eapp in HR. apply HR; try done; clear HR.
           ++ intros e [Hin'|[<-|[]]]%in_app_iff He'; [|done]. specialize (Hbefore e Hin'). lia.
           ++ intros e Hin'. specialize (H2 e Hin'). lia.
           ++ intros Hsh. by apply add_reader_split.
      * apply (read_search s (l1' ++ [(p, rp)]) l2 new rn (Some p) (Some i)); try done.
        -- intros e [Hin'|[<-|[]]]%in_app_iff He'; cbn in *; [specialize (Hbefore e Hin'); lia|lia].
        -- intros e Hin'. specialize (H2 e Hin'). lia.
        -- intros Hsh. pose proof (add_reader_clear s (l1' ++ [(p, rp)]) l2 new rn i) as HC.
           rewrite last_snoc in HC. apply HC; try done.
           intros e [Hin'|[<-|[]]]%in_app_iff; cbn; [specialize (Hbefore e Hin'); lia|lia].
Qed.

(** ** One pass of a writer *)

Definition overlaps (r1 r2 : rl) : Prop :=
  r_off r1 < r_off r2 + r_len r2 /\ r_off r2 < r_off r1 + r_len r1.

(** The lock of [new] enters the tree, as [r']. *)
Definition entered (s : table) (l : list ent) (new : nat) (r' : rl) (s' : table) : Prop :=
  exists l1 l2, l = l1 ++ l2 /\ view s' (l1 ++ (new, r') :: l2) /\ sorted (l1 ++ (new, r') :: l2) /\
    heap s' = <[new := r']> (heap s) /\ next_addr s' = next_addr s.

Definition writer_pass (s : table) (l : list ent) (new : nat) (rw : rl) (a : attempt) : Prop :=
  match a with
  | Got s' => entered s l new (set_type rw RL_WRITER) s'
  | Wait s' (WrCv p) => exists l1 rp l2, l = l1 ++ (p, rp) :: l2 /\ overlaps rp rw /\
      s' = store (store s new rw) p (want_write rp)
  | Wait _ (RdCv _) => False
  end.

Lemma rl_sorted_insert l1 l2 e : sorted (l1 ++ l2) -> rl_ok e.2 ->
  (forall a, In a l1 -> r_off a.2 + r_len a.2 <= r_off e.2) ->
  (forall b, In b l2 -> r_off e.2 + r_len e.2 <= r_off b.2) -> sorted (l1 ++ e :: l2).
Proof.
  intros (S1 & S2 & S3)%sorted_app He H1 H2. apply sorted_app. cbn. split_and!; try done.
  intros a b Ha [<-|Hb]; auto.
Qed.

(** Every lock ends before the last one's end, and starts after the first one's start. *)
Lemma last_bound l1 p rp l2 b : sorted ((l1 ++ [(p, rp)]) ++ l2) -> r_off rp + r_len rp <= b ->
  forall a, In a (l1 ++ [(p, rp)]) -> r_off a.2 + r_len a.2 <= b.
Proof. intros Hs Hb a Ha. pose proof (before_end l1 p rp l2 a Hs Ha). lia. Qed.

Lemma head_bound l1 p rp l2 b : sorted (l1 ++ (p, rp) :: l2) -> b <= r_off rp ->
  forall a, In a ((p, rp) :: l2) -> b <= r_off a.2.
Proof.
  intros (_ & S2 & _)%sorted_app Hb a [<-|Ha]; [done|]. cbn in S2. destruct S2 as ((?&?&?) & Hl & _).
  specialize (Hl a Ha). lia.
Qed.

Lemma sleep_write_ok s l1 p rp l2 new rw : view (store s new rw) (l1 ++ (p, rp) :: l2) ->
  overlaps rp rw ->
  exists a, sleep_write (store s new rw) p = Ok a /\ writer_pass s (l1 ++ (p, rp) :: l2) new rw a.
Proof.
  intros Hv H. unfold sleep_write. rewrite (view_deref _ _ p rp Hv) by (apply in_mid; auto).
  run. eexists. split; [done|]. cbn. by exists l1, rp, l2.
Qed.

Lemma lock_writer_ok zp s l new r len :
  let rw := writer_range zp r len in
  view s l -> sorted l -> rl_ok rw -> heap s !! new = Some r -> ~ In new l.*1 ->
  exists a, zfs_range_lock_writer zp s new len = Ok a /\ writer_pass s l new rw a.
Proof.
  intros rw Hv Hs Hrw Hnew Hni. unfold zfs_range_lock_writer. rewrite (deref_heap _ _ _ Hnew). run.
  fold rw. pose proof Hrw as (Hr1 & Hr2 & Hr3).
  pose proof (view_store_out s l new r rw Hv Hnew Hni) as Hv0. set (s0 := store s new rw) in *.
  set (r' := set_type rw RL_WRITER).
  assert (heap s0 !! new = Some rw) as Hnew0 by (cbn; by rewrite lookup_insert_eq).
  pose proof (view_store_out s0 l new rw r' Hv0 Hnew0 Hni) as Hv1. set (s1 := store s0 new r') in *.
  assert (heap s1 !! new = Some r') as Hnew1 by (cbn; by rewrite lookup_insert_eq).
  assert (heap s1 = <[new := r']> (heap s)) as Hheap by (cbn; by rewrite insert_insert_eq).
  rewrite (view_numnodes s0 l Hv0). destruct (zlen l =? 0) eqn:E; b2p.
  { destruct l; [|cbn in E; lia].
    destruct (tree_add_ok s1 [] [] new r' Hv1 Hnew1) as (s' & -> & Hv' & Hh' & Hn'); try done.
    run. eexists. split; [done|]. exists [], []. rewrite Hh', Hn'. cbn [app] in *.
    split_and!; try done. }
  destruct (split_at_off l (r_off rw) Hs) as [(l1 & p & rp & l2 & -> & Ho)|(l1 & l2 & -> & H1 & H2)].
  - rewrite (find_at s0 l1 p rp l2 rw) by done. apply sleep_write_ok; [done|].
    assert (rl_ok rp) as (?&?&?) by (apply (sorted_in _ (p, rp) Hs), in_mid; auto).
    unfold overlaps. lia.
  - destruct (rl_find_free s0 l1 l2 rw Hv0 H1 H2) as (i & -> & -> & -> & Hins).
    assert ((forall a, In a l1 -> r_off a.2 + r_len a.2 <= r_off rw) ->
            (forall b, In b l2 -> r_off rw + r_len rw <= r_off b.2) ->
      exists a, (t ← ot_insert (z_range_avl s0) new i; Ok (Got (set_tree s1 t))) = Ok a /\
        writer_pass s (l1 ++ l2) new rw a) as Hgot.
    { intros Hb Ha. destruct (Hins new r' s1 Hnew1 eq_refl Hv1 Hni) as (t & -> & Hvt). run.
      eexists. split; [done|]. exists l1, l2. split_and!; try done. by apply rl_sorted_insert. }
    assert ((forall b, In b l2 -> r_off rw + r_len rw <= r_off b.2) ->
      exists a,
        (match fst <$> last l1 with
         | Some p => rp ← deref s0 p;
             if r_off rw <? r_end rp then sleep_write s0 p
             else t ← ot_insert (z_range_avl s0) new i; Ok (Got (set_tree s1 t))
         | None => t ← ot_insert (z_range_avl s0) new i; Ok (Got (set_tree s1 t))
         end) = Ok a /\ writer_pass s (l1 ++ l2) new rw a) as Hbefore.
    { intros Ha. destruct l1 as [|[p rp] l1' _] using rev_ind; [by apply Hgot|].
      rewrite last_snoc. cbn [fmap option_fmap option_map fst].
      assert (In (p, rp) ((l1' ++ [(p, rp)]) ++ l2)) as Hin by (rewrite !in_app_iff; cbn; auto).
      pose proof (sorted_in _ _ Hs Hin) as Hrp. cbn in Hrp.
      rewrite (view_deref _ _ p rp Hv0 Hin). run. rewrite r_end_ok by done.
      destruct (r_off rw <? r_off rp + r_len rp) eqn:E1; b2p.
      - rewrite <- app_assoc in Hv0 |- *. apply sleep_write_ok; [done|].
        assert (r_off rp < r_off rw) by (apply (H1 (p, rp)), in_app_iff; cbn; auto).
        unfold overlaps. lia.
      - apply Hgot; [|done]. by apply (last_bound l1' p rp l2). }
    destruct l2 as [|[q rq] l2']; cbn [head fmap option_fmap option_map fst]; [by apply Hbefore|].
    rewrite (view_deref _ _ q rq Hv0) by (apply in_mid; auto). run.
    rewrite r_end_ok by done. destruct (r_off rq <? r_off rw + r_len rw) eqn:E1; b2p.
    + apply sleep_write_ok; [done|].
      assert (rl_ok rq) as (?&?&?) by (apply (sorted_in _ (q, rq) Hs), in_mid; auto).
      assert (r_off rw < r_off rq) by (apply (H2 (q, rq)); by left). unfold overlaps. lia.
    + apply Hbefore. by apply (head_bound l1 q rq l2').
Qed.

(** ** Releasing the proxies of a range *)

(** Locks that follow each other without a gap from [a] to [b]. *)
Fixpoint chain (m : list ent) (a b : Z) : Prop :=
  match m with
  | [] => a = b
  | e :: m => r_off e.2 = a /\ chain m (r_off e.2 + r_len e.2) b
  end.

Lemma chain_here l a b : sorted l -> a <= b -> (forall e, In e l -> a <= r_off e.2) -> cuts l b ->
  (forall x, a <= x < b -> 0 < cnt_at l x) -> exists m l2, l = m ++ l2 /\ chain m a b.
Proof.
  revert a. induction l as [|e l IH]; intros a Hs Hab Ha Hb Hx.
  { exists [], []. split; [done|]. cbn. destruct (decide (a = b)); [done|].
    specialize (Hx a ltac:(lia)). cbn in Hx. lia. }
  destruct (decide (a = b)) as [->|Hne]; [by exists [], (e :: l)|].
  cbn in Hs. destruct Hs as ((Hr1 & Hr2 & Hr3) & Hl & Hs).
  assert (r_off e.2 = a) as Ea.
  { specialize (Ha e (or_introl eq_refl)). destruct (decide (r_off e.2 = a)); [done|].
    specialize (Hx a ltac:(lia)). rewrite (cnt_at_gap [] (e :: l) a (a + 1)) in Hx; try done; try lia.
    intros e' [<-|Hin]; [lia|]. specialize (Hl e' Hin). lia. }
  assert (r_off e.2 + r_len e.2 <= b) as Eb by (destruct (Hb e (or_introl eq_refl)); lia).
  destruct (IH (r_off e.2 + r_len e.2)) as (m & l2 & -> & Hc); try done.
  - intros e' Hin. apply Hb. by right.
  - intros x Hxr. specialize (Hx x ltac:(lia)). cbn in Hx. unfold inside in Hx.
    rewrite (proj2 (Z.ltb_ge x _)), andb_false_r in Hx by lia. lia.
  - exists (e :: m), l2. done.
Qed.

Lemma chain_ex l a b : sorted l -> a < b -> cuts l a -> cuts l b ->
  (forall x, a <= x < b -> 0 < cnt_at l x) ->
  exists l1 m l2, l = l1 ++ m ++ l2 /\ chain m a b.
Proof.
  induction l as [|e l IH]; intros Hs Hab Ha Hb Hx.
  { specialize (Hx a ltac:(lia)). cbn in Hx. lia. }
  destruct (decide (r_off e.2 + r_len e.2 <= a)) as [He|He].
  - cbn in Hs. destruct Hs as ((Hr1 & Hr2 & Hr3) & Hl & Hs).
    destruct IH as (l1 & m & l2 & -> & Hc); try done.
    + intros e' Hin. apply Ha. by right.
    + intros e' Hin. apply Hb. by right.
    + intros x Hxr. specialize (Hx x Hxr). cbn in Hx. unfold inside in Hx.
      rewrite (proj2 (Z.ltb_ge x _)), andb_false_r in Hx by lia. lia.
    + by exists (e :: l1), m, l2.
  - destruct (chain_here (e :: l) a b) as (m & l2 & -> & Hc); try done; [lia| |by exists [], m, l2].
    cbn in Hs. destruct Hs as ((Hr1 & Hr2 & Hr3) & Hl & Hs).
    intros e' [<-|Hin]; [destruct (Ha e (or_introl eq_refl)); lia|].
    specialize (Hl e' Hin). destruct (Ha e (or_introl eq_refl)); lia.
Qed.

Lemma chain_le m a b : sorted m -> chain m a b -> a <= b.
Proof.
  revert a. induction m as [|e m IH]; intros a Hs Hc; cbn in *; [lia|].
  destruct Hs as ((?&?&?) & _ & Hs). destruct Hc as [<- Hc]. specialize (IH _ Hs Hc). lia.
Qed.

Definition rel (e : ent) : list ent :=
  if r_cnt e.2 =? 1 then [] else [(e.1, set_cnt e.2 (r_cnt e.2 - 1))].
Definition release (m : list ent) : list ent := flat_map rel m.
Definition release_evs (m : list ent) : list cv :=
  flat_map (fun e => if r_cnt e.2 =? 1 then wakeups e.1 e.2 else []) m.

(** What is known of the heap after the proxies [m] have been released. *)
Definition released (s : table) (m : list ent) (s' : table) : Prop :=
  next_addr s' = next_addr s /\ (forall k, ~ In k m.*1 -> heap s' !! k = heap s !! k).

Lemma unlock_loop l2 b : forall m l1 s a evs fuel,
  view s (l1 ++ m ++ l2) -> sorted (l1 ++ m ++ l2) -> chain m a b ->
  (forall e, In e m -> r_type e.2 = RL_READER /\ 1 <= r_cnt e.2) -> (length m < fuel)%nat ->
  exists s', iter fuel unlock_round (s, b - a, fst <$> head m, evs) = Ok (s', evs ++ release_evs m) /\
    view s' (l1 ++ release m ++ l2) /\ released s m s'.
Proof.
  induction m as [|[p r] m IH]; intros l1 s a evs [|fuel] Hv Hs Hc Hm Hf; try (cbn in Hf; lia);
    rewrite iter_S; cbn [unlock_round].
  { cbn in Hc. subst a. rewrite Z.sub_diag. cbn. exists s. rewrite app_nil_r. split_and!; done. }
  cbn in Hc. destruct Hc as [<- Hc]. cbn [app] in Hv, Hs.
  pose proof (proj1 (sorted_app _ _) Hs) as (_ & S2 & _). cbn in S2. destruct S2 as (Hr & Hl & S2).
  pose proof (proj1 (sorted_app _ _) S2) as (Sm & _ & _). pose proof (chain_le _ _ _ Sm Hc) as Hle.
  assert (b < 2 ^ 64 \/ b = r_off r + r_len r) as Hb.
  { destruct m as [|e m]; [cbn in Hc; lia|]. left. clear -Hc Sm.
    revert Hc. generalize (r_off r + r_len r). revert Sm. induction m as [|e' m IH] in e |- *; intros Sm a Hc.
    - cbn in *. destruct Sm as ((?&?&?) & _). lia.
    - cbn [chain] in Hc. destruct Hc as [_ Hc]. cbn [sorted] in Sm. destruct Sm as (_ & _ & Sm).
      apply (IH e' Sm (r_off e.2 + r_len e.2)). done. }
  pose proof Hr as (Hr1 & Hr2 & Hr3). cbn [head fmap option_fmap option_map fst].
  rewrite (proj2 (Z.eqb_neq (b - r_off r) 0)) by lia.
  assert (In (p, r) (l1 ++ (p, r) :: m ++ l2)) as Hin by (apply in_mid; auto).
  rewrite (view_deref _ _ p r Hv Hin). run. rewrite (wrap_small 64) by lia.
  replace (b - r_off r - r_len r) with (b - (r_off r + r_len r)) by lia.
  match goal with |- context [if negb ?c then ?A else ?B] =>
    assert ((if negb c then A else B) = Ok (fst <$> head m)) as -> end.
  { destruct m as [|[q rq] m].
    - cbn in Hc. rewrite (proj2 (Z.eqb_eq _ 0)) by lia. done.
    - cbn in Hc. destruct Hc as [Hq Hc]. cbn in Sm. destruct Sm as ((?&?&?) & _ & Sm).
      pose proof (chain_le _ _ _ Sm Hc). rewrite (proj2 (Z.eqb_neq _ 0)) by lia. cbn [negb].
      rewrite (view_walk s l1 p r _ Hv). cbn [head app fmap option_fmap option_map fst].
      rewrite (view_deref _ _ q rq Hv) by (apply in_app_iff; cbn; auto). run.
      rewrite r_end_ok by done. rewrite (proj2 (Z.eqb_eq _ _) (eq_sym Hq)). cbn [verify]. run.
      destruct (Hm (q, rq)) as [Ht Hcn]; [by right; left|]. cbn in Ht, Hcn.
      rewrite (proj2 (Z.eqb_neq _ 0)) by lia. cbn [negb verify]. run.
      rewrite bool_decide_true by done. done. }
  run. destruct (Hm (p, r)) as [Ht Hcn]; [by left|]. cbn in Ht, Hcn. cbn [set_cnt r_cnt].
  assert (forall e, In e m -> r_type e.2 = RL_READER /\ 1 <= r_cnt e.2) as Hm'
    by (intros e He; apply Hm; by right).
  pose proof (view_nodup _ _ Hv) as Hnd. pose proof (nodup_mid _ _ _ _ Hnd) as Hni.
  assert (~ In p m.*1) as Hpm.
  { intros Hi. apply Hni. rewrite !fmap_app, !in_app_iff. auto. }
  cbn [release flat_map release_evs]. fold (release m) (release_evs m). unfold rel. cbn [fst snd].
  pose proof (view_store s l1 p r (set_cnt r (r_cnt r - 1)) (m ++ l2) Hv) as Hv1.
  destruct (r_cnt r =? 1) eqn:E1; b2p.
  - rewrite (proj2 (Z.eqb_eq (r_cnt r - 1) 0)) by lia.
    destruct (tree_remove_ok _ l1 p _ (m ++ l2) Hv1) as (s2 & Hrm & Hv2 & Hh2 & Hn2).
    rewrite Hrm. run. pose proof (view_free s2 _ p Hv2 Hni) as Hv3.
    destruct (IH l1 (kmem_free s2 p) (r_off r + r_len r)
      (evs ++ wakeups p (set_cnt r (r_cnt r - 1))) fuel) as (s' & Hit & Hvs & Hn3 & Hh3); try done.
    { apply sorted_app in Hs as (S1 & _ & S3). apply sorted_app. split_and!; try done.
      intros x y Hx Hy. apply S3; [done|]. by right. }
    { cbn in Hf. lia. }
    exists s'. rewrite Hit. change (wakeups p (set_cnt r (r_cnt r - 1))) with (wakeups p r).
    rewrite <- app_assoc. split_and!; try done. split; [rewrite Hn3; cbn; by rewrite Hn2|].
    intros k Hk. cbn in Hk. rewrite Hh3 by tauto. cbn. rewrite lookup_delete_ne, Hh2 by naive_solver.
    cbn. by rewrite lookup_insert_ne by naive_solver.
  - rewrite (proj2 (Z.eqb_neq _ 0)) by lia. run.
    assert (forall B, l1 ++ (p, set_cnt r (r_cnt r - 1)) :: B = (l1 ++ [(p, set_cnt r (r_cnt r - 1))]) ++ B) as Eapp
      by (intros; by rewrite <- app_assoc).
    rewrite Eapp in Hv1.
    destruct (IH (l1 ++ [(p, set_cnt r (r_cnt r - 1))]) _ (r_off r + r_len r) evs fuel Hv1)
      as (s' & Hit & Hvs & Hn3 & Hh3); try done.
    { rewrite <- Eapp. by eapply sorted_swap. }
    { cbn in Hf. lia. }
    exists s'. rewrite Hit. cbn [app]. rewrite Eapp. split_and!; try done. split; [by rewrite Hn3|].
    intros k Hk. cbn in Hk. rewrite Hh3 by tauto. cbn. by rewrite lookup_insert_ne by naive_solver.
Qed.

End Rlock.

End ZfsRlock.
