(* ===== verification/RlockThreads.v ===== *)
(** * File range locks under concurrency: fs/zfs/zfs_rlock.c

    The histories of one table of range locks (ZfsRlock.v) as a step relation on
    the table, the handles that are held and the threads that wait, the
    invariant of that relation and what it gives: exclusion, the absence of
    failed assertions and dangling pointers, and the absence of lost wakeups. *)

From Stdlib Require Import List Lia ZArith Bool.
From stdpp Require Import base option numbers list gmap.
From S2P Require Import Prelude OrdTree Avl ZfsRlock.
Import ZfsRlock.
Local Open Scope Z_scope.

Module RlockThreads.

Section Threads.
Context {OT : OrdTree nat}.

(** ** Threads

    [held] are the handles that were returned and not yet unlocked, [waiting] the
    calls of [zfs_range_lock] that have not returned: asleep on a condition
    variable, or woken by a broadcast and not yet running again. *)

Record waiter := Waiter {
  w_new : nat;
  w_off : Z;
  w_len : Z;
  w_type : rl_type;
  w_on : option cv
}.

Record sys := Sys {
  tab : table;
  held : list nat;
  waiting : list waiter
}.

Definition wake (evs : list cv) (w : waiter) : waiter :=
  match w_on w with
  | Some c => if bool_decide (c ∈ evs)
              then Waiter (w_new w) (w_off w) (w_len w) (w_type w) None else w
  | None => w
  end.

(** The outcome of a pass of the thread whose lock is [new]. *)
Definition settle (hs : list nat) (ws : list waiter) (new : nat) (off len : Z) (ty : rl_type)
    (a : attempt) : sys :=
  match a with
  | Got s => Sys s (new :: hs) ws
  | Wait s c => Sys s hs (Waiter new off len ty (Some c) :: ws)
  end.

(** The arguments of a call: a range that is not empty and does not wrap, also
    when it is moved to the end of the file. *)
Definition asks (zp : znode) (off len : Z) : Prop :=
  0 <= off /\ 0 < len /\ off + len < 2 ^ 64 /\ 0 <= zp_size zp /\ zp_size zp + len < 2 ^ 64.

(** A handle on the whole file, which [zfs_range_reduce] may shrink. *)
Definition whole (s : table) (p : nat) : Prop :=
  exists r, heap s !! p = Some r /\ r_type r = RL_WRITER /\ r_off r = 0 /\ r_len r = 2 ^ 64 - 1.

Inductive step (z : sys) : sys -> Prop :=
  | step_lock zp off len ty new a :
      asks zp off len -> zfs_range_lock zp (tab z) off len ty = Ok (new, a) ->
      step z (settle (held z) (waiting z) new off len ty a)
  | step_retry zp ws1 w ws2 a :
      waiting z = ws1 ++ w :: ws2 -> w_on w = None -> asks zp (w_off w) (w_len w) ->
      zfs_range_retry zp (tab z) (w_new w) (w_off w) (w_len w) (w_type w) = Ok a ->
      step z (settle (held z) (ws1 ++ ws2) (w_new w) (w_off w) (w_len w) (w_type w) a)
  | step_unlock h1 p h2 s evs :
      held z = h1 ++ p :: h2 -> zfs_range_unlock (tab z) p = Ok (s, evs) ->
      step z (Sys s (h1 ++ h2) (wake evs <$> waiting z))
  | step_reduce p off len s evs :
      In p (held z) -> whole (tab z) p -> 0 <= off -> 0 < len -> off + len < 2 ^ 64 ->
      zfs_range_reduce (tab z) p off len = Ok (s, evs) ->
      step z (Sys s (held z) (wake evs <$> waiting z)).

Definition sys0 : sys := Sys (Table ot_empty ∅ 0) [] [].

Inductive reachable : sys -> Prop :=
  | reachable_init : reachable sys0
  | reachable_step z z' : reachable z -> step z z' -> reachable z'.

(** ** The invariant *)

(** How many handles cover an offset. *)
Fixpoint cover (h : gmap nat rl) (hs : list nat) (x : Z) : Z :=
  match hs with
  | [] => 0
  | p :: hs => (match h !! p with Some r => if inside r x then 1 else 0 | None => 0 end) + cover h hs x
  end.

Definition parked (r : rl) : Prop :=
  r_cnt r = 0 /\ r_type r = RL_READER /\ r_write_wanted r = false /\ r_read_wanted r = false.

Definition hold (s : table) (l : list ent) (p : nat) : Prop :=
  exists r, heap s !! p = Some r /\ rl_ok r /\ r_proxy r = false /\
    (In (p, r) l \/
     (~ In p l.*1 /\ parked r /\ cuts l (r_off r) /\ cuts l (r_off r + r_len r))).

(** A lock that is not in the tree and belongs to a call under way. *)
Definition pending_call (s : table) (l : list ent) (new : nat) (off len : Z) (ty : rl_type) : Prop :=
  0 <= off /\ 0 < len /\ off + len < 2 ^ 64 /\
  exists r, heap s !! new = Some r /\ ~ In new l.*1 /\ r_proxy r = false /\ r_cnt r = 1 /\
    r_write_wanted r = false /\ r_read_wanted r = false /\ r_type r = ty /\
    (ty = RL_READER -> r_off r = off /\ r_len r = len).

Definition asleep (l : list ent) (on : option cv) : Prop :=
  match on with
  | Some (WrCv p) => exists r, In (p, r) l /\ r_write_wanted r = true
  | Some (RdCv p) => exists r, In (p, r) l /\ r_read_wanted r = true
  | None => True
  end.

Record inv (s : table) (hs : list nat) (ws : list waiter) (l : list ent) : Prop := Inv {
  inv_view : view s l;
  inv_sorted : sorted l;
  inv_ok : Forall ent_ok l;
  inv_nodup : List.NoDup (hs ++ map w_new ws);
  inv_proxy : forall e, In e l -> r_proxy e.2 = true -> ~ In e.1 (hs ++ map w_new ws);
  inv_orig : forall e, In e l -> r_proxy e.2 = false -> In e.1 hs;
  inv_hold : forall p, In p hs -> hold s l p;
  inv_cnt : forall x, cnt_at l x = cover (heap s) hs x;
  inv_calls : forall w, In w ws -> pending_call s l (w_new w) (w_off w) (w_len w) (w_type w);
  inv_sleep : forall w, In w ws -> asleep l (w_on w)
}.

Lemma cover_ext h h' hs x :
  (forall p, In p hs -> exists r r', h !! p = Some r /\ h' !! p = Some r' /\
     r_off r' = r_off r /\ r_len r' = r_len r) ->
  cover h' hs x = cover h hs x.
Proof.
  induction hs as [|p hs IH]; intros H; [done|]. cbn.
  destruct (H p (or_introl eq_refl)) as (r & r' & -> & -> & Ho & Hl). unfold inside. rewrite Ho, Hl.
  rewrite IH; [done|]. intros q Hq. apply H. by right.
Qed.

Lemma cover_mid h h1 p h2 x r : h !! p = Some r ->
  cover h (h1 ++ p :: h2) x = (if inside r x then 1 else 0) + cover h (h1 ++ h2) x.
Proof. intros Hp. induction h1 as [|q h1 IH]; cbn; [by rewrite Hp|]. rewrite IH. lia. Qed.

Lemma cover_nonneg h hs x : 0 <= cover h hs x.
Proof. induction hs as [|p hs IH]; cbn; [lia|]. destruct (h !! p) as [r|]; [step_if|]; lia. Qed.

Lemma cover_in h hs x p r : In p hs -> h !! p = Some r -> inside r x = true -> 1 <= cover h hs x.
Proof.
  intros (h1 & h2 & ->)%in_split Hp Hx. rewrite (cover_mid _ _ _ _ _ r Hp), Hx.
  pose proof (cover_nonneg h (h1 ++ h2) x). lia.
Qed.

Lemma inside_true r x : inside r x = true <-> r_off r <= x < r_off r + r_len r.
Proof. unfold inside. rewrite andb_true_iff, Z.leb_le, Z.ltb_lt. lia. Qed.

Lemma edge_end l1 e l2 : sorted (l1 ++ e :: l2) -> Forall ent_ok (l1 ++ e :: l2) ->
  edge (l1 ++ e :: l2) (r_off e.2 + r_len e.2).
Proof.
  intros Hs Hok. split; [by apply cuts_end|]. right. rewrite cnt_at_mid.
  apply forall_mid in Hok as [(Hc & _) Hok]. pose proof (cnt_at_nonneg _ (r_off e.2 + r_len e.2 - 1) Hok).
  assert (rl_ok e.2) as (?&?&?) by (apply (sorted_in _ e Hs), in_mid; auto).
  assert (inside e.2 (r_off e.2 + r_len e.2 - 1) = true) as ->; [|lia]. apply inside_true. lia.
Qed.

(** Both ends of a handle's range are ends of something locked. *)
Lemma hold_edges s hs ws l p r : inv s hs ws l -> In p hs -> heap s !! p = Some r ->
  edge l (r_off r) /\ edge l (r_off r + r_len r).
Proof.
  intros H Hp Hr. destruct (inv_hold _ _ _ _ H p Hp) as (r' & Hr' & (?&?&?) & _ & Hin).
  assert (r' = r) as -> by congruence. pose proof (inv_sorted _ _ _ _ H) as Hs.
  pose proof (inv_ok _ _ _ _ H) as Hok. destruct Hin as [Hin|(_ & _ & Hc1 & Hc2)].
  - apply in_split in Hin as (l1 & l2 & ->). split; [by apply (edge_start l1 (p, r))|by apply (edge_end l1 (p, r))].
  - assert (1 <= cover (heap s) hs (r_off r))
      by (apply (cover_in _ _ _ p r Hp Hr), inside_true; lia).
    assert (1 <= cover (heap s) hs (r_off r + r_len r - 1))
      by (apply (cover_in _ _ _ p r Hp Hr), inside_true; lia).
    unfold edge. rewrite !(inv_cnt _ _ _ _ H).
    split; (split; [done|]); [left|right]; lia.
Qed.

(** A lock of the tree gets a flag. *)
Lemma inv_flag s hs ws l1 p r r' l2 : inv s hs ws (l1 ++ (p, r) :: l2) ->
  r_off r' = r_off r -> r_len r' = r_len r -> r_cnt r' = r_cnt r -> r_proxy r' = r_proxy r ->
  (r_write_wanted r = true -> r_write_wanted r' = true) ->
  (r_read_wanted r = true -> r_read_wanted r' = true) -> ent_ok (p, r') ->
  inv (store s p r') hs ws (l1 ++ (p, r') :: l2).
Proof.
  intros [Hv Hs Hok Hnd Hpr Hor Hho Hcn Hca Hsl] Eo El Ec Ep Ew Er He.
  pose proof (view_heap s _ p r Hv ltac:(apply in_mid; auto)) as Hp.
  assert (forall k, In k (l1 ++ (p, r') :: l2).*1 <-> In k (l1 ++ (p, r) :: l2).*1) as Hk
    by (intros k; by rewrite !fmap_app).
  assert (forall c, cuts (l1 ++ (p, r) :: l2) c -> cuts (l1 ++ (p, r') :: l2) c) as Hcut
    by (intros c; by apply cuts_swap).
  assert (forall q, q <> p -> heap (store s p r') !! q = heap s !! q) as Hq
    by (intros q Hne; cbn; by rewrite lookup_insert_ne).
  constructor; try done.
  - by eapply view_store.
  - by eapply sorted_swap.
  - apply forall_mid in Hok as [_ Hok]. by apply forall_mid.
  - intros e [->|Hin]%in_mid Hep; [cbn in *|]; (apply (Hpr (p, r)) || apply Hpr); try apply in_mid; auto.
    cbn. congruence.
  - intros e [->|Hin]%in_mid Hep; [apply (Hor (p, r))|apply Hor]; try apply in_mid; auto. cbn in *. congruence.
  - intros q Hin. destruct (Hho q Hin) as (rq & Hrq & Hokq & Hprq & Hcase).
    destruct (decide (q = p)) as [->|Hne].
    + assert (rq = r) as -> by congruence. exists r'. cbn. rewrite lookup_insert_eq.
      unfold rl_ok in *. rewrite Eo, El, Ep. split_and!; try apply Hokq; try done.
      left. apply in_mid. auto.
    + exists rq. rewrite Hq by done. split_and!; try done.
      destruct Hcase as [[[= -> ->]|Hin']%in_mid|(Hn & Hpk & Hc1 & Hc2)]; [done|left; apply in_mid; auto|].
      right. rewrite Hk. auto.
  - intros x. rewrite (cover_ext (heap s)).
    + rewrite <- Hcn, !cnt_at_mid. unfold inside. cbn. by rewrite Eo, El, Ec.
    + intros q Hin. destruct (Hho q Hin) as (rq & Hrq & _). destruct (decide (q = p)) as [->|Hne].
      * exists r, r'. cbn. by rewrite lookup_insert_eq.
      * exists rq, rq. by rewrite Hq.
  - intros w Hin. destruct (Hca w Hin) as (H1 & H2 & H3 & rw & Hrw & Hni & Hrest).
    unfold pending_call. split_and!; try done. exists rw. rewrite Hk, Hq; [done|].
    intros E. apply Hni. rewrite E, fmap_app. apply in_app_iff. cbn. auto.
  - intros w Hin. specialize (Hsl w Hin). unfold asleep in *.
    destruct (w_on w) as [[q|q]|]; [| |done]; destruct Hsl as (rq & [[= -> ->]|Hin']%in_mid & Hf);
      [exists r'|exists rq|exists r'|exists rq]; (split; [apply in_mid; auto|auto]).
Qed.

(** The heap changes only at an address that is neither in the tree nor known. *)
Lemma inv_other s s' hs ws l p : inv s hs ws l -> view s' l -> ~ In p (hs ++ map w_new ws) ->
  (forall q, q <> p -> heap s' !! q = heap s !! q) -> inv s' hs ws l.
Proof.
  intros [Hv Hs Hok Hnd Hpr Hor Hho Hcn Hca Hsl] Hv' Hp Hq. rewrite in_app_iff in Hp.
  assert (forall q, In q hs -> heap s' !! q = heap s !! q) as Hqh
    by (intros q Hin; apply Hq; naive_solver).
  constructor; try done.
  - intros q Hin. destruct (Hho q Hin) as (r & Hr & Hrest). exists r. by rewrite Hqh.
  - intros x. rewrite Hcn. symmetry. apply cover_ext. intros q Hin.
    destruct (Hho q Hin) as (r & Hr & _). exists r, r. by rewrite Hqh.
  - intros w Hin. destruct (Hca w Hin) as (H1 & H2 & H3 & r & Hr & Hrest).
    unfold pending_call. split_and!; try done. exists r. rewrite Hq; [done|].
    intros E. apply Hp. right. rewrite <- E. by apply in_map.
Qed.

Lemma inv_known s hs ws l q : inv s hs ws l -> In q (hs ++ map w_new ws) -> is_Some (heap s !! q).
Proof.
  intros H [Hin|(w & <- & Hin)%in_map_iff]%in_app_iff.
  - destruct (inv_hold _ _ _ _ H q Hin) as (r & -> & _). eauto.
  - destruct (inv_calls _ _ _ _ H w Hin) as (_ & _ & _ & r & -> & _). eauto.
Qed.

Lemma inv_alloc s hs ws l r : inv s hs ws l ->
  exists s', kmem_alloc s r = (s', next_addr s) /\ inv s' hs ws l /\
    ~ In (next_addr s) (hs ++ map w_new ws) /\ ~ In (next_addr s) l.*1 /\
    heap s' !! next_addr s = Some r.
Proof.
  intros H. pose proof (inv_view _ _ _ _ H) as Hv.
  destruct (alloc_ok s l r Hv) as (s' & E & Hv' & Hni & Hh & _ & Hf).
  assert (~ In (next_addr s) (hs ++ map w_new ws)) as Hn.
  { intros Hin. pose proof (view_lt s l _ Hv (inv_known _ _ _ _ _ H Hin)). lia. }
  exists s'. split_and!; try done. by eapply inv_other.
Qed.

(** A lock of its own enters the tree. *)
Lemma inv_enter s hs ws l1 l2 s' new r : inv s hs ws (l1 ++ l2) ->
  ~ In new (hs ++ map w_new ws) -> ~ In new (l1 ++ l2).*1 ->
  view s' (l1 ++ (new, r) :: l2) -> sorted (l1 ++ (new, r) :: l2) -> heap s' = <[new := r]> (heap s) ->
  r_proxy r = false -> r_cnt r = 1 -> r_type r <> RL_APPEND -> r_read_wanted r = false ->
  inv s' (new :: hs) ws (l1 ++ (new, r) :: l2).
Proof.
  intros H Hn Hni Hv' Hs' Hh Hrp Hrc Hrt Hrr.
  assert (forall q, In q (hs ++ map w_new ws) -> heap s' !! q = heap s !! q) as Hq.
  { intros q Hin. rewrite Hh, lookup_insert_ne; [done|]. by intros ->. }
  assert (forall c, edge (l1 ++ l2) c -> cuts (l1 ++ (new, r) :: l2) c) as Hedge.
  { intros c [Hc Hpos]. apply cuts_mid. split; [|done]. cbn.
    pose proof (proj1 (sorted_app _ _) Hs') as (_ & S2 & S3). cbn in S2. destruct S2 as (Hr & Hl & _).
    destruct (decide (c <= r_off r)); [by left|]. destruct (decide (r_off r + r_len r <= c)); [by right|].
    rewrite !(cnt_at_gap l1 l2 (r_off r) (r_off r + r_len r)) in Hpos; try lia; try done.
    1,2: intros e Hin; apply (S3 e (new, r) Hin); by left. }
  assert (forall q rq, In q hs -> heap s !! q = Some rq -> edge (l1 ++ l2) (r_off rq) /\
    edge (l1 ++ l2) (r_off rq + r_len rq)) as Hed by (intros q rq; by apply (hold_edges s hs ws)).
  destruct H as [Hv Hs Hok Hnd Hpr Hor Hho Hcn Hca Hsl].
  assert (forall k, k <> new -> ~ In k (l1 ++ l2).*1 -> ~ In k (l1 ++ (new, r) :: l2).*1) as Hk.
  { intros k Hne Hnk. rewrite !fmap_app, !in_app_iff in *. cbn. naive_solver. }
  assert (heap s' !! new = Some r) as Hnew by (rewrite Hh; by rewrite lookup_insert_eq).
  assert (rl_ok r) as Hrok by (apply (sorted_in _ (new, r) Hs'), in_mid; auto).
  constructor; try done.
  - apply forall_mid. split; [|done]. unfold ent_ok. cbn. split_and!; try done; try lia; try congruence.
  - cbn. by constructor.
  - intros e [->|Hin]%in_mid Hep; [cbn in Hep; congruence|]. cbn. intros [E|Hin'].
    + apply Hni. rewrite E. by apply in_fst.
    + by apply (Hpr e Hin Hep).
  - intros e [->|Hin]%in_mid Hep; [by left|]. right. by apply Hor.
  - intros q [<-|Hin].
    + exists r. split_and!; try done. left. apply in_mid. auto.
    + destruct (Hho q Hin) as (rq & Hrq & Hokq & Hprq & Hcase). exists rq.
      rewrite Hq by (apply in_app_iff; auto). split_and!; try done.
      destruct (Hed q rq Hin Hrq) as [He1 He2].
      destruct Hcase as [Hin'|(Hnq & Hpk & _)]; [left; apply in_mid; auto|right].
      split_and!; try done; [|by apply Hedge|by apply Hedge].
      apply Hk; [|done]. intros ->. apply Hn, in_app_iff. auto.
  - intros x. cbn. rewrite Hnew, cnt_at_mid, Hcn. cbn. rewrite Hrc. f_equal. symmetry.
    apply cover_ext. intros q Hin. destruct (Hho q Hin) as (rq & Hrq & _). exists rq, rq.
    rewrite Hq by (apply in_app_iff; auto). done.
  - intros w Hin. destruct (Hca w Hin) as (H1 & H2 & H3 & rw & Hrw & Hnw & Hrest).
    assert (In (w_new w) (hs ++ map w_new ws)) as Hw by (apply in_app_iff; right; by apply in_map).
    unfold pending_call. split_and!; try done. exists rw. rewrite Hq by done. split_and!; try done; try apply Hrest.
    apply Hk; [|done]. intros E. apply Hn. by rewrite <- E.
  - intros w Hin. specialize (Hsl w Hin). unfold asleep in *.
    destruct (w_on w) as [[q|q]|]; [| |done]; destruct Hsl as (rq & Hin' & Hf); exists rq;
      (split; [apply in_mid; auto|done]).
Qed.

(** A reader takes shares in proxies. *)
Lemma inv_share s hs ws l s' l' new rn : inv s hs ws l ->
  ~ In new (hs ++ map w_new ws) -> ~ In new l.*1 -> heap s !! new = Some rn -> rl_ok rn ->
  r_proxy rn = false -> r_type rn = RL_READER -> r_write_wanted rn = false -> r_read_wanted rn = false ->
  changed (store s new (set_cnt rn 0)) l s' l' (span (r_off rn) (r_off rn + r_len rn)) ->
  cuts l' (r_off rn) -> cuts l' (r_off rn + r_len rn) ->
  inv s' (new :: hs) ws l'.
Proof.
  intros H Hn Hni Hnew Hrn Hrp Hrt Hrw Hrr Hc Hc1 Hc2.
  pose proof Hc as (Hv' & Hs' & Hok' & (F1 & F2 & F3 & F4 & F5 & F6) & Hcnt & Hedge & _).
  set (s0 := store s new (set_cnt rn 0)) in *.
  assert (heap s0 !! new = Some (set_cnt rn 0)) as Hnew0 by (cbn; by rewrite lookup_insert_eq).
  destruct (F2 new _ Hnew0 Hni) as [Hnew' Hni'].
  assert (forall q, q <> new -> heap s0 !! q = heap s !! q) as Hq0
    by (intros q Hne; cbn; by rewrite lookup_insert_ne).
  assert (forall q, In q (hs ++ map w_new ws) -> q <> new) as Hne by (intros q Hin ->; done).
  assert (forall q, In q hs -> exists r r', heap s !! q = Some r /\ heap s' !! q = Some r' /\
    r_off r' = r_off r /\ r_len r' = r_len r /\ hold s' l' q) as Hall.
  { intros q Hin. destruct (inv_hold _ _ _ _ H q Hin) as (r & Hr & Hrok & Hrp' & Hcase).
    destruct (hold_edges _ _ _ _ _ _ H Hin Hr) as [He1 He2].
    assert (q <> new) as Hqn by (apply Hne, in_app_iff; auto).
    exists r. destruct Hcase as [Hinl|(Hnl & Hpk & _)].
    - assert (In (q, r) l' \/ (~ In q l'.*1 /\ heap s' !! q = Some (set_cnt r 0) /\ sharable r)) as [Hin'|(Hn' & Hh' & Hsh)].
      { destruct (decide (r_type r = RL_READER /\ r_write_wanted r = false)) as [Hsh|Hsh]; [|left; by apply (F3 (q, r))].
        destruct (F4 q r Hinl Hrp' Hsh) as [?|[? ?]]; [by left|right; done]. }
      + exists r. pose proof (view_heap _ _ _ _ Hv' Hin') as Hh. split_and!; try done.
        exists r. split_and!; try done. by left.
      + exists (set_cnt r 0). split_and!; try done. exists (set_cnt r 0). split_and!; try done.
        right. split_and!; [done| |by apply Hedge|by apply Hedge].
        pose proof (inv_ok _ _ _ _ H) as Hok. rewrite List.Forall_forall in Hok.
        pose proof (sharable_quiet (q, r) (Hok _ Hinl) Hsh). destruct Hsh. by unfold parked.
    - destruct (F2 q r) as [Hh' Hn']; [by rewrite Hq0|done|]. exists r. split_and!; try done.
      exists r. split_and!; try done. right. split_and!; try done; by apply Hedge. }
  pose proof H as [Hv Hs Hok Hnd Hpr Hor Hho Hcn Hca Hsl].
  constructor; try done.
  - cbn. by constructor.
  - intros e Hin Hep. destruct (F6 e Hin Hep) as [Hge|(r & Hr & Hrpx)].
    + intros Hin'. cbn in Hin'. assert (is_Some (heap s !! e.1)) as His.
      { destruct Hin' as [<-|Hin']; [by rewrite Hnew|]. by apply (inv_known _ _ _ _ _ H). }
      pose proof (view_lt s l _ Hv His). cbn in Hge. lia.
    + intros [E|Hin']; [|by apply (Hpr (e.1, r))]. apply Hni'. rewrite E. by apply in_fst.
  - intros e Hin Hep. right. apply Hor; [by apply F5|done].
  - intros q [<-|Hin]; [|destruct (Hall q Hin) as (? & ? & _ & _ & _ & _ & ?); done].
    exists (set_cnt rn 0). split_and!; try done. right. split_and!; try done.
  - intros x. rewrite Hcnt, Hcn. cbn. rewrite Hnew'.
    change (inside (set_cnt rn 0) x) with (inside rn x). unfold span, inside.
    rewrite (cover_ext (heap s) (heap s')); [lia|].
    intros q Hin. destruct (Hall q Hin) as (r & r' & ? & ? & ? & ? & _). by exists r, r'.
  - intros w Hin. destruct (Hca w Hin) as (H1 & H2 & H3 & rw & Hrw' & Hnw & Hrest).
    assert (w_new w <> new) as Hwn by (apply Hne, in_app_iff; right; by apply in_map).
    destruct (F2 (w_new w) rw) as [Hh' Hn']; [by rewrite Hq0|done|].
    unfold pending_call. split_and!; try done. by exists rw.
  - intros w Hin. specialize (Hsl w Hin). unfold asleep in *. rewrite List.Forall_forall in Hok.
    destruct (w_on w) as [[q|q]|]; [| |done]; destruct Hsl as (rq & Hin' & Hf); exists rq;
      (split; [|done]); apply (F3 (q, rq)); try done; intros Hsh; cbn in Hsh.
    + destruct Hsh. congruence.
    + pose proof (sharable_quiet (q, rq) (Hok _ Hin') Hsh) as Hx. cbn in Hx. congruence.
Qed.

(** *** Unlocking keeps the invariant *)

Lemma asleep_wake l l' evs w :
  asleep l (w_on w) ->
  (forall p r, In (p, r) l -> exists r', (In (p, r') l' /\ r_write_wanted r' = r_write_wanted r /\
      r_read_wanted r' = r_read_wanted r) \/
     ((r_write_wanted r = true -> In (WrCv p) evs) /\ (r_read_wanted r = true -> In (RdCv p) evs))) ->
  asleep l' (w_on (wake evs w)).
Proof.
  intros Hsl Hl. unfold wake. destruct (w_on w) as [c|] eqn:E; [|by rewrite E].
  destruct (bool_decide (c ∈ evs)) eqn:Eb; [done|]. apply bool_decide_eq_false in Eb.
  rewrite list_elem_of_In in Eb. rewrite E. unfold asleep in *.
  destruct c as [p|p]; destruct Hsl as (r & Hin & Hf);
    destruct (Hl p r Hin) as (r' & [(Hin' & Hw & Hr)|[Hw Hr]]); try (exists r'; split; [done|congruence]);
    exfalso; auto.
Qed.

Lemma map_wake evs ws : map w_new (wake evs <$> ws) = map w_new ws.
Proof.
  induction ws as [|w ws IH]; cbn; [done|]. f_equal; [|done].
  unfold wake. destruct (w_on w); [|done]. by destruct (bool_decide _).
Qed.

Lemma wake_call evs w : w_new (wake evs w) = w_new w /\ w_off (wake evs w) = w_off w /\
  w_len (wake evs w) = w_len w /\ w_type (wake evs w) = w_type w.
Proof. unfold wake. destruct (w_on w); [|done]. by destruct (bool_decide _). Qed.

(** A handle goes: what has to be known of the new state. *)
Lemma inv_leave s h1 h h2 r ws l s' l' evs : inv s (h1 ++ h :: h2) ws l -> heap s !! h = Some r ->
  view s' l' -> sorted l' -> Forall ent_ok l' ->
  (forall e, In e l' -> exists r0, In (e.1, r0) l /\ r_proxy r0 = r_proxy e.2 /\ e.1 <> h) ->
  (forall q r0, q <> h -> In (q, r0) l -> r_proxy r0 = false -> In (q, r0) l') ->
  (forall c, cuts l c -> cuts l' c) ->
  (forall x, cnt_at l x = (if inside r x then 1 else 0) + cnt_at l' x) ->
  (forall q, In q (h1 ++ h2 ++ map w_new ws) -> heap s' !! q = heap s !! q) ->
  (forall p r0, In (p, r0) l -> exists r', (In (p, r') l' /\ r_write_wanted r' = r_write_wanted r0 /\
      r_read_wanted r' = r_read_wanted r0) \/
     ((r_write_wanted r0 = true -> In (WrCv p) evs) /\ (r_read_wanted r0 = true -> In (RdCv p) evs))) ->
  inv s' (h1 ++ h2) (wake evs <$> ws) l'.
Proof.
  intros [Hv Hs Hok Hnd Hpr Hor Hho Hcn Hca Hsl] Hh Hv' Hs' Hok' Hsub Hkeep Hcut Hcnt Hq Hwake.
  assert (List.NoDup ((h1 ++ h2) ++ map w_new ws) /\ ~ In h ((h1 ++ h2) ++ map w_new ws)) as [Hnd' Hh'].
  { rewrite <- app_assoc in Hnd |- *. cbn in Hnd. split; [by apply NoDup_remove_1 in Hnd|by apply NoDup_remove_2 in Hnd]. }
  assert (forall q, In q (h1 ++ h2) -> q <> h /\ In q (h1 ++ h :: h2) /\ heap s' !! q = heap s !! q) as Hin2.
  { intros q Hin. split_and!.
    - intros ->. apply Hh', in_app_iff. auto.
    - apply in_mid. auto.
    - apply Hq. rewrite app_assoc. apply in_app_iff. auto. }
  constructor; rewrite ?map_wake; try done.
  - intros e Hin Hep. destruct (Hsub e Hin) as (r0 & Hin0 & Hpe & Hne).
    intros Hin'. apply (Hpr (e.1, r0)); cbn; [done|congruence|]. rewrite <- app_assoc in Hin' |- *. cbn.
    apply in_mid. auto.
  - intros e Hin Hep. destruct (Hsub e Hin) as (r0 & Hin0 & Hpe & Hne).
    pose proof (Hor (e.1, r0) Hin0 ltac:(cbn; congruence)) as Ho. cbn in Ho. by apply in_mid in Ho as [?|?].
  - intros q Hin. destruct (Hin2 q Hin) as (Hne & Hinq & Hhq).
    destruct (Hho q Hinq) as (rq & Hrq & Hokq & Hprq & Hcase). exists rq. rewrite Hhq. split_and!; try done.
    destruct Hcase as [Hinl|(Hnl & Hpk & Hc1 & Hc2)]; [left; by apply Hkeep|right].
    split_and!; auto. intros (r0 & Hin0)%fst_in. destruct (Hsub _ Hin0) as (r1 & Hin1 & _).
    apply Hnl. apply (in_fst l (q, r1) Hin1).
  - intros x. specialize (Hcnt x). rewrite Hcn, (cover_mid _ _ _ _ _ r Hh) in Hcnt.
    rewrite (cover_ext (heap s)); [lia|]. intros q Hin. destruct (Hin2 q Hin) as (_ & Hinq & Hhq).
    destruct (Hho q Hinq) as (rq & Hrq & _). exists rq, rq. by rewrite Hhq.
  - intros w' (w & -> & Hin)%list_elem_of_In%list_elem_of_fmap. apply list_elem_of_In in Hin.
    destruct (wake_call evs w) as (-> & -> & -> & ->).
    destruct (Hca w Hin) as (H1 & H2 & H3 & rw & Hrw & Hnw & Hrest).
    unfold pending_call. split_and!; try done. exists rw. rewrite Hq by (rewrite !in_app_iff; do 2 right; by apply in_map).
    split_and!; try done; try apply Hrest. intros (r0 & Hin0)%fst_in.
    destruct (Hsub _ Hin0) as (r1 & Hin1 & _). apply Hnw. apply (in_fst l (_, r1) Hin1).
  - intros w' (w & -> & Hin)%list_elem_of_In%list_elem_of_fmap. apply list_elem_of_In in Hin.
    apply (asleep_wake l); [auto|done].
Qed.

Lemma wakeups_in p r : (r_write_wanted r = true -> In (WrCv p) (wakeups p r)) /\
  (r_read_wanted r = true -> In (RdCv p) (wakeups p r)).
Proof. unfold wakeups. split; intros ->; apply in_app_iff; cbn; auto. Qed.

(** Unlocking a lock that is in the tree itself. *)
Lemma inv_remove s h1 h h2 ws l1 r l2 : inv s (h1 ++ h :: h2) ws (l1 ++ (h, r) :: l2) -> r_cnt r = 1 ->
  r_proxy r = false ->
  exists s1, tree_remove s h = Ok s1 /\
    inv (kmem_free s1 h) (h1 ++ h2) (wake (wakeups h r) <$> ws) (l1 ++ l2).
Proof.
  intros H Hrc Hrp. pose proof (inv_view _ _ _ _ H) as Hv.
  destruct (tree_remove_ok s l1 h r l2 Hv) as (s1 & E & Hv1 & Hh1 & Hn1). exists s1. split; [done|].
  pose proof (nodup_mid _ _ _ _ (view_nodup _ _ Hv)) as Hni.
  assert (heap s !! h = Some r) as Hh by (apply (view_heap _ _ _ _ Hv), in_mid; auto).
  pose proof (inv_nodup _ _ _ _ H) as Hnd. rewrite <- app_assoc in Hnd. cbn in Hnd.
  apply NoDup_remove_2 in Hnd.
  eapply inv_leave; try done.
  - by apply view_free.
  - pose proof (inv_sorted _ _ _ _ H) as (S1 & S2 & S3)%sorted_app. apply sorted_app. cbn in S2.
    split_and!; try apply S2; try done. intros a b Ha Hb. apply S3; [done|by right].
  - pose proof (inv_ok _ _ _ _ H) as Hok. by apply forall_mid in Hok as [_ ?].
  - intros [q rq] Hin. exists rq. split_and!; [apply in_mid; auto|done|]. cbn. intros ->.
    apply Hni. apply (in_fst _ (h, rq) Hin).
  - intros q r0 Hne [[= -> ->]|Hin]%in_mid _; [done|done].
  - intros c. rewrite cuts_mid. tauto.
  - intros x. rewrite cnt_at_mid. cbn. by rewrite Hrc.
  - intros q Hin. cbn. rewrite lookup_delete_ne, Hh1; [done|]. by intros <-.
  - intros p r0 [[= -> ->]|Hin]%in_mid; [exists r; right; apply wakeups_in|exists r0; left; done].
Qed.

(** *** Releasing proxies keeps the invariant *)

Lemma rel_in e e' : In e' (rel e) -> e'.1 = e.1 /\ e'.2 = set_cnt e.2 (r_cnt e.2 - 1) /\ r_cnt e.2 <> 1.
Proof. unfold rel. step_if; [done|]. b2p. intros [<-|[]]. done. Qed.

Lemma release_in m e' : In e' (release m) ->
  exists e, In e m /\ e'.1 = e.1 /\ e'.2 = set_cnt e.2 (r_cnt e.2 - 1) /\ r_cnt e.2 <> 1.
Proof. intros (e & Hin & He)%in_flat_map. exists e. split; [done|]. by apply rel_in. Qed.

Lemma release_sorted m : sorted m -> sorted (release m).
Proof.
  induction m as [|e m IH]; intros Hs; [done|]. cbn in Hs. destruct Hs as (He & Hl & Hs).
  cbn [release flat_map]. fold (release m). unfold rel. step_if; [by apply IH|].
  cbn. split_and!; [done| |by apply IH]. intros e' (e0 & Hin & _ & -> & _)%release_in. cbn. by apply Hl.
Qed.

Lemma release_mid_sorted l1 m l2 : sorted (l1 ++ m ++ l2) -> sorted (l1 ++ release m ++ l2).
Proof.
  intros (S1 & (Sm & S2 & S4)%sorted_app & S3)%sorted_app.
  apply sorted_app. split_and!; [done| |].
  - apply sorted_app. split_and!; [by apply release_sorted|done|].
    intros a b (e0 & Hin & _ & -> & _)%release_in Hb. cbn. by apply S4.
  - intros a b Ha [(e0 & Hin & _ & -> & _)%release_in|Hb]%in_app_iff; cbn; apply S3; try done;
      apply in_app_iff; auto.
Qed.

Lemma release_cnt m a b x : sorted m -> chain m a b ->
  cnt_at m x = span a b x + cnt_at (release m) x.
Proof.
  revert a. induction m as [|e m IH]; intros a Hs Hc.
  { cbn in *. subst b. unfold span. step_if; [b2p; lia|done]. }
  cbn in Hs. destruct Hs as ((?&?&?) & Hl & Hs). cbn in Hc. destruct Hc as [<- Hc].
  cbn [release flat_map]. fold (release m). rewrite cnt_at_app. cbn [cnt_at].
  rewrite (IH _ Hs Hc). pose proof (chain_le _ _ _ Hs Hc).
  rewrite <- (span_join (r_off e.2) (r_off e.2 + r_len e.2) b) by lia.
  unfold rel. destruct (r_cnt e.2 =? 1) eqn:E; b2p; cbn [cnt_at snd].
  - unfold inside, span. rewrite E. step_if; lia.
  - change (inside (set_cnt e.2 (r_cnt e.2 - 1)) x) with (inside e.2 x). unfold inside, span. cbn.
    step_if; lia.
Qed.

Lemma chain_in m a b e : sorted m -> chain m a b -> In e m ->
  a <= r_off e.2 /\ r_off e.2 + r_len e.2 <= b /\ 0 < r_len e.2.
Proof.
  revert a. induction m as [|e' m IH]; intros a Hs Hc Hin; [done|].
  cbn in Hs, Hc. destruct Hs as ((?&?&?) & Hl & Hs), Hc as [<- Hc].
  pose proof (chain_le _ _ _ Hs Hc). destruct Hin as [<-|Hin]; [lia|].
  specialize (IH _ Hs Hc Hin). lia.
Qed.

(** An entry of the tree is covered by a handle, and an original by no other. *)
Lemma entry_held s hs ws l p r x : inv s hs ws l -> In (p, r) l -> inside r x = true ->
  cover (heap s) hs x = r_cnt r.
Proof.
  intros H Hin Hx. rewrite <- (inv_cnt _ _ _ _ H). pose proof (inv_sorted _ _ _ _ H) as Hs.
  apply in_split in Hin as (k1 & k2 & ->). rewrite cnt_at_mid. cbn. rewrite Hx.
  apply sorted_app in Hs as (_ & S2 & S3). cbn in S2. destruct S2 as (_ & Hl & _).
  rewrite (cnt_at_gap k1 k2 (r_off r) (r_off r + r_len r)); [lia| |done|by apply inside_true].
  intros e He. apply (S3 e (p, r) He). by left.
Qed.

(** The locks inside the range of a handle that is not in the tree are proxies: an
    original would be counted once and covered twice. *)
Lemma range_proxies s h1 h h2 ws l r e : inv s (h1 ++ h :: h2) ws l -> heap s !! h = Some r ->
  ~ In h l.*1 -> In e l -> r_off r <= r_off e.2 < r_off r + r_len r -> r_proxy e.2 = true.
Proof.
  destruct e as [p rp]. cbn. intros H Hh Hni Hin Hr. destruct (r_proxy rp) eqn:Ep; [done|]. exfalso.
  pose proof (inv_orig _ _ _ _ H _ Hin Ep) as Hp. cbn in Hp.
  pose proof (inv_ok _ _ _ _ H) as Hok. rewrite List.Forall_forall in Hok.
  destruct (Hok _ Hin) as (_ & _ & _ & Hc & _). specialize (Hc Ep). cbn in Hc.
  destruct (sorted_in _ _ (inv_sorted _ _ _ _ H) Hin) as (?&?&?). cbn in *.
  pose proof (entry_held _ _ _ _ p rp (r_off rp) H Hin) as Hone.
  rewrite inside_true, (cover_mid _ _ _ _ _ r Hh), (proj2 (inside_true r (r_off rp)) Hr) in Hone.
  specialize (Hone ltac:(lia)).
  assert (1 <= cover (heap s) (h1 ++ h2) (r_off rp)); [|lia].
  apply (cover_in _ _ _ p rp).
  - apply in_mid in Hp as [->|?]; [|done]. exfalso. apply Hni. apply (in_fst _ (h, rp) Hin).
  - apply (view_heap _ _ _ _ (inv_view _ _ _ _ H) Hin).
  - apply inside_true. lia.
Qed.

Lemma inv_release s h1 h h2 ws l r : inv s (h1 ++ h :: h2) ws l -> heap s !! h = Some r ->
  rl_ok r -> r_proxy r = false -> ~ In h l.*1 -> parked r -> cuts l (r_off r) -> cuts l (r_off r + r_len r) ->
  exists s' evs l', zfs_range_unlock_reader s h = Ok (s', evs) /\
    inv s' (h1 ++ h2) (wake evs <$> ws) l'.
Proof.
  intros H Hh Hr Hrp Hni (Hc0 & Hty & Hww & Hrw) Hc1 Hc2.
  pose proof H as [Hv Hs Hok Hnd Hpr Hor Hho Hcn Hca Hsl]. pose proof Hr as (Hr1 & Hr2 & Hr3).
  assert (forall x, inside r x = true -> 0 < cnt_at l x) as Hpos.
  { intros x Hx. rewrite Hcn. pose proof (cover_in (heap s) (h1 ++ h :: h2) x h r
      ltac:(apply in_mid; auto) Hh Hx). lia. }
  destruct (chain_ex l (r_off r) (r_off r + r_len r)) as (l1 & m & l2 & -> & Hch); try done; try lia.
  { intros x Hx. apply Hpos, inside_true. lia. }
  pose proof (proj1 (sorted_app _ _) Hs) as (_ & Sm0 & _). pose proof (proj1 (sorted_app _ _) Sm0) as (Sm & _ & _).
  assert (forall e, In e m -> In e (l1 ++ m ++ l2)) as Hml by (intros; rewrite !in_app_iff; auto).
  rewrite List.Forall_forall in Hok.
  assert (forall e, In e m -> r_proxy e.2 = true) as Hmp.
  { intros e Hin. destruct (chain_in m _ _ e Sm Hch Hin) as (Hi1 & Hi2 & Hi3).
    apply (range_proxies s h1 h h2 ws (l1 ++ m ++ l2) r e); try done; [by apply Hml|lia]. }
  assert (forall e, In e m -> r_type e.2 = RL_READER /\ 1 <= r_cnt e.2) as Hmr.
  { intros e Hin. destruct (Hok _ (Hml _ Hin)) as (Hc & _ & Ht & _). specialize (Ht (Hmp _ Hin)). done. }
  unfold zfs_range_unlock_reader. rewrite (deref_heap _ _ _ Hh). run. rewrite Hc0, Hww, Hrw.
  cbn [Z.eqb negb verify]. run.
  destruct m as [|[p rp] m]; [cbn in Hch; lia|]. pose proof Hch as [Hp Hch']. cbn in Hp.
  assert (l1 ++ ((p, rp) :: m) ++ l2 = l1 ++ (p, rp) :: m ++ l2) as El by done.
  rewrite (find_at s l1 p rp (m ++ l2) r) by done.
  rewrite (view_deref _ _ p rp Hv) by (apply Hml; by left). run.
  destruct (Hmr (p, rp) (or_introl eq_refl)) as [Htp Hcp]. cbn in Htp, Hcp.
  rewrite (proj2 (Z.eqb_neq _ 0)), bool_decide_true by (done || lia). cbn [negb verify]. run.
  destruct (unlock_loop l2 (r_off r + r_len r) ((p, rp) :: m) l1 s (r_off r) []
    (S (S (Z.to_nat (ot_numnodes (z_range_avl s)))))) as (s1 & Hit & Hv1 & Hn1 & Hf1); try done.
  { rewrite (view_numnodes s _ Hv), !length_app. lia. }
  replace (r_off r + r_len r - r_off r) with (r_len r) in Hit by lia.
  cbn [head fmap option_fmap option_map fst] in Hit. rewrite Hit. run. cbn [app].
  eexists _, _, (l1 ++ release ((p, rp) :: m) ++ l2). split; [done|].
  set (mm := (p, rp) :: m) in *.
  assert (forall q, In q mm.*1 -> ~ In q (h1 ++ h :: h2 ++ map w_new ws)) as Hmn.
  { intros q (rq & Hin)%fst_in. pose proof (Hpr _ (Hml _ Hin) (Hmp _ Hin)) as Hx. cbn in Hx.
    by rewrite <- app_assoc in Hx. }
  assert (forall k, In k (l1 ++ release mm ++ l2).*1 -> In k (l1 ++ mm ++ l2).*1) as Hsub.
  { intros k ([k' rk] & <- & Hin)%in_map_iff. rewrite !fmap_app, !in_app_iff.
    apply in_app_iff in Hin as [Hin|[(e & Hin & -> & _)%release_in|Hin]%in_app_iff].
    - left. by apply in_fst in Hin.
    - right; left. by apply in_fst.
    - right; right. by apply in_fst in Hin. }
  eapply inv_leave; try done.
  - apply view_free; [done|]. intros Hin. by apply Hni, Hsub.
  - by apply release_mid_sorted.
  - apply List.Forall_forall. intros e Hin.
    apply in_app_iff in Hin as [Hin|[(e0 & Hin & E1 & E2 & Hne)%release_in|Hin]%in_app_iff];
      [apply Hok; apply in_app_iff; auto| |apply Hok; rewrite !in_app_iff; auto].
    destruct (Hok _ (Hml _ Hin)) as (Hcc & Hta & Htr & _ & Hrwt). pose proof (Hmp _ Hin).
    unfold ent_ok. rewrite E2. cbn. split_and!; try done; [lia|congruence].
  - intros e Hin. assert (e.1 <> h) as Hne.
    { intros <-. apply Hni, Hsub. by apply in_fst. }
    destruct e as [q rq]. cbn [fst snd] in *.
    apply in_app_iff in Hin as [Hin|[(e0 & Hin & E1 & E2 & _)%release_in|Hin]%in_app_iff].
    + exists rq. split_and!; try done. rewrite !in_app_iff. auto.
    + cbn in E1, E2. exists e0.2. subst q rq. cbn. rewrite <- surjective_pairing. split_and!; try done. by apply Hml.
    + exists rq. split_and!; try done. rewrite !in_app_iff. auto.
  - intros q r0 Hne Hin Hpq. rewrite !in_app_iff in *. destruct Hin as [?|[Hin|?]]; auto.
    specialize (Hmp _ Hin). cbn in Hmp. congruence.
  - intros c Hc e Hin. apply in_app_iff in Hin as [Hin|[(e0 & Hin & _ & -> & _)%release_in|Hin]%in_app_iff];
      [apply Hc; rewrite !in_app_iff; auto| |apply Hc; rewrite !in_app_iff; auto].
    cbn. apply Hc. rewrite !in_app_iff. auto.
  - intros x. rewrite !cnt_at_app, (release_cnt mm _ _ x Sm Hch). unfold span, inside. lia.
  - intros q Hin. assert (In q (h1 ++ h :: h2 ++ map w_new ws)) as Hin' by (apply in_mid; auto).
    cbn. rewrite lookup_delete_ne, Hf1; [done| |].
    + intros Hm. by apply (Hmn q Hm).
    + intros <-. rewrite <- app_assoc in Hnd. cbn in Hnd. by apply NoDup_remove_2 in Hnd.
  - intros q r0 Hin. rewrite !in_app_iff in Hin. destruct Hin as [Hin|[Hin|Hin]];
      [exists r0; left; rewrite !in_app_iff; auto| |exists r0; left; rewrite !in_app_iff; auto].
    destruct (r_cnt r0 =? 1) eqn:E1; b2p.
    + exists r0. right. destruct (wakeups_in q r0) as [W1 W2].
      assert (forall c, In c (wakeups q r0) -> In c (release_evs mm)) as Hev.
      { intros c Hc. apply in_flat_map. exists (q, r0). split; [done|]. cbn. by rewrite (proj2 (Z.eqb_eq _ 1) E1). }
      auto.
    + exists (set_cnt r0 (r_cnt r0 - 1)). left. split; [|done]. rewrite !in_app_iff. right; left.
      apply in_flat_map. exists (q, r0). split; [done|]. unfold rel. cbn.
      rewrite (proj2 (Z.eqb_neq _ 1)) by done. by left.
Qed.

(** ** Every pass keeps the invariant *)

Definition sys_inv (z : sys) : Prop := exists l, inv (tab z) (held z) (waiting z) l.

Lemma inv_wait s hs ws l new off len ty c : inv s hs ws l -> ~ In new (hs ++ map w_new ws) ->
  pending_call s l new off len ty -> asleep l (Some c) ->
  inv s hs (Waiter new off len ty (Some c) :: ws) l.
Proof.
  intros [Hv Hs Hok Hnd Hpr Hor Hho Hcn Hca Hsl] Hn Hp Ha. constructor; try done; cbn [map w_new].
  - apply NoDup_Add with (a := new) (l := hs ++ map w_new ws); [apply Add_app|done].
  - intros e Hin Hep [E|Hin']%in_mid; [|by apply (Hpr e Hin Hep)].
    destruct Hp as (_ & _ & _ & r & _ & Hni & _). apply Hni. rewrite <- E. by apply in_fst.
  - intros w [<-|Hin]; [done|auto].
  - intros w [<-|Hin]; [done|auto].
Qed.

Lemma inv_drop s hs ws1 w ws2 l : inv s hs (ws1 ++ w :: ws2) l ->
  inv s hs (ws1 ++ ws2) l /\ ~ In (w_new w) (hs ++ map w_new (ws1 ++ ws2)).
Proof.
  intros [Hv Hs Hok Hnd Hpr Hor Hho Hcn Hca Hsl]. rewrite map_app in Hnd. cbn in Hnd. rewrite app_assoc in Hnd.
  assert (forall q, In q (hs ++ map w_new (ws1 ++ ws2)) -> In q (hs ++ map w_new (ws1 ++ w :: ws2))) as Hsub.
  { intros q. rewrite !map_app, !in_app_iff. cbn. naive_solver. }
  split.
  - constructor; try done.
    + rewrite map_app, app_assoc. by apply NoDup_remove_1 in Hnd.
    + intros e Hin Hep Hin'. by apply (Hpr e Hin Hep), Hsub.
    + intros w' Hin. apply Hca, in_mid. auto.
    + intros w' Hin. apply Hsl, in_mid. auto.
  - rewrite map_app, app_assoc. by apply NoDup_remove_2 in Hnd.
Qed.

Lemma pending_flag s l1 p r r' l2 new off len ty : pending_call s (l1 ++ (p, r) :: l2) new off len ty ->
  pending_call (store s p r') (l1 ++ (p, r') :: l2) new off len ty.
Proof.
  intros (H1 & H2 & H3 & rn & Hrn & Hni & Hrest). unfold pending_call. split_and!; try done.
  exists rn. rewrite fmap_app in *. cbn in *. rewrite lookup_insert_ne; [done|].
  intros ->. apply Hni, in_app_iff. cbn. auto.
Qed.

Lemma settle_reader s hs ws l new off len a : inv s hs ws l -> ~ In new (hs ++ map w_new ws) ->
  pending_call s l new off len RL_READER ->
  (forall rn, heap s !! new = Some rn -> reader_pass s l new rn a) ->
  sys_inv (settle hs ws new off len RL_READER a).
Proof.
  intros H Hn Hp Ha. pose proof Hp as (H1 & H2 & H3 & rn & Hrn & Hni & Hrp & Hrc & Hrw & Hrr & Hrt & Hro).
  destruct (Hro eq_refl) as [Eo El]. specialize (Ha rn Hrn). destruct a as [s'|s' [p|p]]; cbn in Ha; [| |].
  - destruct Ha as (l' & [(l1 & l2 & -> & -> & Hv' & Hs' & Hh' & _)|(Hc & Hc1 & Hc2)]).
    + exists (l1 ++ (new, rn) :: l2). cbn. apply (inv_enter s); try done; [|congruence].
      rewrite Hh'. symmetry. by apply insert_id.
    + exists l'. cbn. apply (inv_share s hs ws l s' l' new rn); try done. unfold rl_ok. lia.
  - done.
  - destruct Ha as (l1 & rp & l2 & -> & Ho1 & Ho2 & Hns & ->).
    exists (l1 ++ (p, want_read rp) :: l2). cbn. apply inv_wait; [|done|by apply (pending_flag s l1 p rp)|].
    + apply (inv_flag s hs ws l1 p rp); try done.
      pose proof (inv_ok _ _ _ _ H) as Hok. apply forall_mid in Hok as [He _].
      pose proof He as (E1 & E2 & E3 & E4 & _). unfold ent_ok. cbn in *. split_and!; try done.
      intros _. unfold sharable in Hns. destruct (r_type rp); [right|left; done|done].
      destruct (r_write_wanted rp); [done|]. by destruct Hns.
    + exists (want_read rp). split; [apply in_mid; auto|done].
Qed.

Lemma writer_range_ok zp r len : asks zp (r_off r) len -> r_len r = len ->
  let rw := writer_range zp r len in
  rl_ok rw /\ r_proxy rw = r_proxy r /\ r_cnt rw = r_cnt r /\ r_type rw = r_type r /\
  r_write_wanted rw = r_write_wanted r /\ r_read_wanted rw = r_read_wanted r.
Proof.
  intros (H1 & H2 & H3 & H4 & H5) El. unfold writer_range.
  destruct (z_vnode zp); [|unfold rl_ok; split_and!; try done; lia].
  repeat step_if; cbn; unfold rl_ok; cbn; split_and!; try done; lia.
Qed.

Lemma settle_writer s hs ws l new off len ty rw a : inv s hs ws l -> ~ In new (hs ++ map w_new ws) ->
  pending_call s l new off len ty -> ty <> RL_READER -> rl_ok rw ->
  r_proxy rw = false -> r_cnt rw = 1 -> r_type rw = ty -> r_write_wanted rw = false ->
  r_read_wanted rw = false -> writer_pass s l new rw a ->
  sys_inv (settle hs ws new off len ty a).
Proof.
  intros H Hn Hp Hty Hrw Wp Wc Wt Ww Wr Ha. pose proof Hp as (H1 & H2 & H3 & rn & Hrn & Hni & _).
  destruct a as [s'|s' [p|p]]; cbn in Ha; [| |done].
  - destruct Ha as (l1 & l2 & -> & Hv' & Hs' & Hh' & _).
    exists (l1 ++ (new, set_type rw RL_WRITER) :: l2). cbn. by apply (inv_enter s).
  - destruct Ha as (l1 & rp & l2 & -> & Ho & ->).
    pose proof (view_store_out s _ new rn rw (inv_view _ _ _ _ H) Hrn Hni) as Hv0.
    assert (inv (store s new rw) hs ws (l1 ++ (p, rp) :: l2)) as H0.
    { apply (inv_other s _ _ _ _ new); try done. intros q Hne. cbn. by rewrite lookup_insert_ne. }
    exists (l1 ++ (p, want_write rp) :: l2). cbn. apply inv_wait; [|done| |].
    + apply (inv_flag _ hs ws l1 p rp); try done.
      pose proof (inv_ok _ _ _ _ H) as Hok. apply forall_mid in Hok as [He _].
      pose proof He as (E1 & E2 & E3 & E4 & _). unfold ent_ok. cbn in *. split_and!; try done. auto.
    + apply (pending_flag _ l1 p rp). unfold pending_call. split_and!; try done. exists rw. cbn.
      rewrite lookup_insert_eq. split_and!; done.
    + exists (want_write rp). split; [apply in_mid; auto|done].
Qed.

Lemma cover_pos h hs x : 1 <= cover h hs x -> exists p r, In p hs /\ h !! p = Some r /\ inside r x = true.
Proof.
  induction hs as [|p hs IH]; cbn; [lia|]. intros H. destruct (h !! p) as [r|] eqn:E.
  - destruct (inside r x) eqn:Ex; [exists p, r; auto|]. destruct IH as (q & rq & ? & ? & ?); [lia|].
    exists q, rq. auto.
  - destruct IH as (q & rq & ? & ? & ?); [lia|]. exists q, rq. auto.
Qed.

(** A lock in the tree that overlaps a range is part of a handle that does. *)
Lemma overlap_held s hs ws l p rp rn : inv s hs ws l -> In (p, rp) l -> rl_ok rn -> overlaps rp rn ->
  exists h rh, In h hs /\ heap s !! h = Some rh /\ overlaps rh rn.
Proof.
  intros H Hin (?&?&?) [Ho1 Ho2]. pose proof (sorted_in _ _ (inv_sorted _ _ _ _ H) Hin) as (?&?&?). cbn in *.
  set (x := Z.max (r_off rp) (r_off rn)). assert (inside rp x = true) as Hx by (apply inside_true; lia).
  pose proof (inv_ok _ _ _ _ H) as Hok. rewrite List.Forall_forall in Hok.
  pose proof (Hok _ Hin) as (Hc & _). cbn in Hc.
  destruct (cover_pos (heap s) hs x) as (h & rh & Hh & Hrh & Hxh).
  { rewrite (entry_held s hs ws l p rp x) by done. done. }
  exists h, rh. apply inside_true in Hxh. unfold overlaps. split_and!; try done; lia.
Qed.

(** ** What a call returns *)

(** The lock that is granted, of the type and (at least) of the range asked for. *)
Definition granted (ty : rl_type) (r0 r : rl) : Prop :=
  (ty = RL_READER -> r_type r = RL_READER) /\ (ty <> RL_READER -> r_type r = RL_WRITER) /\
  r_off r = r_off r0 /\ r_len r = r_len r0.

(** A reader waits for a writer, or for a lock some writer waits for. *)
Definition read_blocked (s : table) (r0 : rl) : Prop :=
  exists p r, In p (ot_elems (z_range_avl s)) /\ heap s !! p = Some r /\ overlaps r r0 /\
    (r_type r = RL_WRITER \/ r_write_wanted r = true).

(** A pass of the call that asks for [r0] (the range of a writer is found by
    [writer_range]): the lock is granted, or a lock that is held overlaps it. *)
Definition pass_ok (z : sys) (new : nat) (ty : rl_type) (r0 : rl) (a : attempt) : Prop :=
  match a with
  | Got s' => exists r, heap s' !! new = Some r /\ granted ty r0 r
  | Wait _ _ =>
      (exists h rh, In h (held z) /\ heap (tab z) !! h = Some rh /\ overlaps rh r0) /\
      (ty = RL_READER -> read_blocked (tab z) r0)
  end.

Lemma reader_pass_ok s hs ws0 ws l new rn a : inv s hs ws0 l -> heap s !! new = Some rn -> rl_ok rn ->
  r_type rn = RL_READER -> ~ In new l.*1 -> reader_pass s l new rn a ->
  pass_ok (Sys s hs ws) new RL_READER rn a.
Proof.
  intros H Hnew Hrn Hty Hni Ha. destruct a as [s'|s' [p|p]]; cbn in *; [|done|].
  - destruct Ha as (l' & [(l1 & l2 & _ & _ & _ & _ & Hh' & _)|(Hc & _)]).
    + exists rn. rewrite Hh'. by unfold granted.
    + exists (set_cnt rn 0). destruct Hc as (_ & _ & _ & (_ & F2 & _) & _). split; [|by unfold granted].
      apply (F2 new); [cbn; by rewrite lookup_insert_eq|done].
  - destruct Ha as (l1 & rp & l2 & -> & Ho1 & Ho2 & Hsh & _).
    assert (In (p, rp) (l1 ++ (p, rp) :: l2)) as Hin by (apply in_mid; auto).
    split; [by apply (overlap_held s hs ws0 (l1 ++ (p, rp) :: l2) p rp rn)|].
    intros _. exists p, rp. pose proof (inv_view _ _ _ _ H) as Hv. split_and!; try done.
    + destruct Hv as (_ & -> & _). by apply (in_fst _ (p, rp)).
    + by apply (view_heap _ _ _ _ Hv).
    + pose proof (inv_ok _ _ _ _ H) as Hok. rewrite List.Forall_forall in Hok.
      destruct (Hok _ Hin) as (_ & Ht & _). unfold sharable in Hsh. cbn in Ht.
      destruct (r_type rp); [right|by left|done]. destruct (r_write_wanted rp); [done|by destruct Hsh].
Qed.

Lemma writer_pass_ok s hs ws0 ws l new ty rw a : inv s hs ws0 l -> rl_ok rw -> ty <> RL_READER ->
  writer_pass s l new rw a -> pass_ok (Sys s hs ws) new ty rw a.
Proof.
  intros H Hrw Hty Ha. destruct a as [s'|s' [p|p]]; cbn in *; [| |done].
  - destruct Ha as (l1 & l2 & _ & _ & _ & Hh' & _). exists (set_type rw RL_WRITER).
    rewrite Hh', lookup_insert_eq. by unfold granted.
  - destruct Ha as (l1 & rp & l2 & -> & Ho & _). split; [|done].
    apply (overlap_held s hs ws0 (l1 ++ (p, rp) :: l2) p rp rw); try done. apply in_mid. auto.
Qed.

(** The range a call asks for. *)
Definition wanted (zp : znode) (ty : rl_type) (off len : Z) : rl :=
  let r := Rl off len 1 ty false false false in
  match ty with RL_READER => r | _ => writer_range zp r len end.

Lemma pass_ok_old s s' hs ws ws' l new ty r0 a : pass_ok (Sys s hs ws) new ty r0 a ->
  view s l -> z_range_avl s' = z_range_avl s -> ~ In new (hs ++ l.*1) ->
  (forall h, h <> new -> heap s' !! h = heap s !! h) -> pass_ok (Sys s' hs ws') new ty r0 a.
Proof.
  intros Ha (_ & He & _) Ht Hn Hh. rewrite in_app_iff in Hn. destruct a as [s1|s1 c]; [done|]. cbn in *.
  destruct Ha as [(h & rh & Hin & Hrh & Ho) Hrd]. split.
  - exists h, rh. rewrite Hh; [done|]. naive_solver.
  - intros Hty. destruct (Hrd Hty) as (p & r & Hp & Hr & Hrest). exists p, r. rewrite Ht, Hh; [done|].
    rewrite He in Hp. naive_solver.
Qed.

Lemma lock_total z zp off len ty : sys_inv z -> asks zp off len ->
  exists new a, zfs_range_lock zp (tab z) off len ty = Ok (new, a) /\
    sys_inv (settle (held z) (waiting z) new off len ty a) /\
    pass_ok z new ty (wanted zp ty off len) a.
Proof.
  destruct z as [s hs ws]. intros (l & H) Has. cbn [tab held waiting] in *. unfold zfs_range_lock.
  set (rn := Rl off len 1 ty false false false).
  pose proof (inv_view _ _ _ _ H) as Hv.
  destruct (alloc_ok s l rn Hv) as (s1 & E1 & _ & _ & _ & _ & Hf1).
  destruct (inv_alloc s hs ws l rn H) as (s2 & E2 & H2 & Hn & Hni & Hh). rewrite E2.
  assert (s2 = s1) as <- by congruence. set (new := next_addr s) in *.
  assert (~ In new (hs ++ l.*1)) as Hnl by (rewrite in_app_iff in *; tauto).
  assert (z_range_avl s = z_range_avl s2) as Htree by (by injection E1 as <-).
  assert (forall h, h <> new -> heap s !! h = heap s2 !! h) as Hold by (intros h Hne; by rewrite Hf1).
  pose proof Has as (A1 & A2 & A3 & A4 & A5).
  assert (pending_call s2 l new off len ty) as Hp.
  { unfold pending_call. split_and!; try done. exists rn. split_and!; try done. }
  pose proof (inv_view _ _ _ _ H2) as Hv2. pose proof (inv_sorted _ _ _ _ H2) as Hs2.
  pose proof (inv_ok _ _ _ _ H2) as Hok2.
  destruct (decide (ty = RL_READER)) as [Ety|Ety].
  - subst ty. assert (rl_ok rn) as Hrn by (unfold rl_ok; cbn; lia).
    assert (exists a, (if ot_numnodes (z_range_avl s2) =? 0 then s ← tree_add s2 new; Ok (Got s)
                       else zfs_range_lock_reader s2 new) = Ok a /\ reader_pass s2 l new rn a) as (a & Ea & Ha).
    { rewrite (view_numnodes s2 l Hv2). destruct (zlen l =? 0) eqn:E0; b2p.
      - destruct l; [|cbn in E0; lia].
        destruct (tree_add_ok s2 [] [] new rn Hv2 Hh) as (s' & -> & Hv' & Hh' & Hn'); try done.
        run. eexists. split; [done|]. exists [(new, rn)]. left. exists [], []. cbn in *. done.
      - by apply lock_reader_ok. }
    exists new, a. rewrite Ea. run. split_and!; [done| |].
    + apply (settle_reader s2 hs ws l); try done. intros rn' Hrn'. assert (rn' = rn) as -> by congruence. done.
    + apply (pass_ok_old s2 _ _ ws _ l); try done. change (wanted zp RL_READER off len) with rn.
      by apply (reader_pass_ok s2 hs ws ws l).
  - destruct (writer_range_ok zp rn len) as (W1 & W2 & W3 & W4 & W5 & W6); [done|done|].
    destruct (lock_writer_ok zp s2 l new rn len) as (a & Ea & Ha); try done.
    exists new, a.
    assert ((match ty with
             | RL_READER => if ot_numnodes (z_range_avl s2) =? 0 then s ← tree_add s2 new; Ok (Got s)
                            else zfs_range_lock_reader s2 new
             | _ => zfs_range_lock_writer zp s2 new len
             end) = Ok a) as Ea' by (by destruct ty).
    rewrite Ea'. run. split_and!; [done| |].
    + by apply (settle_writer s2 hs ws l new off len ty (writer_range zp rn len)).
    + apply (pass_ok_old s2 _ _ ws _ l); try done.
      assert (wanted zp ty off len = writer_range zp rn len) as -> by (unfold wanted, rn; by destruct ty).
      by apply (writer_pass_ok s2 hs ws ws l).
Qed.

Lemma retry_total z zp ws1 w ws2 : sys_inv z -> waiting z = ws1 ++ w :: ws2 ->
  asks zp (w_off w) (w_len w) ->
  exists a, zfs_range_retry zp (tab z) (w_new w) (w_off w) (w_len w) (w_type w) = Ok a /\
    sys_inv (settle (held z) (ws1 ++ ws2) (w_new w) (w_off w) (w_len w) (w_type w) a) /\
    pass_ok z (w_new w) (w_type w) (wanted zp (w_type w) (w_off w) (w_len w)) a.
Proof.
  destruct z as [s hs ws], w as [new off len ty on].
  intros (l & H) Hws Has. cbn [tab held waiting w_new w_off w_len w_type] in *. subst ws.
  pose proof (inv_calls _ _ _ _ H _ ltac:(apply in_mid; eauto)) as Hp. cbn in Hp.
  destruct (inv_drop _ _ _ _ _ _ H) as [H0 Hn]. cbn [w_new] in Hn.
  pose proof (inv_view _ _ _ _ H0) as Hv. pose proof (inv_sorted _ _ _ _ H0) as Hs.
  pose proof (inv_ok _ _ _ _ H0) as Hok.
  pose proof Hp as (H1 & H2 & H3 & r & Hr & Hni & Hrp & Hrc & Hrw & Hrr & Hrt & Hro).
  unfold zfs_range_retry. destruct (decide (ty = RL_READER)) as [->|Ety].
  - destruct (Hro eq_refl) as [Eo El]. assert (rl_ok r) as Hrok by (unfold rl_ok; lia).
    destruct (lock_reader_ok s l new r) as (a & Ea & Ha); try done.
    exists a. split_and!; [done| |].
    + apply (settle_reader s hs (ws1 ++ ws2) l); try done.
      intros r' Hr'. assert (r' = r) as -> by congruence. done.
    + assert (wanted zp RL_READER off len = r) as -> by (unfold wanted; destruct r; cbn in *; congruence).
      by apply (reader_pass_ok s hs (ws1 ++ ws2) _ l).
  - unfold writer_reset. rewrite (deref_heap _ _ _ Hr). run.
    set (r1 := set_range r off len). set (s1 := store s new r1).
    assert (heap s1 !! new = Some r1) as Hr1 by (cbn; by rewrite lookup_insert_eq).
    assert (forall q, q <> new -> heap s1 !! q = heap s !! q) as Hq
      by (intros q Hne; cbn; by rewrite lookup_insert_ne).
    pose proof (view_store_out s l new r r1 Hv Hr Hni) as Hv1. fold s1 in Hv1.
    pose proof (inv_other _ _ _ _ _ _ H0 Hv1 Hn Hq) as I1.
    destruct (writer_range_ok zp r1 len) as (W1 & W2 & W3 & W4 & W5 & W6); [done|done|].
    destruct (lock_writer_ok zp s1 l new r1 len) as (a & Ea & Ha); try done.
    exists a. split_and!; [by destruct ty| |].
    + apply (settle_writer s1 hs (ws1 ++ ws2) l new off len ty (writer_range zp r1 len)); try done;
        cbn in *; try congruence.
      unfold pending_call. split_and!; try done. exists r1. split_and!; done.
    + apply (pass_ok_old s1 _ _ (ws1 ++ ws2) _ l); try done.
      * assert (wanted zp ty off len = writer_range zp r1 len) as ->.
        { unfold wanted, r1, set_range. rewrite Hrp, Hrc, Hrw, Hrr, Hrt. by destruct ty. }
        by apply (writer_pass_ok s1 hs (ws1 ++ ws2) _ l).
      * rewrite in_app_iff in *. tauto.
      * intros h Hne. by rewrite Hq.
Qed.

Lemma unlock_total z h1 p h2 : sys_inv z -> held z = h1 ++ p :: h2 ->
  exists s evs, zfs_range_unlock (tab z) p = Ok (s, evs) /\ sys_inv (Sys s (h1 ++ h2) (wake evs <$> waiting z)).
Proof.
  destruct z as [s hs ws]. intros (l & H) Hh. cbn [tab held waiting] in *. subst hs.
  destruct (inv_hold _ _ _ _ H p) as (r & Hr & Hrok & Hrp & Hcase); [apply in_mid; auto|].
  unfold zfs_range_unlock. rewrite (deref_heap _ _ _ Hr). run.
  destruct Hcase as [Hin|(Hni & Hpk & Hc1 & Hc2)].
  - pose proof (inv_ok _ _ _ _ H) as Hok. rewrite List.Forall_forall in Hok.
    destruct (Hok _ Hin) as (_ & Ht & _ & Hc & _). cbn in Ht, Hc. specialize (Hc Hrp).
    apply in_split in Hin as (l1 & l2 & ->).
    destruct (inv_remove s h1 p h2 ws l1 r l2 H Hc Hrp) as (s1 & E1 & I1).
    assert (bool_decide (r_type r = RL_WRITER) || bool_decide (r_type r = RL_READER) = true) as ->
      by (by destruct (r_type r)).
    cbn [verify]. rewrite Hrp, Hc. cbn [Z.eqb orb negb verify]. run.
    destruct (bool_decide (r_type r = RL_WRITER)).
    + rewrite E1. run. eexists _, _. split; [done|]. by exists (l1 ++ l2).
    + unfold zfs_range_unlock_reader. rewrite (deref_heap _ _ _ Hr). run. rewrite Hc. cbn [Z.eqb].
      rewrite E1. run. eexists _, _. split; [done|]. by exists (l1 ++ l2).
  - destruct (inv_release s h1 p h2 ws l r) as (s' & evs & l' & E & I); try done.
    destruct Hpk as (Hc & Ht & _ & _). rewrite !Ht, Hc, Hrp.
    rewrite bool_decide_false, bool_decide_true by done. cbn [orb Z.eqb negb verify]. run.
    exists s', evs. split; [done|]. by exists l'.
Qed.

Lemma reduce_total z p off len : sys_inv z -> In p (held z) -> whole (tab z) p ->
  0 <= off -> 0 < len -> off + len < 2 ^ 64 ->
  exists s evs, zfs_range_reduce (tab z) p off len = Ok (s, evs) /\
    sys_inv (Sys s (held z) (wake evs <$> waiting z)).
Proof.
  destruct z as [s hs ws]. intros (l & H) Hin (r & Hr & Ht & Eo & El) Ho1 Ho2 Ho3.
  cbn [tab held waiting] in *. pose proof H as [Hv Hs Hok Hnd Hpr Hor Hho Hcn Hca Hsl].
  destruct (Hho p Hin) as (r0 & Hr0 & Hrok & Hrp & Hcase). assert (r0 = r) as -> by congruence.
  destruct Hcase as [Hinl|(_ & (_ & ? & _) & _)]; [|congruence].
  assert (r_cnt r = 1) as Hc.
  { rewrite List.Forall_forall in Hok. destruct (Hok _ Hinl) as (_ & _ & _ & Hc & _). by apply Hc. }
  assert (forall h rh, In h hs -> heap s !! h = Some rh -> rl_ok rh -> h = p) as Hone.
  { intros h rh Hh Hrh (R1 & R2 & R3). destruct (decide (h = p)) as [->|Hne]; [done|]. exfalso.
    pose proof (entry_held _ _ _ _ p r (r_off rh) H Hinl) as Hcov.
    rewrite inside_true in Hcov. specialize (Hcov ltac:(lia)).
    apply in_split in Hin as (h1 & h2 & ->). rewrite (cover_mid _ _ _ _ _ r Hr) in Hcov.
    rewrite (proj2 (inside_true r (r_off rh))) in Hcov by lia.
    assert (1 <= cover (heap s) (h1 ++ h2) (r_off rh)); [|lia].
    apply (cover_in _ _ _ h rh); [|done|apply inside_true; lia]. apply in_mid in Hh as [?|?]; done. }
  assert (hs = [p]) as ->.
  { apply in_split in Hin as (h1 & h2 & ->). apply NoDup_app_remove_r in Hnd.
    apply NoDup_remove_2 in Hnd.
    assert (forall h, ~ In h (h1 ++ h2)) as E.
    { intros h Hin2. assert (In h (h1 ++ p :: h2)) as Hh by (apply in_mid; auto).
      destruct (Hho h Hh) as (rh & Hrh & Hrhok & _). apply Hnd.
      by rewrite <- (Hone h rh Hh Hrh Hrhok). }
    destruct h1 as [|h h1]; [|destruct (E h); by left].
    destruct h2 as [|h h2]; [done|destruct (E h); by left]. }
  assert (l = [(p, r)]) as ->.
  { apply in_split in Hinl as (l1 & l2 & ->). apply sorted_app in Hs as (S1 & S2 & S3).
    cbn in S2. destruct S2 as (_ & Hl & S2).
    destruct l1 as [|e l1]; [|exfalso].
    - destruct l2 as [|e l2]; [done|exfalso]. specialize (Hl e (or_introl eq_refl)).
      cbn in S2. destruct S2 as ((?&?&?) & _). lia.
    - specialize (S3 e (p, r) (or_introl eq_refl) (or_introl eq_refl)). cbn in S1, S3.
      destruct S1 as ((?&?&?) & _). lia. }
  unfold zfs_range_reduce. rewrite (deref_heap _ _ _ Hr). run.
  rewrite (view_numnodes s _ Hv), Eo, El, Hrp, Hc, bool_decide_true by done.
  cbn [length Z.of_nat Pos.of_succ_nat Z.eqb negb verify Pos.eqb]. run. rewrite Z.eqb_refl. cbn [verify]. run.
  eexists _, _. split; [done|]. set (r' := set_range r off len).
  exists [(p, r')]. cbn [tab held waiting].
  assert (heap (store s p r') !! p = Some r') as Hr' by (cbn; by rewrite lookup_insert_eq).
  constructor; rewrite ?map_wake; try done.
  - by apply (view_store s [] p r).
  - apply List.Forall_cons_iff in Hok as [He _]. by constructor.
  - intros e [<-|[]] Hep. cbn in Hep. congruence.
  - intros e [<-|[]] _. by left.
  - intros q [<-|[]]. exists r'. split_and!; try done. left. by left.
  - intros x. cbn [cnt_at cover snd]. rewrite Hr'. cbn [set_range r_cnt r']. unfold r'. cbn. by rewrite Hc.
  - intros w' (w & -> & Hw)%list_elem_of_In%list_elem_of_fmap. apply list_elem_of_In in Hw.
    destruct (wake_call (wakeups p r) w) as (-> & -> & -> & ->).
    apply (pending_flag s [] p r r' []). by apply Hca.
  - intros w' (w & -> & Hw)%list_elem_of_In%list_elem_of_fmap. apply list_elem_of_In in Hw.
    apply (asleep_wake [(p, r)]); [auto|]. intros q rq [[= <- <-]|[]]. exists r. right. apply wakeups_in.
Qed.

Lemma sys0_inv : sys_inv sys0.
Proof.
  exists []. destruct ot_empty_spec as [H1 H2]. constructor; try done; [|constructor].
  unfold view. cbn. split_and!; try done; [constructor|]. intros p [? Hp]. by rewrite lookup_empty in Hp.
Qed.

Lemma step_inv z z' : sys_inv z -> step z z' -> sys_inv z'.
Proof.
  intros H [zp off len ty new a Has E|zp ws1 w ws2 a Ews Hon Has E|h1 p h2 s evs Eh E|p off len s evs Hin Hw H1 H2 H3 E].
  - destruct (lock_total z zp off len ty H Has) as (new' & a' & E' & I & _). rewrite E in E'.
    by injection E' as <- <-.
  - destruct (retry_total z zp ws1 w ws2 H Ews Has) as (a' & E' & I & _). rewrite E in E'.
    by injection E' as <-.
  - destruct (unlock_total z h1 p h2 H Eh) as (s' & evs' & E' & I). rewrite E in E'.
    by injection E' as <- <-.
  - destruct (reduce_total z p off len H Hin Hw H1 H2 H3) as (s' & evs' & E' & I). rewrite E in E'.
    by injection E' as <- <-.
Qed.

Lemma reachable_inv z : reachable z -> sys_inv z.
Proof. induction 1; [apply sys0_inv|by eapply step_inv]. Qed.

(** Running a history. *)
Definition run_lock (z : sys) (off len : Z) (ty : rl_type) : sys :=
  match zfs_range_lock (Znode false 0 0 0) (tab z) off len ty with
  | Ok (new, a) => settle (held z) (waiting z) new off len ty a
  | Err _ => z
  end.

Lemma run_lock_reachable z off len ty : reachable z -> 0 <= off -> 0 < len -> off + len < 2 ^ 64 ->
  reachable (run_lock z off len ty).
Proof.
  intros Hre H1 H2 H3. unfold run_lock.
  destruct (zfs_range_lock _ _ _ _ _) as [[new a]|] eqn:E; [|done].
  apply (reachable_step z); [done|]. apply (step_lock z (Znode false 0 0 0)); [|done].
  unfold asks. cbn. lia.
Qed.

(** ** The theorems *)

(** A handle that overlaps another one is out of the tree, so it is a reader. *)
Lemma overlapped_reader s hs ws l p q r1 r2 : inv s hs ws l -> In p hs -> In q hs -> p <> q ->
  heap s !! p = Some r1 -> heap s !! q = Some r2 -> overlaps r1 r2 -> r_type r1 = RL_READER.
Proof.
  intros H Hp Hq Hne Hr1 Hr2 [Ho1 Ho2].
  destruct (inv_hold _ _ _ _ H p Hp) as (r & Hr & (?&?&?) & Hpr & Hcase). assert (r = r1) as -> by congruence.
  destruct (inv_hold _ _ _ _ H q Hq) as (r' & Hr' & (?&?&?) & _). assert (r' = r2) as -> by congruence.
  destruct Hcase as [Hin|(_ & (_ & Ht & _) & _)]; [exfalso|done].
  set (x := Z.max (r_off r1) (r_off r2)). assert (inside r1 x = true) as Hx by (apply inside_true; lia).
  pose proof (entry_held _ _ _ _ _ _ x H Hin Hx) as Hcov.
  pose proof (inv_ok _ _ _ _ H) as Hok. rewrite List.Forall_forall in Hok.
  destruct (Hok _ Hin) as (_ & _ & _ & Hc & _). specialize (Hc Hpr). cbn in Hc.
  apply in_split in Hp as (h1 & h2 & ->). rewrite (cover_mid _ _ _ _ _ r1 Hr1), Hx in Hcov.
  assert (1 <= cover (heap s) (h1 ++ h2) x); [|lia].
  apply (cover_in _ _ _ q r2); [|done|apply inside_true; lia]. apply in_mid in Hq as [?|?]; done.
Qed.

(** C33: in every history of calls of [zfs_range_lock], [zfs_range_unlock] and
    [zfs_range_reduce] by any number of threads, two locks that are held at the
    same time and overlap are both reader locks. *)
Theorem rlock_exclusion z p q r1 r2 :
  reachable z -> In p (held z) -> In q (held z) -> p <> q ->
  heap (tab z) !! p = Some r1 -> heap (tab z) !! q = Some r2 -> overlaps r1 r2 ->
  r_type r1 = RL_READER /\ r_type r2 = RL_READER.
Proof.
  intros Hre Hp Hq Hne Hr1 Hr2 Ho. destruct (reachable_inv z Hre) as (l & H). split.
  - by apply (overlapped_reader _ _ _ l p q r1 r2 H).
  - apply (overlapped_reader _ _ _ l q p r2 r1 H); try done. unfold overlaps in *. lia.
Qed.

(** C34: whatever the history, no entry into the range lock code fails an
    assertion, follows a dangling pointer or loops: a call of [zfs_range_lock]
    either returns, with a lock of the type and the range asked for (the end of
    the file for an append, the whole file when the block size grows), or goes
    to sleep because a lock that is held overlaps that range, a reader only when
    the overlapping lock is a writer's or has a writer waiting; so does a woken
    thread; and unlocking a held lock, or reducing a held lock on the whole
    file, returns. *)
Theorem rlock_progress z : reachable z ->
  (forall zp off len ty, asks zp off len ->
     exists new a, zfs_range_lock zp (tab z) off len ty = Ok (new, a) /\
       pass_ok z new ty (wanted zp ty off len) a) /\
  (forall zp w, In w (waiting z) -> asks zp (w_off w) (w_len w) ->
     exists a, zfs_range_retry zp (tab z) (w_new w) (w_off w) (w_len w) (w_type w) = Ok a /\
       pass_ok z (w_new w) (w_type w) (wanted zp (w_type w) (w_off w) (w_len w)) a) /\
  (forall p, In p (held z) -> exists s evs, zfs_range_unlock (tab z) p = Ok (s, evs)) /\
  (forall p off len, In p (held z) -> whole (tab z) p -> 0 <= off -> 0 < len -> off + len < 2 ^ 64 ->
     exists s evs, zfs_range_reduce (tab z) p off len = Ok (s, evs)).
Proof.
  intros Hre. pose proof (reachable_inv z Hre) as H. split_and!.
  - intros zp off len ty Has. destruct (lock_total z zp off len ty H Has) as (new & a & E & _ & Hp). eauto.
  - intros zp w (ws1 & ws2 & Ews)%in_split Has.
    destruct (retry_total z zp ws1 w ws2 H Ews Has) as (a & E & _ & Hp). eauto.
  - intros p (h1 & h2 & Eh)%in_split. destruct (unlock_total z h1 p h2 H Eh) as (s & evs & E & _). eauto.
  - intros p off len Hin Hw H1 H2 H3.
    destruct (reduce_total z p off len H Hin Hw H1 H2 H3) as (s & evs & E & _). eauto.
Qed.

(** C35: no wakeup is lost.  A thread asleep on a condition variable sleeps on a
    lock that is in the tree, has the flag that makes its removal broadcast that
    variable, and overlaps a lock some thread holds; so when every lock has been
    unlocked, every waiting thread has been woken. *)
Theorem rlock_no_lost_wakeup z w c :
  reachable z -> In w (waiting z) -> w_on w = Some c ->
  let p := match c with WrCv p => p | RdCv p => p end in
  (exists r, In p (ot_elems (z_range_avl (tab z))) /\ heap (tab z) !! p = Some r /\
     (match c with WrCv _ => r_write_wanted r | RdCv _ => r_read_wanted r end) = true /\
     (exists h rh, In h (held z) /\ heap (tab z) !! h = Some rh /\ overlaps rh r)) /\
  held z <> [].
Proof.
  intros Hre Hin Hon p. destruct (reachable_inv z Hre) as (l & H).
  pose proof (inv_sleep _ _ _ _ H w Hin) as Hsl. rewrite Hon in Hsl.
  assert (exists r, In (p, r) l /\
    (match c with WrCv _ => r_write_wanted r | RdCv _ => r_read_wanted r end) = true) as (r & Hinl & Hf)
    by (unfold p; destruct c; done).
  pose proof (inv_view _ _ _ _ H) as Hv.
  pose proof (sorted_in _ _ (inv_sorted _ _ _ _ H) Hinl) as Hr. cbn in Hr.
  destruct (overlap_held _ _ _ _ p r r H Hinl Hr) as (h & rh & Hh & Hrh & Ho).
  { destruct Hr as (?&?&?). unfold overlaps. lia. }
  split.
  - exists r. split_and!; [|by apply (view_heap _ _ _ _ Hv)|done|by exists h, rh].
    destruct Hv as (_ & -> & _). apply (in_fst l (p, r) Hinl).
  - intros E. by rewrite E in Hh.
Qed.

End Threads.

(** *** A history with the AVL trees of common/avl: two readers share a range and
    a writer waits *)

#[local] Existing Instance Avl.avl_OrdTree.

Definition shared_history : sys :=
  run_lock (run_lock (run_lock sys0 0 10 RL_READER) 5 10 RL_READER) 3 1 RL_WRITER.

Lemma shared_history_reachable : reachable shared_history.
Proof. repeat apply run_lock_reachable; try lia. apply reachable_init. Qed.

Lemma shared_history_state :
  held shared_history = [1%nat; 0%nat] /\
  heap (tab shared_history) !! 0%nat = Some (Rl 0 10 0 RL_READER false false false) /\
  heap (tab shared_history) !! 1%nat = Some (Rl 5 10 0 RL_READER false false false) /\
  waiting shared_history = [Waiter 5 3 1 RL_WRITER (Some (WrCv 3))].
Proof. vm_compute. auto. Qed.

Lemma rlock_exclusion_witness :
  r_type (Rl 5 10 0 RL_READER false false false) = RL_READER /\
  r_type (Rl 0 10 0 RL_READER false false false) = RL_READER.
Proof.
  destruct shared_history_state as (Hh & H0 & H1 & _).
  apply (rlock_exclusion shared_history 1%nat 0%nat).
  - apply shared_history_reachable.
  - rewrite Hh. by left.
  - rewrite Hh. by right; left.
  - done.
  - exact H1.
  - exact H0.
  - unfold overlaps. cbn. lia.
Defined.

Lemma rlock_progress_witness :
  exists s evs, zfs_range_unlock (tab shared_history) 1%nat = Ok (s, evs).
Proof.
  destruct (rlock_progress shared_history shared_history_reachable) as (_ & _ & Hu & _).
  apply Hu. destruct shared_history_state as (Hh & _). rewrite Hh. by left.
Defined.

Lemma rlock_no_lost_wakeup_witness : held shared_history <> [].
Proof.
  destruct shared_history_state as (_ & _ & _ & Hw).
  apply (rlock_no_lost_wakeup shared_history (Waiter 5 3 1 RL_WRITER (Some (WrCv 3))) (WrCv 3)).
  - apply shared_history_reachable.
  - rewrite Hw. by left.
  - reflexivity.
Defined.

End RlockThreads.
