(* ===== verification/ZioChecksum.v ===== *)
(** * Checksum vectors and verification: fs/zfs/zio_checksum.c, zio.c, zio_inject.c

    The table of checksum functions, the routine that checksums a block before
    it is written (in the block pointer, or for labels, log and gang blocks in
    the tail of the block itself) and the routine that verifies a block that
    was read, on a host of either byte order.  Fault injection, which can turn
    a good verification into an error, is part of the model.

    Buffers are lists of bytes; a host reads and writes 64-bit words in its own
    byte order [be] ([true] for big-endian).  The 128 bytes [pad0] are what the
    stack holds in the padding buffer of the SHA-256 routine. *)

From Stdlib Require Import List String.
From stdpp Require Import base option numbers list.
From S2P Require Import Prelude Checksum Sha256 SpaceMap Blkptr.
Local Open Scope Z_scope.
Import Blkptr Fletcher.

(** ** Storing words *)

Fixpoint le_split (n : nat) (v : Z) : list Z :=
  match n with O => [] | S n' => v `mod` 256 :: le_split n' (v / 256) end.
Definition store (be : bool) (n : nat) (v : Z) : list Z :=
  if be then reverse (le_split n v) else le_split n v.

(** A 64-bit access at byte offset [off] of a buffer. *)
Definition rd_u64 (be : bool) (buf : list Z) (off : Z) : outcome Z :=
  if (0 <=? off) && (off + 8 <=? zlen buf) then Ok (load be (take 8 (drop (Z.to_nat off) buf)))
  else Err Fault.
Definition wr_u64 (be : bool) (buf : list Z) (off v : Z) : outcome (list Z) :=
  if (0 <=? off) && (off + 8 <=? zlen buf)
  then Ok (take (Z.to_nat off) buf ++ store be 8 v ++ drop (Z.to_nat off + 8) buf)
  else Err Fault.

Definition rd_cksum (be : bool) (buf : list Z) (off : Z) : outcome zio_cksum :=
  w0 ← rd_u64 be buf off; w1 ← rd_u64 be buf (off + 8);
  w2 ← rd_u64 be buf (off + 16); w3 ← rd_u64 be buf (off + 24);
  Ok (ZC w0 w1 w2 w3).
Definition wr_cksum (be : bool) (buf : list Z) (off : Z) (zc : zio_cksum) : outcome (list Z) :=
  buf ← wr_u64 be buf off (zc_word0 zc); buf ← wr_u64 be buf (off + 8) (zc_word1 zc);
  buf ← wr_u64 be buf (off + 16) (zc_word2 zc); wr_u64 be buf (off + 24) (zc_word3 zc).

(** [byteswap_uint64_array(buf + off, size)] of dmu.c *)
Fixpoint byteswap_loop (be : bool) (count : nat) (buf : list Z) (off : Z) : outcome (list Z) :=
  match count with
  | O => Ok buf
  | S count' =>
      w ← rd_u64 be buf off;
      buf ← wr_u64 be buf off (BSWAP_64 w);
      byteswap_loop be count' buf (off + 8)
  end.
Definition byteswap_uint64_array (be : bool) (buf : list Z) (off size : Z) : outcome (list Z) :=
  _ ← verify (Z.land size 7 =? 0);
  byteswap_loop be (Z.to_nat (Z.shiftr size 3)) buf off.

(** The same on a [zio_cksum_t] variable. *)
Definition cksum_swap (zc : zio_cksum) : zio_cksum :=
  ZC (BSWAP_64 (zc_word0 zc)) (BSWAP_64 (zc_word1 zc)) (BSWAP_64 (zc_word2 zc)) (BSWAP_64 (zc_word3 zc)).

(** Error numbers; no error is [None]. *)
Inductive errno := EIO | EINVAL | ECKSUM | ENOSPC | ENXIO.
#[global] Instance errno_eq_dec : EqDecision errno.
Proof. solve_decision. Defined.

Module Zio.

(** ** I/O requests: the fields of [zio_t] that these stages use *)

Inductive zio_type := ZIO_TYPE_NULL | ZIO_TYPE_READ | ZIO_TYPE_WRITE | ZIO_TYPE_FREE | ZIO_TYPE_CLAIM | ZIO_TYPE_IOCTL.
#[global] Instance zio_type_eq_dec : EqDecision zio_type.
Proof. solve_decision. Defined.

Record zbookmark := Zb { zb_objset : Z; zb_object : Z; zb_level : Z; zb_blkid : Z }.

(** [zio_transform_t]: a buffer with the bytes it holds. *)
Record zio_transform := Zt { zt_data : list Z; zt_size : Z; zt_bufsize : Z }.

(** [io_data] and [io_size] are always those of the top of the transform stack
    (every push and pop sets them), so they are not fields of their own.  The
    stages see the [io_size] bytes they may touch; a buffer can be longer. *)
Record zio := MkZio {
  io_spa : Z;
  io_logical : option zbookmark;      (** [io_logical->io_bookmark] *)
  io_type : zio_type;
  io_txg : Z;
  io_bp : blkptr;
  io_checksum : Z;
  io_compress : Z;
  io_transform_stack : list zio_transform;
  io_pipeline : Z;
  io_error : option errno
}.

Definition io_data (z : zio) : list Z :=
  match io_transform_stack z with t :: _ => take (Z.to_nat (zt_size t)) (zt_data t) | [] => [] end.
Definition io_size (z : zio) : Z := match io_transform_stack z with t :: _ => zt_size t | [] => 0 end.

Definition set_stack (z : zio) (st : list zio_transform) : zio :=
  MkZio (io_spa z) (io_logical z) (io_type z) (io_txg z) (io_bp z) (io_checksum z) (io_compress z) st
    (io_pipeline z) (io_error z).
Definition set_bp (z : zio) (bp : blkptr) : zio :=
  MkZio (io_spa z) (io_logical z) (io_type z) (io_txg z) bp (io_checksum z) (io_compress z)
    (io_transform_stack z) (io_pipeline z) (io_error z).
Definition set_pipeline (z : zio) (p : Z) : zio :=
  MkZio (io_spa z) (io_logical z) (io_type z) (io_txg z) (io_bp z) (io_checksum z) (io_compress z)
    (io_transform_stack z) p (io_error z).
Definition set_error (z : zio) (e : option errno) : zio :=
  MkZio (io_spa z) (io_logical z) (io_type z) (io_txg z) (io_bp z) (io_checksum z) (io_compress z)
    (io_transform_stack z) (io_pipeline z) e.

(** The bytes of the current buffer, overwritten. *)
Definition set_data (z : zio) (data : list Z) : zio :=
  match io_transform_stack z with
  | t :: st => set_stack z (Zt (data ++ drop (Z.to_nat (zt_size t)) (zt_data t)) (zt_size t) (zt_bufsize t) :: st)
  | [] => z
  end.

(** ** Fault injection: zio_inject.c *)

Record zinject_record := ZiRec {
  zi_objset : Z; zi_object : Z; zi_start : Z; zi_end : Z; zi_guid : Z;
  zi_level : Z; zi_error : option errno; zi_type : Z; zi_freq : Z
}.
Record inject_handler := ZiHandler { zi_id : Z; zi_spa : Z; zi_record : zinject_record }.

Definition DMU_OT_NONE : Z := 0.

(** [spa_get_random] on the next pseudo-random word [r]. *)
Definition spa_get_random (r range : Z) : Z := r `mod` range.

Definition zio_match_handler (r : Z) (zb : zbookmark) (type : Z) (record : zinject_record) (error : errno) : bool :=
  if (zb_objset zb =? 0) && (zi_objset record =? 0) && (zi_object record =? 0) then
    if (zi_type record =? DMU_OT_NONE) || (type =? zi_type record)
    then (zi_freq record =? 0) || (spa_get_random r 100 <? zi_freq record)
    else false
  else if (zb_objset zb =? zi_objset record) && (zb_object zb =? zi_object record) &&
          (zb_level zb =? zi_level record) && (zi_start record <=? zb_blkid zb) &&
          (zb_blkid zb <=? zi_end record) && bool_decide (zi_error record = Some error)
  then (zi_freq record =? 0) || (spa_get_random r 100 <? zi_freq record)
  else false.

(** The state of the fault injector: the switch, the handlers and the words the
    random generator gives, one for each handler consulted. *)
Record injector := Inj { zio_injection_enabled : Z; inject_handlers : list inject_handler; randoms : nat -> Z }.

Fixpoint fault_loop (hs : list inject_handler) (n : nat) (rnd : nat -> Z) (spa : Z) (zb : zbookmark) (type : Z)
    (error : errno) : option errno :=
  match hs with
  | [] => None
  | handler :: hs' =>
      if negb (spa =? zi_spa handler) then fault_loop hs' (S n) rnd spa zb type error
      else if negb (zi_guid (zi_record handler) =? 0) then fault_loop hs' (S n) rnd spa zb type error
      else if zio_match_handler (rnd n) zb type (zi_record handler) error then Some error
      else fault_loop hs' (S n) rnd spa zb type error
  end.

Definition zio_handle_fault_injection (inj : injector) (z : zio) (error : errno) : option errno :=
  match io_logical z with
  | None => None
  | Some zb =>
      if decide (io_type z <> ZIO_TYPE_READ) then None
      else fault_loop (inject_handlers inj) 0 (randoms inj) (io_spa z) zb (BP_GET_TYPE (io_bp z)) error
  end.
End Zio.

Module ZioChecksum.
Import Zio.

(** ** The checksum vectors *)

Definition ZIO_CHECKSUM_INHERIT : Z := 0.
Definition ZIO_CHECKSUM_ON : Z := 1.
Definition ZIO_CHECKSUM_OFF : Z := 2.
Definition ZIO_CHECKSUM_LABEL : Z := 3.
Definition ZIO_CHECKSUM_GANG_HEADER : Z := 4.
Definition ZIO_CHECKSUM_ZILOG : Z := 5.
Definition ZIO_CHECKSUM_FLETCHER_2 : Z := 6.
Definition ZIO_CHECKSUM_FLETCHER_4 : Z := 7.
Definition ZIO_CHECKSUM_SHA256 : Z := 8.
Definition ZIO_CHECKSUM_FUNCTIONS : Z := 9.
Definition ZIO_CHECKSUM_ON_VALUE : Z := ZIO_CHECKSUM_FLETCHER_2.

Definition zio_checksum_t : Type := list Z -> Z -> outcome zio_cksum.

Record zio_checksum_info := Ci {
  ci_func : option (zio_checksum_t * zio_checksum_t);   (** [ci_func[2]] *)
  ci_correctable : Z;
  ci_zbt : bool;
  ci_name : string
}.

Definition zio_checksum_off : zio_checksum_t := fun _ _ => Ok (ZC 0 0 0 0).

Section Host.
Variable be : bool.
Variable pad0 : list Z.

Definition zio_checksum_table : list zio_checksum_info :=
  let sha := Sha256.zio_checksum_SHA256 pad0 in
  let f2n := fun buf size => fletcher_2_native be buf (Z.to_nat size) in
  let f2s := fun buf size => fletcher_2_byteswap be buf (Z.to_nat size) in
  let f4n := fun buf size => fletcher_4_native be buf (Z.to_nat size) in
  let f4s := fun buf size => fletcher_4_byteswap be buf (Z.to_nat size) in
  [ Ci None 0 false "inherit";
    Ci None 0 false "on";
    Ci (Some (zio_checksum_off, zio_checksum_off)) 0 false "off";
    Ci (Some (sha, sha)) 1 true "label";
    Ci (Some (sha, sha)) 1 true "gang_header";
    Ci (Some (f2n, f2s)) 0 true "zilog";
    Ci (Some (f2n, f2s)) 0 false "fletcher2";
    Ci (Some (f4n, f4s)) 1 false "fletcher4";
    Ci (Some (sha, sha)) 1 false "SHA256" ].

Definition zio_checksum_select (child parent : Z) : outcome Z :=
  _ ← verify (child <? ZIO_CHECKSUM_FUNCTIONS);
  _ ← verify (parent <? ZIO_CHECKSUM_FUNCTIONS);
  _ ← verify (negb (parent =? ZIO_CHECKSUM_INHERIT) && negb (parent =? ZIO_CHECKSUM_ON));
  if child =? ZIO_CHECKSUM_INHERIT then Ok parent
  else if child =? ZIO_CHECKSUM_ON then Ok ZIO_CHECKSUM_ON_VALUE
  else Ok child.

(** [zio_block_tail_t]: the last 40 bytes, a magic number and a checksum. *)
Definition ZBT_MAGIC : Z := 0x210da7ab10c7a11.
Definition zbt_off (size : Z) : Z := size - 40.

(** [zio_checksum]: the checksum for the block pointer, and the block. *)
Definition zio_checksum (checksum : Z) (data : list Z) (size : Z) : outcome (zio_cksum * list Z) :=
  let zbt := zbt_off size in
  _ ← verify (checksum <? ZIO_CHECKSUM_FUNCTIONS);
  match zio_checksum_table !! Z.to_nat checksum with
  | Some (Ci (Some (f0, _)) _ ci_zbt _) =>
      if ci_zbt : bool then
        zcp ← rd_cksum be data (zbt + 8);
        data ← wr_u64 be data zbt ZBT_MAGIC;
        zbt_cksum ← f0 data size;
        data ← wr_cksum be data (zbt + 8) zbt_cksum;
        Ok (zcp, data)
      else
        zcp ← f0 data size;
        Ok (zcp, data)
  | _ => Err Panic
  end.

(** [zio_set_gang_verifier] of zio.c *)
Definition zio_set_gang_verifier (bp : blkptr) : zio_cksum :=
  ZC (DVA_GET_VDEV (BP_IDENTITY bp)) (DVA_GET_OFFSET (BP_IDENTITY bp)) (blk_birth bp) 0.

Definition SPA_GANGBLOCKSIZE : Z := SPA_MINBLOCKSIZE.
Definition ZIO_GET_IOSIZE (bp : blkptr) : Z := if BP_IS_GANG bp then SPA_GANGBLOCKSIZE else BP_GET_PSIZE bp.

(** The comparison that ends [zio_checksum_error], and fault injection. *)
Definition checksum_compare (inj : injector) (z : zio) (actual zc : zio_cksum) (data : list Z)
    : option errno * list Z :=
  if negb (ZIO_CHECKSUM_EQUAL actual zc) then (Some ECKSUM, data)
  else if negb (zio_injection_enabled inj =? 0) && bool_decide (io_error z = None)
  then (zio_handle_fault_injection inj z ECKSUM, data)
  else (None, data).

(** [zio_checksum_error]: the error number, and the block's buffer, which the
    routine changes while it works. *)
Definition zio_checksum_error (inj : injector) (z : zio) (data : list Z) : outcome (option errno * list Z) :=
  let bp := io_bp z in
  let zc := blk_cksum bp in
  let checksum := if BP_IS_GANG bp then ZIO_CHECKSUM_GANG_HEADER else BP_GET_CHECKSUM bp in
  let byteswap := BP_SHOULD_BYTESWAP be bp in
  let size := ZIO_GET_IOSIZE bp in
  let zbt := zbt_off size in
  if ZIO_CHECKSUM_FUNCTIONS <=? checksum then Ok (Some EINVAL, data) else
  match zio_checksum_table !! Z.to_nat checksum with
  | Some (Ci (Some (f0, f1)) _ ci_zbt _) =>
      if ci_zbt : bool then
        let zc := if checksum =? ZIO_CHECKSUM_GANG_HEADER then zio_set_gang_verifier bp else zc in
        magic ← rd_u64 be data zbt;
        if magic =? BSWAP_64 ZBT_MAGIC then
          expected ← rd_cksum be data (zbt + 8);
          let expected := cksum_swap expected in
          data ← wr_cksum be data (zbt + 8) zc;
          data ← byteswap_uint64_array be data (zbt + 8) 32;
          actual ← f1 data size;
          data ← wr_cksum be data (zbt + 8) expected;
          data ← byteswap_uint64_array be data (zbt + 8) 32;
          Ok (checksum_compare inj z actual expected data)
        else
          expected ← rd_cksum be data (zbt + 8);
          data ← wr_cksum be data (zbt + 8) zc;
          actual ← f0 data size;
          data ← wr_cksum be data (zbt + 8) expected;
          Ok (checksum_compare inj z actual expected data)
      else
        _ ← verify (negb (BP_IS_GANG bp));
        actual ← (if byteswap then f1 else f0) data size;
        Ok (checksum_compare inj z actual zc data)
  | _ => Ok (Some EINVAL, data)
  end.

(** ** The pipeline stages of zio.c that use them *)

Definition zio_checksum_generate (z : zio) : outcome zio :=
  let checksum := io_checksum z in
  _ ← verify (io_size z =? BP_GET_PSIZE (io_bp z));
  let bp := BP_SET_BYTEORDER (BP_SET_CHECKSUM (io_bp z) checksum) (ZFS_HOST_BYTEORDER be) in
  '(zc, data) ← zio_checksum checksum (io_data z) (io_size z);
  Ok (set_data (set_bp z (set_cksum bp zc)) data).

Definition zio_gang_checksum_generate (z : zio) : outcome zio :=
  _ ← verify (BP_IS_GANG (io_bp z));
  _ ← verify (io_size z =? SPA_GANGBLOCKSIZE);
  data ← wr_cksum be (io_data z) (zbt_off (io_size z) + 8) (zio_set_gang_verifier (io_bp z));
  '(_, data) ← zio_checksum ZIO_CHECKSUM_GANG_HEADER data (io_size z);
  Ok (set_data z data).

Definition zio_checksum_verify (inj : injector) (z : zio) : outcome zio :=
  '(error, data) ← zio_checksum_error inj z (io_data z);
  Ok (set_error (set_data z data) error).

(** The device of a physical I/O, and the sizes of the label areas at its ends
    (two 256K labels and the boot block in front, two labels behind). *)
Record vdev := Vdev { vdev_children : Z; vdev_psize : Z }.
Definition VDEV_LABEL_START_SIZE : Z := 2 * (Z.shiftl 256 10) + Z.shiftl 7 19.
Definition VDEV_LABEL_END_SIZE : Z := 2 * (Z.shiftl 256 10).

Definition zio_phys_bp_init (vd : vdev) (offset size checksum : Z) : outcome blkptr :=
  _ ← verify (vdev_children vd =? 0);
  _ ← verify (size <=? SPA_MAXBLOCKSIZE);
  _ ← verify (P2PHASE size SPA_MINBLOCKSIZE =? 0);
  _ ← verify (P2PHASE offset SPA_MINBLOCKSIZE =? 0);
  _ ← verify ((u64 (offset + size) <=? VDEV_LABEL_START_SIZE) || (u64 (vdev_psize vd - VDEV_LABEL_END_SIZE) <=? offset));
  _ ← verify (u64 (offset + size) <=? vdev_psize vd);
  let bp := BP_SET_PSIZE (BP_SET_LSIZE BP_ZERO size) size in
  let bp := BP_SET_COMPRESS (BP_SET_CHECKSUM bp checksum) 2 in
  let bp := BP_SET_BYTEORDER bp (ZFS_HOST_BYTEORDER be) in
  Ok (if negb (checksum =? ZIO_CHECKSUM_OFF) then set_cksum bp (ZC offset 0 0 0) else bp).

(** [zio_read_phys] and [zio_write_phys]: the requests they create.  A write
    with a tail checksum works on a copy of the data with the verifier in the
    tail of the copy. *)
Definition zio_read_phys (vd : vdev) (spa offset size : Z) (data : list Z) (checksum pipeline : Z) : outcome zio :=
  blk ← zio_phys_bp_init vd offset size checksum;
  Ok (MkZio spa None ZIO_TYPE_READ 0 blk 0 0 [Zt data size size] pipeline None).

Definition zio_write_phys (vd : vdev) (spa offset size : Z) (data : list Z) (checksum pipeline : Z) : outcome zio :=
  blk ← zio_phys_bp_init vd offset size checksum;
  let z := MkZio spa None ZIO_TYPE_WRITE 0 blk checksum 0 [Zt data size size] pipeline None in
  match zio_checksum_table !! Z.to_nat checksum with
  | Some ci =>
      if ci_zbt ci then
        wbuf ← wr_cksum be (take (Z.to_nat size) data) (zbt_off size + 8) (blk_cksum blk);
        Ok (set_stack z (Zt wbuf size size :: io_transform_stack z))
      else Ok z
  | None => Err Fault
  end.
End Host.

(** ** Words in buffers *)

Lemma le_split_len n v : length (le_split n v) = n.
Proof. revert v. induction n as [|n IH]; intros v; [done|]. cbn. by rewrite IH. Qed.

Lemma le_split_bytes n v : Forall is_byte (le_split n v).
Proof. revert v. induction n as [|n IH]; intros v; constructor; [apply Z.mod_pos_bound; lia|apply IH]. Qed.

Lemma le_combine_split n v : 0 <= v < 256 ^ Z.of_nat n -> le_combine (le_split n v) = v.
Proof.
  revert v. induction n as [|n IH]; intros v Hv; [cbn in *; lia|].
  rewrite Nat2Z.inj_succ, Z.pow_succ_r in Hv by lia. cbn [le_split le_combine].
  rewrite IH by (Z.to_euclidean_division_equations; nia). pose proof (Z.div_mod v 256). lia.
Qed.

Lemma le_split_combine l : Forall is_byte l -> le_split (length l) (le_combine l) = l.
Proof.
  induction 1 as [|b l Hb Hl IH]; [done|]. cbn [length le_split le_combine]. unfold is_byte in Hb.
  f_equal; [rewrite (Z.mul_comm 256), Z_mod_plus_full; apply Z.mod_small; lia|].
  rewrite (Z.mul_comm 256), Z.div_add, Z.div_small by lia. done.
Qed.

Lemma store_len be n v : length (store be n v) = n.
Proof. unfold store. destruct be; rewrite ?length_reverse; apply le_split_len. Qed.

Lemma store_bytes be n v : Forall is_byte (store be n v).
Proof. unfold store. destruct be; [apply Forall_reverse|]; apply le_split_bytes. Qed.

Lemma load_store be n v : 0 <= v < 256 ^ Z.of_nat n -> load be (store be n v) = v.
Proof. intros. unfold load, store. destruct be; rewrite ?reverse_involutive; by apply le_combine_split. Qed.

Lemma store_load be l : Forall is_byte l -> store be (length l) (load be l) = l.
Proof.
  intros Hl. unfold load, store. destruct be; [|by apply le_split_combine].
  rewrite <- (length_reverse l), le_split_combine by (by apply Forall_reverse). apply reverse_involutive.
Qed.

(** Storing a swapped word is storing the word on a host of the other order. *)
Lemma store_swap be v : is_u64 v -> store be 8 (BSWAP_64 v) = store (negb be) 8 v.
Proof.
  intros Hv. rewrite <- (load_store (negb be) 8 v) at 1 by exact Hv.
  rewrite bswap64_load, negb_involutive by (apply store_len || apply store_bytes).
  pose proof (store_load be (store (negb be) 8 v) (store_bytes _ _ _)) as H. by rewrite store_len in H.
Qed.

Lemma load_u64 be l : length l = 8%nat -> Forall is_byte l -> is_u64 (load be l).
Proof. intros Hl Hb. pose proof (load_range be l Hb) as H. by rewrite Hl in H. Qed.

(** A word in the middle of a buffer. *)
Lemma rd_u64_mid be a w b :
  length w = 8%nat -> rd_u64 be (a ++ w ++ b) (zlen a) = Ok (load be w).
Proof.
  intros Hw. unfold rd_u64. rewrite (proj2 (andb_true_iff _ _)).
  - rewrite Nat2Z.id, drop_app_length, take_app_length'; done.
  - rewrite !length_app. split; [apply Z.leb_le|apply Z.leb_le]; lia.
Qed.

Lemma wr_u64_mid be a w b v :
  length w = 8%nat -> wr_u64 be (a ++ w ++ b) (zlen a) v = Ok (a ++ store be 8 v ++ b).
Proof.
  intros Hw. unfold wr_u64. rewrite (proj2 (andb_true_iff _ _)).
  - rewrite Nat2Z.id, take_app_length. do 3 f_equal.
    rewrite drop_app_add. replace 8%nat with (length w). apply drop_app_length.
  - rewrite !length_app. split; [apply Z.leb_le|apply Z.leb_le]; lia.
Qed.

(** The 32 bytes of a checksum in the tail. *)
Definition cksum_bytes (be : bool) (zc : zio_cksum) : list Z :=
  store be 8 (zc_word0 zc) ++ store be 8 (zc_word1 zc) ++ store be 8 (zc_word2 zc) ++ store be 8 (zc_word3 zc).
Definition cksum_of (be : bool) (c : list Z) : zio_cksum :=
  ZC (load be (take 8 c)) (load be (take 8 (drop 8 c))) (load be (take 8 (drop 16 c))) (load be (take 8 (drop 24 c))).
Definition cksum_u64 (zc : zio_cksum) : Prop :=
  is_u64 (zc_word0 zc) /\ is_u64 (zc_word1 zc) /\ is_u64 (zc_word2 zc) /\ is_u64 (zc_word3 zc).

(** Thirty-two bytes are four words. *)
Lemma four_words (c : list Z) :
  length c = 32%nat ->
  exists w0 w1 w2 w3, c = w0 ++ w1 ++ w2 ++ w3 /\ length w0 = 8%nat /\ length w1 = 8%nat /\ length w2 = 8%nat /\ length w3 = 8%nat.
Proof.
  intros Hc. exists (take 8 c), (take 8 (drop 8 c)), (take 8 (drop 16 c)), (take 8 (drop 24 c)).
  split_and!; try (rewrite length_take, ?length_drop; lia).
  rewrite (firstn_all2 (n := 8) (drop 24 c)) by (rewrite length_drop; lia).
  replace (drop 24 c) with (drop 8 (drop 16 c)) by (by rewrite drop_drop). rewrite take_drop.
  replace (drop 16 c) with (drop 8 (drop 8 c)) by (by rewrite drop_drop). rewrite take_drop.
  by rewrite take_drop.
Qed.

Lemma cksum_of_app be w0 w1 w2 w3 :
  length w0 = 8%nat -> length w1 = 8%nat -> length w2 = 8%nat -> length w3 = 8%nat ->
  cksum_of be (w0 ++ w1 ++ w2 ++ w3) = ZC (load be w0) (load be w1) (load be w2) (load be w3).
Proof.
  intros H0 H1 H2 H3. unfold cksum_of. f_equal; f_equal.
  - by rewrite take_app_length'.
  - rewrite drop_app_length' by done. by rewrite take_app_length'.
  - rewrite (app_assoc w0 w1), drop_app_length' by (rewrite length_app; lia). by rewrite take_app_length'.
  - rewrite (app_assoc w0 w1), (app_assoc (w0 ++ w1)), drop_app_length' by (rewrite !length_app; lia).
    apply take_ge. lia.
Qed.

Lemma cksum_bytes_len be zc : length (cksum_bytes be zc) = 32%nat.
Proof. unfold cksum_bytes. rewrite !length_app, !store_len. done. Qed.

Lemma cksum_bytes_bytes be zc : Forall is_byte (cksum_bytes be zc).
Proof. unfold cksum_bytes. rewrite !List.Forall_app. split_and!; apply store_bytes. Qed.

Lemma cksum_of_bytes be zc : cksum_u64 zc -> cksum_of be (cksum_bytes be zc) = zc.
Proof.
  intros (H0 & H1 & H2 & H3). unfold cksum_bytes. rewrite cksum_of_app by apply store_len.
  rewrite !load_store by done. by destruct zc.
Qed.

Lemma cksum_bytes_of be c : length c = 32%nat -> Forall is_byte c -> cksum_bytes be (cksum_of be c) = c /\ cksum_u64 (cksum_of be c).
Proof.
  intros Hl Hb. destruct (four_words c Hl) as (w0 & w1 & w2 & w3 & -> & L0 & L1 & L2 & L3).
  rewrite !List.Forall_app in Hb. destruct Hb as (B0 & B1 & B2 & B3).
  rewrite cksum_of_app by done. unfold cksum_bytes, cksum_u64. cbn [zc_word0 zc_word1 zc_word2 zc_word3].
  split; [|split_and!; by apply load_u64].
  rewrite <- L0 at 1. rewrite store_load by done. rewrite <- L1 at 1. rewrite store_load by done.
  rewrite <- L2 at 1. rewrite store_load by done. rewrite <- L3 at 1. by rewrite store_load.
Qed.

Lemma cksum_bytes_swap be zc : cksum_u64 zc -> cksum_bytes be (cksum_swap zc) = cksum_bytes (negb be) zc.
Proof.
  intros (H0 & H1 & H2 & H3). unfold cksum_bytes, cksum_swap. cbn [zc_word0 zc_word1 zc_word2 zc_word3].
  by rewrite !store_swap.
Qed.

Lemma cksum_swap_of be c : length c = 32%nat -> Forall is_byte c -> cksum_swap (cksum_of be c) = cksum_of (negb be) c.
Proof.
  intros Hl Hb. destruct (four_words c Hl) as (w0 & w1 & w2 & w3 & -> & L0 & L1 & L2 & L3).
  rewrite !List.Forall_app in Hb. destruct Hb as (B0 & B1 & B2 & B3).
  rewrite !cksum_of_app by done. unfold cksum_swap. cbn [zc_word0 zc_word1 zc_word2 zc_word3].
  by rewrite !bswap64_load.
Qed.

(** The tail of a buffer. *)
Lemma rd_cksum_tail be a c : length c = 32%nat -> rd_cksum be (a ++ c) (zlen a) = Ok (cksum_of be c).
Proof.
  intros Hl. destruct (four_words c Hl) as (w0 & w1 & w2 & w3 & -> & L0 & L1 & L2 & L3).
  rewrite cksum_of_app by done. unfold rd_cksum. rewrite rd_u64_mid by done. run.
  replace (zlen a + 8) with (zlen (a ++ w0)) by (rewrite length_app; lia).
  replace (zlen a + 16) with (zlen (a ++ w0 ++ w1)) by (rewrite !length_app; lia).
  replace (zlen a + 24) with (zlen (a ++ w0 ++ w1 ++ w2)) by (rewrite !length_app; lia).
  rewrite (app_assoc a w0) at 1. rewrite rd_u64_mid by done. run.
  replace (a ++ w0 ++ w1 ++ w2 ++ w3) with ((a ++ w0 ++ w1) ++ w2 ++ w3) by (by rewrite <- !app_assoc).
  rewrite rd_u64_mid by done. run.
  replace ((a ++ w0 ++ w1) ++ w2 ++ w3) with ((a ++ w0 ++ w1 ++ w2) ++ w3 ++ []) by (by rewrite app_nil_r, <- !app_assoc).
  by rewrite rd_u64_mid.
Qed.

Lemma wr_cksum_tail be a c zc : length c = 32%nat -> wr_cksum be (a ++ c) (zlen a) zc = Ok (a ++ cksum_bytes be zc).
Proof.
  intros Hl. destruct (four_words c Hl) as (w0 & w1 & w2 & w3 & -> & L0 & L1 & L2 & L3).
  unfold wr_cksum, cksum_bytes. rewrite wr_u64_mid by done. run.
  set (v0 := store be 8 (zc_word0 zc)). assert (length v0 = 8%nat) by apply store_len.
  replace (zlen a + 8) with (zlen (a ++ v0)) by (rewrite length_app; lia).
  rewrite (app_assoc a v0), wr_u64_mid by done. run.
  set (v1 := store be 8 (zc_word1 zc)). assert (length v1 = 8%nat) by apply store_len.
  replace (zlen a + 16) with (zlen ((a ++ v0) ++ v1)) by (rewrite !length_app; lia).
  rewrite (app_assoc (a ++ v0) v1), wr_u64_mid by done. run.
  set (v2 := store be 8 (zc_word2 zc)). assert (length v2 = 8%nat) by apply store_len.
  replace (zlen a + 24) with (zlen (((a ++ v0) ++ v1) ++ v2)) by (rewrite !length_app; lia).
  rewrite (app_assoc ((a ++ v0) ++ v1) v2). rewrite <- (app_nil_r w3), wr_u64_mid by done.
  by rewrite app_nil_r, <- !app_assoc.
Qed.

Lemma byteswap_step be n a v b :
  is_u64 v ->
  byteswap_loop be (S n) (a ++ store be 8 v ++ b) (zlen a)
  = byteswap_loop be n ((a ++ store (negb be) 8 v) ++ b) (zlen (a ++ store (negb be) 8 v)).
Proof.
  intros Hv. cbn [byteswap_loop]. rewrite rd_u64_mid by apply store_len. run.
  rewrite wr_u64_mid by apply store_len. run.
  rewrite load_store, store_swap, length_app, store_len by exact Hv. rewrite <- app_assoc. f_equal. lia.
Qed.

Lemma byteswap_tail be a zc :
  cksum_u64 zc ->
  byteswap_uint64_array be (a ++ cksum_bytes be zc) (zlen a) 32 = Ok (a ++ cksum_bytes (negb be) zc).
Proof.
  intros (H0 & H1 & H2 & H3). unfold byteswap_uint64_array, cksum_bytes.
  change (Z.to_nat (Z.shiftr 32 3)) with 4%nat. cbn [verify Z.land]. run.
  rewrite !byteswap_step by done. rewrite <- (app_nil_r (store be 8 (zc_word3 zc))), byteswap_step by done.
  cbn [byteswap_loop]. by rewrite app_nil_r, <- !app_assoc.
Qed.

(** ** What each vector computes *)

(** The checksum a host of byte order [be] computes natively. *)
Definition hash (checksum : Z) (be : bool) (buf : list Z) : zio_cksum :=
  if checksum =? ZIO_CHECKSUM_OFF then ZC 0 0 0 0
  else if (checksum =? ZIO_CHECKSUM_ZILOG) || (checksum =? ZIO_CHECKSUM_FLETCHER_2) then
    fold2 (ZC 0 0 0 0) (map (fun k => (word be 8 buf (2 * k), word be 8 buf (2 * k + 1))) (seq 0 (length buf / 16)))
  else if checksum =? ZIO_CHECKSUM_FLETCHER_4 then fold4 (ZC 0 0 0 0) (words be 4 buf)
  else Sha256.pack (Sha256.fips_sha256 buf).

Definition in_tail (checksum : Z) : bool := (ZIO_CHECKSUM_LABEL <=? checksum) && (checksum <=? ZIO_CHECKSUM_ZILOG).

(** A block: bytes, of a size a block pointer can describe. *)
Definition block_ok (data : list Z) : Prop := Forall is_byte data /\ size_ok (zlen data).
Definition pad_ok (pad0 : list Z) : Prop := length pad0 = 128%nat /\ Forall is_byte pad0.

Lemma size_ok_mod16 n : size_ok (Z.of_nat n) -> (n `mod` 16 = 0)%nat /\ (40 <= n)%nat /\ Z.of_nat n < 2 ^ 31.
Proof.
  intros [Hm Hr]. change SPA_MAXBLOCKSIZE with 131072 in Hr. split_and!; [|lia|lia].
  apply Nat2Z.inj. rewrite Nat2Z.inj_mod. Z.to_euclidean_division_equations. lia.
Qed.

Lemma fold_left_inv {A B} (P : A -> Prop) (f : A -> B -> A) l a :
  (forall a b, P a -> P (f a b)) -> P a -> P (fold_left f l a).
Proof. intros Hf. revert a. induction l as [|b l IH]; intros a Ha; [done|]. cbn. apply IH. by apply Hf. Qed.

Lemma wrap64 z : is_u64 (u64 z).
Proof. apply wrap_range. lia. Qed.

Lemma pack_u64 r : Sha256.regs_ok r -> cksum_u64 (Sha256.pack r).
Proof.
  unfold Sha256.regs_ok, cksum_u64, is_u32, is_u64. intros (?&?&?&?&?&?&?&?).
  cbn [Sha256.pack zc_word0 zc_word1 zc_word2 zc_word3]. lia.
Qed.

Lemma hash_u64 checksum be buf : cksum_u64 (hash checksum be buf).
Proof.
  unfold hash, fold2, fold4, Sha256.fips_sha256. repeat step_if.
  - done.
  - apply fold_left_inv; [|done]. intros [a0 a1 b0 b1] [w0 w1] _. cbn. split_and!; apply wrap64.
  - apply fold_left_inv; [|done]. intros [a b c d] w _. cbn. split_and!; apply wrap64.
  - apply pack_u64. apply fold_left_inv; [|apply Sha256.H_init_ok]. intros H blk _. apply Sha256.add_regs_ok.
Qed.

(** Every vector with a function: its native routine on either kind of host,
    and its swapping routine on the other kind, compute the same. *)
Lemma table_spec be pad0 checksum :
  ZIO_CHECKSUM_OFF <= checksum < ZIO_CHECKSUM_FUNCTIONS -> pad_ok pad0 ->
  exists f0 f1 cor name,
    zio_checksum_table be pad0 !! Z.to_nat checksum = Some (Ci (Some (f0, f1)) cor (in_tail checksum) name) /\
    forall buf, block_ok buf ->
      f0 buf (zlen buf) = Ok (hash checksum be buf) /\ f1 buf (zlen buf) = Ok (hash checksum (negb be) buf).
Proof.
  intros Hc [Hp1 Hp2]. change ZIO_CHECKSUM_OFF with 2 in Hc. change ZIO_CHECKSUM_FUNCTIONS with 9 in Hc.
  assert (checksum = 2 \/ checksum = 3 \/ checksum = 4 \/ checksum = 5 \/ checksum = 6 \/ checksum = 7 \/ checksum = 8)
    as Hcs by lia.
  destruct Hcs as [-> | [-> | [-> | [-> | [-> | [-> | ->]]]]]]; do 4 eexists; (split; [reflexivity|]); cbn beta;
    intros buf [Hb Hs]; apply size_ok_mod16 in Hs as (H16 & _ & H31); rewrite ?Nat2Z.id;
    cbn [hash Z.eqb Pos.eqb orb ZIO_CHECKSUM_OFF ZIO_CHECKSUM_ZILOG ZIO_CHECKSUM_FLETCHER_2 ZIO_CHECKSUM_FLETCHER_4];
    try (by split; apply Sha256.SHA256_total); [done|..];
    rewrite ?fletcher_2_swap, ?fletcher_4_swap, ?fletcher_4_native_fold by done;
    unfold fletcher_2_native; rewrite ?loop2_fold by done; done.
Qed.

(** ** The routines on a whole block *)

(** A block ends in a magic word and a checksum. *)
Lemma tail_split data :
  block_ok data ->
  exists body m c, data = body ++ m ++ c /\ length m = 8%nat /\ length c = 32%nat /\
    zbt_off (zlen data) = zlen body /\ zbt_off (zlen data) + 8 = zlen (body ++ m) /\
    Forall is_byte body /\ Forall is_byte m /\ Forall is_byte c.
Proof.
  intros [Hb Hs]. apply size_ok_mod16 in Hs as (_ & H40 & _).
  set (n := (length data - 40)%nat).
  exists (take n data), (take 8 (drop n data)), (drop (n + 8) data).
  assert (length (take n data) = n) as Ln by (rewrite length_take; lia).
  assert (length (take 8 (drop n data)) = 8%nat) as L8 by (rewrite length_take, length_drop; lia).
  split_and!; try done.
  - rewrite <- drop_drop, take_drop, take_drop. done.
  - rewrite length_drop. lia.
  - rewrite Ln. unfold zbt_off. lia.
  - rewrite length_app, Ln, L8. unfold zbt_off. lia.
  - by apply Forall_take.
  - by apply Forall_take, Forall_drop.
  - by apply Forall_drop.
Qed.

(** Replacing the tail leaves a block. *)
Lemma block_retail body m c m' c' :
  block_ok (body ++ m ++ c) -> length m' = length m -> length c' = length c ->
  Forall is_byte m' -> Forall is_byte c' ->
  block_ok (body ++ m' ++ c') /\ length (body ++ m' ++ c') = length (body ++ m ++ c).
Proof.
  intros [Hb Hs] Lm Lc Hm Hc. rewrite !List.Forall_app in Hb. destruct Hb as (Hbody & _ & _).
  assert (length (body ++ m' ++ c') = length (body ++ m ++ c)) as HL by (rewrite !length_app; lia).
  split; [|done]. split; [|by rewrite HL]. rewrite !List.Forall_app. done.
Qed.

Lemma checksum_in_pointer be pad0 checksum data :
  ZIO_CHECKSUM_OFF <= checksum < ZIO_CHECKSUM_FUNCTIONS -> pad_ok pad0 -> block_ok data -> in_tail checksum = false ->
  zio_checksum be pad0 checksum data (zlen data) = Ok (hash checksum be data, data).
Proof.
  intros Hc Hp Hd Ht. destruct (table_spec be pad0 checksum Hc Hp) as (f0 & f1 & cor & name & E & Hf).
  destruct (Hf data Hd) as [E0 _]. unfold zio_checksum. rewrite (proj2 (Z.ltb_lt _ _)) by apply Hc. cbn [verify]. run.
  rewrite E, Ht, E0. done.
Qed.

Lemma checksum_in_tail be pad0 checksum body m c :
  ZIO_CHECKSUM_OFF <= checksum < ZIO_CHECKSUM_FUNCTIONS -> pad_ok pad0 -> in_tail checksum = true ->
  block_ok (body ++ m ++ c) -> length m = 8%nat -> length c = 32%nat ->
  zio_checksum be pad0 checksum (body ++ m ++ c) (zlen (body ++ m ++ c)) =
  Ok (cksum_of be c,
      body ++ store be 8 ZBT_MAGIC ++
        cksum_bytes be (hash checksum be (body ++ store be 8 ZBT_MAGIC ++ c))).
Proof.
  intros Hc Hp Ht Hd Lm Lc. destruct (table_spec be pad0 checksum Hc Hp) as (f0 & f1 & cor & name & E & Hf).
  assert (Forall is_byte c) as Hcb by (destruct Hd as [Hb _]; rewrite !List.Forall_app in Hb; apply Hb).
  destruct (block_retail body m c (store be 8 ZBT_MAGIC) c) as [Hd' HL];
    [done|by rewrite store_len|done|apply store_bytes|done|].
  destruct (Hf _ Hd') as [E0 _].
  unfold zio_checksum. rewrite (proj2 (Z.ltb_lt _ _)) by apply Hc. cbn [verify]. run. rewrite E, Ht.
  assert (zbt_off (zlen (body ++ m ++ c)) = zlen body) as -> by (unfold zbt_off; rewrite !length_app; lia).
  replace (zlen body + 8) with (zlen (body ++ m)) by (rewrite length_app; lia).
  rewrite (app_assoc body m c) at 1. rewrite rd_cksum_tail by done. run.
  rewrite wr_u64_mid by done. run. rewrite <- HL, E0. run.
  replace (zlen (body ++ m)) with (zlen (body ++ store be 8 ZBT_MAGIC)) by (rewrite !length_app, store_len; lia).
  rewrite app_assoc, wr_cksum_tail by done. run. by rewrite <- app_assoc.
Qed.

(** Which block pointers and verifiers the reader works with. *)
Definition verifier (bp : blkptr) : zio_cksum := if BP_IS_GANG bp then zio_set_gang_verifier bp else blk_cksum bp.
Definition checksum_fn (bp : blkptr) : Z := if BP_IS_GANG bp then ZIO_CHECKSUM_GANG_HEADER else BP_GET_CHECKSUM bp.

Lemma BF64_GET_range x low len : 0 <= len -> 0 <= BF64_GET x low len < 2 ^ len.
Proof.
  intros. unfold BF64_GET, BF64_DECODE. rewrite SpaceMap.P2PHASE_mod by done. apply Z.mod_pos_bound. lia.
Qed.

Lemma verifier_u64 bp : is_u64 (blk_birth bp) -> cksum_u64 (blk_cksum bp) -> cksum_u64 (verifier bp).
Proof.
  intros Hb Hc. unfold verifier. step_if; [|done]. unfold cksum_u64, zio_set_gang_verifier.
  cbn [zc_word0 zc_word1 zc_word2 zc_word3]. split_and!; [|apply wrap64|done|done].
  unfold DVA_GET_VDEV. pose proof (BF64_GET_range (dva_word0 (BP_IDENTITY bp)) 32 32 ltac:(lia)).
  unfold is_u64. lia.
Qed.

(** Only a gang block's pointer is verified as a gang header. *)
Definition bp_valid (bp : blkptr) : Prop :=
  is_u64 (blk_birth bp) /\ cksum_u64 (blk_cksum bp) /\
  (BP_IS_GANG bp = false -> BP_GET_CHECKSUM bp <> ZIO_CHECKSUM_GANG_HEADER).

(** Verification of a tail checksum reads the tail in the order its magic word
    shows, and leaves the block as it was. *)
Lemma error_in_tail be pad0 inj z body m c :
  let bp := io_bp z in
  let checksum := checksum_fn bp in
  let ord := if load be m =? BSWAP_64 ZBT_MAGIC then negb be else be in
  ZIO_CHECKSUM_OFF <= checksum < ZIO_CHECKSUM_FUNCTIONS -> pad_ok pad0 -> in_tail checksum = true ->
  bp_valid bp -> block_ok (body ++ m ++ c) -> length m = 8%nat -> length c = 32%nat ->
  ZIO_GET_IOSIZE bp = zlen (body ++ m ++ c) ->
  zio_checksum_error be pad0 inj z (body ++ m ++ c) =
  Ok (checksum_compare inj z (hash checksum ord (body ++ m ++ cksum_bytes ord (verifier bp))) (cksum_of ord c)
        (body ++ m ++ c)).
Proof.
  intros bp checksum ord Hc Hp Ht (Hbirth & Hck & Hg) Hd Lm Lc Hsz.
  destruct (table_spec be pad0 checksum Hc Hp) as (f0 & f1 & cor & name & E & Hf).
  assert (Forall is_byte m /\ Forall is_byte c) as [Hmb Hcb].
  { destruct Hd as [Hb _]. rewrite !List.Forall_app in Hb. split; apply Hb. }
  pose proof (verifier_u64 bp Hbirth Hck) as Hv.
  destruct (block_retail body m c m (cksum_bytes ord (verifier bp))) as [Hd' HL];
    [done|done|by rewrite cksum_bytes_len|done|apply cksum_bytes_bytes|].
  destruct (Hf _ Hd') as [E0 E1]. rewrite HL in E0, E1.
  destruct (cksum_bytes_of be c Lc Hcb) as [Eb Hu]. destruct (cksum_bytes_of (negb be) c Lc Hcb) as [Eb' Hu'].
  unfold zio_checksum_error. fold bp. cbn zeta. fold (checksum_fn bp). fold checksum.
  rewrite Hsz, (proj2 (Z.leb_gt _ _)) by apply Hc. rewrite E, Ht.
  assert ((if checksum =? ZIO_CHECKSUM_GANG_HEADER then zio_set_gang_verifier bp else blk_cksum bp) = verifier bp) as ->.
  { unfold checksum, checksum_fn, verifier. destruct (BP_IS_GANG bp) eqn:EG; [done|].
    by rewrite (proj2 (Z.eqb_neq _ _)) by (by apply Hg). }
  assert (zbt_off (zlen (body ++ m ++ c)) = zlen body) as -> by (unfold zbt_off; rewrite !length_app; lia).
  replace (zlen body + 8) with (zlen (body ++ m)) by (rewrite length_app; lia).
  rewrite rd_u64_mid by done. run. rewrite (app_assoc body m c). rewrite rd_cksum_tail by done. run.
  rewrite wr_cksum_tail by done. run. unfold ord in *. destruct (load be m =? BSWAP_64 ZBT_MAGIC).
  - rewrite byteswap_tail by done. run. rewrite <- (app_assoc body m c), <- (app_assoc body m (cksum_bytes (negb be) _)), E1. run.
    rewrite (app_assoc body m (cksum_bytes (negb be) _)), wr_cksum_tail by apply cksum_bytes_len. run.
    rewrite cksum_swap_of by done. rewrite byteswap_tail by done. run. rewrite Eb'. by rewrite <- !app_assoc.
  - rewrite <- (app_assoc body m c), <- (app_assoc body m (cksum_bytes be _)), E0. run.
    rewrite (app_assoc body m (cksum_bytes be _)), wr_cksum_tail by apply cksum_bytes_len. run. rewrite Eb. by rewrite <- !app_assoc.
Qed.

Lemma error_in_pointer be pad0 inj z data :
  let bp := io_bp z in
  let checksum := checksum_fn bp in
  let ord := if BP_SHOULD_BYTESWAP be bp then negb be else be in
  ZIO_CHECKSUM_OFF <= checksum < ZIO_CHECKSUM_FUNCTIONS -> pad_ok pad0 -> in_tail checksum = false ->
  block_ok data -> ZIO_GET_IOSIZE bp = zlen data ->
  zio_checksum_error be pad0 inj z data =
  Ok (checksum_compare inj z (hash checksum ord data) (blk_cksum bp) data).
Proof.
  intros bp checksum ord Hc Hp Ht Hd Hsz.
  destruct (table_spec be pad0 checksum Hc Hp) as (f0 & f1 & cor & name & E & Hf).
  destruct (Hf _ Hd) as [E0 E1].
  unfold zio_checksum_error. fold bp. cbn zeta. fold (checksum_fn bp). fold checksum.
  rewrite Hsz, (proj2 (Z.leb_gt _ _)) by apply Hc. rewrite E, Ht.
  assert (BP_IS_GANG bp = false) as ->.
  { unfold checksum, checksum_fn in Ht. destruct (BP_IS_GANG bp); [discriminate Ht|done]. }
  cbn [negb verify]. run. unfold ord. destruct (BP_SHOULD_BYTESWAP be bp); [rewrite E1|rewrite E0]; done.
Qed.

(** A function number with no vector. *)
Lemma error_no_vector be pad0 inj z data :
  0 <= checksum_fn (io_bp z) -> ~ ZIO_CHECKSUM_OFF <= checksum_fn (io_bp z) < ZIO_CHECKSUM_FUNCTIONS ->
  zio_checksum_error be pad0 inj z data = Ok (Some EINVAL, data).
Proof.
  intros H0 Hc. unfold zio_checksum_error. cbn zeta. fold (checksum_fn (io_bp z)). step_if; [done|]. b2p.
  change ZIO_CHECKSUM_OFF with 2 in Hc. change ZIO_CHECKSUM_FUNCTIONS with 9 in *.
  assert (checksum_fn (io_bp z) = 0 \/ checksum_fn (io_bp z) = 1) as [-> | ->] by lia; done.
Qed.

Lemma checksum_fn_range bp : 0 <= checksum_fn bp.
Proof. unfold checksum_fn, BP_GET_CHECKSUM. step_if; [done|]. apply BF64_GET_range. lia. Qed.

Lemma cksum_equal_iff z1 z2 : cksum_u64 z1 -> cksum_u64 z2 -> ZIO_CHECKSUM_EQUAL z1 z2 = true <-> z1 = z2.
Proof.
  destruct z1 as [a b c d], z2 as [a' b' c' d']. intros (A1&A2&A3&A4) (B1&B2&B3&B4).
  cbn [zc_word0 zc_word1 zc_word2 zc_word3] in *. split.
  - intros H. rewrite <- (wrap_small 64 a), <- (wrap_small 64 b), <- (wrap_small 64 c), <- (wrap_small 64 d),
      <- (wrap_small 64 a'), <- (wrap_small 64 b'), <- (wrap_small 64 c'), <- (wrap_small 64 d') in H by done.
    apply cksum_equal_eq in H as (H1 & H2 & H3 & H4). rewrite !wrap_small in H1, H2, H3, H4 by done. by subst.
  - intros [= -> -> -> ->]. unfold ZIO_CHECKSUM_EQUAL. cbn [zc_word0 zc_word1 zc_word2 zc_word3].
    by rewrite !Z.sub_diag.
Qed.

(** No fault is injected into this I/O. *)
Definition quiet (inj : injector) (z : zio) : Prop :=
  zio_injection_enabled inj = 0 \/ io_error z <> None \/ zio_handle_fault_injection inj z ECKSUM = None.

Lemma compare_same inj z zc data : cksum_u64 zc -> quiet inj z -> checksum_compare inj z zc zc data = (None, data).
Proof.
  intros Hu Hq. unfold checksum_compare. rewrite (proj2 (cksum_equal_iff zc zc Hu Hu)) by done. cbn [negb].
  destruct (zio_injection_enabled inj =? 0) eqn:E; [done|]. b2p. cbn [negb andb].
  case_bool_decide; [|done]. destruct Hq as [?|[?| ->]]; done.
Qed.

(** The magic word tells a reader of either order the order of the writer. *)
Lemma magic_order be be' :
  (if load be' (store be 8 ZBT_MAGIC) =? BSWAP_64 ZBT_MAGIC then negb be' else be') = be.
Proof. destruct be, be'; vm_compute; done. Qed.

(** A block whose tail was checksummed by a host of order [be], with the
    verifier of its pointer in the tail, verifies on a host of order [be']. *)
Lemma tail_verifies be be' pad0 inj z body m zc :
  let bp := io_bp z in
  let checksum := checksum_fn bp in
  let data := body ++ store be 8 ZBT_MAGIC ++
    cksum_bytes be (hash checksum be (body ++ store be 8 ZBT_MAGIC ++ cksum_bytes be zc)) in
  ZIO_CHECKSUM_OFF <= checksum < ZIO_CHECKSUM_FUNCTIONS -> pad_ok pad0 -> in_tail checksum = true ->
  bp_valid bp -> verifier bp = zc -> block_ok (body ++ m ++ cksum_bytes be zc) -> length m = 8%nat ->
  ZIO_GET_IOSIZE bp = zlen (body ++ m ++ cksum_bytes be zc) -> quiet inj z ->
  zio_checksum_error be' pad0 inj z data = Ok (None, data).
Proof.
  intros bp checksum data Hc Hp Ht Hbp Hv Hd Lm Hsz Hq. unfold data.
  set (h := hash checksum be (body ++ store be 8 ZBT_MAGIC ++ cksum_bytes be zc)).
  destruct (block_retail body m (cksum_bytes be zc) (store be 8 ZBT_MAGIC) (cksum_bytes be h)) as [Hd' HL];
    [done|by rewrite store_len|by rewrite !cksum_bytes_len|apply store_bytes|apply cksum_bytes_bytes|].
  rewrite error_in_tail; fold bp; fold checksum; try done; [|by rewrite store_len|by rewrite cksum_bytes_len|by rewrite HL].
  rewrite magic_order, Hv. fold h. rewrite cksum_of_bytes by apply hash_u64. rewrite compare_same; [done|apply hash_u64|done].
Qed.

(** ** Writers and readers *)

(** The request's current buffer is a block. *)
Definition has_block (z : zio) : Prop :=
  exists t st, io_transform_stack z = t :: st /\ block_ok (io_data z) /\ zt_size t = zlen (io_data z).

Lemma has_block_data z : has_block z -> block_ok (io_data z) /\ io_size z = zlen (io_data z).
Proof. intros (t & st & E & Hb & Hs). split; [done|]. unfold io_size. by rewrite E. Qed.

Lemma set_data_data z data :
  has_block z -> length data = length (io_data z) ->
  io_data (set_data z data) = data /\ io_bp (set_data z data) = io_bp z /\
  zlen data = io_size (set_data z data).
Proof.
  intros (t & st & E & _ & Hs) Hl. unfold set_data, io_data at 1, io_size. rewrite E.
  cbn [set_stack io_transform_stack zt_data zt_size]. split_and!; [|done|lia].
  rewrite Hs, Nat2Z.id, <- Hl. apply take_app_length.
Qed.

Lemma has_block_set_bp z bp : has_block z -> has_block (set_bp z bp).
Proof. done. Qed.

(** A pointer that agrees in what verification uses of it.  An ordinary block
    gets its addresses and its birth after its checksum. *)
Definition checked_as (bp' bp : blkptr) : Prop :=
  blk_prop bp' = blk_prop bp /\ blk_cksum bp' = blk_cksum bp /\ BP_IS_GANG bp' = BP_IS_GANG bp /\
  verifier bp' = verifier bp /\ is_u64 (blk_birth bp').

Lemma checked_fields be bp' bp :
  checked_as bp' bp ->
  checksum_fn bp' = checksum_fn bp /\ ZIO_GET_IOSIZE bp' = ZIO_GET_IOSIZE bp /\
  BP_SHOULD_BYTESWAP be bp' = BP_SHOULD_BYTESWAP be bp /\ (bp_valid bp -> bp_valid bp').
Proof.
  intros (Hp & Hc & Hg & Hv & Hb). unfold checksum_fn, ZIO_GET_IOSIZE, BP_SHOULD_BYTESWAP, bp_valid,
    BP_GET_CHECKSUM, BP_GET_PSIZE, BP_GET_BYTEORDER. rewrite Hp, Hg, Hc. split_and!; try done.
  intros (_ & H2 & H3). by split_and!.
Qed.

(** Every reader, whatever its byte order and its stack, accepts the block. *)
Definition verifies_anywhere (bp : blkptr) (data : list Z) : Prop :=
  forall be pad0 inj z, pad_ok pad0 -> checked_as (io_bp z) bp -> quiet inj z ->
    zio_checksum_error be pad0 inj z data = Ok (None, data).

(** The pointer [zio_checksum_generate] leaves, and the fields the reader uses. *)
Definition generated (be : bool) (bp : blkptr) (checksum : Z) (zc : zio_cksum) : blkptr :=
  set_cksum (BP_SET_BYTEORDER (BP_SET_CHECKSUM bp checksum) (ZFS_HOST_BYTEORDER be)) zc.

Lemma generated_fields be be' bp checksum zc :
  0 <= checksum < 256 -> BP_IS_GANG bp = false ->
  let bp' := generated be bp checksum zc in
  BP_IS_GANG bp' = false /\ checksum_fn bp' = checksum /\ verifier bp' = zc /\ blk_cksum bp' = zc /\
  ZIO_GET_IOSIZE bp' = BP_GET_PSIZE bp /\ blk_birth bp' = blk_birth bp /\
  BP_SHOULD_BYTESWAP be' bp' = xorb be be'.
Proof.
  intros Hc Hg bp'. assert (BP_IS_GANG bp' = false) as Hg' by exact Hg.
  assert (forall b, BP_GET_CHECKSUM (set_cksum b zc) = BP_GET_CHECKSUM b) as Hs by done.
  assert (forall b, BP_GET_PSIZE (set_cksum b zc) = BP_GET_PSIZE b) as Hs' by done.
  assert (forall b, BP_SHOULD_BYTESWAP be' (set_cksum b zc) = BP_SHOULD_BYTESWAP be' b) as Hs'' by done.
  unfold checksum_fn, verifier, ZIO_GET_IOSIZE. rewrite Hg'. unfold bp', generated. rewrite Hs, Hs', Hs''.
  destruct (get_checksum_other (BP_SET_CHECKSUM bp checksum) (ZFS_HOST_BYTEORDER be)) as (_ & _ & _ & E1).
  destruct (get_psize_other (BP_SET_CHECKSUM bp checksum) (ZFS_HOST_BYTEORDER be)) as (_ & _ & _ & E2).
  destruct (get_psize_other bp checksum) as (_ & _ & E3 & _).
  rewrite E1, E2, E3, get_checksum_set by done. split_and!; try done. apply should_byteswap_set.
Qed.

(** Ordinary blocks and log blocks. *)
Lemma generate_verifies be pad0 z :
  pad_ok pad0 -> has_block z -> ZIO_CHECKSUM_OFF <= io_checksum z < ZIO_CHECKSUM_FUNCTIONS ->
  io_checksum z <> ZIO_CHECKSUM_GANG_HEADER -> BP_IS_GANG (io_bp z) = false ->
  BP_GET_PSIZE (io_bp z) = io_size z -> is_u64 (blk_birth (io_bp z)) ->
  exists z1, zio_checksum_generate be pad0 z = Ok z1 /\
    (exists zc, io_bp z1 = generated be (io_bp z) (io_checksum z) zc) /\
    block_ok (io_data z1) /\ (in_tail (io_checksum z) = false -> io_data z1 = io_data z) /\
    length (io_data z1) = length (io_data z) /\
    verifies_anywhere (io_bp z1) (io_data z1).
Proof.
  intros Hp Hz Hc Hng Hg Hps Hb. destruct (has_block_data z Hz) as [Hd Hs].
  assert (0 <= io_checksum z < 256) as Hc' by (change ZIO_CHECKSUM_OFF with 2 in *; change ZIO_CHECKSUM_FUNCTIONS with 9 in *; lia).
  unfold zio_checksum_generate. rewrite (proj2 (Z.eqb_eq _ _)) by done. cbn [verify]. run. rewrite Hs in *.
  destruct (in_tail (io_checksum z)) eqn:Ht.
  - destruct (tail_split _ Hd) as (body & m & c & E & Lm & Lc & _ & _ & _ & Hmb & Hcb). rewrite E in *.
    rewrite checksum_in_tail by done. run. fold (generated be (io_bp z) (io_checksum z) (cksum_of be c)).
    set (h := hash _ _ _). eexists. split; [done|].
    destruct (block_retail body m c (store be 8 ZBT_MAGIC) (cksum_bytes be h)) as [Hd' HL];
      [done|by rewrite store_len|by rewrite cksum_bytes_len|apply store_bytes|apply cksum_bytes_bytes|].
    destruct (set_data_data (set_bp z (generated be (io_bp z) (io_checksum z) (cksum_of be c)))
      (body ++ store be 8 ZBT_MAGIC ++ cksum_bytes be h) Hz) as (-> & -> & _); [by rewrite HL, <- E|].
    split; [by eexists|]. split_and!; try done. intros be' pad' inj z' Hp' Hbp' Hq.
    cbn [set_bp io_bp] in Hbp'.
    destruct (generated_fields be be' (io_bp z) (io_checksum z) (cksum_of be c) Hc' Hg)
      as (F1 & F2 & F3 & F4 & F5 & F6 & _).
    destruct (cksum_bytes_of be c Lc Hcb) as [Eb Hu].
    destruct (checked_fields be' _ _ Hbp') as (K1 & K2 & _ & K4). rewrite F2 in K1. unfold h. rewrite <- Eb, <- K1.
    apply (tail_verifies be be' pad' inj z' body m (cksum_of be c)); rewrite ?K1, ?K2; try done.
    + apply K4. split_and!; [by rewrite F6|by rewrite F4|]. intros _. unfold checksum_fn in F2. rewrite F1 in F2. by rewrite F2.
    + by destruct Hbp' as (_ & _ & _ & -> & _).
    + by rewrite Eb.
    + by rewrite Eb, F5.
  - rewrite checksum_in_pointer by done. run. fold (generated be (io_bp z) (io_checksum z) (hash (io_checksum z) be (io_data z))).
    eexists. split; [done|].
    destruct (set_data_data (set_bp z (generated be (io_bp z) (io_checksum z) (hash (io_checksum z) be (io_data z)))) (io_data z) Hz)
      as (-> & -> & _); [done|].
    split; [by eexists|]. split_and!; try done. intros be' pad' inj z' Hp' Hbp' Hq. cbn [set_bp io_bp] in Hbp'.
    destruct (generated_fields be be' (io_bp z) (io_checksum z) (hash (io_checksum z) be (io_data z)) Hc' Hg)
      as (F1 & F2 & F3 & F4 & F5 & F6 & F7).
    destruct (checked_fields be' _ _ Hbp') as (K1 & K2 & K3 & _). rewrite F2 in K1.
    rewrite error_in_pointer; rewrite ?K1, ?K2; try done; [|by rewrite F5].
    destruct Hbp' as (_ & -> & _). rewrite K3, F7, F4. replace (if xorb be be' then negb be' else be') with be by (by destruct be, be').
    rewrite compare_same; [done|apply hash_u64|done].
Qed.

(** Gang headers: the verifier is the identity of the block. *)
Lemma gang_verifies be pad0 z :
  pad_ok pad0 -> has_block z -> BP_IS_GANG (io_bp z) = true -> io_size z = SPA_GANGBLOCKSIZE ->
  is_u64 (blk_birth (io_bp z)) -> cksum_u64 (blk_cksum (io_bp z)) ->
  exists z1, zio_gang_checksum_generate be pad0 z = Ok z1 /\ io_bp z1 = io_bp z /\
    take (Z.to_nat (io_size z - 40)) (io_data z1) = take (Z.to_nat (io_size z - 40)) (io_data z) /\
    verifies_anywhere (io_bp z1) (io_data z1).
Proof.
  intros Hp Hz Hg Hsz Hb Hck. destruct (has_block_data z Hz) as [Hd Hs].
  set (zc := zio_set_gang_verifier (io_bp z)).
  assert (verifier (io_bp z) = zc) as Ev by (unfold verifier; by rewrite Hg).
  assert (checksum_fn (io_bp z) = ZIO_CHECKSUM_GANG_HEADER) as Ef by (unfold checksum_fn; by rewrite Hg).
  unfold zio_gang_checksum_generate. rewrite Hg, (proj2 (Z.eqb_eq _ _)) by done. cbn [verify]. run. fold zc.
  destruct (tail_split _ Hd) as (body & m & c & E & Lm & Lc & Z1 & Z2 & _ & Hmb & Hcb). rewrite Hs in *. rewrite E in *.
  rewrite Z2, (app_assoc body m c), wr_cksum_tail, <- !app_assoc by done. run.
  destruct (block_retail body m c m (cksum_bytes be zc)) as [Hd' HL];
    [done|done|by rewrite cksum_bytes_len|done|apply cksum_bytes_bytes|].
  rewrite <- HL, checksum_in_tail by (done || apply cksum_bytes_len). run. eexists. split; [done|].
  destruct (set_data_data z (body ++ store be 8 ZBT_MAGIC ++ cksum_bytes be (hash ZIO_CHECKSUM_GANG_HEADER be
     (body ++ store be 8 ZBT_MAGIC ++ cksum_bytes be zc))) Hz) as (-> & -> & _);
    [rewrite E; rewrite !length_app, store_len, cksum_bytes_len; lia|].
  split; [done|]. split.
  { unfold zbt_off in Z1. rewrite HL, Z1, Nat2Z.id. by rewrite !take_app_length. }
  intros be' pad' inj z' Hp' Hbp' Hq. destruct (checked_fields be' _ _ Hbp') as (K1 & K2 & _ & K4).
  rewrite Ef in K1. rewrite <- K1. apply (tail_verifies be be' pad' inj z' body m zc); rewrite ?K1, ?K2; try done.
  - apply K4. split_and!; [done|done|]. by rewrite Hg.
  - by destruct Hbp' as (_ & _ & _ & -> & _).
  - unfold ZIO_GET_IOSIZE. rewrite Hg, HL. done.
Qed.

(** Labels: the verifier is the offset the label is written at. *)
Definition phys_ok (vd : vdev) (offset size : Z) : Prop :=
  vdev_children vd = 0 /\ size_ok size /\ offset `mod` 2 ^ 9 = 0 /\ 0 <= offset /\
  (offset + size <= VDEV_LABEL_START_SIZE \/ vdev_psize vd - VDEV_LABEL_END_SIZE <= offset) /\
  VDEV_LABEL_END_SIZE <= vdev_psize vd < 2 ^ 64 /\ offset + size <= vdev_psize vd.

Lemma phys_bp_init be vd offset size checksum :
  phys_ok vd offset size -> ZIO_CHECKSUM_OFF < checksum < ZIO_CHECKSUM_FUNCTIONS ->
  exists bp, zio_phys_bp_init be vd offset size checksum = Ok bp /\ BP_IS_GANG bp = false /\
    BP_GET_CHECKSUM bp = checksum /\ BP_GET_PSIZE bp = size /\ blk_cksum bp = ZC offset 0 0 0 /\ blk_birth bp = 0.
Proof.
  intros (Hch & Hsz & Hom & Ho & Hpl & Hps & Hend) Hc. pose proof Hsz as [Hsm Hsr].
  unfold zio_phys_bp_init. change SPA_MINBLOCKSIZE with (Z.shiftl 1 9). rewrite !SpaceMap.P2PHASE_mod by lia.
  assert (VDEV_LABEL_END_SIZE = 524288) as Eend by done.
  rewrite Hch, Hsm, Hom, (proj2 (Z.leb_le size SPA_MAXBLOCKSIZE)) by apply Hsr. cbn [verify Z.eqb]. run.
  change SPA_MAXBLOCKSIZE with 131072 in Hsr. rewrite !(wrap_small 64) by lia.
  rewrite (proj2 (orb_true_iff _ _)) by (rewrite !Z.leb_le; done). cbn [verify]. run.
  rewrite (proj2 (Z.leb_le _ _)) by done. cbn [verify]. run.
  rewrite (proj2 (Z.eqb_neq _ _)) by (unfold ZIO_CHECKSUM_OFF in *; lia). cbn [negb].
  eexists. split; [done|].
  set (bp0 := BP_SET_PSIZE (BP_SET_LSIZE BP_ZERO size) size).
  assert (forall b zc, BP_GET_CHECKSUM (set_cksum b zc) = BP_GET_CHECKSUM b /\ BP_GET_PSIZE (set_cksum b zc) = BP_GET_PSIZE b) as Hs by done.
  set (bp1 := BP_SET_COMPRESS (BP_SET_CHECKSUM bp0 checksum) 2).
  destruct (get_checksum_other bp1 (ZFS_HOST_BYTEORDER be)) as (_ & _ & _ & E1).
  destruct (get_checksum_other (BP_SET_CHECKSUM bp0 checksum) 2) as (_ & _ & E2 & _).
  destruct (get_psize_other bp1 (ZFS_HOST_BYTEORDER be)) as (_ & _ & _ & E3).
  destruct (get_psize_other (BP_SET_CHECKSUM bp0 checksum) 2) as (_ & E4 & _ & _).
  destruct (get_psize_other bp0 checksum) as (_ & _ & E5 & _).
  destruct (Hs (BP_SET_BYTEORDER bp1 (ZFS_HOST_BYTEORDER be)) (ZC offset 0 0 0)) as [-> ->].
  rewrite E1, E3. unfold bp1 at 2 3. rewrite E2, E4, E5, get_checksum_set
    by (change ZIO_CHECKSUM_OFF with 2 in *; change ZIO_CHECKSUM_FUNCTIONS with 9 in *; lia).
  unfold bp0. rewrite get_psize_set by done. done.
Qed.

(** Injection only ever answers the error it was asked about. *)
Lemma fault_loop_answer hs n rnd spa zb type error :
  fault_loop hs n rnd spa zb type error = None \/ fault_loop hs n rnd spa zb type error = Some error.
Proof. revert n. induction hs as [|h hs IH]; intros n; [by left|]. cbn. repeat step_if; auto. Qed.

Lemma fault_answer inj z error :
  zio_handle_fault_injection inj z error = None \/ zio_handle_fault_injection inj z error = Some error.
Proof.
  unfold zio_handle_fault_injection. destruct (io_logical z); [|by left]. case_decide; [by left|]. apply fault_loop_answer.
Qed.

(** What the comparison answers. *)
Lemma compare_answer inj z actual zc data :
  cksum_u64 actual -> cksum_u64 zc ->
  checksum_compare inj z actual zc data = (None, data) /\ actual = zc /\ quiet inj z \/
  checksum_compare inj z actual zc data = (Some ECKSUM, data) /\ (actual <> zc \/ ~ quiet inj z).
Proof.
  intros Ha Hz. unfold checksum_compare. destruct (ZIO_CHECKSUM_EQUAL actual zc) eqn:He; cbn [negb].
  2:{ right. split; [done|]. left. intros E%(cksum_equal_iff _ _ Ha Hz). congruence. }
  apply (cksum_equal_iff _ _ Ha Hz) in He. destruct (Z.eqb_spec (zio_injection_enabled inj) 0) as [E0|E0]; cbn [negb andb].
  { left. split_and!; [done|done|by left]. }
  case_bool_decide as Hio; [|left; split_and!; [done|done|by right; left]].
  destruct (fault_answer inj z ECKSUM) as [Hf|Hf]; rewrite Hf; [left; split_and!; [done|done|by right; right]|right].
  split; [done|]. right. intros [?|[?|?]]; [done|done|congruence].
Qed.

Lemma compare_exact inj z actual zc data (C : Prop) :
  cksum_u64 actual -> cksum_u64 zc -> C ->
  exists e, Ok (checksum_compare inj z actual zc data) = Ok (e, data) /\ (e = Some EINVAL <-> ~ C) /\
    (C -> (e = None <-> actual = zc /\ quiet inj z) /\ (e = Some ECKSUM <-> actual <> zc \/ ~ quiet inj z)).
Proof.
  intros Ha Hz HC. destruct (compare_answer inj z actual zc data Ha Hz) as [(-> & He & Hq)|(-> & Hd)]; (eexists; split; [done|]; split; [done|]).
  - intros _. split; [done|]. split; [done|]. intros [|]; done.
  - intros _. split; [|done]. split; [done|]. intros [? ?]. by destruct Hd.
Qed.

Lemma label_verifies be pad0 vd spa offset data checksum p :
  pad_ok pad0 -> block_ok data -> phys_ok vd offset (zlen data) -> checksum = ZIO_CHECKSUM_LABEL \/ checksum = ZIO_CHECKSUM_ZILOG ->
  exists zw z1, zio_write_phys be pad0 vd spa offset (zlen data) data checksum p = Ok zw /\
    zio_checksum_generate be pad0 zw = Ok z1 /\
    take (length data - 40) (io_data z1) = take (length data - 40) data /\
    forall be' pad0' inj buf p', pad_ok pad0' ->
      exists zr, zio_read_phys be' vd spa offset (zlen data) buf checksum p' = Ok zr /\
        zio_checksum_error be' pad0' inj zr (io_data z1) = Ok (None, io_data z1).
Proof.
  intros Hp Hd Hph Hck. set (zc := ZC offset 0 0 0).
  assert (ZIO_CHECKSUM_OFF < checksum < ZIO_CHECKSUM_FUNCTIONS /\ in_tail checksum = true /\ checksum <> ZIO_CHECKSUM_GANG_HEADER)
    as (Hc & Ht & Hng) by (destruct Hck as [-> | ->]; done).
  assert (cksum_u64 zc) as Hu.
  { destruct Hph as (_ & [_ ?] & _ & ? & _ & ? & ?). unfold cksum_u64, is_u64, zc. cbn [zc_word0 zc_word1 zc_word2 zc_word3]. lia. }
  assert (ZIO_CHECKSUM_OFF <= checksum < ZIO_CHECKSUM_FUNCTIONS) as Hc' by lia.
  destruct (phys_bp_init be vd offset (zlen data) checksum Hph Hc) as (bp & Ebp & G1 & G2 & G3 & G4 & G5).
  destruct (table_spec be pad0 checksum Hc' Hp) as (f0 & f1 & cor & name & Etab & _).
  destruct (tail_split _ Hd) as (body & m & c & E & Lm & Lc & Z1 & Z2 & _ & Hmb & Hcb).
  destruct (block_retail body m c m (cksum_bytes be zc)) as [Hd' HL];
    [by rewrite <- E|done|by rewrite cksum_bytes_len|done|apply cksum_bytes_bytes|]. rewrite <- E in HL.
  assert (wr_cksum be data (zlen (body ++ m)) zc = Ok (body ++ m ++ cksum_bytes be zc)) as Ew.
  { rewrite E, (app_assoc body m c), wr_cksum_tail, <- app_assoc by done. done. }
  unfold zio_write_phys. rewrite Ebp. run. rewrite Etab. cbn [ci_zbt]. rewrite Ht, Nat2Z.id, firstn_all, Z2.
  rewrite G4. fold zc. rewrite Ew. run.
  do 2 eexists. split; [done|]. unfold zio_checksum_generate.
  cbn [set_stack io_size io_data io_bp io_checksum io_transform_stack zt_size zt_data].
  rewrite G3, Z.eqb_refl. cbn [verify]. run. rewrite <- HL, Nat2Z.id, firstn_all, checksum_in_tail by (done || apply cksum_bytes_len). run.
  split; [done|].
  cbn [set_data set_bp set_stack io_data io_transform_stack zt_data zt_size].
  rewrite Nat2Z.id, take_app_length' by (rewrite !length_app, store_len, !cksum_bytes_len; lia).
  split; [|intros be' pad0' inj buf p' Hp'].
  { replace (length (body ++ m ++ cksum_bytes be zc) - 40)%nat with (length body)
      by (rewrite !length_app, cksum_bytes_len; lia). rewrite take_app_length, E. by rewrite take_app_length. }
  destruct (phys_bp_init be' vd offset (zlen data) checksum Hph Hc) as (bpr & Er & R1 & R2 & R3 & R4 & R5).
  unfold zio_read_phys. rewrite HL, Er. run. eexists. split; [done|].
  set (zr := MkZio _ _ _ _ _ _ _ _ _ _).
  assert (checksum_fn (io_bp zr) = checksum) as Ef by (unfold checksum_fn; cbn [zr io_bp]; by rewrite R1).
  rewrite <- Ef. apply (tail_verifies be be' pad0' inj zr body m zc); rewrite ?Ef; try done.
  - unfold bp_valid. cbn [zr io_bp]. rewrite R5, R4, R2. done.
  - unfold verifier. cbn [zr io_bp]. by rewrite R1.
  - unfold ZIO_GET_IOSIZE. cbn [zr io_bp]. by rewrite R1, R3, HL.
  - right. right. done.
Qed.

(** ** Properties *)

(** C36: a block checksummed by a host of either byte order is accepted by
    every reader, of either byte order, whatever the stack of its SHA-256
    routine holds, as long as no fault is injected; and the reader leaves the
    block as it is on disk.  This holds for blocks with the checksum in the
    block pointer and for log blocks ([zio_checksum_generate]), for gang
    headers, whose verifier is the identity of the block
    ([zio_gang_checksum_generate]), and for labels, whose verifier is the
    offset they are written at ([zio_write_phys], [zio_read_phys]); writing
    changes at most the 40-byte tail of the block. *)
Theorem checksum_any_host (be : bool) (pad0 : list Z) (z : zio) (vd : vdev) (offset checksum p : Z) :
  pad_ok pad0 -> has_block z -> is_u64 (blk_birth (io_bp z)) ->
  (ZIO_CHECKSUM_OFF <= io_checksum z < ZIO_CHECKSUM_FUNCTIONS -> io_checksum z <> ZIO_CHECKSUM_GANG_HEADER ->
   BP_IS_GANG (io_bp z) = false -> BP_GET_PSIZE (io_bp z) = io_size z ->
   exists z1, zio_checksum_generate be pad0 z = Ok z1 /\
     (in_tail (io_checksum z) = false -> io_data z1 = io_data z) /\
     verifies_anywhere (io_bp z1) (io_data z1)) /\
  (BP_IS_GANG (io_bp z) = true -> io_size z = SPA_GANGBLOCKSIZE -> cksum_u64 (blk_cksum (io_bp z)) ->
   exists z1, zio_gang_checksum_generate be pad0 z = Ok z1 /\
     take (Z.to_nat (io_size z - 40)) (io_data z1) = take (Z.to_nat (io_size z - 40)) (io_data z) /\
     verifies_anywhere (io_bp z1) (io_data z1)) /\
  (phys_ok vd offset (io_size z) -> checksum = ZIO_CHECKSUM_LABEL \/ checksum = ZIO_CHECKSUM_ZILOG ->
   exists zw z1, zio_write_phys be pad0 vd (io_spa z) offset (io_size z) (io_data z) checksum p = Ok zw /\
     zio_checksum_generate be pad0 zw = Ok z1 /\
     take (length (io_data z) - 40) (io_data z1) = take (length (io_data z) - 40) (io_data z) /\
     forall be' pad0' inj buf p', pad_ok pad0' ->
       exists zr, zio_read_phys be' vd (io_spa z) offset (io_size z) buf checksum p' = Ok zr /\
         zio_checksum_error be' pad0' inj zr (io_data z1) = Ok (None, io_data z1)).
Proof.
  intros Hp Hz Hb. destruct (has_block_data z Hz) as [Hd Hs]. split_and!.
  - intros Hc Hng Hg Hps. destruct (generate_verifies be pad0 z) as (z1 & E & _ & _ & H1 & _ & H2); [done..|].
    by exists z1.
  - intros Hg Hsz Hck. destruct (gang_verifies be pad0 z) as (z1 & E & _ & H1 & H2); [done..|]. by exists z1.
  - rewrite Hs. intros Hph Hck. by apply label_verifies.
Qed.

(** A 512-byte block of sevens, written with Fletcher-4, and the same buffer as
    the header of a gang block and as a label at 16K. *)
Definition ex_block : list Z := replicate 512 7.
Definition ex_bp : blkptr := BP_SET_PSIZE BP_ZERO 512.
Definition ex_gang_bp : blkptr := Bp [Dva 0 (2 ^ 63); Dva 0 0; Dva 0 0] 0 [0; 0; 0] 5 0 (ZC 0 0 0 0).
Definition ex_zio (bp : blkptr) : zio :=
  MkZio 0 None ZIO_TYPE_WRITE 5 bp ZIO_CHECKSUM_FLETCHER_4 0 [Zt ex_block 512 512] 0 None.
Definition ex_vdev : vdev := Vdev 0 (2 ^ 30).

Lemma ex_block_ok : block_ok ex_block.
Proof. split; [|by vm_compute]. apply Forall_replicate. done. Qed.
Lemma ex_has_block bp : has_block (ex_zio bp).
Proof. exists (Zt ex_block 512 512), []. split; [done|]. split; [apply ex_block_ok|]. by vm_compute. Qed.
Lemma ex_pad_ok : pad_ok (replicate 128 0).
Proof. split; [done|]. apply Forall_replicate. done. Qed.
Lemma ex_phys_ok : phys_ok ex_vdev 16384 512.
Proof. vm_compute. intuition discriminate. Qed.

Lemma checksum_any_host_witness :
  (exists z1, zio_checksum_generate true (replicate 128 0) (ex_zio ex_bp) = Ok z1 /\
     verifies_anywhere (io_bp z1) (io_data z1)) /\
  (exists z1, zio_gang_checksum_generate true (replicate 128 0) (ex_zio ex_gang_bp) = Ok z1 /\
     verifies_anywhere (io_bp z1) (io_data z1)) /\
  (exists zw, zio_write_phys true (replicate 128 0) ex_vdev 0 16384 512 ex_block ZIO_CHECKSUM_LABEL 0 = Ok zw).
Proof.
  split_and!.
  - destruct (checksum_any_host true (replicate 128 0) (ex_zio ex_bp) ex_vdev 16384 ZIO_CHECKSUM_LABEL 0
      ex_pad_ok (ex_has_block ex_bp)) as [H _]; [done|].
    destruct H as (z1 & E & _ & H); [by vm_compute..|exists z1; exact (conj E H)].
  - destruct (checksum_any_host true (replicate 128 0) (ex_zio ex_gang_bp) ex_vdev 16384 ZIO_CHECKSUM_LABEL 0
      ex_pad_ok (ex_has_block ex_gang_bp)) as (_ & H & _); [done|].
    destruct H as (z1 & E & _ & H); [by vm_compute..|exists z1; exact (conj E H)].
  - destruct (checksum_any_host true (replicate 128 0) (ex_zio ex_bp) ex_vdev 16384 ZIO_CHECKSUM_LABEL 0
      ex_pad_ok (ex_has_block ex_bp)) as (_ & _ & H); [done|].
    destruct H as (zw & z1 & E & _); [apply ex_phys_ok|by left|exists zw; exact E].
Defined.

(** C37: verification never damages the block it is given, although it
    overwrites the tail while it works: whatever bytes the block holds and
    whatever host it comes from, [zio_checksum_error] returns with the buffer
    unchanged.  It answers [EINVAL] exactly when the pointer names no checksum
    function.  Otherwise it answers success exactly when the checksum matches - the
    checksum of the block, with the verifier in place of the stored checksum
    for tail checksums, is the stored one, read in the byte order that the
    pointer or the magic word of the tail shows - and no fault is injected, and
    [ECKSUM] exactly when the checksum does not match or a fault is injected. *)
Theorem checksum_error_exact (be : bool) (pad0 : list Z) (inj : injector) (z : zio) (data : list Z) :
  pad_ok pad0 -> block_ok data -> bp_valid (io_bp z) -> ZIO_GET_IOSIZE (io_bp z) = zlen data ->
  let bp := io_bp z in
  let fn := checksum_fn bp in
  let n := Z.to_nat (zlen data - 40) in
  let tail_ord := if load be (take 8 (drop n data)) =? BSWAP_64 ZBT_MAGIC then negb be else be in
  let ptr_ord := if BP_SHOULD_BYTESWAP be bp then negb be else be in
  let computed :=
    if in_tail fn then hash fn tail_ord (take (n + 8) data ++ cksum_bytes tail_ord (verifier bp)) else hash fn ptr_ord data in
  let stored := if in_tail fn then cksum_of tail_ord (drop (n + 8) data) else blk_cksum bp in
  exists e, zio_checksum_error be pad0 inj z data = Ok (e, data) /\
    (e = Some EINVAL <-> ~ ZIO_CHECKSUM_OFF <= fn < ZIO_CHECKSUM_FUNCTIONS) /\
    (ZIO_CHECKSUM_OFF <= fn < ZIO_CHECKSUM_FUNCTIONS ->
     (e = None <-> computed = stored /\ quiet inj z) /\ (e = Some ECKSUM <-> computed <> stored \/ ~ quiet inj z)).
Proof.
  intros Hp Hd Hbp Hsz bp fn n tail_ord ptr_ord computed stored. subst computed stored.
  destruct (decide (ZIO_CHECKSUM_OFF <= fn < ZIO_CHECKSUM_FUNCTIONS)) as [Hc|Hc].
  2:{ exists (Some EINVAL). rewrite error_no_vector by (apply checksum_fn_range || done). by split_and!. }
  destruct (in_tail fn) eqn:Ht.
  - destruct (tail_split _ Hd) as (body & m & c & E & Lm & Lc & Z1 & Z2 & _ & Hmb & Hcb).
    assert (n = length body) as En by (unfold n, zbt_off in *; lia).
    unfold tail_ord. rewrite En, E, drop_app_length, take_app_length' by done.
    rewrite error_in_tail by (by rewrite <- ?E). fold bp fn. set (ord := if load be m =? _ then _ else _).
    rewrite (app_assoc body m c), take_app_length' by (rewrite length_app; lia).
    rewrite drop_app_length' by (rewrite length_app; lia). rewrite <- !app_assoc. rewrite <- E.
    apply compare_exact; [apply hash_u64|by apply cksum_bytes_of|done].
  - rewrite error_in_pointer by done. apply compare_exact; [apply hash_u64|apply Hbp|done].
Qed.

(** The block of sevens against a pointer that holds a zero checksum. *)
Definition ex_read_bp : blkptr := BP_SET_CHECKSUM ex_bp ZIO_CHECKSUM_FLETCHER_4.
Lemma ex_read_valid : bp_valid ex_read_bp /\ ZIO_GET_IOSIZE ex_read_bp = zlen ex_block.
Proof. split; [|by vm_compute]. split_and!; [done|done|by vm_compute]. Qed.

Lemma checksum_error_exact_witness :
  zio_checksum_error false (replicate 128 0) (Inj 0 [] (fun _ => 0)) (ex_zio ex_read_bp) ex_block = Ok (Some ECKSUM, ex_block).
Proof.
  destruct (checksum_error_exact false (replicate 128 0) (Inj 0 [] (fun _ => 0)) (ex_zio ex_read_bp) ex_block)
    as (e & E & _ & He).
  - apply ex_pad_ok.
  - apply ex_block_ok.
  - apply ex_read_valid.
  - apply ex_read_valid.
  - assert (e = Some ECKSUM) as He'; [|by rewrite E, He']. clear E.
    destruct He as [_ He]; [vm_compute; split; [discriminate|reflexivity]|]. apply He. left. vm_compute. discriminate.
Defined.

End ZioChecksum.
