(* ===== verification/MetaslabPool.v ===== *)
(** * Allocating blocks from a pool: metaslab classes and the entry points of metaslab.c

    A pool's root vdev has top-level vdevs as children; each has a metaslab group, and
    the groups of a class form a ring through [mg_prev] and [mg_next] into which the
    class's rotor points.  [metaslab_alloc] gives a block pointer up to three
    addresses (DVAs): it goes round the ring, asks each group for space at a distance
    from the addresses already given, lowers the distance and goes round again, and
    gives everything back if it cannot have all.  [metaslab_free] and
    [metaslab_claim] take a block pointer apart into ranges of vdevs.

    Groups and classes live in stores by address.  A vdev as MetaslabGroup knows it is
    put together from the vdev, its group and the pool, and taken apart again
    ([load_vdev], [store_vdev]). *)

From Stdlib Require Import List Permutation Sorted.
From stdpp Require Import base option numbers list gmap.
From S2P Require Import Prelude Bits OrdTree Avl SpaceMap SpaceMapDisk Mos Metaslab Blkptr Txg MetaslabTxg MetaslabGroup ZioChecksum.
Import SpaceMap SpaceMapDisk Metaslab Blkptr Txg MetaslabTxg MetaslabGroup.
Local Open Scope Z_scope.

Definition ENXIO : Z := 6.

Module MetaslabPool.
Section Pool.
Context {OT : OrdTree space_seg} {OM : OrdTree mnode} {DM : Mos}.
Variable zfs_recover : bool.

(** [struct metaslab_class]. *)
Record metaslab_class := Class { mc_rotor : option Z; mc_allocated : Z }.

(** [struct metaslab_group], without its lock; [mg_vd] is the vdev's number among
    the children of the root vdev. *)
Record metaslab_group := Group {
  mg_tree : ot mnode;
  mg_aliquot : Z;
  mg_bias : Z;
  mg_class : option Z;
  mg_vd : nat;
  mg_prev : option Z;
  mg_next : option Z
}.

(** A top-level vdev: the fields MetaslabTxg has, of which those of its group and of
    the pool are copies that are not read; its metaslabs, its group, the number of its
    children, and the function its type has for [vdev_op_asize]. *)
Record top := Top {
  t_vd : vdev;
  vdev_ms : list metaslab;
  vdev_mg : option Z;
  vdev_children : Z;
  vdev_op_asize : Z -> Z
}.

(** What the allocator uses of [spa_t].  The list of dirty vdevs and the counters of
    the root vdev are shared by all of them. *)
Record spa := Spa {
  vdev_child : list top;
  spa_meta_objset : objset;
  root_stat : vdev_stat;
  spa_vdev_list : txg_list;
  spa_vdev_nodes : store;
  spa_groups : gmap Z metaslab_group;
  spa_classes : gmap Z metaslab_class;
  spa_normal_class : Z;
  spa_freeze_txg : Z;
  spa_max_replication : Z
}.

Definition set_groups (p : spa) (gs : gmap Z metaslab_group) : spa :=
  Spa (vdev_child p) (spa_meta_objset p) (root_stat p) (spa_vdev_list p) (spa_vdev_nodes p) gs (spa_classes p)
    (spa_normal_class p) (spa_freeze_txg p) (spa_max_replication p).
Definition set_classes (p : spa) (cs : gmap Z metaslab_class) : spa :=
  Spa (vdev_child p) (spa_meta_objset p) (root_stat p) (spa_vdev_list p) (spa_vdev_nodes p) (spa_groups p) cs
    (spa_normal_class p) (spa_freeze_txg p) (spa_max_replication p).

(** Following a pointer to a group or a class. *)
Definition group_at (p : spa) (a : option Z) : outcome metaslab_group :=
  match a with
  | None => Err Fault
  | Some a => match spa_groups p !! a with Some g => Ok g | None => Err Fault end
  end.
Definition class_at (p : spa) (c : Z) : outcome metaslab_class :=
  match spa_classes p !! c with Some mc => Ok mc | None => Err Fault end.
Definition address (a : option Z) : outcome Z := match a with Some a => Ok a | None => Err Fault end.

(** ** Classes *)

Definition set_prev (g : metaslab_group) (a : option Z) : metaslab_group :=
  Group (mg_tree g) (mg_aliquot g) (mg_bias g) (mg_class g) (mg_vd g) a (mg_next g).
Definition set_next (g : metaslab_group) (a : option Z) : metaslab_group :=
  Group (mg_tree g) (mg_aliquot g) (mg_bias g) (mg_class g) (mg_vd g) (mg_prev g) a.
Definition set_mg_class (g : metaslab_group) (c : option Z) : metaslab_group :=
  Group (mg_tree g) (mg_aliquot g) (mg_bias g) c (mg_vd g) (mg_prev g) (mg_next g).
Definition set_mg_tree (g : metaslab_group) (t : ot mnode) : metaslab_group :=
  Group t (mg_aliquot g) (mg_bias g) (mg_class g) (mg_vd g) (mg_prev g) (mg_next g).

(** [a->field = v] for a group. *)
Definition update_group (p : spa) (a : Z) (f : metaslab_group -> metaslab_group) : outcome spa :=
  g ← group_at p (Some a); Ok (set_groups p (<[a := f g]> (spa_groups p))).

Definition metaslab_class_create (p : spa) (mc : Z) : spa := set_classes p (<[mc := Class None 0]> (spa_classes p)).

Definition set_rotor (p : spa) (mc : Z) (a : option Z) : outcome spa :=
  c ← class_at p mc; Ok (set_classes p (<[mc := Class a (mc_allocated c)]> (spa_classes p))).

Definition metaslab_class_add (p : spa) (mc mg : Z) : outcome spa :=
  g ← group_at p (Some mg);
  _ ← verify (bool_decide (mg_class g = None));
  c ← class_at p mc;
  p ← match mc_rotor c with
      | None => p ← update_group p mg (fun g => set_prev g (Some mg)); update_group p mg (fun g => set_next g (Some mg))
      | Some mgprev =>
          gprev ← group_at p (Some mgprev);
          mgnext ← address (mg_next gprev);
          p ← update_group p mg (fun g => set_prev g (Some mgprev));
          p ← update_group p mg (fun g => set_next g (Some mgnext));
          p ← update_group p mgprev (fun g => set_next g (Some mg));
          update_group p mgnext (fun g => set_prev g (Some mg))
      end;
  p ← set_rotor p mc (Some mg);
  update_group p mg (fun g => set_mg_class g (Some mc)).

Definition metaslab_class_remove (p : spa) (mc mg : Z) : outcome spa :=
  g ← group_at p (Some mg);
  _ ← verify (bool_decide (mg_class g = Some mc));
  p ← (if bool_decide (mg_next g = Some mg) then set_rotor p mc None
       else
         mgprev ← address (mg_prev g);
         mgnext ← address (mg_next g);
         p ← set_rotor p mc (Some mgnext);
         p ← update_group p mgprev (fun g => set_next g (Some mgnext));
         update_group p mgnext (fun g => set_prev g (Some mgprev)));
  p ← update_group p mg (fun g => set_prev g None);
  p ← update_group p mg (fun g => set_next g None);
  update_group p mg (fun g => set_mg_class g None).

Definition metaslab_aliquot : Z := Z.shiftl 512 10.

(** [mg] is the address [kmem_zalloc] returned for the group. *)
Definition metaslab_group_create (p : spa) (mc mg : Z) (i : nat) : outcome spa :=
  t ← get (vdev_child p) i;
  let g := Group ot_empty (u64 (metaslab_aliquot * Z.max 1 (vdev_children t))) 0 None i None None in
  metaslab_class_add (set_groups p (<[mg := g]> (spa_groups p))) mc mg.

(** [avl_destroy] asserts that the tree is empty. *)
Definition metaslab_group_destroy (p : spa) (mg : Z) : outcome spa :=
  g ← group_at p (Some mg);
  _ ← verify (ot_numnodes (mg_tree g) =? 0);
  Ok (set_groups p (delete mg (spa_groups p))).

Definition class_destroy_round (mc : Z) (p : spa) : outcome (spa + spa) :=
  c ← class_at p mc;
  match mc_rotor c with
  | None => Ok (inr (set_classes p (delete mc (spa_classes p))))
  | Some mg => p ← metaslab_class_remove p mc mg; p ← metaslab_group_destroy p mg; Ok (inl p)
  end.

(** Every round takes a group out of the store. *)
Definition metaslab_class_destroy (p : spa) (mc : Z) : outcome spa :=
  iter (S (size (spa_groups p))) (class_destroy_round mc) p.

(** ** Vdevs and their groups *)

(** The vdev with what its group and the pool have of it. *)
Definition load_vdev (p : spa) (t : top) (g : metaslab_group) : vdev :=
  let vd := t_vd t in
  Vdev (vdev_addr vd) (vdev_id vd) (vdev_ashift vd) (vdev_asize vd) (vdev_ms_shift vd) (vdev_ms_count vd)
    (vdev_ms_array vd) (vdev_deflate_ratio vd) (vd_stat vd) (root_stat p)
    (bool_decide (mg_class g = Some (spa_normal_class p))) (mg_tree g)
    (vdev_ms_list vd) (ms_txg_nodes vd) (spa_vdev_list p) (spa_vdev_nodes p) (vdev_dirty_node vd).

Definition set_top (t : top) (vd : vdev) (ms : list metaslab) : top :=
  Top vd ms (vdev_mg t) (vdev_children t) (vdev_op_asize t).

Definition store_vdev (p : spa) (i : nat) (t : top) (mg : Z) (g : metaslab_group) (vd : vdev) (ms : list metaslab) : spa :=
  Spa (<[i := set_top t vd ms]> (vdev_child p)) (spa_meta_objset p) (rvd_stat vd) (spa_vdev_txg_list vd) (vdev_txg_nodes vd)
    (<[mg := set_mg_tree g (mg_metaslab_tree vd)]> (spa_groups p)) (spa_classes p)
    (spa_normal_class p) (spa_freeze_txg p) (spa_max_replication p).

(** An operation on vdev number [i], its group and its metaslabs. *)
Definition on_vdev {R : Type} (p : spa) (i : nat) (mg : option Z)
    (f : vdev -> list metaslab -> outcome (vdev * list metaslab * R)) : outcome (spa * R) :=
  t ← get (vdev_child p) i;
  mg ← address mg;
  g ← group_at p (Some mg);
  '(vd, ms, r) ← f (load_vdev p t g) (vdev_ms t);
  Ok (store_vdev p i t mg g vd ms, r).

Definition vdev_lookup_top (p : spa) (vdev : Z) : option top :=
  if vdev <? zlen (vdev_child p) then vdev_child p !! Z.to_nat vdev else None.

(** [vdev_default_asize] of a vdev without children. *)
Definition vdev_default_asize (ashift psize : Z) : Z := P2ROUNDUP psize (Z.shiftl 1 ashift).

(** ** Freeing and claiming *)

(** The size of a block: gang blocks have that of their header. *)
Definition dva_size (t : top) (d : dva) : Z :=
  if negb (DVA_GET_GANG d =? 0) then vdev_op_asize t ZioChecksum.SPA_GANGBLOCKSIZE else DVA_GET_ASIZE d.

Definition metaslab_free_dva (p : spa) (d : dva) (txg : Z) (now : bool) : outcome spa :=
  let offset := DVA_GET_OFFSET d in
  _ ← verify (DVA_IS_VALID d);
  if spa_freeze_txg p <? txg then Ok p
  else match vdev_lookup_top p (DVA_GET_VDEV d) with
       | None => Err Panic
       | Some t =>
           if vdev_ms_count (t_vd t) <=? Z.shiftr offset (vdev_ms_shift (t_vd t)) then Err Panic
           else
             '(p, _) ← on_vdev p (Z.to_nat (DVA_GET_VDEV d)) (vdev_mg t) (fun vd ms =>
                         '(vd, ms) ← group_free zfs_recover vd ms offset (dva_size t d) txg now; Ok (vd, ms, tt));
             Ok p
       end.

(** The result is 0 or an error number. *)
Definition metaslab_claim_dva (p : spa) (d : dva) (txg : Z) : outcome (spa * Z) :=
  let offset := DVA_GET_OFFSET d in
  _ ← verify (DVA_IS_VALID d);
  match vdev_lookup_top p (DVA_GET_VDEV d) with
  | None => Ok (p, ENXIO)
  | Some t =>
      if vdev_ms_count (t_vd t) <=? Z.shiftr offset (vdev_ms_shift (t_vd t)) then Ok (p, ENXIO)
      else
        on_vdev p (Z.to_nat (DVA_GET_VDEV d)) (vdev_mg t) (fun vd ms =>
          '(vd, ms) ← group_claim zfs_recover vd (spa_meta_objset p) ms offset (dva_size t d) txg; Ok (vd, ms, 0))
  end.

Fixpoint free_loop (p : spa) (dvas : list dva) (txg : Z) (now : bool) : outcome spa :=
  match dvas with
  | [] => Ok p
  | d :: dvas' => p ← metaslab_free_dva p d txg now; free_loop p dvas' txg now
  end.

Definition metaslab_free (p : spa) (bp : blkptr) (txg : Z) (now : bool) : outcome spa :=
  let ndvas := BP_GET_NDVAS bp in
  _ ← verify (negb (BP_IS_HOLE bp));
  free_loop p (take ndvas (blk_dva bp)) txg now.

Fixpoint claim_loop (p : spa) (dvas : list dva) (txg last_error : Z) : outcome (spa * Z) :=
  match dvas with
  | [] => Ok (p, last_error)
  | d :: dvas' =>
      '(p, error) ← metaslab_claim_dva p d txg;
      claim_loop p dvas' txg (if negb (error =? 0) then error else last_error)
  end.

Definition metaslab_claim (p : spa) (bp : blkptr) (txg : Z) : outcome (spa * Z) :=
  let ndvas := BP_GET_NDVAS bp in
  _ ← verify (negb (BP_IS_HOLE bp));
  claim_loop p (take ndvas (blk_dva bp)) txg 0.

(** ** Allocating *)







Definition dva_set (d : dva) (vdev offset asize : Z) : dva :=
  DVA_SET_ASIZE (DVA_SET_GANG (DVA_SET_OFFSET (DVA_SET_VDEV d vdev) offset) 0) asize.







(** ** Rings

    The links of a group by its address. *)
Definition cls (gs : gmap Z metaslab_group) (x : Z) : option Z := gs !! x ≫= mg_class.
Definition nxt (gs : gmap Z metaslab_group) (x : Z) : option Z := gs !! x ≫= mg_next.
Definition prv (gs : gmap Z metaslab_group) (x : Z) : option Z := gs !! x ≫= mg_prev.

Definition link (gs : gmap Z metaslab_group) (x y : Z) : Prop := nxt gs x = Some y /\ prv gs y = Some x.
Fixpoint linked (gs : gmap Z metaslab_group) (x : Z) (l : list Z) : Prop :=
  match l with [] => True | y :: l' => link gs x y /\ linked gs y l' end.
Definition ring (gs : gmap Z metaslab_group) (l : list Z) : Prop :=
  match l with [] => True | a :: l' => linked gs a (l' ++ [a]) end.

(** The groups of a class, from the rotor on. *)
Record class_ok (p : spa) (mc : Z) (l : list Z) : Prop := {
  r_class : exists n, spa_classes p !! mc = Some (Class (head l) n);
  r_ring : ring (spa_groups p) l;
  r_nodup : NoDup l;
  r_members a : a ∈ l <-> cls (spa_groups p) a = Some mc
}.

Lemma linked_app gs x l1 y l2 : linked gs x (l1 ++ y :: l2) <-> linked gs x (l1 ++ [y]) /\ linked gs y l2.
Proof. revert x. induction l1 as [|z l1 IH]; intros x; cbn; [tauto|]. rewrite IH. tauto. Qed.

Lemma ring_rotate gs l1 a l2 : ring gs (l1 ++ a :: l2) <-> ring gs (a :: l2 ++ l1).
Proof.
  destruct l1 as [|b l1]; [by rewrite app_nil_r|]. cbn [ring app]. rewrite <- !app_assoc. cbn [app].
  rewrite (linked_app gs b l1 a (l2 ++ [b])), (linked_app gs a l2 b (l1 ++ [a])). tauto.
Qed.

Lemma linked_ext gs gs' x l :
  linked gs x l -> (forall a, a ∈ x :: removelast l -> nxt gs' a = nxt gs a) -> (forall b, b ∈ l -> prv gs' b = prv gs b) -> linked gs' x l.
Proof.
  revert x. induction l as [|y l IH]; intros x; cbn; [done|]. intros [[H1 H2] H3] Ha Hb. split.
  - split; [rewrite Ha by (left; done)|rewrite Hb by (left; done)]; done.
  - destruct l as [|z l]; [done|]. apply IH; [done| |].
    + intros a Hin. apply Ha. by right.
    + intros b Hin. apply Hb. by right.
Qed.

Lemma rotated {A} (l1 : list A) a l2 : Permutation (l1 ++ a :: l2) (a :: l2 ++ l1).
Proof. rewrite <- Permutation_middle. by rewrite (Permutation_app_comm l1). Qed.


(** *** Setting a link *)

Lemma group_lookup p a g : spa_groups p !! a = Some g -> group_at p (Some a) = Ok g.
Proof. intros E. cbn. by rewrite E. Qed.
Lemma update_group_ok p a f :
  is_Some (spa_groups p !! a) -> update_group p a f = Ok (set_groups p (alter f a (spa_groups p))).
Proof.
  intros [g E]. unfold update_group. rewrite (group_lookup _ _ _ E). run. do 2 f_equal.
  apply map_eq. intros b. destruct (decide (a = b)) as [<-|Hne].
  - by rewrite lookup_insert_eq, lookup_alter_eq, E.
  - by rewrite lookup_insert_ne, lookup_alter_ne.
Qed.
Lemma alter_some (gs : gmap Z metaslab_group) f a b : is_Some (gs !! b) -> is_Some (alter f a gs !! b).
Proof. intros H. destruct (decide (a = b)) as [->|Hne]; [rewrite lookup_alter_eq|by rewrite lookup_alter_ne]. destruct H as [g ->]. by eexists. Qed.

Lemma set_rotor_ok p mc a c :
  spa_classes p !! mc = Some c -> set_rotor p mc a = Ok (set_classes p (<[mc := Class a (mc_allocated c)]> (spa_classes p))).
Proof. intros E. unfold set_rotor, class_at. by rewrite E. Qed.

Section Setters.
Variables (gs : gmap Z metaslab_group) (i : Z) (v : option Z).

Lemma field_alter {A} (F : metaslab_group -> option A) f x :
  (alter f i gs !! x) ≫= F = if decide (x = i) then (gs !! x) ≫= (fun g => F (f g)) else (gs !! x) ≫= F.
Proof.
  destruct (decide (x = i)) as [->|Hne]; [rewrite lookup_alter_eq; by destruct (gs !! i)|by rewrite lookup_alter_ne].
Qed.
Lemma field_same {A} (F : metaslab_group -> option A) f x :
  (forall g, F (f g) = F g) -> (alter f i gs !! x) ≫= F = (gs !! x) ≫= F.
Proof. intros H. rewrite field_alter. destruct (decide (x = i)); [|done]. destruct (gs !! x); [apply H|done]. Qed.

Hypothesis Hi : is_Some (gs !! i).
Lemma field_set (F : metaslab_group -> option Z) f x :
  (forall g, F (f g) = v) -> (alter f i gs !! x) ≫= F = if decide (x = i) then v else (gs !! x) ≫= F.
Proof. intros H. rewrite field_alter. destruct (decide (x = i)) as [->|]; [|done]. destruct Hi as [g ->]. apply H. Qed.

Lemma nxt_next x : nxt (alter (fun g => set_next g v) i gs) x = if decide (x = i) then v else nxt gs x.
Proof. by apply field_set. Qed.
Lemma nxt_prev x : nxt (alter (fun g => set_prev g v) i gs) x = nxt gs x.
Proof. by apply field_same. Qed.
Lemma nxt_class x : nxt (alter (fun g => set_mg_class g v) i gs) x = nxt gs x.
Proof. by apply field_same. Qed.
Lemma prv_next x : prv (alter (fun g => set_next g v) i gs) x = prv gs x.
Proof. by apply field_same. Qed.
Lemma prv_prev x : prv (alter (fun g => set_prev g v) i gs) x = if decide (x = i) then v else prv gs x.
Proof. by apply field_set. Qed.
Lemma prv_class x : prv (alter (fun g => set_mg_class g v) i gs) x = prv gs x.
Proof. by apply field_same. Qed.
Lemma cls_next x : cls (alter (fun g => set_next g v) i gs) x = cls gs x.
Proof. by apply field_same. Qed.
Lemma cls_prev x : cls (alter (fun g => set_prev g v) i gs) x = cls gs x.
Proof. by apply field_same. Qed.
Lemma cls_class x : cls (alter (fun g => set_mg_class g v) i gs) x = if decide (x = i) then v else cls gs x.
Proof. by apply field_set. Qed.
End Setters.

Ltac present := cbn [spa_groups set_groups set_classes]; repeat apply alter_some; eauto.
Ltac fields := cbn [spa_groups set_groups set_classes]; repeat first
  [rewrite nxt_prev|rewrite nxt_class|rewrite prv_next|rewrite prv_class|rewrite cls_next|rewrite cls_prev
  |rewrite nxt_next by present|rewrite prv_prev by present|rewrite cls_class by present].

(** What belongs to a group itself. *)
Definition own (g : metaslab_group) : ot mnode * nat * Z * Z := (mg_tree g, mg_vd g, mg_aliquot g, mg_bias g).
Lemma own_alter (gs : gmap Z metaslab_group) f i : (forall g, own (f g) = own g) -> own <$> alter f i gs = own <$> gs.
Proof.
  intros H. apply map_eq. intros x. rewrite !lookup_fmap. destruct (decide (i = x)) as [->|Hne].
  - rewrite lookup_alter_eq. destruct (gs !! x) as [g|]; [|done]. cbn. by rewrite H.
  - by rewrite lookup_alter_ne.
Qed.
Ltac owns := cbn [spa_groups set_groups set_classes]; repeat (rewrite own_alter by done); done.

Lemma nxt_some gs x y : nxt gs x = Some y -> is_Some (gs !! x).
Proof. unfold nxt. destruct (gs !! x); [eauto|done]. Qed.
Lemma prv_some gs x y : prv gs x = Some y -> is_Some (gs !! x).
Proof. unfold prv. destruct (gs !! x); [eauto|done]. Qed.
Lemma cls_some gs x y : cls gs x = Some y -> is_Some (gs !! x).
Proof. unfold cls. destruct (gs !! x); [eauto|done]. Qed.

Lemma ring_next gs a l : ring gs (a :: l) -> link gs a (List.hd a l).
Proof. destruct l as [|b l]; cbn; tauto. Qed.

Lemma groups_twice p gs gs' : set_groups (set_groups p gs) gs' = set_groups p gs'.
Proof. done. Qed.
Lemma classes_groups p cs gs : set_groups (set_classes p cs) gs = set_classes (set_groups p gs) cs.
Proof. done. Qed.
Lemma groups_get p gs : spa_groups (set_groups p gs) = gs.
Proof. done. Qed.
Lemma groups_of_classes p cs : spa_groups (set_classes p cs) = spa_groups p.
Proof. done. Qed.
Lemma classes_of_groups p gs : spa_classes (set_groups p gs) = spa_classes p.
Proof. done. Qed.
Ltac tidy := rewrite ?classes_groups, ?groups_twice, ?groups_of_classes, ?groups_get, ?classes_of_groups.

(** Linking in a group after the rotor [r], before [m]. *)
Lemma class_add_links p mc a ga c r m :
  spa_groups p !! a = Some ga -> mg_class ga = None -> spa_classes p !! mc = Some c ->
  match mc_rotor c with None => r = a /\ m = a | Some r' => r' = r /\ link (spa_groups p) r m end ->
  exists gs', metaslab_class_add p mc a = Ok (set_classes (set_groups p gs') (<[mc := Class (Some a) (mc_allocated c)]> (spa_classes p))) /\
    (forall x, cls gs' x = if decide (x = a) then Some mc else cls (spa_groups p) x) /\
    (forall x, nxt gs' x = if decide (x = r) then Some a else if decide (x = a) then Some m else nxt (spa_groups p) x) /\
    (forall x, prv gs' x = if decide (x = m) then Some a else if decide (x = a) then Some r else prv (spa_groups p) x) /\
    own <$> gs' = own <$> spa_groups p.
Proof.
  intros Ea Ec Hc Hr. unfold metaslab_class_add, class_at. rewrite (group_lookup _ _ _ Ea), Hc. run. rewrite Ec. cbn [bool_decide verify]. run.
  destruct (mc_rotor c) as [r'|] eqn:Ero.
  - destruct Hr as [-> [Hn Hp]]. destruct (nxt_some _ _ _ Hn) as [gr Er]. pose proof (prv_some _ _ _ Hp) as Hm. rewrite (group_lookup _ _ _ Er). run.
    assert (mg_next gr = Some m) as -> by (unfold nxt in Hn; by rewrite Er in Hn). cbn [address]. run.
    repeat (rewrite update_group_ok by present; run). rewrite (set_rotor_ok _ mc (Some a) c) by exact Hc. run. rewrite update_group_ok by present. tidy.
    eexists. split; [reflexivity|]. split_and!; [intros x; by fields..|owns].
  - destruct Hr as [-> ->]. repeat (rewrite update_group_ok by present; run). rewrite (set_rotor_ok _ mc (Some a) c) by exact Hc. run.
    rewrite update_group_ok by present. tidy.
    eexists. split; [reflexivity|]. split_and!; [intros x; fields; try done..|owns]; by destruct (decide (x = a)).
Qed.

Lemma removelast_snoc {A} (l : list A) x : removelast (l ++ [x]) = l.
Proof. by rewrite removelast_app, app_nil_r. Qed.

(** A class whose groups were left alone. *)
Lemma class_frame p p' mc l :
  class_ok p mc l -> spa_classes p' !! mc = spa_classes p !! mc ->
  (forall x, x ∈ l -> nxt (spa_groups p') x = nxt (spa_groups p) x /\ prv (spa_groups p') x = prv (spa_groups p) x) ->
  (forall x, cls (spa_groups p') x = Some mc <-> cls (spa_groups p) x = Some mc) -> class_ok p' mc l.
Proof.
  intros [H1 H2 H3 H4] Ec Hx Hc. split; [by rewrite Ec| |done|by intros a; rewrite Hc].
  destruct l as [|a l]; [done|]. cbn [ring] in *. eapply linked_ext; [done|..]; intros x Hin; apply Hx; rewrite ?removelast_snoc in Hin; set_solver.
Qed.

(** Adding a group to a class puts it after the rotor, and the rotor on it. *)
Lemma class_add_spec p mc l a ga :
  class_ok p mc l -> spa_groups p !! a = Some ga -> mg_class ga = None ->
  exists p', metaslab_class_add p mc a = Ok p' /\ class_ok p' mc (a :: List.tl l ++ take 1 l) /\ own <$> spa_groups p' = own <$> spa_groups p /\
    forall mc' l', mc' <> mc -> class_ok p mc' l' -> class_ok p' mc' l'.
Proof.
  intros [[n Hc] Hr Hn Hm] Ea Ec. assert (a ∉ l) as Hal. { rewrite Hm. unfold cls. rewrite Ea. cbn. by rewrite Ec. }
  destruct (class_add_links p mc a ga _ (List.hd a l) (List.hd (List.hd a l) (List.tl l)) Ea Ec Hc) as (gs' & -> & H1 & H2 & H3 & H4).
  { destruct l as [|r l]; [done|]. split; [done|]. by apply ring_next. }
  eexists. split; [done|]. split; [|split; [done|]].
  2: { intros mc' l' Hne K. eapply class_frame; [done|by cbn; rewrite lookup_insert_ne|..]; cbn [spa_groups set_classes set_groups].
    - intros x Hx. rewrite H2, H3. apply K in Hx. assert (x ∉ l) as Hxl by (rewrite Hm; congruence).
      assert (x <> a) by (intros ->; unfold cls in Hx; rewrite Ea in Hx; cbn in Hx; congruence).
      rewrite !(decide_False (P := x = a)) by done. destruct l as [|r [|m l]]; cbn [List.hd List.tl]; rewrite ?decide_False by set_solver; done.
    - intros x. rewrite H1. destruct (decide (x = a)) as [->|]; [|done]. unfold cls. rewrite Ea. cbn. rewrite Ec. split; congruence. }
  split; cbn [spa_classes set_classes set_groups spa_groups head].
  - exists n. by rewrite lookup_insert_eq.
  - destruct l as [|r [|m l]]; cbn [List.hd List.tl take app ring linked] in *; unfold link; rewrite ?H2, ?H3.
    + split_and!; repeat case_decide; done || congruence.
    + assert (a <> r) by set_solver. split_and!; repeat case_decide; done || congruence.
    + apply NoDup_cons in Hn as [Hn1 [Hn2 Hn3]%NoDup_cons]. assert (a <> r /\ a <> m /\ r <> m) as (? & ? & ?) by set_solver. split.
      * split_and!; repeat case_decide; done || congruence.
      * rewrite <- app_assoc. apply (linked_app gs' m l r [a]). split.
        -- destruct Hr as [_ Hr]. eapply linked_ext; [exact Hr|..]; intros x Hx; rewrite ?H2, ?H3, !decide_False; try done; rewrite ?removelast_snoc in Hx; set_solver.
        -- cbn. unfold link. rewrite H2, H3. split_and!; repeat case_decide; done || congruence.
  - apply NoDup_cons. split; [destruct l; set_solver|]. destruct l as [|r l]; [constructor|]. cbn [List.tl take].
    by apply (NoDup_Permutation_proper _ _ (Permutation_cons_append l r)).
  - intros x. rewrite H1. destruct (decide (x = a)) as [->|Hx]; [split; [done|set_solver]|]. rewrite <- Hm. destruct l; set_solver.
Qed.

(** Unlinking a group between [r] and [m]. *)
Lemma class_remove_links p mc a c r m :
  cls (spa_groups p) a = Some mc -> spa_classes p !! mc = Some c -> link (spa_groups p) r a -> link (spa_groups p) a m ->
  exists gs', metaslab_class_remove p mc a =
      Ok (set_classes (set_groups p gs') (<[mc := Class (if decide (m = a) then None else Some m) (mc_allocated c)]> (spa_classes p))) /\
    (forall x, cls gs' x = if decide (x = a) then None else cls (spa_groups p) x) /\
    (forall x, x <> a -> nxt gs' x = if decide (x = r) then Some m else nxt (spa_groups p) x) /\
    (forall x, x <> a -> prv gs' x = if decide (x = m) then Some r else prv (spa_groups p) x) /\
    own <$> gs' = own <$> spa_groups p.
Proof.
  intros Ha Hc [L1 L2] [L3 L4]. destruct (cls_some _ _ _ Ha) as [ga Ea]. unfold metaslab_class_remove. rewrite (group_lookup _ _ _ Ea). run.
  assert (mg_class ga = Some mc /\ mg_next ga = Some m /\ mg_prev ga = Some r) as (-> & -> & ->).
  { unfold cls, nxt, prv in *. rewrite Ea in Ha, L2, L3. by split_and!. }
  pose proof (nxt_some _ _ _ L1) as Hr. pose proof (prv_some _ _ _ L4) as Hm.
  rewrite (bool_decide_eq_true_2 (Some mc = Some mc) eq_refl). cbn [verify]. run. destruct (decide (m = a)) as [->|Hne].
  - rewrite bool_decide_true by done. rewrite (set_rotor_ok _ mc None c) by done. run.
    repeat (rewrite update_group_ok by present; run). tidy. eexists. split; [reflexivity|].
    assert (r = a) as -> by congruence.
    split_and!; [intros x..|owns]; fields; [done|intros Hx; by rewrite !decide_False by done..].
  - rewrite bool_decide_false by congruence. cbn [address]. run. rewrite (set_rotor_ok _ mc (Some m) c) by done. run.
    repeat (rewrite update_group_ok by present; run). tidy. eexists. split; [reflexivity|].
    split_and!; [intros x..|owns]; fields; [done|intros Hx; by rewrite !(decide_False (P := x = a)) by done..].
Qed.

Lemma ring_prev gs a l r : ring gs (a :: l ++ [r]) -> link gs r a.
Proof. cbn [ring]. rewrite <- app_assoc. intros H. apply (linked_app gs a l r [a]) in H as [_ [H _]]. done. Qed.

(** Removing a group takes it out of the ring, and the rotor to the group after it. *)
Lemma class_remove_spec p mc l1 a l2 :
  class_ok p mc (l1 ++ a :: l2) ->
  exists p', metaslab_class_remove p mc a = Ok p' /\ class_ok p' mc (l2 ++ l1) /\ own <$> spa_groups p' = own <$> spa_groups p /\
    cls (spa_groups p') a = None /\ forall mc' l', mc' <> mc -> class_ok p mc' l' -> class_ok p' mc' l'.
Proof.
  intros [[n Hc] Hr Hn Hm]. rewrite ring_rotate in Hr. pose proof (proj1 (NoDup_Permutation_proper _ _ (rotated l1 a l2)) Hn) as Hn'.
  assert (forall x, x ∈ a :: l2 ++ l1 <-> cls (spa_groups p) x = Some mc) as Hm'.
  { intros x. rewrite <- Hm. apply elem_of_Permutation_proper. symmetry. apply rotated. }
  clear Hm Hn. revert Hr Hm' Hn'. generalize (l2 ++ l1) as q. intros q Hr Hm Hn. apply NoDup_cons in Hn as [Hn1 Hn2].
  assert (exists r m, link (spa_groups p) r a /\ link (spa_groups p) a m /\ m = List.hd a q /\ r = List.last q a) as (r & m & Lr & Lm & Em & El).
  { exists (List.last q a), (List.hd a q). split_and!; try done; [|by apply ring_next].
    destruct q as [|z q] using rev_ind; [by apply ring_next in Hr|]. rewrite List.last_last. by eapply ring_prev. }
  destruct (class_remove_links p mc a _ r m ltac:(by apply Hm; left) Hc Lr Lm) as (gs' & -> & H1 & H2 & H3 & H4).
  eexists. split; [done|]. split; [|split; [done|split; [cbn; by rewrite H1, decide_True|]]].
  2: { intros mc' l' Hne K. eapply class_frame; [done|by cbn; rewrite lookup_insert_ne|..]; cbn [spa_groups set_classes set_groups].
    - intros x Hx. apply K in Hx. assert (x ∉ a :: q) as Hxq by (rewrite Hm; congruence). assert (x <> a) by set_solver.
      rewrite H2, H3, !decide_False; try done; intros ->; destruct Hxq; [rewrite Em; destruct q; set_solver|].
      rewrite El. destruct q as [|z q _] using rev_ind; [by left|]. rewrite List.last_last. set_solver.
    - intros x. rewrite H1. destruct (decide (x = a)) as [->|]; [|done]. pose proof (proj1 (Hm a) ltac:(by left)). split; congruence. }
  split; cbn [spa_classes set_classes set_groups spa_groups].
  - exists n. rewrite lookup_insert_eq. do 2 f_equal. rewrite Em. destruct q as [|m' q]; cbn; [by rewrite decide_True|]. rewrite decide_False by set_solver. done.
  - destruct q as [|m' q]; [done|]. cbn [List.hd] in Em. subst m'. assert (m <> a) as Hma by set_solver. cbn [ring].
    apply NoDup_cons in Hn2 as [Hn2 Hn3]. destruct q as [|r' q _] using rev_ind.
    + cbn [List.last] in El. subst r. cbn. unfold link. rewrite H2, H3, !decide_True by done. done.
    + assert (r = r') as <-. { rewrite El. change (m :: q ++ [r']) with ((m :: q) ++ [r']). by rewrite List.last_last. }
      rewrite <- app_assoc. apply (linked_app gs' m q r [m]). cbn [ring app linked] in Hr. destruct Hr as [_ Hr].
      rewrite <- app_assoc in Hr. apply (linked_app _ m q r [a]) in Hr as [Hr _]. assert (r <> a) by set_solver. apply NoDup_app in Hn3 as (_ & Hq & _). split.
      * eapply linked_ext; [exact Hr|..]; intros x Hx; rewrite ?removelast_snoc in Hx.
        -- assert (x <> a) by set_solver. rewrite H2, decide_False; set_solver.
        -- assert (x <> a) by set_solver. rewrite H3, decide_False; set_solver.
      * cbn. unfold link. by rewrite H2, H3, !decide_True by done.
  - done.
  - intros x. rewrite H1. destruct (decide (x = a)) as [->|Hx]; [split; [done|by intros [=]]|]. rewrite <- Hm. set_solver.
Qed.

Lemma own_lookup (gs gs' : gmap Z metaslab_group) a g' :
  own <$> gs' = own <$> gs -> gs' !! a = Some g' -> exists g, gs !! a = Some g /\ own g' = own g.
Proof.
  intros E H. apply (f_equal (lookup a)) in E. rewrite !lookup_fmap, H in E. destruct (gs !! a) as [g|]; [|done]. exists g. split; [done|]. cbn [fmap option_fmap option_map] in E. by apply (inj Some) in E.
Qed.
Lemma own_dom (gs gs' : gmap Z metaslab_group) : own <$> gs' = own <$> gs -> dom gs' = dom gs.
Proof. intros E. rewrite <- (dom_fmap_L own gs), <- E. by rewrite dom_fmap_L. Qed.

Lemma ring_size p mc l : class_ok p mc l -> (length l <= size (spa_groups p))%nat.
Proof.
  intros [_ _ Hn Hm]. rewrite <- size_dom, <- (size_list_to_set (C := gset Z) l) by done. apply subseteq_size.
  intros x Hx. apply elem_of_list_to_set, Hm, cls_some in Hx. by apply elem_of_dom.
Qed.

Lemma group_deleted p a mc l :
  class_ok p mc l -> cls (spa_groups p) a = None -> class_ok (set_groups p (delete a (spa_groups p))) mc l.
Proof.
  intros K Ha. assert (a ∉ l) as Hal by (rewrite (r_members _ _ _ K); congruence). eapply class_frame; [done|done|..]; cbn [spa_groups set_groups].
  - intros x Hx. unfold nxt, prv. rewrite lookup_delete_ne; [done|]. intros ->. done.
  - intros x. unfold cls in *. destruct (decide (a = x)) as [->|Hne]; [|by rewrite lookup_delete_ne]. rewrite lookup_delete_eq, Ha. done.
Qed.

(** Destroying a class destroys its groups, which must be empty, and only those. *)
Lemma class_destroy_spec p mc l :
  class_ok p mc l -> (forall a g, a ∈ l -> spa_groups p !! a = Some g -> ot_numnodes (mg_tree g) = 0) ->
  exists p', metaslab_class_destroy p mc = Ok p' /\ spa_classes p' !! mc = None /\ dom (spa_groups p') = dom (spa_groups p) ∖ list_to_set l /\
    forall mc' l', mc' <> mc -> class_ok p mc' l' -> class_ok p' mc' l'.
Proof.
  intros K He. unfold metaslab_class_destroy. pose proof (ring_size _ _ _ K) as Hsz.
  assert (length l < Datatypes.S (size (spa_groups p)))%nat as Hf by lia. revert Hf. clear Hsz. generalize (Datatypes.S (size (spa_groups p))) as f.
  intros f. revert p l K He. induction f as [|f IH]; intros p l K He Hf; [lia|]. rewrite iter_S. unfold class_destroy_round at 1.
  destruct (r_class _ _ _ K) as [n Hc]. unfold class_at. rewrite Hc. run. destruct l as [|a l]; cbn [mc_rotor head].
  - eexists. split; [done|]. cbn. split_and!; [by rewrite lookup_delete_eq|set_solver|].
    intros mc' l' Hne K'. by eapply class_frame; [done|cbn; rewrite lookup_delete_ne|..].
  - destruct (class_remove_spec p mc [] a l K) as (p1 & -> & K1 & E1 & Hn1 & O1). run. rewrite app_nil_r in K1.
    assert (exists g1, spa_groups p1 !! a = Some g1) as [g1 Ea].
    { apply elem_of_dom. rewrite (own_dom _ _ E1). apply elem_of_dom. eapply cls_some, (r_members _ _ _ K). by left. }
    unfold metaslab_group_destroy. rewrite (group_lookup _ _ _ Ea). run. destruct (own_lookup _ _ _ _ E1 Ea) as (g & Eg & Eo).
    apply (f_equal (fun q => q.1.1.1)) in Eo. cbn in Eo. rewrite Eo, (He a g) by (done || by left). cbn [Z.eqb verify]. run.
    pose proof (r_nodup _ _ _ K) as [Hal _]%NoDup_cons.
    destruct (IH (set_groups p1 (delete a (spa_groups p1))) l) as (p' & -> & Q1 & Q2 & Q3).
    + by apply group_deleted.
    + intros b h Hb Hh. cbn in Hh. apply lookup_delete_Some in Hh as [Hab Hh]. clear Eo. destruct (own_lookup _ _ _ _ E1 Hh) as (h0 & Eh & Eo).
      apply (f_equal (fun q => q.1.1.1)) in Eo. cbn in Eo. rewrite Eo. apply (He b h0); [by right|done].
    + cbn in Hf. lia.
    + exists p'. split_and!; [done|done| |].
      * rewrite Q2. cbn [spa_groups set_groups]. rewrite dom_delete_L, (own_dom _ _ E1). set_solver.
      * intros mc' l' Hne K'. apply Q3; [done|]. apply group_deleted; [by apply O1|done].
Qed.

(** ** The invariant of a pool *)

(** What allocating, freeing and claiming leave alone in a vdev and in a group. *)
Definition t_shape (t : top) :=
  (vdev_id (t_vd t), vdev_ashift (t_vd t), vdev_asize (t_vd t), vdev_ms_shift (t_vd t), vdev_ms_count (t_vd t), vd_stat (t_vd t),
   vdev_mg t, vdev_op_asize t).
Definition g_shape (g : metaslab_group) := (mg_class g, mg_vd g, mg_prev g, mg_next g).
Record pool_ext (p p' : spa) : Prop := {
  x_child : t_shape <$> vdev_child p' = t_shape <$> vdev_child p;
  x_groups : g_shape <$> spa_groups p' = g_shape <$> spa_groups p;
  x_freeze : spa_freeze_txg p' = spa_freeze_txg p;
  x_repl : spa_max_replication p' = spa_max_replication p
}.

(** The sizes of a vdev's type: whole sectors, and few enough for a DVA. *)
Definition asize_ok (t : top) : Prop :=
  forall psize, 0 < psize <= SPA_MAXBLOCKSIZE ->
    0 < vdev_op_asize t psize < 2 ^ 33 /\ vdev_op_asize t psize `mod` 2 ^ vdev_ashift (t_vd t) = 0.

Abbreviation ginv T vd os ms S L V := (ginv_at T vd os ms S L V V).

(** A top-level vdev in its pool, [s] being the statuses of its offsets. *)
Record vdev_ok (T : Z) (p : spa) (V : nat -> list Z) (s : Z -> status) (i : nat) (t : top) (a : Z) (g : metaslab_group) : Prop := {
  vo_mg : vdev_mg t = Some a;
  vo_group : spa_groups p !! a = Some g;
  vo_vd : mg_vd g = i;
  vo_ginv : exists L, ginv T (load_vdev p t g) (spa_meta_objset p) (vdev_ms t) s L V;
  vo_some : vdev_ms t <> [];
  vo_id : vdev_id (t_vd t) = Z.of_nat i;
  vo_asize : 0 <= vdev_asize (t_vd t) < 2 ^ 64;
  vo_space : u64 (vs_space (vd_stat (t_vd t)) + 1) <> 0;
  vo_op : asize_ok t
}.

Record pinv (T : Z) (p : spa) (S : nat -> Z -> status) (V : nat -> list Z) : Prop := {
  p_vdev i t : vdev_child p !! i = Some t -> exists a g, vdev_ok T p V (S i) i t a g;
  p_group a g : spa_groups p !! a = Some g ->
    (exists t, vdev_child p !! mg_vd g = Some t /\ vdev_mg t = Some a) /\ exists mc, mg_class g = Some mc /\ is_Some (spa_classes p !! mc);
  p_class mc : is_Some (spa_classes p !! mc) -> exists l, class_ok p mc l;
  p_count : zlen (vdev_child p) <= 2 ^ 32;
  p_root : u64 (vs_space (root_stat p) + 1) <> 0;
  p_repl : spa_max_replication p <= 3
}.

Lemma pool_ext_refl p : pool_ext p p.
Proof. by split. Qed.
Lemma pool_ext_trans p q r : pool_ext p q -> pool_ext q r -> pool_ext p r.
Proof. intros [] []. split; congruence. Qed.

Lemma shape_links gs gs' : g_shape <$> gs' = g_shape <$> gs ->
  (forall x, nxt gs' x = nxt gs x) /\ (forall x, prv gs' x = prv gs x) /\ (forall x, cls gs' x = cls gs x).
Proof.
  intros E. assert (forall x, g_shape <$> gs' !! x = g_shape <$> gs !! x) as K by (intros x; by rewrite <- !lookup_fmap, E).
  unfold nxt, prv, cls. split_and!; intros x; specialize (K x); destruct (gs' !! x), (gs !! x); try done; cbn in *; by injection K.
Qed.

Lemma class_shape p p' mc l :
  class_ok p mc l -> g_shape <$> spa_groups p' = g_shape <$> spa_groups p -> spa_classes p' !! mc = spa_classes p !! mc -> class_ok p' mc l.
Proof. intros K E Ec. destruct (shape_links _ _ E) as (H1 & H2 & H3). eapply class_frame; [done|done|by intros x _|]. intros x. by rewrite H3. Qed.

(** Nothing of the pool but a vdev, its group and the shared lists changed. *)
Lemma store_shape p i t a g vd ms :
  vdev_child p !! i = Some t -> spa_groups p !! a = Some g -> vd_ext (load_vdev p t g) vd -> stats vd = stats (load_vdev p t g) ->
  pool_ext p (store_vdev p i t a g vd ms).
Proof.
  intros Ht Hg He Hs. apply stats_own in Hs. split; cbn; try done.
  - rewrite list_fmap_insert. apply list_insert_id. rewrite list_lookup_fmap, Ht. cbn. unfold t_shape. cbn.
    destruct He. cbn in *. congruence.
  - rewrite fmap_insert. apply insert_id. rewrite lookup_fmap, Hg. done.
Qed.

(** The statuses of vdev [i] replaced. *)
Definition upd_vdev (S : nat -> Z -> status) (i : nat) (s : Z -> status) (j : nat) : Z -> status :=
  if decide (j = i) then s else S j.

Lemma vinv_shared vd vd' ns L V V' :
  vinv vd ns L V -> mg_metaslab_tree vd' = mg_metaslab_tree vd -> vdev_ms_list vd' = vdev_ms_list vd -> ms_txg_nodes vd' = ms_txg_nodes vd ->
  rep (spa_vdev_txg_list vd') (vdev_txg_nodes vd') V' ->
  is_Some (vdev_txg_nodes vd' !! (vdev_addr vd' + tl_offset (spa_vdev_txg_list vd'))) -> vinv vd' ns L V'.
Proof. intros [] E1 E2 E3 R N. split; rewrite ?E1, ?E2, ?E3; done. Qed.

(** A vdev keeps its invariant when the lists of dirty vdevs grow and the root's
    counters and the class of the group are others. *)
Lemma ginv_shared T vd vd' os ms s L V V' :
  ginv T vd os ms s L V -> vd_ext vd vd' -> vs_alloc (vd_stat vd') = vs_alloc (vd_stat vd) ->
  mg_metaslab_tree vd' = mg_metaslab_tree vd -> vdev_ms_list vd' = vdev_ms_list vd -> ms_txg_nodes vd' = ms_txg_nodes vd ->
  rep (spa_vdev_txg_list vd') (vdev_txg_nodes vd') V' -> (forall u q, listed V u q -> listed V' u q) -> ginv T vd' os ms s L V'.
Proof.
  intros G He Es E1 E2 E3 R HV. pose proof (g_vinv _ _ _ _ _ _ _ _ G) as Hv. eapply ginv_relist; [exact G|done|done| |auto].
  eapply vinv_shared; [done|done|done|done|done|]. rewrite (e_addr _ _ He), (e_voffset _ _ He). apply elem_of_dom, (e_vdom _ _ He), elem_of_dom, Hv.
Qed.

(** An operation on one vdev that does what MetaslabGroup shows keeps the
    invariant of the pool. *)
Lemma on_vdev_ok {R} T p S V i t a g L (f : vdev -> list metaslab -> outcome (vdev * list metaslab * R)) txg vd ms r L' V' s :
  pinv T p S V -> vdev_child p !! i = Some t -> vdev_mg t = Some a -> spa_groups p !! a = Some g ->
  f (load_vdev p t g) (vdev_ms t) = Ok (vd, ms, r) -> gstep txg (load_vdev p t g) (vdev_ms t) L V vd ms L' V' ->
  ginv T vd (spa_meta_objset p) ms s L' V' ->
  on_vdev p i (Some a) f = Ok (store_vdev p i t a g vd ms, r) /\
  pinv T (store_vdev p i t a g vd ms) (upd_vdev S i s) V' /\ pool_ext p (store_vdev p i t a g vd ms).
Proof.
  intros P Ht Ha Hg Hf St G. pose proof (p_vdev _ _ _ _ P) as Pv.
  assert (vd_ext (load_vdev p t g) vd) as He by apply St. assert (stats vd = stats (load_vdev p t g)) as Hs by apply St.
  pose proof (store_shape p i t a g vd ms Ht Hg He Hs) as X. destruct (Pv i t Ht) as (a0 & g0 & K).
  assert (a0 = a) as -> by (pose proof (vo_mg _ _ _ _ _ _ _ _ K); congruence). assert (g0 = g) as -> by (pose proof (vo_group _ _ _ _ _ _ _ _ K); congruence).
  split; [|split; [|done]].
  { unfold on_vdev. destruct (get_at _ _ _ Ht) as [-> _]. cbn [address]. run. rewrite (group_lookup _ _ _ Hg). run. by rewrite Hf. }
  pose proof (v_vlist _ _ _ _ (g_vinv _ _ _ _ _ _ _ _ G)) as R'. pose proof (stats_own _ _ Hs) as Hso.
  assert (forall u q, listed V u q -> listed V' u q) as HV by apply St. split; cbn [store_vdev vdev_child spa_groups spa_classes root_stat spa_max_replication].
  - intros j u Hj. destruct (insert_cases _ _ _ _ _ Hj) as [[-> ->]|[Hne Hj']].
    + exists a, (set_mg_tree g (mg_metaslab_tree vd)). destruct K. unfold upd_vdev. rewrite decide_True by done. split; cbn; try done.
      * by rewrite lookup_insert_eq.
      * exists L'. eapply ginv_shared; [exact G|by split|done..].
      * intros E. pose proof (gs_len _ _ _ _ _ _ _ _ _ St) as El. rewrite E in El. by destruct (vdev_ms t).
      * by rewrite (e_id _ _ He).
      * by rewrite (e_asize _ _ He).
      * rewrite Hso. done.
      * unfold asize_ok. cbn. by rewrite (e_ashift _ _ He).
    + destruct (Pv j u Hj') as (b & h & Kj). assert (b <> a) as Hab.
      { intros ->. assert (h = g) as -> by (pose proof (vo_group _ _ _ _ _ _ _ _ Kj); congruence). destruct Hne.
        by rewrite <- (vo_vd _ _ _ _ _ _ _ _ Kj), <- (vo_vd _ _ _ _ _ _ _ _ K). }
      exists b, h. destruct Kj. unfold upd_vdev. rewrite decide_False by done. split; cbn; try done.
      * by rewrite lookup_insert_ne.
      * destruct vo_ginv0 as [Lj Gj]. exists Lj. eapply ginv_shared; [exact Gj|..]; try done.
        split; try done; cbn; apply He.
  - intros b h Hb. assert (exists h0, spa_groups p !! b = Some h0 /\ mg_vd h = mg_vd h0 /\ mg_class h = mg_class h0) as (h0 & Hh & -> & ->).
    { destruct (decide (b = a)) as [->|Hne]; [rewrite lookup_insert_eq in Hb; injection Hb as <-; by exists g|].
      rewrite lookup_insert_ne in Hb by done. by exists h. }
    destruct (p_group _ _ _ _ P b h0 Hh) as [(u & Hu & Eu) Hc]. split; [|done].
    destruct (decide (mg_vd h0 = i)) as [E|Hne]; [|exists u; by rewrite list_lookup_insert_ne].
    rewrite E in *. exists (set_top t vd ms). rewrite list_lookup_insert_eq by (by eapply lookup_lt_Some). split; [done|]. cbn. congruence.
  - intros mc Hmc. destruct (p_class _ _ _ _ P mc Hmc) as [l K']. exists l. eapply class_shape; [done|apply X|done].
  - rewrite length_insert. apply P.
  - injection Hs as _ ->. apply P.
  - apply P.
Qed.

(** ** Addresses *)

Definition place (d : dva) : nat := Z.to_nat (DVA_GET_VDEV d).
Definition dsize (p : spa) (d : dva) : Z := match vdev_child p !! place d with Some t => dva_size t d | None => 0 end.
(** The address names a range in one metaslab of a vdev. *)
Definition dva_ok (p : spa) (d : dva) : Prop :=
  DVA_IS_VALID d = true /\ exists t, vdev_child p !! place d = Some t /\ block_range (t_vd t) (DVA_GET_OFFSET d) (dva_size t d).
(** [P] holds of the statuses of the range. *)
Definition dva_all (p : spa) (S : nat -> Z -> status) (d : dva) (P : status -> Prop) : Prop :=
  forall x, in_range (DVA_GET_OFFSET d) (dsize p d) x -> P (S (place d) x).
(** The statuses after [f] was done to the range. *)
Definition mark (p : spa) (S : nat -> Z -> status) (d : dva) (f : status -> status) : nat -> Z -> status :=
  upd_vdev S (place d) (upd_range (S (place d)) (DVA_GET_OFFSET d) (dsize p d) f).

Lemma dva_vdev_nonneg d : 0 <= DVA_GET_VDEV d.
Proof. unfold DVA_GET_VDEV, BF64_GET, BF64_DECODE. rewrite P2PHASE_mod by lia. apply Z.mod_pos_bound. lia. Qed.

Lemma lookup_top_ok p d t : vdev_child p !! place d = Some t -> vdev_lookup_top p (DVA_GET_VDEV d) = Some t.
Proof.
  intros H. unfold vdev_lookup_top. pose proof (lookup_lt_Some _ _ _ H) as Hl. pose proof (dva_vdev_nonneg d). unfold place in *.
  rewrite (proj2 (Z.ltb_lt _ _)) by lia. done.
Qed.

(** The metaslab of a range is one of the vdev's. *)
Lemma range_slot T vd os ms S L V off size :
  ginv T vd os ms S L V -> block_range vd off size -> vdev_ms_count vd <=? Z.shiftr off (vdev_ms_shift vd) = false.
Proof.
  intros G Hr. destruct (block_range_ok _ _ _ _ _ _ _ _ _ G Hr) as (i & m & Hi & _ & _ & Es & Ho & _).
  pose proof (lookup_lt_Some _ _ _ Hi). pose proof (g_count _ _ _ _ _ _ _ _ G) as Hc. unfold ms_slot in Es. apply Z.leb_gt.
  assert (0 <= Z.shiftr off (vdev_ms_shift vd)) by by apply Z.shiftr_nonneg. lia.
Qed.

(** What an operation that changes the range of [d] gives. *)
Definition dva_step (T : Z) (p : spa) (S : nat -> Z -> status) (V : nat -> list Z) (p' : spa) (S' : nat -> Z -> status) : Prop :=
  (exists V', pinv T p' S' V') /\ pool_ext p p' /\ spa_classes p' = spa_classes p.

Lemma free_dva_spec T p S V d txg (now : bool) :
  pinv T p S V -> T <= txg <= T + 2 -> txg <= spa_freeze_txg p -> dva_ok p d ->
  dva_all p S d (fun s => if now then s = Born txg None else freeable txg s) ->
  exists p', metaslab_free_dva p d txg now = Ok p' /\
    dva_step T p S V p' (mark p S d (if now then fun _ => Free else mark_freed txg)).
Proof.
  intros P Ht Hz (Hv & t & Hc & Hr) Hall. unfold metaslab_free_dva. rewrite Hv. cbn [verify]. run.
  rewrite (proj2 (Z.ltb_ge _ _)) by done. rewrite (lookup_top_ok _ _ _ Hc). destruct (p_vdev _ _ _ _ P _ _ Hc) as (a & g & K).
  pose proof (vo_mg _ _ _ _ _ _ _ _ K) as Ea. pose proof (vo_group _ _ _ _ _ _ _ _ K) as Eg. destruct (vo_ginv _ _ _ _ _ _ _ _ K) as [L G].
  pose proof (range_slot _ _ _ _ _ _ _ _ _ G Hr) as Hslot. cbn in Hslot. rewrite Hslot. unfold dva_all, dsize in Hall. rewrite Hc in Hall. rewrite Ea.
  assert (exists vd ms L' V', group_free zfs_recover (load_vdev p t g) (vdev_ms t) (DVA_GET_OFFSET d) (dva_size t d) txg now = Ok (vd, ms) /\
    ginv T vd (spa_meta_objset p) ms (upd_range (S (place d)) (DVA_GET_OFFSET d) (dva_size t d) (if now then fun _ => Free else mark_freed txg)) L' V' /\
    gstep txg (load_vdev p t g) (vdev_ms t) L V vd ms L' V') as (vd & ms & L' & V' & E & G' & St).
  { destruct now; [eapply group_free_now_spec|eapply group_free_spec]; done. }
  destruct (on_vdev_ok T p S V (place d) t a g L (fun vd ms => '(vd, ms) ← group_free zfs_recover vd ms (DVA_GET_OFFSET d) (dva_size t d) txg now; Ok (vd, ms, tt))
    txg vd ms tt L' V' (upd_range (S (place d)) (DVA_GET_OFFSET d) (dva_size t d) (if now then fun _ => Free else mark_freed txg)) P Hc Ea Eg) as (Ho & P' & X); [by rewrite E|exact St|exact G'|].
  unfold place in Ho. rewrite Ho. run. eexists. split; [done|]. split_and!; [|done|done]. exists V'. unfold mark, dsize. rewrite Hc. exact P'.
Qed.

Lemma claim_dva_spec T p S V d txg :
  pinv T p S V -> T <= txg <= T + 2 -> dva_ok p d -> dva_all p S d (fun s => s = Free) ->
  (forall t m, vdev_child p !! place d = Some t -> vdev_ms t !! ms_slot (t_vd t) (DVA_GET_OFFSET d) = Some m -> SPA_MINBLOCKSIZE <= ms_weight m) ->
  exists p', metaslab_claim_dva p d txg = Ok (p', 0) /\ dva_step T p S V p' (mark p S d (fun _ => Born txg None)).
Proof.
  intros P Ht (Hv & t & Hc & Hr) Hall Hw. unfold metaslab_claim_dva. rewrite Hv. cbn [verify]. run.
  rewrite (lookup_top_ok _ _ _ Hc). destruct (p_vdev _ _ _ _ P _ _ Hc) as (a & g & K).
  pose proof (vo_mg _ _ _ _ _ _ _ _ K) as Ea. pose proof (vo_group _ _ _ _ _ _ _ _ K) as Eg. destruct (vo_ginv _ _ _ _ _ _ _ _ K) as [L G].
  pose proof (range_slot _ _ _ _ _ _ _ _ _ G Hr) as Hslot. cbn in Hslot. rewrite Hslot. unfold dva_all, dsize in Hall. rewrite Hc in Hall. rewrite Ea.
  destruct (group_claim_spec zfs_recover T (load_vdev p t g) (spa_meta_objset p) (vdev_ms t) (S (place d)) L V (DVA_GET_OFFSET d) (dva_size t d) txg)
    as (vd & ms & L' & V' & E & G' & St); try done; [by intros m; apply Hw|].
  destruct (on_vdev_ok T p S V (place d) t a g L (fun vd ms => '(vd, ms) ← group_claim zfs_recover vd (spa_meta_objset p) ms (DVA_GET_OFFSET d) (dva_size t d) txg; Ok (vd, ms, 0))
    txg vd ms 0 L' V' (upd_range (S (place d)) (DVA_GET_OFFSET d) (dva_size t d) (fun _ => Born txg None)) P Hc Ea Eg) as (Ho & P' & X); [by rewrite E|exact St|exact G'|].
  unfold place in Ho. rewrite Ho. eexists. split; [done|]. split_and!; [|done|done]. exists V'. unfold mark, dsize. rewrite Hc. exact P'.
Qed.

(** A claim of an address outside the pool fails and changes nothing. *)
Lemma claim_bad p d txg :
  DVA_IS_VALID d = true ->
  match vdev_child p !! place d with Some t => vdev_ms_count (t_vd t) <= Z.shiftr (DVA_GET_OFFSET d) (vdev_ms_shift (t_vd t)) | None => True end ->
  metaslab_claim_dva p d txg = Ok (p, ENXIO).
Proof.
  intros Hv H. unfold metaslab_claim_dva. rewrite Hv. cbn [verify]. run. destruct (vdev_child p !! place d) as [t|] eqn:E.
  - by rewrite (lookup_top_ok _ _ _ E), (proj2 (Z.leb_le _ _)).
  - unfold vdev_lookup_top. unfold place in E. rewrite E. by destruct (_ <? _).
Qed.

(** ** Allocating *)


(** Shapes, by lookups. *)
Lemma ext_child p p' i t' : pool_ext p p' -> vdev_child p' !! i = Some t' -> exists t, vdev_child p !! i = Some t /\ t_shape t' = t_shape t.
Proof.
  intros X H. pose proof (x_child _ _ X) as E. apply (f_equal (lookup i)) in E. rewrite !list_lookup_fmap, H in E.
  destruct (vdev_child p !! i) as [t|]; [|done]. exists t. split; [done|]. by apply (inj Some) in E.
Qed.
Lemma ext_child' p p' i t : pool_ext p p' -> vdev_child p !! i = Some t -> exists t', vdev_child p' !! i = Some t' /\ t_shape t' = t_shape t.
Proof.
  intros X H. pose proof (x_child _ _ X) as E. apply (f_equal (lookup i)) in E. rewrite !list_lookup_fmap, H in E.
  destruct (vdev_child p' !! i) as [t'|]; [|done]. exists t'. split; [done|]. by apply (inj Some) in E.
Qed.
Lemma shape_size t t' d : t_shape t' = t_shape t -> dva_size t' d = dva_size t d.
Proof. intros [= E1 E2 E3 E4 E5 E6 E7 E8]. unfold dva_size. by rewrite E8. Qed.
Lemma shape_range t t' off size : t_shape t' = t_shape t -> block_range (t_vd t') off size <-> block_range (t_vd t) off size.
Proof. intros [= E1 E2 E3 E4 E5 E6 E7 E8]. unfold block_range, inside. by rewrite E2, E4, E5. Qed.

Lemma ext_dsize p p' d : pool_ext p p' -> dsize p' d = dsize p d.
Proof.
  intros X. unfold dsize. destruct (vdev_child p' !! place d) as [t'|] eqn:E.
  - destruct (ext_child _ _ _ _ X E) as (t & -> & Es). by apply shape_size.
  - destruct (vdev_child p !! place d) as [t|] eqn:E'; [|done]. destruct (ext_child' _ _ _ _ X E') as (t' & Et & _). congruence.
Qed.
Lemma ext_dva_ok p p' d : pool_ext p p' -> dva_ok p d -> dva_ok p' d.
Proof.
  intros X (Hv & t & Ht & Hr). split; [done|]. destruct (ext_child' _ _ _ _ X Ht) as (t' & Ht' & Es). exists t'. split; [done|].
  rewrite (shape_size _ _ _ Es). by apply (shape_range _ _ _ _ Es).
Qed.
Lemma ext_mark p p' S d f : pool_ext p p' -> mark p' S d f = mark p S d f.
Proof. intros X. unfold mark. by rewrite (ext_dsize _ _ _ X). Qed.
Lemma ext_all p p' S d P : pool_ext p p' -> dva_all p' S d P <-> dva_all p S d P.
Proof. intros X. unfold dva_all. by rewrite (ext_dsize _ _ _ X). Qed.



















(** ** Block pointers *)

(** The statuses after [f] was done to the ranges of a list of addresses. *)
Definition marks (p : spa) (S : nat -> Z -> status) (f : status -> status) (ds : list dva) : nat -> Z -> status :=
  foldl (fun S d => mark p S d f) S ds.
(** Each address is one of the pool, and the statuses of its range satisfy [P] once
    [f] was done to the addresses before it. *)
Definition in_turn (p : spa) (S : nat -> Z -> status) (f : status -> status) (P : status -> Prop) (ds : list dva) : Prop :=
  forall k d, ds !! k = Some d -> dva_ok p d /\ dva_all p (marks p S f (take k ds)) d P.


Lemma ext_marks p p' S f ds : pool_ext p p' -> marks p' S f ds = marks p S f ds.
Proof. intros X. revert S. induction ds as [|d ds IH]; intros S; [done|]. unfold marks in *. cbn. rewrite (ext_mark _ _ _ _ _ X). apply IH. Qed.


















(** What may be freed, and what it is then. *)
Definition may_free (txg : Z) (now : bool) (s : status) : Prop := if now then s = Born txg None else freeable txg s.
Definition free_mark (txg : Z) (now : bool) : status -> status := if now then fun _ => Free else mark_freed txg.

Lemma free_loop_spec T txg now ds : forall p S V,
  pinv T p S V -> T <= txg <= T + 2 -> txg <= spa_freeze_txg p -> in_turn p S (free_mark txg now) (may_free txg now) ds ->
  exists p', free_loop p ds txg now = Ok p' /\ pool_ext p p' /\ exists V', pinv T p' (marks p S (free_mark txg now) ds) V'.
Proof.
  induction ds as [|d ds IH]; intros p S V P Ht Hz Hin; cbn [free_loop].
  - exists p. split; [done|]. split; [apply pool_ext_refl|]. by exists V.
  - destruct (Hin 0%nat d eq_refl) as [Hok Hall]. destruct (free_dva_spec T p S V d txg now P Ht Hz Hok Hall) as (p1 & -> & [V1 P1] & X1 & _). run.
    destruct (IH p1 _ V1 P1 Ht) as (p' & -> & X' & V' & P').
    + by rewrite (x_freeze _ _ X1).
    + intros k e Hk. destruct (Hin (Datatypes.S k) e Hk) as [Hok' Hall']. split; [by eapply ext_dva_ok|].
      apply (ext_all _ _ _ _ _ X1). by rewrite (ext_marks _ _ _ _ _ X1).
    + exists p'. split; [done|]. split; [by eapply pool_ext_trans|]. exists V'. by rewrite (ext_marks _ _ _ _ _ X1) in P'.
Qed.



(** C6: [metaslab_free] of a block pointer whose ranges are allocated - in any group
    that is open, each range once - enters all of them as freed in the group [txg],
    or with [now] makes space allocated in this group free at once; no other offset of
    the pool changes. *)
Theorem metaslab_free_marks T p S V bp txg now :
  pinv T p S V -> T <= txg <= T + 2 -> txg <= spa_freeze_txg p -> BP_IS_HOLE bp = false ->
  in_turn p S (free_mark txg now) (may_free txg now) (take (BP_GET_NDVAS bp) (blk_dva bp)) ->
  exists p', metaslab_free p bp txg now = Ok p' /\ pool_ext p p' /\
    exists V', pinv T p' (marks p S (free_mark txg now) (take (BP_GET_NDVAS bp) (blk_dva bp))) V'.
Proof.
  intros P Ht Hz Hh Hin. unfold metaslab_free. rewrite Hh. cbn [negb verify]. run. by eapply free_loop_spec.
Qed.

(** Claiming a block of the intent log, which has one address: when the address
    names a free range of a metaslab, the claim succeeds and exactly this range becomes
    allocated; when it names no vdev of the pool, or an offset beyond its metaslabs,
    the claim fails with [ENXIO] and the pool is unchanged. *)
Theorem metaslab_claim_one T p S V bp d ds txg :
  pinv T p S V -> T <= txg <= T + 2 -> blk_dva bp = d :: ds -> BP_GET_NDVAS bp = 1%nat -> DVA_IS_VALID d = true -> BP_IS_HOLE bp = false ->
  (forall t m, vdev_child p !! place d = Some t -> vdev_ms t !! ms_slot (t_vd t) (DVA_GET_OFFSET d) = Some m -> SPA_MINBLOCKSIZE <= ms_weight m) ->
  (dva_ok p d -> dva_all p S d (fun s => s = Free) ->
     exists p', metaslab_claim p bp txg = Ok (p', 0) /\ pool_ext p p' /\ exists V', pinv T p' (mark p S d (fun _ => Born txg None)) V') /\
  (match vdev_child p !! place d with
   | Some t => vdev_ms_count (t_vd t) <= Z.shiftr (DVA_GET_OFFSET d) (vdev_ms_shift (t_vd t))
   | None => True
   end -> metaslab_claim p bp txg = Ok (p, ENXIO)).
Proof.
  intros P Ht Ed En Hv Hh Hw. unfold metaslab_claim. rewrite Hh, En, Ed. cbn [negb verify take claim_loop]. run. split.
  - intros Hok Hall. destruct (claim_dva_spec T p S V d txg P Ht Hok Hall Hw) as (p' & -> & HP & X & _). run. by exists p'.
  - intros Hbad. rewrite claim_bad by done. run. done.
Qed.

Lemma class_create_spec p mc : (forall a, cls (spa_groups p) a <> Some mc) -> class_ok (metaslab_class_create p mc) mc [].
Proof.
  intros H. split; try done; [|constructor|].
  - exists 0. apply lookup_insert_eq.
  - intros a. split; [set_solver|]. intros Ha. by destruct (H a).
Qed.

(** A new group, which is in no class yet. *)
Lemma group_new p a g mc l :
  class_ok p mc l -> spa_groups p !! a = None -> mg_class g = None -> class_ok (set_groups p (<[a := g]> (spa_groups p))) mc l.
Proof.
  intros K Ha Hg. assert (a ∉ l) as Hal by (rewrite (r_members _ _ _ K); unfold cls; by rewrite Ha). eapply class_frame; [done|done|..]; cbn [spa_groups set_groups].
  - intros x Hx. unfold nxt, prv. rewrite lookup_insert_ne; [done|]. by intros ->.
  - intros x. unfold cls. destruct (decide (a = x)) as [<-|Hne]; [rewrite lookup_insert_eq, Ha; cbn; by rewrite Hg|by rewrite lookup_insert_ne].
Qed.

Lemma group_create_spec p mc l a i t :
  class_ok p mc l -> vdev_child p !! i = Some t -> spa_groups p !! a = None ->
  exists p', metaslab_group_create p mc a i = Ok p' /\ class_ok p' mc (a :: List.tl l ++ take 1 l) /\
    forall mc' l', mc' <> mc -> class_ok p mc' l' -> class_ok p' mc' l'.
Proof.
  intros K Ht Ha. unfold metaslab_group_create. destruct (get_at _ _ _ Ht) as [-> _]. run.
  set (g := Group ot_empty _ 0 None i None None). pose proof (group_new p a g mc l K Ha eq_refl) as K1.
  destruct (class_add_spec _ mc l a g K1) as (p' & H1 & H2 & _ & H3); [apply lookup_insert_eq|done|].
  exists p'. split_and!; [done|done|]. intros mc' l' Hne K'. apply H3; [done|]. by apply group_new.
Qed.

(** C7: A class is the ring of its groups from the rotor on.  Adding a group puts it
    behind the rotor and the rotor on it; removing one closes the ring and moves the
    rotor behind the gap; a group made for a vdev enters its class in the same
    way; destroying a class whose groups have no metaslab left
    destroys exactly its groups.  No other class changes. *)
Theorem metaslab_class_rings p mc l :
  class_ok p mc l ->
  (forall a g, spa_groups p !! a = Some g -> mg_class g = None ->
     exists p', metaslab_class_add p mc a = Ok p' /\ class_ok p' mc (a :: List.tl l ++ take 1 l) /\
       forall mc' l', mc' <> mc -> class_ok p mc' l' -> class_ok p' mc' l') /\
  (forall l1 a l2, l = l1 ++ a :: l2 ->
     exists p', metaslab_class_remove p mc a = Ok p' /\ class_ok p' mc (l2 ++ l1) /\
       forall mc' l', mc' <> mc -> class_ok p mc' l' -> class_ok p' mc' l') /\
  (forall a i t, vdev_child p !! i = Some t -> spa_groups p !! a = None ->
     exists p', metaslab_group_create p mc a i = Ok p' /\ class_ok p' mc (a :: List.tl l ++ take 1 l) /\
       forall mc' l', mc' <> mc -> class_ok p mc' l' -> class_ok p' mc' l') /\
  ((forall a g, a ∈ l -> spa_groups p !! a = Some g -> ot_numnodes (mg_tree g) = 0) ->
     exists p', metaslab_class_destroy p mc = Ok p' /\ spa_classes p' !! mc = None /\
       dom (spa_groups p') = dom (spa_groups p) ∖ list_to_set l /\
       forall mc' l', mc' <> mc -> class_ok p mc' l' -> class_ok p' mc' l').
Proof.
  intros K. split_and!.
  - intros a g Ha Hc. destruct (class_add_spec p mc l a g K Ha Hc) as (p' & H1 & H2 & _ & H3). by exists p'.
  - intros l1 a l2 ->. destruct (class_remove_spec p mc l1 a l2 K) as (p' & H1 & H2 & _ & _ & H3). by exists p'.
  - intros a i t Ht Ha. by eapply group_create_spec.
  - intros He. by apply class_destroy_spec.
Qed.
End Pool.

(** ** A pool of the vdev of MetaslabGroup *)
#[local] Existing Instance Avl.avl_OrdTree.
#[local] Existing Instance RamMos.ram_mos.

(** One vdev, whose group 1 is alone in class 7. *)
Definition ex_top (vd : vdev) (ms : list metaslab) : top :=
  Top (set_stats vd (VdevStat 8192 (vs_alloc (vd_stat vd)) 8192) (rvd_stat vd)) ms (Some 1) 0 (vdev_default_asize 9).
Definition ex_group (vd : vdev) : metaslab_group := Group (mg_metaslab_tree vd) metaslab_aliquot 0 (Some 7) 0 (Some 1) (Some 1).
Definition ex_pool (vd : vdev) (ms : list metaslab) : spa :=
  Spa [ex_top vd ms] ex_os (VdevStat 8192 1024 8192) (spa_vdev_txg_list vd) (vdev_txg_nodes vd) {[1 := ex_group vd]} {[7 := Class (Some 1) 0]} 7
    (2 ^ 64 - 1) 3.

Lemma ex_asize psize : 0 < psize <= SPA_MAXBLOCKSIZE -> 0 < vdev_default_asize 9 psize < 2 ^ 33 /\ vdev_default_asize 9 psize `mod` 2 ^ 9 = 0.
Proof.
  intros Hp. change SPA_MAXBLOCKSIZE with (2 ^ 17) in Hp. unfold vdev_default_asize. change (Z.shiftl 1 9) with (2 ^ 9).
  destruct (P2ROUNDUP_spec psize 9) as [H1 H2]; [lia|lia|lia|]. split; [lia|done].
Qed.

Lemma ex_ring_one vd ms : class_ok (ex_pool vd ms) 7 [1].
Proof.
  split.
  - exists 0. done.
  - done.
  - by repeat constructor; set_solver.
  - intros a. unfold cls. cbn. destruct (decide (a = 1)) as [->|Hne]; [split; [done|intros _; by left]|].
    rewrite lookup_singleton_ne by done. split; [set_solver|done].
Qed.

Lemma ex_pool_ok : exists vd ms V, pinv 4 (ex_pool vd ms) (fun _ => ex_S) V /\ vd_ext (set_ms_count ex_vd 2) vd.
Proof.
  destruct ex_opens as (vd & ms & (Hne & L & V & G & _) & He). exists vd, ms, V. split; [|done]. split; try done.
  - intros i t Ht. destruct i as [|i]; [|done]. injection Ht as <-. exists 1, (ex_group vd). split; try done.
    + exists L. eapply ginv_shared; [exact G|..]; try done. apply (g_vinv _ _ _ _ _ _ _ _ G).
    + cbn. by rewrite (e_id _ _ He).
    + cbn. rewrite (e_asize _ _ He). cbn. lia.
    + intros psize Hp. cbn. rewrite (e_ashift _ _ He). by apply ex_asize.
  - intros a g Hg. cbn in Hg. apply lookup_singleton_Some in Hg as [<- <-]. split; [by exists (ex_top vd ms)|]. exists 7. split; [done|by eexists].
  - intros mc Hmc. cbn in Hmc. destruct (decide (mc = 7)) as [->|Hne']; [exists [1]; apply ex_ring_one|].
    rewrite lookup_singleton_ne in Hmc by done. by destruct Hmc.
Qed.


(** The two sectors that are on disk, as a block pointer. *)
Definition ex_dva : dva := dva_set (Dva 0 0) 0 0 1024.
Definition ex_bp : blkptr := set_birth (set_dva BP_ZERO 0 ex_dva) 1.

Lemma ex_dva_ok vd ms : vd_ext (set_ms_count ex_vd 2) vd -> dva_ok (ex_pool vd ms) ex_dva.
Proof.
  intros He. split; [by vm_compute|]. exists (ex_top vd ms). assert (place ex_dva = 0%nat) as -> by by vm_compute. split; [reflexivity|]. change (DVA_GET_OFFSET ex_dva) with 0.
  change (dva_size (ex_top vd ms) ex_dva) with 1024. unfold block_range, inside. cbn [ex_top t_vd set_stats vdev_ashift vdev_ms_count vdev_ms_shift].
  rewrite (e_ashift _ _ He), (e_ms_count _ _ He), (e_ms_shift _ _ He). cbn [ex_vd set_ms_count vdev_ashift vdev_ms_count vdev_ms_shift].
  split_and!; try done. exists 0%nat. split; [lia|]. unfold in_range. lia.
Qed.

Lemma metaslab_free_marks_witness : exists p p' V',
  metaslab_free false p ex_bp 5 false = Ok p' /\ pinv 4 p' (marks p (fun _ => ex_S) (mark_freed 5) [ex_dva]) V'.
Proof.
  destruct ex_pool_ok as (vd & ms & V & P & He).
  destruct (metaslab_free_marks false 4 (ex_pool vd ms) (fun _ => ex_S) V ex_bp 5 false P) as (p' & E & _ & V' & P').
  - lia.
  - cbn; lia.
  - reflexivity.
  - change (take (BP_GET_NDVAS ex_bp) (blk_dva ex_bp)) with [ex_dva]. intros [|k] d Hk; [|done]. injection Hk as <-. split; [by apply ex_dva_ok|].
    intros x Hx. change (dsize (ex_pool vd ms) ex_dva) with 1024 in Hx. change (DVA_GET_OFFSET ex_dva) with 0 in Hx. cbn.
    rewrite ex_live, decide_True; done.
  - exists (ex_pool vd ms), p', V'. split; [exact E|]. exact P'.
Defined.

(** Groups 1 and 2 in class 7, group 3 in none. *)
Definition ex_free_group : metaslab_group := Group ot_empty metaslab_aliquot 0 None 2 None None.
Definition ex_rings : spa :=
  Spa [] ex_os (VdevStat 0 0 0) (txg_list_create 16) ∅
    {[1 := Group ot_empty metaslab_aliquot 0 (Some 7) 0 (Some 2) (Some 2); 2 := Group ot_empty metaslab_aliquot 0 (Some 7) 1 (Some 1) (Some 1); 3 := ex_free_group]}
    {[7 := Class (Some 1) 0]} 7 (2 ^ 64 - 1) 3.

Lemma ex_rings_ok : class_ok ex_rings 7 [1; 2].
Proof.
  split.
  - exists 0. done.
  - done.
  - by apply (bool_decide_unpack _).
  - intros a. unfold cls. cbn [spa_groups ex_rings]. destruct (decide (a = 1)) as [->|H1]; [split; [done|set_solver]|].
    destruct (decide (a = 2)) as [->|H2]; [split; [done|set_solver]|]. split; [set_solver|].
    destruct (decide (a = 3)) as [->|H3]; [done|]. rewrite !lookup_insert_ne, lookup_singleton_ne by done. done.
Qed.

Lemma metaslab_class_rings_witness :
  (exists p', metaslab_class_add ex_rings 7 3 = Ok p' /\ class_ok p' 7 [3; 2; 1]) /\
  (exists p', metaslab_class_remove ex_rings 7 1 = Ok p' /\ class_ok p' 7 [2]) /\
  (exists p', metaslab_class_destroy ex_rings 7 = Ok p' /\ dom (spa_groups p') = dom (spa_groups ex_rings) ∖ list_to_set [1; 2]).
Proof.
  destruct (metaslab_class_rings ex_rings 7 [1; 2] ex_rings_ok) as (H1 & H2 & _ & H3). split; [|split].
  - destruct (H1 3 ex_free_group eq_refl eq_refl) as (p' & E & K & _). exists p'. auto.
  - destruct (H2 [] 1 [2] eq_refl) as (p' & E & K & _). exists p'. auto.
  - destruct H3 as (p' & E & _ & D & _); [|exists p'; auto].
    intros a g Ha Hg. apply list_elem_of_In in Ha. destruct Ha as [<-|[<-|[]]]; injection Hg as <-; reflexivity.
Defined.
End MetaslabPool.
