(* ===== verification/ZioCompress.v ===== *)
(** * Compression vectors and the compression stages of the I/O pipeline:
      fs/zfs/zio_compress.c, gzip.c, zmod/zmod.c, fs/zfs/zio.c

    The table of compressors, the routine that compresses a block (detecting
    all-zero blocks, demanding a saving of one eighth and zeroing the gap up to
    the next sector), and the pipeline stages that call it on the way to disk
    and undo it on the way back.  LZJB is the model of [Lzjb]; the streaming
    library zlib, which on this platform belongs to the kernel
    ([libkern/zlib.h]), is the class [Zlib] of its documented behaviour. *)

From Stdlib Require Import List String.
From stdpp Require Import base option numbers list.
From S2P Require Import Prelude Lzjb Checksum SpaceMap Bits Blkptr ZioChecksum.
Local Open Scope Z_scope.
Import Blkptr.

(** ** zlib *)

Definition Z_OK : Z := 0.
Definition Z_STREAM_END : Z := 1.
Definition Z_BUF_ERROR : Z := -5.
Definition Z_FINISH : Z := 4.

(** The calls of zlib that zmod.c makes.  [deflate zs next_in next_out avail_out
    flush] gives the code, the stream, the output buffer and [total_out]. *)
Class Zlib := {
  z_stream : Type;
  deflateInit : Z -> Z * z_stream;
  deflate : z_stream -> list Z -> list Z -> Z -> Z -> Z * z_stream * list Z * Z;
  deflateEnd : z_stream -> Z;
  inflateInit : Z * z_stream;
  inflate : z_stream -> list Z -> list Z -> Z -> Z -> Z * z_stream * list Z * Z;
  inflateEnd : z_stream -> Z;

  (** The output stays in the buffer, and is bytes. *)
  deflate_buffer zs src dst avail flush err zs' dst' total :
    deflate zs src dst avail flush = (err, zs', dst', total) ->
    length dst' = length dst /\ (Forall is_byte src -> Forall is_byte dst -> Forall is_byte dst');
  (** A stream is never empty, and fits the space it was given. *)
  deflate_total zs src dst avail flush err zs' dst' total :
    deflate zs src dst avail flush = (err, zs', dst', total) -> err = Z_STREAM_END -> 0 < total <= avail;
  (** With an allocator that does not fail, a decompressor can be set up. *)
  inflateInit_ok : fst inflateInit = Z_OK;
  (** Inflating bytes that begin with a finished stream, into a buffer of the
      size of the source, gives the source and ends the stream. *)
  inflate_deflate level zs src dst avail zs' dst' total F d :
    deflateInit level = (Z_OK, zs) ->
    deflate zs src dst avail Z_FINISH = (Z_STREAM_END, zs', dst', total) ->
    agree total F dst' -> length d = length src ->
    exists zs2, inflate (snd inflateInit) F d (zlen d) Z_FINISH = (Z_STREAM_END, zs2, src, zlen src) /\
      inflateEnd zs2 = Z_OK
}.

Module ZioCompress.
Import Zio ZioChecksum.

Definition ZIO_COMPRESS_INHERIT : Z := 0.
Definition ZIO_COMPRESS_ON : Z := 1.
Definition ZIO_COMPRESS_OFF : Z := 2.
Definition ZIO_COMPRESS_LZJB : Z := 3.
Definition ZIO_COMPRESS_EMPTY : Z := 4.
Definition ZIO_COMPRESS_FUNCTIONS : Z := 14.
Definition ZIO_COMPRESS_ON_VALUE : Z := ZIO_COMPRESS_LZJB.

(** ** Compressors *)

(** [(src, dst, s_len, d_len, level)]: the returned number and the destination. *)
Definition zio_compress_func_t : Type := list Z -> list Z -> Z -> Z -> Z -> outcome (Z * list Z).

Record zio_compress_info := Cci {
  ci_compress : option zio_compress_func_t;
  ci_decompress : option zio_compress_func_t;
  ci_level : Z;
  cci_name : string
}.

(** What the machine leaves undefined: the address of the source and the stack
    ([lempel]) of the LZJB compressor, and the contents of fresh buffers. *)
Record machine := Mach { s_addr : Z; lempel : list Z; heap : nat -> Z }.

Section Codec.
Context {ZL : Zlib}.

(** zmod.c: [avail_in] and [avail_out] are 32-bit counts. *)
Definition z_compress_level (dst : list Z) (dstlen : Z) (src : list Z) (srclen level : Z) : Z * list Z * Z :=
  let '(err, zs) := deflateInit level in
  if negb (err =? Z_OK) then (err, dst, dstlen)
  else
    let '(err, zs, dst, total_out) := deflate zs (take (Z.to_nat (u32 srclen)) src) dst (u32 dstlen) Z_FINISH in
    if negb (err =? Z_STREAM_END) then (if err =? Z_OK then Z_BUF_ERROR else err, dst, dstlen)
    else (deflateEnd zs, dst, total_out).

Definition z_uncompress (dst : list Z) (dstlen : Z) (src : list Z) (srclen : Z) : Z * list Z * Z :=
  let '(err, zs) := inflateInit in
  if negb (err =? Z_OK) then (err, dst, dstlen)
  else
    let '(err, zs, dst, total_out) := inflate zs (take (Z.to_nat (u32 srclen)) src) dst (u32 dstlen) Z_FINISH in
    if negb (err =? Z_STREAM_END) then (if err =? Z_OK then Z_BUF_ERROR else err, dst, dstlen)
    else (inflateEnd zs, dst, total_out).

(** gzip.c *)
Definition gzip_compress : zio_compress_func_t := fun s_start d_start s_len d_len n =>
  _ ← verify (d_len <=? s_len);
  let '(err, d_start, dstlen) := z_compress_level d_start d_len s_start s_len n in
  if negb (err =? Z_OK) then
    if negb (d_len =? s_len) then Ok (s_len, d_start)
    else Ok (s_len, take (Z.to_nat s_len) s_start ++ drop (Z.to_nat s_len) d_start)
  else Ok (dstlen, d_start).

Definition gzip_decompress : zio_compress_func_t := fun s_start d_start s_len d_len n =>
  _ ← verify (s_len <=? d_len);
  let '(err, d_start, _) := z_uncompress d_start d_len s_start s_len in
  if negb (err =? Z_OK) then Ok (-1, d_start) else Ok (0, d_start).

Section Machine.
Variable m : machine.
Variable be : bool.

Definition lzjb_compress : zio_compress_func_t := fun s d s_len d_len _ =>
  Lzjb.compress (s_addr m) (take (Z.to_nat s_len) s) d_len (lempel m) d.
Definition lzjb_decompress : zio_compress_func_t := fun s d _ d_len _ => Lzjb.decompress s d_len d.

Definition zio_compress_table : list zio_compress_info :=
  let none name := Cci None None 0 name in
  let gzip level name := Cci (Some gzip_compress) (Some gzip_decompress) level name in
  [ none "inherit"; none "on"; none "uncompressed";
    Cci (Some lzjb_compress) (Some lzjb_decompress) 0 "lzjb";
    none "empty";
    gzip 1 "gzip-1"; gzip 2 "gzip-2"; gzip 3 "gzip-3"; gzip 4 "gzip-4"; gzip 5 "gzip-5";
    gzip 6 "gzip-6"; gzip 7 "gzip-7"; gzip 8 "gzip-8"; gzip 9 "gzip-9" ]%string.

Definition zio_compress_select (child parent : Z) : outcome Z :=
  _ ← verify (child <? ZIO_COMPRESS_FUNCTIONS);
  _ ← verify (parent <? ZIO_COMPRESS_FUNCTIONS);
  _ ← verify (negb (parent =? ZIO_COMPRESS_INHERIT) && negb (parent =? ZIO_COMPRESS_ON));
  if child =? ZIO_COMPRESS_INHERIT then Ok parent
  else if child =? ZIO_COMPRESS_ON then Ok ZIO_COMPRESS_ON_VALUE
  else Ok child.

(** [zio_buf_alloc] *)
Definition zio_buf_alloc (size : Z) : outcome (list Z) :=
  _ ← verify (Z.shiftr (u64 (size - 1)) SPA_MINBLOCKSHIFT <? Z.shiftr SPA_MAXBLOCKSIZE SPA_MINBLOCKSHIFT);
  Ok (map (fun i => u8 (heap m i)) (seq 0 (Z.to_nat size))).

(** The loop that looks for a word that is not zero, up to [word_end]. *)
Definition allzero (src : list Z) (srcsize : Z) : outcome bool :=
  iter (S (S (Z.to_nat (srcsize / 8))))
    (fun word =>
       if word <? srcsize then
         w ← rd_u64 be src word;
         Ok (if negb (w =? 0) then inr false else inl (word + 8))
       else Ok (inr true))
    0.

(** What [destp], [destsizep] and [destbufsizep] point to. *)
Record compressed_to := Dest { destp : option (list Z); destsize : Z; destbufsize : Z }.

(** [zio_compress_data]: [None] is the return value 0. *)
Definition zio_compress_data (cpfunc : Z) (src : list Z) (srcsize : Z) : outcome (option compressed_to) :=
  _ ← verify (u32 cpfunc <? ZIO_COMPRESS_FUNCTIONS);
  match zio_compress_table !! Z.to_nat cpfunc with
  | None => Err Fault
  | Some ci =>
      _ ← verify ((cpfunc =? ZIO_COMPRESS_EMPTY) || bool_decide (is_Some (ci_compress ci)));
      z ← allzero src srcsize;
      if (z : bool) then Ok (Some (Dest None 0 0))
      else if cpfunc =? ZIO_COMPRESS_EMPTY then Ok None
      else
        let destbufsize := P2ALIGN (u64 (srcsize - Z.shiftr srcsize 3)) SPA_MINBLOCKSIZE in
        if destbufsize =? 0 then Ok None
        else
          dest ← zio_buf_alloc destbufsize;
          match ci_compress ci with
          | None => Err Fault
          | Some f =>
              '(ciosize, dest) ← f src dest srcsize destbufsize (ci_level ci);
              if destbufsize <? ciosize then Ok None
              else
                let gapsize := u64 (P2ROUNDUP ciosize SPA_MINBLOCKSIZE - ciosize) in
                '(dest, ciosize) ← (if negb (gapsize =? 0) then
                   if ciosize + gapsize <=? zlen dest then
                     Ok (take (Z.to_nat ciosize) dest ++ replicate (Z.to_nat gapsize) 0 ++
                           drop (Z.to_nat (ciosize + gapsize)) dest, ciosize + gapsize)
                   else Err Fault
                 else Ok (dest, ciosize));
                _ ← verify (ciosize <=? destbufsize);
                _ ← verify (P2PHASE ciosize SPA_MINBLOCKSIZE =? 0);
                Ok (Some (Dest (Some dest) ciosize destbufsize))
          end
  end.

Definition zio_decompress_data (cpfunc : Z) (src : list Z) (srcsize : Z) (dest : list Z) (destsize : Z)
    : outcome (Z * list Z) :=
  _ ← verify (u32 cpfunc <? ZIO_COMPRESS_FUNCTIONS);
  match zio_compress_table !! Z.to_nat cpfunc with
  | Some (Cci _ (Some g) level _) => g src dest srcsize destsize level
  | _ => Err Fault
  end.
End Machine.
End Codec.

(** ** Pipeline stages: zio_impl.h *)

Definition ZIO_STAGE_OPEN : Z := 0.
Definition ZIO_STAGE_WAIT_CHILDREN_READY : Z := 1.
Definition ZIO_STAGE_WRITE_COMPRESS : Z := 2.
Definition ZIO_STAGE_CHECKSUM_GENERATE : Z := 3.
Definition ZIO_STAGE_GANG_PIPELINE : Z := 4.
Definition ZIO_STAGE_GET_GANG_HEADER : Z := 5.
Definition ZIO_STAGE_REWRITE_GANG_MEMBERS : Z := 6.
Definition ZIO_STAGE_DVA_ALLOCATE : Z := 9.
Definition ZIO_STAGE_GANG_CHECKSUM_GENERATE : Z := 12.
Definition ZIO_STAGE_READY : Z := 13.
Definition ZIO_STAGE_VDEV_IO_START : Z := 14.
Definition ZIO_STAGE_VDEV_IO_DONE : Z := 15.
Definition ZIO_STAGE_VDEV_IO_ASSESS : Z := 16.
Definition ZIO_STAGE_WAIT_CHILDREN_DONE : Z := 17.
Definition ZIO_STAGE_CHECKSUM_VERIFY : Z := 18.
Definition ZIO_STAGE_READ_GANG_MEMBERS : Z := 19.
Definition ZIO_STAGE_READ_DECOMPRESS : Z := 20.
Definition ZIO_STAGE_DONE : Z := 21.

Definition stages (l : list Z) : Z := fold_right (fun s acc => Z.lor (Z.shiftl 1 s) acc) 0 l.
Definition ZIO_VDEV_IO_PIPELINE : Z :=
  stages [ZIO_STAGE_VDEV_IO_START; ZIO_STAGE_VDEV_IO_DONE; ZIO_STAGE_VDEV_IO_ASSESS].
Definition ZIO_READ_PIPELINE : Z :=
  Z.lor (stages [ZIO_STAGE_OPEN; ZIO_STAGE_WAIT_CHILDREN_READY; ZIO_STAGE_READY; ZIO_STAGE_WAIT_CHILDREN_DONE;
                 ZIO_STAGE_CHECKSUM_VERIFY; ZIO_STAGE_DONE]) ZIO_VDEV_IO_PIPELINE.
Definition ZIO_WRITE_COMMON_PIPELINE : Z :=
  Z.lor (stages [ZIO_STAGE_OPEN; ZIO_STAGE_WAIT_CHILDREN_READY; ZIO_STAGE_CHECKSUM_GENERATE; ZIO_STAGE_READY;
                 ZIO_STAGE_WAIT_CHILDREN_DONE; ZIO_STAGE_DONE]) ZIO_VDEV_IO_PIPELINE.
Definition ZIO_WRITE_ALLOCATE_PIPELINE : Z := Z.lor (stages [ZIO_STAGE_DVA_ALLOCATE]) ZIO_WRITE_COMMON_PIPELINE.
Definition ZIO_REWRITE_PIPELINE : Z :=
  Z.lor (stages [ZIO_STAGE_GANG_PIPELINE; ZIO_STAGE_GET_GANG_HEADER; ZIO_STAGE_REWRITE_GANG_MEMBERS;
                 ZIO_STAGE_GANG_CHECKSUM_GENERATE]) ZIO_WRITE_COMMON_PIPELINE.
Definition ZIO_WAIT_FOR_CHILDREN_PIPELINE : Z :=
  stages [ZIO_STAGE_WAIT_CHILDREN_READY; ZIO_STAGE_READY; ZIO_STAGE_WAIT_CHILDREN_DONE; ZIO_STAGE_DONE].

Definition ZIO_ERROR_PIPELINE_MASK : Z := ZIO_WAIT_FOR_CHILDREN_PIPELINE.

(** [zio_next_stage]: the stage that runs after [stage]. *)
Definition zio_next_stage (z : zio) (stage : Z) : outcome Z :=
  let pipeline :=
    if bool_decide (io_error z <> None) && (Z.land (Z.shiftl 1 stage) ZIO_VDEV_IO_PIPELINE =? 0)
    then Z.land (io_pipeline z) ZIO_ERROR_PIPELINE_MASK else io_pipeline z in
  next ← iter 32
    (fun s => Ok (if Z.land (Z.shiftl 1 (s + 1)) pipeline =? 0 then inl (s + 1) else inr (s + 1))) stage;
  _ ← verify (next <=? ZIO_STAGE_DONE);
  Ok next.

(** [zio_sync_pass] *)
Definition zp_dontcompress : Z := 4.
Definition zp_rewrite : Z := 1.

(** The transform stack. *)
Definition zio_push_transform (z : zio) (data : list Z) (size bufsize : Z) : zio :=
  set_stack z (Zt data size bufsize :: io_transform_stack z).
Definition zio_pop_transform (z : zio) : outcome (zio * zio_transform) :=
  match io_transform_stack z with
  | [] => Err Fault
  | t :: st => Ok (set_stack z st, t)
  end.

Section Stages.
Context {ZL : Zlib}.
Variable m : machine.
Variable be : bool.

Definition zio_write_compress (spa_sync_pass : Z) (z : zio) : outcome zio :=
  let bp := io_bp z in
  let lsize := io_size z in
  '(compress, pass) ←
    (if blk_birth bp =? io_txg z then
       Ok (if zp_dontcompress <? spa_sync_pass then ZIO_COMPRESS_OFF else io_compress z, spa_sync_pass)
     else _ ← verify (BP_IS_HOLE bp); Ok (io_compress z, 1));
  '(compress, cbuf, csize, cbufsize) ←
    (if negb (compress =? ZIO_COMPRESS_OFF) then
       r ← zio_compress_data m be compress (io_data z) (io_size z);
       Ok (match r with
           | Some d => (compress, destp d, destsize d, destbufsize d)
           | None => (ZIO_COMPRESS_OFF, None, lsize, 0)
           end)
     else Ok (compress, None, lsize, 0));
  z ← (if negb (compress =? ZIO_COMPRESS_OFF) && negb (csize =? 0) then
         match cbuf with
         | Some cbuf => Ok (zio_push_transform z cbuf csize cbufsize)
         | None => Err Fault
         end
       else Ok z);
  if (blk_birth bp =? io_txg z) && (BP_GET_PSIZE bp =? csize) && (zp_rewrite <? pass) then
    _ ← verify (negb (csize =? 0));
    Ok (set_pipeline (set_bp z (BP_SET_COMPRESS (BP_SET_LSIZE bp lsize) compress)) ZIO_REWRITE_PIPELINE)
  else
    let bp := if blk_birth bp =? io_txg z then BP_ZERO else bp in
    if csize =? 0 then Ok (set_pipeline (set_bp z BP_ZERO) ZIO_WAIT_FOR_CHILDREN_PIPELINE)
    else
      _ ← verify (bool_decide (BP_GET_NDVAS bp = 0%nat));
      let bp := BP_SET_COMPRESS (BP_SET_PSIZE (BP_SET_LSIZE bp lsize) csize) compress in
      Ok (set_pipeline (set_bp z bp) ZIO_WRITE_ALLOCATE_PIPELINE).

(** [zio_read]: the request it creates for the caller's buffer. *)
Definition zio_read (spa : Z) (bp : blkptr) (data : list Z) (size : Z) (zb : zbookmark) : outcome zio :=
  _ ← verify (size =? BP_GET_LSIZE bp);
  _ ← verify (size <=? SPA_MAXBLOCKSIZE);
  _ ← verify (P2PHASE size SPA_MINBLOCKSIZE =? 0);
  let z := MkZio spa (Some zb) ZIO_TYPE_READ (blk_birth bp) bp 0 0 [Zt data size size] ZIO_READ_PIPELINE None in
  z ← (if negb (BP_GET_COMPRESS bp =? ZIO_COMPRESS_OFF) then
         let csize := BP_GET_PSIZE bp in
         cbuf ← zio_buf_alloc m csize;
         let z := zio_push_transform z cbuf csize csize in
         Ok (set_pipeline z (Z.lor (io_pipeline z) (Z.shiftl 1 ZIO_STAGE_READ_DECOMPRESS)))
       else Ok z);
  if BP_IS_GANG bp then
    gbuf ← zio_buf_alloc m SPA_GANGBLOCKSIZE;
    let z := zio_push_transform z gbuf SPA_GANGBLOCKSIZE SPA_GANGBLOCKSIZE in
    Ok (set_pipeline z (Z.lor (io_pipeline z) (Z.shiftl 1 ZIO_STAGE_READ_GANG_MEMBERS)))
  else Ok z.

Definition zio_read_decompress (z : zio) : outcome zio :=
  let compress := BP_GET_COMPRESS (io_bp z) in
  _ ← verify (negb (compress =? ZIO_COMPRESS_OFF));
  '(z, t) ← zio_pop_transform z;
  '(r, data) ← zio_decompress_data m compress (take (Z.to_nat (zt_size t)) (zt_data t)) (zt_size t) (io_data z) (io_size z);
  let z := set_data z data in
  Ok (if negb (r =? 0) then set_error z (Some EIO) else z).

(** The pipeline of a read from [stage] to its end; the stages other than
    verification and decompression do not touch the block. *)
Definition read_stage (pad0 : list Z) (inj : injector) (z : zio) (stage : Z) : outcome zio :=
  if stage =? ZIO_STAGE_CHECKSUM_VERIFY then zio_checksum_verify be pad0 inj z
  else if stage =? ZIO_STAGE_READ_DECOMPRESS then zio_read_decompress z
  else Ok z.
Fixpoint run_read (fuel : nat) (pad0 : list Z) (inj : injector) (z : zio) (stage : Z) : outcome zio :=
  match fuel with
  | O => Err Fuel
  | S fuel' =>
      next ← zio_next_stage z stage;
      z ← read_stage pad0 inj z next;
      if next =? ZIO_STAGE_DONE then Ok z else run_read fuel' pad0 inj z next
  end.

(** A read of the block at [bp]: the request, the bytes [disk] that the device
    puts into its buffer, and the rest of the pipeline. *)
Definition read_block (pad0 : list Z) (inj : injector) (spa : Z) (bp : blkptr) (disk dst : list Z) (zb : zbookmark)
    : outcome zio :=
  z ← zio_read spa bp dst (zlen dst) zb;
  run_read (S (Z.to_nat ZIO_STAGE_DONE)) pad0 inj (set_data z disk) ZIO_STAGE_VDEV_IO_ASSESS.
End Stages.

(** ** Compressors invert *)

Definition machine_ok (m : machine) : Prop := zlen (lempel m) = Lzjb.LEMPEL_SIZE.

(** What the table promises of a pair of routines: compression into a smaller
    buffer returns and leaves bytes; if the returned size fits the buffer it is
    positive, and decompressing bytes that begin with that many bytes of the
    result gives the source. *)
Definition codec_ok (f g : zio_compress_func_t) (level : Z) : Prop :=
  forall src dst d0,
    Forall is_byte src -> Forall is_byte dst -> zlen dst < zlen src < 2 ^ 32 -> length d0 = length src ->
    exists n out, f src dst (zlen src) (zlen dst) level = Ok (n, out) /\ length out = length dst /\ Forall is_byte out /\
      (n <= zlen dst ->
       0 < n /\ forall F, zlen F <= zlen src -> agree n F out -> g F d0 (zlen F) (zlen src) level = Ok (0, src)).

Lemma lzjb_codec m level : machine_ok m -> codec_ok (lzjb_compress m) lzjb_decompress level.
Proof.
  intros Hm src dst d0 Hs Hd Hl H0.
  destruct (Lzjb.compress_total (s_addr m) src d0 (lempel m) dst Hm H0) as ([n out] & E & Hlen & Hc).
  exists n, out. unfold lzjb_compress. rewrite Nat2Z.id, firstn_all. cbn [fst snd] in *.
  split; [done|]. split; [lia|]. split; [exact (Lzjb.compress_bytes _ _ _ _ _ _ _ Hs Hd E)|]. intros Hn.
  destruct Hc as [[? _]|[Hr Hc]]; [lia|]. split; [|intros F _ HF; by apply Hc].
  destruct (decide (n = 0)) as [->|]; [|lia]. specialize (Hc [] ltac:(intros k Hk; lia)).
  unfold Lzjb.decompress in Hc. rewrite iter_S in Hc. unfold Lzjb.dbody in Hc. cbn [Lzjb.d_dst Lzjb.d_copymask] in Hc.
  rewrite (proj2 (Z.ltb_lt _ _)) in Hc by lia. done.
Qed.

Section Codecs.
Context {ZL : Zlib}.

Lemma gzip_codec level : codec_ok gzip_compress gzip_decompress level.
Proof.
  intros src dst d0 Hs Hd [Hl H32] H0. unfold gzip_compress, z_compress_level.
  rewrite (proj2 (Z.leb_le _ _)) by lia. cbn [verify]. run. rewrite !(wrap_small 32), Nat2Z.id, firstn_all by lia.
  assert (forall out, length out = length dst -> Forall is_byte out ->
    exists n out', (if negb (zlen dst =? zlen src) then Ok (zlen src, out)
      else Ok (zlen src, src ++ drop (length src) out)) = Ok (n, out') /\
      length out' = length dst /\ Forall is_byte out' /\
      (n <= zlen dst -> 0 < n /\ forall F, zlen F <= zlen src -> agree n F out' ->
         gzip_decompress F d0 (zlen F) (zlen src) level = Ok (0, src))) as Hfail.
  { intros out Ho Hb. rewrite (proj2 (Z.eqb_neq _ _)) by lia. exists (zlen src), out. split_and!; try done. lia. }
  destruct (deflateInit level) as [err zs] eqn:Ei. destruct (err =? Z_OK) eqn:E0; cbn [negb].
  2:{ rewrite E0. cbn [negb]. by apply Hfail. }
  b2p. subst err. destruct (deflate zs src dst (zlen dst) Z_FINISH) as [[[err zs'] dst'] total] eqn:Ed.
  destruct (deflate_buffer _ _ _ _ _ _ _ _ _ Ed) as [Hlen Hby]. specialize (Hby Hs Hd).
  destruct (err =? Z_STREAM_END) eqn:E1; cbn [negb].
  2:{ set (e := if err =? Z_OK then Z_BUF_ERROR else err).
      assert ((e =? Z_OK) = false) as -> by (unfold e; destruct (err =? Z_OK) eqn:?; done). cbn [negb]. by apply Hfail. }
  b2p. subst err. destruct (deflateEnd zs' =? Z_OK) eqn:E2; cbn [negb]; [|by apply Hfail].
  exists total, dst'. split_and!; try done. intros Hn.
  destruct (deflate_total _ _ _ _ _ _ _ _ _ Ed eq_refl) as [Hpos _]. split; [done|]. intros F HF Hag.
  destruct (inflate_deflate level zs src dst (zlen dst) zs' dst' total F d0 Ei Ed Hag H0) as (zs2 & Ef & Ee).
  unfold gzip_decompress, z_uncompress. rewrite (proj2 (Z.leb_le _ _)) by lia. cbn [verify]. run.
  pose proof inflateInit_ok as Hi. destruct inflateInit as [e zi]. cbn [fst snd] in *. subst e. cbn [negb Z.eqb Z_OK].
  rewrite !(wrap_small 32), Nat2Z.id, firstn_all by lia. rewrite <- H0, Ef. cbn [negb Z.eqb Z_STREAM_END Pos.eqb].
  by rewrite Ee.
Qed.

(** The functions a block can be compressed with. *)
Definition real_codec (cpfunc : Z) : Prop :=
  ZIO_COMPRESS_OFF < cpfunc < ZIO_COMPRESS_FUNCTIONS /\ cpfunc <> ZIO_COMPRESS_EMPTY.

Lemma codec_table m cpfunc :
  machine_ok m -> real_codec cpfunc ->
  exists f g level name, codec_ok f g level /\
    zio_compress_table m !! Z.to_nat cpfunc = Some (Cci (Some f) (Some g) level name) /\
    forall m', exists f', zio_compress_table m' !! Z.to_nat cpfunc = Some (Cci (Some f') (Some g) level name).
Proof.
  intros Hm [Hc He]. change ZIO_COMPRESS_OFF with 2 in Hc. change ZIO_COMPRESS_FUNCTIONS with 14 in Hc. change ZIO_COMPRESS_EMPTY with 4 in He.
  destruct (decide (cpfunc = 3)) as [->|Hn].
  - do 4 eexists. split; [by apply (lzjb_codec m 0)|]. split; [reflexivity|]. intros m'. by eexists.
  - exists gzip_compress, gzip_decompress, (cpfunc - 4).
    assert (cpfunc = 5 \/ cpfunc = 6 \/ cpfunc = 7 \/ cpfunc = 8 \/ cpfunc = 9 \/ cpfunc = 10 \/ cpfunc = 11 \/ cpfunc = 12 \/ cpfunc = 13)
      as Hcs by lia.
    destruct Hcs as [-> | [-> | [-> | [-> | [-> | [-> | [-> | [-> | ->]]]]]]]]; eexists;
      (split; [apply gzip_codec|]); (split; [reflexivity|]); intros m'; by eexists.
Qed.
End Codecs.

(** ** Compressing a block *)

Lemma le_combine_zero l : Forall is_byte l -> le_combine l = 0 -> l = replicate (length l) 0.
Proof.
  induction 1 as [|b l Hb Hl IH]; intros H; [done|]. cbn [le_combine length replicate] in *.
  assert (0 <= le_combine l) by (pose proof (load_range false l Hl); unfold load in *; lia). unfold is_byte in Hb.
  assert (b = 0) as -> by lia. f_equal. apply IH. lia.
Qed.

Lemma load_zero be l : Forall is_byte l -> load be l = 0 -> l = replicate (length l) 0.
Proof.
  intros Hb. unfold load. destruct be; [|by apply le_combine_zero]. intros H.
  rewrite <- (reverse_involutive l). apply le_combine_zero in H; [|by apply Forall_reverse].
  rewrite H, reverse_replicate, length_replicate, !length_reverse. done.
Qed.

Lemma allzero_spec be src :
  Forall is_byte src -> (length src `mod` 8 = 0)%nat ->
  exists b, allzero be src (zlen src) = Ok b /\ (b = true -> src = replicate (length src) 0).
Proof.
  intros Hb Hm. apply Nat.Div0.mod_divides in Hm as [q Hq].
  apply (iter_total (fun w => exists k, w = 8 * Z.of_nat k /\ (k <= q)%nat /\ take (8 * k) src = replicate (8 * k) 0)
    (fun b => b = true -> src = replicate (length src) 0) (fun w => Z.to_nat ((zlen src - w) / 8))).
  - intros w (k & -> & Hk & Ht). destruct (Z.ltb_spec (8 * Z.of_nat k) (zlen src)).
    + set (a := take (8 * k) src). set (x := take 8 (drop (8 * k) src)).
      assert (src = a ++ x ++ drop (8 * k + 8) src) as Es.
      { unfold a, x. rewrite <- drop_drop, take_drop, take_drop. done. }
      assert (length a = (8 * k)%nat) as La by (unfold a; rewrite length_take; lia).
      assert (length x = 8%nat) as Lx by (unfold x; rewrite length_take, length_drop; lia).
      pose proof (rd_u64_mid be a x (drop (8 * k + 8) src) Lx) as Er. rewrite <- Es in Er.
      replace (8 * Z.of_nat k) with (zlen a) by lia. rewrite Er. run.
      destruct (load be x =? 0) eqn:E; cbn [negb]; [|done]. b2p.
      split; [|rewrite La; Z.to_euclidean_division_equations; lia].
      exists (S k). split_and!; [lia|lia|].
      assert (Forall is_byte x) as Hx by (by apply Forall_take, Forall_drop).
      apply load_zero in E; [|done]. rewrite Lx in E.
      replace (8 * S k)%nat with (8 * k + 8)%nat by lia. rewrite replicate_add, <- Ht, <- E. fold a.
      pose proof (take_app_length' (a ++ x) (drop (8 * k + 8) src) (8 * k + 8)) as Et.
      rewrite <- app_assoc, <- Es in Et. apply Et. rewrite length_app. lia.
    + intros _. assert (k = q) as -> by lia. rewrite <- Hq, firstn_all in Ht. by rewrite Ht at 1.
  - exists 0%nat. split_and!; [lia|lia|done].
  - rewrite Hq. replace (Z.of_nat (8 * q)) with (Z.of_nat q * 8) by lia.
    rewrite Z.sub_0_r, !Z.div_mul by lia. lia.
Qed.

Lemma P2ALIGN_512 x : 0 <= x < 2 ^ 64 -> P2ALIGN x SPA_MINBLOCKSIZE = x - x `mod` 512.
Proof.
  intros. unfold P2ALIGN. rewrite land_u64_opp by done. change SPA_MINBLOCKSIZE with (2 ^ 9).
  apply land_opp_pow2_align. lia.
Qed.

Lemma zio_buf_alloc_ok m size :
  0 < size <= SPA_MAXBLOCKSIZE ->
  exists buf, zio_buf_alloc m size = Ok buf /\ zlen buf = size /\ Forall is_byte buf.
Proof.
  intros Hs. unfold zio_buf_alloc. change SPA_MAXBLOCKSIZE with (2 ^ 17) in *.
  rewrite wrap_small by lia. change SPA_MINBLOCKSHIFT with 9. rewrite !Z.shiftr_div_pow2 by lia.
  rewrite (proj2 (Z.ltb_lt _ _)) by (Z.to_euclidean_division_equations; lia). cbn [verify]. run.
  eexists. split; [done|]. split; [rewrite length_map, length_seq; lia|].
  apply List.Forall_map, List.Forall_forall. intros. apply wrap_range. lia.
Qed.

(** The tail of a sector beyond the compressed bytes is zeroed; the bytes
    before it stay. *)
Lemma agree_pad n k csize out :
  0 <= n -> 0 <= k -> n + k = csize -> csize <= zlen out ->
  agree n (take (Z.to_nat csize) (take (Z.to_nat n) out ++ replicate (Z.to_nat k) 0 ++ drop (Z.to_nat csize) out)) out.
Proof.
  intros Hn Hk Hs Hl i Hi. rewrite rd_take by lia.
  unfold rd. step_if; [done|]. rewrite lookup_app_l by (rewrite length_take; lia). by rewrite lookup_take_lt by lia.
Qed.

Section Blocks.
Context {ZL : Zlib}.

(** What a successful [zio_compress_data] hands back for the block [src]. *)
Definition good_dest (cpfunc : Z) (src : list Z) (d : compressed_to) : Prop :=
  match destp d with
  | None => destsize d = 0 /\ src = replicate (length src) 0
  | Some dest =>
      size_ok (destsize d) /\ destsize d < zlen src /\ destsize d <= zlen dest /\ Forall is_byte dest /\
      forall m d0, length d0 = length src ->
        zio_decompress_data m cpfunc (take (Z.to_nat (destsize d)) dest) (destsize d) d0 (zlen src) = Ok (0, src)
  end.

Lemma real_codec_u32 cpfunc : 0 <= cpfunc < ZIO_COMPRESS_FUNCTIONS -> (u32 cpfunc <? ZIO_COMPRESS_FUNCTIONS) = true.
Proof. intros H. change ZIO_COMPRESS_FUNCTIONS with 14 in *. rewrite wrap_small by lia. apply Z.ltb_lt. lia. Qed.

Lemma compress_sizes n :
  size_ok n ->
  let d := P2ALIGN (u64 (n - Z.shiftr n 3)) SPA_MINBLOCKSIZE in
  0 <= d < n /\ d `mod` 512 = 0 /\ d <= SPA_MAXBLOCKSIZE.
Proof.
  intros [Hm Hr] d. unfold d. change SPA_MAXBLOCKSIZE with 131072 in *. rewrite Z.shiftr_div_pow2 by lia.
  assert (0 <= n - n / 2 ^ 3 < n) by (Z.to_euclidean_division_equations; lia).
  rewrite wrap_small, P2ALIGN_512 by lia. Z.to_euclidean_division_equations. lia.
Qed.

Lemma compress_data_spec m be cpfunc src :
  machine_ok m -> real_codec cpfunc -> block_ok src ->
  exists r, zio_compress_data m be cpfunc src (zlen src) = Ok r /\
    forall d, r = Some d -> good_dest cpfunc src d.
Proof.
  intros Hm Hc [Hb Hs]. pose proof Hs as [Hs1 Hs2].
  destruct (size_ok_mod16 _ Hs) as (H16 & _ & _).
  assert (length src `mod` 8 = 0)%nat as H8.
  { apply Nat.Div0.mod_divides in H16 as [q ->]. replace (16 * q)%nat with (2 * q * 8)%nat by lia. apply Nat.Div0.mod_mul. }
  destruct (codec_table m cpfunc Hm Hc) as (f & g & level & name & Hok & Etab & Etab').
  assert (0 <= cpfunc < ZIO_COMPRESS_FUNCTIONS /\ cpfunc <> ZIO_COMPRESS_EMPTY) as [Hc1 Hc2].
  { destruct Hc. change ZIO_COMPRESS_OFF with 2 in *. split; [lia|done]. }
  unfold zio_compress_data. rewrite (real_codec_u32 _ Hc1). cbn [verify]. run. rewrite Etab. cbn [ci_compress ci_level].
  rewrite bool_decide_eq_true_2 by done. rewrite orb_true_r. cbn [verify]. run.
  destruct (allzero_spec be src Hb H8) as (b & Ez & Hz). rewrite Ez. run. destruct b.
  { eexists. split; [done|]. intros d [= <-]. split; [done|]. by apply Hz. }
  rewrite (proj2 (Z.eqb_neq _ _)) by done. cbn zeta. destruct (compress_sizes _ Hs) as (Hd1 & Hd2 & Hd3).
  set (dbs := P2ALIGN _ _) in *. destruct (dbs =? 0) eqn:E0; [eexists; split; [done|]; discriminate|]. b2p.
  destruct (zio_buf_alloc_ok m dbs) as (buf & Ea & La & Ba); [lia|]. rewrite Ea. run.
  change SPA_MAXBLOCKSIZE with 131072 in *.
  assert (exists n out, f src buf (zlen src) dbs level = Ok (n, out) /\ zlen out = dbs /\ Forall is_byte out /\
     (n <= dbs -> 0 < n /\ forall d0 F, length d0 = length src -> zlen F <= zlen src -> agree n F out ->
        g F d0 (zlen F) (zlen src) level = Ok (0, src))) as (n & out & Ef & Lo & Bo & Hn).
  { destruct (Hok src buf src Hb Ba) as (n & out & Ef & Lo & Bo & Hn); [lia|done|]. rewrite La in *.
    exists n, out. split_and!; [done|lia|done|]. intros Hle. split; [by apply Hn|]. intros d0 F H0 HF Hag.
    destruct (Hok src buf d0 Hb Ba) as (n' & out' & Ef' & _ & _ & Hn'); [lia|done|]. rewrite La, Ef in Ef'.
    injection Ef' as <- <-. rewrite La in Hn'. by apply Hn'. }
  rewrite Ef. run. destruct (dbs <? n) eqn:E1; [eexists; split; [done|]; discriminate|]. b2p.
  destruct (Hn E1) as [Hpos Hdec].
  change SPA_MINBLOCKSIZE with (2 ^ 9). destruct (P2ROUNDUP_spec n 9) as [Hru Hrm]; [lia|lia|lia|].
  set (cs := P2ROUNDUP n (2 ^ 9)) in *.
  assert (cs <= dbs) by (Z.to_euclidean_division_equations; lia).
  rewrite (wrap_small 64 (cs - n)) by lia.
  set (padded := if cs - n =? 0 then out else take (Z.to_nat n) out ++ replicate (Z.to_nat (cs - n)) 0 ++ drop (Z.to_nat cs) out).
  assert ((if negb (cs - n =? 0) then
       if n + (cs - n) <=? zlen out then
         Ok (take (Z.to_nat n) out ++ replicate (Z.to_nat (cs - n)) 0 ++ drop (Z.to_nat (n + (cs - n))) out, n + (cs - n))
       else Err Fault else Ok (out, n)) = Ok (padded, cs)) as Epad.
  { unfold padded. replace (n + (cs - n)) with cs by lia. destruct (cs - n =? 0) eqn:E2; cbn [negb]; b2p.
    - replace n with cs by lia. done.
    - rewrite (proj2 (Z.leb_le _ _)) by lia. done. }
  rewrite Epad. run. rewrite (proj2 (Z.leb_le cs dbs)) by done. cbn [verify]. run.
  change (2 ^ 9) with (Z.shiftl 1 9) at 1. rewrite SpaceMap.P2PHASE_mod, Hrm by lia. cbn [verify Z.eqb]. run.
  eexists. split; [done|]. intros d [= <-]. unfold good_dest. cbn [destp destsize].
  assert (zlen padded = dbs /\ Forall is_byte padded /\ agree n (take (Z.to_nat cs) padded) out) as (Lp & Bp & Ap).
  { unfold padded. destruct (cs - n =? 0) eqn:E2; b2p.
    - split_and!; [done|done|]. intros i Hi. apply rd_take. lia.
    - split_and!; [rewrite !length_app, length_take, length_replicate, length_drop; lia| |apply agree_pad; lia].
      rewrite !List.Forall_app. split_and!; [by apply Forall_take|by apply Forall_replicate|by apply Forall_drop]. }
  split_and!; [split; [done|]; change SPA_MAXBLOCKSIZE with 131072; Z.to_euclidean_division_equations; lia|lia|lia|done|].
  intros m' d0 H0. unfold zio_decompress_data. rewrite (real_codec_u32 _ Hc1). cbn [verify]. run.
  destruct (Etab' m') as (f' & ->).
  assert (zlen (take (Z.to_nat cs) padded) = cs) as Lt by (rewrite length_take; lia).
  rewrite <- Lt at 2. apply Hdec; [done|lia|done].
Qed.

(** ** The way to disk *)

(** The bytes on disk [disk], of compression [c], stand for the block [orig]. *)
Definition stands_for (c : Z) (disk orig : list Z) : Prop :=
  if c =? ZIO_COMPRESS_OFF then disk = orig
  else forall m d0, length d0 = length orig ->
    zio_decompress_data m c disk (zlen disk) d0 (zlen orig) = Ok (0, orig).

(** The logical size in the property word. *)
Definition lsize_field (bp : blkptr) : Z := BF64_GET_SB (blk_prop bp) 0 16 SPA_MINBLOCKSHIFT 1.

(** The pointer that [zio_write_compress] leaves describes the block. *)
Definition described (bp : blkptr) (lsize psize c : Z) : Prop :=
  lsize_field bp = lsize /\ BP_GET_PSIZE bp = psize /\ BP_GET_COMPRESS bp = c /\ BP_IS_GANG bp = false.

Lemma lsize_field_set bp x : size_ok x -> lsize_field (BP_SET_LSIZE bp x) = x.
Proof.
  intros [Hm Hx]. unfold lsize_field, BP_SET_LSIZE. cbn [set_prop blk_prop].
  change SPA_MAXBLOCKSIZE with 131072 in Hx. change SPA_MINBLOCKSHIFT with 9. apply BF64_get_set_sb; (lia || done).
Qed.

Lemma lsize_field_other bp x :
  lsize_field (BP_SET_PSIZE bp x) = lsize_field bp /\ lsize_field (BP_SET_COMPRESS bp x) = lsize_field bp /\
  lsize_field (BP_SET_CHECKSUM bp x) = lsize_field bp /\ lsize_field (BP_SET_BYTEORDER bp x) = lsize_field bp.
Proof.
  unfold lsize_field, BP_SET_PSIZE, BP_SET_COMPRESS, BP_SET_CHECKSUM, BP_SET_BYTEORDER, BF64_GET_SB, BF64_SET_SB.
  cbn [set_prop blk_prop]. rewrite !BF64_get_set_other by lia. done.
Qed.

Lemma described_new bp lsize psize c :
  size_ok lsize -> size_ok psize -> 0 <= c < 256 -> BP_IS_GANG bp = false ->
  described (BP_SET_COMPRESS (BP_SET_PSIZE (BP_SET_LSIZE bp lsize) psize) c) lsize psize c.
Proof.
  intros Hl Hp Hc Hg. split_and!; [| | |exact Hg].
  - rewrite (proj1 (proj2 (lsize_field_other _ c))), (proj1 (lsize_field_other _ psize)). by apply lsize_field_set.
  - rewrite (proj1 (proj2 (get_psize_other _ c))). by apply get_psize_set.
  - by apply get_compress_set.
Qed.

Lemma described_again bp lsize c :
  size_ok lsize -> 0 <= c < 256 -> BP_IS_GANG bp = false ->
  described (BP_SET_COMPRESS (BP_SET_LSIZE bp lsize) c) lsize (BP_GET_PSIZE bp) c.
Proof.
  intros Hl Hc Hg. split_and!; [| | |exact Hg].
  - rewrite (proj1 (proj2 (lsize_field_other _ c))). by apply lsize_field_set.
  - rewrite (proj1 (proj2 (get_psize_other _ c))). exact (proj1 (get_psize_other bp lsize)).
  - by apply get_compress_set.
Qed.

(** A request to write a block: a new block's pointer is a hole with no
    addresses, a rewritten block was born in the same transaction group. *)
Definition write_request (z : zio) : Prop :=
  has_block z /\ ZIO_COMPRESS_OFF <= io_compress z < ZIO_COMPRESS_FUNCTIONS /\
  BP_IS_GANG (io_bp z) = false /\ is_u64 (blk_birth (io_bp z)) /\
  (blk_birth (io_bp z) <> io_txg z -> BP_IS_HOLE (io_bp z) = true /\ BP_GET_NDVAS (io_bp z) = 0%nat).

(** The compression step alone: the function recorded, and the new buffer. *)
Definition chosen (z : zio) (c : Z) (cbuf : option (list Z)) (csize cbufsize : Z) : Prop :=
  0 <= c < 256 /\
  (c = ZIO_COMPRESS_OFF /\ csize = io_size z \/
   c <> ZIO_COMPRESS_OFF /\ good_dest c (io_data z) (Dest cbuf csize cbufsize)).

Lemma compress_step m be z c0 :
  machine_ok m -> has_block z -> ZIO_COMPRESS_OFF <= c0 < ZIO_COMPRESS_FUNCTIONS ->
  exists c cbuf csize cbufsize,
    (if negb (c0 =? ZIO_COMPRESS_OFF) then
       r ← zio_compress_data m be c0 (io_data z) (io_size z);
       Ok (match r with
           | Some d => (c0, destp d, destsize d, destbufsize d)
           | None => (ZIO_COMPRESS_OFF, None, io_size z, 0)
           end)
     else Ok (c0, None, io_size z, 0)) = Ok (c, cbuf, csize, cbufsize) /\ chosen z c cbuf csize cbufsize.
Proof.
  intros Hm Hz Hc. destruct (has_block_data z Hz) as [Hd Hs].
  assert (0 <= c0 < 256) as Hc' by (change ZIO_COMPRESS_OFF with 2 in *; change ZIO_COMPRESS_FUNCTIONS with 14 in *; lia).
  destruct (Z.eqb_spec c0 ZIO_COMPRESS_OFF) as [->|Hne]; cbn [negb].
  { do 4 eexists. split; [done|]. split; [done|]. by left. }
  destruct (decide (c0 = ZIO_COMPRESS_EMPTY)) as [->|Hne2].
  - destruct Hd as [Hb Hsz]. destruct (size_ok_mod16 _ Hsz) as (H16 & _ & _).
    assert (length (io_data z) `mod` 8 = 0)%nat as H8.
    { apply Nat.Div0.mod_divides in H16 as [q ->]. replace (16 * q)%nat with (2 * q * 8)%nat by lia. apply Nat.Div0.mod_mul. }
    destruct (allzero_spec be (io_data z) Hb H8) as (b & Ez & Hz0). unfold zio_compress_data. cbn [verify]. run.
    change (zio_compress_table m !! Z.to_nat ZIO_COMPRESS_EMPTY) with (Some (Cci None None 0 "empty"%string)).
    cbn [ci_compress Z.eqb Pos.eqb orb verify ZIO_COMPRESS_EMPTY]. run. rewrite Hs, Ez. run.
    destruct b; do 4 eexists; (split; [done|]).
    + split; [done|]. right. split; [done|]. split; [done|]. by apply Hz0.
    + split; [done|]. left. by rewrite Hs.
  - destruct (compress_data_spec m be c0 (io_data z) Hm) as (r & Er & Hr); [split; [lia|done]|done|].
    rewrite Hs, Er. run. destruct r as [[dp ds db]|]; do 4 eexists; (split; [done|]); (split; [done|]).
    + right. split; [done|]. by apply Hr.
    + left. by rewrite Hs.
Qed.

Lemma write_compress_spec m be pass z :
  machine_ok m -> write_request z ->
  exists z1, zio_write_compress m be pass z = Ok z1 /\ io_checksum z1 = io_checksum z /\
    ((io_bp z1 = BP_ZERO /\ io_data z = replicate (length (io_data z)) 0) \/
     (has_block z1 /\ is_u64 (blk_birth (io_bp z1)) /\
      exists c, described (io_bp z1) (io_size z) (io_size z1) c /\ stands_for c (io_data z1) (io_data z))).
Proof.
  intros Hm (Hz & Hc & Hg & Hb & Hnew). destruct (has_block_data z Hz) as [Hd Hs]. unfold zio_write_compress.
  set (birth := blk_birth (io_bp z) =? io_txg z). set (bp := io_bp z) in *.
  set (c0 := if birth then if zp_dontcompress <? pass then ZIO_COMPRESS_OFF else io_compress z else io_compress z).
  set (p0 := if birth then pass else 1).
  assert ((if birth then Ok (if zp_dontcompress <? pass then ZIO_COMPRESS_OFF else io_compress z, pass)
     else _ ← verify (BP_IS_HOLE bp); Ok (io_compress z, 1)) = Ok (c0, p0)) as ->.
  { unfold c0, p0, birth. destruct (Z.eqb_spec (blk_birth bp) (io_txg z)) as [|Hne]; [done|].
    by rewrite (proj1 (Hnew Hne)). }
  run. assert (ZIO_COMPRESS_OFF <= c0 < ZIO_COMPRESS_FUNCTIONS) as Hc0.
  { unfold c0. destruct birth, (zp_dontcompress <? pass); done. }
  destruct (compress_step m be z c0 Hm Hz Hc0) as (c & cbuf & csize & cbs & Ec & Hc256 & Hch). rewrite Ec. run.
  clear Ec Hc0 c0.
  assert (exists z', (if negb (c =? ZIO_COMPRESS_OFF) && negb (csize =? 0)
      then match cbuf with Some cbuf => Ok (zio_push_transform z cbuf csize cbs) | None => Err Fault end
      else Ok z) = Ok z' /\ io_checksum z' = io_checksum z /\ io_txg z' = io_txg z /\
      (csize = 0 /\ io_data z = replicate (length (io_data z)) 0 \/
       csize <> 0 /\ has_block z' /\ io_size z' = csize /\ size_ok csize /\ stands_for c (io_data z') (io_data z)))
    as (z' & -> & Hck & Htx & Hdata).
  { destruct Hch as [[-> ->]|[Hne Hgd]].
    - exists z. split_and!; [done|done|done|]. right. destruct Hd as [_ Hsz]. rewrite Hs.
      assert (zlen (io_data z) <> 0) by (destruct Hsz; change SPA_MAXBLOCKSIZE with 131072 in *; lia). done.
    - rewrite (proj2 (Z.eqb_neq _ _)) by done. cbn [negb andb]. unfold good_dest in Hgd. cbn [destp destsize] in Hgd.
      destruct cbuf as [cb|].
      + destruct Hgd as (Hsz & _ & Hle & Hby & Hdec). pose proof Hsz as [_ Hr].
        rewrite (proj2 (Z.eqb_neq csize 0)) by lia. cbn [negb]. eexists. split_and!; [done|done|done|]. right.
        assert (io_data (zio_push_transform z cb csize cbs) = take (Z.to_nat csize) cb) as Ed by done.
        assert (zlen (take (Z.to_nat csize) cb) = csize) as El by (rewrite length_take; lia).
        split_and!; [lia| |done|done|].
        * do 2 eexists. split; [done|]. rewrite Ed. split; [|by rewrite El]. split; [by apply Forall_take|by rewrite El].
        * unfold stands_for. rewrite (proj2 (Z.eqb_neq _ _)) by done. rewrite Ed, El. exact Hdec.
      + destruct Hgd as [-> Hz0]. exists z. split_and!; [done|done|done|]. by left. }
  run. rewrite Htx. fold birth. destruct Hd as [_ Hsz].
  assert (has_block z' -> forall bp' p, has_block (set_pipeline (set_bp z' bp') p)) as Hset by done.
  destruct (birth && (BP_GET_PSIZE bp =? csize) && (zp_rewrite <? p0)) eqn:Erw.
  - apply andb_true_iff in Erw as [[_ Eps]%andb_true_iff _]. apply Z.eqb_eq in Eps.
    destruct Hdata as [[-> Hz0]|(Hne & Hz' & Hsz' & Hok & Hst)].
    + unfold BP_GET_PSIZE, BF64_GET_SB in Eps. exfalso. revert Eps. clear.
      pose proof (BF64_GET_range (blk_prop bp) 16 16 ltac:(lia)). change SPA_MINBLOCKSHIFT with 9.
      rewrite Z.shiftl_mul_pow2 by lia. rewrite wrap_small by lia. lia.
    + rewrite (proj2 (Z.eqb_neq csize 0)) by done. cbn [negb verify]. run. eexists. split; [done|]. split; [done|]. right.
      split; [by apply Hset|]. split; [exact Hb|]. exists c. split; [|exact Hst].
      change (io_size (set_pipeline _ _)) with (io_size z'). rewrite Hsz', <- Eps, Hs. by apply described_again.
  - destruct Hdata as [[-> Hz0]|(Hne & Hz' & Hsz' & Hok & Hst)].
    + cbn [Z.eqb]. eexists. split; [done|]. split; [done|]. by left.
    + rewrite (proj2 (Z.eqb_neq csize 0)) by done.
      set (bp1 := if birth then BP_ZERO else bp).
      assert (BP_GET_NDVAS bp1 = 0%nat /\ BP_IS_GANG bp1 = false /\ is_u64 (blk_birth bp1)) as (Hn & Hg1 & Hb1).
      { unfold bp1, birth. destruct (Z.eqb_spec (blk_birth bp) (io_txg z)) as [|Hnb]; [by vm_compute|].
        by destruct (Hnew Hnb). }
      rewrite bool_decide_eq_true_2 by done. cbn [verify]. run. eexists. split; [done|]. split; [done|]. right.
      split; [by apply Hset|]. split; [exact Hb1|]. exists c. split; [|exact Hst].
      change (io_size (set_pipeline _ _)) with (io_size z'). rewrite Hsz', Hs. apply described_new; try done.
Qed.

(** ** The way back *)

(** A request to read: the pointer as it is in the tree, addresses and all. *)
Lemma read_request m bp dst zb spa disk c :
  described bp (zlen dst) (zlen disk) c -> BP_IS_HOLE bp = false -> size_ok (zlen dst) -> block_ok disk ->
  (c = ZIO_COMPRESS_OFF -> length disk = length dst) ->
  exists zr, zio_read m spa bp dst (zlen dst) zb = Ok zr /\ io_bp zr = bp /\ io_error zr = None /\
    io_pipeline zr = (if c =? ZIO_COMPRESS_OFF then ZIO_READ_PIPELINE
                      else Z.lor ZIO_READ_PIPELINE (Z.shiftl 1 ZIO_STAGE_READ_DECOMPRESS)) /\
    io_transform_stack (set_data zr disk) =
      if c =? ZIO_COMPRESS_OFF then [Zt disk (zlen dst) (zlen dst)]
      else [Zt disk (zlen disk) (zlen disk); Zt dst (zlen dst) (zlen dst)].
Proof.
  intros (Hl & Hp & Hc & Hg) Hh [Hm Hr] [_ [_ Hdr]] Hoff.
  unfold zio_read, BP_GET_LSIZE. rewrite Hh. fold (lsize_field bp). rewrite Hl, Z.eqb_refl. cbn [verify]. run.
  rewrite (proj2 (Z.leb_le _ _)) by apply Hr. cbn [verify]. run.
  change SPA_MINBLOCKSIZE with (Z.shiftl 1 9). rewrite SpaceMap.P2PHASE_mod, Hm by lia. cbn [verify Z.eqb]. run.
  rewrite Hc, Hg, Hp. destruct (Z.eqb_spec c ZIO_COMPRESS_OFF) as [Ec|Ec]; cbn [negb].
  - eexists. split_and!; [done..|]. cbn [set_data set_stack io_transform_stack zt_size zt_data zt_bufsize].
    rewrite Nat2Z.id, drop_ge, app_nil_r by lia. done.
  - destruct (zio_buf_alloc_ok m (zlen disk)) as (cb & Ea & La & _); [lia|]. rewrite Ea. run.
    eexists. split_and!; [done..|].
    cbn [set_data zio_push_transform set_pipeline set_stack io_transform_stack zt_size zt_data zt_bufsize].
    rewrite Nat2Z.id, drop_ge, app_nil_r by lia. done.
Qed.

(** Decompression into the caller's buffer. *)
Lemma read_decompress_spec m z c disk orig dst st :
  io_transform_stack z = [Zt disk (zlen disk) (zlen disk); Zt dst (zlen dst) (zlen dst)] ++ st ->
  BP_GET_COMPRESS (io_bp z) = c -> c <> ZIO_COMPRESS_OFF -> stands_for c disk orig -> length dst = length orig ->
  exists z1, zio_read_decompress m z = Ok z1 /\ io_data z1 = orig /\ io_error z1 = io_error z /\ io_pipeline z1 = io_pipeline z.
Proof.
  intros Est Hc Hne Hst Hl. unfold zio_read_decompress. rewrite Hc, (proj2 (Z.eqb_neq _ _)) by done.
  cbn [negb verify]. run. unfold zio_pop_transform. rewrite Est. cbn [app]. run. cbn [zt_size zt_data].
  set (z0 := set_stack z _).
  assert (io_data z0 = dst /\ io_size z0 = zlen orig) as [-> ->].
  { unfold io_data, io_size. cbn [z0 set_stack io_transform_stack zt_size zt_data].
    rewrite Nat2Z.id, firstn_all. split; [done|lia]. }
  rewrite Nat2Z.id, firstn_all. unfold stands_for in Hst. rewrite (proj2 (Z.eqb_neq _ _)) in Hst by done.
  rewrite (Hst m dst Hl). run. cbn [Z.eqb negb]. eexists. split; [done|].
  unfold io_data, set_data. cbn [z0 set_stack io_transform_stack zt_size zt_data io_error io_pipeline]. split; [|done].
  rewrite Nat2Z.id. by apply take_app_length'.
Qed.
End Blocks.

Section WriteRead.
Context {ZL : Zlib}.

(** The pointer as the tree keeps it: addresses and birth were added. *)
Definition placed (bp bp1 : blkptr) : Prop :=
  blk_prop bp = blk_prop bp1 /\ blk_cksum bp = blk_cksum bp1 /\ BP_IS_GANG bp = false /\ 0 < blk_birth bp < 2 ^ 64.

Lemma described_placed bp bp1 l p c : described bp1 l p c -> placed bp bp1 -> described bp l p c /\ BP_IS_HOLE bp = false.
Proof.
  intros (Hl & Hp & Hc & Hg) (Ep & _ & Eg & Hb). unfold described, lsize_field, BP_GET_PSIZE, BP_GET_COMPRESS, BP_IS_HOLE in *.
  rewrite Ep, Eg. split; [done|]. apply Z.eqb_neq. lia.
Qed.

Lemma described_generated be bp l p c ck zc : described bp l p c -> described (generated be bp ck zc) l p c.
Proof.
  intros (Hl & Hp & Hc & Hg). unfold generated.
  set (b1 := BP_SET_CHECKSUM bp ck). set (b2 := BP_SET_BYTEORDER b1 (ZFS_HOST_BYTEORDER be)).
  assert (lsize_field (set_cksum b2 zc) = lsize_field b2 /\ BP_GET_PSIZE (set_cksum b2 zc) = BP_GET_PSIZE b2 /\
    BP_GET_COMPRESS (set_cksum b2 zc) = BP_GET_COMPRESS b2) as (E1 & E2 & E3) by done.
  split_and!; [rewrite E1|rewrite E2|rewrite E3|exact Hg].
  - unfold b2, b1. rewrite (proj2 (proj2 (proj2 (lsize_field_other _ _)))), (proj1 (proj2 (proj2 (lsize_field_other _ _)))). done.
  - unfold b2, b1. rewrite (proj2 (proj2 (proj2 (get_psize_other _ _)))), (proj1 (proj2 (proj2 (get_psize_other _ _)))). done.
  - unfold b2, b1. rewrite (proj2 (proj2 (proj2 (get_compress_other _ _)))), (proj1 (proj2 (proj2 (get_compress_other _ _)))). done.
Qed.

(** The stages a good read goes through. *)
Lemma next_stages z :
  io_error z = None ->
  (io_pipeline z = ZIO_READ_PIPELINE ->
   zio_next_stage z ZIO_STAGE_VDEV_IO_ASSESS = Ok ZIO_STAGE_WAIT_CHILDREN_DONE /\
   zio_next_stage z ZIO_STAGE_WAIT_CHILDREN_DONE = Ok ZIO_STAGE_CHECKSUM_VERIFY /\
   zio_next_stage z ZIO_STAGE_CHECKSUM_VERIFY = Ok ZIO_STAGE_DONE) /\
  (io_pipeline z = Z.lor ZIO_READ_PIPELINE (Z.shiftl 1 ZIO_STAGE_READ_DECOMPRESS) ->
   zio_next_stage z ZIO_STAGE_VDEV_IO_ASSESS = Ok ZIO_STAGE_WAIT_CHILDREN_DONE /\
   zio_next_stage z ZIO_STAGE_WAIT_CHILDREN_DONE = Ok ZIO_STAGE_CHECKSUM_VERIFY /\
   zio_next_stage z ZIO_STAGE_CHECKSUM_VERIFY = Ok ZIO_STAGE_READ_DECOMPRESS /\
   zio_next_stage z ZIO_STAGE_READ_DECOMPRESS = Ok ZIO_STAGE_DONE).
Proof.
  intros He. unfold zio_next_stage. rewrite He. rewrite bool_decide_eq_false_2 by (intros Hn; by apply Hn).
  cbn [andb]. split; intros ->; vm_compute; done.
Qed.

Lemma run_read_step m be fuel pad0 inj z stage next z' :
  zio_next_stage z stage = Ok next -> read_stage m be pad0 inj z next = Ok z' ->
  run_read m be (S fuel) pad0 inj z stage =
    if next =? ZIO_STAGE_DONE then Ok z' else run_read m be fuel pad0 inj z' next.
Proof. intros En Es. cbn [run_read]. rewrite En. run. rewrite Es. done. Qed.

(** Reading a block back: what the device holds stands for the block, and
    every reader accepts it. *)
Lemma read_block_spec m be pad0 inj spa bp bp1 disk orig dst zb c :
  pad_ok pad0 -> zio_injection_enabled inj = 0 -> described bp1 (zlen orig) (zlen disk) c -> placed bp bp1 ->
  verifies_anywhere bp1 disk -> block_ok disk -> size_ok (zlen orig) -> stands_for c disk orig -> length dst = length orig ->
  exists z, read_block m be pad0 inj spa bp disk dst zb = Ok z /\ io_error z = None /\ io_data z = orig.
Proof.
  intros Hp Hi Hde Hpl Hv Hd Hso Hst Hl. destruct (described_placed _ _ _ _ _ Hde Hpl) as [Hde' Hh].
  pose proof Hde' as (_ & _ & Hc & Hg').
  assert (c = ZIO_COMPRESS_OFF -> length disk = length dst) as Hoff.
  { intros ->. unfold stands_for in Hst. rewrite Z.eqb_refl in Hst. by rewrite Hst. }
  rewrite <- Hl in Hde', Hso.
  destruct (read_request m bp dst zb spa disk c Hde' Hh Hso Hd Hoff) as (zr & Er & Ebp & Eerr & Epipe & Est).
  unfold read_block. rewrite Er. run.
  set (z0 := set_data zr disk) in *.
  assert (io_bp z0 = bp /\ io_error z0 = None /\ io_pipeline z0 = io_pipeline zr) as (B0 & E0 & P0).
  { unfold z0, set_data. by destruct (io_transform_stack zr). }
  assert (io_data z0 = disk) as D0.
  { unfold io_data. rewrite Est. destruct (Z.eqb_spec c ZIO_COMPRESS_OFF) as [Ec|Ec]; cbn [zt_size zt_data].
    - rewrite Nat2Z.id, <- (Hoff Ec). apply firstn_all.
    - rewrite Nat2Z.id. apply firstn_all. }
  assert (zio_checksum_verify be pad0 inj z0 = Ok (set_error (set_data z0 disk) None)) as Ev.
  { unfold zio_checksum_verify. rewrite D0, (Hv be pad0 inj z0 Hp); [done| |by left].
    rewrite B0. destruct Hpl as (P1 & P2 & P3 & P4). destruct Hde as (_ & _ & _ & Hg). unfold checked_as, verifier.
    rewrite P3, Hg. split_and!; try done; unfold is_u64; lia. }
  set (zv := set_error (set_data z0 disk) None) in *.
  assert (io_error zv = None /\ io_pipeline zv = io_pipeline zr /\ io_bp zv = bp /\
    io_transform_stack zv = io_transform_stack z0) as (E1 & P1 & B1 & S1).
  { split; [done|]. unfold zv, set_data. rewrite Est.
    destruct (Z.eqb_spec c ZIO_COMPRESS_OFF) as [Ec|Ec];
      cbn [zt_size zt_data zt_bufsize set_error set_stack io_pipeline io_bp io_transform_stack];
      rewrite Nat2Z.id, drop_ge, app_nil_r by (rewrite ?Hoff by done; lia); done. }
  change (S (Z.to_nat ZIO_STAGE_DONE)) with (S (S (S (S 18)))).
  destruct (next_stages z0 E0) as [N1 N2]. destruct (next_stages zv E1) as [M1 M2].
  rewrite P0, Epipe in N1, N2. rewrite P1, Epipe in M1, M2.
  destruct (Z.eqb_spec c ZIO_COMPRESS_OFF) as [Ec|Ec].
  - destruct (N1 eq_refl) as (N3 & N4 & _). destruct (M1 eq_refl) as (_ & _ & M3).
    rewrite (run_read_step _ _ _ _ _ _ _ _ z0 N3 eq_refl). cbn [Z.eqb Pos.eqb ZIO_STAGE_WAIT_CHILDREN_DONE ZIO_STAGE_DONE].
    rewrite (run_read_step _ _ _ _ _ _ _ _ zv N4 Ev). cbn [Z.eqb Pos.eqb ZIO_STAGE_CHECKSUM_VERIFY ZIO_STAGE_DONE].
    rewrite (run_read_step _ _ _ _ _ _ _ _ zv M3 eq_refl).
    exists zv. split; [done|]. split; [done|]. unfold io_data in D0 |- *. rewrite S1, D0.
    unfold stands_for in Hst. rewrite Ec, Z.eqb_refl in Hst. done.
  - destruct (N2 eq_refl) as (N3 & N4 & _). destruct (M2 eq_refl) as (_ & _ & M3 & _).
    destruct (read_decompress_spec m zv c disk orig dst []) as (z1 & Ez1 & Dz1 & Err1 & P2); try done.
    { rewrite S1, Est. done. }
    { by rewrite B1. }
    rewrite E1 in Err1. destruct (next_stages z1 Err1) as [_ L2]. rewrite P2, P1, Epipe in L2.
    destruct (L2 eq_refl) as (_ & _ & _ & L3).
    rewrite (run_read_step _ _ _ _ _ _ _ _ z0 N3 eq_refl). cbn [Z.eqb Pos.eqb ZIO_STAGE_WAIT_CHILDREN_DONE ZIO_STAGE_DONE].
    rewrite (run_read_step _ _ _ _ _ _ _ _ zv N4 Ev). cbn [Z.eqb Pos.eqb ZIO_STAGE_CHECKSUM_VERIFY ZIO_STAGE_DONE].
    rewrite (run_read_step _ _ _ _ _ _ _ _ z1 M3 Ez1). cbn [Z.eqb Pos.eqb ZIO_STAGE_READ_DECOMPRESS ZIO_STAGE_DONE].
    rewrite (run_read_step _ _ _ _ _ _ _ _ z1 L3 eq_refl). by exists z1.
Qed.

(** ** Properties *)

(** C38: a block written through the pipeline reads back as it was.  For every
    compression function (LZJB, gzip of any level, none, or detection of empty
    blocks only) and every checksum kept in the block pointer, in any sync
    pass, for new and for rewritten blocks: [zio_write_compress] returns; it
    either makes the pointer a hole, and then the block was all zeroes, or
    sends the request on to [zio_checksum_generate], which succeeds; and then a
    read of the pointer, with whatever addresses and birth it got, on a machine
    of either byte order, runs its pipeline to the end without error and leaves
    exactly the original block in the caller's buffer, whatever the stack, the
    heap and the caller's buffer held before. *)
Theorem zio_write_read (m m' : machine) (be be' : bool) (pad0 pad0' : list Z) (pass : Z) (z : zio) (inj : injector) :
  machine_ok m -> pad_ok pad0 -> pad_ok pad0' -> write_request z ->
  ZIO_CHECKSUM_OFF <= io_checksum z < ZIO_CHECKSUM_FUNCTIONS -> in_tail (io_checksum z) = false ->
  zio_injection_enabled inj = 0 ->
  exists z1, zio_write_compress m be pass z = Ok z1 /\
    (io_bp z1 = BP_ZERO /\ io_data z = replicate (length (io_data z)) 0 \/
     exists z2, zio_checksum_generate be pad0 z1 = Ok z2 /\
       forall bp dst zb spa, placed bp (io_bp z2) -> length dst = length (io_data z) ->
         exists zr, read_block m' be' pad0' inj spa bp (io_data z2) dst zb = Ok zr /\
           io_error zr = None /\ io_data zr = io_data z).
Proof.
  intros Hm Hp Hp' Hw Hc Ht Hi. destruct (write_compress_spec m be pass z Hm Hw) as (z1 & E1 & Ek & Hz1).
  exists z1. split; [done|]. destruct Hz1 as [Hz1|(Hb1 & Hu & c & Hde & Hst)]; [by left|]. right.
  destruct Hw as (Hz & _). destruct (has_block_data z Hz) as [[_ Hso] Hs]. destruct (has_block_data z1 Hb1) as [Hd1 Hs1].
  destruct (generate_verifies be pad0 z1 Hp Hb1) as (z2 & E2 & (zc & Ebp) & Hd2 & Hdata & _ & Hv);
    [by rewrite Ek| |by apply Hde|by apply Hde|done|].
  { rewrite Ek. intros Eg. rewrite Eg in Ht. done. }
  exists z2. split; [done|]. intros bp dst zb spa Hpl Hl. rewrite Ek in Hdata. rewrite (Hdata Ht) in *.
  apply (read_block_spec m' be' pad0' inj spa bp (io_bp z2) (io_data z1) (io_data z) dst zb c); try done.
  rewrite Ebp, <- Hs, <- Hs1. by apply described_generated.
Qed.
End WriteRead.

(** A zlib that compresses runs of one byte, enough to satisfy the interface. *)
Module RunZlib.
Definition run_of (src : list Z) : option Z :=
  match src with b :: l => if decide (Forall (fun x => x = b) l) then Some b else None | [] => None end.

Definition run_deflate (src dst : list Z) (avail : Z) : Z * unit * list Z * Z :=
  match run_of src, dst with
  | Some b, _ :: dst' => if 0 <? avail then (Z_STREAM_END, tt, b :: dst', 1) else (Z_OK, tt, dst, 0)
  | _, _ => (Z_OK, tt, dst, 0)
  end.
Definition run_inflate (src dst : list Z) : Z * unit * list Z * Z :=
  match src with b :: _ => (Z_STREAM_END, tt, replicate (length dst) b, zlen dst) | [] => (Z_OK, tt, dst, 0) end.

Lemma run_of_replicate src b : run_of src = Some b -> src = replicate (length src) b /\ In b src.
Proof.
  destruct src as [|x l]; [done|]. cbn. case_decide as H; [|done]. intros [= ->]. split; [|by left].
  f_equal. induction H as [|y l -> _ IH]; [done|]. cbn. by f_equal.
Qed.

#[export] Instance run_zlib : Zlib.
Proof.
  refine {| z_stream := unit; deflateInit _ := (Z_OK, tt); deflate _ src dst avail _ := run_deflate src dst avail;
            deflateEnd _ := Z_OK; inflateInit := (Z_OK, tt); inflate _ src dst _ _ := run_inflate src dst;
            inflateEnd _ := Z_OK |}; try done.
  - intros _ src dst avail _ err [] dst' total H. unfold run_deflate in H.
    destruct (run_of src) as [b|] eqn:E, dst as [|x dst]; try (by injection H as <- <- <-).
    step_if_in H; [|by injection H as <- <- <-]. injection H as <- <- <-. split; [done|]. intros Hs Hd.
    apply run_of_replicate in E as [_ Hin]. inversion Hd. constructor; [|done].
    by apply (proj1 (List.Forall_forall _ _) Hs).
  - intros _ src dst avail _ err [] dst' total H He. unfold run_deflate in H.
    destruct (run_of src) as [b|] eqn:E, dst as [|x dst]; try (by injection H as <- <- <-; done).
    step_if_in H; [|injection H as <- <- <-; done]. injection H as <- <- <-. b2p. lia.
  - intros level [] src dst avail [] dst' total F d _ H Hag Hl. exists tt. split; [|done]. unfold run_deflate in H.
    destruct (run_of src) as [b|] eqn:E, dst as [|x dst]; try discriminate H.
    step_if_in H; [|discriminate H]. injection H as <- <-. apply run_of_replicate in E as [-> _].
    specialize (Hag 0 ltac:(lia)). apply (f_equal (fun o => o)) in Hag. cbn in Hag.
    destruct F as [|y F]; [done|]. cbn in Hag. injection Hag as ->. cbn.
    by rewrite length_replicate in *; rewrite Hl.
Defined.
End RunZlib.

(** A kilobyte of sevens, written on a little-endian host with gzip-1 and
    Fletcher-4, read on a big-endian one. *)
Definition ex_machine : machine := Mach 0 (replicate 256 0) (fun i => Z.of_nat i).
Definition ex_data : list Z := replicate 1024 7.
Definition ex_write : zio :=
  MkZio 0 None ZIO_TYPE_WRITE 5 BP_ZERO ZIO_CHECKSUM_FLETCHER_4 5 [Zt ex_data 1024 1024] 0 None.

Lemma ex_write_data : io_data ex_write = ex_data.
Proof. by vm_compute. Qed.
Lemma ex_write_block : has_block ex_write.
Proof.
  exists (Zt ex_data 1024 1024), []. split; [done|]. rewrite ex_write_data.
  split; [|by vm_compute]. split; [by apply Forall_replicate|by vm_compute].
Qed.
Lemma ex_write_request : write_request ex_write.
Proof. split; [apply ex_write_block|]. split_and!; try done. Qed.
Lemma ex_not_zero : io_data ex_write <> replicate (length (io_data ex_write)) 0.
Proof. rewrite ex_write_data. intros H. apply (f_equal head) in H. vm_compute in H. discriminate H. Qed.

Lemma zio_write_read_witness :
  exists z1 z2, zio_write_compress (ZL := RunZlib.run_zlib) ex_machine false 1 ex_write = Ok z1 /\
    zio_checksum_generate false (replicate 128 0) z1 = Ok z2 /\
    forall bp dst zb spa, placed bp (io_bp z2) -> length dst = length (io_data ex_write) ->
      exists zr, read_block (ZL := RunZlib.run_zlib) ex_machine true (replicate 128 1) (Inj 0 [] (fun _ => 0)) spa bp (io_data z2) dst zb = Ok zr /\
        io_error zr = None /\ io_data zr = io_data ex_write.
Proof.
  destruct (zio_write_read (ZL := RunZlib.run_zlib) ex_machine ex_machine false true (replicate 128 0) (replicate 128 1) 1 ex_write
    (Inj 0 [] (fun _ => 0))) as (z1 & E1 & H).
  - reflexivity.
  - apply ex_pad_ok.
  - split; [reflexivity|apply Forall_replicate; split; [discriminate|reflexivity]].
  - apply ex_write_request.
  - split; [discriminate|reflexivity].
  - reflexivity.
  - reflexivity.
  - exists z1. destruct H as [[_ H]|(z2 & E2 & H)]; [destruct (ex_not_zero H)|]. exists z2. exact (conj E1 (conj E2 H)).
Defined.

End ZioCompress.
